(* ===== verification/_CoqProject ===== *)
-Q . S2P
Prelude.v
Boost.v
Names.v
BlockTimestamp.v
ChainAsset.v
ChainAssetSpec.v
Cdt.v
Dreamoji.v
Market.v
DreamojiSale.v
DreamojiLicence.v
DreamojiTokens.v
DreamojiSupply.v
DreamojiRuns.v
Accumulator.v
ResourceLimits.v
ResourceLimitsSpec.v
Authority.v
AuthoritySpec.v
Authorization.v
AuthorizationSpec.v
EosioContract.v
EosioContractSpec.v
Merkle.v
MerkleSpec.v
BlockHeader.v
BlockHeaderState.v
BlockHeaderSpec.v
DposSpec.v
DposRuns.v
Intrinsics.v
Hex.v
Raw.v
ProtocolFeatures.v
ProtocolFeaturesSpec.v
FeatureActivation.v
FeatureActivationSpec.v
FeatureRuns.v
FeatureTheorems.v
ChainConfig.v
RawChain.v
ActorList.v
TransactionContext.v
TransactionContextSpec.v
Transactions.v
Execution.v
Deferred.v
Actions.v
ActionsSpec.v
ExecutionRam.v
DeferredSpec.v
Push.v
PushSpec.v
ExecutionRuns.v
Chainbase.v
ChainbaseSpec.v
ChainbaseRuns.v
ForkDatabase.v
ForkDatabaseSpec.v
ForkFile.v
ForkRuns.v
Controller.v
ControllerSpec.v
ControllerRuns.v
ContractTables.v
ContractTablesSpec.v
ApplyContext.v
ApplyContextSpec.v
ApplyContextSteps.v
ContractRuns.v
ContractMap.v
ProducerSchedule.v
BlockBuilding.v
Replay.v
ReplayBlocks.v
BlockExecution.v
BlockLogSpec.v
MessageBuffer.v
NetMessages.v
SyncManager.v
