(* ===== verification/Prelude.v ===== *)
(** * A verification development for DreamChain

    DreamChain is a blockchain node (DreamChainCore, a fork of EOSIO, in
    src/DreamChainCore) and a contract for non-fungible tokens (dreamoji, in
    src/NFT-Contracts) that runs on it.  This development models the parts of
    both that decide what is valid: the state of the chain database and how
    sessions, fork switches and irreversibility move it, how transactions are
    executed, billed and retired, who may authorize what, who pays for what,
    and who owns which token.

    ** Parts of the program and where they are modelled

    The node receives blocks ([controller]); their headers are checked and
    turned into header states ([block_header_state]); the fork database keeps
    the branches that are not yet irreversible.  A block is executed one
    transaction after the other: the controller pushes a transaction, the
    transaction context sets its limits, runs its actions and bills it, and the
    apply context runs one action with its notifications, inline actions and
    deferred transactions.  Actions change the tables of the chain database
    ([chainbase]) through the native handlers, the authorization manager, the
    resource limits manager and the tables of contracts.  Protocol features
    switch rules on as the chain goes.  Blocks and transactions are serialised
    when they are sent, hashed or stored; irreversible blocks go to the block
    log; nodes exchange messages.  The NFT contract is a client of all this.

    - Names, BlockTimestamp, Boost: account names (name.hpp, name.cpp), block
      times (block_timestamp.hpp), and what is used of Boost.  ChainAsset:
      assets and symbols, their arithmetic and their texts (asset.hpp/.cpp,
      symbol.hpp).  ChainAssetSpec: texts are read back, sums are exact.
    - Cdt, Dreamoji, Market: the conversion of a double to an integer
      (wasm_interface.cpp), the interface of the contract development kit, and
      the NFT contract itself, one definition per action and helper
      (dreamoji.hpp, dreamoji.cpp, service.hpp).  DreamojiSale: transfers and
      purchases.  DreamojiLicence: licences and locks.  DreamojiTokens: token
      ids, and termination of the recursion through linked tokens.
      DreamojiSupply: balances add up to supplies in every reachable state.
      DreamojiRuns: an instance of the interface, and concrete runs, among them
      those that show defects of the contract.
    - Accumulator, ResourceLimits: usage averages and the resource limits
      manager (resource_limits.hpp/.cpp, resource_limits_private.hpp).
      ResourceLimitsSpec: totals, limits and block boundaries.
    - Authority: authorities and the authority checker (authority.hpp,
      authority_checker.hpp).  AuthoritySpec: what a satisfied authority means.
      Authorization: the authorization manager (authorization_manager.cpp).
      AuthorizationSpec: what an authorized transaction means.
    - EosioContract: the native actions and the genesis accounts
      (eosio_contract.cpp, controller.cpp).  EosioContractSpec: their
      invariant, and a chain from genesis.
    - Merkle: merkle roots and the incremental tree (merkle.cpp,
      incremental_merkle.hpp).  MerkleSpec: they agree.
    - BlockHeader, BlockHeaderState: headers, schedules and the DPOS header
      state (block_header.cpp, block_header_state.cpp,
      protocol_feature_activation.cpp).  BlockHeaderSpec: who may produce what.
      DposSpec: confirmations and irreversibility.  DposRuns: concrete chains.
    - Chainbase: tables with undo sessions (chainbase.hpp, chainbase.cpp).
      ChainbaseSpec, ChainbaseRuns: the refinement of a database that keeps a
      copy per session, and atomic sessions.
    - ForkDatabase: the fork database (fork_database.cpp).  ForkDatabaseSpec:
      its invariant.  ForkFile: branches meet, saving and restoring.  ForkRuns: the theorems and concrete databases.
    - Controller: receiving, switching to and committing blocks
      (controller.cpp).  ControllerSpec, ControllerRuns: head, fork database,
      tables, reversible blocks and block log stay in step.
    - ContractTables: the tables of contracts and the iterator cache
      (contract_table_objects.hpp, apply_context.hpp).  ApplyContext: the
      database methods of the apply context (apply_context.hpp,
      apply_context.cpp).  ContractTablesSpec: ordered indices and the cache.
      ApplyContextSpec: the invariant and the ledger of RAM.
      ApplyContextSteps: every method keeps them.  ContractRuns: consistency,
      billing, consent and isolation for all sequences of calls.  ContractMap:
      the tables are ordered maps; concrete runs.
    - Intrinsics, Hex: whitelisted intrinsics (whitelisted_intrinsics.cpp,
      genesis_intrinsics.cpp) and hexadecimal text.  ProtocolFeatures: the
      features, their set and their manager (protocol_feature_manager.hpp/.cpp).
      FeatureActivation: preactivation and activation in blocks
      (controller.cpp, protocol_state_object.cpp).  ProtocolFeaturesSpec,
      FeatureActivationSpec, FeatureRuns, FeatureTheorems: what they keep.
    - ChainConfig: the configuration and its validation (chain_config.hpp/.cpp,
      genesis_state.hpp).  ActorList: white and black lists (controller.cpp).
    - TransactionContext: limits, time, billing (transaction_context.cpp).
      TransactionContextSpec: what is billed.  Transactions: headers and
      extensions (transaction.hpp/.cpp).
    - Execution: the state of a running transaction, and what a contract may
      ask for.  Deferred: deferred transactions.  Actions: one action, its
      notifications and inline actions, and whole transactions
      (apply_context.cpp, transaction_context.cpp, wasm_interface.cpp).
      ActionsSpec: every action is executed once, and the loop over
      notifications ends.  ExecutionRam: RAM is charged with consent.
      DeferredSpec: the RAM of deferred transactions.
    - Push: pushing input, implicit and deferred transactions, error handlers
      and receipts (controller.cpp).  PushSpec: retirement, and no transaction
      twice, receipts respect the limits.  ExecutionRuns: concrete bills, and
      a contract at work.
    - ProducerSchedule: proposals of schedules and their promotion.
      BlockBuilding: the start and the end of a block, and the execution of a
      received one (controller.cpp), reference blocks and the authority of the
      producers.  Replay, ReplayBlocks: a validator follows the producer;
      concrete blocks.  BlockExecution: which checks are made for which status
      of a block (light_validation_allowed), a whole received block
      (apply_block), and that executing it again gives the same: the instance
      of the interface of Controller.
    - Raw: serialisation, a codec per type with its law (fc: raw.hpp,
      varint.hpp, static_variant.hpp).  RawChain: the bytes of transactions,
      packed transactions, receipts, blocks and the genesis state (block.hpp,
      block_header.hpp, transaction.hpp/.cpp, genesis_state.hpp), and the
      recovery of signing keys with its cache.
    - BlockLogSpec: the block log and its index as files of bytes: opening,
      appending, reading, rebuilding the index, repairing (block_log.cpp); the
      log is a list that survives restarts and cuts.
    - MessageBuffer: the chain of buffers of a connection
      (message_buffer.hpp), a queue of bytes.  NetMessages: the messages of the
      network protocol, their frames, and the handler of incoming bytes
      (protocol.hpp, net_plugin.cpp): messages arrive as sent.  SyncManager:
      the state machine that fetches missing blocks from peers, and the side
      that serves them (net_plugin.cpp).

    ** How the code is represented

    State is a [Record] per component, data are records and inductive types
    with the names of the source; a fallible operation returns [result], whose
    [Err] stands for the exception (messages are abbreviated).  A thrown
    exception ends the transaction or the block; where the code catches it
    (the controller) or goes on with what was changed before it, the model
    keeps the state besides the result.  Integers are [Z] with the wrap-around
    of their width written out ([u8] to [u128], [i32], [i64]).  Tables are
    finite maps; iteration follows the order of the index the code uses.  The
    tables of contracts live in the indices of Chainbase, so that its theorems
    on sessions apply to them.

    Code outside the repository and code that is only called are parameters,
    as type classes with laws: [Boost] (trimming), [Cdt] (tables, assets and
    names of the contract development kit), [BoostText] (conversion of text to
    integers), [Zlib] (compression), [PublicKey] (an ordered type),
    [HeaderCrypto] (digests, signatures, key recovery, packing), [UniqueKeys]
    (unique indices of a table), [SecondaryKeys] (comparison of secondary
    keys).  The interface [Execution] of Controller (what executing a block
    does to the tables, and that doing it again gives the same) is implemented
    by the execution of transactions in BlockExecution.  Each class has an
    instance at which the theorems are evaluated.  Hashing and key recovery of RawChain,
    and what the handlers of NetMessages know and close, are arguments.

    Transactions are executed in an environment [xenv]: what the controller
    and the configuration of the node say, and functions for the code that is
    only called: contracts, decoding of native actions, hashes, sizes of packed
    values.  A contract is a tree of host calls ([program]); what it computes
    in between is in the continuations, its tables are a type of their own, the
    RAM it takes for them is a host call, and running out of time is an
    exception it throws.  The clock is an argument: the times at the start, at
    initialization and at the end.  A database session that is undone is the
    state before it; the mode that skips sessions is not modelled.  Which checks
    a node skips is part of the environment; the transaction at the start of a
    block and deferred transactions are executed with all checks
    ([requiring_checks], for in_trx_requiring_checks).  The privileged host
    calls that change the configuration, the proposed schedule and the
    preactivated features are not part of [program].  Exceptions
    that decide what happens next are told apart by their message.

    ** What the theorems show

    - The NFT contract: supplies are conserved, as long as a row that is read
      after it was erased is intact (undefined behaviour), a transfer moves
      exactly the tokens of the account that authorized it, a purchase pays out the price
      and delivers every token, token ids are unique and never reused.
    - Authorization: what the checker accepts is satisfied in a declarative
      sense; a transaction passes only with every permission it needs; the
      permission tables stay trees through all native actions.
    - Resources: the totals are exact, and a receipt charges no more than the
      limits of the transaction, the configuration, the block and the accounts.
    - Transactions: every action that is sent or notified is executed exactly
      once, with consecutive sequence numbers; an unprivileged contract raises
      the RAM of another account only with its consent; the RAM of deferred
      transactions is accounted for through all that happens to them; a
      deferred transaction is retired with one receipt or left as it was; no
      input transaction gets in twice, and each is tied to the fork it was
      made for.
    - Bytes: transactions and blocks are read back from their serialisation,
      whatever follows, and not from less; assets and symbols are read back
      from their texts; the block log answers every block number as a list of
      blocks would, opens again as it was, and after any cut is repaired to the
      blocks that were complete; messages are handled once, in order, however
      the network cuts the stream, until a handler closes the connection.  A
      node that learns of irreversible blocks asks its peers for each of them
      once, and ends in sync, when nothing interrupts it.  With one digest per
      transaction the cache of recovered keys is right.
    - Blocks between nodes: what a producer without grey lists took into its
      block, but for failed deferred transactions, every node that follows it
      executes with the same receipts and the same state.
    - Protocol features: manager, protocol state and head agree, aborted blocks
      leave no trace, preactivated features can be activated.
    - Contract tables: rows, counts and iterators are consistent whatever a
      contract calls, its tables are ordered maps, it cannot touch the tables
      of others, payers are charged exactly what their rows take, and only
      with consent.
    - Blocks: headers are authentic, a block becomes irreversible only with
      the confirmations of two thirds of the producers (when no header confirms
      more blocks than there are), the merkle tree that
      grows one by one is the tree of all, and proposed schedules never make a
      block fail.
    - The database: undo sessions restore exactly what they started from; the
      fork database is a tree with the best validated block as head; fork
      switches, also failing ones, leave head, tables and logs in step, and the
      head at the best block, while last irreversible numbers do not go back.
    - Some theorems show where the code departs from its documentation or its
      intent: licences nobody can manage, tokens that a stranger can lock or
      take back, confirmations that wrap around, an irreversible block number
      that goes back, an end iterator that outlives its table, a charge that
      fails although it never should, configurations that compare equal, a key
      cache that overlooks the context-free data, amounts with a sign inside, a
      node that takes itself for in sync.

    ** Bounds and fuel

    Recursion that is not structural takes fuel.  The walks of the fork
    database are given the number of its blocks, or one more, and are shown to
    end with it ([branches_meet]; the loops of [remove] and [advance_root]);
    [undo_all] is given the height of the stack; the authority checker is
    bounded by the depth limit of the code itself; [_changeowner] takes the
    call depth of the contract, and [changeowner_terminates] gives the depth
    that is enough for every acyclic link graph; the loop over notified
    accounts is given one more than the number of accounts, and takes at most as
    many rounds as there are accounts ([notifications_end]); inline actions nest as deep as the configuration
    allows, which is the limit of the code itself; the loop that pops features
    is given the number of features.  An integer of variable length takes up to
    5 bytes, a symbol name up to 8 letters, an amount up to 20 digits; the loops
    over the block log are bounded by its length, those over the message buffer
    by the number of its buffers, and the loop over messages by the number of
    bytes, each shown to be enough.  Everything else is total.
    Theorems on contract tables hold for up to 2^31 - 3 calls of one action,
    the range of its 32-bit iterators, and for up to 2^31 rows at its start.

    ** Not modelled

    Replay and startup, the list of unapplied transactions, the threads that
    recover keys, the virtual machines and their memory, the intrinsics that
    only compute (softfloat, hashes, printing), the serialisation of maps and
    sets, the cryptography, variants and file handling of fc, connecting,
    dispatching and timers of the network plugin, snapshots, the ABI
    serialiser, the other plugins, programs, clients and tests: they are
    either input and output, third-party code, or on the list below.  Of
    deferred transactions that failed, the agreement of producer and validator
    is not shown: it rests on the clock of the producer.

    To be modelled next: the dispatcher of the network plugin, the validation
    of contract modules, the secondary indices of generated transactions, and
    the privileged host calls inside contracts. *)

From stdpp Require Import base numbers list gmap strings sorting.
From Stdlib Require Import ZArith Lia String Ascii.

#[global] Set Default Goal Selector "!".
Local Open Scope Z_scope.

(** ** Results

    Every fallible operation of the C++ code ([EOS_ASSERT], [check],
    [FC_THROW]) either returns or unwinds with an exception that the caller
    does not catch; [Err] carries the exception class, or the contract's
    assertion message. *)

Inductive result (A : Type) : Type :=
| Ok (a : A)
| Err (e : string).
Arguments Ok {A} _.
Arguments Err {A} _.

#[global] Instance result_ret : MRet result := fun A a => Ok a.
#[global] Instance result_bind : MBind result := fun A B f m =>
  match m with Ok a => f a | Err e => Err e end.
#[global] Instance result_fmap : FMap result := fun A B f m =>
  match m with Ok a => Ok (f a) | Err e => Err e end.

#[global] Instance result_eq_dec `{EqDecision A} : EqDecision (result A).
Proof. solve_decision. Defined.

Definition is_ok {A} (r : result A) : bool :=
  match r with Ok _ => true | Err _ => false end.

(** [check(cond, msg)] and [EOS_ASSERT(cond, exception, ...)]. *)
Definition check (b : bool) (msg : string) : result unit :=
  if b then Ok tt else Err msg.

Definition of_option {A} (o : option A) (msg : string) : result A :=
  match o with Some a => Ok a | None => Err msg end.

(** A [for] loop over a range whose body updates the state or throws. *)
Fixpoint mfold {S A} (f : S -> A -> result S) (l : list A) (s : S) : result S :=
  match l with
  | [] => Ok s
  | a :: l => s' ← f s a; mfold f l s'
  end.

Section Results.
Context {A B : Type}.
Implicit Types (m : result A) (f : A -> result B).

Lemma bind_ok m f b : (m ≫= f) = Ok b <-> exists a, m = Ok a /\ f a = Ok b.
Proof.
  split.
  - destruct m as [a|e]; [eauto | discriminate].
  - intros (a & -> & H). exact H.
Qed.

Lemma check_ok b msg u : check b msg = Ok u <-> b = true.
Proof. destruct b, u; simpl; split; congruence. Qed.

Lemma of_option_ok (o : option A) msg a : of_option o msg = Ok a <-> o = Some a.
Proof. destruct o; simpl; split; congruence. Qed.

Lemma Ok_inj (a b : A) : Ok a = Ok b <-> a = b.
Proof. split; congruence. Qed.

(** Building a successful run, step by step. *)
Lemma run_bind m f a : m = Ok a -> (exists b, f a = Ok b) -> exists b, (m ≫= f) = Ok b.
Proof. by intros ->. Qed.

Lemma run_check (f : unit -> result B) c msg :
  c = true -> (exists b, f tt = Ok b) -> exists b, (check c msg ≫= f) = Ok b.
Proof. by intros ->. Qed.

End Results.

Section Loops.
Context {A S : Type}.

(** Loop rule: a property of the state that every iteration keeps. *)
Lemma mfold_inv (P : S -> Prop) (g : S -> A -> result S) l s s' :
  (forall s a s', a ∈ l -> P s -> g s a = Ok s' -> P s') ->
  P s -> mfold g l s = Ok s' -> P s'.
Proof.
  revert s. induction l as [|a l IH]; intros s Hstep HP H; simpl in H.
  - congruence.
  - apply bind_ok in H as (s1 & H1 & H2). eapply IH; [| | exact H2].
    + intros. eapply Hstep; eauto. by right.
    + eapply Hstep; eauto. by left.
Qed.

(** What each iteration establishes for its element, and no later one undoes,
    holds of every element at the end. *)
Lemma mfold_each (P : S -> Prop) (R : A -> S -> Prop) (g : S -> A -> result S) l s s' :
  (forall s a s', a ∈ l -> P s -> g s a = Ok s' -> P s' /\ R a s') ->
  (forall s a b s', P s -> g s b = Ok s' -> R a s -> R a s') ->
  P s -> mfold g l s = Ok s' -> P s' /\ forall a, a ∈ l -> R a s'.
Proof.
  intros Hstep Hstable. revert s. induction l as [|x l IH]; intros s HP H; simpl in H.
  - apply Ok_inj in H as <-. split; [done|]. intros a Ha. by apply not_elem_of_nil in Ha.
  - apply bind_ok in H as (s1 & H1 & H2).
    destruct (Hstep s x s1) as [HP1 HR1]; [by left|done|done|].
    assert (Hrest := IH (fun s a s' Ha => Hstep s a s' (list_elem_of_further _ _ _ Ha)) s1 HP1 H2).
    destruct Hrest as [HP' HR']. split; [done|]. intros a Ha.
    apply elem_of_cons in Ha as [->|Ha]; [|by apply HR'].
    enough (P s' /\ R x s') by tauto. revert H2.
    apply (mfold_inv (fun s => P s /\ R x s)); [|done].
    intros s2 b s3 Hb [HP2 HR2] Hg. split; [|eauto].
    eapply Hstep; [right; exact Hb | exact HP2 | exact Hg].
Qed.

Lemma mfold_app (g : S -> A -> result S) l1 l2 s :
  mfold g (l1 ++ l2) s = s' ← mfold g l1 s; mfold g l2 s'.
Proof.
  revert s. induction l1 as [|a l1 IH]; intros s; simpl; [done|].
  destruct (g s a); simpl; [apply IH | done].
Qed.

(** Two bodies that agree wherever an invariant of the first holds run alike. *)
Lemma mfold_agree (P : S -> Prop) (g h : S -> A -> result S) l s :
  (forall s a, a ∈ l -> P s -> g s a = h s a) ->
  (forall s a s', a ∈ l -> P s -> g s a = Ok s' -> P s') ->
  P s -> mfold g l s = mfold h l s.
Proof.
  revert s. induction l as [|a l IH]; intros s Heq Hinv HP; [done|]. simpl.
  rewrite <- Heq; [|by left|done]. destruct (g s a) as [s'|] eqn:E; [|done]. simpl.
  apply IH; [intros; apply Heq; [by right|done] | | eapply Hinv; [by left|done|done]].
  intros s1 b s2 Hb. apply Hinv. by right.
Qed.
End Loops.

(** ** Machine integers

    A C++ integer of width [w] is a [Z]; each operation that can leave its
    range is wrapped explicitly. *)

Definition u8 (z : Z) : Z := z mod 2 ^ 8.
Definition u16 (z : Z) : Z := z mod 2 ^ 16.
Definition u32 (z : Z) : Z := z mod 2 ^ 32.
Definition u64 (z : Z) : Z := z mod 2 ^ 64.
Definition u128 (z : Z) : Z := z mod 2 ^ 128.
(** Conversion to [int64_t] and [int] (two's complement). *)
Definition i64 (z : Z) : Z := (z + 2 ^ 63) mod 2 ^ 64 - 2 ^ 63.
Definition i32 (z : Z) : Z := (z + 2 ^ 31) mod 2 ^ 32 - 2 ^ 31.

Definition UINT32_MAX : Z := 2 ^ 32 - 1.
Definition UINT64_MAX : Z := 2 ^ 64 - 1.
Definition INT64_MAX : Z := 2 ^ 63 - 1.
Definition INT64_MIN : Z := - 2 ^ 63.

Definition is_u16 (z : Z) : Prop := 0 <= z < 2 ^ 16.
Definition is_u32 (z : Z) : Prop := 0 <= z < 2 ^ 32.
Definition is_u64 (z : Z) : Prop := 0 <= z < 2 ^ 64.
Definition is_u128 (z : Z) : Prop := 0 <= z < 2 ^ 128.
Definition is_i64 (z : Z) : Prop := - 2 ^ 63 <= z < 2 ^ 63.
Definition is_i32 (z : Z) : Prop := - 2 ^ 31 <= z < 2 ^ 31.

(** ** Billing constants ([config.hpp]) *)

Definition billable_alignment : Z := 16.
Definition billable_size_v (value : Z) : Z :=
  (value + billable_alignment - 1) / billable_alignment * billable_alignment.
Definition overhead_per_row_per_index_ram_bytes : Z := 32.

Section Machine.
Implicit Types z : Z.

Lemma u16_small z : is_u16 z -> u16 z = z.
Proof. apply Z.mod_small. Qed.
Lemma u32_small z : is_u32 z -> u32 z = z.
Proof. apply Z.mod_small. Qed.
Lemma u64_small z : is_u64 z -> u64 z = z.
Proof. apply Z.mod_small. Qed.
Lemma u128_small z : is_u128 z -> u128 z = z.
Proof. apply Z.mod_small. Qed.
Lemma i64_small z : is_i64 z -> i64 z = z.
Proof. unfold i64, is_i64. intros. rewrite Z.mod_small by lia. lia. Qed.

Lemma i32_small z : is_i32 z -> i32 z = z.
Proof. unfold i32, is_i32. intros. rewrite Z.mod_small by lia. lia. Qed.

Lemma u16_range z : is_u16 (u16 z).
Proof. apply Z.mod_pos_bound; lia. Qed.
Lemma u32_range z : is_u32 (u32 z).
Proof. apply Z.mod_pos_bound; lia. Qed.
Lemma u64_range z : is_u64 (u64 z).
Proof. apply Z.mod_pos_bound; lia. Qed.
Lemma u128_range z : is_u128 (u128 z).
Proof. apply Z.mod_pos_bound; lia. Qed.
Lemma i64_range z : is_i64 (i64 z).
Proof.
  unfold i64, is_i64. pose proof (Z.mod_pos_bound (z + 2 ^ 63) (2 ^ 64)). lia.
Qed.
End Machine.

Section Signed.
Implicit Types x y : Z.

(** [int64_t] arithmetic is arithmetic modulo 2^64. *)
Lemma i64_mod x : i64 x mod 2 ^ 64 = x mod 2 ^ 64.
Proof.
  unfold i64. rewrite <- (Zminus_mod_idemp_l), Z.mod_mod, Zminus_mod_idemp_l by lia.
  f_equal. lia.
Qed.

Lemma i64_ext x y : x mod 2 ^ 64 = y mod 2 ^ 64 -> i64 x = i64 y.
Proof.
  intros H. unfold i64. rewrite <- (Zplus_mod_idemp_l x), <- (Zplus_mod_idemp_l y), H. done.
Qed.

Lemma i64_add_l x y : i64 (i64 x + y) = i64 (x + y).
Proof. apply i64_ext. rewrite <- Zplus_mod_idemp_l, i64_mod, Zplus_mod_idemp_l. done. Qed.

Lemma i64_add_r x y : i64 (x + i64 y) = i64 (x + y).
Proof. rewrite Z.add_comm, i64_add_l. f_equal. lia. Qed.
End Signed.

Lemma list_last_cases {A} (l : list A) : l = [] \/ exists l' x, l = l' ++ [x].
Proof. induction l as [|x l _] using rev_ind; eauto. Qed.

Section Bits.
(** The low [w] bits are closed under the bitwise operations. *)
Lemma lor_range w a b : 0 <= w ->
  0 <= a < 2 ^ w -> 0 <= b < 2 ^ w -> 0 <= Z.lor a b < 2 ^ w.
Proof.
  intros Hw Ha Hb. split; [apply Z.lor_nonneg; lia|].
  replace a with (a mod 2 ^ w) by (apply Z.mod_small; lia).
  replace b with (b mod 2 ^ w) by (apply Z.mod_small; lia).
  rewrite <- !Z.land_ones, <- Z.land_lor_distr_l, Z.land_ones by lia.
  apply Z.mod_pos_bound. lia.
Qed.

Lemma lor_u64 a b : is_u64 a -> is_u64 b -> is_u64 (Z.lor a b).
Proof. apply lor_range. lia. Qed.

(** Bits above the lowest [n] are added. *)
Lemma lor_above a b n : 0 <= n -> 0 <= a < 2 ^ n -> Z.lor a (Z.shiftl b n) = a + b * 2 ^ n.
Proof.
  intros Hn Ha. rewrite <- Z.shiftl_mul_pow2 by lia. symmetry. apply Z.add_nocarry_lor.
  apply Z.bits_inj'. intros i Hi. rewrite Z.land_spec, Z.bits_0, Z.shiftl_spec by lia.
  destruct (Z.lt_ge_cases i n) as [Hl|Hl].
  - by rewrite (Z.testbit_neg_r b) by lia; rewrite andb_false_r.
  - rewrite <- (Z.mod_small a (2 ^ n)) by lia. by rewrite Z.mod_pow2_bits_high by lia.
Qed.
End Bits.

(** ** Evaluating closed runs *)

Definition from_ok {A} (d : A) (r : result A) : A := match r with Ok a => a | Err _ => d end.
Lemma from_ok_eq {A} (d : A) r : is_ok r = true -> r = Ok (from_ok d r).
Proof. by destruct r. Qed.

Create HintDb dream.
#[export] Hint Resolve u16_small u32_small u64_small u128_small i64_small : dream.
#[export] Hint Resolve u16_range u32_range u64_range u128_range i64_range : dream.
#[export] Hint Unfold is_u16 is_u32 is_u64 is_u128 is_i64 is_i32 : dream.

(** ** Sums over finite maps *)

Definition map_sum `{Countable K} {A} (f : K -> A -> Z) (m : gmap K A) : Z :=
  map_fold (fun k a acc => f k a + acc) 0 m.

Section MapSum.
Context `{Countable K} {A : Type}.
Implicit Types (f : K -> A -> Z) (m : gmap K A).

Lemma map_sum_empty f : map_sum f ∅ = 0.
Proof. apply map_fold_empty. Qed.

Lemma map_sum_insert_new f m k a :
  m !! k = None -> map_sum f (<[k := a]> m) = f k a + map_sum f m.
Proof. intros Hk. unfold map_sum. rewrite map_fold_insert_L; [done | intros; lia | done]. Qed.

Lemma map_sum_delete f m k a :
  m !! k = Some a -> map_sum f (delete k m) = map_sum f m - f k a.
Proof.
  intros Hk. rewrite <- (insert_delete_id m k a) at 2 by done.
  rewrite map_sum_insert_new by apply lookup_delete_eq. lia.
Qed.

Lemma map_sum_insert f m k a old :
  m !! k = Some old -> map_sum f (<[k := a]> m) = map_sum f m - f k old + f k a.
Proof.
  intros Hk. rewrite <- insert_delete_eq, map_sum_insert_new by apply lookup_delete_eq.
  rewrite (map_sum_delete f m k old Hk). lia.
Qed.

Lemma map_sum_nonneg f m :
  (forall k a, m !! k = Some a -> 0 <= f k a) -> 0 <= map_sum f m.
Proof.
  induction m as [|k a m Hk IH] using map_ind; intros Hf; [rewrite map_sum_empty; lia|].
  rewrite map_sum_insert_new by done. specialize (Hf k a) as Ha.
  rewrite lookup_insert_eq in Ha. specialize (Ha eq_refl). enough (0 <= map_sum f m) by lia.
  apply IH. intros k' a' Hk'. apply Hf. rewrite lookup_insert_ne; [done | congruence].
Qed.

(** A term of a sum of non-negative terms is at most the sum. *)
Lemma map_sum_le f m k a :
  (forall k a, m !! k = Some a -> 0 <= f k a) -> m !! k = Some a -> f k a <= map_sum f m.
Proof.
  intros Hf Hk. enough (0 <= map_sum f (delete k m)) by (rewrite (map_sum_delete f m k a) in *; lia || done).
  apply map_sum_nonneg. intros k' a' H'. apply lookup_delete_Some in H' as [_ H']. eauto.
Qed.

Lemma map_sum_zero f m : (forall k a, m !! k = Some a -> f k a = 0) -> map_sum f m = 0.
Proof.
  induction m as [|k a m Hk IH] using map_ind; intros Hf; [done|].
  rewrite map_sum_insert_new by done. rewrite (Hf k a) by apply lookup_insert_eq.
  rewrite IH; [done|]. intros k' a' Hk'. apply Hf. rewrite lookup_insert_ne; [done | congruence].
Qed.

Lemma map_sum_ext f g m :
  (forall k a, m !! k = Some a -> f k a = g k a) -> map_sum f m = map_sum g m.
Proof.
  induction m as [|k a m Hk IH] using map_ind; intros Hf; [done|].
  rewrite !map_sum_insert_new by done. rewrite (Hf k a) by apply lookup_insert_eq.
  rewrite IH; [done|]. intros k' a' Hk'. apply Hf. rewrite lookup_insert_ne; [done | congruence].
Qed.
End MapSum.

(** ** Tactics *)

(** [ok_inv] takes a successful run apart: each [x ← m; k = Ok r] hypothesis
    becomes the success of [m] and of [k]; each passed assertion its
    condition. *)
Ltac ok_step :=
  match goal with
  | H : (_ ≫= _) = Ok _ |- _ => apply (proj1 (bind_ok _ _ _)) in H; destruct H as (? & ? & ?)
  | H : check _ _ = Ok _ |- _ => apply (proj1 (check_ok _ _ _)) in H
  | H : of_option _ _ = Ok _ |- _ => apply (proj1 (of_option_ok _ _ _)) in H
  | H : Ok _ = Ok _ |- _ => apply (proj1 (Ok_inj _ _)) in H
  | H : mret _ = Ok _ |- _ => apply (proj1 (Ok_inj _ _)) in H
  | H : Err _ = Ok _ |- _ => discriminate H
  | H : bool_decide _ = true |- _ => apply bool_decide_eq_true in H
  | H : bool_decide _ = false |- _ => apply bool_decide_eq_false in H
  | H : negb _ = true |- _ => apply negb_true_iff in H
  | H : (_ && _)%bool = true |- _ => apply andb_true_iff in H; destruct H
  | H : (_ <=? _) = true |- _ => apply Z.leb_le in H
  | H : (_ <? _) = true |- _ => apply Z.ltb_lt in H
  | H : (_ >=? _) = true |- _ => rewrite Z.geb_leb in H
  | H : (_ >? _) = true |- _ => rewrite Z.gtb_ltb in H
  | H : (_ =? _) = true |- _ => apply Z.eqb_eq in H
  | H : (_ <=? _) = false |- _ => apply Z.leb_gt in H
  | H : (_ <? _) = false |- _ => apply Z.ltb_ge in H
  | H : (_ =? _) = false |- _ => apply Z.eqb_neq in H
  end.
Ltac ok_inv := repeat (ok_step; cbn beta in *).

(** Unfolds the machine ranges before linear arithmetic. *)
Ltac mach_lia :=
  unfold is_u16, is_u32, is_u64, is_u128, is_i64, is_i32,
    UINT32_MAX, UINT64_MAX, INT64_MAX, INT64_MIN in *; lia.

(** Names the value and the success of the first step of a run. *)
Tactic Notation "ok_bind" hyp(H) "as" simple_intropattern(x) simple_intropattern(Hx) :=
  apply (proj1 (bind_ok _ _ _)) in H; destruct H as (x & Hx & H); cbn beta in H.

(** Evaluates a closed run, whose outcome is named by [from_ok]. *)
Ltac run_ok := apply from_ok_eq; vm_cast_no_check (eq_refl true).
(** Evaluates the left-hand side of an equation between closed terms. *)
Ltac compute_run := match goal with |- _ = ?r => vm_cast_no_check (eq_refl r) end.
