(* ===== verification/Boost.v ===== *)
(** * The Boost and C string routines the chain library calls

    Boost is not part of the repository: what the sources use of it is a
    type class whose fields are the functions and whose laws are their
    documented behaviour.  [boost_reference] is an executable instance, used
    where a theorem is evaluated on a concrete input. *)

From stdpp Require Import base numbers list strings.
From Stdlib Require Import ZArith Lia Ascii.
From S2P Require Import Prelude.
Local Open Scope Z_scope.

(** Characters and [char*] strings: a [std::string] is the list of its
    characters. *)
Abbreviation chars := (list ascii).
Definition chr (c : ascii) : Z := Z.of_N (N_of_ascii c).
Definition NUL : ascii := Ascii false false false false false false false false.
Definition char_in (lo hi c : ascii) : bool := (chr lo <=? chr c) && (chr c <=? chr hi).

(** [str.c_str()] read as a C string: up to the first NUL. *)
Fixpoint c_str (s : chars) : chars :=
  match s with
  | [] => []
  | c :: s => if bool_decide (c = NUL) then [] else c :: c_str s
  end.

(** Decimal digits, most significant first. *)
Definition is_digit (c : ascii) : bool := char_in "0" "9" c.
Definition digit_val (c : ascii) : Z := chr c - chr "0".
Definition decimal_value (s : chars) : Z := foldl (fun m c => 10 * m + digit_val c) 0 s.
Definition is_decimal (s : chars) : Prop := s <> [] /\ Forall (fun c => is_digit c = true) s.

Class Boost := {
  (** [boost::algorithm::trim_right_if(s, p)] *)
  trim_right_if : (ascii -> bool) -> chars -> chars;
  trim_right_if_spec : forall p s, exists t,
    s = trim_right_if p s ++ t /\ Forall (fun c => p c = true) t /\
    (forall l c, trim_right_if p s = l ++ [c] -> p c = false);
}.

Section TrimRight.
(** The longest suffix satisfying [p] is removed. *)
Fixpoint trim_right_ref (p : ascii -> bool) (s : chars) : chars :=
  match s with
  | [] => []
  | c :: s =>
    match trim_right_ref p s with
    | [] => if p c then [] else [c]
    | s' => c :: s'
    end
  end.

Lemma trim_right_ref_spec p s : exists t,
  s = trim_right_ref p s ++ t /\ Forall (fun c => p c = true) t /\
  (forall l c, trim_right_ref p s = l ++ [c] -> p c = false).
Proof.
  induction s as [|a s (t & Hs & Ht & Hlast)]; simpl.
  - exists []. repeat split; [by constructor|]. intros l c H. by destruct l.
  - destruct (trim_right_ref p s) as [|b s'] eqn:E; [destruct (p a) eqn:Ea|].
    + exists (a :: t). simpl in *. subst t. repeat split; [by constructor|].
      intros l c H. by destruct l.
    + exists t. simpl in *. subst t. repeat split; [done|].
      intros [|? [|]] c H; simpl in H; simplify_eq; done.
    + exists t. rewrite Hs at 1. repeat split; [done|].
      intros [|x l] c H; simpl in H; simplify_eq; eauto.
Qed.
End TrimRight.

#[export] Instance boost_reference : Boost :=
  {| trim_right_if := trim_right_ref; trim_right_if_spec := trim_right_ref_spec |}.
