(* ===== verification/Names.v ===== *)
(** * Account names ([name.hpp], [name.cpp])

    A name is a 64-bit integer that packs up to thirteen characters of the
    alphabet [.12345a-z], five bits each and four for the thirteenth. *)

From stdpp Require Import base numbers list strings.
From Stdlib Require Import ZArith Lia Ascii.
From Stdlib Require String.
From Stdlib Require Import Btauto.
From S2P Require Import Prelude Boost.
Local Open Scope Z_scope.

Definition char_to_symbol (c : ascii) : Z :=
  if char_in "a" "z" c then (chr c - chr "a") + 6
  else if char_in "1" "5" c then (chr c - chr "1") + 1
  else 0.

(** The loop of [string_to_name]: [str] is what is left from index [i] on;
    it stops at the terminating NUL or after twelve characters. *)
Fixpoint string_to_name_loop (str : chars) (i : nat) (name : Z) : nat * Z :=
  match str with
  | [] => (i, name)
  | c :: str' =>
    if bool_decide (c <> NUL) && Nat.ltb i 12 then
      string_to_name_loop str' (S i)
        (Z.lor name
           (u64 (Z.shiftl (Z.land (char_to_symbol c) 31) (64 - 5 * (Z.of_nat i + 1)))))
    else (i, name)
  end.

Definition string_to_name (str : chars) : Z :=
  let '(i, name) := string_to_name_loop str 0 0 in
  if Nat.eqb i 12 then Z.lor name (Z.land (char_to_symbol (nth 12 str NUL)) 15) else name.

Definition charmap : chars := String.list_ascii_of_string ".12345abcdefghijklmnopqrstuvwxyz".

(** [k] iterations of the loop of [operator string] from index [i]; filling
    [str[12-i]] is consing in front of what is already filled. *)
Fixpoint name_chars_loop (k : nat) (i : Z) (tmp : Z) (str : chars) : chars :=
  match k with
  | O => str
  | S k =>
    let c := nth (Z.to_nat (Z.land tmp (if i =? 0 then 15 else 31))) charmap NUL in
    name_chars_loop k (i + 1) (Z.shiftr tmp (if i =? 0 then 4 else 5)) (c :: str)
  end.

Section Name.
Context {boost : Boost}.

Definition name_to_string (value : Z) : chars :=
trim_right_if (fun c => bool_decide (c = "."%char)) (name_chars_loop 13 0 value []).

(** [name::set]; the length test looks at the first fourteen characters. *)
Definition name_set (s : chars) : result Z :=
let str := c_str s in
check (Nat.leb (Nat.min (length str) 14) 13) "name_type_exception" ;;
let value := string_to_name str in
check (bool_decide (name_to_string value = str)) "name_type_exception" ;;
Ok value.
End Name.

(** ** Round trip *)

(** The value of a run of five-bit characters, most significant first. *)
Definition sym_fold (m : Z) (l : chars) : Z :=
  foldl (fun m c => 32 * m + Z.land (char_to_symbol c) 31) m l.

Lemma land31 z : 0 <= Z.land z 31 < 32.
Proof. change 31 with (Z.ones 5). rewrite Z.land_ones by lia. apply Z.mod_pos_bound; lia. Qed.

Lemma sym_fold_nonneg m l : 0 <= m -> 0 <= sym_fold m l.
Proof.
  revert m. induction l as [|c l IH]; intros m Hm; [done|].
  apply IH. pose proof (land31 (char_to_symbol c)). lia.
Qed.

Lemma sym_fold_lt m l k :
  0 <= m < 32 ^ k -> 0 <= k -> sym_fold m l < 32 ^ (k + Z.of_nat (length l)).
Proof.
  revert m k. induction l as [|c l IH]; intros m k Hm Hk; simpl length.
  - rewrite Z.add_0_r. apply Hm.
  - replace (k + Z.of_nat (S (length l))) with (k + 1 + Z.of_nat (length l)) by lia.
    apply IH; [|lia]. pose proof (land31 (char_to_symbol c)).
    rewrite Z.pow_add_r by lia. lia.
Qed.

(** Disjoint bits: [or]-ing a digit below an aligned value adds it. *)
Lemma lor_shift_add m d k : 0 <= d < 32 -> 0 <= k ->
  Z.lor (m * 2 ^ (k + 5)) (Z.shiftl d k) = (32 * m + d) * 2 ^ k.
Proof.
  intros Hd Hk. rewrite <- Z.shiftl_mul_pow2 by lia.
  rewrite <- Z.add_nocarry_lor.
  - rewrite !Z.shiftl_mul_pow2, Z.pow_add_r by lia. lia.
  - apply Z.bits_inj'. intros n Hn. rewrite Z.land_spec, Z.bits_0.
    destruct (Z.ltb_spec n (k + 5)).
    + rewrite Z.shiftl_spec_low by lia. done.
    + rewrite (Z.shiftl_spec d k n) by lia.
      replace d with (d mod 2 ^ 5) by (apply Z.mod_small; lia).
      rewrite Z.mod_pow2_bits_high by lia. apply andb_false_r.
Qed.

Lemma string_to_name_loop_spec l rest i m :
  (i + length l <= 12)%nat -> Forall (fun c => c <> NUL) l -> 0 <= m < 32 ^ (Z.of_nat i) ->
  string_to_name_loop (l ++ rest) i (m * 2 ^ (64 - 5 * Z.of_nat i)) =
  string_to_name_loop rest (i + length l)
    (sym_fold m l * 2 ^ (64 - 5 * Z.of_nat (i + length l))).
Proof.
  revert i m. induction l as [|c l IH]; intros i m Hi Hl Hm; simpl.
  - rewrite Nat.add_0_r. done.
  - simpl in Hi. inversion Hl as [|? ? Hc Hl']; subst.
    rewrite bool_decide_eq_true_2 by done. rewrite (proj2 (Nat.ltb_lt i 12)) by lia. simpl.
    pose proof (land31 (char_to_symbol c)) as Hd.
    set (d := Z.land (char_to_symbol c) 31) in *.
    set (k := 64 - 5 * (Z.of_nat i + 1)).
    replace (64 - 5 * Z.of_nat i) with (k + 5) by lia.
    rewrite u64_small.
    + rewrite lor_shift_add by lia.
      replace k with (64 - 5 * Z.of_nat (S i)) by lia.
      rewrite IH; [| lia | done |].
      * simpl. fold d. replace (S (i + length l)) with (i + S (length l))%nat by lia. done.
      * replace (Z.of_nat (S i)) with (Z.of_nat i + 1) by lia.
        rewrite Z.pow_add_r by lia. lia.
    + unfold is_u64. rewrite Z.shiftl_mul_pow2 by lia.
      assert (2 ^ k * 32 <= 2 ^ 64).
      { change 32 with (2 ^ 5). rewrite <- Z.pow_add_r by lia. apply Z.pow_le_mono_r; lia. }
      pose proof (Z.pow_pos_nonneg 2 k). nia.
Qed.

Definition dot : ascii := ".".

Lemma sym_fold_dots m k : sym_fold m (replicate k dot) = m * 32 ^ Z.of_nat k.
Proof.
  revert m. induction k as [|k IH]; intros m; [simpl; lia|].
  rewrite replicate_S. cbn [sym_fold foldl]. fold (sym_fold (32 * m + 0) (replicate k dot)).
  change (Z.land (char_to_symbol dot) 31) with 0. rewrite IH.
  replace (Z.of_nat (S k)) with (1 + Z.of_nat k) by lia. rewrite Z.pow_add_r by lia. lia.
Qed.

Lemma sym_fold_app m l1 l2 : sym_fold m (l1 ++ l2) = sym_fold (sym_fold m l1) l2.
Proof. unfold sym_fold. apply foldl_app. Qed.

Lemma lor_low16 m d : Z.lor (m * 2 ^ 4) (Z.land d 15) = m * 16 + Z.land d 15.
Proof.
  rewrite <- Z.add_nocarry_lor; [lia|].
  apply Z.bits_inj'. intros n Hn. change 15 with (Z.ones 4). rewrite !Z.land_spec, Z.bits_0.
  destruct (Z.ltb_spec n 4).
  - rewrite Z.mul_pow2_bits_low by lia. done.
  - rewrite Z.ones_spec_high by lia. btauto.
Qed.

(** Up to twelve characters, the five-bit fields are filled from the top. *)
Lemma string_to_name_short l :
  (length l <= 12)%nat -> Forall (fun c => c <> NUL) l ->
  string_to_name l = sym_fold 0 l * 2 ^ (64 - 5 * Z.of_nat (length l)).
Proof.
  intros Hlen Hl. unfold string_to_name.
  pose proof (string_to_name_loop_spec l [] 0 0) as Hs.
  rewrite app_nil_r, Z.mul_0_l in Hs. rewrite Hs; [|done|done|simpl; lia].
  cbn [string_to_name_loop Nat.add]. destruct (Nat.eqb_spec (length l) 12) as [E|E]; [|done].
  rewrite (nth_overflow l) by lia. apply Z.lor_0_r.
Qed.

Lemma string_to_name_full l c :
  length l = 12%nat -> Forall (fun c => c <> NUL) l ->
  string_to_name (l ++ [c]) = sym_fold 0 l * 16 + Z.land (char_to_symbol c) 15.
Proof.
  intros Hlen Hl. unfold string_to_name.
  pose proof (string_to_name_loop_spec l [c] 0 0) as Hs. rewrite Z.mul_0_l in Hs.
  rewrite Hs by (done || lia || (simpl; lia)). rewrite Hlen.
  rewrite app_nth2 by lia. rewrite Hlen, Nat.sub_diag. simpl.
  rewrite andb_false_r. simpl. rewrite lor_low16. done.
Qed.

(** The name of a string is the name of the same string padded with dots. *)
Lemma string_to_name_padded l k :
  (length l + S k = 13)%nat -> Forall (fun c => c <> NUL) l ->
  string_to_name (l ++ replicate (S k) dot) = string_to_name l.
Proof.
  intros Hlen Hl. rewrite replicate_S_end, app_assoc.
  rewrite string_to_name_full, string_to_name_short; try done; try lia.
  - rewrite sym_fold_app, sym_fold_dots.
    replace (64 - 5 * Z.of_nat (length l)) with (5 * Z.of_nat k + 4) by lia.
    rewrite Z.pow_add_r, Z.pow_mul_r by lia. change (Z.land (char_to_symbol dot) 15) with 0.
    change (2 ^ 5) with 32. change (2 ^ 4) with 16. lia.
  - rewrite length_app, length_replicate. lia.
  - apply Forall_app. split; [done|]. apply Forall_replicate. done.
Qed.

(** *** Printing *)

Lemma charmap_symbol d : 0 <= d < 32 ->
  char_to_symbol (nth (Z.to_nat d) charmap NUL) = d /\ nth (Z.to_nat d) charmap NUL <> NUL.
Proof.
  intros Hd.
  assert (Hall : forallb (fun n => (char_to_symbol (nth n charmap NUL) =? Z.of_nat n)
            && negb (bool_decide (nth n charmap NUL = NUL))) (seq 0 32) = true)
    by (vm_compute; reflexivity).
  rewrite forallb_forall in Hall.
  specialize (Hall (Z.to_nat d)). rewrite in_seq in Hall. specialize (Hall ltac:(lia)).
  ok_inv. split; [lia|done].
Qed.

(** The twelve five-bit characters of [t], and what precedes them. *)
Lemma name_chars_loop_spec k i t acc : 0 < i -> 0 <= t ->
  exists l, name_chars_loop k i t acc = l ++ acc /\ length l = k /\
    Forall (fun c => c <> NUL) l /\ sym_fold 0 l = t mod 32 ^ Z.of_nat k.
Proof.
  revert i t acc. induction k as [|k IH]; intros i t acc Hi Ht.
  - exists []. repeat split; [by constructor|]. simpl. by rewrite Z.mod_1_r.
  - cbn [name_chars_loop]. rewrite (proj2 (Z.eqb_neq i 0)) by lia.
    change 31 with (Z.ones 5). rewrite Z.land_ones, Z.shiftr_div_pow2 by lia.
    set (c := nth (Z.to_nat (t mod 2 ^ 5)) charmap NUL).
    destruct (charmap_symbol (t mod 2 ^ 5)) as [Hc HN]; [apply Z.mod_pos_bound; lia|].
    fold c in Hc, HN.
    destruct (IH (i + 1) (t / 2 ^ 5) (c :: acc)) as (l & -> & Hlen & Hl & Hf);
      [lia|apply Z.div_pos; lia|].
    exists (l ++ [c]). rewrite <- app_assoc. repeat split.
    + rewrite length_app. simpl. lia.
    + apply Forall_app. split; [done|]. by repeat constructor.
    + rewrite sym_fold_app, Hf. simpl. rewrite Hc. change 31 with (Z.ones 5).
      rewrite Z.land_ones, Z.mod_mod by lia.
      replace (Z.of_nat (S k)) with (1 + Z.of_nat k) by lia.
      rewrite Z.pow_add_r by lia. change (32 ^ 1) with (2 ^ 5). change 32 with (2 ^ 5).
      rewrite Z.rem_mul_r by lia. lia.
Qed.

Lemma name_chars_spec v : 0 <= v ->
  exists l c, name_chars_loop 13 0 v [] = l ++ [c] /\ length l = 12%nat /\
    Forall (fun c => c <> NUL) (l ++ [c]) /\
    sym_fold 0 l = (v / 16) mod 2 ^ 60 /\ char_to_symbol c = v mod 16.
Proof.
  intros Hv.
  change (name_chars_loop 13 0 v []) with
    (name_chars_loop 12 (0 + 1) (Z.shiftr v 4) [nth (Z.to_nat (Z.land v (Z.ones 4))) charmap NUL]).
  rewrite Z.land_ones, Z.shiftr_div_pow2 by lia. change (2 ^ 4) with 16.
  destruct (charmap_symbol (v mod 16)) as [Hc HN]; [pose proof (Z.mod_pos_bound v 16); lia|].
  set (c := nth (Z.to_nat (v mod 16)) charmap NUL) in *.
  destruct (name_chars_loop_spec 12 (0 + 1) (v / 16) [c]) as (l & -> & Hlen & Hl & Hf);
    [lia|apply Z.div_pos; lia|].
  exists l, c. repeat split; try done. apply Forall_app. split; [done|]. by repeat constructor.
Qed.

Lemma string_to_name_loop_range l i n : is_u64 n -> is_u64 (string_to_name_loop l i n).2.
Proof.
  revert i n. induction l as [|c l IH]; intros i n Hn; [done|]. cbn [string_to_name_loop].
  destruct (_ && _); [|done]. apply IH. apply lor_u64; [done | apply u64_range].
Qed.

Lemma string_to_name_range l : is_u64 (string_to_name l).
Proof.
  unfold string_to_name. pose proof (string_to_name_loop_range l 0 0 ltac:(mach_lia)) as H.
  destruct (string_to_name_loop l 0 0) as [i n]. simpl in H.
  destruct (Nat.eqb i 12); [|done]. apply lor_u64; [done|].
  change 15 with (Z.ones 4). rewrite Z.land_ones by lia.
  pose proof (Z.mod_pos_bound (char_to_symbol (nth 12 l NUL)) (2 ^ 4)). mach_lia.
Qed.

Lemma c_str_id s : Forall (fun c => c <> NUL) s -> c_str s = s.
Proof.
  induction 1 as [|c s Hc Hs IH]; [done|]. simpl.
  by rewrite bool_decide_eq_false_2, IH.
Qed.

Section Roundtrip.
Context {boost : Boost}.

(** What [operator string] prints: the thirteen characters without the
    trailing dots. *)
Lemma name_to_string_spec v : 0 <= v -> exists k,
  name_chars_loop 13 0 v [] = name_to_string v ++ replicate k dot /\
  (length (name_to_string v) + k = 13)%nat /\
  Forall (fun c => c <> NUL) (name_to_string v).
Proof.
  intros Hv. destruct (name_chars_spec v Hv) as (l & c & Hl & Hlen & Hnul & _).
  destruct (trim_right_if_spec (fun c => bool_decide (c = "."%char)) (name_chars_loop 13 0 v []))
    as (t & Ht & Hdots & _). fold (name_to_string v) in Ht.
  assert (Hr : t = replicate (length t) dot).
  { clear Ht. induction Hdots as [|x t Hx Hdots IH]; [done|].
    simpl. f_equal; [by apply bool_decide_eq_true in Hx | done]. }
  exists (length t). rewrite <- Hr. split; [done|].
  rewrite Hl in Ht. rewrite Ht in Hnul. apply Forall_app in Hnul as [Hn _].
  split; [|done]. apply (f_equal length) in Ht. rewrite !length_app in Ht. simpl in Ht. lia.
Qed.

Lemma string_to_name_to_string v : is_u64 v -> string_to_name (name_to_string v) = v.
Proof.
  intros Hv. destruct (name_to_string_spec v) as (k & Hk & Hlen & Hnul); [mach_lia|].
  destruct (name_chars_spec v) as (l & c & Hl & Hl12 & Hlnul & Hf & Hc); [mach_lia|].
  apply Forall_app in Hlnul as [Hlnul _].
  assert (Hs : string_to_name (name_to_string v ++ replicate k dot) = v).
  { rewrite <- Hk, Hl, string_to_name_full, Hf, Hc by done.
    change 15 with (Z.ones 4). rewrite Z.land_ones, Z.mod_mod by lia.
    rewrite (Z.mod_small (v / 16))
      by (split; [apply Z.div_pos | apply Z.div_lt_upper_bound]; mach_lia).
    change (2 ^ 4) with 16. pose proof (Z.div_mod v 16). lia. }
  destruct k as [|k]; [by rewrite app_nil_r in Hs|].
  by rewrite string_to_name_padded in Hs.
Qed.

(** [name::set] accepts exactly the canonical spellings, and a name prints
    as the string it was set from. *)
Theorem name_set_iff s v :
  Forall (fun c => c <> NUL) s ->
  name_set s = Ok v <-> is_u64 v /\ name_to_string v = s.
Proof.
  intros Hs. unfold name_set. rewrite (c_str_id s Hs). split.
  - intros H. ok_inv. subst v. split; [apply string_to_name_range | done].
  - intros [Hv <-]. destruct (name_to_string_spec v) as (k & _ & Hlen & _); [mach_lia|].
    rewrite string_to_name_to_string by done.
    rewrite (proj2 (Nat.leb_le _ _)) by lia. by rewrite bool_decide_eq_true_2.
Qed.
End Roundtrip.

(** "eosio.token" is accepted, and its name prints back. *)
Lemma name_set_iff_witness :
  name_set (String.list_ascii_of_string "eosio.token") = Ok 6138663591592764928.
Proof.
  apply (proj2 (name_set_iff (String.list_ascii_of_string "eosio.token") 6138663591592764928
    ltac:(repeat constructor; discriminate))).
  split; [split; [discriminate | reflexivity] | vm_compute; reflexivity].
Defined.
