(* ===== verification/BlockTimestamp.v ===== *)
(** * Block times ([block_timestamp.hpp])

    A block time is a 32-bit slot number, counted in half seconds from the
    year 2000; points in time are signed 64-bit microseconds since 1970. *)

From stdpp Require Import base numbers strings.
From Stdlib Require Import ZArith Lia.
From S2P Require Import Prelude.
Local Open Scope Z_scope.

Definition IntervalMs : Z := 500.
Definition EpochMs : Z := 946684800000.

(** [set_time_point]: the quotient of two signed numbers, then a difference
    and a quotient of unsigned ones, then a conversion to 32 bits. *)
Definition set_time_point (t : Z) : Z :=
  u32 (u64 (Z.quot t 1000 - EpochMs) / IntervalMs).

(** The overload for [time_point_sec], an unsigned number of seconds. *)
Definition set_time_point_sec (sec : Z) : Z := u32 (u64 (sec * 1000 - EpochMs) / IntervalMs).

(** [operator time_point] *)
Definition to_time_point (slot : Z) : Z := (slot * IntervalMs + EpochMs) * 1000.

(** [next] *)
Definition next_slot (slot : Z) : result Z :=
  check (UINT32_MAX - slot >=? 1) "block timestamp overflow" ;; Ok (slot + 1).

(** The first instant of the first and the one after the last slot. *)
Definition first_time : Z := EpochMs * 1000.
Definition end_time : Z := to_time_point (2 ^ 32).

Lemma set_time_point_range t : first_time <= t < end_time ->
  set_time_point t = (t / 1000 - EpochMs) / IntervalMs.
Proof.
  unfold first_time, end_time, to_time_point, set_time_point, u64, u32, IntervalMs, EpochMs. intros Ht.
  rewrite Z.quot_div_nonneg by lia.
  assert (946684800000 <= t / 1000 < 946684800000 + 500 * 2 ^ 32).
  { split; [apply Z.div_le_lower_bound; lia | apply Z.div_lt_upper_bound; lia]. }
  rewrite (Z.mod_small (t / 1000 - _) (2 ^ 64)) by lia. apply Z.mod_small.
  split; [apply Z.div_pos; lia | apply Z.div_lt_upper_bound; lia].
Qed.

(** Slots and block times correspond: a slot survives the round trip, a time
    is rounded down to the start of its slot, and the first point in time of
    the next slot is half a second later. *)
Theorem block_timestamp_rounds :
  (forall slot, is_u32 slot -> set_time_point (to_time_point slot) = slot) /\
  (forall t, first_time <= t < end_time ->
     to_time_point (set_time_point t) <= t < to_time_point (set_time_point t) + 500000) /\
  (forall slot slot', next_slot slot = Ok slot' -> to_time_point slot' = to_time_point slot + 500000).
Proof.
  split; [|split].
  - intros slot Hs. rewrite set_time_point_range;
      unfold is_u32, first_time, end_time, to_time_point, IntervalMs, EpochMs in *; [|lia].
    rewrite Z.div_mul by lia. replace (slot * 500 + _ - _) with (slot * 500) by lia.
    by apply Z.div_mul.
  - intros t Ht. rewrite set_time_point_range by done.
    unfold first_time, end_time, to_time_point, IntervalMs, EpochMs in *.
    pose proof (Z.div_mod t 1000). pose proof (Z.mod_pos_bound t 1000).
    pose proof (Z.div_mod (t / 1000 - 946684800000) 500).
    pose proof (Z.mod_pos_bound (t / 1000 - 946684800000) 500). lia.
  - intros slot slot' Hn. unfold next_slot in Hn. ok_bind Hn as u Hu.
    apply (proj1 (Ok_inj _ _)) in Hn as <-. unfold to_time_point, IntervalMs. lia.
Qed.

(** The three parts at slot 1000 and at a time within it. *)
Lemma block_timestamp_rounds_witness :
  set_time_point (to_time_point 1000) = 1000 /\
  to_time_point (set_time_point 946685300123456) <= 946685300123456
    < to_time_point (set_time_point 946685300123456) + 500000 /\
  to_time_point 1001 = to_time_point 1000 + 500000.
Proof.
  split; [|split].
  - apply (proj1 block_timestamp_rounds). unfold is_u32. lia.
  - apply (proj1 (proj2 block_timestamp_rounds)). unfold first_time, end_time, to_time_point, IntervalMs, EpochMs. lia.
  - apply (proj2 (proj2 block_timestamp_rounds)). reflexivity.
Defined.
