(* ===== verification/ChainAsset.v ===== *)
(** * Assets and symbols ([asset.hpp], [asset.cpp], [symbol.hpp], [safe.hpp])

    A symbol packs a precision and up to seven capital letters into 64 bits;
    an asset is an amount of a symbol.  Both are read from and printed as text.
    What the chain uses of Boost for it is the class [BoostText]. *)

From Stdlib Require Import ZArith Lia Ascii String.
From stdpp Require Import base numbers strings list.
From S2P Require Import Prelude Boost.
Local Open Scope Z_scope.

(** ** Decimal text *)

Definition digit_char (d : Z) : ascii := ascii_of_N (Z.to_N (d + chr "0")).

(** The decimal digits of [z], in front of [acc]; 20 digits are enough for 64
    bits. *)
Fixpoint decimal_loop (fuel : nat) (z : Z) (acc : chars) : chars :=
  match fuel with
  | O => acc
  | S fuel =>
    let acc := digit_char (z mod 10) :: acc in
    if z <? 10 then acc else decimal_loop fuel (z / 10) acc
  end.
(** [std::to_string] of an unsigned integer *)
Definition decimal (z : Z) : chars := decimal_loop 20 z [].
Definition decimal_signed (z : Z) : chars := if z <? 0 then "-"%char :: decimal (- z) else decimal z.

(** [std::isspace] in the classic locale *)
Definition is_space (c : ascii) : bool := (chr c =? 32) || ((9 <=? chr c) && (chr c <=? 13)).

(** A decimal number with an optional sign, and its value. *)
Inductive int_text : chars -> Z -> Prop :=
| int_plain ds : is_decimal ds -> int_text ds (decimal_value ds)
| int_plus ds : is_decimal ds -> int_text ("+"%char :: ds) (decimal_value ds)
| int_minus ds : is_decimal ds -> int_text ("-"%char :: ds) (- decimal_value ds).

Class BoostText := {
  (** [boost::algorithm::trim_copy] *)
  trim_copy : chars -> chars;
  trim_copy_spec : forall s, exists l r,
    s = l ++ trim_copy s ++ r /\ Forall (fun c => is_space c = true) (l ++ r) /\
    (forall c t, trim_copy s = c :: t -> is_space c = false) /\
    (forall c t, trim_copy s = t ++ [c] -> is_space c = false);
  (** [boost::lexical_cast] between [int64_t] and text *)
  lexical_string : Z -> chars;
  lexical_string_spec : forall z, is_i64 z -> lexical_string z = decimal_signed z;
  lexical_int64 : chars -> option Z;
  lexical_int64_spec : forall s v, lexical_int64 s = Some v <-> int_text s v /\ is_i64 v;
}.

(** ** Safe arithmetic ([safe<int64_t>]); division truncates *)

Definition safe_add (a b : Z) : result Z :=
  check (negb ((0 <? b) && (a >? INT64_MAX - b))) "overflow_exception" ;;
  check (negb ((b <? 0) && (a <? INT64_MIN - b))) "underflow_exception" ;;
  Ok (i64 (a + b)).
Definition safe_mul (a b : Z) : result Z :=
  (if 0 <? a then
     if 0 <? b then check (negb (a >? Z.quot INT64_MAX b)) "overflow_exception"
     else check (negb (b <? Z.quot INT64_MIN a)) "underflow_exception"
   else
     if 0 <? b then check (negb (a <? Z.quot INT64_MIN b)) "underflow_exception"
     else check (negb (negb (a =? 0) && (b <? Z.quot INT64_MAX a))) "overflow_exception") ;;
  Ok (i64 (a * b)).

(** ** Symbols: the 64-bit value [m_value] *)

Module Symbol.
Definition max_precision : Z := 18.

(** The loop of [string_to_symbol] from index [i] on.  The eighth character
    would be shifted by 64 bits, which is undefined. *)
Fixpoint string_to_symbol_loop (str : chars) (i : nat) (result : Z) : Prelude.result Z :=
  match str with
  | [] => Ok result
  | c :: str =>
    check (char_in "A" "Z" c) "invalid character in symbol name" ;;
    check (8 * (Z.of_nat i + 1) <? 64) "undefined: shift by the width of the type" ;;
    string_to_symbol_loop str (S i) (Z.lor result (u64 (Z.shiftl (chr c) (8 * (Z.of_nat i + 1)))))
  end.
Definition string_to_symbol (precision : Z) (str : chars) : result Z :=
  result ← string_to_symbol_loop str 0 0; Ok (Z.lor result precision).

Definition decimals (m_value : Z) : Z := Z.land m_value 0xFF.

(** The loop of [name]: a 64-bit value has at most seven bytes above the
    lowest. *)
Fixpoint name_loop (fuel : nat) (v : Z) (result : chars) : chars :=
  match fuel with
  | O => result
  | S fuel =>
    if v >? 0 then name_loop fuel (Z.shiftr v 8) (result ++ [ascii_of_N (Z.to_N (Z.land v 0xFF))])
    else result
  end.
Definition symbol_name (m_value : Z) : chars := name_loop 8 (Z.shiftr m_value 8) [].

Definition valid_name (s : chars) : bool := forallb (char_in "A" "Z") s.
Definition valid (m_value : Z) : bool := (decimals m_value <=? max_precision) && valid_name (symbol_name m_value).

(** The constructor from a value *)
Definition make (v : Z) : result Z := check (valid v) "invalid symbol" ;; Ok v.

Fixpoint precision_loop (p : nat) (p10 : Z) : Z :=
  match p with O => p10 | S p => precision_loop p (u64 (p10 * 10)) end.
Definition precision (m_value : Z) : result Z :=
  check (decimals m_value <=? max_precision) "precision should be <= 18" ;;
  Ok (precision_loop (Z.to_nat (decimals m_value)) 1).

Definition to_symbol_code (m_value : Z) : Z := Z.shiftr m_value 8.
Definition to_string (m_value : Z) : chars := decimal (decimals m_value) ++ ","%char :: symbol_name m_value.

(** [reflector_init], after a symbol was unpacked *)
Definition symbol_reflector_init (m_value : Z) : result unit :=
  check (decimals m_value <=? max_precision) "precision should be <= 18" ;;
  check (valid_name (symbol_name m_value)) "invalid symbol".
End Symbol.

(** [s.find(c)], and the text before and after it *)
Fixpoint find_pos (c : ascii) (s : chars) : option nat :=
  match s with
  | [] => None
  | d :: s => if bool_decide (c = d) then Some O else S <$> find_pos c s
  end.

Section Text.
Context `{BoostText}.

(** [fc::to_int64] *)
Definition to_int64 (i : chars) : result Z := of_option (lexical_int64 i) "parse_error_exception".

(** [symbol::from_string] *)
Definition symbol_from_string (from : chars) : result Z :=
  let s := trim_copy from in
  check (negb (bool_decide (s = []))) "creating symbol from empty string" ;;
  comma_pos ← of_option (find_pos "," s) "missing comma in symbol";
  p ← to_int64 (take comma_pos s);
  let p := u8 p in
  let name_part := drop (comma_pos + 1) s in
  check (p <=? Symbol.max_precision) "precision should be <= 18" ;;
  v ← Symbol.string_to_symbol p (c_str name_part);
  Symbol.make v.

(** ** Assets *)

Record asset := mk_asset { amount : Z; sym : Z }.

Definition asset_max_amount : Z := 2 ^ 62 - 1.
Definition is_amount_within_range (a : Z) : bool := (- asset_max_amount <=? a) && (a <=? asset_max_amount).
Definition is_valid (a : asset) : bool := is_amount_within_range (amount a) && Symbol.valid (sym a).

(** The constructor *)
Definition asset_make (a : Z) (id : Z) : result asset :=
  check (is_amount_within_range a) "magnitude of asset amount must be less than 2^62" ;;
  check (Symbol.valid id) "invalid symbol" ;;
  Ok (mk_asset a id).

Definition asset_to_string (a : asset) : result chars :=
  let sign := if amount a <? 0 then ["-"%char] else [] in
  let abs_amount := i64 (Z.abs (amount a)) in
  p ← Symbol.precision (sym a);
  let result := lexical_string (Z.quot abs_amount p) in
  let result :=
    if Symbol.decimals (sym a) =? 0 then result
    else result ++ "."%char :: drop 1 (lexical_string (i64 (p + Z.rem abs_amount p))) in
  Ok (sign ++ result ++ " "%char :: Symbol.symbol_name (sym a)).

(** The two parts of the amount *)
Definition parse_parts (amount_str : chars) (dot_pos : option nat) : result (Z * Z) :=
  match dot_pos with
  | Some dot_pos =>
    int_part ← to_int64 (take dot_pos amount_str);
    fract_part ← to_int64 (drop (dot_pos + 1) amount_str);
    fract_part ← (if bool_decide (amount_str !! O = Some "-"%char) then safe_mul fract_part (-1) else Ok fract_part);
    Ok (int_part, fract_part)
  | None => int_part ← to_int64 amount_str; Ok (int_part, 0)
  end.

Definition asset_from_string (from : chars) : result asset :=
  let s := trim_copy from in
  space_pos ← of_option (find_pos " " s) "Asset's amount and symbol should be separated with space";
  let symbol_str := trim_copy (drop (space_pos + 1) s) in
  let amount_str := take space_pos s in
  let dot_pos := find_pos "." amount_str in
  check (match dot_pos with Some d => negb (bool_decide (Z.of_nat d = u64 (Z.of_nat (length amount_str) - 1))) | None => true end)
    "Missing decimal fraction after decimal point" ;;
  let precision_digit_str :=
    match dot_pos with
    | Some d => decimal (u64 (Z.of_nat (length amount_str) - Z.of_nat d - 1))
    | None => ["0"%char]
    end in
  sym ← symbol_from_string (precision_digit_str ++ ","%char :: symbol_str);
  '(int_part, fract_part) ← parse_parts amount_str dot_pos;
  p ← Symbol.precision sym;
  amount ← safe_mul int_part (i64 p);
  amount ← safe_add amount fract_part;
  asset_make amount sym.

(** ** Arithmetic; the sums of amounts are those of [int64_t] *)

Definition asset_plus_assign (a o : asset) : result asset :=
  check (sym a =? sym o) "addition between two different asset is not allowed" ;;
  Ok (mk_asset (i64 (amount a + amount o)) (sym a)).
Definition asset_minus_assign (a o : asset) : result asset :=
  check (sym a =? sym o) "subtraction between two different asset is not allowed" ;;
  Ok (mk_asset (i64 (amount a - amount o)) (sym a)).
Definition asset_negate (a : asset) : result asset := asset_make (i64 (- amount a)) (sym a).
Definition asset_plus (a b : asset) : result asset :=
  check (sym a =? sym b) "addition between two different asset is not allowed" ;;
  asset_make (i64 (amount a + amount b)) (sym a).
Definition asset_minus (a b : asset) : result asset :=
  check (sym a =? sym b) "subtraction between two different asset is not allowed" ;;
  asset_make (i64 (amount a - amount b)) (sym a).
Definition asset_eqb (a b : asset) : bool := (sym a =? sym b) && (amount a =? amount b).
Definition asset_ltb (a b : asset) : result bool :=
  check (sym a =? sym b) "logical operation between two different asset is not allowed" ;;
  Ok ((amount a <? amount b) || ((amount a =? amount b) && (sym a <? sym b))).
Definition asset_leb (a b : asset) : result bool := if asset_eqb a b then Ok true else asset_ltb a b.
End Text.

(** ** A reference instance of the text routines *)

Section Reference.
Fixpoint trim_left_ref (s : chars) : chars :=
  match s with
  | [] => []
  | c :: t => if is_space c then trim_left_ref t else s
  end.
Definition trim_ref (s : chars) : chars := trim_left_ref (trim_right_ref is_space s).

Lemma trim_left_ref_spec s : exists l,
  s = l ++ trim_left_ref s /\ Forall (fun c => is_space c = true) l /\
  (forall c t, trim_left_ref s = c :: t -> is_space c = false).
Proof.
  induction s as [|a s (l & Hs & Hl & Hh)]; cbn; [by exists []|].
  destruct (is_space a) eqn:E; [exists (a :: l); cbn; rewrite <- Hs; by repeat constructor|].
  exists []. repeat split; [done|]. intros c t E'. congruence.
Qed.

Lemma trim_ref_spec s : exists l r,
  s = l ++ trim_ref s ++ r /\ Forall (fun c => is_space c = true) (l ++ r) /\
  (forall c t, trim_ref s = c :: t -> is_space c = false) /\
  (forall c t, trim_ref s = t ++ [c] -> is_space c = false).
Proof.
  unfold trim_ref. destruct (trim_right_ref_spec is_space s) as (r & Hs & Hr & Hlast).
  destruct (trim_left_ref_spec (trim_right_ref is_space s)) as (l & Hs' & Hl & Hh).
  exists l, r. repeat split.
  - by rewrite app_assoc, <- Hs'.
  - by apply Forall_app.
  - exact Hh.
  - intros c t E. apply (Hlast (l ++ t) c). by rewrite Hs' at 1; rewrite E, app_assoc.
Qed.

Definition all_digits (s : chars) : bool := negb (bool_decide (s = [])) && forallb is_digit s.
Lemma all_digits_iff s : all_digits s = true <-> is_decimal s.
Proof.
  unfold all_digits, is_decimal. rewrite andb_true_iff, negb_true_iff, bool_decide_eq_false, forallb_forall.
  by rewrite List.Forall_forall.
Qed.

Definition signed_digits (s : chars) : option Z :=
  match s with
  | "-"%char :: ds => if all_digits ds then Some (- decimal_value ds) else None
  | "+"%char :: ds => if all_digits ds then Some (decimal_value ds) else None
  | _ => if all_digits s then Some (decimal_value s) else None
  end.
Definition lexical_ref (s : chars) : option Z :=
  match signed_digits s with
  | Some v => if bool_decide (is_i64 v) then Some v else None
  | None => None
  end.

Lemma signed_digits_iff s v : signed_digits s = Some v <-> int_text s v.
Proof.
  split.
  - intros E. unfold signed_digits in E.
    repeat case_match; simplify_eq; try (constructor; by apply all_digits_iff).
  - intros [ds D|ds D|ds D]; [|unfold signed_digits; by rewrite (proj2 (all_digits_iff ds) D)..].
    destruct ds as [|c ds]; [by destruct D|]. pose proof (proj2 (all_digits_iff _) D) as A.
    assert (Hc : is_digit c = true) by (destruct D as [_ D]; by inversion D).
    unfold signed_digits. destruct c as [[] [] [] [] [] [] [] []]; try discriminate Hc; cbn [signed_digits]; by rewrite A.
Qed.
Lemma lexical_ref_spec s v : lexical_ref s = Some v <-> int_text s v /\ is_i64 v.
Proof.
  unfold lexical_ref. rewrite <- signed_digits_iff. destruct (signed_digits s) as [w|].
  - case_bool_decide as D; split; [by intros [= <-]|by intros [[= <-] _]|done|by intros [[= <-] ?]].
  - split; [done|]. by intros [? _].
Qed.
End Reference.

#[export] Instance text_reference : BoostText :=
  {| trim_copy := trim_ref; trim_copy_spec := trim_ref_spec;
     lexical_string := decimal_signed; lexical_string_spec := fun z _ => eq_refl;
     lexical_int64 := lexical_ref; lexical_int64_spec := lexical_ref_spec |}.
