(* ===== verification/ChainAssetSpec.v ===== *)
(** * Assets and symbols: text and values

    Symbols and assets that are printed are read back, what is read is valid,
    and sums of valid assets do not overflow. *)

From Stdlib Require Import ZArith Lia Ascii String.
From stdpp Require Import base numbers strings list.
From S2P Require Import Prelude Boost ChainAsset.
Local Open Scope Z_scope.

(** ** Decimal text *)

Section Decimal.
Lemma chr_ascii z : 0 <= z < 256 -> chr (ascii_of_N (Z.to_N z)) = z.
Proof. intros Hz. unfold chr. rewrite N_ascii_embedding by lia. lia. Qed.
Lemma ascii_chr c : ascii_of_N (Z.to_N (chr c)) = c.
Proof. unfold chr. by rewrite N2Z.id, ascii_N_embedding. Qed.
Lemma chr_range c : 0 <= chr c < 256.
Proof. unfold chr. pose proof (N_ascii_bounded c). lia. Qed.

Lemma digit_char_val d : 0 <= d < 10 -> is_digit (digit_char d) = true /\ digit_val (digit_char d) = d.
Proof.
  intros Hd. assert (E : chr (digit_char d) = d + 48) by (apply chr_ascii; change (chr "0") with 48; lia).
  unfold is_digit, digit_val, char_in. rewrite E. change (chr "0") with 48. change (chr "9") with 57. lia.
Qed.

Lemma digit_val_range c : is_digit c = true -> 0 <= digit_val c < 10.
Proof. unfold is_digit, char_in, digit_val. change (chr "9") with 57. change (chr "0") with 48. lia. Qed.

Lemma decimal_value_from m ds :
  foldl (fun m c => 10 * m + digit_val c) m ds = m * 10 ^ Z.of_nat (length ds) + decimal_value ds.
Proof.
  unfold decimal_value. revert m. induction ds as [|c ds IH]; intros m; cbn [foldl length]; [cbn; lia|].
  rewrite (IH (10 * m + digit_val c)), (IH (10 * 0 + digit_val c)), Nat2Z.inj_succ, Z.pow_succ_r by lia. lia.
Qed.
Lemma decimal_value_cons c ds : decimal_value (c :: ds) = digit_val c * 10 ^ Z.of_nat (length ds) + decimal_value ds.
Proof. unfold decimal_value at 1. cbn [foldl]. rewrite decimal_value_from. lia. Qed.

Lemma decimal_value_range ds : Forall (fun c => is_digit c = true) ds ->
  0 <= decimal_value ds < 10 ^ Z.of_nat (length ds).
Proof.
  induction 1 as [|c ds Hc _ IH]; [cbn; lia|]. rewrite decimal_value_cons. cbn [length].
  rewrite Nat2Z.inj_succ, Z.pow_succ_r by lia. pose proof (digit_val_range c Hc). nia.
Qed.

Lemma decimal_loop_spec fuel z acc : 0 <= z < 10 ^ Z.of_nat (S fuel) ->
  exists ds, decimal_loop (S fuel) z acc = ds ++ acc /\ is_decimal ds /\ decimal_value ds = z /\
    (z < 10 \/ 10 ^ (Z.of_nat (length ds) - 1) <= z).
Proof.
  revert z acc. induction fuel as [|fuel IH]; intros z acc Hz; pose proof (Z.mod_pos_bound z 10 ltac:(lia)) as Hm;
    pose proof (Z.div_mod z 10 ltac:(lia)) as Hd; destruct (digit_char_val (z mod 10) Hm) as [D1 D2].
  - assert (z < 10) by (cbn in Hz; lia). exists [digit_char (z mod 10)]. cbn [decimal_loop].
    replace (z <? 10) with true by lia. repeat split; [done|by repeat constructor| |by left].
    unfold decimal_value. cbn [foldl]. rewrite D2, Z.mod_small; lia.
  - cbn [decimal_loop]. destruct (z <? 10) eqn:E.
    + exists [digit_char (z mod 10)]. repeat split; [done|by repeat constructor| |left; lia].
      unfold decimal_value. cbn [foldl]. rewrite D2, Z.mod_small; lia.
    + destruct (IH (z / 10) (digit_char (z mod 10) :: acc)) as (ds & Eds & [Dn Df] & Dv & Dl).
      { rewrite Nat2Z.inj_succ, Z.pow_succ_r in Hz by lia. split; [apply Z.div_pos; lia|]. apply Z.div_lt_upper_bound; lia. }
      exists (ds ++ [digit_char (z mod 10)]). rewrite <- app_assoc. split; [exact Eds|].
      assert (V : decimal_value (ds ++ [digit_char (z mod 10)]) = z).
      { unfold decimal_value. rewrite foldl_app. fold (decimal_value ds). cbn [foldl]. rewrite D2. lia. }
      split; [split; [by destruct ds|apply Forall_app; by repeat constructor]|]. split; [exact V|]. right.
      rewrite length_app. cbn [length]. destruct ds as [|c ds]; [done|]. destruct Dl as [Dl|Dl].
      * pose proof (decimal_value_range _ Df) as R. assert (1 <= z / 10) by (apply Z.div_le_lower_bound; lia).
        destruct ds as [|c' ds]; [cbn; lia|]. exfalso.
        revert Eds. cbn [decimal_loop]. destruct fuel; cbn [decimal_loop]; replace (z / 10 <? 10) with true by lia;
          intros Eds; apply (f_equal length) in Eds; rewrite length_app in Eds; cbn in Eds; lia.
      * replace (Z.of_nat (length (c :: ds) + 1) - 1) with (Z.succ (Z.of_nat (length (c :: ds)) - 1)) by lia.
        rewrite Z.pow_succ_r by (cbn [length]; lia). lia.
Qed.

Lemma decimal_spec z : 0 <= z < 10 ^ 20 -> is_decimal (decimal z) /\ decimal_value (decimal z) = z /\
  (z < 10 \/ 10 ^ (Z.of_nat (length (decimal z)) - 1) <= z).
Proof.
  intros Hz. destruct (decimal_loop_spec 19 z [] Hz) as (ds & E & D). unfold decimal. by rewrite E, app_nil_r.
Qed.

(** The digits of a fraction: those of [10 ^ k + f] without the first. *)
Lemma decimal_fraction k f : (0 < k)%nat -> 0 <= f < 10 ^ Z.of_nat k -> 10 ^ Z.of_nat k + f < 10 ^ 20 ->
  let ds := drop 1 (decimal (10 ^ Z.of_nat k + f)) in
  length ds = k /\ is_decimal ds /\ decimal_value ds = f.
Proof.
  intros Hk Hf Hz. destruct (decimal_spec (10 ^ Z.of_nat k + f)) as ([Dn Df] & Dv & Dl); [lia|].
  destruct (decimal (10 ^ Z.of_nat k + f)) as [|c ds]; [done|]. cbn zeta. change (drop 1 (c :: ds)) with ds.
  apply Forall_cons in Df as [Dc Df]. pose proof (decimal_value_range ds Df) as R.
  rewrite decimal_value_cons in Dv. pose proof (digit_val_range c Dc) as Rc.
  assert (L : length ds = k).
  { assert (10 <= 10 ^ Z.of_nat k) by (rewrite <- (Z.pow_1_r 10) at 1; apply Z.pow_le_mono_r; lia).
    destruct Dl as [?|Dl]; [lia|]. cbn [length] in Dl. replace (Z.of_nat (S (length ds)) - 1) with (Z.of_nat (length ds)) in Dl by lia.
    destruct (Nat.lt_trichotomy (length ds) k) as [Hl|[Hl|Hl]]; [exfalso|done|exfalso].
    - assert (10 ^ Z.succ (Z.of_nat (length ds)) <= 10 ^ Z.of_nat k) by (apply Z.pow_le_mono_r; lia).
      rewrite Z.pow_succ_r in * by lia. nia.
    - assert (10 ^ Z.succ (Z.of_nat k) <= 10 ^ Z.of_nat (length ds)) by (apply Z.pow_le_mono_r; lia).
      rewrite Z.pow_succ_r in * by lia. nia. }
  rewrite L in Dv, R. split; [done|]. assert (digit_val c = 1) as E1 by nia. rewrite E1, Z.mul_1_l in Dv. split; [split; [|done]|lia].
  intros ->. cbn in L. lia.
Qed.
End Decimal.

(** ** Symbols *)

Section Symbols.
(** The letters as digits of base 256, the first the least significant. *)
Definition letters_value (s : chars) : Z := foldr (fun c acc => chr c + 256 * acc) 0 s.

Lemma letters_value_range s : 0 <= letters_value s < 256 ^ Z.of_nat (length s).
Proof.
  induction s as [|c s IH]; [cbn; lia|]. cbn [letters_value foldr length]. fold (letters_value s).
  rewrite Nat2Z.inj_succ, Z.pow_succ_r by lia. pose proof (chr_range c). lia.
Qed.

Lemma string_to_symbol_loop_ok str i r : Symbol.valid_name str = true -> (i + length str <= 7)%nat ->
  0 <= r < 2 ^ (8 * (Z.of_nat i + 1)) ->
  Symbol.string_to_symbol_loop str i r = Ok (r + letters_value str * 2 ^ (8 * (Z.of_nat i + 1))).
Proof.
  revert i r. induction str as [|c str IH]; intros i r Hv Hl Hr; cbn [Symbol.string_to_symbol_loop]; [f_equal; cbn; lia|].
  cbn [Symbol.valid_name forallb] in Hv. apply andb_true_iff in Hv as [Hc Hv]. cbn [length] in Hl.
  rewrite Hc. replace (8 * (Z.of_nat i + 1) <? 64) with true by lia. cbn [check mbind result_bind].
  pose proof (chr_range c) as Rc.
  assert (P : 2 ^ (8 * (Z.of_nat (S i) + 1)) = 256 * 2 ^ (8 * (Z.of_nat i + 1))).
  { change 256 with (2 ^ 8). rewrite <- Z.pow_add_r by lia. f_equal. lia. }
  assert (B : 2 ^ (8 * (Z.of_nat (S i) + 1)) <= 2 ^ 64) by (apply Z.pow_le_mono_r; lia).
  rewrite u64_small by (rewrite Z.shiftl_mul_pow2 by lia; split; nia).
  rewrite lor_above by lia. rewrite IH; [|done|lia|nia]. f_equal. rewrite P. cbn [letters_value foldr]. fold (letters_value str). lia.
Qed.

(** The values of symbols: precision and letters. *)
Lemma string_to_symbol_ok p str : 0 <= p < 256 -> Symbol.valid_name str = true -> (length str <= 7)%nat ->
  Symbol.string_to_symbol p str = Ok (p + 256 * letters_value str).
Proof.
  intros Hp Hv Hl. unfold Symbol.string_to_symbol. rewrite string_to_symbol_loop_ok by (done || lia).
  cbn [mbind result_bind]. f_equal. change (2 ^ (8 * (Z.of_nat 0 + 1))) with (2 ^ 8).
  rewrite Z.lor_comm, Z.add_0_l, <- Z.shiftl_mul_pow2, lor_above by lia. lia.
Qed.

Lemma land_255 v : Z.land v 0xFF = v mod 256.
Proof. change 0xFF with (Z.ones 8). by rewrite Z.land_ones. Qed.
Lemma shiftr_8 v : Z.shiftr v 8 = v / 256.
Proof. by rewrite Z.shiftr_div_pow2. Qed.

Lemma name_loop_spec fuel v acc : 0 <= v < 256 ^ Z.of_nat fuel ->
  exists s, Symbol.name_loop fuel v acc = acc ++ s /\ letters_value s = v /\ (length s <= fuel)%nat /\
    (v < 256 ^ Z.of_nat (fuel - 1) -> (length s <= fuel - 1)%nat).
Proof.
  revert v acc. induction fuel as [|fuel IH]; intros v acc Hv; cbn [Symbol.name_loop].
  { exists []. rewrite app_nil_r. cbn in *. repeat split; [lia|lia|lia]. }
  rewrite Nat2Z.inj_succ, Z.pow_succ_r in Hv by lia.
  destruct (v >? 0) eqn:E.
  - rewrite land_255, shiftr_8. pose proof (Z.mod_pos_bound v 256 ltac:(lia)) as M. pose proof (Z.div_mod v 256 ltac:(lia)) as D.
    destruct (IH (v / 256) (acc ++ [ascii_of_N (Z.to_N (v mod 256))])) as (s & Es & Vs & Ls & Ls').
    { split; [apply Z.div_pos; lia|]. apply Z.div_lt_upper_bound; lia. }
    exists (ascii_of_N (Z.to_N (v mod 256)) :: s). rewrite Es, <- app_assoc. split; [done|]. split.
    { cbn [letters_value foldr]. fold (letters_value s). rewrite Vs, chr_ascii by lia. lia. }
    cbn [length]. split; [lia|]. replace (S fuel - 1)%nat with fuel by lia. intros Hf. destruct fuel as [|fuel].
    + cbn in Hf. lia.
    + enough (length s <= fuel)%nat by lia. replace fuel with (S fuel - 1)%nat at 1 by lia. apply Ls'.
      replace (S fuel - 1)%nat with fuel by lia. rewrite Nat2Z.inj_succ, Z.pow_succ_r in Hf by lia. apply Z.div_lt_upper_bound; lia.
  - exists []. rewrite app_nil_r. cbn. repeat split; lia.
Qed.

(** A value is made of its precision and the letters of its name. *)
Lemma symbol_parts v : is_u64 v -> v = Symbol.decimals v + 256 * letters_value (Symbol.symbol_name v) /\
  0 <= Symbol.decimals v < 256 /\ (length (Symbol.symbol_name v) <= 7)%nat.
Proof.
  intros Hv. unfold Symbol.decimals, Symbol.symbol_name. rewrite land_255, shiftr_8.
  pose proof (Z.mod_pos_bound v 256 ltac:(lia)). pose proof (Z.div_mod v 256 ltac:(lia)) as D.
  assert (B : 0 <= v / 256 < 256 ^ 7) by (split; [apply Z.div_pos; mach_lia|apply Z.div_lt_upper_bound; mach_lia]).
  destruct (name_loop_spec 8 (v / 256) []) as (s & E & V & _ & L).
  { change (256 ^ Z.of_nat 8) with (256 ^ 8). lia. }
  rewrite E. cbn [app]. rewrite V. split; [lia|]. split; [done|]. apply L. exact (proj2 B).
Qed.

(** Symbols are determined by precision and name: writing them from these
    gives the value back. *)
Lemma symbol_rebuilt v : is_u64 v -> Symbol.valid v = true ->
  Symbol.string_to_symbol (Symbol.decimals v) (Symbol.symbol_name v) = Ok v.
Proof.
  intros Hv V. destruct (symbol_parts v Hv) as (E & R & L). apply andb_true_iff in V as [_ V].
  rewrite string_to_symbol_ok by done. by rewrite <- E.
Qed.

Lemma precision_loop_pow k p : 0 <= p -> p * 10 ^ Z.of_nat k < 2 ^ 64 -> Symbol.precision_loop k p = p * 10 ^ Z.of_nat k.
Proof.
  revert p. induction k as [|k IH]; intros p Hp Hb; cbn [Symbol.precision_loop]; [cbn; lia|].
  rewrite Nat2Z.inj_succ, Z.pow_succ_r in * by lia. assert (0 < 10 ^ Z.of_nat k) by (apply Z.pow_pos_nonneg; lia).
  rewrite u64_small by (split; nia). rewrite IH by nia. lia.
Qed.

Lemma precision_value v : Symbol.valid v = true -> is_u64 v ->
  Symbol.precision v = Ok (10 ^ Symbol.decimals v) /\ 0 < 10 ^ Symbol.decimals v <= 10 ^ 18 /\ 0 <= Symbol.decimals v <= 18.
Proof.
  intros V Hv. destruct (symbol_parts v Hv) as (_ & R & _). apply andb_true_iff in V as [V _].
  unfold Symbol.precision. rewrite V. cbn [check mbind result_bind]. apply Z.leb_le in V. change Symbol.max_precision with 18 in V.
  assert (10 ^ Symbol.decimals v <= 10 ^ 18) by (apply Z.pow_le_mono_r; lia).
  assert (0 < 10 ^ Symbol.decimals v) by (apply Z.pow_pos_nonneg; lia).
  rewrite precision_loop_pow; rewrite ?Z2Nat.id by lia; [|lia|change (10 ^ 18) with 1000000000000000000 in *; lia].
  split; [f_equal; lia|]. lia.
Qed.
End Symbols.

(** ** Text *)

Section Text.
Context `{BoostText}.

(** Nothing is trimmed off a text that has no space at its ends. *)
Lemma trim_copy_id s :
  (forall c t, s = c :: t -> is_space c = false) -> (forall c t, s = t ++ [c] -> is_space c = false) ->
  trim_copy s = s.
Proof.
  intros Hh Hl. destruct (trim_copy_spec s) as (l & r & E & Sp & _ & _). apply Forall_app in Sp as [Sl Sr].
  destruct l as [|c l].
  - destruct (list_last_cases r) as [->|(r' & c & ->)]; [by rewrite app_nil_r in E|]. exfalso.
    rewrite E in Hl. specialize (Hl c ([] ++ trim_copy s ++ r') ltac:(by rewrite <- !app_assoc)).
    apply Forall_app in Sr as [_ Sr]. inversion Sr. congruence.
  - exfalso. specialize (Hh c _ E). inversion Sl. congruence.
Qed.

Lemma find_pos_app c l r : c ∉ l -> find_pos c (l ++ c :: r) = Some (length l).
Proof.
  induction l as [|d l IH]; intros Hn; cbn [app find_pos]; [by rewrite bool_decide_eq_true_2|].
  apply not_elem_of_cons in Hn as [Hd Hn]. by rewrite bool_decide_eq_false_2, IH.
Qed.
Lemma find_pos_none c l : c ∉ l -> find_pos c l = None.
Proof.
  induction l as [|d l IH]; intros Hn; cbn [find_pos]; [done|].
  apply not_elem_of_cons in Hn as [Hd Hn]. by rewrite bool_decide_eq_false_2, IH.
Qed.

Lemma digits_exclude c ds : is_digit c = false -> is_decimal ds -> c ∉ ds.
Proof. intros Hc [_ D] Hin. rewrite Forall_forall in D. by rewrite (D _ Hin) in Hc. Qed.
Lemma letter_not_space c : char_in "A" "Z" c = true -> is_space c = false.
Proof. unfold char_in, is_space. change (chr "A") with 65. lia. Qed.
Lemma digit_not_space c : is_digit c = true -> is_space c = false.
Proof. unfold is_digit, char_in, is_space. change (chr "0") with 48. lia. Qed.

Lemma valid_name_trim nm : Symbol.valid_name nm = true -> trim_copy nm = nm.
Proof.
  intros V. unfold Symbol.valid_name in V. rewrite forallb_forall in V.
  apply trim_copy_id; intros c t ->; apply letter_not_space, V; [by left|apply in_app_iff; right; by left].
Qed.
Lemma valid_name_c_str nm : Symbol.valid_name nm = true -> c_str nm = nm.
Proof.
  induction nm as [|c nm IH]; intros V; [done|]. cbn in V. apply andb_true_iff in V as [Vc V]. cbn [c_str].
  rewrite bool_decide_eq_false_2 by (intros ->; discriminate Vc). by rewrite IH.
Qed.

Lemma to_int64_ok s v : int_text s v -> is_i64 v -> to_int64 s = Ok v.
Proof. intros. unfold to_int64. by rewrite (proj2 (lexical_int64_spec s v)). Qed.

(** A symbol is read from the digits of its precision and its name. *)
Lemma symbol_from_parts ds v : is_u64 v -> Symbol.valid v = true -> is_decimal ds ->
  decimal_value ds = Symbol.decimals v -> Symbol.symbol_name v <> [] ->
  symbol_from_string (ds ++ ","%char :: Symbol.symbol_name v) = Ok v.
Proof.
  intros Hv V D Dv Hn. destruct (precision_value v V Hv) as (_ & _ & R). pose proof V as V'. apply andb_true_iff in V' as [Vd Vn].
  unfold symbol_from_string. rewrite trim_copy_id.
  - rewrite bool_decide_eq_false_2 by (by destruct ds). rewrite find_pos_app by (by apply digits_exclude).
    cbn [check negb mbind result_bind of_option]. rewrite take_app_length.
    rewrite (to_int64_ok ds (decimal_value ds)) by (by apply int_plain || (rewrite Dv; mach_lia)). cbn [mbind result_bind].
    rewrite Dv. unfold u8. rewrite (Z.mod_small (Symbol.decimals v)) by lia. rewrite Vd. cbn [check mbind result_bind].
    rewrite Nat.add_comm. change (1 + length ds)%nat with (S (length ds)).
    replace (drop (S (length ds)) (ds ++ ","%char :: Symbol.symbol_name v)) with (Symbol.symbol_name v).
    + rewrite valid_name_c_str, symbol_rebuilt by done. cbn [mbind result_bind]. unfold Symbol.make. by rewrite V.
    + replace (S (length ds)) with (length ds + 1)%nat by lia. by rewrite drop_app_add.
  - intros c t E. destruct ds as [|d ds]; [by destruct D|]. injection E as -> _. destruct D as [_ D]. inversion D. by apply digit_not_space.
  - intros c t E. destruct (list_last_cases (Symbol.symbol_name v)) as [?|(n & d & En)]; [done|].
    rewrite En in E. assert (d = c) as <-.
    { replace (ds ++ ","%char :: n ++ [d]) with ((ds ++ ","%char :: n) ++ [d]) in E by (by rewrite <- app_assoc).
      apply app_inj_tail in E. tauto. }
    unfold Symbol.valid_name in Vn. rewrite forallb_forall in Vn. apply letter_not_space, Vn. rewrite En. apply in_app_iff. right. by left.
Qed.
End Text.

(** ** Assets *)

Section Assets.
Context `{BoostText}.

(** Safe arithmetic returns the exact result, or throws when it does not fit. *)
Lemma safe_add_iff a b c : is_i64 a -> is_i64 b -> safe_add a b = Ok c <-> c = a + b /\ is_i64 (a + b).
Proof.
  intros Ha Hb. unfold safe_add. split.
  - intros E. ok_bind E as [] C1. ok_bind E as [] C2. apply (proj1 (check_ok _ _ _)) in C1, C2. apply (proj1 (Ok_inj _ _)) in E as <-.
    assert (is_i64 (a + b)) by mach_lia. by rewrite i64_small.
  - intros [-> Hs]. replace ((0 <? b) && (a >? INT64_MAX - b)) with false by mach_lia.
    replace ((b <? 0) && (a <? INT64_MIN - b)) with false by mach_lia. cbn. by rewrite i64_small.
Qed.

Lemma quot_bound m x y : 0 <= m -> 0 < y -> (x >? Z.quot m y) = false <-> x * y <= m.
Proof.
  intros Hm Hy. rewrite Z.quot_div_nonneg by lia. pose proof (Z.div_mod m y ltac:(lia)). pose proof (Z.mod_pos_bound m y Hy).
  rewrite Z.gtb_ltb, Z.ltb_ge. split; nia.
Qed.
Lemma quot_opp_bound m x y : 0 <= m -> 0 < y -> (x <? - Z.quot m y) = false <-> - m <= x * y.
Proof.
  intros Hm Hy. rewrite Z.quot_div_nonneg by lia. pose proof (Z.div_mod m y ltac:(lia)). pose proof (Z.mod_pos_bound m y Hy).
  rewrite Z.ltb_ge. split; nia.
Qed.

Lemma safe_mul_iff a b c : is_i64 a -> is_i64 b -> safe_mul a b = Ok c <-> c = a * b /\ is_i64 (a * b).
Proof.
  intros Ha Hb. unfold safe_mul.
  match goal with |- context [?x ;; Ok _] => enough (E : x = Ok tt <-> is_i64 (a * b)) end.
  { split; [intros H'; ok_bind H' as [] Hx; apply (proj1 E) in Hx; apply (proj1 (Ok_inj _ _)) in H' as <-; by rewrite i64_small|].
    intros [-> Hp]. rewrite (proj2 E Hp). cbn. by rewrite i64_small. }
  assert (M : INT64_MIN = - 2 ^ 63) by done. rewrite !M.
  destruct (Z.ltb_spec 0 a) as [Pa|Pa], (Z.ltb_spec 0 b) as [Pb|Pb]; rewrite check_ok, negb_true_iff.
  - rewrite quot_bound by mach_lia. unfold is_i64, INT64_MAX. split; [split; nia|nia].
  - rewrite Z.quot_opp_l, quot_opp_bound by lia. unfold is_i64. split; [split; nia|nia].
  - rewrite Z.quot_opp_l, quot_opp_bound by lia. unfold is_i64. split; [split; nia|nia].
  - destruct (Z.eqb_spec a 0) as [->|Na]; [cbn; unfold is_i64; split; [lia|done]|]. cbn [negb andb].
    replace a with (- (- a)) at 1 by lia. rewrite Z.quot_opp_r, quot_opp_bound by mach_lia. unfold is_i64, INT64_MAX. split; [split; nia|nia].
Qed.

Lemma safe_add_ok a b : is_i64 a -> is_i64 b -> is_i64 (a + b) -> safe_add a b = Ok (a + b).
Proof. intros. by apply safe_add_iff. Qed.
Lemma safe_mul_ok a b : is_i64 a -> is_i64 b -> is_i64 (a * b) -> safe_mul a b = Ok (a * b).
Proof. intros. by apply safe_mul_iff. Qed.

(** The text of an amount: sign, digits, and a fraction unless it is empty. *)
Definition sign_text (neg : bool) : chars := if neg then ["-"%char] else [].
Definition fraction_text (fs : chars) : chars := match fs with [] => [] | _ => "."%char :: fs end.
Definition with_sign (neg : bool) (z : Z) : Z := if neg then - z else z.

Lemma signed_text neg ds : is_decimal ds -> int_text (sign_text neg ++ ds) (with_sign neg (decimal_value ds)).
Proof. destruct neg; cbn; by constructor. Qed.

Lemma sign_digits_exclude c neg ds : is_digit c = false -> c <> "-"%char -> is_decimal ds -> c ∉ sign_text neg ++ ds.
Proof.
  intros Hc Hm D. apply not_elem_of_app. split; [|by apply digits_exclude]. destruct neg; cbn; [|apply not_elem_of_nil].
  apply not_elem_of_cons. split; [done|apply not_elem_of_nil].
Qed.

(** Reading the parts of an amount. *)
Lemma parse_whole neg ds : is_decimal ds -> decimal_value ds <= asset_max_amount ->
  find_pos "." (sign_text neg ++ ds) = None /\
  parse_parts (sign_text neg ++ ds) None = Ok (with_sign neg (decimal_value ds), 0).
Proof.
  intros D B. split; [apply find_pos_none; by apply sign_digits_exclude|]. unfold parse_parts.
  pose proof (decimal_value_range ds (proj2 D)). unfold asset_max_amount in B.
  rewrite (to_int64_ok _ (with_sign neg (decimal_value ds))); [done|by apply signed_text|destruct neg; cbn; mach_lia].
Qed.
Lemma parse_fraction neg ds fs : is_decimal ds -> is_decimal fs -> decimal_value ds <= asset_max_amount -> decimal_value fs <= asset_max_amount ->
  let amount_str := (sign_text neg ++ ds) ++ "."%char :: fs in
  find_pos "." amount_str = Some (length (sign_text neg ++ ds)) /\
  parse_parts amount_str (Some (length (sign_text neg ++ ds))) = Ok (with_sign neg (decimal_value ds), with_sign neg (decimal_value fs)).
Proof.
  intros D F Bd Bf. cbn zeta. split; [apply find_pos_app; by apply sign_digits_exclude|]. unfold parse_parts.
  pose proof (decimal_value_range ds (proj2 D)). pose proof (decimal_value_range fs (proj2 F)). unfold asset_max_amount in *.
  rewrite take_app_length, drop_app_add. change (drop 1 ("."%char :: fs)) with fs.
  rewrite (to_int64_ok (sign_text neg ++ ds) (with_sign neg (decimal_value ds))); [|by apply signed_text|destruct neg; cbn; mach_lia].
  rewrite (to_int64_ok fs (decimal_value fs)); [|by apply int_plain|mach_lia]. cbn [mbind result_bind].
  destruct neg; cbn [sign_text app].
  - rewrite bool_decide_eq_true_2 by done. rewrite safe_mul_ok by mach_lia. cbn. do 2 f_equal. lia.
  - rewrite bool_decide_eq_false_2; [done|]. destruct ds as [|c ds]; [by destruct D|]. cbn. intros [= ->].
    destruct D as [_ D]. by inversion D.
Qed.

(** A text without outer spaces, split at its first space. *)
Lemma asset_text_split neg ds fs nm : is_decimal ds -> Forall (fun c => is_digit c = true) fs -> Symbol.valid_name nm = true -> nm <> [] ->
  let s := (sign_text neg ++ ds ++ fraction_text fs) ++ " "%char :: nm in
  trim_copy s = s /\ find_pos " " s = Some (length (sign_text neg ++ ds ++ fraction_text fs)).
Proof.
  intros D F V Hn s. split.
  - apply trim_copy_id; intros c t E.
    + destruct neg; [by injection E as <- _|]. destruct ds as [|d ds]; [by destruct D|]. injection E as -> _.
      destruct D as [_ D]. inversion D. by apply digit_not_space.
    + destruct (list_last_cases nm) as [?|(n & d & ->)]; [done|]. unfold s in E.
      change (" "%char :: n ++ [d]) with ((" "%char :: n) ++ [d]) in E. rewrite app_assoc in E. apply app_inj_tail in E as [_ <-].
      unfold Symbol.valid_name in V. rewrite forallb_forall in V. apply letter_not_space, V, in_app_iff. right. by left.
  - apply find_pos_app. rewrite app_assoc. apply not_elem_of_app. split; [by apply sign_digits_exclude|].
    destruct fs as [|f fs]; cbn; [apply not_elem_of_nil|]. apply not_elem_of_cons. split; [done|].
    apply digits_exclude; [done|]. by split.
Qed.

(** The symbol that [from_string] builds from the length of the fraction. *)
Lemma precision_digits v (amount_str fs : chars) d : is_u64 v -> Symbol.valid v = true -> Symbol.symbol_name v <> [] ->
  Z.of_nat (length fs) = Symbol.decimals v -> (length amount_str = d + S (length fs))%nat ->
  symbol_from_string (decimal (u64 (Z.of_nat (length amount_str) - Z.of_nat d - 1)) ++ ","%char :: Symbol.symbol_name v) = Ok v.
Proof.
  intros Hv V Hn Hk Hl. destruct (precision_value v V Hv) as (_ & _ & R).
  replace (Z.of_nat (length amount_str) - Z.of_nat d - 1) with (Symbol.decimals v) by lia.
  rewrite u64_small by mach_lia. destruct (decimal_spec (Symbol.decimals v)) as (D & Dv & _); [lia|].
  by apply symbol_from_parts.
Qed.

(** The amount that is made of its parts. *)
Lemma amount_from_parts neg v x y : is_u64 v -> Symbol.valid v = true -> 0 <= x -> 0 <= y ->
  x * 10 ^ Symbol.decimals v + y <= asset_max_amount ->
  (p ← Symbol.precision v;
   amount ← safe_mul (with_sign neg x) (i64 p); amount ← safe_add amount (with_sign neg y); asset_make amount v)
  = Ok (mk_asset (with_sign neg (x * 10 ^ Symbol.decimals v + y)) v).
Proof.
  intros Hv V Hx Hy B. destruct (precision_value v V Hv) as (-> & P & _). cbn [mbind result_bind].
  set (p := 10 ^ Symbol.decimals v) in *. assert (x * p <= asset_max_amount) by lia. assert (0 <= x * p) by lia. assert (x <= x * p) by nia.
  unfold asset_max_amount in *. change (10 ^ 18) with 1000000000000000000 in P.
  rewrite (i64_small p) by mach_lia. rewrite safe_mul_ok; [|destruct neg; cbn; mach_lia|mach_lia|destruct neg; cbn; mach_lia].
  cbn [mbind result_bind]. rewrite safe_add_ok; [|destruct neg; cbn; mach_lia..]. cbn [mbind result_bind].
  replace (with_sign neg x * p + with_sign neg y) with (with_sign neg (x * p + y)) by (destruct neg; cbn; lia).
  unfold asset_make, is_amount_within_range, asset_max_amount. rewrite V. replace (_ && _) with true by (destruct neg; cbn; lia). done.
Qed.

(** The text "digits, point, fraction, space, name" is read as the amount it
    writes: the fraction gives the precision. *)
Lemma asset_from_digits neg ds fs v :
  is_u64 v -> Symbol.valid v = true -> Symbol.symbol_name v <> [] -> is_decimal ds -> Forall (fun c => is_digit c = true) fs ->
  Z.of_nat (length fs) = Symbol.decimals v -> Z.of_nat (length ds) < 2 ^ 63 ->
  decimal_value ds * 10 ^ Symbol.decimals v + decimal_value fs <= asset_max_amount ->
  asset_from_string (sign_text neg ++ ds ++ fraction_text fs ++ " "%char :: Symbol.symbol_name v) =
    Ok (mk_asset (with_sign neg (decimal_value ds * 10 ^ Symbol.decimals v + decimal_value fs)) v).
Proof.
  intros Hv V Hn D F Hk Hl B. destruct (precision_value v V Hv) as (_ & P & R). pose proof V as V'. apply andb_true_iff in V' as [_ Vn].
  pose proof (decimal_value_range ds (proj2 D)) as Rd. pose proof (decimal_value_range fs F) as Rf.
  assert (decimal_value ds <= asset_max_amount) by nia. assert (decimal_value fs <= asset_max_amount) by nia.
  destruct (asset_text_split neg ds fs (Symbol.symbol_name v) D F Vn Hn) as [Et Ef]. rewrite <- !app_assoc in Et, Ef.
  unfold asset_from_string. rewrite Et, Ef. cbn [of_option mbind result_bind].
  replace (sign_text neg ++ ds ++ fraction_text fs ++ " "%char :: Symbol.symbol_name v)
    with ((sign_text neg ++ ds ++ fraction_text fs) ++ " "%char :: Symbol.symbol_name v) by (by rewrite <- !app_assoc).
  rewrite take_app_length, drop_app_add. change (drop 1 (" "%char :: Symbol.symbol_name v)) with (Symbol.symbol_name v).
  rewrite (valid_name_trim _ Vn). destruct fs as [|f fs]; cbn [fraction_text].
  - rewrite app_nil_r. destruct (parse_whole neg ds D ltac:(done)) as [-> ->]. cbn [check mbind result_bind].
    rewrite (symbol_from_parts ["0"%char] v); [|done|done|by repeat constructor|by rewrite <- Hk|done]. cbn [mbind result_bind].
    pose proof (amount_from_parts neg v (decimal_value ds) 0 Hv V ltac:(lia) ltac:(lia) B) as X.
    by replace (with_sign neg 0) with 0 in X by (by destruct neg).
  - rewrite app_assoc. destruct (parse_fraction neg ds (f :: fs) D ltac:(done) ltac:(done) ltac:(done)) as [-> ->].
    set (as_ := (sign_text neg ++ ds) ++ "."%char :: f :: fs). assert (La : length as_ = (length (sign_text neg ++ ds) + S (length (f :: fs)))%nat)
      by (unfold as_; by rewrite length_app). assert ((length (sign_text neg) <= 1)%nat) by (destruct neg; cbn; lia).
    assert (1 <= length (f :: fs))%nat by (cbn; lia). rewrite length_app in La.
    rewrite bool_decide_eq_false_2 by (rewrite length_app, u64_small; mach_lia). cbn [negb check mbind result_bind].
    rewrite (precision_digits v as_ (f :: fs)) by (done || by rewrite length_app). cbn [mbind result_bind].
    apply (amount_from_parts neg v (decimal_value ds) (decimal_value (f :: fs))); [done|done|lia|lia|done].
Qed.

(** What is printed of a valid asset. *)
Lemma asset_to_digits m v : is_valid (mk_asset m v) = true -> is_u64 v ->
  exists ds fs, asset_to_string (mk_asset m v) = Ok (sign_text (m <? 0) ++ ds ++ fraction_text fs ++ " "%char :: Symbol.symbol_name v) /\
    is_decimal ds /\ Forall (fun c => is_digit c = true) fs /\ Z.of_nat (length fs) = Symbol.decimals v /\
    Z.of_nat (length ds) < 2 ^ 63 /\ decimal_value ds * 10 ^ Symbol.decimals v + decimal_value fs = Z.abs m.
Proof.
  intros Va Hv. apply andb_true_iff in Va as [Vm V]. cbn [sym amount] in *.
  destruct (precision_value v V Hv) as (E & P & R). unfold asset_to_string. cbn [sym amount]. rewrite E. cbn [mbind result_bind].
  set (p := 10 ^ Symbol.decimals v) in *. change (10 ^ 18) with 1000000000000000000 in P.
  assert (Ha : 0 <= Z.abs m <= asset_max_amount) by (unfold is_amount_within_range in Vm; lia). unfold asset_max_amount in Ha.
  rewrite (i64_small (Z.abs m)) by mach_lia. rewrite Z.quot_div_nonneg, Z.rem_mod_nonneg by lia.
  pose proof (Z.div_mod (Z.abs m) p ltac:(lia)) as Ed. pose proof (Z.mod_pos_bound (Z.abs m) p ltac:(lia)) as Em.
  assert (Hq : 0 <= Z.abs m / p <= Z.abs m) by (split; [apply Z.div_pos; lia|apply Z.div_le_upper_bound; nia]).
  rewrite (i64_small (p + _)) by mach_lia. rewrite !lexical_string_spec by mach_lia. unfold decimal_signed.
  replace (Z.abs m / p <? 0) with false by lia. replace (p + Z.abs m mod p <? 0) with false by lia.
  destruct (decimal_spec (Z.abs m / p)) as (D & Dv & Dl); [lia|].
  assert (L : Z.of_nat (length (decimal (Z.abs m / p))) < 2 ^ 63).
  { destruct (Z.lt_ge_cases (Z.of_nat (length (decimal (Z.abs m / p)))) (2 ^ 63)) as [|L]; [done|exfalso].
    destruct Dl as [Dl|Dl]; [unfold decimal in L; cbn [decimal_loop] in L; replace (Z.abs m / p <? 10) with true in L by lia; cbn in L; lia|].
    assert (10 ^ 20 <= 10 ^ (Z.of_nat (length (decimal (Z.abs m / p))) - 1)) by (apply Z.pow_le_mono_r; lia). lia. }
  destruct (Z.eqb_spec (Symbol.decimals v) 0) as [E0|N0].
  - exists (decimal (Z.abs m / p)), []. assert (p = 1) as -> by (unfold p; by rewrite E0).
    rewrite Z.div_1_r in *. split; [done|]. split; [done|]. split; [by constructor|]. split; [by rewrite E0|]. split; [done|].
    rewrite Dv. cbn. lia.
  - exists (decimal (Z.abs m / p)), (drop 1 (decimal (p + Z.abs m mod p))).
    destruct (decimal_fraction (Z.to_nat (Symbol.decimals v)) (Z.abs m mod p)) as (Lf & [Fn Ff] & Fv);
      rewrite ?Z2Nat.id by lia; fold p; [lia|lia|lia|]. rewrite Z2Nat.id in Lf, Fn, Ff, Fv by lia. fold p in Lf, Fn, Ff, Fv.
    split; [|rewrite Lf, Dv, Fv; split_and!; [apply D|done|lia|done|lia]].
    destruct (drop 1 (decimal (p + Z.abs m mod p))) as [|f fs]; [done|]. cbn [fraction_text]. by rewrite <- !app_assoc.
Qed.

(** A valid asset of a symbol with a name is printed, and read back from what
    was printed. (C38) *)
Theorem asset_text_roundtrip (a : asset) :
  is_valid a = true -> is_u64 (sym a) -> Symbol.symbol_name (sym a) <> [] ->
  exists s, asset_to_string a = Ok s /\ asset_from_string s = Ok a.
Proof.
  intros Va Hv Hn. destruct a as [m v]. cbn [sym] in *. pose proof Va as V. apply andb_true_iff in V as [Vm V]. cbn [sym amount] in *.
  destruct (asset_to_digits m v Va Hv) as (ds & fs & E & D & F & Lf & Ld & Val). eexists. split; [exact E|].
  rewrite asset_from_digits; [|done..|]; rewrite Val.
  - do 2 f_equal. unfold with_sign. destruct (Z.ltb_spec m 0); lia.
  - unfold is_amount_within_range in Vm. lia.
Qed.

Lemma string_to_symbol_loop_valid str i z r : Symbol.string_to_symbol_loop str i z = Ok r ->
  Symbol.valid_name str = true /\ (str = [] \/ i + length str <= 7)%nat.
Proof.
  revert i z. induction str as [|c str IH]; intros i z Hr; [by split; [|left]|]. cbn [Symbol.string_to_symbol_loop] in Hr.
  ok_bind Hr as [] Hc. ok_bind Hr as [] Hi. apply (proj1 (check_ok _ _ _)) in Hc, Hi. apply IH in Hr as [V L].
  cbn [Symbol.valid_name forallb length]. rewrite Hc. split; [done|]. right. destruct L as [->|L]; cbn [length]; lia.
Qed.

Lemma string_to_symbol_u64 p str v : 0 <= p < 256 -> Symbol.string_to_symbol p str = Ok v ->
  Symbol.valid_name str = true /\ (length str <= 7)%nat /\ is_u64 v.
Proof.
  intros Hp E. assert (L : Symbol.valid_name str = true /\ (length str <= 7)%nat).
  { unfold Symbol.string_to_symbol in E. ok_bind E as r Hr. apply string_to_symbol_loop_valid in Hr as [V [->|L]]; (split; [done|]); cbn in *; lia. }
  destruct L as [V L]. rewrite string_to_symbol_ok in E by done. apply (proj1 (Ok_inj _ _)) in E as <-. split; [done|]. split; [done|].
  pose proof (letters_value_range str). assert (256 ^ Z.of_nat (length str) <= 256 ^ 7) by (apply Z.pow_le_mono_r; lia). mach_lia.
Qed.

(** Whatever the text, an asset that is read from it is valid: its amount is
    below 2^62, its precision at most 18, its symbol made of capital letters. *)
Theorem asset_read_valid s a : asset_from_string s = Ok a -> is_valid a = true /\ is_u64 (sym a).
Proof.
  intros E. unfold asset_from_string in E. ok_bind E as sp Hsp. ok_bind E as [] Hd. ok_bind E as v Hv. ok_bind E as [x y] Hxy.
  ok_bind E as p Hp. ok_bind E as m Hm. ok_bind E as n Hn. unfold asset_make in E. ok_bind E as [] C1. ok_bind E as [] C2.
  apply (proj1 (check_ok _ _ _)) in C1, C2. apply (proj1 (Ok_inj _ _)) in E as <-. unfold is_valid. cbn [sym amount]. rewrite C1, C2. split; [done|].
  unfold symbol_from_string in Hv. ok_bind Hv as [] H1. ok_bind Hv as c Hc. ok_bind Hv as z Hz. ok_bind Hv as [] H2. ok_bind Hv as w Hw.
  unfold Symbol.make in Hv. ok_bind Hv as [] H3. apply (proj1 (Ok_inj _ _)) in Hv as <-.
  eapply string_to_symbol_u64; [|exact Hw]. unfold u8. pose proof (Z.mod_pos_bound z (2 ^ 8)). lia.
Qed.

(** A symbol is read back from its own text. *)
Theorem symbol_text_roundtrip v : is_u64 v -> Symbol.valid v = true -> Symbol.symbol_name v <> [] ->
  symbol_from_string (Symbol.to_string v) = Ok v.
Proof.
  intros Hv V Hn. destruct (precision_value v V Hv) as (_ & _ & R). destruct (decimal_spec (Symbol.decimals v)) as (D & Dv & _); [lia|].
  by apply symbol_from_parts.
Qed.

(** Sums and differences of valid assets of one symbol: the machine addition
    does not overflow, and the result is exact or refused. *)
Lemma asset_plus_iff a b c : is_valid a = true -> is_valid b = true ->
  asset_plus a b = Ok c <-> sym a = sym b /\ is_amount_within_range (amount a + amount b) = true /\ c = mk_asset (amount a + amount b) (sym a).
Proof.
  intros Va Vb. apply andb_true_iff in Va as [Ra Va], Vb as [Rb Vb]. unfold is_amount_within_range, asset_max_amount in Ra, Rb.
  unfold asset_plus, asset_make. rewrite i64_small by mach_lia. rewrite Va. destruct (Z.eqb_spec (sym a) (sym b)) as [Es|Es]; cbn [check mbind result_bind].
  - destruct (is_amount_within_range (amount a + amount b)); cbn [check mbind result_bind]; split; [by intros [= <-]|by intros (_ & _ & ->)|done|by intros (_ & ? & _)].
  - split; [done|]. by intros [? _].
Qed.

(** What is added can be taken away again. *)
Theorem asset_plus_minus a b c : is_valid a = true -> is_valid b = true -> asset_plus a b = Ok c ->
  is_valid c = true /\ asset_minus c b = Ok a.
Proof.
  intros Va Vb E. pose proof E as E'. apply asset_plus_iff in E' as (Es & Rc & ->); [|done..].
  apply andb_true_iff in Va as [Ra Va]. unfold is_valid, asset_minus, asset_make. cbn [sym amount]. rewrite Rc, Va, Es, Z.eqb_refl. split; [done|].
  replace (amount a + amount b - amount b) with (amount a) by lia.
  rewrite i64_small by (unfold is_amount_within_range, asset_max_amount in Ra; mach_lia). rewrite Ra, <- Es. by destruct a.
Qed.
End Assets.

(** ** Concrete texts *)

Definition text (s : string) : chars := list_ascii_of_string s.
Definition cur (p : Z) : Z := from_ok 0 (Symbol.string_to_symbol p (text "CUR")).

(** The limits, as in [asset_from_string_overflow] of misc_tests.cpp. *)
Example asset_limits :
  asset_from_string (text "4.611686018427387903 CUR") = Ok (mk_asset (2 ^ 62 - 1) (cur 18)) /\
  asset_from_string (text "-4611686018427387903 CUR") = Ok (mk_asset (- (2 ^ 62 - 1)) (cur 0)) /\
  asset_from_string (text "4.611686018427387904 CUR") = Err "magnitude of asset amount must be less than 2^62" /\
  asset_from_string (text "36.893488147419103232 CUR") = Err "overflow_exception" /\
  asset_from_string (text "-36.893488147419103232 CUR") = Err "underflow_exception" /\
  asset_from_string (text "100000000000000000000000 CUR") = Err "parse_error_exception" /\
  asset_from_string (text "0.1000000000000000000 CUR") = Err "precision should be <= 18".
Proof. vm_compute. repeat split. Qed.

(** A sign in the fraction is accepted, and counts as a digit of the precision. *)
Example signed_fraction :
  asset_from_string (text "1.-5 CUR") = Ok (mk_asset 95 (cur 2)) /\
  asset_from_string (text "-1.-5 CUR") = Ok (mk_asset (-95) (cur 2)) /\
  asset_from_string (text "1.+5 CUR") = Ok (mk_asset 105 (cur 2)).
Proof. vm_compute. repeat split. Qed.

(** The precision is converted to eight bits before it is compared with 18. *)
Example precision_wraps :
  symbol_from_string (text "260,CUR") = Ok (cur 4) /\ symbol_from_string (text "-252,CUR") = Ok (cur 4) /\
  symbol_from_string (text "200,CUR") = Err "precision should be <= 18".
Proof. vm_compute. repeat split. Qed.

(** A symbol without a name is valid, but its assets cannot be read back; a
    name of eight letters shifts by the width of the type. *)
Example nameless_symbol :
  symbol_from_string (text "4,") = Ok 4 /\ is_valid (mk_asset 10000 4) = true /\
  asset_to_string (mk_asset 10000 4) = Ok (text "1.0000 ") /\
  asset_from_string (text "1.0000 ") = Err "Asset's amount and symbol should be separated with space" /\
  symbol_from_string (text "4,ABCDEFGH") = Err "undefined: shift by the width of the type".
Proof. vm_compute. repeat split. Qed.

(** [+=] checks neither the magnitude nor the overflow of the sum. *)
Example unchecked_sum :
  asset_plus (mk_asset (2 ^ 62 - 1) (cur 4)) (mk_asset 1 (cur 4)) = Err "magnitude of asset amount must be less than 2^62" /\
  asset_plus_assign (mk_asset (2 ^ 62 - 1) (cur 4)) (mk_asset 1 (cur 4)) = Ok (mk_asset (2 ^ 62) (cur 4)) /\
  is_valid (mk_asset (2 ^ 62) (cur 4)) = false.
Proof. vm_compute. repeat split. Qed.

(** A negative amount below one unit. *)
Lemma asset_text_roundtrip_witness : exists s,
  asset_to_string (mk_asset (-5) (cur 4)) = Ok s /\ asset_from_string s = Ok (mk_asset (-5) (cur 4)).
Proof. apply asset_text_roundtrip; [reflexivity|vm_compute; split; congruence|discriminate]. Defined.

Lemma asset_read_valid_witness : exists a, asset_from_string (text " 10.0000  CUR ") = Ok a /\ is_valid a = true /\ is_u64 (sym a).
Proof. exists (mk_asset 100000 (cur 4)). split; [reflexivity|]. apply (asset_read_valid (text " 10.0000  CUR ")). reflexivity. Defined.

Lemma asset_plus_minus_witness : exists c, asset_plus (mk_asset 7 (cur 4)) (mk_asset (-9) (cur 4)) = Ok c /\ is_valid c = true /\
  asset_minus c (mk_asset (-9) (cur 4)) = Ok (mk_asset 7 (cur 4)).
Proof. exists (mk_asset (-2) (cur 4)). split; [reflexivity|]. apply asset_plus_minus; reflexivity. Defined.
