(* ===== verification/Cdt.v ===== *)
(** * The contract development kit, as an interface

    The NFT contract is written against eosio.cdt, which is not part of the
    repository.  Its [asset], [symbol], [name], [time_point_sec],
    [singleton] and [multi_index] are the fields of the class [Cdt]; the laws
    are their documented behaviour.  A table of the chain database is keyed by
    the pair of scope and primary key, and [rows] is its content. *)

From stdpp Require Import base numbers list gmap strings.
From Stdlib Require Import ZArith Lia Ascii SpecFloat.
From S2P Require Import Prelude Boost.
Local Open Scope Z_scope.

(** ** IEEE 754 binary64 arithmetic as the contract uses it

    [double] is [spec_float] of the Standard Library at precision 53 and
    maximal exponent 1024, rounding to nearest even; the conversion of a
    [double] to [int64_t] is the node's [_eosio_f64_trunc_i64s], which throws
    outside the range instead of wrapping. *)

Abbreviation double := spec_float.
Definition dprec : Z := 53.
Definition demax : Z := 1024.

Definition d_of_Z (z : Z) : double := binary_normalize dprec demax z 0 false.
Definition dmul : double -> double -> double := SFmul dprec demax.
Definition ddiv : double -> double -> double := SFdiv dprec demax.
Definition dle : double -> double -> bool := SFleb.
Definition dlt : double -> double -> bool := SFltb.
Definition deq : double -> double -> bool := SFeqb.

Definition d_zero : double := S754_zero false.
Definition d_one : double := d_of_Z 1.
(** The literal [.02]: the double nearest to 1/50. *)
Definition d_002 : double := S754_finite false 5764607523034235 (-58).
(** [pow(10, p)], correctly rounded. *)
Definition d_pow10 (p : Z) : double := d_of_Z (10 ^ p).

(** Truncation towards zero of a finite double. *)
Definition d_trunc (d : double) : Z :=
  match d with
  | S754_finite s m e =>
    let a := if 0 <=? e then Z.pos m * 2 ^ e else Z.pos m / 2 ^ (- e) in
    if s then - a else a
  | _ => 0
  end.

Definition _eosio_f64_trunc_i64s (af : double) : result Z :=
  if dle (d_of_Z (2 ^ 63)) af || dlt af (d_of_Z (- 2 ^ 63)) then Err "wasm_execution_error"
  else match af with
       | S754_nan => Err "wasm_execution_error"
       | _ => Ok (d_trunc af)
       end.

(** ** The contract development kit, as an interface *)

Abbreviation name := Z.
Abbreviation key := (Z * Z)%type.

Record symbol := Symbol { code : Z; precision : Z }.
Record asset := Asset { amount : Z; asset_symbol : symbol }.

#[global] Instance symbol_eq_dec : EqDecision symbol.
Proof. solve_decision. Defined.
#[global] Instance asset_eq_dec : EqDecision asset.
Proof. solve_decision. Defined.

(** [asset::max_amount] *)
Definition max_amount : Z := 2 ^ 62 - 1.
Definition in_range (z : Z) : Prop := - max_amount <= z <= max_amount.

#[global] Instance in_range_dec z : Decision (in_range z).
Proof. unfold in_range. apply _. Defined.

Class Cdt := {
  (** *** [asset], [symbol], [symbol_code], [name], [time_point_sec] *)
  symbol_is_valid : symbol -> bool;
  symbol_code_is_valid : Z -> bool;
  symbol_code : chars -> Z;
  (** [name(string)], which checks its argument, and name literals *)
  name_of : chars -> result name;
  name_lit : string -> name;
  (** [time_point_sec + uint32_t] *)
  time_plus : Z -> Z -> Z;
  time_plus_spec : forall t d, time_plus t d = u32 (t + u32 d);
  asset_new : Z -> symbol -> result asset;
  asset_is_valid : asset -> bool;
  asset_plus : asset -> asset -> result asset;
  asset_minus : asset -> asset -> result asset;
  (** the constructor checks the magnitude and the symbol *)
  asset_new_ok : forall z s a, asset_new z s = Ok a <->
    a = Asset z s /\ in_range z /\ symbol_is_valid s = true;
  asset_is_valid_iff : forall a, asset_is_valid a = true <->
    in_range (amount a) /\ symbol_is_valid (asset_symbol a) = true;
  (** [+=] and [-=] need equal symbols and check the result's magnitude *)
  asset_plus_ok : forall a b c, asset_plus a b = Ok c <->
    asset_symbol a = asset_symbol b /\ in_range (amount a + amount b) /\
    c = Asset (amount a + amount b) (asset_symbol a);
  asset_minus_ok : forall a b c, asset_minus a b = Ok c <->
    asset_symbol a = asset_symbol b /\ in_range (amount a - amount b) /\
    c = Asset (amount a - amount b) (asset_symbol a);
  (** *** [singleton] *)
  cell : Type -> Type;
  cell_empty : forall {A}, cell A;
  cell_get : forall {A}, cell A -> option A;
  cell_set : forall {A}, cell A -> A -> cell A;
  cell_get_empty : forall A, cell_get (@cell_empty A) = None;
  cell_get_set : forall A (c : cell A) a, cell_get (cell_set c a) = Some a;
  (** *** [multi_index] *)
  table : Type -> Type;
  table_empty : forall {A}, table A;
  rows : forall {A}, table A -> gmap key A;
  tbl_find : forall {A}, table A -> key -> option A;
  emplace : forall {A}, table A -> key -> A -> result (table A);
  modify : forall {A}, table A -> key -> A -> result (table A);
  erase : forall {A}, table A -> key -> result (table A);
  rows_empty : forall A, rows (@table_empty A) = ∅;
  tbl_find_rows : forall A (t : table A) k, tbl_find t k = rows t !! k;
  (** [emplace] aborts when the key is present *)
  emplace_ok : forall A (t : table A) k v, (exists t', emplace t k v = Ok t') <-> rows t !! k = None;
  emplace_rows : forall A (t t' : table A) k v, emplace t k v = Ok t' -> rows t' = <[k := v]> (rows t);
  (** [modify] and [erase] act on a row that is present *)
  modify_ok : forall A (t : table A) k v, (exists t', modify t k v = Ok t') <-> is_Some (rows t !! k);
  modify_rows : forall A (t t' : table A) k v, modify t k v = Ok t' -> rows t' = <[k := v]> (rows t);
  erase_ok : forall A (t : table A) k, (exists t', erase t k = Ok t') <-> is_Some (rows t !! k);
  erase_rows : forall A (t t' : table A) k, erase t k = Ok t' -> rows t' = delete k (rows t);
}.

(** [get(pk, msg)]: the row, or abort with [msg]. *)
Definition get {cdt : Cdt} {A} (t : table A) (k : key) (msg : string) : result A :=
  of_option (tbl_find t k) msg.

(** [find(pk) == end()] *)
Definition absent {cdt : Cdt} {A} (t : table A) (k : key) : bool :=
  bool_decide (tbl_find t k = None).

Section TableLemmas.
Context {cdt : Cdt} {A : Type}.
Implicit Types (t : table A) (k : key).

Lemma get_ok t k msg v : get t k msg = Ok v <-> rows t !! k = Some v.
Proof. unfold get. rewrite of_option_ok, tbl_find_rows. done. Qed.

Lemma emplace_inv t t' k v :
  emplace t k v = Ok t' -> rows t !! k = None /\ rows t' = <[k := v]> (rows t).
Proof. intros H. split; [apply (emplace_ok A t k v); eauto | by apply emplace_rows]. Qed.

Lemma modify_inv t t' k v :
  modify t k v = Ok t' -> is_Some (rows t !! k) /\ rows t' = <[k := v]> (rows t).
Proof. intros H. split; [apply (modify_ok A t k v); eauto | by apply modify_rows]. Qed.

Lemma erase_inv t t' k :
  erase t k = Ok t' -> is_Some (rows t !! k) /\ rows t' = delete k (rows t).
Proof. intros H. split; [apply (erase_ok A t k); eauto | by apply erase_rows]. Qed.

Lemma absent_true t k : absent t k = true <-> rows t !! k = None.
Proof. unfold absent. rewrite bool_decide_eq_true, tbl_find_rows. done. Qed.
End TableLemmas.
