(* ===== verification/Dreamoji.v ===== *)
(** * The NFT contract: state and actions ([dreamoji.hpp], [dreamoji.cpp], [service.hpp])

    One definition per action and private helper, over the tables of the
    contract.  A successful action returns the new state; [Err] is an aborted
    transaction, whose effects the chain discards. *)

From stdpp Require Import base numbers list gmap strings sorting.
From Stdlib Require Import ZArith Lia Ascii.
From Stdlib Require String.
From S2P Require Import Prelude Boost Cdt.
Local Open Scope Z_scope.

(** ** Tables *)

Record asks := mk_asks {
  ask_batch_id : Z; ask_nft_ids : list Z; ask_seller : name; ask_amount : asset;
  ask_expiration : Z }.

Record tokenconfigs := mk_tokenconfigs {
  cfg_standard : name; cfg_version : chars; cfg_symbol : Z; cfg_category_name_id : Z;
  cfg_next_nft_id : Z; cfg_next_licence_id : Z }.

Record dreamstats := mk_dreamstats {
  fungible : bool; burnable : bool; sellable : bool; transferable : bool;
  issuer : name; rev_partner : name; st_token_name : name; st_category_name_id : Z;
  max_supply : asset; max_issue_window : Z; current_supply : asset; issued_supply : asset;
  rev_split : double; base_uri : chars }.

Record dreams := mk_dreams {
  dr_id : Z; dr_serial_number : Z; dr_owner : name; dr_category : name;
  dr_token_name : name; dr_relative_uri : option chars; dr_children : list Z }.

Record accounts := mk_accounts {
  acc_category_name_id : Z; acc_category : name; acc_token_name : name; acc_amount : asset }.

Record sales := mk_sales {
  sl_nft_id : Z; sl_seller : name; sl_price : asset; sl_lcnc_limit : Z;
  sl_end_of_sale : Z; sl_lcnc_period_sec : Z }.

Record licences := mk_licences {
  lc_licence_id : Z; lc_nft_id : Z; lc_owner : name; lc_licensed_to : list name;
  lc_expiration : Z; lc_relicense : bool }.

(** What an action asks the chain to do besides writing its tables:
    notifications and inline actions. *)
Inductive effect :=
| Notify (account : name)
| TokenTransfer (from to : name) (quantity : asset) (memo : string)
| Logcall (nft_id : Z)
| Logsale (nft_ids : list Z) (seller buyer receiver : name)
| Loglicense (lcnc_id : Z).

(** The chain as one action sees it: the receiver, the accounts whose
    authority the action carries, the existing accounts and the block time in
    seconds.  [oob] is what an out-of-range [operator\[\]] reads and [freed v]
    what is read back from a row object, holding [v], after [erase] freed it:
    neither traps in WebAssembly. *)
Record env := mk_env {
  self : name; auths : list name; is_account : name -> bool; now : Z;
  oob : Z; freed : Z -> Z }.

Section Contract.
Context {cdt : Cdt}.

Record state := mk_state {
  config_t : cell tokenconfigs; stats_t : table dreamstats; category_t : table name;
  dream_t : table dreams; account_t : table accounts; ask_t : table asks;
  sale_t : table sales; licence_t : table licences; lock_t : table Z; link_t : table Z;
  out : list effect }.

Definition with_config s t := mk_state t (stats_t s) (category_t s) (dream_t s) (account_t s)
  (ask_t s) (sale_t s) (licence_t s) (lock_t s) (link_t s) (out s).
Definition with_stats s t := mk_state (config_t s) t (category_t s) (dream_t s) (account_t s)
  (ask_t s) (sale_t s) (licence_t s) (lock_t s) (link_t s) (out s).
Definition with_category s t := mk_state (config_t s) (stats_t s) t (dream_t s) (account_t s)
  (ask_t s) (sale_t s) (licence_t s) (lock_t s) (link_t s) (out s).
Definition with_dream s t := mk_state (config_t s) (stats_t s) (category_t s) t (account_t s)
  (ask_t s) (sale_t s) (licence_t s) (lock_t s) (link_t s) (out s).
Definition with_account s t := mk_state (config_t s) (stats_t s) (category_t s) (dream_t s) t
  (ask_t s) (sale_t s) (licence_t s) (lock_t s) (link_t s) (out s).
Definition with_ask s t := mk_state (config_t s) (stats_t s) (category_t s) (dream_t s)
  (account_t s) t (sale_t s) (licence_t s) (lock_t s) (link_t s) (out s).
Definition with_sale s t := mk_state (config_t s) (stats_t s) (category_t s) (dream_t s)
  (account_t s) (ask_t s) t (licence_t s) (lock_t s) (link_t s) (out s).
Definition with_licence s t := mk_state (config_t s) (stats_t s) (category_t s) (dream_t s)
  (account_t s) (ask_t s) (sale_t s) t (lock_t s) (link_t s) (out s).
Definition with_lock s t := mk_state (config_t s) (stats_t s) (category_t s) (dream_t s)
  (account_t s) (ask_t s) (sale_t s) (licence_t s) t (link_t s) (out s).
Definition with_link s t := mk_state (config_t s) (stats_t s) (category_t s) (dream_t s)
  (account_t s) (ask_t s) (sale_t s) (licence_t s) (lock_t s) t (out s).
Definition with_out s t := mk_state (config_t s) (stats_t s) (category_t s) (dream_t s)
  (account_t s) (ask_t s) (sale_t s) (licence_t s) (lock_t s) (link_t s) t.

Definition empty_state : state := mk_state cell_empty table_empty table_empty table_empty
  table_empty table_empty table_empty table_empty table_empty table_empty [].

Definition set_current (s : dreamstats) (a : asset) : dreamstats :=
  mk_dreamstats (fungible s) (burnable s) (sellable s) (transferable s) (issuer s)
    (rev_partner s) (st_token_name s) (st_category_name_id s) (max_supply s)
    (max_issue_window s) a (issued_supply s) (rev_split s) (base_uri s).
Definition set_issued (s : dreamstats) (a : asset) : dreamstats :=
  mk_dreamstats (fungible s) (burnable s) (sellable s) (transferable s) (issuer s)
    (rev_partner s) (st_token_name s) (st_category_name_id s) (max_supply s)
    (max_issue_window s) (current_supply s) a (rev_split s) (base_uri s).
Definition set_max (s : dreamstats) (a : asset) (window : Z) : dreamstats :=
  mk_dreamstats (fungible s) (burnable s) (sellable s) (transferable s) (issuer s)
    (rev_partner s) (st_token_name s) (st_category_name_id s) a
    window (current_supply s) (issued_supply s) (rev_split s) (base_uri s).
Definition set_owner (d : dreams) (o : name) : dreams :=
  mk_dreams (dr_id d) (dr_serial_number d) o (dr_category d) (dr_token_name d)
    (dr_relative_uri d) (dr_children d).
Definition set_children (d : dreams) (c : list Z) : dreams :=
  mk_dreams (dr_id d) (dr_serial_number d) (dr_owner d) (dr_category d) (dr_token_name d)
    (dr_relative_uri d) c.

(** ** Chain intrinsics *)

Definition require_auth (e : env) (n : name) : result unit :=
  check (bool_decide (n ∈ auths e)) "missing authority".
Definition emit (s : state) (ev : effect) : state := with_out s (out s ++ [ev]).
Definition require_recipient (s : state) (n : name) : state := emit s (Notify n).

(** ** Private helpers *)

Definition _checkasset (s : state) (a : asset) (fung : bool) : result unit :=
  (if fung then check (amount a >? 0) "amount must be positive"
   else
     check (precision (asset_symbol a) =? 0) "NFT must be an int, precision of 0" ;;
     check (amount a >=? 1) "NFT amount must be >= 1") ;;
  config_singleton ← of_option (cell_get (config_t s)) "singleton does not exist";
  check (cfg_symbol config_singleton =? code (asset_symbol a))
    "Symbol must match symbol in config" ;;
  check (asset_is_valid a) "invalid amount".

Definition _nextnftid (s : state) : result (Z * state) :=
  config_singleton ← of_option (cell_get (config_t s))
    "dreamoji config table does not exist, instantiate first";
  let c := config_singleton in
  Ok (cfg_next_nft_id c,
      with_config s (cell_set (config_t s)
        (mk_tokenconfigs (cfg_standard c) (cfg_version c) (cfg_symbol c)
           (cfg_category_name_id c) (u64 (cfg_next_nft_id c + 1)) (cfg_next_licence_id c)))).

Definition _nextlicenceid (s : state) : result (Z * state) :=
  config_singleton ← of_option (cell_get (config_t s))
    "dreamoji config table does not exist, instantiate first";
  let c := config_singleton in
  Ok (cfg_next_licence_id c,
      with_config s (cell_set (config_t s)
        (mk_tokenconfigs (cfg_standard c) (cfg_version c) (cfg_symbol c)
           (cfg_category_name_id c) (cfg_next_nft_id c) (u64 (cfg_next_licence_id c + 1))))).

Definition _mint (e : env) (to category token_name : name) (issued : asset)
    (relative_uri : chars) (s : state) : result state :=
  '(nft_id, s) ← _nextnftid s;
  t ← emplace (dream_t s) (self e, nft_id)
        (mk_dreams nft_id (u64 (amount issued + 1)) to category token_name
           (Some relative_uri) []);
  Ok (emit (with_dream s t) (Logcall nft_id)).

Definition _add_balance (owner category token_name : name) (category_name_id : Z)
    (quantity : asset) (s : state) : result state :=
  match tbl_find (account_t s) (owner, category_name_id) with
  | None =>
    t ← emplace (account_t s) (owner, category_name_id)
          (mk_accounts category_name_id category token_name quantity);
    Ok (with_account s t)
  | Some acct =>
    a ← asset_plus (acc_amount acct) quantity;
    t ← modify (account_t s) (owner, category_name_id)
          (mk_accounts (acc_category_name_id acct) (acc_category acct) (acc_token_name acct) a);
    Ok (with_account s t)
  end.

Definition _sub_balance (owner : name) (category_name_id : Z) (quantity : asset) (s : state)
    : result state :=
  acct ← get (account_t s) (owner, category_name_id) "token does not exist in account";
  check (amount (acc_amount acct) >=? amount quantity) "quantity is more than account balance" ;;
  if amount (acc_amount acct) =? amount quantity then
    t ← erase (account_t s) (owner, category_name_id); Ok (with_account s t)
  else
    a ← asset_minus (acc_amount acct) quantity;
    t ← modify (account_t s) (owner, category_name_id)
          (mk_accounts (acc_category_name_id acct) (acc_category acct) (acc_token_name acct) a);
    Ok (with_account s t).

(** [_changeowner] moves the tokens and, recursively, the tokens linked under
    them.  [fuel] bounds the depth of the recursion; running out of it is the
    unbounded recursion of a cyclic link graph, which the node aborts. *)
Fixpoint _changeowner (fuel : nat) (e : env) (from to : name) (nft_ids : list Z)
    (istransfer : bool) (s : state) : result state :=
  match fuel with
  | O => Err "call depth exhausted"
  | S fuel =>
    check (Nat.leb (length nft_ids) 20) "max batch size of 20" ;;
    mfold (fun s nft_id =>
      token ← get (dream_t s) (self e, nft_id) "token does not exist";
      check (absent (lock_t s) (self e, nft_id)) "token locked, cannot transfer" ;;
      s ← (match dr_children token with
           | [] => Ok s
           | children => _changeowner fuel e from to children false s
           end);
      dream_stats ← get (stats_t s) (dr_category token, dr_token_name token)
                      "dreamoji stats not found";
      (if istransfer then
         check (dr_owner token =? from) "must be token owner" ;;
         check (transferable dream_stats) "not transferable"
       else Ok tt) ;;
      let s := require_recipient (require_recipient s from) to in
      t ← modify (dream_t s) (self e, nft_id) (set_owner token to);
      let s := with_dream s t in
      quantity ← asset_new 1 (asset_symbol (max_supply dream_stats));
      s ← _sub_balance from (st_category_name_id dream_stats) quantity s;
      _add_balance to (dr_category token) (dr_token_name token)
        (st_category_name_id dream_stats) quantity s) nft_ids s
  end.

Fixpoint _createlicence (fuel : nat) (e : env) (nft_id : Z) (owner : name) (to : list name)
    (period : Z) (relicense : bool) (s : state) : result state :=
  match fuel with
  | O => Err "call depth exhausted"
  | S fuel =>
    '(licence_id, s) ← _nextlicenceid s;
    t ← emplace (licence_t s) (self e, licence_id)
          (mk_licences licence_id nft_id owner to (time_plus (now e) period) relicense);
    let s := with_licence s t in
    s ← (if absent (lock_t s) (self e, nft_id) then
           t ← emplace (lock_t s) (self e, nft_id) nft_id; Ok (with_lock s t)
         else Ok s);
    let s := emit s (Loglicense licence_id) in
    token ← get (dream_t s) (self e, nft_id) "nftoken doesn't exist";
    mfold (fun s child_id => _createlicence fuel e child_id owner to period relicense s)
      (dr_children token) s
  end.

(** *** [_calcfees]: who is owed what for a sale *)

Definition fee_asset (ask_amount : asset) (split : double) (n : nat) : result asset :=
  let fee := ddiv (dmul (d_of_Z (amount ask_amount)) split) (d_of_Z (Z.of_nat n)) in
  z ← _eosio_f64_trunc_i64s fee;
  asset_new z (asset_symbol ask_amount).

(** [fee_map.insert({k, a})] followed by [fee_map[k] += a] when it was there. *)
Definition fee_map_add (m : gmap name asset) (k : name) (a : asset) : result (gmap name asset) :=
  match m !! k with
  | None => Ok (<[k := a]> m)
  | Some old => new ← asset_plus old a; Ok (<[k := new]> m)
  end.

Definition _calcfees (e : env) (s : state) (nft_ids : list Z) (ask_amount : asset)
    (seller : name) : result (gmap name asset) :=
  '(fee_map, tot_fees) ← mfold (fun '(fee_map, tot_fees) nft_id =>
      token ← get (dream_t s) (self e, nft_id) "token does not exist";
      dream_stats ← get (stats_t s) (dr_category token, dr_token_name token)
                      "asset stats not found";
      if deq (rev_split dream_stats) d_zero then Ok (fee_map, tot_fees)
      else
        fee ← fee_asset ask_amount (rev_split dream_stats) (length nft_ids);
        m ← fee_map_add fee_map (rev_partner dream_stats) fee;
        Ok (m, i64 (tot_fees + amount fee)))
    nft_ids (∅, 0);
  seller_amount ← asset_new (i64 (amount ask_amount - tot_fees)) (asset_symbol ask_amount);
  fee_map_add fee_map seller seller_amount.

(** Iteration over a [std::map]: ascending keys. *)
Definition name_le (x y : name * asset) : Prop := x.1 <= y.1.
#[global] Instance name_le_dec : RelDecision name_le.
Proof. intros x y. apply Z_le_dec. Defined.
Definition map_iter (m : gmap name asset) : list (name * asset) :=
  merge_sort name_le (map_to_list m).

(** ** Actions *)

Definition instantiate (e : env) (sym : Z) (version : chars) (s : state) : result state :=
  require_auth e (self e) ;;
  check (symbol_code_is_valid sym) "not valid symbol" ;;
  let '(c, cfg) :=
    match cell_get (config_t s) with
    | Some c => (c, config_t s)
    | None =>
      let c := mk_tokenconfigs (name_lit "dreamoji") version sym 0 0 0 in (c, cell_set (config_t s) c)
    end in
  Ok (with_config s (cell_set cfg
        (mk_tokenconfigs (cfg_standard c) version (cfg_symbol c) (cfg_category_name_id c)
           (cfg_next_nft_id c) (cfg_next_licence_id c)))).

Definition create (e : env) (iss partner category token_name : name)
    (fung burn sell transf : bool) (split : double) (uri : chars) (max_issue_days : Z)
    (max_sup : asset) (s : state) : result state :=
  let s := require_recipient s iss in
  check (is_account e iss) "issuer account does not exist" ;;
  require_auth e iss ;;
  window ←
    (if max_issue_days =? 0 then _checkasset s max_sup fung ;; Ok 0
     else
       let max_issue_seconds := u32 (max_issue_days * 24 * 3600) in
       check (amount max_sup >=? 0) "max supply must be 0 or greater" ;;
       (if negb fung then
          check (precision (asset_symbol max_sup) =? 0)
            "NFT must have max supply as int, precision of 0"
        else Ok tt) ;;
       Ok (time_plus (now e) max_issue_seconds));
  check (is_account e partner) "rev_partner account does not exist" ;;
  check (dle split d_one && dle d_zero split) "rev_split must be between 0 and 1" ;;
  c ← of_option (cell_get (config_t s)) "Symbol table does not exist, instantiate first";
  let category_name_id := cfg_category_name_id c in
  s ← (if absent (category_t s) (self e, category) then
         t ← emplace (category_t s) (self e, category) category; Ok (with_category s t)
       else Ok s);
  zero ← asset_new 0 (Symbol (cfg_symbol c) (precision (asset_symbol max_sup)));
  check (absent (stats_t s) (category, token_name)) "Token with category and token_name exists" ;;
  t ← emplace (stats_t s) (category, token_name)
        (mk_dreamstats fung burn sell transf iss partner token_name category_name_id
           max_sup window zero zero split uri);
  let s := with_stats s t in
  Ok (with_config s (cell_set (config_t s)
        (mk_tokenconfigs (cfg_standard c) (cfg_version c) (cfg_symbol c)
           (u64 (cfg_category_name_id c + 1)) (cfg_next_nft_id c) (cfg_next_licence_id c)))).

(** The minting loop of [issue]: [n] tokens, numbered on from [issued]. *)
Fixpoint issue_loop (n : nat) (e : env) (to category token_name : name)
    (issued one_token : asset) (relative_uri : chars) (s : state) : result state :=
  match n with
  | O => Ok s
  | S n =>
    s ← _mint e to category token_name issued relative_uri s;
    issued ← asset_plus issued one_token;
    issue_loop n e to category token_name issued one_token relative_uri s
  end.

Definition issue (e : env) (to category token_name : name) (quantity : asset)
    (relative_uri memo : chars) (s : state) : result state :=
  check (is_account e to) "to account does not exist" ;;
  check (Nat.leb (length memo) 256) "memo has more than 256 bytes" ;;
  st ← get (stats_t s) (category, token_name) "Token with category and token_name does not exist";
  require_auth e (issuer st) ;;
  _checkasset s quantity (fungible st) ;;
  check (bool_decide (asset_symbol quantity = asset_symbol (max_supply st)))
    "precision of quantity must be that of max supply" ;;
  (if max_issue_window st =? 0 then Ok tt
   else check (now e <=? max_issue_window st) "issue window has closed, cannot issue more") ;;
  (if amount (max_supply st) =? 0 then Ok tt
   else check (amount quantity <=? i64 (amount (max_supply st) - amount (issued_supply st)))
          "Cannot issue more than max supply") ;;
  s ← (if fungible st then Ok s
       else
         check (amount quantity <=? 100) "can issue up to 100 at a time" ;;
         one_token ← asset_new 1 (asset_symbol (max_supply st));
         issue_loop (Z.to_nat (amount quantity)) e to category token_name
           (issued_supply st) one_token relative_uri s);
  s ← _add_balance to category token_name (st_category_name_id st) quantity s;
  cur ← asset_plus (current_supply st) quantity;
  iss ← asset_plus (issued_supply st) quantity;
  t ← modify (stats_t s) (category, token_name) (set_issued (set_current st cur) iss);
  Ok (with_stats s t).

Definition freezemaxsup (e : env) (category token_name : name) (s : state) : result state :=
  require_auth e (self e) ;;
  st ← get (stats_t s) (category, token_name) "Token with category and token_name does not exist";
  check (negb (max_issue_window st =? 0)) "can't freeze max supply unless time based minting" ;;
  check (negb (amount (issued_supply st) =? 0)) "need to issue at least one token before freezing" ;;
  t ← modify (stats_t s) (category, token_name) (set_max st (issued_supply st) 0);
  Ok (with_stats s t).

(** One iteration of [burnnft].  After the last token of a kind is burned its
    statistics row is erased, and [dream_stats.category_name_id] is read from
    the freed row. *)
Definition burn_one (e : env) (owner : name) (s : state) (nft_id : Z) : result state :=
  token ← get (dream_t s) (self e, nft_id) "token does not exist";
  check (dr_owner token =? owner) "must be token owner" ;;
  let k := (dr_category token, dr_token_name token) in
  st ← get (stats_t s) k "dreamoji stats not found";
  check (burnable st) "Not burnable" ;;
  check (negb (fungible st)) "Cannot call burnnft on fungible token, call burnft instead" ;;
  check (absent (lock_t s) (self e, nft_id)) "token locked" ;;
  quantity ← asset_new 1 (asset_symbol (max_supply st));
  cur ← asset_minus (current_supply st) quantity;
  iss ← asset_minus (issued_supply st) quantity;
  t ← modify (stats_t s) k (set_issued (set_current st cur) iss);
  let s := with_stats s t in
  burned_out ← asset_new 0 (asset_symbol (max_supply st));
  '(s, cnid) ← (if bool_decide (cur = burned_out) then
                  t ← erase (stats_t s) k;
                  Ok (with_stats s t, freed e (st_category_name_id st))
                else Ok (s, st_category_name_id st));
  s ← _sub_balance owner cnid quantity s;
  t ← erase (dream_t s) (self e, nft_id);
  Ok (with_dream s t).

Definition burnnft (e : env) (owner : name) (nft_ids : list Z) (s : state) : result state :=
  require_auth e owner ;;
  check (Nat.leb (length nft_ids) 20) "max batch size of 20" ;;
  mfold (burn_one e owner) nft_ids s.

Definition burnft (e : env) (owner : name) (category_name_id : Z) (quantity : asset) (s : state)
    : result state :=
  require_auth e owner ;;
  acct ← get (account_t s) (owner, category_name_id) "token does not exist in account";
  st ← get (stats_t s) (acc_category acct, acc_token_name acct) "dreamoji stats not found";
  _checkasset s quantity true ;;
  check (bool_decide (asset_symbol quantity = asset_symbol (max_supply st)))
    "precision of quantity must be that of max supply" ;;
  s ← _sub_balance owner category_name_id quantity s;
  cur ← asset_minus (current_supply st) quantity;
  t ← modify (stats_t s) (acc_category acct, acc_token_name acct) (set_current st cur);
  Ok (with_stats s t).

Definition transfernft (fuel : nat) (e : env) (from to : name) (nft_ids : list Z) (s : state)
    : result state :=
  check (Nat.leb (length nft_ids) 20) "max batch size of 20" ;;
  require_auth e from ;;
  check (is_account e to) "to account does not exist" ;;
  check (negb (from =? to)) "cannot transfer to self" ;;
  mfold (fun _ nft_id =>
    get (dream_t s) (self e, nft_id) "token not found" ;;
    check (absent (link_t s) (self e, nft_id))
      "cannot directly transfer linked NFTs without the parent NFT") nft_ids tt ;;
  _changeowner fuel e from to nft_ids true s.

Definition transferft (e : env) (from to category token_name : name) (quantity : asset)
    (memo : chars) (s : state) : result state :=
  check (negb (from =? to)) "cannot transfer to self" ;;
  require_auth e from ;;
  check (is_account e to) "to account does not exist" ;;
  check (Nat.leb (length memo) 256) "memo has more than 256 bytes" ;;
  let s := require_recipient (require_recipient s from) to in
  st ← get (stats_t s) (category, token_name) "dreamoji stats not found";
  check (transferable st) "not transferable" ;;
  check (fungible st) "Must be fungible token" ;;
  _checkasset s quantity true ;;
  check (bool_decide (asset_symbol quantity = asset_symbol (max_supply st)))
    "precision of quantity must be that of max supply" ;;
  s ← _sub_balance from (st_category_name_id st) quantity s;
  _add_balance to category token_name (st_category_name_id st) quantity s.

(** *** Listings *)

(** [symbol(symbol_code("DRMI"), 4)] *)
Definition DRMI : symbol := Symbol (symbol_code (String.list_ascii_of_string "DRMI")) 4.

(** [amount > .02 * pow(10, precision)], in double arithmetic *)
Definition above_minimum (a : asset) : bool :=
  dlt (dmul d_002 (d_pow10 (precision (asset_symbol a)))) (d_of_Z (amount a)).

(** [nft_ids[0]] *)
Definition front (e : env) (nft_ids : list Z) : Z := hd (oob e) nft_ids.

Definition nftokensale (e : env) (seller : name) (nft_ids : list Z) (net_sale_amount : asset)
    (sale_period_sec : Z) (s : state) : result state :=
  require_auth e seller ;;
  check (Nat.leb (length nft_ids) 20) "max batch size of 20" ;;
  check (above_minimum net_sale_amount) "minimum price of at least 0.02 DRMI" ;;
  check (bool_decide (asset_symbol net_sale_amount = DRMI))
    "only DRMI with precision of 4 is accepted for sale" ;;
  check (absent (ask_t s) (self e, front e nft_ids))
    "ongoing sale of batch must be ended before selling again" ;;
  s ← mfold (fun s nft_id =>
      token ← get (dream_t s) (self e, nft_id) "token does not exist";
      check (absent (link_t s) (self e, nft_id))
        "cannot directly sell linked NFTs without the parent NFT" ;;
      st ← get (stats_t s) (dr_category token, dr_token_name token) "dreamoji stats not found";
      check (sellable st) "not sellable" ;;
      check (seller =? dr_owner token) "not token owner" ;;
      check (absent (lock_t s) (self e, nft_id)) "token locked" ;;
      t ← emplace (lock_t s) (self e, nft_id) nft_id;
      Ok (with_lock s t)) nft_ids s;
  t ← emplace (ask_t s) (self e, front e nft_ids)
        (mk_asks (front e nft_ids) nft_ids seller net_sale_amount
           (time_plus (now e) sale_period_sec));
  Ok (with_ask s t).

Definition licencesale (e : env) (seller : name) (price : asset) (nft_ids : list Z)
    (lcnc_limit sale_period_sec lcnc_period_sec : Z) (s : state) : result state :=
  require_auth e seller ;;
  let s := require_recipient s seller in
  check (Nat.leb (length nft_ids) 20) "max batch size of 20" ;;
  check (above_minimum price) "minimum price of at least 0.02 DRMI" ;;
  check (bool_decide (asset_symbol price = DRMI))
    "only DRMI with precision of 4 is accepted for sale" ;;
  mfold (fun s nft_id =>
      token ← get (dream_t s) (self e, nft_id) "token does not exist";
      check (absent (link_t s) (self e, nft_id))
        "cannot directly license linked NFTs without the parent NFT" ;;
      check (seller =? dr_owner token) "token needs to be owned before it can be licensed out" ;;
      check (absent (sale_t s) (self e, nft_id))
        "ongoing sale of NFT must be ended before selling again" ;;
      s ← (if absent (lock_t s) (self e, nft_id) then
             t ← emplace (lock_t s) (self e, nft_id) nft_id; Ok (with_lock s t)
           else Ok s);
      t ← emplace (sale_t s) (self e, nft_id)
            (mk_sales nft_id seller price lcnc_limit (time_plus (now e) sale_period_sec)
               lcnc_period_sec);
      Ok (with_sale s t)) nft_ids s.

Definition endnftsale (e : env) (seller : name) (batch_id : Z) (s : state) : result state :=
  ask ← get (ask_t s) (self e, batch_id) "cannot find sale to close";
  (if now e <=? ask_expiration ask then
     require_auth e seller ;;
     check (ask_seller ask =? seller) "only the seller can cancel a sale in progress"
   else Ok tt) ;;
  s ← mfold (fun s nft_id =>
        get (lock_t s) (self e, nft_id) "nft not found in lock table" ;;
        t ← erase (lock_t s) (self e, nft_id);
        Ok (with_lock s t)) (ask_nft_ids ask) s;
  t ← erase (ask_t s) (self e, batch_id);
  Ok (with_ask s t).

Definition endlcncsale (e : env) (seller : name) (nft_id : Z) (s : state) : result state :=
  sale ← get (sale_t s) (self e, nft_id) "cannot find sale to close";
  (if now e <=? sl_end_of_sale sale then
     require_auth e seller ;;
     check (sl_seller sale =? seller) "only the seller can cancel a sale in progress"
   else Ok tt) ;;
  get (lock_t s) (self e, nft_id) "nft not found in lock table" ;;
  t ← erase (lock_t s) (self e, nft_id);
  let s := with_lock s t in
  t ← erase (sale_t s) (self e, nft_id);
  Ok (with_sale s t).

(** *** Licences *)

Definition license (fuel : nat) (e : env) (owner : name) (to : list name) (nft_ids : list Z)
    (period : Z) (relicense : bool) (s : state) : result state :=
  require_auth e owner ;;
  let s := require_recipient s owner in
  check (Nat.leb (length nft_ids) 20) "max batch size of 20" ;;
  check (Nat.leb (length to) 20) "max licensee size of 20" ;;
  check (Nat.ltb 0 (length nft_ids)) "min batch size of 1" ;;
  check (Nat.ltb 0 (length to)) "min licensed_to size of 1" ;;
  mfold (fun _ t =>
    check (is_account e t) "To account does not exist" ;;
    check (negb (owner =? t)) "Cannot license to yourself") to tt ;;
  mfold (fun s nft_id =>
    check (negb (absent (dream_t s) (self e, nft_id)))
      "Asset couldn't be found at the specified scope" ;;
    _createlicence fuel e nft_id owner to period relicense s) nft_ids s.

(** The licences of [extend] and [revoke] are looked up in the scope of
    [owner]. *)
Definition extend (e : env) (owner : name) (lcnc_id period : Z) (s : state) : result state :=
  require_auth e owner ;;
  let s := require_recipient s owner in
  lc ← get (licence_t s) (owner, lcnc_id) "Asset is not licensed";
  check (owner =? lc_owner lc) "You are not the owner of asset" ;;
  check (lc_relicense lc) "Licence agreement was on the basis of non-extension" ;;
  check (now e >? lc_expiration lc) "Cannot extend this licence before it's expiration date." ;;
  t ← modify (licence_t s) (owner, lcnc_id)
        (mk_licences (lc_licence_id lc) (lc_nft_id lc) (lc_owner lc) (lc_licensed_to lc)
           (time_plus (now e) period) (lc_relicense lc));
  Ok (with_licence s t).

Definition remove_all (l : list Z) (x : Z) : list Z := filter (fun y => y <> x) l.

Definition revoke (e : env) (owner : name) (from : list name) (lcnc_ids : list Z) (s : state)
    : result state :=
  require_auth e owner ;;
  let s := require_recipient s owner in
  check (Nat.ltb 0 (length lcnc_ids)) "min batch size of 1" ;;
  check (Nat.ltb (length lcnc_ids) 20) "max batch size of 20" ;;
  mfold (fun s lcnc_id =>
    lc ← get (licence_t s) (owner, lcnc_id) "Asset is not licensed";
    check (owner =? lc_owner lc) "You are not the owner of the licensed nft" ;;
    check (now e >? lc_expiration lc) "Cannot revoke this licence before it's expiration date." ;;
    check (Nat.leb (length from) (length (lc_licensed_to lc)))
      "Please recheck the submitted licensed_to value(s)" ;;
    let licencee_vector := foldl remove_all (lc_licensed_to lc) from in
    match licencee_vector with
    | [] =>
      t ← erase (licence_t s) (owner, lcnc_id);
      let s := with_licence s t in
      let nft_id := freed e (lc_nft_id lc) in
      get (lock_t s) (self e, nft_id) "NFT not found in lock table" ;;
      if absent (licence_t s) (owner, nft_id) then
        t ← erase (lock_t s) (self e, nft_id); Ok (with_lock s t)
      else Ok s
    | _ =>
      t ← modify (licence_t s) (owner, lcnc_id)
            (mk_licences (lc_licence_id lc) (lc_nft_id lc) (lc_owner lc) licencee_vector
               (lc_expiration lc) (lc_relicense lc));
      Ok (with_licence s t)
    end) lcnc_ids s.

(** *** Linking *)

Definition linknfts (e : env) (nft_ids : list Z) (link_to : Z) (owner : name) (s : state)
    : result state :=
  require_auth e owner ;;
  let s := require_recipient s owner in
  parent ← get (dream_t s) (self e, link_to) "Parent NFT doesn't exist";
  s ← mfold (fun s nft_id =>
        child ← get (dream_t s) (self e, nft_id) "Child NFT doesn't exist";
        check (dr_owner parent =? dr_owner child)
          "The parent and child NFT must belong to the same owner" ;;
        check (absent (link_t s) (self e, nft_id))
          "Child NFT is already equipped to another parent NFT" ;;
        t ← emplace (link_t s) (self e, nft_id) nft_id;
        Ok (with_link s t)) nft_ids s;
  t ← modify (dream_t s) (self e, link_to) (set_children parent (dr_children parent ++ nft_ids));
  Ok (with_dream s t).

Definition unlinknfts (e : env) (nft_ids : list Z) (linked_to : Z) (owner : name) (s : state)
    : result state :=
  require_auth e owner ;;
  let s := require_recipient s owner in
  parent ← get (dream_t s) (self e, linked_to) "Parent NFT doesn't exist";
  '(s, children) ← mfold (fun '(s, children) nft_id =>
        check (negb (absent (dream_t s) (self e, nft_id))) "Child NFT doesn't exist" ;;
        get (link_t s) (self e, nft_id) "NFT hasn't been linked" ;;
        t ← erase (link_t s) (self e, nft_id);
        Ok (with_link s t, remove_all children nft_id)) nft_ids (s, dr_children parent);
  t ← modify (dream_t s) (self e, linked_to) (set_children parent children);
  Ok (with_dream s t).

(** *** Logging actions: only the contract itself may send them *)
Definition logcall (e : env) (nft_id : Z) (s : state) : result state :=
  require_auth e (self e) ;; Ok s.
Definition logsale (e : env) (nft_ids : list Z) (seller buyer receiver : name) (s : state)
    : result state := require_auth e (self e) ;; Ok s.
Definition loglicense (e : env) (lcnc_id : Z) (s : state) : result state :=
  require_auth e (self e) ;; Ok s.
End Contract.
