(* ===== verification/Market.v ===== *)
(** * The NFT contract: purchases and dispatch ([service.hpp], [dreamoji.cpp])

    The memo of an incoming transfer names what is bought; [purchase] settles
    the sale, and [apply] is the entry point the node calls. *)

From stdpp Require Import base numbers list gmap strings sorting.
From Stdlib Require Import ZArith Lia Ascii.
From Stdlib Require String.
From S2P Require Import Prelude Boost Cdt Dreamoji.
Local Open Scope Z_scope.

(** ** Memo parsing *)

Definition isspace (c : ascii) : bool :=
  (chr c =? 32) || ((9 <=? chr c) && (chr c <=? 13)).

Fixpoint left (sub : chars) : chars :=
  match sub with
  | [] => []
  | c :: sub' => if isspace c then left sub' else sub
  end.

Definition right (sub : chars) : chars := rev (left (rev sub)).

Definition crop (sub : chars) : chars := right (left sub).

(** [str.find(c, pos)]; [None] is [npos]. *)
Fixpoint find_from (c : ascii) (str : chars) (pos : nat) (i : nat) : option nat :=
  match str with
  | [] => None
  | x :: str' =>
    if Nat.leb pos i && bool_decide (x = c) then Some i else find_from c str' pos (S i)
  end.
Definition find_char (c : ascii) (str : chars) (pos : nat) : option nat := find_from c str pos 0.

Definition substr (str : chars) (pos len : nat) : chars := take len (drop pos str).

(** [stoull]: an optional sign, then the longest run of digits; aborts when
    there is none or the value does not fit. *)
Fixpoint digits_prefix (s : chars) : chars :=
  match s with
  | [] => []
  | c :: s => if is_digit c then c :: digits_prefix s else []
  end.

Definition stoull (s : chars) : result Z :=
  let s := left s in
  let '(neg, s) :=
    match s with
    | c :: s' => if bool_decide (c = "-"%char) then (true, s')
                 else if bool_decide (c = "+"%char) then (false, s') else (false, s)
    | [] => (false, s)
    end in
  let d := digits_prefix s in
  check (negb (bool_decide (d = []))) "stoull: no conversion" ;;
  check (decimal_value d <=? UINT64_MAX) "stoull: out of range" ;;
  Ok (if neg then u64 (- decimal_value d) else decimal_value d).

Section Market.
Context {cdt : Cdt}.

Definition memo_err : string := "the correct format of memo is sale_type,to_account,asset_id".

Definition stringtupler (memo : chars) : result (chars * name * Z) :=
  let pstn_com1 := find_char "," memo 0 in
  let pstn_com2 := find_char "," memo (match pstn_com1 with Some i => S i | None => 0 end) in
  com1 ← of_option pstn_com1 memo_err;
  com2 ← of_option pstn_com2 memo_err;
  check (negb (Nat.eqb com2 (length memo - 1))) memo_err ;;
  check (Nat.eqb (com2 - com1) 13) memo_err ;;
  let sale_type := crop (substr memo 0 com1) in
  to_account ← name_of (crop (substr memo (com1 + 1) 12));
  asset_id ← stoull (crop (drop (com2 + 1) memo));
  Ok (sale_type, to_account, asset_id).

(** ** [purchase] *)

Definition str_in (s : chars) (l : list string) : bool :=
  bool_decide (String.string_of_list_ascii s ∈ l).

(** Pay every party of the fee map but the contract itself. *)
Definition pay_fees (e : env) (fees : list (name * asset)) (s : state) : state :=
  foldl (fun s '(account, amount) =>
    if account =? self e then s
    else emit s (TokenTransfer (self e) account amount "sale of dreamoji")) s fees.

Definition purchase_nft (fuel : nat) (e : env) (from to_account : name) (quantity : asset)
    (asset_id : Z) (s : state) : result state :=
  ask ← get (ask_t s) (self e, asset_id) "cannot find nft sale listing";
  check (amount (ask_amount ask) =? amount quantity) "send the correct amount" ;;
  check (ask_expiration ask >? now e) "sale has expired" ;;
  fee_map ← _calcfees e s (ask_nft_ids ask) (ask_amount ask) (ask_seller ask);
  let s := pay_fees e (map_iter fee_map) s in
  s ← mfold (fun s nft_id =>
        get (lock_t s) (self e, nft_id) "dreamoji not found in lock table" ;;
        t ← erase (lock_t s) (self e, nft_id);
        Ok (with_lock s t)) (ask_nft_ids ask) s;
  s ← _changeowner fuel e (ask_seller ask) to_account (ask_nft_ids ask) false s;
  let s := emit s (Logsale (ask_nft_ids ask) (ask_seller ask) from to_account) in
  t ← erase (ask_t s) (self e, asset_id);
  Ok (with_ask s t).

Definition purchase_licence (fuel : nat) (e : env) (from to_account : name) (quantity : asset)
    (asset_id : Z) (s : state) : result state :=
  sale ← get (sale_t s) (self e, asset_id) "The asset's licence hasn't been put for sale yet";
  check (amount (sl_price sale) =? amount quantity) "send the exact amount of DRMI" ;;
  check (sl_end_of_sale sale >? now e) "licence sale has expired" ;;
  check (negb (sl_lcnc_limit sale =? 0)) "all licences of this nft has been sold out" ;;
  let s := if sl_seller sale =? self e then s
           else emit s (TokenTransfer (self e) (sl_seller sale) (sl_price sale)
                          "sending DRMI to the licence seller") in
  t ← modify (sale_t s) (self e, asset_id)
        (mk_sales (sl_nft_id sale) (sl_seller sale) (sl_price sale)
           (u16 (sl_lcnc_limit sale - 1)) (sl_end_of_sale sale) (sl_lcnc_period_sec sale));
  let s := with_sale s t in
  let s := emit s (Logsale [sl_nft_id sale] (sl_seller sale) from to_account) in
  _createlicence fuel e (sl_nft_id sale) (sl_seller sale) [to_account]
    (sl_lcnc_period_sec sale) false s.

Definition purchase (fuel : nat) (e : env) (from to : name) (quantity : asset) (memo : chars)
    (s : state) : result state :=
  if str_in memo ["deposit"] then Ok s
  else if negb (to =? self e) then Ok s
  else if from =? name_lit "eosio.stake" then Ok s
  else
    check (bool_decide (asset_symbol quantity = DRMI)) "Purchase only using DRMI" ;;
    check (Nat.leb (length memo) 32) "memo too long" ;;
    '(sale_type, to_account, asset_id) ← stringtupler memo;
    if str_in sale_type ["nftoken"; "nft"; "n"] then
      purchase_nft fuel e from to_account quantity asset_id s
    else if str_in sale_type ["licence"; "license"; "lcnc"; "l"] then
      purchase_licence fuel e from to_account quantity asset_id s
    else Err "parameter to differentiate between purchase of nftoken/licence is required".

(** ** [apply] *)

Inductive action :=
| Instantiate (sym : Z) (version : chars)
| Create (issuer rev_partner category token_name : name)
    (fungible burnable sellable transferable : bool) (rev_split : double) (base_uri : chars)
    (max_issue_days : Z) (max_supply : asset)
| Issue (to category token_name : name) (quantity : asset) (relative_uri memo : chars)
| Freezemaxsup (category token_name : name)
| Burnnft (owner : name) (nft_ids : list Z)
| Burnft (owner : name) (category_name_id : Z) (quantity : asset)
| Transfernft (from to : name) (nft_ids : list Z)
| Transferft (from to category token_name : name) (quantity : asset) (memo : chars)
| Nftokensale (seller : name) (nft_ids : list Z) (net_sale_amount : asset) (sale_period_sec : Z)
| Licencesale (seller : name) (price : asset) (nft_ids : list Z)
    (lcnc_limit sale_period_sec lcnc_period_sec : Z)
| License (owner : name) (to : list name) (nft_ids : list Z) (period : Z) (relicense : bool)
| Extend (owner : name) (lcnc_id period : Z)
| Revoke (owner : name) (from : list name) (lcnc_ids : list Z)
| Endnftsale (seller : name) (batch_id : Z)
| Endlcncsale (seller : name) (nft_id : Z)
| Linknfts (nft_ids : list Z) (link_to : Z) (owner : name)
| Unlinknfts (nft_ids : list Z) (linked_to : Z) (owner : name)
| LogcallA (nft_id : Z)
| LogsaleA (nft_ids : list Z) (seller buyer receiver : name)
| LoglicenseA (lcnc_id : Z)
(** a [transfer] action of the account [code] of which the contract is notified *)
| TransferOf (code : name) (from to : name) (quantity : asset) (memo : chars).

Definition apply (fuel : nat) (e : env) (a : action) (s : state) : result state :=
  match a with
  | Instantiate sym v => instantiate e sym v s
  | Create i r c t f b se tr sp uri d m => create e i r c t f b se tr sp uri d m s
  | Issue to c t q uri m => issue e to c t q uri m s
  | Freezemaxsup c t => freezemaxsup e c t s
  | Burnnft o ids => burnnft e o ids s
  | Burnft o id q => burnft e o id q s
  | Transfernft f t ids => transfernft fuel e f t ids s
  | Transferft f t c tn q m => transferft e f t c tn q m s
  | Nftokensale se ids a p => nftokensale e se ids a p s
  | Licencesale se p ids l sp lp => licencesale e se p ids l sp lp s
  | License o to ids p r => license fuel e o to ids p r s
  | Extend o id p => extend e o id p s
  | Revoke o f ids => revoke e o f ids s
  | Endnftsale se b => endnftsale e se b s
  | Endlcncsale se id => endlcncsale e se id s
  | Linknfts ids l o => linknfts e ids l o s
  | Unlinknfts ids l o => unlinknfts e ids l o s
  | LogcallA id => logcall e id s
  | LogsaleA ids se b r => logsale e ids se b r s
  | LoglicenseA id => loglicense e id s
  | TransferOf code f t q m =>
    if code =? self e then Ok s
    else if code =? name_lit "eosio.token" then purchase fuel e f t q m s else Ok s
  end.

(** The contract at [self_] runs actions that succeed, at some time and on
    behalf of some accounts, whatever freed memory holds. *)
Inductive step (self_ : name) : state -> state -> Prop :=
| step_apply fuel e a s s' : self e = self_ -> apply fuel e a s = Ok s' -> step self_ s s'.

(** [burnnft] and [revoke] read a row object that [erase] has freed, which is
    undefined behaviour.  Steps whose behaviour is defined: the freed row is
    still what it was, as with an allocator that leaves freed memory alone, or
    the result does not depend on what is read from it. *)
Definition freed_intact (e : env) : Prop := forall v, freed e v = v.
Definition with_freed (f : Z -> Z) (e : env) : env := mk_env (self e) (auths e) (is_account e) (now e) (oob e) f.
Definition defined_behaviour (fuel : nat) (e : env) (a : action) (s : state) : Prop :=
  freed_intact e \/ forall f, apply fuel (with_freed f e) a s = apply fuel e a s.
Inductive defined_step (self_ : name) : state -> state -> Prop :=
| defined_apply fuel e a s s' :
    self e = self_ -> defined_behaviour fuel e a s -> apply fuel e a s = Ok s' -> defined_step self_ s s'.

(** States reached from the deployed contract by [n] actions. *)
Inductive reachable (R : state -> state -> Prop) : nat -> state -> Prop :=
| reach_init : reachable R 0 empty_state
| reach_step n s s' : reachable R n s -> R s s' -> reachable R (S n) s'.

Lemma defined_reachable self_ n s : reachable (defined_step self_) n s -> reachable (step self_) n s.
Proof.
  induction 1 as [|n s s' _ IH Hs]; [constructor|]. eapply reach_step; [exact IH|].
  destruct Hs as [fuel e a s s' He _ Ha]. by eapply step_apply.
Qed.

(** A defined step is one with intact memory. *)
Lemma defined_intact self_ s s' : defined_step self_ s s' ->
  exists fuel e a, self e = self_ /\ freed_intact e /\ apply fuel e a s = Ok s'.
Proof.
  intros [fuel e a s1 s2 He [Hf|Hu] Ha]; [by exists fuel, e, a|]. exists fuel, (with_freed id e), a. split_and!; [done|done|].
  by rewrite Hu.
Qed.

(** Running a script of actions; call depth 32 is more than any script needs. *)
Fixpoint run (script : list (env * action)) (s : state) : result state :=
  match script with
  | [] => Ok s
  | (e, a) :: script => s ← apply 32 e a s; run script s
  end.

Lemma run_reachable self_ script n s s' :
  Forall (fun p => self p.1 = self_ /\ freed_intact p.1) script ->
  reachable (defined_step self_) n s -> run script s = Ok s' -> reachable (defined_step self_) (length script + n) s'.
Proof.
  intros Hs. revert n s. induction Hs as [|[e a] script [He Hf] Hs IH]; intros n s Hr H; simpl in H.
  - ok_inv. by subst.
  - ok_bind H as s1 H1. simpl. rewrite plus_n_Sm. eapply IH; [|exact H].
    eapply reach_step; [exact Hr|]. eapply defined_apply; [exact He|by left|exact H1].
Qed.
End Market.
