(* ===== verification/DreamojiSale.v ===== *)
(** * The NFT contract: ownership and settlement

    What [_changeowner] may change, who has to authorise a transfer, and
    where the money of a purchase goes. *)

From stdpp Require Import base numbers list gmap strings sorting.
From Stdlib Require Import ZArith Lia.
From S2P Require Import Prelude Boost Cdt Dreamoji Market.
Local Open Scope Z_scope.

(** ** Fees *)

Definition total (m : gmap name asset) : Z := map_sum (fun _ a => amount a) m.

Definition list_total (l : list (name * asset)) : Z := foldr (fun p acc => amount p.2 + acc) 0 l.

Lemma list_total_perm l1 l2 : l1 ≡ₚ l2 -> list_total l1 = list_total l2.
Proof. induction 1; simpl; lia. Qed.

Lemma list_total_map m : list_total (map_to_list m) = total m.
Proof.
  induction m as [|k a m Hk IH] using map_ind; [done|].
  rewrite (list_total_perm _ _ (map_to_list_insert m k a Hk)). simpl.
  unfold total. rewrite map_sum_insert_new by done. unfold total in IH. lia.
Qed.

Section Fees.
Context {cdt : Cdt}.

Lemma map_iter_total m : list_total (map_iter m) = total m.
Proof.
  rewrite <- list_total_map. apply list_total_perm. apply merge_sort_Permutation.
Qed.

Lemma fee_map_add_total m k a m' : fee_map_add m k a = Ok m' -> total m' = total m + amount a.
Proof.
  unfold fee_map_add, total. destruct (m !! k) as [old|] eqn:Hk; intros H.
  - ok_bind H as b Hb. apply asset_plus_ok in Hb as (_ & _ & ->). ok_inv. subst m'.
    rewrite (map_sum_insert _ m k _ old Hk). simpl. lia.
  - ok_inv. subst m'. rewrite map_sum_insert_new by done. lia.
Qed.

Lemma calcfees_total e s ids a seller m :
  is_i64 (amount a) -> _calcfees e s ids a seller = Ok m -> i64 (total m) = amount a.
Proof.
  unfold _calcfees. intros Ha H. ok_bind H as [fm tot] Hloop.
  apply (mfold_inv (fun p => i64 (total p.1) = p.2)) in Hloop; [| |done].
  2: { intros [m1 t1] id [m2 t2] _ H1 H2. simpl in H1. ok_bind H2 as tok _. ok_bind H2 as st _.
       destruct (deq _ _); [ok_inv; by injection H2 as <- <-|].
       ok_bind H2 as fee _. ok_bind H2 as m3 Hm3. ok_inv. injection H2 as <- <-. simpl.
       rewrite (fee_map_add_total _ _ _ _ Hm3), <- i64_add_l, H1. done. }
  simpl in Hloop. ok_bind H as sa Hsa. apply asset_new_ok in Hsa as (-> & _ & _).
  rewrite (fee_map_add_total _ _ _ _ H). simpl. rewrite i64_add_r.
  replace (total fm + (amount a - tot)) with (amount a - tot + total fm) by lia.
  rewrite <- i64_add_r, Hloop. replace (amount a - tot + tot) with (amount a) by lia.
  by apply i64_small.
Qed.
End Fees.

(** ** Ownership *)

Section Owner.
Context {cdt : Cdt}.

(** The tables a change of owner leaves alone. *)
Record owner_frame (s s' : state) : Prop := {
  fr_config : config_t s' = config_t s;
  fr_stats : stats_t s' = stats_t s;
  fr_category : category_t s' = category_t s;
  fr_ask : ask_t s' = ask_t s;
  fr_sale : sale_t s' = sale_t s;
  fr_licence : licence_t s' = licence_t s;
  fr_lock : lock_t s' = lock_t s;
  fr_link : link_t s' = link_t s;
}.

#[local] Instance owner_frame_preorder : PreOrder owner_frame.
Proof.
  split; [done|]. intros x y z [] []. split; congruence.
Qed.

(** [to] becomes the owner of some tokens; nothing else about a token
    changes and no token appears or disappears. *)
Definition handed (to : name) (m m' : gmap key dreams) : Prop :=
  forall k, match m !! k with
            | Some d => m' !! k = Some d \/ m' !! k = Some (set_owner d to)
            | None => m' !! k = None
            end.

Lemma set_owner_twice d a b : set_owner (set_owner d a) b = set_owner d b.
Proof. done. Qed.

#[export] Instance handed_preorder to : PreOrder (handed to).
Proof.
  split.
  - intros m k. destruct (m !! k); auto.
  - intros m1 m2 m3 H1 H2 k. specialize (H1 k). specialize (H2 k).
    destruct (m1 !! k) as [d|]; [|by rewrite H1 in H2].
    destruct H1 as [H1|H1]; rewrite H1 in H2; destruct H2 as [-> | ->]; auto.
Qed.

Lemma sub_balance_frame o id q s s' : _sub_balance o id q s = Ok s' ->
  owner_frame s s' /\ dream_t s' = dream_t s /\ out s' = out s.
Proof.
  unfold _sub_balance. intros H. ok_bind H as a _. ok_bind H as ? _.
  destruct (_ =? _); ok_inv; by subst.
Qed.

Lemma add_balance_frame o c t id q s s' : _add_balance o c t id q s = Ok s' ->
  owner_frame s s' /\ dream_t s' = dream_t s /\ out s' = out s.
Proof. unfold _add_balance. intros H. destruct (tbl_find _ _); ok_inv; by subst. Qed.

(** The token transfers among the effects. *)
Definition transfers (l : list effect) : list (name * asset) :=
  omap (fun ev => match ev with TokenTransfer _ to q _ => Some (to, q) | _ => None end) l.

Lemma transfers_app l1 l2 : transfers (l1 ++ l2) = transfers l1 ++ transfers l2.
Proof. apply omap_app. Qed.

(** One iteration of the loop, given what the recursive call does. *)
Definition changeowner_body (fuel : nat) (e : env) (from to : name) (b : bool) (s : state)
    (nft_id : Z) : result state :=
  token ← get (dream_t s) (self e, nft_id) "token does not exist";
  check (absent (lock_t s) (self e, nft_id)) "token locked, cannot transfer" ;;
  s ← (match dr_children token with
       | [] => Ok s
       | children => _changeowner fuel e from to children false s
       end);
  dream_stats ← get (stats_t s) (dr_category token, dr_token_name token)
                  "dreamoji stats not found";
  (if b then
     check (dr_owner token =? from) "must be token owner" ;;
     check (transferable dream_stats) "not transferable"
   else Ok tt) ;;
  let s := require_recipient (require_recipient s from) to in
  t ← modify (dream_t s) (self e, nft_id) (set_owner token to);
  let s := with_dream s t in
  quantity ← asset_new 1 (asset_symbol (max_supply dream_stats));
  s ← _sub_balance from (st_category_name_id dream_stats) quantity s;
  _add_balance to (dr_category token) (dr_token_name token)
    (st_category_name_id dream_stats) quantity s.

Lemma changeowner_S fuel e from to ids b s :
  _changeowner (S fuel) e from to ids b s =
  (check (Nat.leb (length ids) 20) "max batch size of 20" ;;
   mfold (changeowner_body fuel e from to b) ids s).
Proof. done. Qed.

(** What a change of owner of [ids] guarantees. *)
Definition changes_owner (e : env) (to : name) (ids : list Z) (s s' : state) : Prop :=
  owner_frame s s' /\ handed to (rows (dream_t s)) (rows (dream_t s')) /\
  transfers (out s') = transfers (out s) /\
  (forall id, id ∈ ids -> exists d, rows (dream_t s') !! (self e, id) = Some d /\ dr_owner d = to).

Lemma changeowner_iter fuel e from to b s id s' :
  (forall ids s s', _changeowner fuel e from to ids false s = Ok s' -> changes_owner e to ids s s') ->
  changeowner_body fuel e from to b s id = Ok s' -> changes_owner e to [id] s s'.
Proof.
  unfold changeowner_body. intros IH H. ok_bind H as tok Htok. apply get_ok in Htok.
  ok_bind H as ? _. ok_bind H as s1 Hs1.
  assert (Hrec : owner_frame s s1 /\ handed to (rows (dream_t s)) (rows (dream_t s1)) /\
                 transfers (out s1) = transfers (out s)).
  { destruct (dr_children tok); [ok_inv; by subst | apply IH in Hs1; unfold changes_owner in Hs1; tauto]. }
  destruct Hrec as (HF & HH & HT).
  ok_bind H as st _. ok_bind H as ? _. ok_bind H as t Ht. apply modify_inv in Ht as [_ Ht].
  ok_bind H as q _. ok_bind H as s2 Hsub.
  apply sub_balance_frame in Hsub as (HF2 & HD2 & HO2).
  apply add_balance_frame in H as (HF3 & HD3 & HO3).
  assert (Hrows : rows (dream_t s') = <[(self e, id) := set_owner tok to]> (rows (dream_t s1))).
  { rewrite HD3, HD2. exact Ht. }
  split_and!.
  - etrans; [exact HF|]. etrans; [|exact HF3]. etrans; [|exact HF2]. done.
  - rewrite Hrows. intros k. specialize (HH k).
    destruct (decide (k = (self e, id))) as [->|Hne].
    + rewrite Htok, lookup_insert_eq. auto.
    + rewrite lookup_insert_ne by done. exact HH.
  - rewrite HO3, HO2. simpl. rewrite !transfers_app, HT. simpl. by rewrite !app_nil_r.
  - intros id0 ->%list_elem_of_singleton. rewrite Hrows, lookup_insert_eq. eauto.
Qed.

Lemma changeowner_spec fuel e from to ids b s s' :
  _changeowner fuel e from to ids b s = Ok s' -> changes_owner e to ids s s'.
Proof.
  revert from to ids b s s'. induction fuel as [|fuel IH]; intros from to ids b s s' H;
    [discriminate|].
  rewrite changeowner_S in H. ok_bind H as ? _.
  apply (mfold_each
    (fun x => owner_frame s x /\ handed to (rows (dream_t s)) (rows (dream_t x)) /\
              transfers (out x) = transfers (out s))
    (fun id x => exists d, rows (dream_t x) !! (self e, id) = Some d /\ dr_owner d = to)) in H.
  - unfold changes_owner. tauto.
  - clear H s'. intros s1 id s2 _ (HF & HH & HT) H.
    apply changeowner_iter in H as (HF' & HH' & HT' & HO); [|eauto].
    split; [|apply HO; by left]. split_and!; [by etrans | by etrans | congruence].
  - clear H s'. intros s1 a b0 s2 _ H (d & Hd & Ho).
    apply changeowner_iter in H as (_ & HH' & _ & _); [|eauto].
    specialize (HH' (self e, a)). rewrite Hd in HH'. destruct HH' as [-> | ->]; eauto.
  - by split_and!.
Qed.

(** [id] is linked under some token. *)
Definition is_child (m : gmap key dreams) (id : Z) : Prop :=
  exists k d, m !! k = Some d /\ id ∈ dr_children d.

Lemma handed_child to m m' id : handed to m m' -> is_child m' id -> is_child m id.
Proof.
  intros HH (k & d' & Hk & Hc). specialize (HH k). destruct (m !! k) as [d|] eqn:E; [|congruence].
  destruct HH as [HH|HH]; rewrite HH in Hk; injection Hk as <-; by exists k, d.
Qed.

(** Only the listed tokens, and tokens linked under another one, are touched. *)
Lemma changeowner_untouched fuel e from to ids b s s' id :
  _changeowner fuel e from to ids b s = Ok s' -> id ∉ ids -> ~ is_child (rows (dream_t s)) id ->
  rows (dream_t s') !! (self e, id) = rows (dream_t s) !! (self e, id).
Proof.
  revert ids b s s'. induction fuel as [|fuel IH]; intros ids b s s' H Hid Hc; [discriminate|].
  rewrite changeowner_S in H. ok_bind H as ? _.
  enough (handed to (rows (dream_t s)) (rows (dream_t s')) /\
    rows (dream_t s') !! (self e, id) = rows (dream_t s) !! (self e, id)) by tauto.
  revert H. apply (mfold_inv (fun x => handed to (rows (dream_t s)) (rows (dream_t x)) /\
    rows (dream_t x) !! (self e, id) = rows (dream_t s) !! (self e, id))); [|done].
  clear s'. intros s1 i s2 Hi [HH Hsame] H.
  assert (HH2 := H). apply changeowner_iter in HH2 as (_ & HH' & _ & _);
    [|intros; by eapply changeowner_spec].
  split; [by etrans|]. rewrite <- Hsame. clear Hsame HH'.
  assert (Hc1 : ~ is_child (rows (dream_t s1)) id) by (intros C; by eapply Hc, handed_child).
  unfold changeowner_body in H. ok_bind H as tok Htok. apply get_ok in Htok.
  ok_bind H as ? _. ok_bind H as s3 Hs3.
  assert (Hrec : rows (dream_t s3) !! (self e, id) = rows (dream_t s1) !! (self e, id)).
  { destruct (dr_children tok) eqn:Ech; [ok_inv; by subst|]. eapply IH; [exact Hs3| |done].
    intros Hin. apply Hc1. exists (self e, i), tok. by rewrite Ech. }
  ok_bind H as st _. ok_bind H as ? _. ok_bind H as t Ht. apply modify_inv in Ht as [_ Ht].
  ok_bind H as q _. ok_bind H as s4 Hsub.
  apply sub_balance_frame in Hsub as (_ & HD2 & _). apply add_balance_frame in H as (_ & HD3 & _).
  rewrite HD3, HD2. simpl. rewrite Ht, lookup_insert_ne; [exact Hrec|].
  intros [= ->]. done.
Qed.

(** With [istransfer] set, every listed token belonged to [from], was
    unlocked and of a transferable kind. *)
Lemma changeowner_checks fuel e from to ids s s' :
  from <> to -> _changeowner fuel e from to ids true s = Ok s' ->
  forall id, id ∈ ids -> exists d st, rows (dream_t s) !! (self e, id) = Some d /\
    dr_owner d = from /\ rows (lock_t s) !! (self e, id) = None /\
    rows (stats_t s) !! (dr_category d, dr_token_name d) = Some st /\ transferable st = true.
Proof.
  intros Hne H. destruct fuel as [|fuel]; [discriminate|].
  rewrite changeowner_S in H. ok_bind H as ? _.
  apply (mfold_each
    (fun x => owner_frame s x /\ handed to (rows (dream_t s)) (rows (dream_t x)))
    (fun id _ => exists d st, rows (dream_t s) !! (self e, id) = Some d /\
      dr_owner d = from /\ rows (lock_t s) !! (self e, id) = None /\
      rows (stats_t s) !! (dr_category d, dr_token_name d) = Some st /\ transferable st = true)) in H.
  - apply H.
  - clear H s'. intros s1 id s2 _ [HF HH] H.
    assert (HI := H). apply changeowner_iter in HI as (HF2 & HH2 & _ & _);
      [|intros; by eapply changeowner_spec].
    split; [by split; etrans|].
    unfold changeowner_body in H. ok_bind H as tok Htok. apply get_ok in Htok.
    ok_bind H as ? Hlock. ok_bind H as s3 Hs3. ok_bind H as st Hst. apply get_ok in Hst.
    ok_bind H as ? Hchk. clear H. ok_inv. apply absent_true in Hlock.
    assert (HF3 : owner_frame s1 s3).
    { destruct (dr_children tok); [ok_inv; by subst | by eapply changeowner_spec]. }
    specialize (HH (self e, id)). rewrite Htok in HH.
    destruct (rows (dream_t s) !! (self e, id)) as [d|] eqn:Hd; [|done].
    assert (Etok : tok = d).
    { destruct HH as [HH|HH]; injection HH as HH; [done|]. by rewrite HH in *. }
    subst tok. exists d, st. rewrite (fr_stats _ _ HF3), (fr_stats _ _ HF) in Hst.
    rewrite (fr_lock _ _ HF) in Hlock. done.
  - done.
  - done.
Qed.

Lemma require_auth_ok e n u : require_auth e n = Ok u -> n ∈ auths e.
Proof. unfold require_auth. intros H. by ok_inv. Qed.


Lemma pay_fees_transfers e l s :
  transfers (out (pay_fees e l s)) = transfers (out s) ++ filter (fun p => p.1 <> self e) l.
Proof.
  revert s. induction l as [|[n a] l IH]; intros s; simpl; [by rewrite app_nil_r|].
  rewrite IH. rewrite filter_cons. simpl. destruct (Z.eqb_spec n (self e)) as [E|E].
  - by rewrite decide_False by tauto.
  - rewrite decide_True by done. simpl. rewrite transfers_app, <- app_assoc. done.
Qed.

(** Releasing the locks of a batch. *)
Lemma unlock_all e msg ids s s' :
  mfold (fun s nft_id =>
    get (lock_t s) (self e, nft_id) msg ;;
    t ← erase (lock_t s) (self e, nft_id); Ok (with_lock s t)) ids s = Ok s' ->
  out s' = out s /\ (forall id, id ∈ ids -> rows (lock_t s') !! (self e, id) = None).
Proof.
  apply (mfold_each (fun x => out x = out s)
    (fun id x => rows (lock_t x) !! (self e, id) = None)); [| |done].
  - intros s1 id s2 _ E H. ok_bind H as ? _. ok_bind H as t Ht. ok_inv. subst s2.
    apply erase_inv in Ht as [_ Ht]. split; [done|]. simpl. rewrite Ht. apply lookup_delete_eq.
  - intros s1 a b s2 _ H Ha. ok_bind H as ? _. ok_bind H as t Ht. ok_inv. subst s2.
    apply erase_inv in Ht as [_ Ht]. simpl. rewrite Ht. apply lookup_delete_None. by right.
Qed.

(** The buyer pays the asking price, and exactly that amount is handed on:
    the contract sends every party its share of the fee map, the shares (its
    own included) add up to the price, and every token of the batch belongs
    to the receiver named in the memo; the listing and its locks are gone. (C16) *)
Theorem purchase_settles fuel e from to_account q id s s' :
  is_i64 (amount q) -> purchase_nft fuel e from to_account q id s = Ok s' ->
  exists ask fees,
    rows (ask_t s) !! (self e, id) = Some ask /\
    _calcfees e s (ask_nft_ids ask) (ask_amount ask) (ask_seller ask) = Ok fees /\
    amount (ask_amount ask) = amount q /\ i64 (total fees) = amount q /\
    transfers (out s') = transfers (out s) ++ filter (fun p => p.1 <> self e) (map_iter fees) /\
    (forall nft, nft ∈ ask_nft_ids ask ->
       (exists d, rows (dream_t s') !! (self e, nft) = Some d /\ dr_owner d = to_account) /\
       rows (lock_t s') !! (self e, nft) = None) /\
    rows (ask_t s') !! (self e, id) = None.
Proof.
  unfold purchase_nft. intros Hq H. ok_bind H as ask Hask. apply get_ok in Hask.
  ok_bind H as ? Hamt. ok_bind H as ? _. ok_bind H as fees Hfees.
  ok_bind H as s1 Hlocks. ok_bind H as s2 Hown. ok_bind H as t Ht.
  apply (proj1 (Ok_inj _ _)) in H. subst s'. apply erase_inv in Ht as [_ Ht]. ok_inv.
  exists ask, fees. split; [done|]. split; [done|]. split; [done|].
  assert (Htot := Hfees). apply calcfees_total in Htot; [|congruence].
  split; [congruence|].
  destruct (changeowner_spec _ _ _ _ _ _ _ _ Hown) as (HF & _ & HT & HO).
  apply unlock_all in Hlocks as (Eout & HL). split_and!.
  - simpl. rewrite transfers_app. simpl. rewrite app_nil_r, HT, Eout. apply pay_fees_transfers.
  - intros nft Hn. split; [by apply HO|]. simpl. rewrite (fr_lock _ _ HF). by apply HL.
  - simpl. rewrite Ht. apply lookup_delete_eq.
Qed.
End Owner.
