(* ===== verification/DreamojiLicence.v ===== *)
(** * The NFT contract: licences, locks and links

    Licences are written in the scope of the contract and looked up in the
    scope of their owner; what follows from that for every reachable state,
    and what the link table guarantees. *)

From stdpp Require Import base numbers list gmap strings sorting.
From Stdlib Require Import ZArith Lia.
From S2P Require Import Prelude Boost Cdt Dreamoji Market DreamojiSale.
Local Open Scope Z_scope.

Section Licence.
Context {cdt : Cdt}.

(** Every licence is stored in the scope of the contract account. *)
Definition licences_scoped (self_ : name) (s : state) : Prop :=
  forall k lc, rows (licence_t s) !! k = Some lc -> k.1 = self_.

Lemma scoped_same self_ s s' :
  licence_t s' = licence_t s -> licences_scoped self_ s -> licences_scoped self_ s'.
Proof. unfold licences_scoped. by intros ->. Qed.

Lemma scoped_insert self_ s t k lc :
  rows t = <[k := lc]> (rows (licence_t s)) -> k.1 = self_ ->
  licences_scoped self_ s -> licences_scoped self_ (with_licence s t).
Proof.
  intros Ht Hk Hs k' lc' H. simpl in H. rewrite Ht in H.
  apply lookup_insert_Some in H as [[<- _]|[_ H]]; eauto.
Qed.

(** The loops and actions that do not write licences. *)
Definition keeps_licences (s s' : state) : Prop := licence_t s' = licence_t s.

#[local] Instance keeps_licences_preorder : PreOrder keeps_licences.
Proof. split; [done|]. unfold keeps_licences. intros x y z; congruence. Qed.

Lemma keeps_licences_fold {A} (g : state -> A -> result state) l s s' :
  (forall s a s', g s a = Ok s' -> keeps_licences s s') ->
  mfold g l s = Ok s' -> keeps_licences s s'.
Proof.
  intros Hg. apply (mfold_inv (keeps_licences s)); [|done].
  intros s1 a s2 _ H1 H2. etrans; [exact H1 | eauto].
Qed.

Lemma issue_loop_licences n e to cat tok issued one uri s s' :
  issue_loop n e to cat tok issued one uri s = Ok s' -> keeps_licences s s'.
Proof.
  revert issued s. induction n as [|n IH]; intros issued s H; simpl in H; [ok_inv; by subst|].
  ok_bind H as s1 H1. ok_bind H as i1 _. etrans; [|eapply IH, H].
  unfold _mint in H1. ok_bind H1 as [id s2] H2. unfold _nextnftid in H2. ok_bind H2 as c _.
  ok_bind H1 as t _. ok_inv. injection H2 as _ <-. by subst.
Qed.

Lemma issue_licences e to cat tok q uri memo s s' :
  issue e to cat tok q uri memo s = Ok s' -> keeps_licences s s'.
Proof.
  unfold issue. intros H. do 2 ok_bind H as ? _. ok_bind H as st _. do 5 ok_bind H as ? _.
  ok_bind H as s1 Hloop. ok_bind H as s2 Hadd. do 2 ok_bind H as ? _. ok_bind H as t _.
  ok_inv. subst s'. apply add_balance_frame in Hadd as (HF & _ & _).
  unfold keeps_licences in *. simpl. rewrite (fr_licence _ _ HF).
  destruct (fungible st); ok_inv; [by subst|]. by eapply issue_loop_licences.
Qed.

Lemma burn_one_licences e owner s id s' : burn_one e owner s id = Ok s' -> keeps_licences s s'.
Proof.
  unfold burn_one. intros H. ok_bind H as tok _. ok_bind H as ? _. ok_bind H as st _.
  do 3 ok_bind H as ? _. do 3 ok_bind H as ? _. ok_bind H as t _. ok_bind H as z _.
  ok_bind H as [s1 c] H1. ok_bind H as s2 Hsub. ok_bind H as t2 _. ok_inv. subst s'.
  apply sub_balance_frame in Hsub as (HF & _ & _). unfold keeps_licences. simpl.
  rewrite (fr_licence _ _ HF). destruct (bool_decide _).
  - ok_bind H1 as t1 _. ok_inv. by injection H1 as <- _.
  - ok_inv. by injection H1 as <- _.
Qed.

Lemma burnft_licences e owner id q s s' : burnft e owner id q s = Ok s' -> keeps_licences s s'.
Proof.
  unfold burnft. intros H. do 5 ok_bind H as ? _. ok_bind H as s1 Hsub. ok_bind H as ? _.
  ok_bind H as t _. ok_inv. subst s'. apply sub_balance_frame in Hsub as (HF & _ & _).
  exact (fr_licence _ _ HF).
Qed.

Lemma transferft_licences e from to cat tok q memo s s' :
  transferft e from to cat tok q memo s = Ok s' -> keeps_licences s s'.
Proof.
  unfold transferft. intros H. do 9 ok_bind H as ? _. ok_bind H as s1 Hsub.
  apply sub_balance_frame in Hsub as (HF1 & _ & _). apply add_balance_frame in H as (HF2 & _ & _).
  unfold keeps_licences. rewrite (fr_licence _ _ HF2), (fr_licence _ _ HF1). done.
Qed.

Lemma create_licences e i p cat tok f b se tr sp uri d m s s' :
  create e i p cat tok f b se tr sp uri d m s = Ok s' -> keeps_licences s s'.
Proof.
  unfold create. intros H. do 2 ok_bind H as ? _. ok_bind H as w _. do 3 ok_bind H as ? _.
  ok_bind H as s1 Hs1. do 2 ok_bind H as ? _. ok_bind H as t _. ok_inv. subst s'.
  unfold keeps_licences. simpl. destruct (absent _ _); ok_inv; by subst.
Qed.

Lemma sale_licences e se ids a p s s' :
  nftokensale e se ids a p s = Ok s' -> keeps_licences s s'.
Proof.
  unfold nftokensale. intros H. do 5 ok_bind H as ? _. ok_bind H as s1 Hs1. ok_bind H as t _.
  ok_inv. subst s'. apply keeps_licences_fold in Hs1; [done|]. intros ? ? ? H. ok_inv. by subst.
Qed.

Lemma licencesale_licences e se p ids l sp lp s s' :
  licencesale e se p ids l sp lp s = Ok s' -> keeps_licences s s'.
Proof.
  unfold licencesale. intros H. do 4 ok_bind H as ? _. apply keeps_licences_fold in H; [done|].
  intros s0 id s2 H0. do 4 ok_bind H0 as ? _. ok_bind H0 as s1 Hs1. ok_bind H0 as t _. ok_inv.
  subst s2. unfold keeps_licences. simpl. destruct (absent _ _); ok_inv; by subst.
Qed.

Lemma unlock_licences e msg ids s s' :
  mfold (fun s nft_id =>
    get (lock_t s) (self e, nft_id) msg ;;
    t ← erase (lock_t s) (self e, nft_id); Ok (with_lock s t)) ids s = Ok s' ->
  keeps_licences s s'.
Proof.
  apply keeps_licences_fold. intros s1 id s2 H. ok_bind H as ? _. ok_bind H as t _. ok_inv.
  by subst.
Qed.

Lemma endnftsale_licences e se b s s' : endnftsale e se b s = Ok s' -> keeps_licences s s'.
Proof.
  unfold endnftsale. intros H. do 2 ok_bind H as ? _. ok_bind H as s1 Hs1. ok_bind H as t _.
  ok_inv. subst s'. by apply unlock_licences in Hs1.
Qed.

Lemma linknfts_licences e ids l o s s' : linknfts e ids l o s = Ok s' -> keeps_licences s s'.
Proof.
  unfold linknfts. intros H. do 2 ok_bind H as ? _. ok_bind H as s1 Hs1. ok_bind H as t _.
  ok_inv. subst s'. apply keeps_licences_fold in Hs1; [done|]. intros ? ? ? H. ok_inv. by subst.
Qed.

Lemma unlinknfts_licences e ids l o s s' : unlinknfts e ids l o s = Ok s' -> keeps_licences s s'.
Proof.
  unfold unlinknfts. intros H. do 2 ok_bind H as ? _. ok_bind H as [s1 ch] Hs1. ok_bind H as t _.
  ok_inv. subst s'. apply (mfold_inv (fun x => keeps_licences s x.1)) in Hs1; [done| |done].
  intros [s2 c2] a [s3 c3] _ H1 H2. do 2 ok_bind H2 as ? _. ok_bind H2 as t2 _.
  ok_inv. by injection H2 as <- _.
Qed.

Lemma pay_fees_licences e l s : keeps_licences s (pay_fees e l s).
Proof.
  revert s. induction l as [|[n a] l IH]; intros s; [done|]. simpl. etrans; [|apply IH].
  by destruct (_ =? _).
Qed.

Lemma createlicence_scoped fuel e id owner to p r s s' :
  licences_scoped (self e) s -> _createlicence fuel e id owner to p r s = Ok s' ->
  licences_scoped (self e) s'.
Proof.
  revert id s s'. induction fuel as [|fuel IH]; intros id s s' Hs H; simpl in H; [discriminate|].
  ok_bind H as [lid s1] H1. unfold _nextlicenceid in H1. ok_bind H1 as c _.
  apply (proj1 (Ok_inj _ _)) in H1. injection H1 as _ <-.
  ok_bind H as t Ht. apply emplace_inv in Ht as [_ Ht]. ok_bind H as s2 Hs2. ok_bind H as tk _.
  revert H. apply (mfold_inv (licences_scoped (self e))).
  - intros s3 a s4 _ H3 H4. by eapply IH.
  - assert (H2 : licences_scoped (self e) s2); [|exact H2].
    eapply (scoped_same _ (with_licence s t)).
    + destruct (absent _ _); ok_inv; by subst.
    + by eapply scoped_insert.
Qed.

Lemma extend_scoped self_ e o id p s s' :
  licences_scoped self_ s -> extend e o id p s = Ok s' -> licences_scoped self_ s'.
Proof.
  unfold extend. intros Hs H. ok_bind H as ? _. ok_bind H as lc Hlc. apply get_ok in Hlc.
  do 3 ok_bind H as ? _. ok_bind H as t Ht. apply modify_inv in Ht as [_ Ht]. ok_inv. subst s'.
  eapply (scoped_insert _ (require_recipient s o)); [exact Ht | by eapply Hs | done].
Qed.

Lemma revoke_scoped self_ e o f ids s s' :
  licences_scoped self_ s -> revoke e o f ids s = Ok s' -> licences_scoped self_ s'.
Proof.
  unfold revoke. intros Hs H. do 3 ok_bind H as ? _. revert H.
  apply (mfold_inv (licences_scoped self_)); [|exact Hs].
  clear s s' Hs. intros s id s' _ Hs H. ok_bind H as lc Hlc. apply get_ok in Hlc.
  do 3 ok_bind H as ? _. destruct (foldl remove_all (lc_licensed_to lc) f) as [|y ys].
  - ok_bind H as t Ht. apply erase_inv in Ht as [_ Ht]. ok_bind H as ? _.
    assert (Ht' : licences_scoped self_ (with_licence s t)).
    { intros k lc' Hk. simpl in Hk. rewrite Ht in Hk. apply lookup_delete_Some in Hk as [_ Hk]. eauto. }
    destruct (absent _ _); ok_inv; by subst.
  - ok_bind H as t Ht. apply modify_inv in Ht as [_ Ht]. ok_inv. subst s'.
    eapply scoped_insert; [exact Ht | by eapply Hs | done].
Qed.

Lemma purchase_scoped fuel e from to q memo s s' :
  licences_scoped (self e) s -> purchase fuel e from to q memo s = Ok s' ->
  licences_scoped (self e) s'.
Proof.
  unfold purchase. intros Hs H. destruct (str_in memo _); [ok_inv; by subst|].
  destruct (negb _); [ok_inv; by subst|]. destruct (_ =? _); [ok_inv; by subst|].
  do 2 ok_bind H as ? _. ok_bind H as [[ty acct] id] _.
  destruct (str_in ty _); [|destruct (str_in ty _); [|discriminate]].
  - unfold purchase_nft in H. do 3 ok_bind H as ? _. ok_bind H as fees _.
    ok_bind H as s1 Hs1. ok_bind H as s2 Hs2. ok_bind H as t _. ok_inv. subst s'.
    apply unlock_licences in Hs1. apply changeowner_spec in Hs2 as (HF & _).
    eapply scoped_same; [|exact Hs]. simpl. rewrite (fr_licence _ _ HF), Hs1.
    apply pay_fees_licences.
  - unfold purchase_licence in H. do 4 ok_bind H as ? _. ok_bind H as t _.
    eapply createlicence_scoped; [|exact H]. eapply scoped_same; [|exact Hs].
    by destruct (_ =? _).
Qed.

Lemma apply_scoped fuel e a s s' :
  licences_scoped (self e) s -> apply fuel e a s = Ok s' -> licences_scoped (self e) s'.
Proof.
  intros Hs H. destruct a; simpl in H.
  all: try (eapply scoped_same; [|exact Hs]; change (keeps_licences s s');
    by eauto using create_licences, issue_licences, burnft_licences, transferft_licences,
       sale_licences, licencesale_licences, endnftsale_licences, linknfts_licences,
       unlinknfts_licences).
  - unfold instantiate in H. do 2 ok_bind H as ? _.
    destruct (cell_get (config_t s)); ok_inv; by subst.
  - unfold freezemaxsup in H. do 5 ok_bind H as ? _. ok_inv. subst s'. exact Hs.
  - unfold burnnft in H. do 2 ok_bind H as ? _. apply keeps_licences_fold in H.
    + by eapply scoped_same.
    + apply burn_one_licences.
  - unfold transfernft in H. do 5 ok_bind H as ? _. apply changeowner_spec in H as (HF & _).
    eapply scoped_same; [apply (fr_licence _ _ HF) | done].
  - unfold license in H. do 6 ok_bind H as ? _. revert H.
    apply (mfold_inv (licences_scoped (self e))); [|exact Hs].
    intros s1 id1 s2 _ H1 H2. ok_bind H2 as ? _. by eapply createlicence_scoped.
  - by eapply extend_scoped.
  - by eapply revoke_scoped.
  - unfold endlcncsale in H. do 3 ok_bind H as ? _. ok_inv. by subst.
  - unfold logcall in H. ok_inv. by subst.
  - unfold logsale in H. ok_inv. by subst.
  - unfold loglicense in H. ok_inv. by subst.
  - destruct (_ =? _); [ok_inv; by subst|]. destruct (_ =? _); [|ok_inv; by subst].
    by eapply purchase_scoped.
Qed.

Lemma reachable_scoped self_ n s : reachable (step self_) n s -> licences_scoped self_ s.
Proof.
  induction 1 as [|n s s' _ IH Hstep].
  - intros k lc H. simpl in H. rewrite rows_empty in H. done.
  - destruct Hstep as [fuel e a s s' <- Ha]. by eapply apply_scoped.
Qed.

Definition can_extend (e : env) (owner : name) (s : state) : Prop :=
  exists id period s', extend e owner id period s = Ok s'.
Definition can_revoke (e : env) (owner : name) (s : state) : Prop :=
  exists from ids s', revoke e owner from ids s = Ok s'.

(** In no reachable state can an account other than the contract itself
    extend or revoke a licence: both actions look for it in the scope of
    [owner], where no licence is ever stored. *)
Theorem licences_unmanageable self_ n s e owner :
  reachable (step self_) n s -> self e = self_ -> owner <> self_ ->
  ~ can_extend e owner s /\ ~ can_revoke e owner s.
Proof.
  intros Hr He Hne. apply reachable_scoped in Hr.
  assert (Hnone : forall id, rows (licence_t s) !! (owner, id) = None).
  { intros id. destruct (rows (licence_t s) !! (owner, id)) eqn:E; [|done].
    by apply Hr in E. }
  split.
  - intros (id & p & s' & H). unfold extend in H. ok_bind H as ? _. ok_bind H as lc Hlc.
    apply get_ok in Hlc. simpl in Hlc. congruence.
  - intros (from & ids & s' & H). unfold revoke in H. do 3 ok_bind H as ? ?.
    destruct ids as [|id ids]; [discriminate|]. simpl in H.
    ok_bind H as s1 Hs1. ok_bind Hs1 as lc Hlc. apply get_ok in Hlc. simpl in Hlc. congruence.
Qed.
End Licence.
