(* ===== verification/DreamojiTokens.v ===== *)
(** * The NFT contract: the identity of a token

    Token ids are handed out by a counter and never reused, and an action
    never alters the serial number, kind or address of a token that exists. *)

From stdpp Require Import base numbers list gmap strings sorting.
From Stdlib Require Import ZArith Lia.
From S2P Require Import Prelude Boost Cdt Dreamoji Market DreamojiSale.
Local Open Scope Z_scope.

Section Tokens.
Context {cdt : Cdt}.

(** The counter of the next token. *)
Definition next_nft (s : state) : Z :=
  match cell_get (config_t s) with Some c => cfg_next_nft_id c | None => 0 end.

(** All of a token but its owner and its links. *)
Definition same_token (d d' : dreams) : Prop :=
  dr_id d' = dr_id d /\ dr_serial_number d' = dr_serial_number d /\
  dr_category d' = dr_category d /\ dr_token_name d' = dr_token_name d /\
  dr_relative_uri d' = dr_relative_uri d.

#[export] Instance same_token_preorder : PreOrder same_token.
Proof. split; unfold same_token; [done|]. intros x y z; intuition congruence. Qed.

(** From [s] to [s'] at most [m] tokens were minted, under the ids the counter
    passed; every other token is one that was there. *)
Definition tokens_step (self_ : name) (m : Z) (s s' : state) : Prop :=
  next_nft s <= next_nft s' <= next_nft s + m /\
  forall k d', rows (dream_t s') !! k = Some d' ->
    (exists d, rows (dream_t s) !! k = Some d /\ same_token d d') \/
    (k.1 = self_ /\ next_nft s <= k.2 < next_nft s' /\ dr_id d' = k.2).

Lemma tokens_step_trans self_ m1 m2 s1 s2 s3 :
  tokens_step self_ m1 s1 s2 -> tokens_step self_ m2 s2 s3 -> tokens_step self_ (m1 + m2) s1 s3.
Proof.
  intros [N1 T1] [N2 T2]. split; [lia|]. intros k d3 H3.
  destruct (T2 k d3 H3) as [(d2 & H2 & E2)|(? & ? & ?)]; [|right; split_and!; auto; lia].
  destruct (T1 k d2 H2) as [(d1 & H1 & E1)|(? & ? & E1)].
  - left. exists d1. split; [done | by etrans].
  - right. split_and!; [done | lia..|]. destruct E2 as [-> _]. done.
Qed.

(** Actions that mint nothing, by how they change the token table. *)
Definition keeps_tokens (s s' : state) : Prop :=
  next_nft s' = next_nft s /\
  forall k d', rows (dream_t s') !! k = Some d' ->
    exists d, rows (dream_t s) !! k = Some d /\ same_token d d'.

#[export] Instance keeps_tokens_preorder : PreOrder keeps_tokens.
Proof.
  split; [split; [done | intros k d' ?; by exists d']|].
  intros s1 s2 s3 [N1 T1] [N2 T2]. split; [congruence|]. intros k d3 H3.
  destruct (T2 k d3 H3) as (d2 & H2 & E2). destruct (T1 k d2 H2) as (d1 & H1 & E1).
  exists d1. split; [done | by etrans].
Qed.

Lemma keeps_tokens_step self_ m s s' : 0 <= m -> keeps_tokens s s' -> tokens_step self_ m s s'.
Proof. intros Hm [N T]. split; [lia|]. intros k d' H. left. by apply T. Qed.

Lemma keeps_tokens_fold {A} (g : state -> A -> result state) l s s' :
  (forall s a s', g s a = Ok s' -> keeps_tokens s s') -> mfold g l s = Ok s' -> keeps_tokens s s'.
Proof.
  intros Hg. apply (mfold_inv (keeps_tokens s)); [|done].
  intros s1 a s2 _ H1 H2. etrans; [exact H1 | eauto].
Qed.

(** Neither the tokens nor the configuration are written. *)
Lemma keeps_frame s s' : dream_t s' = dream_t s -> config_t s' = config_t s -> keeps_tokens s s'.
Proof. intros E C. split; [unfold next_nft; by rewrite C|]. rewrite E. intros k d' ?. by exists d'. Qed.

Lemma keeps_insert s t k d d' :
  rows (dream_t s) !! k = Some d -> same_token d d' -> rows t = <[k := d']> (rows (dream_t s)) ->
  keeps_tokens s (with_dream s t).
Proof.
  intros Hd E Ht. split; [done|]. simpl. rewrite Ht. intros k' d2 H.
  apply lookup_insert_Some in H as [[<- <-]|[_ H]]; [by exists d | by exists d2].
Qed.

Lemma owner_keeps_tokens s s' to :
  owner_frame s s' -> handed to (rows (dream_t s)) (rows (dream_t s')) -> keeps_tokens s s'.
Proof.
  intros HF HH. split; [unfold next_nft; by rewrite (fr_config _ _ HF)|]. intros k d' Hk.
  specialize (HH k). destruct (rows (dream_t s) !! k) as [d|]; [|congruence]. exists d.
  split; [done|]. destruct HH as [HH|HH]; rewrite HH in Hk; by injection Hk as <-.
Qed.

(** Takes a run that only writes other tables apart, branch by branch. *)
Ltac frame_run :=
  repeat first
    [ progress ok_inv | progress subst
    | match goal with
      | H : context [if ?b then _ else _] |- _ => destruct b
      | H : (_, _) = (_, _) |- _ => injection H as ? ?
      end ];
  try (by apply keeps_frame).

Lemma sub_balance_tokens o id q s s' : _sub_balance o id q s = Ok s' -> keeps_tokens s s'.
Proof.
  intros (HF & HD & _)%sub_balance_frame. apply keeps_frame; [done | apply (fr_config _ _ HF)].
Qed.
Lemma add_balance_tokens o c t id q s s' : _add_balance o c t id q s = Ok s' -> keeps_tokens s s'.
Proof.
  intros (HF & HD & _)%add_balance_frame. apply keeps_frame; [done | apply (fr_config _ _ HF)].
Qed.

(** Minting is the only source of new tokens. *)
Lemma mint_tokens e to cat tok issued uri s s' :
  0 <= next_nft s -> next_nft s + 1 <= UINT64_MAX -> _mint e to cat tok issued uri s = Ok s' ->
  tokens_step (self e) 1 s s' /\ next_nft s' = next_nft s + 1.
Proof.
  intros H0 Hn H. unfold _mint in H. ok_bind H as [id s1] H1. ok_bind H as t Ht. ok_inv. subst s'.
  unfold _nextnftid in H1. ok_bind H1 as c Hc. ok_inv. injection H1 as <- <-.
  apply emplace_inv in Ht as [_ Ht].
  assert (E : next_nft s = cfg_next_nft_id c) by (unfold next_nft; by rewrite Hc).
  assert (E' : next_nft (emit (with_dream (with_config s (cell_set (config_t s)
    (mk_tokenconfigs (cfg_standard c) (cfg_version c) (cfg_symbol c) (cfg_category_name_id c)
       (u64 (cfg_next_nft_id c + 1)) (cfg_next_licence_id c)))) t)
    (Logcall (cfg_next_nft_id c))) = next_nft s + 1).
  { unfold next_nft. simpl. rewrite cell_get_set, Hc. simpl.
    apply u64_small. mach_lia. }
  split; [|exact E']. split; [rewrite E'; lia|]. rewrite E'. simpl. simpl in Ht. rewrite Ht.
  intros k d Hk.
  apply lookup_insert_Some in Hk as [[<- <-]|[_ Hk]]; [right; simpl; split_and!; [done|lia..|done]|].
  left. by exists d.
Qed.

Lemma issue_loop_tokens n e to cat tok issued one uri s s' :
  0 <= next_nft s -> next_nft s + Z.of_nat n <= UINT64_MAX ->
  issue_loop n e to cat tok issued one uri s = Ok s' -> tokens_step (self e) (Z.of_nat n) s s'.
Proof.
  revert issued s. induction n as [|n IH]; intros issued s H0 Hn H; simpl in H.
  - ok_inv. subst s'. apply keeps_tokens_step; [lia | done].
  - ok_bind H as s1 H1. ok_bind H as i1 _. apply mint_tokens in H1 as [H1 E1]; [|lia..].
    replace (Z.of_nat (S n)) with (1 + Z.of_nat n) by lia.
    eapply tokens_step_trans; [exact H1|]. eapply IH; [| |exact H]; lia.
Qed.

Lemma issue_tokens e to cat tok q uri memo s s' :
  0 <= next_nft s -> next_nft s + 100 <= UINT64_MAX -> issue e to cat tok q uri memo s = Ok s' ->
  tokens_step (self e) 100 s s'.
Proof.
  unfold issue. intros H0 Hn H. do 2 ok_bind H as ? _. ok_bind H as st _. do 5 ok_bind H as ? _.
  ok_bind H as s1 Hloop. ok_bind H as s2 Hadd. do 2 ok_bind H as ? _. ok_bind H as t _.
  ok_inv. subst s'. apply add_balance_tokens in Hadd.
  replace 100 with (100 + 0) by lia. apply tokens_step_trans with s1.
  - destruct (fungible st); [ok_inv; subst s1; by apply keeps_tokens_step|].
    ok_bind Hloop as ? Hq. ok_bind Hloop as one _. ok_inv.
    apply issue_loop_tokens in Hloop as [N T]; [|lia..]. split; [lia|exact T].
  - apply keeps_tokens_step; [lia|]. etrans; [exact Hadd|]. by apply keeps_frame.
Qed.

Lemma burn_one_tokens e owner s id s' : burn_one e owner s id = Ok s' -> keeps_tokens s s'.
Proof.
  unfold burn_one. intros H. ok_bind H as tok _. ok_bind H as ? _. ok_bind H as st _.
  do 3 ok_bind H as ? _. do 3 ok_bind H as ? _. ok_bind H as t _. ok_bind H as z _.
  ok_bind H as [s1 c] H1. ok_bind H as s2 Hsub. ok_bind H as t2 Ht. ok_inv. subst s'.
  assert (Hs1 : keeps_tokens s s1) by frame_run.
  apply sub_balance_tokens in Hsub. etrans; [exact Hs1|]. etrans; [exact Hsub|].
  apply erase_inv in Ht as [_ Ht]. split; [done|]. simpl. rewrite Ht. intros k d Hk.
  apply lookup_delete_Some in Hk as [_ Hk]. by exists d.
Qed.

Lemma createlicence_tokens fuel e id owner to p r s s' :
  _createlicence fuel e id owner to p r s = Ok s' -> keeps_tokens s s'.
Proof.
  revert id s s'. induction fuel as [|fuel IH]; intros id s s' H; simpl in H; [discriminate|].
  ok_bind H as [lid s1] H1. unfold _nextlicenceid in H1. ok_bind H1 as c Hc.
  apply (proj1 (of_option_ok _ _ _)) in Hc. apply (proj1 (Ok_inj _ _)) in H1.
  injection H1 as <- <-. ok_bind H as t _. ok_bind H as s2 Hs2. ok_bind H as tk _.
  apply keeps_tokens_fold in H; [|intros; by eapply IH]. etrans; [|exact H].
  trans (with_config s (cell_set (config_t s) (mk_tokenconfigs (cfg_standard c) (cfg_version c)
    (cfg_symbol c) (cfg_category_name_id c) (cfg_next_nft_id c) (u64 (cfg_next_licence_id c + 1))))).
  - split; [unfold next_nft; simpl; by rewrite cell_get_set, Hc|]. intros k d ?. by exists d.
  - frame_run.
Qed.

Lemma pay_fees_tokens e l s : keeps_tokens s (pay_fees e l s).
Proof.
  revert s. induction l as [|[n a] l IH]; intros s; [done|]. simpl. etrans; [|apply IH].
  destruct (_ =? _); by apply keeps_frame.
Qed.

Lemma purchase_tokens fuel e from to q memo s s' :
  purchase fuel e from to q memo s = Ok s' -> keeps_tokens s s'.
Proof.
  unfold purchase. intros H. destruct (str_in memo _); [frame_run|].
  destruct (negb _); [frame_run|]. destruct (_ =? _); [frame_run|].
  do 2 ok_bind H as ? _. ok_bind H as [[ty acct] id] _.
  destruct (str_in ty _); [|destruct (str_in ty _); [|discriminate]].
  - unfold purchase_nft in H. do 3 ok_bind H as ? _. ok_bind H as fees _.
    ok_bind H as s1 Hs1. ok_bind H as s2 Hs2. ok_bind H as t _. ok_inv. subst s'.
    apply keeps_tokens_fold in Hs1; [|intros; frame_run].
    apply changeowner_spec in Hs2 as (HF & HH & _).
    etrans; [apply pay_fees_tokens|]. etrans; [exact Hs1|].
    etrans; [by eapply owner_keeps_tokens|]. by apply keeps_frame.
  - unfold purchase_licence in H. do 4 ok_bind H as ? _. ok_bind H as t _.
    apply createlicence_tokens in H. etrans; [|exact H]. apply keeps_frame; by destruct (_ =? _).
Qed.

Lemma linknfts_tokens e ids l o s s' : linknfts e ids l o s = Ok s' -> keeps_tokens s s'.
Proof.
  unfold linknfts. intros H. ok_bind H as ? _. ok_bind H as par Hp. apply get_ok in Hp.
  ok_bind H as s1 Hs1. ok_bind H as t Ht. ok_inv. subst s'. apply modify_inv in Ht as [_ Ht].
  assert (E : dream_t s1 = dream_t s /\ config_t s1 = config_t s).
  { revert Hs1. apply (mfold_inv (fun x => dream_t x = dream_t s /\ config_t x = config_t s)); [|done].
    intros s2 id s3 _ E H. ok_inv. by subst. }
  destruct E as [E C]. rewrite E in Ht. trans s1; [by apply keeps_frame|].
  eapply keeps_insert; [rewrite E; exact Hp | | rewrite E; exact Ht]. done.
Qed.

Lemma unlinknfts_tokens e ids l o s s' : unlinknfts e ids l o s = Ok s' -> keeps_tokens s s'.
Proof.
  unfold unlinknfts. intros H. ok_bind H as ? _. ok_bind H as par Hp. apply get_ok in Hp.
  ok_bind H as [s1 ch] Hs1. ok_bind H as t Ht. ok_inv. subst s'. apply modify_inv in Ht as [_ Ht].
  assert (E : dream_t s1 = dream_t s /\ config_t s1 = config_t s).
  { apply (mfold_inv (fun x => dream_t x.1 = dream_t s /\ config_t x.1 = config_t s)) in Hs1;
      [done| |done].
    intros [s2 c2] id [s3 c3] _ E H. do 2 ok_bind H as ? _. ok_bind H as t2 _. ok_inv.
    by injection H as <- _. }
  destruct E as [E C]. rewrite E in Ht. trans s1; [by apply keeps_frame|].
  eapply keeps_insert; [rewrite E; exact Hp | | rewrite E; exact Ht]. done.
Qed.

Lemma config_tokens s c c' :
  cell_get (config_t s) = Some c -> cfg_next_nft_id c' = cfg_next_nft_id c ->
  keeps_tokens s (with_config s (cell_set (config_t s) c')).
Proof.
  intros Hc E. split; [unfold next_nft; simpl; by rewrite cell_get_set, Hc|].
  intros k d ?. by exists d.
Qed.

Lemma instantiate_tokens e sym v s s' : instantiate e sym v s = Ok s' -> keeps_tokens s s'.
Proof.
  unfold instantiate. intros H. do 2 ok_bind H as ? _.
  destruct (cell_get (config_t s)) as [c|] eqn:E; ok_inv; subst s'.
  - by eapply config_tokens.
  - split; [unfold next_nft; simpl; by rewrite cell_get_set, E|]. intros k d ?. by exists d.
Qed.

Lemma create_tokens e i p cat tok f b se tr sp uri d m s s' :
  create e i p cat tok f b se tr sp uri d m s = Ok s' -> keeps_tokens s s'.
Proof.
  unfold create. intros H. do 2 ok_bind H as ? _. ok_bind H as w _. do 2 ok_bind H as ? _.
  ok_bind H as c Hc. apply (proj1 (of_option_ok _ _ _)) in Hc. ok_bind H as s1 Hs1. do 2 ok_bind H as ? _. ok_bind H as t _. ok_inv. subst s'.
  assert (K : keeps_tokens s s1 /\ config_t s1 = config_t s).
  { destruct (absent _ _); ok_inv; subst; split; try done; by apply keeps_frame. }
  destruct K as [K E]. etrans; [exact K|]. trans (with_stats s1 t); [by apply keeps_frame|].
  eapply config_tokens; [simpl; rewrite E; exact Hc | done].
Qed.

(** The loops of the remaining actions write only locks, listings, licences
    and balances. *)
Lemma listing_tokens e a fuel s s' :
  match a with
  | Freezemaxsup _ _ | Burnft _ _ _ | Transferft _ _ _ _ _ _ | Nftokensale _ _ _ _
  | Licencesale _ _ _ _ _ _ | Endnftsale _ _ | Endlcncsale _ _ | Extend _ _ _ | Revoke _ _ _
  | LogcallA _ | LogsaleA _ _ _ _ | LoglicenseA _ => True | _ => False end ->
  apply fuel e a s = Ok s' -> keeps_tokens s s'.
Proof.
  intros Ha H. destruct a; try done; simpl in H.
  - unfold freezemaxsup in H. frame_run.
  - unfold burnft in H. do 5 ok_bind H as ? _. ok_bind H as s1 H1. apply sub_balance_tokens in H1.
    etrans; [exact H1|]. frame_run.
  - unfold transferft in H. do 9 ok_bind H as ? _. ok_bind H as s1 H1.
    apply sub_balance_tokens in H1. apply add_balance_tokens in H.
    etrans; [|exact H]. etrans; [|exact H1]. by apply keeps_frame.
  - unfold nftokensale in H. do 5 ok_bind H as ? _. ok_bind H as s1 H1.
    apply keeps_tokens_fold in H1; [|intros; frame_run]. etrans; [exact H1|]. frame_run.
  - unfold licencesale in H. do 4 ok_bind H as ? _. apply keeps_tokens_fold in H.
    + etrans; [|exact H]. by apply keeps_frame.
    + clear H. intros s1 id s2 H. frame_run.
  - unfold extend in H. frame_run.
  - unfold revoke in H. do 3 ok_bind H as ? _. apply keeps_tokens_fold in H.
    + etrans; [|exact H]. by apply keeps_frame.
    + clear H. intros s1 id s2 H. do 4 ok_bind H as ? _.
      destruct (foldl _ _ _); frame_run.
  - unfold endnftsale in H. do 2 ok_bind H as ? _. ok_bind H as s1 H1.
    apply keeps_tokens_fold in H1; [|intros; frame_run]. etrans; [exact H1|]. frame_run.
  - unfold endlcncsale in H. do 4 ok_bind H as ? _. frame_run.
  - unfold logcall in H. frame_run.
  - unfold logsale in H. frame_run.
  - unfold loglicense in H. frame_run.
Qed.

Lemma apply_tokens fuel e a s s' :
  0 <= next_nft s -> next_nft s + 100 <= UINT64_MAX -> apply fuel e a s = Ok s' ->
  tokens_step (self e) 100 s s'.
Proof.
  intros H0 Hn H.
  destruct a; try (simpl in H; by eapply issue_tokens);
    (apply keeps_tokens_step; [lia|]); try (eapply listing_tokens; [|exact H]; done); simpl in H.
  - by eapply instantiate_tokens.
  - by eapply create_tokens.
  - unfold burnnft in H. do 2 ok_bind H as ? _.
    eapply keeps_tokens_fold; [apply burn_one_tokens | exact H].
  - unfold transfernft in H. do 5 ok_bind H as ? _. apply changeowner_spec in H as (HF & HH & _).
    by eapply owner_keeps_tokens.
  - unfold license in H. do 6 ok_bind H as ? _. apply keeps_tokens_fold in H.
    + etrans; [|exact H]. by apply keeps_frame.
    + intros s1 id s2 H1. ok_bind H1 as ? _. by eapply createlicence_tokens.
  - by eapply linknfts_tokens.
  - by eapply unlinknfts_tokens.
  - destruct (_ =? _); [frame_run|]. destruct (_ =? _); [|frame_run]. by eapply purchase_tokens.
Qed.

(** Every token is stored under its own id, below the counter. *)
Definition tokens_ok (self_ : name) (s : state) : Prop :=
  forall k d, rows (dream_t s) !! k = Some d ->
    k.1 = self_ /\ 0 <= k.2 < next_nft s /\ dr_id d = k.2.

Lemma reachable_tokens self_ n s :
  reachable (step self_) n s -> 100 * Z.of_nat n <= UINT64_MAX ->
  tokens_ok self_ s /\ 0 <= next_nft s <= 100 * Z.of_nat n.
Proof.
  induction 1 as [|n s s' _ IH Hstep]; intros Hn.
  - split; [|unfold next_nft; simpl; rewrite cell_get_empty; lia].
    intros k d Hk. simpl in Hk. by rewrite rows_empty in Hk.
  - destruct IH as [IH Hb]; [lia|]. destruct Hstep as [fuel e a s s' <- Ha].
    apply apply_tokens in Ha as [N T]; [|lia..]. split; [|lia]. intros k d' Hk.
    destruct (T k d' Hk) as [(d & Hd & -> & _)|(E & ? & ?)]; [|split_and!; [done|lia..|done]].
    destruct (IH k d Hd) as (? & ? & ?). split_and!; [done|lia..|done].
Qed.

(** A token keeps its id, serial number, kind and address for as long as it
    exists, and an id is never given out twice: a token that an action brings
    into being gets an id the counter had not reached, while all ids in use
    lie below the counter.  The bound is the range of the 64-bit counter, of
    which an action uses at most 100. *)
Theorem token_identity self_ n s s' :
  reachable (step self_) n s -> step self_ s s' -> 100 * Z.of_nat (S n) <= UINT64_MAX ->
  tokens_ok self_ s /\ tokens_step self_ 100 s s' /\ tokens_ok self_ s'.
Proof.
  intros Hr Hstep Hn. destruct (reachable_tokens _ _ _ Hr) as [H1 Hb]; [lia|].
  split; [done|]. split.
  - destruct Hstep as [fuel e a s s' <- Ha]. eapply apply_tokens; [lia.. | exact Ha].
  - eapply reachable_tokens; [by eapply reach_step | exact Hn].
Qed.
End Tokens.

(** ** The NFT contract: links between tokens

    [_changeowner] recurses through the tokens linked under a token.  The
    recursion ends on every acyclic link graph; it cannot succeed on a token
    below which there is a cycle or a burnt token. *)

Section Links.
Context {cdt : Cdt}.

(** The children of a token do not change with its owner. *)
Lemma handed_lookup to m m' k d' : handed to m m' -> m' !! k = Some d' ->
  exists d, m !! k = Some d /\ dr_children d' = dr_children d.
Proof.
  intros HH Hk. specialize (HH k). destruct (m !! k) as [d|]; [|congruence].
  exists d. split; [done|]. destruct HH as [HH|HH]; rewrite HH in Hk; by injection Hk as <-.
Qed.

Lemma changeowner_body_handed fuel e from to b s id s' :
  changeowner_body fuel e from to b s id = Ok s' ->
  handed to (rows (dream_t s)) (rows (dream_t s')).
Proof.
  intros H. apply changeowner_iter in H as (_ & HH & _); [done|].
  intros. by eapply changeowner_spec.
Qed.

(** [rank] decreases from a token to the tokens linked under it. *)
Definition ranked (e : env) (rank : Z -> nat) (m : gmap key dreams) : Prop :=
  forall id d c, m !! (self e, id) = Some d -> c ∈ dr_children d -> (rank c < rank id)%nat.

Lemma ranked_handed e rank to m m' : handed to m m' -> ranked e rank m -> ranked e rank m'.
Proof.
  intros HH Hr id d' c Hk Hc. destruct (handed_lookup _ _ _ _ _ HH Hk) as (d & Hd & E).
  eapply Hr; [exact Hd | by rewrite <- E].
Qed.

(** The bodies for two call depths agree where the recursive calls do. *)
Lemma changeowner_body_depth f1 f2 e from to b s id :
  (forall d, rows (dream_t s) !! (self e, id) = Some d -> dr_children d <> [] ->
     _changeowner f1 e from to (dr_children d) false s =
     _changeowner f2 e from to (dr_children d) false s) ->
  changeowner_body f1 e from to b s id = changeowner_body f2 e from to b s id.
Proof.
  intros H. unfold changeowner_body. destruct (get _ _ _) as [tok|] eqn:E; [|done]. simpl.
  apply get_ok in E. specialize (H tok E). destruct (dr_children tok) as [|c cs]; [done|].
  by rewrite H.
Qed.

(** On an acyclic link graph the recursion ends: a call depth above the rank
    of the listed tokens is enough, and any more changes nothing. *)
Theorem changeowner_terminates rank fuel more e from to ids b s :
  ranked e rank (rows (dream_t s)) -> (forall id, id ∈ ids -> (rank id <= fuel)%nat) ->
  _changeowner (S fuel + more) e from to ids b s = _changeowner (S fuel) e from to ids b s.
Proof.
  revert ids b s. induction fuel as [|fuel IH]; intros ids b s Hr Hids;
    rewrite Nat.add_succ_l, !changeowner_S; (destruct (check _ _); [cbn|done]).
  all: apply (mfold_agree (fun x => ranked e rank (rows (dream_t x)))); [| |done];
    [|intros s1 id s2 _ Hr1 H1; by eapply ranked_handed, Hr1; eapply changeowner_body_handed].
  all: intros s1 id Hid Hr1; apply changeowner_body_depth; intros d Hd Hne.
  all: assert (Hc : forall c, c ∈ dr_children d -> (rank c < rank id)%nat) by (intros; by eapply Hr1).
  all: specialize (Hids id Hid).
  - destruct (dr_children d) as [|c cs]; [done|]. specialize (Hc c ltac:(by left)). lia.
  - apply IH; [done|]. intros c Hin. specialize (Hc c Hin). lia.
Qed.

(** A set of tokens each of which, if it still exists, has another member of
    the set linked under it: a cycle, or the ancestors of a burnt token. *)
Definition stuck_set (e : env) (P : Z -> Prop) (m : gmap key dreams) : Prop :=
  forall i d, P i -> m !! (self e, i) = Some d -> exists c, c ∈ dr_children d /\ P c.

(** No member of a stuck set can change hands, whatever the call depth. *)
Theorem changeowner_stuck (P : Z -> Prop) fuel e from to ids b s s' id :
  stuck_set e P (rows (dream_t s)) -> P id -> id ∈ ids -> _changeowner fuel e from to ids b s <> Ok s'.
Proof.
  revert ids b s s' id. induction fuel as [|fuel IH]; intros ids b s s' id HP Hid Hin H; [done|].
  rewrite changeowner_S in H. ok_bind H as ? _.
  apply (mfold_each (fun x => handed to (rows (dream_t s)) (rows (dream_t x)))
    (fun i _ => ~ P i)) in H as [_ H]; [by eapply H | | done | reflexivity].
  clear H s' id Hid Hin. intros s1 id s2 _ HH H. split.
  { etrans; [exact HH | by eapply changeowner_body_handed]. }
  intros Hid. unfold changeowner_body in H. ok_bind H as tok Htok. apply get_ok in Htok.
  ok_bind H as ? _. ok_bind H as s3 Hs3.
  destruct (handed_lookup _ _ _ _ _ HH Htok) as (d & Hd & Ech).
  destruct (HP id d Hid Hd) as (c & Hc & HPc). rewrite <- Ech in Hc.
  destruct (dr_children tok) as [|c0 cs] eqn:E; [by apply not_elem_of_nil in Hc|].
  revert Hs3. eapply IH; [|exact HPc|exact Hc].
  intros i d' HPi Hi. destruct (handed_lookup _ _ _ _ _ HH Hi) as (di & Hdi & ->). eauto.
Qed.
End Links.
