(* ===== verification/DreamojiSupply.v ===== *)
(** * The NFT contract conserves supply

    For every kind of token, the balances recorded in the account tables add
    up to the [current_supply] of its statistics row, in every reachable
    state. *)

From stdpp Require Import base numbers list gmap strings sorting.
From Stdlib Require Import ZArith Lia.
From S2P Require Import Prelude Boost Cdt Dreamoji Market.
Local Open Scope Z_scope.

(** The sum of the balances of the kind [id]. *)
Definition balance_sum (m : gmap key accounts) (id : Z) : Z :=
  map_sum (fun k a => if k.2 =? id then amount (acc_amount a) else 0) m.

Record supply_inv (stats : gmap key dreamstats) (accts : gmap key accounts) (next : Z) : Prop := {
  inv_sum : forall k st, stats !! k = Some st ->
    balance_sum accts (st_category_name_id st) = amount (current_supply st);
  inv_unique : forall k1 k2 s1 s2, stats !! k1 = Some s1 -> stats !! k2 = Some s2 ->
    st_category_name_id s1 = st_category_name_id s2 -> k1 = k2;
  inv_fresh : forall k st, stats !! k = Some st -> 0 <= st_category_name_id st < next;
  inv_acct : forall k a, accts !! k = Some a -> 0 < amount (acc_amount a) /\
    exists st, stats !! (acc_category a, acc_token_name a) = Some st /\
               st_category_name_id st = k.2;
}.

Section Supply.
Context {cdt : Cdt}.

Definition next_id (s : state) : Z :=
  match cell_get (config_t s) with Some c => cfg_category_name_id c | None => 0 end.

Definition inv (s : state) : Prop :=
  supply_inv (rows (stats_t s)) (rows (account_t s)) (next_id s).

(** An action that leaves the statistics, the balances and the kind counter
    alone keeps the invariant. *)
Definition same_supply (s s' : state) : Prop :=
  rows (stats_t s') = rows (stats_t s) /\ rows (account_t s') = rows (account_t s) /\
  next_id s' = next_id s.

#[local] Instance same_supply_preorder : PreOrder same_supply.
Proof.
  split; [done|]. intros x y z (A & B & C) (A' & B' & C'). repeat split; congruence.
Qed.

Lemma inv_same s s' : same_supply s s' -> inv s -> inv s'.
Proof. intros (H1 & H2 & H3). unfold inv. by rewrite H1, H2, H3. Qed.

Lemma same_fold {A} (g : state -> A -> result state) l s s' :
  (forall s a s', g s a = Ok s' -> same_supply s s') ->
  mfold g l s = Ok s' -> same_supply s s'.
Proof.
  intros Hg. apply (mfold_inv (same_supply s)); [|done].
  intros s1 a s2 _ H1 H2. etrans; [exact H1 | eauto].
Qed.

(** *** Balances *)

(** [m'] differs from [m] by a change [d] of one balance of the kind [id];
    a row that was not there is of the category [cat] and name [tok]. *)
Record balance_change (m m' : gmap key accounts) (id d : Z) (cat tok : name) : Prop := {
  change_sum : forall i, balance_sum m' i = balance_sum m i + (if id =? i then d else 0);
  change_row : forall k a', m' !! k = Some a' ->
    (exists a, m !! k = Some a /\ acc_category a = acc_category a' /\
       acc_token_name a = acc_token_name a' /\
       (0 < amount (acc_amount a) -> 0 < amount (acc_amount a'))) \/
    (k.2 = id /\ acc_category a' = cat /\ acc_token_name a' = tok /\
     0 < amount (acc_amount a'));
}.

Lemma sub_balance_spec o id q s s' cat tok :
  0 <= amount q -> _sub_balance o id q s = Ok s' ->
  exists t, s' = with_account s t /\
    balance_change (rows (account_t s)) (rows t) id (- amount q) cat tok.
Proof.
  intros Hq H. unfold _sub_balance in H.
  ok_bind H as a Ha. apply get_ok in Ha. ok_bind H as ? Hle. ok_inv.
  set (m := rows (account_t s)) in *.
  destruct (Z.eqb_spec (amount (acc_amount a)) (amount q)) as [E|E].
  - ok_bind H as t Ht. ok_inv. subst s'. apply erase_inv in Ht as [_ Hr]. eexists; split; [done|].
    rewrite Hr. fold m. split.
    + intros i. unfold balance_sum. rewrite (map_sum_delete _ m _ a) by done.
      simpl. destruct (id =? i); lia.
    + intros k a' Hk. apply lookup_delete_Some in Hk as [_ Hk]. left. eauto.
  - ok_bind H as b Hb. ok_bind H as t Ht. ok_inv. subst s'.
    apply asset_minus_ok in Hb as (_ & _ & ->). apply modify_inv in Ht as [_ Hr].
    eexists; split; [done|]. rewrite Hr. fold m. split.
    + intros i. unfold balance_sum. rewrite (map_sum_insert _ m _ _ a) by done.
      simpl. destruct (id =? i); lia.
    + intros k a' Hk. left. apply lookup_insert_Some in Hk as [[<- <-]|[_ Hk]]; [|eauto].
      exists a. repeat split; [done|]. simpl. lia.
Qed.

Lemma add_balance_spec o cat tok id q s s' :
  0 < amount q -> _add_balance o cat tok id q s = Ok s' ->
  exists t, s' = with_account s t /\
    balance_change (rows (account_t s)) (rows t) id (amount q) cat tok.
Proof.
  intros Hq H. unfold _add_balance in H. rewrite tbl_find_rows in H.
  set (m := rows (account_t s)) in *.
  destruct (m !! (o, id)) as [a|] eqn:Ha.
  - ok_bind H as b Hb. ok_bind H as t Ht. ok_inv. subst s'.
    apply asset_plus_ok in Hb as (_ & _ & ->). apply modify_inv in Ht as [_ Hr].
    eexists; split; [done|]. rewrite Hr. fold m. split.
    + intros i. unfold balance_sum. rewrite (map_sum_insert _ m _ _ a) by done.
      simpl. destruct (id =? i); lia.
    + intros k a' Hk. apply lookup_insert_Some in Hk as [[<- <-]|[_ Hk]]; [|left; eauto].
      left. exists a. repeat split; [done|]. simpl. lia.
  - ok_bind H as t Ht. ok_inv. subst s'. apply emplace_inv in Ht as [_ Hr].
    eexists; split; [done|]. rewrite Hr. fold m. split.
    + intros i. unfold balance_sum. rewrite map_sum_insert_new by done.
      simpl. destruct (id =? i); lia.
    + intros k a' Hk. apply lookup_insert_Some in Hk as [[<- <-]|[_ Hk]]; [|left; eauto].
      by right.
Qed.

(** *** Steps on the abstract invariant *)

(** Moving [q] of a kind between two accounts. *)
Lemma inv_move stats m m1 m2 next k st q cat tok :
  supply_inv stats m next -> stats !! k = Some st -> k = (cat, tok) ->
  balance_change m m1 (st_category_name_id st) (- q) cat tok ->
  balance_change m1 m2 (st_category_name_id st) q cat tok ->
  supply_inv stats m2 next.
Proof.
  intros HI Hk -> H1 H2. split; [|apply HI|apply HI|].
  - intros k' st' Hk'. rewrite (change_sum _ _ _ _ _ _ H2), (change_sum _ _ _ _ _ _ H1).
    rewrite (inv_sum _ _ _ HI k' st' Hk'). destruct (_ =? _); lia.
  - intros k' a2 Ha2.
    destruct (change_row _ _ _ _ _ _ H2 k' a2 Ha2) as [(a1 & Ha1 & Ec1 & Et1 & P1)|(E & -> & -> & P)];
      [destruct (change_row _ _ _ _ _ _ H1 k' a1 Ha1) as [(a & Ha & Ec & Et & P)|(E & E1 & E2 & P)]|].
    + destruct (inv_acct _ _ _ HI k' a Ha) as (Hp & st0 & Hst0 & Hid).
      split; [auto|]. exists st0. by rewrite <- Ec1, <- Et1, <- Ec, <- Et.
    + split; [auto|]. exists st. rewrite <- Ec1, <- Et1, E1, E2. auto.
    + split; [done|]. eauto.
Qed.

(** Changing the supply figures of one kind along with its balances. *)
Lemma inv_adjust stats m m' next k st st' d cat tok :
  supply_inv stats m next -> stats !! k = Some st -> k = (cat, tok) ->
  st_category_name_id st' = st_category_name_id st ->
  amount (current_supply st') = amount (current_supply st) + d ->
  balance_change m m' (st_category_name_id st) d cat tok ->
  supply_inv (<[k := st']> stats) m' next.
Proof.
  intros HI Hk Ek Eid Ecur HB. split.
  - intros k' x Hx. rewrite (change_sum _ _ _ _ _ _ HB).
    apply lookup_insert_Some in Hx as [[<- <-]|[Hne Hx]].
    + rewrite Eid, Z.eqb_refl, (inv_sum _ _ _ HI k st Hk). lia.
    + rewrite (inv_sum _ _ _ HI k' x Hx).
      destruct (Z.eqb_spec (st_category_name_id st) (st_category_name_id x)) as [E|E]; [|lia].
      destruct Hne. by eapply (inv_unique _ _ _ HI).
  - intros k1 k2 s1 s2 H1 H2 E.
    apply lookup_insert_Some in H1 as [[<- <-]|[? H1]];
      apply lookup_insert_Some in H2 as [[<- <-]|[? H2]].
    + done.
    + apply (inv_unique _ _ _ HI k k2 st s2); [done|done|lia].
    + apply (inv_unique _ _ _ HI k1 k s1 st); [done|done|lia].
    + by apply (inv_unique _ _ _ HI k1 k2 s1 s2).
  - intros k' x Hx. apply lookup_insert_Some in Hx as [[<- <-]|[? Hx]].
    + rewrite Eid. by eapply (inv_fresh _ _ _ HI).
    + by eapply (inv_fresh _ _ _ HI).
  - intros k' a' Ha'.
    assert (Hst : exists x, stats !! (acc_category a', acc_token_name a') = Some x /\
              st_category_name_id x = k'.2 /\ 0 < amount (acc_amount a')).
    { destruct (change_row _ _ _ _ _ _ HB k' a' Ha') as [(a & Ha & Ec & Et & P)|(E & -> & -> & P)].
      - destruct (inv_acct _ _ _ HI k' a Ha) as (Hp & st0 & Hst0 & Hid).
        exists st0. rewrite <- Ec, <- Et. auto.
      - exists st. by rewrite <- Ek. }
    destruct Hst as (x & Hx & Hid & Hp). split; [done|].
    destruct (decide (k = (acc_category a', acc_token_name a'))) as [Hke|Hne].
    + exists st'. rewrite <- Hke, lookup_insert_eq. split; [done|].
      rewrite <- Hke, Hk in Hx. injection Hx as <-. lia.
    + exists x. by rewrite lookup_insert_ne.
Qed.

Lemma balance_change_refl m id cat tok : balance_change m m id 0 cat tok.
Proof. split; [intros; destruct (_ =? _); lia|]. intros k a H. left. eauto. Qed.

(** A kind whose supply reaches zero leaves no account row behind, so its
    statistics row can go. *)
Lemma inv_erase stats m next k st :
  supply_inv stats m next -> stats !! k = Some st -> amount (current_supply st) = 0 ->
  supply_inv (delete k stats) m next.
Proof.
  intros HI Hk Hz. split.
  - intros k' x Hx. apply lookup_delete_Some in Hx as [_ Hx]. by eapply (inv_sum _ _ _ HI).
  - intros k1 k2 s1 s2 H1 H2. apply lookup_delete_Some in H1 as [_ H1].
    apply lookup_delete_Some in H2 as [_ H2]. by eapply (inv_unique _ _ _ HI).
  - intros k' x Hx. apply lookup_delete_Some in Hx as [_ Hx]. by eapply (inv_fresh _ _ _ HI).
  - intros k' a Ha. destruct (inv_acct _ _ _ HI k' a Ha) as (Hp & x & Hx & Hid).
    split; [done|]. exists x. split; [|done].
    rewrite lookup_delete_ne; [done|]. intros Hke. rewrite <- Hke, Hk in Hx. injection Hx as <-.
    assert (Hle := map_sum_le (fun k a => if k.2 =? st_category_name_id st
      then amount (acc_amount a) else 0) m k' a).
    fold (balance_sum m (st_category_name_id st)) in Hle.
    rewrite (inv_sum _ _ _ HI k st Hk), Hz, Hid, Z.eqb_refl in Hle.
    enough (amount (acc_amount a) <= 0) by lia. apply Hle; [|done].
    intros k2 a2 Ha2. destruct (_ =? _); [|done]. apply (inv_acct _ _ _ HI) in Ha2. lia.
Qed.

(** *** Actions *)

(** What every action but [create] does: the invariant is kept and no kind is
    added. *)
Definition keeps (s s' : state) : Prop := (inv s -> inv s') /\ next_id s' = next_id s.

#[local] Instance keeps_preorder : PreOrder keeps.
Proof. split; [done|]. intros x y z [A B] [A' B']. split; [auto | congruence]. Qed.

Lemma keeps_same s s' : same_supply s s' -> keeps s s'.
Proof. intros H. split; [by apply inv_same | apply H]. Qed.

Lemma keeps_fold {A} (g : state -> A -> result state) l s s' :
  (forall s a s', g s a = Ok s' -> keeps s s') -> mfold g l s = Ok s' -> keeps s s'.
Proof.
  intros Hg. apply (mfold_inv (keeps s)); [|done].
  intros s1 a s2 _ H1 H2. etrans; [exact H1 | eauto].
Qed.

Lemma next_id_set_config s c :
  next_id (with_config s (cell_set (config_t s) c)) = cfg_category_name_id c.
Proof. unfold next_id. simpl. by rewrite cell_get_set. Qed.

Lemma nextnftid_same s id s' : _nextnftid s = Ok (id, s') -> same_supply s s'.
Proof.
  unfold _nextnftid. intros H. ok_bind H as c Hc. ok_inv. injection H as _ <-.
  repeat split. rewrite next_id_set_config. unfold next_id. by rewrite Hc.
Qed.

Lemma nextlicenceid_same s id s' : _nextlicenceid s = Ok (id, s') -> same_supply s s'.
Proof.
  unfold _nextlicenceid. intros H. ok_bind H as c Hc. ok_inv. injection H as _ <-.
  repeat split. rewrite next_id_set_config. unfold next_id. by rewrite Hc.
Qed.

Lemma mint_same e to cat tok issued uri s s' :
  _mint e to cat tok issued uri s = Ok s' -> same_supply s s'.
Proof.
  unfold _mint. intros H. ok_bind H as [id s1] H1. ok_bind H as t Ht. ok_inv. subst s'.
  apply nextnftid_same in H1. etrans; [exact H1|]. done.
Qed.

Lemma issue_loop_same n e to cat tok issued one uri s s' :
  issue_loop n e to cat tok issued one uri s = Ok s' -> same_supply s s'.
Proof.
  revert issued s. induction n as [|n IH]; intros issued s H; simpl in H.
  - ok_inv. by subst.
  - ok_bind H as s1 H1. ok_bind H as i1 _. etrans; [eapply mint_same, H1 | eapply IH, H].
Qed.

Lemma checkasset_pos s a f u : _checkasset s a f = Ok u -> 0 < amount a.
Proof.
  unfold _checkasset. intros H. ok_bind H as v Hv. destruct f; ok_inv; lia.
Qed.

Lemma issue_keeps e to cat tok q uri memo s s' :
  issue e to cat tok q uri memo s = Ok s' -> keeps s s'.
Proof.
  unfold issue. intros H. do 2 ok_bind H as ? _.
  ok_bind H as st Hst. apply get_ok in Hst. ok_bind H as ? _.
  ok_bind H as ? Hpos. apply checkasset_pos in Hpos. do 3 ok_bind H as ? _.
  ok_bind H as s1 Hloop. ok_bind H as s2 Hadd. ok_bind H as cur Hcur. ok_bind H as iss Hiss.
  ok_bind H as t Ht. ok_inv. subst s'.
  assert (Hsame : same_supply s s1).
  { destruct (fungible st); ok_inv; [by subst|]. by eapply issue_loop_same. }
  etrans; [apply keeps_same, Hsame|]. destruct Hsame as (Hs1 & _ & _).
  destruct (add_balance_spec _ _ _ _ _ _ _ Hpos Hadd) as (t1 & -> & HB).
  apply modify_inv in Ht as [_ Ht]. simpl in Ht.
  apply asset_plus_ok in Hcur as (_ & _ & ->).
  split; [|done]. intros HI. unfold inv. simpl. rewrite Ht.
  eapply inv_adjust; [exact HI | by rewrite Hs1 | done | done | done | exact HB].
Qed.

Lemma transferft_keeps e from to cat tok q memo s s' :
  transferft e from to cat tok q memo s = Ok s' -> keeps s s'.
Proof.
  unfold transferft. intros H. do 4 ok_bind H as ? _.
  ok_bind H as st Hst. apply get_ok in Hst. do 2 ok_bind H as ? _.
  ok_bind H as ? Hpos. apply checkasset_pos in Hpos. ok_bind H as ? _.
  ok_bind H as s1 Hsub.
  destruct (sub_balance_spec from _ q _ _ cat tok ltac:(lia) Hsub) as (t1 & -> & HB1).
  destruct (add_balance_spec _ _ _ _ _ _ _ Hpos H) as (t2 & -> & HB2).
  split; [|done]. intros HI. unfold inv. simpl in *.
  eapply inv_move; [exact HI | exact Hst | done | exact HB1 | exact HB2].
Qed.

Lemma changeowner_keeps fuel e from to ids b s s' :
  _changeowner fuel e from to ids b s = Ok s' -> keeps s s'.
Proof.
  revert from to ids b s s'. induction fuel as [|fuel IH]; intros from to ids b s s' H;
    simpl in H; [discriminate|].
  ok_bind H as ? _. revert H. apply keeps_fold. clear s s'. intros s id s' H.
  ok_bind H as tok Htok. ok_bind H as ? _. ok_bind H as s1 Hs1.
  etrans.
  { destruct (dr_children tok); [ok_inv; by subst | eapply IH, Hs1]. }
  ok_bind H as st Hst. apply get_ok in Hst. ok_bind H as ? _. ok_bind H as t Ht.
  ok_bind H as q Hq. apply asset_new_ok in Hq as (Eq & _ & _). ok_bind H as s2 Hsub.
  assert (Hpos : 0 < amount q) by (subst q; simpl; lia). clear Eq.
  destruct (sub_balance_spec from _ q _ _ (dr_category tok) (dr_token_name tok) ltac:(lia) Hsub)
    as (t1 & -> & HB1).
  destruct (add_balance_spec _ _ _ _ _ _ _ Hpos H) as (t2 & -> & HB2).
  split; [|done]. intros HI. unfold inv. simpl in *.
  eapply inv_move; [exact HI | exact Hst | done | exact HB1 | exact HB2].
Qed.

Lemma transfernft_keeps fuel e from to ids s s' :
  transfernft fuel e from to ids s = Ok s' -> keeps s s'.
Proof. unfold transfernft. intros H. do 5 ok_bind H as ? _. by eapply changeowner_keeps. Qed.

Lemma burn_one_keeps e owner s id s' :
  freed_intact e -> burn_one e owner s id = Ok s' -> keeps s s'.
Proof.
  unfold burn_one. intros Hfreed H. ok_bind H as tok _. ok_bind H as ? _.
  ok_bind H as st Hst. apply get_ok in Hst. do 3 ok_bind H as ? _.
  ok_bind H as q Hq. apply asset_new_ok in Hq as (Eq & _ & _).
  ok_bind H as cur Hcur. apply asset_minus_ok in Hcur as (_ & _ & Ecur).
  ok_bind H as iss _. ok_bind H as t Ht. apply modify_inv in Ht as [_ Ht].
  ok_bind H as z Hz. apply asset_new_ok in Hz as (Ez & _ & _).
  ok_bind H as [s1 cnid] Hcase. ok_bind H as s2 Hsub. ok_bind H as t2 _. ok_inv. subst s'.
  set (k := (dr_category tok, dr_token_name tok)) in *.
  set (st' := set_issued (set_current st cur) iss) in *.
  assert (Hcn : cnid = st_category_name_id st /\ account_t s1 = account_t s /\
    next_id s1 = next_id s /\
    (rows (stats_t s1) = <[k := st']> (rows (stats_t s)) \/
     amount cur = 0 /\ rows (stats_t s1) = delete k (<[k := st']> (rows (stats_t s))))).
  { destruct (bool_decide_reflect (cur = z)) as [Ecz|_].
    - ok_bind Hcase as t1 Ht1. ok_inv. injection Hcase as <- <-. rewrite Hfreed.
      apply erase_inv in Ht1 as [_ Ht1]. simpl in *. rewrite <- Ht. split_and!; try done.
      right. split; [by rewrite Ecz, Ez|done].
    - ok_inv. injection Hcase as <- <-. split_and!; try done. by left. }
  destruct Hcn as (-> & Hacc & Hnext & Hrows).
  destruct (sub_balance_spec owner _ q _ _ k.1 k.2 ltac:(subst q; simpl; lia) Hsub)
    as (t3 & -> & HB).
  rewrite Hacc in HB. split; [|exact Hnext]. intros HI. unfold inv. simpl.
  assert (HI' : supply_inv (<[k := st']> (rows (stats_t s))) (rows t3) (next_id s)).
  { eapply (inv_adjust _ _ _ _ k st st' (- amount q) k.1 k.2); try done.
    subst st' cur. simpl. lia. }
  change (next_id (with_dream (with_account s1 t3) t2)) with (next_id s1). rewrite Hnext.
  destruct Hrows as [->|[Hz ->]]; [done|].
  eapply inv_erase; [done | apply lookup_insert_eq | done].
Qed.

Lemma burnnft_keeps e owner ids s s' :
  freed_intact e -> burnnft e owner ids s = Ok s' -> keeps s s'.
Proof.
  unfold burnnft. intros Hf H. do 2 ok_bind H as ? _. revert H.
  apply keeps_fold. eauto using burn_one_keeps.
Qed.

Lemma burnft_keeps e owner id q s s' : burnft e owner id q s = Ok s' -> keeps s s'.
Proof.
  unfold burnft. intros H. ok_bind H as ? _. ok_bind H as a Ha. apply get_ok in Ha.
  ok_bind H as st Hst. apply get_ok in Hst.
  ok_bind H as ? Hpos. apply checkasset_pos in Hpos. ok_bind H as ? _. ok_bind H as s1 Hsub.
  ok_bind H as cur Hcur. apply asset_minus_ok in Hcur as (_ & _ & Ecur).
  ok_bind H as t Ht. ok_inv. subst s'.
  destruct (sub_balance_spec owner id q _ _ (acc_category a) (acc_token_name a) ltac:(lia) Hsub)
    as (t1 & -> & HB).
  apply modify_inv in Ht as [_ Ht]. simpl in Ht.
  split; [|done]. intros HI. unfold inv. simpl. rewrite Ht.
  destruct (inv_acct _ _ _ HI _ _ Ha) as (_ & st0 & Hst0 & Hid).
  rewrite Hst in Hst0. injection Hst0 as <-. simpl in Hid. rewrite <- Hid in HB.
  eapply (inv_adjust _ _ _ _ _ st); try done. subst cur. simpl. lia.
Qed.

Lemma freezemaxsup_keeps e cat tok s s' : freezemaxsup e cat tok s = Ok s' -> keeps s s'.
Proof.
  unfold freezemaxsup. intros H. ok_bind H as ? _. ok_bind H as st Hst. apply get_ok in Hst.
  do 2 ok_bind H as ? _. ok_bind H as t Ht. ok_inv. subst s'.
  apply modify_inv in Ht as [_ Ht]. split; [|done]. intros HI. unfold inv. simpl. rewrite Ht.
  eapply (inv_adjust _ _ _ _ _ st _ 0); try done; [simpl; lia | apply balance_change_refl].
Qed.

Lemma createlicence_same fuel e id owner to p r s s' :
  _createlicence fuel e id owner to p r s = Ok s' -> same_supply s s'.
Proof.
  revert id s s'. induction fuel as [|fuel IH]; intros id s s' H; simpl in H; [discriminate|].
  ok_bind H as [lid s1] H1. apply nextlicenceid_same in H1. etrans; [exact H1|].
  ok_bind H as t Ht. ok_bind H as s2 H2. ok_bind H as tk _.
  assert (Hs2 : same_supply s1 s2).
  { destruct (absent _ _); ok_inv; by subst. }
  etrans; [exact Hs2|]. apply same_fold in H; [exact H | intros; eapply IH; eauto].
Qed.

Lemma pay_fees_same e l s : same_supply s (pay_fees e l s).
Proof.
  revert s. induction l as [|[n a] l IH]; intros s; [done|]. simpl. etrans; [|apply IH].
  by destruct (_ =? _).
Qed.

(** One iteration of the loops that release the locks of a listing. *)
Lemma unlock_same e msg s id s' :
  (get (lock_t s) (self e, id) msg ;; t ← erase (lock_t s) (self e, id); Ok (with_lock s t))
    = Ok s' -> same_supply s s'.
Proof. intros H. ok_bind H as ? _. ok_bind H as t _. ok_inv. by subst. Qed.

Lemma purchase_keeps fuel e from to q memo s s' :
  purchase fuel e from to q memo s = Ok s' -> keeps s s'.
Proof.
  unfold purchase. intros H.
  destruct (str_in memo _); [ok_inv; by subst|].
  destruct (negb _); [ok_inv; by subst|]. destruct (_ =? _); [ok_inv; by subst|].
  do 2 ok_bind H as ? _. ok_bind H as [[ty acct] id] _.
  destruct (str_in ty _); [|destruct (str_in ty _); [|discriminate]].
  - unfold purchase_nft in H. ok_bind H as ask _. do 2 ok_bind H as ? _. ok_bind H as fees _.
    ok_bind H as s1 Hs1. ok_bind H as s2 Hs2. ok_bind H as t Ht. ok_inv. subst s'.
    etrans; [apply keeps_same, pay_fees_same|].
    etrans.
    { apply keeps_same. eapply same_fold; [|exact Hs1]. apply unlock_same. }
    etrans; [eapply changeowner_keeps, Hs2|]. by apply keeps_same.
  - unfold purchase_licence in H. ok_bind H as sale _. do 3 ok_bind H as ? _.
    ok_bind H as t Ht. apply keeps_same.
    apply createlicence_same in H. etrans; [|exact H]. by destruct (_ =? _).
Qed.

(** The actions on listings, licences and links touch neither table. *)
Lemma nftokensale_same e se ids a p s s' :
  nftokensale e se ids a p s = Ok s' -> same_supply s s'.
Proof.
  unfold nftokensale. intros H. do 5 ok_bind H as ? _. ok_bind H as s1 Hs1.
  ok_bind H as t _. ok_inv. subst s'. apply same_fold in Hs1; [done|].
  intros ? ? ? H. ok_inv. by subst.
Qed.

Lemma licencesale_same e se p ids l sp lp s s' :
  licencesale e se p ids l sp lp s = Ok s' -> same_supply s s'.
Proof.
  unfold licencesale. intros H. do 4 ok_bind H as ? _. apply same_fold in H; [done|].
  intros s0 id s2 H0. ok_bind H0 as tk _. do 3 ok_bind H0 as ? _. ok_bind H0 as s1 Hs1.
  ok_bind H0 as t _. ok_inv. subst s2. destruct (absent _ _); ok_inv; by subst.
Qed.

Lemma license_same fuel e o to ids p r s s' :
  license fuel e o to ids p r s = Ok s' -> same_supply s s'.
Proof.
  unfold license. intros H. do 6 ok_bind H as ? _. apply same_fold in H; [done|].
  intros s0 id s2 H0. ok_bind H0 as ? _. by eapply createlicence_same.
Qed.

Lemma extend_same e o id p s s' : extend e o id p s = Ok s' -> same_supply s s'.
Proof. unfold extend. intros H. ok_inv. by subst. Qed.

Lemma revoke_same e o f ids s s' : revoke e o f ids s = Ok s' -> same_supply s s'.
Proof.
  unfold revoke. intros H. do 3 ok_bind H as ? _. apply same_fold in H; [done|].
  intros s0 id s2 H0. ok_bind H0 as lc _. do 3 ok_bind H0 as ? _.
  destruct (foldl _ _ _); ok_bind H0 as t _; [|ok_inv; by subst].
  ok_bind H0 as ? _. destruct (absent _ _); ok_inv; by subst.
Qed.

Lemma endnftsale_same e se b s s' : endnftsale e se b s = Ok s' -> same_supply s s'.
Proof.
  unfold endnftsale. intros H. ok_bind H as ask _. ok_bind H as ? _. ok_bind H as s1 Hs1.
  ok_bind H as t _. ok_inv. subst s'. apply same_fold in Hs1; [done|]. apply unlock_same.
Qed.

Lemma endlcncsale_same e se id s s' : endlcncsale e se id s = Ok s' -> same_supply s s'.
Proof.
  unfold endlcncsale. intros H. ok_bind H as sale _. do 2 ok_bind H as ? _. ok_inv. by subst.
Qed.

Lemma linknfts_same e ids l o s s' : linknfts e ids l o s = Ok s' -> same_supply s s'.
Proof.
  unfold linknfts. intros H. ok_bind H as ? _. ok_bind H as p _. ok_bind H as s1 Hs1.
  ok_bind H as t _. ok_inv. subst s'. apply same_fold in Hs1; [done|].
  intros ? ? ? H. ok_inv. by subst.
Qed.

Lemma unlinknfts_same e ids l o s s' : unlinknfts e ids l o s = Ok s' -> same_supply s s'.
Proof.
  unfold unlinknfts. intros H. ok_bind H as ? _. ok_bind H as p _. ok_bind H as [s1 ch] Hs1.
  ok_bind H as t _. ok_inv. subst s'.
  apply (mfold_inv (fun x => same_supply s x.1)) in Hs1; [exact Hs1 | | done].
  intros [s2 c2] a [s3 c3] _ H1 H2. do 2 ok_bind H2 as ? _. ok_bind H2 as t2 _.
  ok_inv. injection H2 as <- _. exact H1.
Qed.

Lemma instantiate_same e sym v s s' : instantiate e sym v s = Ok s' -> same_supply s s'.
Proof.
  unfold instantiate. intros H. do 2 ok_bind H as ? _. split_and!; unfold next_id;
    destruct (cell_get (config_t s)); ok_inv; subst s'; simpl; by rewrite ?cell_get_set.
Qed.

(** [create] adds one kind, with a fresh identifier. *)
Lemma create_inv e i p cat tok f b se tr sp uri d m s s' :
  0 <= next_id s < UINT64_MAX -> inv s -> create e i p cat tok f b se tr sp uri d m s = Ok s' ->
  inv s' /\ next_id s' = next_id s + 1.
Proof.
  unfold create. intros Hn HI H. do 2 ok_bind H as ? _. ok_bind H as w _. do 2 ok_bind H as ? _.
  ok_bind H as c Hc. apply (proj1 (of_option_ok _ _ _)) in Hc.
  ok_bind H as s1 Hs1. ok_bind H as z Hz.
  apply asset_new_ok in Hz as (Ez & _ & _).
  ok_bind H as ? _. ok_bind H as t Ht. ok_inv. subst s'. apply emplace_inv in Ht as [Hfree Ht].
  assert (same_supply s s1 /\ next_id s = cfg_category_name_id c) as [(HS1 & HS2 & HS3) Hnext].
  { split; [|unfold next_id; simpl in Hc; by rewrite Hc].
    destruct (absent _ _); ok_inv; by subst. }
  assert (Hnext' : next_id (with_config (with_stats s1 t) (cell_set (config_t (with_stats s1 t))
    (mk_tokenconfigs (cfg_standard c) (cfg_version c) (cfg_symbol c)
      (u64 (cfg_category_name_id c + 1)) (cfg_next_nft_id c) (cfg_next_licence_id c)))) =
    next_id s + 1).
  { rewrite next_id_set_config. simpl. rewrite u64_small by mach_lia. lia. }
  split; [|exact Hnext']. unfold inv. rewrite Hnext'. simpl. rewrite Ht, HS2, HS1 in *.
  rewrite <- Hnext in *. split.
  - intros k st Hk. apply lookup_insert_Some in Hk as [[<- <-]|[_ Hk]]; [|by eapply inv_sum].
    simpl. subst z. simpl. apply map_sum_zero. intros k' a Ha.
    destruct (inv_acct _ _ _ HI k' a Ha) as (_ & st & Hst & Hid).
    apply (inv_fresh _ _ _ HI) in Hst. destruct (Z.eqb_spec k'.2 (next_id s)); lia.
  - intros k1 k2 s1' s2' H1 H2 E.
    apply lookup_insert_Some in H1 as [[<- <-]|[_ H1]];
      apply lookup_insert_Some in H2 as [[<- <-]|[_ H2]]; simpl in E.
    + done.
    + apply (inv_fresh _ _ _ HI) in H2. lia.
    + apply (inv_fresh _ _ _ HI) in H1. lia.
    + by eapply (inv_unique _ _ _ HI).
  - intros k st Hk. apply lookup_insert_Some in Hk as [[<- <-]|[_ Hk]]; [simpl; lia|].
    apply (inv_fresh _ _ _ HI) in Hk. lia.
  - intros k a Ha. destruct (inv_acct _ _ _ HI k a Ha) as (Hp & st & Hst & Hid).
    split; [done|]. exists st. split; [|done]. rewrite lookup_insert_ne; [done|].
    intros E. rewrite <- E in Hst. congruence.
Qed.

Lemma apply_step fuel e a s s' : freed_intact e -> apply fuel e a s = Ok s' ->
  keeps s s' \/ (0 <= next_id s < UINT64_MAX -> inv s -> inv s' /\ next_id s' = next_id s + 1).
Proof.
  intros Hf H.
  destruct a; simpl in H;
    try (right; intros; eapply create_inv; eassumption); left.
  all: try (eapply issue_keeps; eassumption). all: try (eapply freezemaxsup_keeps; eassumption).
  all: try (eapply burnnft_keeps; eassumption). all: try (eapply burnft_keeps; eassumption).
  all: try (eapply transfernft_keeps; eassumption). all: try (eapply transferft_keeps; eassumption).
  all: try (destruct (_ =? _); [ok_inv; by subst|]; destruct (_ =? _); [|ok_inv; by subst];
            eapply purchase_keeps; eassumption).
  all: try (unfold logcall, logsale, loglicense in H; ok_inv; by subst).
  all: apply keeps_same; eauto using instantiate_same, nftokensale_same, licencesale_same,
    license_same, extend_same, revoke_same, endnftsale_same, endlcncsale_same, linknfts_same,
    unlinknfts_same.
Qed.

Lemma inv_empty : inv empty_state.
Proof. unfold inv. simpl. rewrite !rows_empty. split; intros; simplify_map_eq. Qed.

(** In every state the contract reaches by actions whose behaviour is defined,
    for every kind of token the recorded balances of all accounts add up to its
    current supply, every balance is positive, and no two kinds share an
    identifier.  The behaviour of burning the last token of a kind is defined
    only as long as the row it reads after erasing it is intact; otherwise the
    statement fails, as [burnout_charges_another] shows.  The bound is the range
    of the 64-bit kind counter. (C3) *)
Theorem supply_conserved self_ n s :
  reachable (defined_step self_) n s -> Z.of_nat n <= UINT64_MAX ->
  supply_inv (rows (stats_t s)) (rows (account_t s)) (next_id s).
Proof.
  intros Hr Hn. enough (inv s /\ 0 <= next_id s <= Z.of_nat n) as [H _] by exact H.
  induction Hr as [|n s s' Hr IH Hstep].
  - split; [apply inv_empty|]. unfold next_id. simpl. rewrite cell_get_empty. lia.
  - destruct IH as [HI Hb]; [lia|]. destruct (defined_intact _ _ _ Hstep) as (fuel & e & a & _ & Hf & Ha).
    destruct (apply_step _ _ _ _ _ Hf Ha) as [[Hk ->]|Hc]; [split; [auto|lia]|].
    destruct Hc as [Hi ->]; [mach_lia|done|]. split; [done|lia].
Qed.
End Supply.
