(* ===== verification/DreamojiRuns.v ===== *)
(** * Concrete runs of the NFT contract

    A deployment with one fungible and one non-fungible kind, used to
    evaluate the theorems, and the scripts that exhibit the contract's
    deviations from its documentation. *)

From stdpp Require Import base numbers list gmap strings.
From Stdlib Require Import ZArith Lia Ascii.
From Stdlib Require String.
From S2P Require Import Prelude Boost Names Cdt Dreamoji Market DreamojiSale DreamojiLicence DreamojiTokens DreamojiSupply.
Local Open Scope Z_scope.

(** ** A reference instance of the contract development kit

    Tables are finite maps, singletons are options; the instance discharges
    the laws of [Cdt] and lets the contract run on concrete inputs. *)

(** A symbol code packs one to seven upper case letters, first letter in the
    lowest byte. *)
Fixpoint pack_code (s : chars) : Z :=
  match s with [] => 0 | c :: s => chr c + 256 * pack_code s end.

Fixpoint code_valid (fuel : nat) (z : Z) : bool :=
  match fuel with
  | O => z =? 0
  | S fuel =>
    if z =? 0 then true
    else (chr "A" <=? z mod 256) && (z mod 256 <=? chr "Z") && code_valid fuel (z / 256)
  end.

Definition code_is_valid (z : Z) : bool := negb (z =? 0) && code_valid 7 z.
Definition ref_valid (s : symbol) : bool := code_is_valid (code s).

Definition ref_asset (z : Z) (s : symbol) : result asset :=
  check (bool_decide (in_range z)) "magnitude of asset amount must be less than 2^62" ;;
  check (ref_valid s) "invalid symbol name" ;; Ok (Asset z s).
Definition ref_plus (a b : asset) : result asset :=
  check (bool_decide (asset_symbol a = asset_symbol b)) "attempt to add asset with different symbol" ;;
  check (bool_decide (in_range (amount a + amount b))) "addition overflow" ;;
  Ok (Asset (amount a + amount b) (asset_symbol a)).
Definition ref_minus (a b : asset) : result asset :=
  check (bool_decide (asset_symbol a = asset_symbol b))
    "attempt to subtract asset with different symbol" ;;
  check (bool_decide (in_range (amount a - amount b))) "subtraction overflow" ;;
  Ok (Asset (amount a - amount b) (asset_symbol a)).

Definition ref_emplace {A} (t : gmap key A) (k : key) (v : A) : result (gmap key A) :=
  match t !! k with None => Ok (<[k := v]> t) | Some _ => Err "key already exists" end.
Definition ref_modify {A} (t : gmap key A) (k : key) (v : A) : result (gmap key A) :=
  match t !! k with Some _ => Ok (<[k := v]> t) | None => Err "cannot modify" end.
Definition ref_erase {A} (t : gmap key A) (k : key) : result (gmap key A) :=
  match t !! k with Some _ => Ok (delete k t) | None => Err "cannot erase" end.

Lemma check_bind {A} b msg (r : result A) a :
  (check b msg ;; r) = Ok a <-> b = true /\ r = Ok a.
Proof. destruct b; simpl; split; [auto | tauto | discriminate | intros [? _]; discriminate]. Qed.

#[export] Program Instance cdt_reference : Cdt := {|
  symbol_is_valid := ref_valid;
  symbol_code_is_valid := code_is_valid;
  symbol_code := pack_code;
  name_of := name_set;
  name_lit s := string_to_name (String.list_ascii_of_string s);
  time_plus t d := u32 (t + u32 d);
  asset_new := ref_asset;
  asset_is_valid a := bool_decide (in_range (amount a)) && ref_valid (asset_symbol a);
  asset_plus := ref_plus;
  asset_minus := ref_minus;
  cell := option;
  cell_empty _ := None;
  cell_get _ c := c;
  cell_set _ _ a := Some a;
  table := gmap key;
  table_empty _ := ∅;
  rows _ t := t;
  tbl_find _ t k := t !! k;
  emplace _ := ref_emplace;
  modify _ := ref_modify;
  erase _ := ref_erase |}.
Next Obligation. done. Qed.
Next Obligation.
  intros z s a. unfold ref_asset. rewrite !check_bind, bool_decide_eq_true, Ok_inj.
  naive_solver.
Qed.
Next Obligation. intros a. simpl. rewrite andb_true_iff, bool_decide_eq_true. done. Qed.
Next Obligation.
  intros a b c. unfold ref_plus. rewrite !check_bind, !bool_decide_eq_true, Ok_inj.
  naive_solver.
Qed.
Next Obligation.
  intros a b c. unfold ref_minus. rewrite !check_bind, !bool_decide_eq_true, Ok_inj.
  naive_solver.
Qed.
Next Obligation. done. Qed.
Next Obligation. done. Qed.
Next Obligation. done. Qed.
Next Obligation. done. Qed.
Next Obligation. intros A t k v. unfold ref_emplace. destruct (t !! k); naive_solver. Qed.
Next Obligation. intros A t t' k v. unfold ref_emplace. destruct (t !! k); naive_solver. Qed.
Next Obligation. intros A t k v. unfold ref_modify. destruct (t !! k); naive_solver. Qed.
Next Obligation. intros A t t' k v. unfold ref_modify. destruct (t !! k); naive_solver. Qed.
Next Obligation. intros A t k. unfold ref_erase. destruct (t !! k); naive_solver. Qed.
Next Obligation. intros A t t' k. unfold ref_erase. destruct (t !! k); naive_solver. Qed.

(** ** Concrete runs of the NFT contract *)

Definition str : string -> chars := String.list_ascii_of_string.
Definition nm (s : string) : name := name_lit s.

Definition contract_acct := nm "dreamoji".
Definition alice := nm "alice1111111".
Definition bob := nm "bob111111111".
Definition carol := nm "carol1111111".
Definition issuer_ := nm "issuer".

(** The action is authorised by [who] at second [t]; every account exists. *)
Definition by_ (who : name) (t : Z) : env :=
  mk_env contract_acct [who] (fun _ => true) t 0 (fun v => v).

Definition DREAM (prec : Z) : symbol := Symbol (pack_code (str "DREAM")) prec.
Definition hats := nm "hats".
Definition coins := nm "coins".
Definition gold := nm "gold".
Definition half : double := ddiv d_one (d_of_Z 2).

(** Instantiate; create the NFT kind hats:gold (half of each sale goes to
    [carol]) and the fungible kind coins:gold; issue three hats and 5.00 coins
    to [alice]. *)
Definition setup : list (env * action) :=
  [ (by_ contract_acct 1000, Instantiate (pack_code (str "DREAM")) (str "1.1"));
    (by_ issuer_ 1000, Create issuer_ carol hats gold false true true true half (str "u") 0
       (Asset 10 (DREAM 0)));
    (by_ issuer_ 1000, Create issuer_ carol coins gold true true true true d_zero (str "u") 0
       (Asset 100000 (DREAM 2)));
    (by_ issuer_ 1001, Issue alice hats gold (Asset 3 (DREAM 0)) (str "r") (str "m"));
    (by_ issuer_ 1001, Issue alice coins gold (Asset 500 (DREAM 2)) (str "r") (str "m"));
    (by_ alice 1002, Transferft alice bob coins gold (Asset 120 (DREAM 2)) (str "hi"));
    (by_ alice 1003, Transfernft alice bob [1]) ].

Definition ok_state (r : result state) : state := from_ok empty_state r.
Definition run_from_empty (script : list (env * action)) : state :=
  ok_state (run script empty_state).

Definition demo : state := run_from_empty setup.

(** The deployment is reachable, in as many actions as it has. *)
Lemma script_reachable script s :
  Forall (fun p => self p.1 = contract_acct /\ freed_intact p.1) script ->
  run script empty_state = Ok s -> reachable (defined_step contract_acct) (length script) s.
Proof.
  intros Hs H. rewrite <- (Nat.add_0_r (length script)).
  eapply run_reachable; [exact Hs | constructor | exact H].
Qed.

Lemma demo_reachable : reachable (defined_step contract_acct) 7 demo.
Proof.
  apply (script_reachable setup).
  - repeat constructor.
  - run_ok.
Qed.

(** 7 hats and coins transactions later, the books balance. *)
Lemma supply_conserved_witness :
  reachable (defined_step contract_acct) 7 demo /\
  supply_inv (rows (stats_t demo)) (rows (account_t demo)) (next_id demo).
Proof.
  split; [apply demo_reachable|]. apply (supply_conserved contract_acct 7); [|vm_compute; discriminate].
  apply demo_reachable.
Defined.

(** Burning the last hat erases the row of its kind, and then reads the number
    of the kind from that row.  When the freed memory reads 1, the number of the
    caps, it is the caps that alice pays with: two caps were issued, one is left
    in her account, and one hat, of a kind that is gone. *)
Definition caps := nm "caps".
Definition two_kinds : state := run_from_empty
  [ (by_ contract_acct 1000, Instantiate (pack_code (str "DREAM")) (str "1.1"));
    (by_ issuer_ 1000, Create issuer_ carol hats gold false true true true half (str "u") 0 (Asset 10 (DREAM 0)));
    (by_ issuer_ 1000, Create issuer_ carol caps gold false true true true half (str "u") 0 (Asset 10 (DREAM 0)));
    (by_ issuer_ 1001, Issue alice hats gold (Asset 1 (DREAM 0)) (str "r") (str "m"));
    (by_ issuer_ 1001, Issue alice caps gold (Asset 2 (DREAM 0)) (str "r") (str "m")) ].
Definition overwritten : env := with_freed (fun _ => 1) (by_ alice 1002).

Example burnout_charges_another :
  let s := ok_state (apply 2 overwritten (Burnnft alice [0]) two_kinds) in
  let balance id := (fun a => amount (acc_amount a)) <$> rows (account_t s) !! (alice, id) in
  (fun st => amount (current_supply st)) <$> rows (stats_t s) !! (caps, gold) = Some 2 /\ balance 1 = Some 1 /\
  rows (stats_t s) !! (hats, gold) = None /\ balance 0 = Some 1.
Proof. vm_compute. split_and!; reflexivity. Qed.

Definition owner_in (s : state) (id : Z) : option name :=
  dr_owner <$> (rows (dream_t s) !! (contract_acct, id)).

Definition after_transfer : state :=
  ok_state (transfernft 2 (by_ alice 1004) alice carol [0; 2] demo).


(** [bob] lists token 1; anybody may buy it for [carol]. *)
Definition list_it : action := Nftokensale bob [1] (Asset 10000 DRMI) 100.
Definition listed : state := ok_state (apply 2 (by_ bob 1010) list_it demo).
Definition sold : state :=
  ok_state (purchase_nft 2 (by_ alice 1020) alice carol (Asset 10000 DRMI) 1 listed).

Lemma purchase_settles_witness :
  exists ask fees, rows (ask_t listed) !! (contract_acct, 1) = Some ask /\
    amount (ask_amount ask) = 10000 /\ i64 (total fees) = 10000 /\
    rows (ask_t sold) !! (contract_acct, 1) = None.
Proof.
  assert (H : purchase_nft 2 (by_ alice 1020) alice carol (Asset 10000 DRMI) 1 listed = Ok sold)
    by run_ok.
  destruct (purchase_settles 2 (by_ alice 1020) alice carol (Asset 10000 DRMI) 1 listed sold
              ltac:(split; done) H)
    as (ask & fees & Hask & _ & Hamt & Htot & _ & _ & Hgone).
  exists ask, fees. auto.
Defined.

Lemma licences_unmanageable_witness :
  ~ can_extend (by_ alice 2000) alice demo /\ ~ can_revoke (by_ alice 2000) alice demo.
Proof.
  apply (licences_unmanageable contract_acct 7 demo (by_ alice 2000) alice).
  - apply defined_reachable, demo_reachable.
  - reflexivity.
  - intros H. vm_compute in H. discriminate H.
Defined.

Lemma token_identity_witness :
  step contract_acct demo listed /\ tokens_ok contract_acct demo /\ tokens_ok contract_acct listed.
Proof.
  assert (Hs : step contract_acct demo listed).
  { apply (step_apply _ 2 (by_ bob 1010) list_it); [reflexivity | run_ok]. }
  destruct (token_identity contract_acct 7 demo listed (defined_reachable _ _ _ demo_reachable) Hs
              ltac:(vm_compute; discriminate)) as (H & _ & H').
  auto.
Defined.

(** Nothing is linked in [demo]: one level of calls is enough. *)
Lemma changeowner_terminates_witness :
  ranked (by_ alice 1004) (fun _ => O) (rows (dream_t demo)) /\
  _changeowner 9 (by_ alice 1004) alice carol [0; 2] true demo =
  _changeowner 1 (by_ alice 1004) alice carol [0; 2] true demo.
Proof.
  assert (H : ranked (by_ alice 1004) (fun _ => O) (rows (dream_t demo))).
  { assert (Hc : map_Forall (fun _ d => dr_children d = []) (rows (dream_t demo))).
    { apply (bool_decide_unpack _). vm_cast_no_check I. }
    intros id d c Hd Hin. apply Hc in Hd. rewrite Hd in Hin. by apply not_elem_of_nil in Hin. }
  split; [exact H|].
  apply (changeowner_terminates (fun _ => O) 0 8 (by_ alice 1004) alice carol [0; 2] true demo H).
  intros; lia.
Defined.

(** ** Deviations from the documentation *)

Definition error_of (r : result state) : option string :=
  match r with Ok _ => None | Err m => Some m end.
Definition then_ (s : state) (who : name) (t : Z) (a : action) : state :=
  ok_state (apply 32 (by_ who t) a s).
Definition outcome (s : state) (who : name) (t : Z) (a : action) : option string :=
  error_of (apply 32 (by_ who t) a s).

Definition licence_by_stranger : action := License bob [carol] [0] 1000 false.
(** [license] does not ask who owns the token: [bob] licenses a token of
    [alice] to [carol], and [alice] can no longer transfer it. *)
Example stranger_locks_token :
  owner_in demo 0 = Some alice /\
  outcome demo bob 1100 licence_by_stranger = None /\
  outcome (then_ demo bob 1100 licence_by_stranger) alice 1101 (Transfernft alice carol [0])
    = Some "token locked, cannot transfer"%string.
Proof. split_and!; compute_run. Qed.

Definition linked : state :=
  then_ (then_ demo issuer_ 1005 (Issue alice hats gold (Asset 1 (DREAM 0)) (str "r") (str "m")))
    alice 1006 (Linknfts [2] 0 alice).
Definition unlinked_elsewhere : state := then_ linked bob 1007 (Unlinknfts [2] 1 bob).
Definition sold_child : state := then_ unlinked_elsewhere alice 1008 (Transfernft alice carol [2]).
Definition parent_moved : state := then_ sold_child alice 1009 (Transfernft alice bob [0]).
(** [unlinknfts] does not ask whether the token was linked to the named
    parent.  [alice] links 2 under 0; [bob] unlinks 2 "from" his own token 1;
    [alice] transfers 2 to [carol], then 0 to [bob]: 2, which nobody but
    [carol] owned any more, goes to [bob] with it. *)
Example sold_token_taken_back :
  outcome linked bob 1007 (Unlinknfts [2] 1 bob) = None /\
  owner_in sold_child 2 = Some carol /\
  outcome sold_child alice 1009 (Transfernft alice bob [0]) = None /\
  owner_in parent_moved 2 = Some bob.
Proof. split_and!; compute_run. Qed.

Definition burnt_child : state := then_ linked alice 1010 (Burnnft alice [2]).
(** A burnt child leaves its parent unusable: it can neither be transferred
    nor can the link be removed. *)
Example burnt_child_bricks_parent :
  outcome linked alice 1010 (Burnnft alice [2]) = None /\
  outcome burnt_child alice 1011 (Transfernft alice bob [0]) = Some "token does not exist"%string /\
  outcome burnt_child alice 1011 (Unlinknfts [2] 0 alice) = Some "Child NFT doesn't exist"%string.
Proof. split_and!; compute_run. Qed.

Lemma burnt_child_stuck : stuck_set (by_ alice 1011) (fun i => i = 0 \/ i = 2)
  (rows (dream_t burnt_child)).
Proof.
  intros i d [-> | ->] Hd; change (self (by_ alice 1011)) with contract_acct in Hd.
  - exists 2. split; [|auto].
    assert (Hc : (dr_children <$> rows (dream_t burnt_child) !! (contract_acct, 0)) = Some [2])
      by compute_run.
    rewrite Hd in Hc. injection Hc as ->. by left.
  - assert (Hn : (dr_children <$> rows (dream_t burnt_child) !! (contract_acct, 2)) = None)
      by compute_run.
    rewrite Hd in Hn. discriminate.
Qed.

Lemma changeowner_stuck_witness :
  _changeowner 7 (by_ alice 1011) alice bob [0] true burnt_child <> Ok burnt_child.
Proof.
  apply (changeowner_stuck (fun i => i = 0 \/ i = 2) 7 (by_ alice 1011) alice bob [0] true
           burnt_child burnt_child 0).
  - apply burnt_child_stuck.
  - auto.
  - by left.
Defined.

Definition serial_in (s : state) (id : Z) : option Z :=
  dr_serial_number <$> (rows (dream_t s) !! (contract_acct, id)).
Definition reissued : state :=
  then_ (then_ demo alice 1010 (Burnnft alice [0])) issuer_ 1011
    (Issue alice hats gold (Asset 1 (DREAM 0)) (str "r") (str "m")).
(** [burnnft] lowers [issued_supply], from which serial numbers are drawn:
    after a burn two tokens of one kind share a serial number. *)
Example duplicate_serial_numbers :
  serial_in reissued 2 = Some 3 /\ serial_in reissued 3 = Some 3.
Proof. split_and!; compute_run. Qed.

(** The messages promise a minimum price of 0.02 DRMI; exactly that price is
    refused. *)
Example minimum_price_excluded :
  outcome demo bob 1010 (Nftokensale bob [1] (Asset 200 DRMI) 100)
    = Some "minimum price of at least 0.02 DRMI"%string /\
  outcome demo bob 1010 (Nftokensale bob [1] (Asset 201 DRMI) 100) = None.
Proof. split_and!; compute_run. Qed.

Definition both_listed : state :=
  then_ listed bob 1011 (Licencesale bob (Asset 10000 DRMI) [1] 3 100 100).
Definition licence_sale_ended : state := then_ both_listed bob 1012 (Endlcncsale bob 1).
(** Ending a licence sale removes the lock of a token that is also listed for
    sale: the listing can then neither be bought nor ended. *)
Example listing_left_without_lock :
  outcome both_listed bob 1012 (Endlcncsale bob 1) = None /\
  outcome licence_sale_ended bob 1013 (Endnftsale bob 1) = Some "nft not found in lock table"%string /\
  outcome licence_sale_ended alice 1013
    (TransferOf (nm "eosio.token") alice contract_acct (Asset 10000 DRMI) (str "n,carol1111111,1"))
    = Some "dreamoji not found in lock table"%string.
Proof. split_and!; compute_run. Qed.
