(* ===== verification/Accumulator.v ===== *)
(** * The usage accumulator ([resource_limits_private.hpp])

    An exponential moving average over a window of ordinals, kept as an
    integer scaled by [rate_limiting_precision]. *)

From stdpp Require Import base numbers list strings.
From Stdlib Require Import ZArith Lia.
From S2P Require Import Prelude.
Local Open Scope Z_scope.

(** [ratio<uint64_t>] *)
Record ratio := mk_ratio { numerator : Z; denominator : Z }.
#[export] Instance ratio_eq_dec : EqDecision ratio.
Proof. solve_decision. Defined.

(** [operator*(uint64_t, ratio<uint64_t>)] *)
Definition ratio_mul (value : Z) (r : ratio) : result Z :=
  check ((numerator r =? 0) || (UINT64_MAX / numerator r >=? value))
    "Usage exceeds maximum value representable after extending for precision" ;;
  Ok (u64 (value * numerator r) / denominator r).

Definition integer_divide_ceil (num den : Z) : Z :=
  num / den + (if num mod den >? 0 then 1 else 0).

(** [downgrade_cast<LesserIntType>] from an unsigned type; [max] is the
    largest value of the lesser type. *)
Definition downgrade_cast (max val : Z) : result Z :=
  check ((val >=? 0) && (val <=? max))
    "Casting a higher bit integer value to a lower bit integer value which cannot contain the value" ;;
  Ok val.

(** [config::rate_limiting_precision] *)
Definition Precision : Z := 1000 * 1000.
Definition max_raw_value : Z := UINT64_MAX / Precision.

Record usage_accumulator := mk_acc { last_ordinal : Z; value_ex : Z; consumed : Z }.
Definition acc_init : usage_accumulator := mk_acc 0 0 0.

Definition average (a : usage_accumulator) : Z := integer_divide_ceil (value_ex a) Precision.

Definition acc_add (a : usage_accumulator) (units ordinal window_size : Z)
    : result usage_accumulator :=
  check (units <=? max_raw_value)
    "Usage exceeds maximum value representable after extending for precision" ;;
  check (UINT64_MAX - consumed a >=? units) "Overflow in tracked usage when adding usage!" ;;
  value_ex_contrib ← downgrade_cast UINT64_MAX
    (integer_divide_ceil (u128 (units * Precision)) window_size);
  check (UINT64_MAX - value_ex a >=? value_ex_contrib)
    "Overflow in accumulated value when adding usage!" ;;
  a ← (if last_ordinal a =? ordinal then Ok a
       else
         check (ordinal >? last_ordinal a) "new ordinal cannot be less than the previous ordinal" ;;
         v ← (if last_ordinal a + window_size >? ordinal then
                let delta := ordinal - last_ordinal a in
                ratio_mul (value_ex a) (mk_ratio (window_size - delta) window_size)
              else Ok 0);
         Ok (mk_acc ordinal v (integer_divide_ceil v Precision)));
  Ok (mk_acc (last_ordinal a) (u64 (value_ex a + value_ex_contrib)) (u64 (consumed a + units))).

Lemma max_raw_value_eq : max_raw_value = 18446744073709.
Proof. reflexivity. Qed.

(** ** Rounding *)

Lemma divide_ceil_spec num den : 0 < den ->
  num <= den * integer_divide_ceil num den < num + den.
Proof.
  intros Hd. unfold integer_divide_ceil. pose proof (Z.div_mod num den ltac:(lia)).
  pose proof (Z.mod_pos_bound num den Hd). destruct (_ >? 0) eqn:E; lia.
Qed.

Lemma divide_ceil_nonneg num den : 0 <= num -> 0 < den -> 0 <= integer_divide_ceil num den.
Proof. intros Hn Hd. pose proof (divide_ceil_spec num den Hd). nia. Qed.

Lemma divide_ceil_le num den b : 0 < den -> num <= den * b -> integer_divide_ceil num den <= b.
Proof. intros Hd H. pose proof (divide_ceil_spec num den Hd). nia. Qed.

(** ** What an accumulation does *)

Definition acc_ok (a : usage_accumulator) : Prop :=
  is_u32 (last_ordinal a) /\ is_u64 (value_ex a) /\ is_u64 (consumed a).

(** The contribution of [units] to the scaled average. *)
Definition contrib (units window : Z) : Z := integer_divide_ceil (units * Precision) window.

(** The scaled average carried over to [ordinal]. *)
Definition decayed (a : usage_accumulator) (ordinal window : Z) : Z :=
  if last_ordinal a =? ordinal then value_ex a
  else if last_ordinal a + window >? ordinal
       then value_ex a * (window - (ordinal - last_ordinal a)) / window
       else 0.

(** The usage carried over to [ordinal]. *)
Definition carried (a : usage_accumulator) (ordinal window : Z) : Z :=
  if last_ordinal a =? ordinal then consumed a
  else integer_divide_ceil (decayed a ordinal window) Precision.

Lemma decayed_range a ordinal window : 0 <= value_ex a -> 0 < window -> last_ordinal a <= ordinal ->
  0 <= decayed a ordinal window <= value_ex a.
Proof.
  intros Hv Hw Ho. unfold decayed. destruct (_ =? _) eqn:E; [lia|]. destruct (_ >? _) eqn:E2; [|lia].
  split; [apply Z.div_pos; nia|]. apply Z.div_le_upper_bound; nia.
Qed.

Lemma downgrade_cast_ok max val r : downgrade_cast max val = Ok r <-> r = val /\ 0 <= val <= max.
Proof.
  unfold downgrade_cast. split.
  - intros H. ok_inv. lia.
  - intros [-> Hb]. replace ((val >=? 0) && (val <=? max)) with true; [done|].
    symmetry. rewrite andb_true_iff. lia.
Qed.

Lemma ratio_mul_ok v r x : 0 <= v -> 0 <= numerator r -> ratio_mul v r = Ok x ->
  x = v * numerator r / denominator r /\ v * numerator r <= UINT64_MAX.
Proof.
  unfold ratio_mul. intros Hv Hn H. ok_bind H as ? Hc. apply (proj1 (Ok_inj _ _)) in H. subst x.
  apply (proj1 (check_ok _ _ _)) in Hc. apply orb_true_iff in Hc.
  assert (Hb : v * numerator r <= UINT64_MAX).
  { destruct Hc as [Hc|Hc]; [assert (numerator r = 0) as -> by lia; unfold UINT64_MAX; lia|].
    destruct (decide (numerator r = 0)) as [->|]; [unfold UINT64_MAX; lia|].
    pose proof (Z.mul_div_le UINT64_MAX (numerator r) ltac:(lia)). nia. }
  split; [|done]. rewrite u64_small; [done|]. unfold is_u64, UINT64_MAX in *. nia.
Qed.

(** [acc_add] computes the decayed average plus the contribution, exactly: a
    successful accumulation never wraps. *)
Lemma acc_add_spec a units ordinal window a' :
  acc_ok a -> is_u64 units -> is_u32 ordinal -> 0 < window < 2 ^ 32 ->
  acc_add a units ordinal window = Ok a' ->
  last_ordinal a <= ordinal /\ last_ordinal a' = ordinal /\
  value_ex a' = decayed a ordinal window + contrib units window /\
  consumed a' = carried a ordinal window + units /\ acc_ok a'.
Proof.
  intros (Hl & Hv & Hc) Hu Ho Hw H. unfold acc_add in H. ok_bind H as ? Hmax. ok_bind H as ? Hcons.
  ok_bind H as c Hctr. ok_bind H as ? Hover. ok_bind H as a1 Ha1.
  apply (proj1 (downgrade_cast_ok _ _ _)) in Hctr as [Ec Hcb].
  rewrite u128_small in Ec, Hcb by (unfold is_u128, is_u64, Precision in *; lia).
  apply (proj1 (Ok_inj _ _)) in H. apply (proj1 (check_ok _ _ _)) in Hover, Hcons, Hmax.
  assert (Hcc : c = contrib units window) by done.
  assert (Hd : last_ordinal a <= ordinal /\ last_ordinal a1 = ordinal /\
    value_ex a1 = decayed a ordinal window /\ consumed a1 = carried a ordinal window /\
    is_u64 (consumed a1 + units)).
  { unfold carried, decayed. destruct (last_ordinal a =? ordinal) eqn:E.
    - ok_inv. subst a1. split_and!; [lia|lia|done|done|]. unfold is_u64, UINT64_MAX in *. lia.
    - ok_bind Ha1 as ? Hgt. apply (proj1 (check_ok _ _ _)) in Hgt. ok_bind Ha1 as v Hval.
      apply (proj1 (Ok_inj _ _)) in Ha1. subst a1. simpl.
      assert (Hvv : v = (if last_ordinal a + window >? ordinal
        then value_ex a * (window - (ordinal - last_ordinal a)) / window else 0) /\ 0 <= v <= value_ex a).
      { destruct (_ >? ordinal) eqn:E2; [|ok_inv; subst v; unfold is_u64 in *; lia].
        apply ratio_mul_ok in Hval as [Hval _]; simpl in *; [|unfold is_u64 in *; lia..].
        split; [done|]. subst v. unfold is_u64 in *.
        split; [apply Z.div_pos; nia | apply Z.div_le_upper_bound; nia]. }
      destruct Hvv as [Hvv Hvb]. split_and!; [lia|done|done|by rewrite Hvv|].
      assert (0 <= integer_divide_ceil v Precision) by (apply divide_ceil_nonneg; unfold Precision; lia).
      assert (integer_divide_ceil v Precision <= 2 ^ 63).
      { apply divide_ceil_le; unfold Precision, is_u64 in *; lia. }
      rewrite max_raw_value_eq in Hmax. unfold is_u64 in *. lia. }
  destruct Hd as (? & E1 & E2 & E3 & Hcons1). subst a'. simpl.
  assert (Hr : 0 <= decayed a ordinal window <= value_ex a)
    by (apply decayed_range; unfold is_u64 in *; lia).
  assert (is_u64 (value_ex a1 + c)) by (unfold is_u64, UINT64_MAX in *; lia).
  rewrite (u64_small (value_ex a1 + c)) by done. rewrite u64_small by done.
  split_and!; [done|done|congruence|congruence|]. repeat split; unfold is_u32, is_u64 in *; simpl; lia.
Qed.

(** ** Runs of accumulations *)

(** The largest scaled average that a usage of at most [U] per ordinal builds
    up in a window of [w]. *)
Definition acc_bound (U w : Z) : Z := U * Precision + w.

Definition acc_small (U w : Z) (a : usage_accumulator) : Prop :=
  acc_ok a /\ value_ex a <= acc_bound U w /\ consumed a <= acc_bound U w.

Lemma decay_step B v w d : 0 <= v <= B -> 1 <= d -> 0 < w -> 0 <= w - d ->
  w * (v * (w - d) / w) <= B * w - B.
Proof.
  intros Hv Hd Hw Hwd. pose proof (Z.mul_div_le (v * (w - d)) w Hw).
  assert (v * (w - d) <= v * (w - 1)) by nia. assert (v * (w - 1) <= B * (w - 1)) by nia. lia.
Qed.

Lemma contrib_bound U units w : 0 <= units <= U -> 0 < w ->
  w * contrib units w < acc_bound U w /\ 0 <= contrib units w.
Proof.
  intros Hu Hw. unfold contrib, acc_bound.
  pose proof (divide_ceil_spec (units * Precision) w Hw).
  assert (0 <= Precision) by (unfold Precision; lia).
  split; [nia|]. apply divide_ceil_nonneg; [nia|done].
Qed.

(** Totality: none of the four assertions of [add] can fail. *)
Lemma acc_add_total U w a units ordinal :
  acc_small U w a -> 0 <= units <= U -> last_ordinal a < ordinal -> is_u32 ordinal -> 0 < w < 2 ^ 32 ->
  acc_bound U w * w <= UINT64_MAX -> 2 * acc_bound U w <= UINT64_MAX ->
  exists a', acc_add a units ordinal w = Ok a'.
Proof.
  intros ((Hl & Hv & Hc) & Hvb & Hcb) Hu Ho Ho2 Hw HB1 HB2.
  destruct (contrib_bound U units w Hu) as [Hct Hct0]; [lia|].
  assert (Hct1 : contrib units w <= acc_bound U w) by nia.
  assert (HU : 0 <= U /\ U * Precision <= acc_bound U w) by (unfold acc_bound; lia).
  assert (HP : units <= U * Precision) by (unfold Precision; lia).
  unfold acc_add.
  apply run_check.
  { apply Z.leb_le. unfold max_raw_value. apply Z.div_le_lower_bound; [done|].
    unfold Precision, UINT64_MAX in *. lia. }
  apply run_check; [apply Z.geb_le; lia|].
  rewrite u128_small by (unfold is_u128, Precision, UINT64_MAX in *; lia).
  eapply run_bind; [apply downgrade_cast_ok; split; [reflexivity|]; unfold contrib in *; lia|].
  apply run_check; [apply Z.geb_le; unfold contrib in *; lia|].
  replace (last_ordinal a =? ordinal) with false by lia.
  assert (Hdec : exists v, (if last_ordinal a + w >? ordinal
    then ratio_mul (value_ex a) (mk_ratio (w - (ordinal - last_ordinal a)) w) else Ok 0) = Ok v).
  { destruct (_ >? ordinal) eqn:E; [|eauto]. unfold ratio_mul. apply run_check; [|eauto]. simpl.
    apply orb_true_iff. right. apply Z.geb_le. apply Z.div_le_lower_bound; [lia|].
    unfold is_u64 in *. nia. }
  destruct Hdec as [v Hdec]. eapply run_bind; [|eauto].
  replace (ordinal >? last_ordinal a) with true by lia. cbn [check mbind result_bind].
  by rewrite Hdec.
Qed.

(** One accumulation per ordinal, of at most [U] units. *)
Fixpoint acc_run (w : Z) (a : usage_accumulator) (l : list (Z * Z)) : result usage_accumulator :=
  match l with
  | [] => Ok a
  | (ordinal, units) :: l => a ← acc_add a units ordinal w; acc_run w a l
  end.

Fixpoint ordered_inputs (U prev : Z) (l : list (Z * Z)) : Prop :=
  match l with
  | [] => True
  | (ordinal, units) :: l =>
    prev < ordinal /\ is_u32 ordinal /\ 0 <= units <= U /\ ordered_inputs U ordinal l
  end.

Lemma acc_add_small U w a units ordinal a' :
  acc_small U w a -> 0 <= units <= U -> last_ordinal a < ordinal -> is_u32 ordinal -> 0 < w < 2 ^ 32 ->
  2 * acc_bound U w <= UINT64_MAX -> acc_add a units ordinal w = Ok a' ->
  acc_small U w a' /\ last_ordinal a' = ordinal.
Proof.
  intros (Hok & Hvb & Hcb) Hu Ho Ho2 Hw HB H.
  assert (Hu64 : is_u64 units) by (unfold acc_bound, Precision, is_u64, UINT64_MAX in *; lia).
  destruct (acc_add_spec _ _ _ _ _ Hok Hu64 Ho2 Hw H) as (_ & El & Ev & Ec & Hok').
  split; [|done]. split; [done|]. destruct (contrib_bound U units w Hu) as [Hct Hct0]; [lia|].
  destruct Hok as (Hl & Hv & Hc). rewrite Ev, Ec. unfold carried.
  replace (last_ordinal a =? ordinal) with false by lia.
  assert (Hd : 0 <= decayed a ordinal w <= value_ex a) by (apply decayed_range; unfold is_u64 in *; lia).
  split.
  - assert (w * decayed a ordinal w <= acc_bound U w * w - acc_bound U w).
    { unfold decayed. replace (last_ordinal a =? ordinal) with false by lia.
      destruct (_ >? ordinal) eqn:E; [|unfold acc_bound, Precision in *; nia].
      apply decay_step; unfold is_u64 in *; lia. }
    nia.
  - assert (integer_divide_ceil (decayed a ordinal w) Precision <= acc_bound U w - U); [|lia].
    apply divide_ceil_le; [done|]. unfold acc_bound, Precision in *. nia.
Qed.

(** Under a per-ordinal usage of at most [U] the accumulator never fails and
    its average never exceeds [U] by more than the rounding of one window:
    [acc_add] can be called for every block of the chain. *)
Theorem acc_run_bounded U w a l :
  0 < w < 2 ^ 32 -> acc_bound U w * w <= UINT64_MAX -> 2 * acc_bound U w <= UINT64_MAX ->
  acc_small U w a -> ordered_inputs U (last_ordinal a) l ->
  exists a', acc_run w a l = Ok a' /\ value_ex a' <= acc_bound U w /\
             average a' <= U + integer_divide_ceil w Precision.
Proof.
  intros Hw HB1 HB2. revert a. induction l as [|[o u] l IH]; intros a Ha Hl.
  - exists a. split; [done|]. destruct Ha as (_ & Hv & _). split; [done|].
    unfold average. apply divide_ceil_le; [done|].
    pose proof (divide_ceil_spec w Precision ltac:(done)). unfold acc_bound in Hv. lia.
  - destruct Hl as (Ho & Ho2 & Hu & Hl). simpl.
    destruct (acc_add_total U w a u o) as [a1 H1]; try done.
    destruct (acc_add_small U w a u o a1) as [Ha1 El]; try done.
    destruct (IH a1 Ha1) as (a' & Hrun & Hb); [by rewrite El|]. exists a'. by rewrite H1.
Qed.

(** The CPU window of the default parameters: 120 blocks of 200 ms each. *)
Lemma acc_run_bounded_witness :
  exists a', acc_run 120 acc_init [(1, 200000); (2, 150000); (7, 200000)] = Ok a' /\
    average a' <= 200000 + 1.
Proof.
  destruct (acc_run_bounded 200000 120 acc_init [(1, 200000); (2, 150000); (7, 200000)])
    as (a' & H & _ & Hav).
  - split; reflexivity.
  - vm_compute. discriminate.
  - vm_compute. discriminate.
  - split; [repeat split; vm_compute; congruence | split; vm_compute; discriminate].
  - simpl. repeat split; vm_compute; congruence.
  - exists a'. split; [exact H | exact Hav].
Defined.
