(* ===== verification/ResourceLimits.v ===== *)
(** * CPU, NET and RAM limits ([resource_limits.cpp], [resource_limits.hpp],
    [resource_limits_private.hpp])

    The resource limits manager over its part of the database.  The by_owner
    index of the limits is the key (pending, owner); an [Err] is a thrown
    exception, upon which the database session is undone. *)

From stdpp Require Import base numbers list gmap strings sorting.
From Stdlib Require Import ZArith Lia.
From S2P Require Import Prelude Accumulator.
Local Open Scope Z_scope.

Abbreviation account_name := Z (only parsing).

Record elastic_limit_parameters := mk_elastic {
  target : Z; max : Z; periods : Z; max_multiplier : Z;
  contract_rate : ratio; expand_rate : ratio }.
#[export] Instance elastic_eq_dec : EqDecision elastic_limit_parameters.
Proof. solve_decision. Defined.

Definition validate (p : elastic_limit_parameters) : result unit :=
  check (periods p >? 0) "elastic limit parameter 'periods' cannot be zero" ;;
  check (denominator (contract_rate p) >? 0)
    "elastic limit parameter 'contract_rate' is not a well-defined ratio" ;;
  check (denominator (expand_rate p) >? 0)
    "elastic limit parameter 'expand_rate' is not a well-defined ratio".

Definition update_elastic_limit (current_limit average_usage : Z) (params : elastic_limit_parameters)
    : result Z :=
  result ← (if average_usage >? target params then ratio_mul current_limit (contract_rate params)
            else ratio_mul current_limit (expand_rate params));
  Ok (Z.min (Z.max result (max params)) (u64 (max params * max_multiplier params))).

(** ** Database objects *)

Record resource_limits_object := mk_limits {
  rl_owner : account_name; rl_pending : bool; net_weight : Z; cpu_weight : Z; ram_bytes : Z }.

Record resource_usage_object := mk_usage {
  ru_owner : account_name; net_usage : usage_accumulator; cpu_usage : usage_accumulator;
  ram_usage : Z }.

Record resource_limits_config_object := mk_config {
  cpu_limit_parameters : elastic_limit_parameters;
  net_limit_parameters : elastic_limit_parameters;
  account_cpu_usage_average_window : Z; account_net_usage_average_window : Z }.

Record resource_limits_state_object := mk_rstate {
  average_block_net_usage : usage_accumulator; average_block_cpu_usage : usage_accumulator;
  pending_net_usage : Z; pending_cpu_usage : Z;
  total_net_weight : Z; total_cpu_weight : Z; total_ram_bytes : Z;
  virtual_net_limit : Z; virtual_cpu_limit : Z }.

(** The manager's part of the database.  Configuration and state are read as
    the object with id 0, the first one created. *)
Record rdb := mk_rdb {
  limits : gmap (bool * account_name) resource_limits_object;
  usages : gmap account_name resource_usage_object;
  config : option resource_limits_config_object;
  rstate : option resource_limits_state_object }.

Definition rdb_empty : rdb := mk_rdb ∅ ∅ None None.

Definition get_config (db : rdb) : result resource_limits_config_object :=
  of_option (config db) "unable to find resource_limits_config_object".
Definition get_state (db : rdb) : result resource_limits_state_object :=
  of_option (rstate db) "unable to find resource_limits_state_object".
Definition get_usage (db : rdb) (a : account_name) : result resource_usage_object :=
  of_option (usages db !! a) "unable to find resource_usage_object".
Definition get_limits (db : rdb) (k : bool * account_name) : result resource_limits_object :=
  of_option (limits db !! k) "unable to find resource_limits_object".

Definition set_limits (db : rdb) l := mk_rdb l (usages db) (config db) (rstate db).
Definition set_usages (db : rdb) u := mk_rdb (limits db) u (config db) (rstate db).
Definition set_config (db : rdb) c := mk_rdb (limits db) (usages db) (Some c) (rstate db).
Definition set_state (db : rdb) s := mk_rdb (limits db) (usages db) (config db) (Some s).

(** ** Defaults ([config.hpp]) *)

Definition percent_100 : Z := 10000.
Definition percent_1 : Z := 100.
Definition EOS_PERCENT (value percentage : Z) : Z := u64 (value * percentage) / percent_100.

Definition block_interval_ms : Z := 500.
Definition default_max_block_cpu_usage : Z := 200000.
Definition default_max_block_net_usage : Z := 1024 * 1024.
Definition default_target_pct : Z := 10 * percent_1.
Definition block_window : Z := 60 * 1000 / block_interval_ms.
Definition account_window : Z := 24 * 60 * 60 * 1000 / block_interval_ms.

Definition default_parameters (max_usage : Z) : elastic_limit_parameters :=
  mk_elastic (EOS_PERCENT max_usage default_target_pct) max_usage block_window 1000
    (mk_ratio 99 100) (mk_ratio 1000 999).

Definition default_config : resource_limits_config_object :=
  mk_config (default_parameters default_max_block_cpu_usage)
    (default_parameters default_max_block_net_usage) account_window account_window.

(** ** Operations *)

(** A second configuration object is not the one that is read. *)
Definition initialize_database (db : rdb) : rdb :=
  mk_rdb (limits db) (usages db)
    (Some (match config db with Some c => c | None => default_config end))
    (Some (match rstate db with
           | Some s => s
           | None => mk_rstate acc_init acc_init 0 0 0 0 0
                       (max (net_limit_parameters default_config))
                       (max (cpu_limit_parameters default_config))
           end)).

Definition initialize_account (account : account_name) (db : rdb) : result rdb :=
  check (bool_decide (limits db !! (false, account) = None)) "could not insert object" ;;
  check (bool_decide (usages db !! account = None)) "could not insert object" ;;
  Ok (set_usages
        (set_limits db (<[(false, account) := mk_limits account false (-1) (-1) (-1)]> (limits db)))
        (<[account := mk_usage account acc_init acc_init 0]> (usages db))).

Definition set_block_parameters (cpu net : elastic_limit_parameters) (db : rdb) : result rdb :=
  validate cpu ;; validate net ;;
  config ← get_config db;
  if bool_decide (cpu_limit_parameters config = cpu) && bool_decide (net_limit_parameters config = net)
  then Ok db
  else Ok (set_config db (mk_config cpu net (account_cpu_usage_average_window config)
             (account_net_usage_average_window config))).

Definition update_account_usage (accounts : list account_name) (time_slot : Z) (db : rdb)
    : result rdb :=
  config ← get_config db;
  mfold (fun db a =>
    usage ← get_usage db a;
    n ← acc_add (net_usage usage) 0 time_slot (account_net_usage_average_window config);
    c ← acc_add (cpu_usage usage) 0 time_slot (account_cpu_usage_average_window config);
    Ok (set_usages db (<[a := mk_usage (ru_owner usage) n c (ram_usage usage)]> (usages db))))
  accounts db.

(** (ram_bytes, net_weight, cpu_weight) *)
Definition get_account_limits (db : rdb) (account : account_name) : result (Z * Z * Z) :=
  match limits db !! (true, account) with
  | Some p => Ok (ram_bytes p, net_weight p, cpu_weight p)
  | None => buo ← get_limits db (false, account);
            Ok (ram_bytes buo, net_weight buo, cpu_weight buo)
  end.

(** The test of a scaled average against an account's share of the virtual
    limit over the window; CPU and NET are tested alike. *)
Definition within_share (virtual_limit window_size value_ex weight total : Z) : bool :=
  let virtual_network_capacity_in_window := u128 (virtual_limit * window_size) in
  let used_in_window := u128 (value_ex * window_size) / Precision in
  let max_user_use_in_window := u128 (virtual_network_capacity_in_window * weight) / total in
  used_in_window <=? max_user_use_in_window.

(** One iteration of the loop of [add_transaction_usage]. *)
Definition charge_account (config : resource_limits_config_object)
    (state : resource_limits_state_object) (cpu net time_slot : Z) (db : rdb) (a : account_name)
    : result rdb :=
  usage ← get_usage db a;
  '(_, net_w, cpu_w) ← get_account_limits db a;
  n ← acc_add (net_usage usage) net time_slot (account_net_usage_average_window config);
  c ← acc_add (cpu_usage usage) cpu time_slot (account_cpu_usage_average_window config);
  let db := set_usages db (<[a := mk_usage (ru_owner usage) n c (ram_usage usage)]> (usages db)) in
  (if (cpu_w >=? 0) && (total_cpu_weight state >? 0) then
     check (within_share (virtual_cpu_limit state) (account_cpu_usage_average_window config)
              (value_ex c) cpu_w (total_cpu_weight state))
       "authorizing account has insufficient cpu resources for this transaction"
   else Ok tt) ;;
  (if (net_w >=? 0) && (total_net_weight state >? 0) then
     check (within_share (virtual_net_limit state) (account_net_usage_average_window config)
              (value_ex n) net_w (total_net_weight state))
       "authorizing account has insufficient net resources for this transaction"
   else Ok tt) ;;
  Ok db.

Definition add_pending (s : resource_limits_state_object) (cpu net : Z) : resource_limits_state_object :=
  mk_rstate (average_block_net_usage s) (average_block_cpu_usage s)
    (u64 (pending_net_usage s + net)) (u64 (pending_cpu_usage s + cpu))
    (total_net_weight s) (total_cpu_weight s) (total_ram_bytes s)
    (virtual_net_limit s) (virtual_cpu_limit s).

Definition add_transaction_usage (accounts : list account_name) (cpu net time_slot : Z) (db : rdb)
    : result rdb :=
  state ← get_state db;
  config ← get_config db;
  db ← mfold (charge_account config state cpu net time_slot) accounts db;
  let state := add_pending state cpu net in
  check (pending_cpu_usage state <=? max (cpu_limit_parameters config))
    "Block has insufficient cpu resources" ;;
  check (pending_net_usage state <=? max (net_limit_parameters config))
    "Block has insufficient net resources" ;;
  Ok (set_state db state).

Definition add_pending_ram_usage (account : account_name) (ram_delta : Z) (db : rdb) : result rdb :=
  if ram_delta =? 0 then Ok db
  else
    usage ← get_usage db account;
    check ((ram_delta <=? 0) || (UINT64_MAX - ram_usage usage >=? u64 ram_delta))
      "Ram usage delta would overflow UINT64_MAX" ;;
    check ((ram_delta >=? 0) || (ram_usage usage >=? u64 (i64 (- ram_delta))))
      "Ram usage delta would underflow UINT64_MAX" ;;
    Ok (set_usages db (<[account := mk_usage (ru_owner usage) (net_usage usage) (cpu_usage usage)
                                      (u64 (ram_usage usage + ram_delta))]> (usages db))).

Definition verify_account_ram_usage (db : rdb) (account : account_name) : result unit :=
  '(ram, _, _) ← get_account_limits db account;
  usage ← get_usage db account;
  if ram >=? 0 then check (ram_usage usage <=? u64 ram) "account has insufficient ram" else Ok tt.

Definition get_account_ram_usage (db : rdb) (account : account_name) : result Z :=
  usage ← get_usage db account; Ok (i64 (ram_usage usage)).

Definition set_account_limits (account : account_name) (ram net cpu : Z) (db : rdb)
    : result (bool * rdb) :=
  lim ← (match limits db !! (true, account) with
         | Some p => Ok p
         | None => l ← get_limits db (false, account);
                   Ok (mk_limits (rl_owner l) true (net_weight l) (cpu_weight l) (ram_bytes l))
         end);
  let decreased_limit := (ram >=? 0) && ((ram_bytes lim <? 0) || (ram <? ram_bytes lim)) in
  Ok (decreased_limit,
      set_limits db (<[(true, account) := mk_limits (rl_owner lim) true net cpu ram]> (limits db))).

(** [update_state_and_value]: the new total and value. *)
Definition update_state_and_value (total value pending_value : Z) : result (Z * Z) :=
  total ← (if value >? 0 then
             check (total >=? u64 value) "underflow when reverting old value" ;;
             Ok (u64 (total - value))
           else Ok total);
  total ← (if pending_value >? 0 then
             check (UINT64_MAX - total >=? u64 pending_value) "overflow when applying new value" ;;
             Ok (u64 (total + pending_value))
           else Ok total);
  Ok (total, pending_value).

(** The owners of pending limits in the order of the by_owner index; its
    first entry at or after (true) is the head. *)
Definition pending_owners (m : gmap (bool * account_name) resource_limits_object) : list account_name :=
  merge_sort Z.le (omap (fun kv : (bool * account_name) * resource_limits_object =>
                           if kv.1.1 then Some kv.1.2 else None) (map_to_list m)).

(** One iteration of the loop for the pending entry [o]. *)
Definition process_one (o : account_name) (rso : resource_limits_state_object) (db : rdb)
    : result (resource_limits_state_object * rdb) :=
  p ← get_limits db (true, o);
  actual_entry ← get_limits db (false, o);
  '(tram, ram) ← update_state_and_value (total_ram_bytes rso) (ram_bytes actual_entry) (ram_bytes p);
  '(tcpu, cpu) ← update_state_and_value (total_cpu_weight rso) (cpu_weight actual_entry) (cpu_weight p);
  '(tnet, net) ← update_state_and_value (total_net_weight rso) (net_weight actual_entry) (net_weight p);
  Ok (mk_rstate (average_block_net_usage rso) (average_block_cpu_usage rso)
        (pending_net_usage rso) (pending_cpu_usage rso) tnet tcpu tram
        (virtual_net_limit rso) (virtual_cpu_limit rso),
      set_limits db (delete (true, o)
        (<[(false, o) := mk_limits (rl_owner actual_entry) (rl_pending actual_entry) net cpu ram]>
           (limits db)))).

(** Each iteration removes a pending entry: their number bounds the loop. *)
Fixpoint process_loop (fuel : nat) (rso : resource_limits_state_object) (db : rdb)
    : result (resource_limits_state_object * rdb) :=
  match pending_owners (limits db) with
  | [] => Ok (rso, db)
  | o :: _ =>
    match fuel with
    | O => Err "out of fuel"
    | S fuel => '(rso, db) ← process_one o rso db; process_loop fuel rso db
    end
  end.

Definition process_account_limit_updates (db : rdb) : result rdb :=
  state ← get_state db;
  '(rso, db) ← process_loop (length (pending_owners (limits db))) state db;
  Ok (set_state db rso).

Definition process_block_usage (block_num : Z) (db : rdb) : result rdb :=
  s ← get_state db;
  config ← get_config db;
  cpu_avg ← acc_add (average_block_cpu_usage s) (pending_cpu_usage s) block_num
              (periods (cpu_limit_parameters config));
  vcpu ← update_elastic_limit (virtual_cpu_limit s) (average cpu_avg) (cpu_limit_parameters config);
  net_avg ← acc_add (average_block_net_usage s) (pending_net_usage s) block_num
              (periods (net_limit_parameters config));
  vnet ← update_elastic_limit (virtual_net_limit s) (average net_avg) (net_limit_parameters config);
  Ok (set_state db (mk_rstate net_avg cpu_avg 0 0 (total_net_weight s) (total_cpu_weight s)
                      (total_ram_bytes s) vnet vcpu)).

(** ** Accessors *)

Definition get_virtual_block_cpu_limit (db : rdb) : result Z := virtual_cpu_limit <$> get_state db.
Definition get_virtual_block_net_limit (db : rdb) : result Z := virtual_net_limit <$> get_state db.
Definition get_block_cpu_limit (db : rdb) : result Z :=
  state ← get_state db; config ← get_config db;
  Ok (u64 (max (cpu_limit_parameters config) - pending_cpu_usage state)).
Definition get_block_net_limit (db : rdb) : result Z :=
  state ← get_state db; config ← get_config db;
  Ok (u64 (max (net_limit_parameters config) - pending_net_usage state)).

Record account_resource_limit := mk_arl { used : Z; available : Z; arl_max : Z }.

(** The common body of [get_account_cpu_limit_ex] and [get_account_net_limit_ex]. *)
Definition limit_ex (params_max virtual_limit window_size value_ex weight total greylist_limit : Z)
    : result (account_resource_limit * bool) :=
  if (weight <? 0) || (total =? 0) then Ok (mk_arl (-1) (-1) (-1), false)
  else
    let greylisted_virtual_limit := u64 (params_max * greylist_limit) in
    let greylisted := greylisted_virtual_limit <? virtual_limit in
    let capacity := u128 (window_size * (if greylisted then greylisted_virtual_limit
                                         else virtual_limit)) in
    let max_user_use_in_window := u128 (capacity * weight) / total in
    let used_in_window := integer_divide_ceil (u128 (value_ex * window_size)) Precision in
    available ← (if max_user_use_in_window <=? used_in_window then Ok 0
                 else downgrade_cast INT64_MAX (u128 (max_user_use_in_window - used_in_window)));
    used ← downgrade_cast INT64_MAX used_in_window;
    max ← downgrade_cast INT64_MAX max_user_use_in_window;
    Ok (mk_arl used available max, greylisted).

Definition get_account_cpu_limit_ex (db : rdb) (name : account_name) (greylist_limit : Z)
    : result (account_resource_limit * bool) :=
  state ← get_state db;
  usage ← get_usage db name;
  config ← get_config db;
  '(_, _, cpu_w) ← get_account_limits db name;
  limit_ex (max (cpu_limit_parameters config)) (virtual_cpu_limit state)
    (account_cpu_usage_average_window config) (value_ex (cpu_usage usage)) cpu_w
    (total_cpu_weight state) greylist_limit.

Definition get_account_net_limit_ex (db : rdb) (name : account_name) (greylist_limit : Z)
    : result (account_resource_limit * bool) :=
  config ← get_config db;
  state ← get_state db;
  usage ← get_usage db name;
  '(_, net_w, _) ← get_account_limits db name;
  limit_ex (max (net_limit_parameters config)) (virtual_net_limit state)
    (account_net_usage_average_window config) (value_ex (net_usage usage)) net_w
    (total_net_weight state) greylist_limit.

Definition get_account_cpu_limit (db : rdb) (name : account_name) (greylist_limit : Z)
    : result (Z * bool) :=
  '(arl, greylisted) ← get_account_cpu_limit_ex db name greylist_limit; Ok (available arl, greylisted).
Definition get_account_net_limit (db : rdb) (name : account_name) (greylist_limit : Z)
    : result (Z * bool) :=
  '(arl, greylisted) ← get_account_net_limit_ex db name greylist_limit; Ok (available arl, greylisted).
