(* ===== verification/ResourceLimitsSpec.v ===== *)
(** * The resource limits manager keeps its books

    The totals of the state object are the sums of the account limits; the
    elastic limits and the usage counters stay in their ranges; the limit
    that is reported is the limit that is enforced. *)

From stdpp Require Import base numbers list gmap strings sorting.
From Stdlib Require Import ZArith Lia.
From S2P Require Import Prelude Accumulator ResourceLimits.
Local Open Scope Z_scope.

Abbreviation limits_map := (gmap (bool * Z) resource_limits_object).

(** ** Pending entries *)

Lemma pending_owners_elem (m : limits_map) o :
  o ∈ pending_owners m <-> exists l, m !! (true, o) = Some l.
Proof.
  unfold pending_owners. rewrite merge_sort_Permutation, list_elem_of_omap. split.
  - intros ([[b o'] l] & Hin & E). apply elem_of_map_to_list in Hin. simpl in E.
    destruct b; [|done]. injection E as ->. eauto.
  - intros [l Hl]. exists ((true, o), l). by rewrite elem_of_map_to_list.
Qed.

Definition npending (m : limits_map) : Z := map_sum (fun (k : bool * Z) _ => if k.1 then 1 else 0) m.

Lemma pending_owners_length (m : limits_map) : Z.of_nat (length (pending_owners m)) = npending m.
Proof.
  unfold pending_owners. rewrite merge_sort_Permutation.
  induction m as [|[b o] l m Hk IH] using map_ind; [by rewrite map_to_list_empty|].
  rewrite (omap_Permutation _ _ _ (map_to_list_insert m (b, o) l Hk)). unfold npending.
  rewrite map_sum_insert_new by done. fold (npending m).
  destruct b; cbn -[Z.of_nat Z.add npending map_to_list]; lia.
Qed.

(** ** Totals *)

Definition total_of (f : resource_limits_object -> Z) (m : limits_map) : Z :=
  map_sum (fun (k : bool * Z) l => if k.1 then 0 else Z.max 0 (f l)) m.

Definition limits_ok (m : limits_map) : Prop :=
  forall k l, m !! k = Some l ->
    is_i64 (net_weight l) /\ is_i64 (cpu_weight l) /\ is_i64 (ram_bytes l).

Record state_totals (s : resource_limits_state_object) (m : limits_map) : Prop := {
  st_ram : total_ram_bytes s = total_of ram_bytes m;
  st_cpu : total_cpu_weight s = total_of cpu_weight m;
  st_net : total_net_weight s = total_of net_weight m;
  st_ram_ok : is_u64 (total_ram_bytes s);
  st_cpu_ok : is_u64 (total_cpu_weight s);
  st_net_ok : is_u64 (total_net_weight s);
}.

Lemma update_state_and_value_spec total value pending t v :
  is_u64 total -> is_i64 value -> is_i64 pending ->
  update_state_and_value total value pending = Ok (t, v) ->
  v = pending /\ t = total - Z.max 0 value + Z.max 0 pending /\ is_u64 t.
Proof.
  intros Ht Hv Hp H. unfold update_state_and_value in H. ok_bind H as t1 H1. ok_bind H as t2 H2.
  apply (proj1 (Ok_inj _ _)) in H. injection H as <- <-. split; [done|].
  assert (E1 : t1 = total - Z.max 0 value /\ is_u64 t1).
  { destruct (value >? 0) eqn:E; [|ok_inv; subst t1; unfold is_u64 in *; lia].
    rewrite (u64_small value) in H1 by (unfold is_u64, is_i64 in *; lia). ok_inv. subst t1.
    rewrite u64_small; unfold is_u64 in *; lia. }
  assert (E2 : t2 = t1 + Z.max 0 pending /\ is_u64 t2).
  { destruct (pending >? 0) eqn:E; [|ok_inv; subst t2; unfold is_u64 in *; lia].
    rewrite (u64_small pending) in H2 by (unfold is_u64, is_i64 in *; lia). ok_inv. subst t2.
    rewrite u64_small; unfold is_u64, UINT64_MAX in *; lia. }
  destruct E1 as [-> _], E2 as [-> H64]. split; [lia | done].
Qed.

Lemma total_of_insert_pending (f : resource_limits_object -> Z) (m : limits_map) (o : Z) l :
  total_of f (<[(true, o) := l]> m) = total_of f m.
Proof.
  unfold total_of. destruct (m !! (true, o)) as [old|] eqn:E.
  - rewrite (map_sum_insert _ _ _ _ _ E). simpl. lia.
  - by rewrite map_sum_insert_new.
Qed.

Lemma total_of_process (f : resource_limits_object -> Z) (m : limits_map) (o : Z) l old p :
  m !! (false, o) = Some old -> m !! (true, o) = Some p ->
  total_of f (delete (true, o) (<[(false, o) := l]> m)) =
  total_of f m - Z.max 0 (f old) + Z.max 0 (f l).
Proof.
  intros Hold Hp. unfold total_of.
  rewrite (map_sum_delete _ _ (true, o) p) by (by rewrite lookup_insert_ne).
  rewrite (map_sum_insert _ _ _ _ _ Hold). simpl. lia.
Qed.

Lemma npending_process (m : limits_map) (o : Z) (l old p : resource_limits_object) :
  m !! (false, o) = Some old -> m !! (true, o) = Some p ->
  npending (delete (true, o) (<[(false, o) := l]> m)) = npending m - 1.
Proof.
  intros Hold Hp. unfold npending.
  rewrite (map_sum_delete _ _ (true, o) p) by (by rewrite lookup_insert_ne).
  rewrite (map_sum_insert _ _ _ _ _ Hold). simpl. lia.
Qed.

(** The parts of the database and of the state object that the update of the
    limits does not concern. *)
Definition same_rest (s s' : resource_limits_state_object) (db db' : rdb) : Prop :=
  usages db' = usages db /\ config db' = config db /\ rstate db' = rstate db /\
  virtual_cpu_limit s' = virtual_cpu_limit s /\ virtual_net_limit s' = virtual_net_limit s /\
  pending_cpu_usage s' = pending_cpu_usage s /\ pending_net_usage s' = pending_net_usage s /\
  average_block_cpu_usage s' = average_block_cpu_usage s /\
  average_block_net_usage s' = average_block_net_usage s.

Definition same_limits (db db' : rdb) : Prop :=
  forall a, get_account_limits db' a = get_account_limits db a.

Lemma process_one_spec o s db s' db' :
  limits_ok (limits db) -> state_totals s (limits db) -> process_one o s db = Ok (s', db') ->
  limits_ok (limits db') /\ state_totals s' (limits db') /\ same_limits db db' /\
  same_rest s s' db db' /\ npending (limits db') = npending (limits db) - 1.
Proof.
  intros Hok [H1 H2 H3 H4 H5 H6] H. unfold process_one in H.
  ok_bind H as p Hp. ok_bind H as l Hl. ok_bind H as [tram ram] Hram.
  ok_bind H as [tcpu cpu] Hcpu. ok_bind H as [tnet net] Hnet.
  apply (proj1 (Ok_inj _ _)) in H. injection H as <- <-. unfold get_limits in Hp, Hl. ok_inv.
  destruct (Hok _ _ Hp) as (? & ? & ?). destruct (Hok _ _ Hl) as (? & ? & ?).
  apply update_state_and_value_spec in Hram as (-> & Eram & ?); [|done..].
  apply update_state_and_value_spec in Hcpu as (-> & Ecpu & ?); [|done..].
  apply update_state_and_value_spec in Hnet as (-> & Enet & ?); [|done..].
  split_and!.
  - intros k l' Hk. simpl in Hk. apply lookup_delete_Some in Hk as [_ Hk].
    apply lookup_insert_Some in Hk as [[_ <-]|[_ Hk]]; [done | by eapply Hok].
  - split; simpl; try done; rewrite (total_of_process _ _ _ _ l p) by done; simpl; lia.
  - intros a. unfold get_account_limits, get_limits. simpl. destruct (decide (a = o)) as [->|Hne].
    + rewrite lookup_delete_eq, lookup_delete_ne, lookup_insert_eq, Hp by done. done.
    + rewrite !lookup_delete_ne, !lookup_insert_ne by congruence. done.
  - done.
  - simpl. by apply (npending_process _ _ _ l p).
Qed.

Lemma process_loop_spec fuel s db s' db' :
  limits_ok (limits db) -> state_totals s (limits db) -> process_loop fuel s db = Ok (s', db') ->
  limits_ok (limits db') /\ state_totals s' (limits db') /\ same_limits db db' /\
  same_rest s s' db db' /\ pending_owners (limits db') = [].
Proof.
  revert s db. induction fuel as [|fuel IH]; intros s db Hok Htot H; simpl in H;
    destruct (pending_owners (limits db)) as [|o os] eqn:E.
  1,3: apply (proj1 (Ok_inj _ _)) in H; injection H as <- <-; split_and!; by try split_and!.
  - discriminate.
  - ok_bind H as [s1 db1] H1. apply process_one_spec in H1 as (Hok1 & Htot1 & Hl1 & Hr1 & _); [|done..].
    apply IH in H as (Hok2 & Htot2 & Hl2 & Hr2 & Hp); [|done..]. split_and!; [done|done| | |done].
    + intros a. by rewrite Hl2.
    + unfold same_rest in *. intuition congruence.
Qed.

(** ** The update of the limits cannot fail *)

Definition pending_of (f : resource_limits_object -> Z) (m : limits_map) : Z :=
  map_sum (fun (k : bool * Z) l => if k.1 then Z.max 0 (f l) else 0) m.

(** What was granted and what is to be granted fit the counters. *)
Definition room (m : limits_map) : Prop :=
  total_of ram_bytes m + pending_of ram_bytes m <= UINT64_MAX /\
  total_of cpu_weight m + pending_of cpu_weight m <= UINT64_MAX /\
  total_of net_weight m + pending_of net_weight m <= UINT64_MAX.

Definition pending_backed (m : limits_map) : Prop :=
  forall o p, m !! (true, o) = Some p -> exists l, m !! (false, o) = Some l.

Lemma pending_of_process (f : resource_limits_object -> Z) (m : limits_map) (o : Z) l old p :
  m !! (false, o) = Some old -> m !! (true, o) = Some p ->
  pending_of f (delete (true, o) (<[(false, o) := l]> m)) = pending_of f m - Z.max 0 (f p).
Proof.
  intros Hold Hp. unfold pending_of.
  rewrite (map_sum_delete _ _ (true, o) p) by (by rewrite lookup_insert_ne).
  rewrite (map_sum_insert _ _ _ _ _ Hold). simpl. lia.
Qed.

Lemma total_of_ge (f : resource_limits_object -> Z) (m : limits_map) (o : Z) l :
  m !! (false, o) = Some l -> Z.max 0 (f l) <= total_of f m.
Proof.
  intros Hl. unfold total_of. rewrite <- (insert_delete_id m (false, o) l) by done.
  rewrite map_sum_insert_new by apply lookup_delete_eq. simpl.
  enough (0 <= map_sum (fun (k : bool * Z) l => if k.1 then 0 else Z.max 0 (f l))
                 (delete (false, o) m)) by lia.
  apply map_sum_nonneg. intros [[] k] a _; simpl; lia.
Qed.

Lemma pending_of_ge (f : resource_limits_object -> Z) (m : limits_map) (o : Z) p :
  m !! (true, o) = Some p -> Z.max 0 (f p) <= pending_of f m.
Proof.
  intros Hl. unfold pending_of. rewrite <- (insert_delete_id m (true, o) p) by done.
  rewrite map_sum_insert_new by apply lookup_delete_eq. simpl.
  enough (0 <= map_sum (fun (k : bool * Z) l => if k.1 then Z.max 0 (f l) else 0)
                 (delete (true, o) m)) by lia.
  apply map_sum_nonneg. intros [[] k] a _; simpl; lia.
Qed.

Lemma update_total total value pending :
  is_u64 total -> is_i64 value -> is_i64 pending -> Z.max 0 value <= total ->
  total + Z.max 0 pending <= UINT64_MAX ->
  exists t, update_state_and_value total value pending = Ok (t, pending).
Proof.
  intros Ht Hv Hp Hle Hmax. unfold update_state_and_value.
  assert (E1 : exists t1, (if value >? 0 then
             check (total >=? u64 value) "underflow when reverting old value" ;;
             Ok (u64 (total - value)) else Ok total) = Ok t1 /\ t1 <= total).
  { destruct (value >? 0) eqn:E; [|by exists total]. exists (total - value). split; [|lia].
    rewrite (u64_small value), u64_small by (unfold is_u64, is_i64 in *; lia).
    by replace (total >=? value) with true by lia. }
  destruct E1 as (t1 & -> & Ht1). cbn [mbind result_bind].
  destruct (pending >? 0) eqn:E; [|by exists t1].
  rewrite (u64_small pending) by (unfold is_u64, is_i64 in *; lia).
  replace (UINT64_MAX - t1 >=? pending) with true by lia. eexists. reflexivity.
Qed.

Lemma process_one_total o p s db :
  limits_ok (limits db) -> state_totals s (limits db) -> room (limits db) ->
  pending_backed (limits db) -> limits db !! (true, o) = Some p ->
  exists s' db', process_one o s db = Ok (s', db') /\ room (limits db') /\ pending_backed (limits db').
Proof.
  intros Hok [H1 H2 H3 H4 H5 H6] (R1 & R2 & R3) Hb Hp. destruct (Hb _ _ Hp) as [l Hl].
  destruct (Hok _ _ Hp) as (? & ? & ?). destruct (Hok _ _ Hl) as (? & ? & ?).
  assert (Hg := fun f => total_of_ge f _ _ _ Hl). assert (Hg' := fun f => pending_of_ge f _ _ _ Hp).
  destruct (update_total (total_ram_bytes s) (ram_bytes l) (ram_bytes p)) as [tram Eram]; try done.
  { rewrite H1. apply Hg. } { pose proof (Hg' ram_bytes). lia. }
  destruct (update_total (total_cpu_weight s) (cpu_weight l) (cpu_weight p)) as [tcpu Ecpu]; try done.
  { rewrite H2. apply Hg. } { pose proof (Hg' cpu_weight). lia. }
  destruct (update_total (total_net_weight s) (net_weight l) (net_weight p)) as [tnet Enet]; try done.
  { rewrite H3. apply Hg. } { pose proof (Hg' net_weight). lia. }
  unfold process_one, get_limits. rewrite Hp, Hl. cbn [of_option mbind result_bind].
  rewrite Eram. cbn [mbind result_bind]. rewrite Ecpu. cbn [mbind result_bind]. rewrite Enet.
  eexists _, _. split; [reflexivity|]. simpl. split.
  - unfold room. rewrite !(total_of_process _ _ _ _ l p), !(pending_of_process _ _ _ _ l p) by done.
    simpl. lia.
  - intros o' p' Hp'. apply lookup_delete_Some in Hp' as [Hne Hp'].
    rewrite lookup_insert_ne in Hp' by congruence.
    destruct (decide (o' = o)) as [->|]; [done|]. destruct (Hb _ _ Hp') as [l' Hl'].
    exists l'. rewrite lookup_delete_ne, lookup_insert_ne by congruence. done.
Qed.

Lemma process_loop_total fuel s db :
  limits_ok (limits db) -> state_totals s (limits db) -> room (limits db) ->
  pending_backed (limits db) -> npending (limits db) <= Z.of_nat fuel ->
  exists r, process_loop fuel s db = Ok r.
Proof.
  revert s db. induction fuel as [|fuel IH]; intros s db Hok Htot Hr Hb Hf; simpl;
    destruct (pending_owners (limits db)) as [|o os] eqn:E; try (by eexists).
  - exfalso. pose proof (pending_owners_length (limits db)) as HL. rewrite E in HL. simpl in HL. lia.
  - destruct (proj1 (pending_owners_elem (limits db) o)) as [p Hp]; [rewrite E; by left|].
    destruct (process_one_total o p s db) as (s1 & db1 & H1 & Hr1 & Hb1); try done.
    rewrite H1. cbn [mbind result_bind].
    apply process_one_spec in H1 as (Hok1 & Htot1 & _ & _ & Hn); [|done..].
    apply IH; try done. lia.
Qed.

(** ** Histories of the manager *)

Inductive rl_op :=
| InitializeDatabase
| InitializeAccount (account : Z)
| SetBlockParameters (cpu net : elastic_limit_parameters)
| UpdateAccountUsage (accounts : list Z) (time_slot : Z)
| AddTransactionUsage (accounts : list Z) (cpu net time_slot : Z)
| AddPendingRamUsage (account ram_delta : Z)
| SetAccountLimits (account ram net cpu : Z)
| ProcessAccountLimitUpdates
| ProcessBlockUsage (block_num : Z).

Definition rl_apply (db : rdb) (o : rl_op) : result rdb :=
  match o with
  | InitializeDatabase => Ok (initialize_database db)
  | InitializeAccount a => initialize_account a db
  | SetBlockParameters c n => set_block_parameters c n db
  | UpdateAccountUsage l t => update_account_usage l t db
  | AddTransactionUsage l c n t => add_transaction_usage l c n t db
  | AddPendingRamUsage a d => add_pending_ram_usage a d db
  | SetAccountLimits a r n c => snd <$> set_account_limits a r n c db
  | ProcessAccountLimitUpdates => process_account_limit_updates db
  | ProcessBlockUsage b => process_block_usage b db
  end.

(** Limits are [int64_t]. *)
Definition op_typed (o : rl_op) : Prop :=
  match o with SetAccountLimits _ r n c => is_i64 r /\ is_i64 n /\ is_i64 c | _ => True end.

(** The books balance. *)
Definition rl_inv (db : rdb) : Prop :=
  limits_ok (limits db) /\ pending_backed (limits db) /\
  match rstate db with
  | Some s => state_totals s (limits db)
  | None => forall s, total_ram_bytes s = 0 -> total_cpu_weight s = 0 -> total_net_weight s = 0 ->
              state_totals s (limits db)
  end.

(** Operations that write neither limits nor totals. *)
Definition same_books (db db' : rdb) : Prop :=
  limits db' = limits db /\
  match rstate db, rstate db' with
  | Some s, Some s' => total_ram_bytes s' = total_ram_bytes s /\
      total_cpu_weight s' = total_cpu_weight s /\ total_net_weight s' = total_net_weight s
  | None, None => True
  | _, _ => False
  end.

#[export] Instance same_books_preorder : PreOrder same_books.
Proof.
  split; [intros db; split; [done | by destruct (rstate db)]|].
  intros x y z [E1 S1] [E2 S2]. split; [congruence|].
  destruct (rstate x), (rstate y), (rstate z); intuition congruence.
Qed.

Lemma same_books_intro db db' : limits db' = limits db -> rstate db' = rstate db -> same_books db db'.
Proof. intros E1 E2. split; [done|]. rewrite E2. by destruct (rstate db). Qed.

Lemma inv_same_books db db' : same_books db db' -> rl_inv db -> rl_inv db'.
Proof.
  intros [El Es] (Hok & Hb & Ht). unfold rl_inv. rewrite El. split_and!; [done|done|].
  destruct (rstate db) as [s|], (rstate db') as [s'|]; try done.
  destruct Es as (E1 & E2 & E3), Ht. split; congruence.
Qed.

Lemma same_books_fold {A} (g : rdb -> A -> result rdb) l db db' :
  (forall db a db', g db a = Ok db' -> same_books db db') ->
  mfold g l db = Ok db' -> same_books db db'.
Proof.
  intros Hg. apply (mfold_inv (same_books db)); [|done].
  intros d1 a d2 _ H1 H2. etrans; [exact H1 | eauto].
Qed.

Lemma charge_account_books cfg s cpu net t db a db' :
  charge_account cfg s cpu net t db a = Ok db' ->
  limits db' = limits db /\ config db' = config db /\ rstate db' = rstate db.
Proof.
  unfold charge_account. intros H. ok_bind H as u _. ok_bind H as [[r n] c] _.
  do 4 ok_bind H as ? _. ok_inv. by subst.
Qed.

Lemma charge_all_books cfg s cpu net t l db db' :
  mfold (charge_account cfg s cpu net t) l db = Ok db' ->
  limits db' = limits db /\ config db' = config db /\ rstate db' = rstate db.
Proof.
  apply (mfold_inv (fun d => limits d = limits db /\ config d = config db /\ rstate d = rstate db));
    [|done].
  intros d1 a d2 _ (E1 & E2 & E3) (F1 & F2 & F3)%charge_account_books.
  split_and!; congruence.
Qed.

Lemma rl_same_books db o db' :
  match o with
  | InitializeDatabase | InitializeAccount _ | SetAccountLimits _ _ _ _
  | ProcessAccountLimitUpdates => False | _ => True end ->
  rl_apply db o = Ok db' -> same_books db db'.
Proof.
  intros Ho H. destruct o; try done; simpl in H.
  - unfold set_block_parameters in H. do 3 ok_bind H as ? _. destruct (_ && _); ok_inv; subst; by apply same_books_intro.
  - unfold update_account_usage in H. ok_bind H as cfg _. apply same_books_fold in H; [done|].
    intros d a d' H1. ok_inv. subst. by apply same_books_intro.
  - unfold add_transaction_usage in H. ok_bind H as s Hs. ok_bind H as cfg _. ok_bind H as d Hd.
    do 2 ok_bind H as ? _. unfold get_state in Hs. ok_inv. subst db'.
    apply charge_all_books in Hd as (E1 & _ & E3). split; [done|]. simpl. by rewrite Hs.
  - unfold add_pending_ram_usage in H. destruct (_ =? 0); ok_inv; subst; by apply same_books_intro.
  - unfold process_block_usage in H. ok_bind H as s Hs. do 5 ok_bind H as ? _.
    unfold get_state in Hs. ok_inv. subst db'. split; [done|]. simpl. by rewrite Hs.
Qed.

Lemma total_of_new (f : resource_limits_object -> Z) (m : limits_map) (a : Z) l :
  m !! (false, a) = None -> f l <= 0 -> total_of f (<[(false, a) := l]> m) = total_of f m.
Proof. intros Hn Hf. unfold total_of. rewrite map_sum_insert_new by done. simpl. lia. Qed.

Lemma state_totals_new (s : resource_limits_state_object) (m : limits_map) (a : Z) :
  m !! (false, a) = None -> state_totals s m ->
  state_totals s (<[(false, a) := mk_limits a false (-1) (-1) (-1)]> m).
Proof. intros Hn [H1 H2 H3 H4 H5 H6]. split; try done; by rewrite total_of_new. Qed.

Lemma state_totals_pending (s : resource_limits_state_object) (m : limits_map) (a : Z) l :
  state_totals s m -> state_totals s (<[(true, a) := l]> m).
Proof. intros [H1 H2 H3 H4 H5 H6]. split; try done; by rewrite total_of_insert_pending. Qed.

Lemma initialize_account_inv a db db' :
  rl_inv db -> initialize_account a db = Ok db' -> rl_inv db'.
Proof.
  unfold initialize_account. intros (Hok & Hb & Ht) H. do 2 ok_bind H as ? ?. ok_inv. subst db'.
  simpl in *. unfold rl_inv. simpl. split_and!.
  - intros k l Hk. apply lookup_insert_Some in Hk as [[_ <-]|[_ Hk]]; [|by eapply Hok].
    simpl. unfold is_i64. lia.
  - intros o p Hp. rewrite lookup_insert_ne in Hp by done. destruct (Hb _ _ Hp) as [l Hl].
    destruct (decide (o = a)) as [->|]; [rewrite lookup_insert_eq; eauto|].
    rewrite lookup_insert_ne by congruence. eauto.
  - destruct (rstate db); [by apply state_totals_new|]. intros. apply state_totals_new; auto.
Qed.

Lemma set_account_limits_inv a r n c db b db' :
  is_i64 r -> is_i64 n -> is_i64 c -> rl_inv db ->
  set_account_limits a r n c db = Ok (b, db') -> rl_inv db'.
Proof.
  unfold set_account_limits. intros Hr Hn Hc (Hok & Hb & Ht) H. ok_bind H as lim Hlim.
  apply (proj1 (Ok_inj _ _)) in H. injection H as _ <-.
  assert (Hact : exists l, limits db !! (false, a) = Some l).
  { destruct (limits db !! (true, a)) as [p|] eqn:Ep; [by eapply Hb|].
    ok_bind Hlim as l Hl. unfold get_limits in Hl. ok_inv. eauto. }
  unfold rl_inv. simpl. split_and!.
  - intros k l Hk. apply lookup_insert_Some in Hk as [[_ <-]|[_ Hk]]; [done | by eapply Hok].
  - intros o p Hp. rewrite lookup_insert_ne by done. apply lookup_insert_Some in Hp as [[E _]|[_ Hp]].
    + injection E as <-. done.
    + by eapply Hb.
  - destruct (rstate db); [by apply state_totals_pending|]. intros. apply state_totals_pending; auto.
Qed.

Lemma same_limits_backed db db' :
  same_limits db db' -> pending_owners (limits db') = [] -> pending_backed (limits db').
Proof.
  intros _ E o p Hp. assert (H : o ∈ pending_owners (limits db')) by (apply pending_owners_elem; eauto).
  rewrite E in H. by apply not_elem_of_nil in H.
Qed.

Lemma process_updates_inv db db' :
  rl_inv db -> process_account_limit_updates db = Ok db' ->
  rl_inv db' /\ same_limits db db' /\ pending_owners (limits db') = [].
Proof.
  unfold process_account_limit_updates. intros (Hok & Hb & Ht) H. ok_bind H as s Hs.
  ok_bind H as [s1 db1] H1. unfold get_state in Hs. ok_inv. subst db'. rewrite Hs in Ht.
  apply process_loop_spec in H1 as (Hok1 & Ht1 & Hl & _ & Hp); [|done..].
  split_and!; [|exact Hl|done]. split_and!; [done| |done]. by eapply same_limits_backed.
Qed.

Lemma rl_apply_inv db o db' : op_typed o -> rl_inv db -> rl_apply db o = Ok db' -> rl_inv db'.
Proof.
  intros Ht Hi H.
  destruct o; try (eapply inv_same_books; [|exact Hi]; eapply rl_same_books; [|exact H]; done);
    simpl in H, Ht.
  - ok_inv. subst db'. destruct Hi as (Hok & Hb & Ht'). split_and!; [done|done|]. simpl.
    destruct (rstate db); [done|]. by apply Ht'.
  - by eapply initialize_account_inv.
  - destruct (set_account_limits _ _ _ _ _) as [[b d]|] eqn:E; [|done]. simpl in H. ok_inv. subst d.
    destruct Ht as (? & ? & ?). by eapply set_account_limits_inv, E.
  - by eapply process_updates_inv.
Qed.

Definition rl_run (ops : list rl_op) : result rdb := mfold rl_apply ops rdb_empty.

Lemma rl_inv_empty : rl_inv rdb_empty.
Proof.
  split_and!; [by intros k l Hk | by intros o p Hp|]. simpl. intros s H1 H2 H3.
  split; rewrite ?H1, ?H2, ?H3; done.
Qed.

Lemma rl_run_inv ops db : Forall op_typed ops -> rl_run ops = Ok db -> rl_inv db.
Proof.
  intros Hops. unfold rl_run. apply (mfold_inv rl_inv); [|apply rl_inv_empty].
  intros d o d' Ho Hi H. rewrite Forall_forall in Hops. by eapply rl_apply_inv; [apply Hops| |].
Qed.

(** After any history of operations the totals of the state object are the
    sums of the positive limits of all accounts: nothing an account was
    granted is counted twice or forgotten, and no counter ever wrapped. (C36) *)
Theorem totals_exact ops db s :
  Forall op_typed ops -> rl_run ops = Ok db -> rstate db = Some s -> state_totals s (limits db).
Proof.
  intros Hops H Hs. apply rl_run_inv in H as (_ & _ & Ht); [|done]. by rewrite Hs in Ht.
Qed.

(** At a block boundary the pending limits can always be applied, as long as
    old and new grants together fit 64 bits: the loop ends, none of its
    assertions fails, no entry stays pending, and the limits every account
    observes are the ones it observed before. *)
Theorem process_updates_correct ops db s :
  Forall op_typed ops -> rl_run ops = Ok db -> rstate db = Some s -> room (limits db) ->
  exists db', process_account_limit_updates db = Ok db' /\ same_limits db db' /\
    pending_owners (limits db') = [] /\ rl_inv db'.
Proof.
  intros Hops H Hs Hroom. apply rl_run_inv in H as Hi; [|done]. assert (Hi' := Hi).
  destruct Hi as (Hok & Hb & Ht). rewrite Hs in Ht.
  destruct (process_loop_total (length (pending_owners (limits db))) s db) as [[s' db1] Hl]; try done.
  { by rewrite pending_owners_length. }
  exists (set_state db1 s').
  assert (Hp : process_account_limit_updates db = Ok (set_state db1 s')).
  { unfold process_account_limit_updates, get_state. rewrite Hs. simpl. by rewrite Hl. }
  split; [done|]. apply process_updates_inv in Hp as (? & ? & ?); auto.
Qed.

(** ** Enforcement *)

(** [a] is within its share of CPU and NET, as far as they are limited. *)
Definition within_limits (cfg : resource_limits_config_object) (s : resource_limits_state_object)
    (db : rdb) (a : Z) (u : resource_usage_object) : Prop :=
  forall ram net cpu, get_account_limits db a = Ok (ram, net, cpu) ->
    (0 <= cpu -> 0 < total_cpu_weight s ->
       within_share (virtual_cpu_limit s) (account_cpu_usage_average_window cfg)
         (value_ex (cpu_usage u)) cpu (total_cpu_weight s) = true) /\
    (0 <= net -> 0 < total_net_weight s ->
       within_share (virtual_net_limit s) (account_net_usage_average_window cfg)
         (value_ex (net_usage u)) net (total_net_weight s) = true).

Lemma charge_account_spec cfg s cpu net t db a db' :
  charge_account cfg s cpu net t db a = Ok db' ->
  exists u, usages db' = <[a := u]> (usages db) /\ within_limits cfg s db a u.
Proof.
  unfold charge_account. intros H. ok_bind H as u Hu. ok_bind H as [[ram n] c] Hl.
  ok_bind H as na Hn. ok_bind H as ca Hc. ok_bind H as ? Hcpu. ok_bind H as ? Hnet. ok_inv. subst db'.
  eexists. split; [reflexivity|]. intros ram' n' c' Hl'. rewrite Hl in Hl'. injection Hl' as <- <- <-.
  simpl. split; intros Hw Htot.
  - replace ((c >=? 0) && (total_cpu_weight s >? 0)) with true in Hcpu by lia. by ok_inv.
  - replace ((n >=? 0) && (total_net_weight s >? 0)) with true in Hnet by lia. by ok_inv.
Qed.

Lemma within_limits_ext cfg s db db' a u :
  limits db' = limits db -> within_limits cfg s db a u -> within_limits cfg s db' a u.
Proof. unfold within_limits, get_account_limits, get_limits. by intros ->. Qed.

(** A transaction is accepted only if every account it bills stays within its
    share of the virtual limits and the block within the block limits. *)
Theorem transaction_usage_enforced accounts cpu net t db db' cfg s :
  get_config db = Ok cfg -> get_state db = Ok s ->
  add_transaction_usage accounts cpu net t db = Ok db' ->
  (forall a, a ∈ accounts -> exists u, usages db' !! a = Some u /\ within_limits cfg s db' a u) /\
  exists s', get_state db' = Ok s' /\
    pending_cpu_usage s' = u64 (pending_cpu_usage s + cpu) /\
    pending_cpu_usage s' <= max (cpu_limit_parameters cfg) /\
    pending_net_usage s' = u64 (pending_net_usage s + net) /\
    pending_net_usage s' <= max (net_limit_parameters cfg).
Proof.
  intros Hcfg Hs H. unfold add_transaction_usage in H. rewrite Hs in H. cbn [mbind result_bind] in H.
  rewrite Hcfg in H. cbn [mbind result_bind] in H. ok_bind H as d Hd. ok_bind H as [] H1.
  ok_bind H as [] H2. apply (proj1 (check_ok _ _ _)) in H1, H2. apply Z.leb_le in H1, H2.
  apply (proj1 (Ok_inj _ _)) in H. subst db'. split; [|by exists (add_pending s cpu net)].
  apply (mfold_each (fun x => limits x = limits db)
    (fun a x => exists u, usages x !! a = Some u /\ within_limits cfg s db a u)) in Hd as [El HR].
  - intros a Ha. destruct (HR a Ha) as (u & Hu & Hw). exists u. split; [done|].
    by apply (within_limits_ext _ _ db).
  - intros x a y _ Ex Hx. apply charge_account_books in Hx as Hb.
    apply charge_account_spec in Hx as (u & -> & Hw). split; [destruct Hb; congruence|].
    exists u. rewrite lookup_insert_eq. split; [done|]. by eapply within_limits_ext.
  - intros x a b y Ex Hx (u & Hu & Hw). apply charge_account_spec in Hx as (u' & -> & Hw').
    destruct (decide (a = b)) as [->|Hne].
    + exists u'. rewrite lookup_insert_eq. split; [done|]. by eapply within_limits_ext.
    + exists u. by rewrite lookup_insert_ne.
  - done.
Qed.

(** ** The reported limit is the enforced one *)

Lemma share_available params_max vl w v weight total gl arl units :
  is_u64 v -> 0 < w <= Precision -> 0 <= weight -> 0 < total ->
  limit_ex params_max vl w v weight total gl = Ok (arl, false) ->
  0 <= units <= available arl -> 0 < available arl ->
  is_u64 (v + contrib units w) -> within_share vl w (v + contrib units w) weight total = true.
Proof.
  intros Hv Hw Hwt Htot H Hu Hav Hnew. unfold limit_ex in H.
  replace ((weight <? 0) || (total =? 0)) with false in H by lia.
  destruct (u64 (params_max * gl) <? vl) eqn:Egl; [ok_inv; congruence|].
  unfold within_share. rewrite (Z.mul_comm vl w).
  set (cap := u128 (u128 (w * vl) * weight) / total) in *.
  rewrite (u128_small (v * w)) in H by (unfold is_u64, is_u128, Precision in *; nia).
  rewrite u128_small by (unfold is_u64, is_u128, Precision in *; nia).
  pose proof (divide_ceil_spec (v * w) Precision ltac:(done)) as Hceil.
  set (used := integer_divide_ceil (v * w) Precision) in *.
  destruct (cap <=? used) eqn:Ecap.
  { ok_bind H as x Hx. do 2 ok_bind H as ? _. ok_inv. subst. injection H as <-. simpl in Hav. lia. }
  ok_bind H as x Hx. ok_bind H as ? Hus. ok_bind H as ? _. ok_inv. injection H as <-. simpl in *.
  apply (proj1 (downgrade_cast_ok _ _ _)) in Hx as [-> Hxb].
  apply (proj1 (downgrade_cast_ok _ _ _)) in Hus as [_ Husb].
  assert (Hcap : 0 <= cap < 2 ^ 128).
  { split; [lia|]. unfold cap. apply Z.div_lt_upper_bound; [done|].
    pose proof (u128_range (u128 (w * vl) * weight)). unfold is_u128 in *. nia. }
  rewrite u128_small in Hu by (unfold is_u128; lia).
  apply Z.leb_le. apply Z.lt_succ_r. apply Z.div_lt_upper_bound; [done|].
  pose proof (divide_ceil_spec (units * Precision) w ltac:(lia)) as Hctr. fold (contrib units w) in Hctr.
  unfold Precision in *. lia.
Qed.

(** An account's resource is unlimited, or the demand is within what is
    reported as available. *)
Definition demand_met (reported units : Z) : Prop :=
  reported = -1 \/ (0 < reported /\ units <= reported).

Lemma limit_ex_demand params_max vl w v weight total gl arl units :
  is_u64 v -> 0 < w <= Precision -> 0 <= total -> 0 <= units ->
  limit_ex params_max vl w v weight total gl = Ok (arl, false) ->
  demand_met (available arl) units -> is_u64 (v + contrib units w) ->
  (weight >=? 0) && (total >? 0) = true ->
  within_share vl w (v + contrib units w) weight total = true.
Proof.
  intros Hv Hw Ht Hu H Hd Hnew Hc. apply andb_true_iff in Hc as [Hc1 Hc2].
  assert (Hav : 0 <= available arl).
  { unfold limit_ex in H. replace ((weight <? 0) || (total =? 0)) with false in H by lia.
    ok_bind H as x Hx. do 2 ok_bind H as ? _. ok_inv. injection H as <- _. simpl.
    destruct (_ <=? _); ok_inv; [lia|]. apply (proj1 (downgrade_cast_ok _ _ _)) in Hx. lia. }
  destruct Hd as [Hd|Hd]; [lia|].
  eapply share_available; try done; lia.
Qed.

(** The accumulator is at [t] and far from its numerical limits. *)
Definition acc_current (t : Z) (a : usage_accumulator) (units w : Z) : Prop :=
  acc_ok a /\ last_ordinal a = t /\ 0 <= units <= max_raw_value /\
  consumed a + units <= UINT64_MAX /\ value_ex a + contrib units w <= UINT64_MAX.

Lemma acc_add_current t a units w : acc_current t a units w -> 0 < w -> is_u32 t ->
  exists a', acc_add a units t w = Ok a' /\ value_ex a' = value_ex a + contrib units w.
Proof.
  intros ((Hl & Hv & Hc) & El & Hu & Hc2 & Hv2) Hw Ht. unfold acc_add.
  assert (Hctr : 0 <= contrib units w).
  { apply divide_ceil_nonneg; [unfold Precision; lia | done]. }
  rewrite max_raw_value_eq in *.
  rewrite u128_small by (unfold is_u128, Precision; lia). fold (contrib units w).
  replace (units <=? 18446744073709) with true by lia.
  replace (UINT64_MAX - consumed a >=? units) with true by lia. cbn [check mbind result_bind].
  assert (Hcb : contrib units w <= UINT64_MAX) by (unfold is_u64 in *; lia).
  rewrite (proj2 (downgrade_cast_ok UINT64_MAX _ _) (conj eq_refl (conj Hctr Hcb))).
  cbn [mbind result_bind].
  replace (UINT64_MAX - value_ex a >=? contrib units w) with true by lia.
  replace (last_ordinal a =? t) with true by lia. cbn [check mbind result_bind].
  eexists. split; [reflexivity|]. simpl. apply u64_small. unfold is_u64, UINT64_MAX in *. lia.
Qed.

(** A transaction that uses no more than [get_account_cpu_limit] and
    [get_account_net_limit] report in the same time slot is accepted for that
    account: rounding in the two computations never works against it. *)
Theorem reported_limit_suffices db a cfg s u cpu net t acpu anet gl :
  get_config db = Ok cfg -> get_state db = Ok s -> get_usage db a = Ok u -> is_u32 t ->
  0 < account_cpu_usage_average_window cfg <= Precision ->
  0 < account_net_usage_average_window cfg <= Precision ->
  0 <= total_cpu_weight s -> 0 <= total_net_weight s ->
  acc_current t (cpu_usage u) cpu (account_cpu_usage_average_window cfg) ->
  acc_current t (net_usage u) net (account_net_usage_average_window cfg) ->
  get_account_cpu_limit db a gl = Ok (acpu, false) ->
  get_account_net_limit db a gl = Ok (anet, false) ->
  demand_met acpu cpu -> demand_met anet net ->
  exists db', charge_account cfg s cpu net t db a = Ok db'.
Proof.
  intros Hcfg Hs Hu Ht Wc Wn Tc Tn Ac An Hlc Hln Dc Dn.
  unfold get_account_cpu_limit, get_account_cpu_limit_ex in Hlc.
  unfold get_account_net_limit, get_account_net_limit_ex in Hln.
  rewrite Hcfg, Hs, Hu in *. cbn [mbind result_bind] in Hlc, Hln.
  ok_bind Hlc as [arlc gc] Hlc'. apply (proj1 (Ok_inj _ _)) in Hlc. injection Hlc as <- ->.
  ok_bind Hln as [arln gn] Hln'. apply (proj1 (Ok_inj _ _)) in Hln. injection Hln as <- ->.
  ok_bind Hlc' as [[r n] c] Hlim. rewrite Hlim in Hln'. cbn [mbind result_bind] in Hln'.
  destruct (acc_add_current _ _ _ _ Ac ltac:(lia) Ht) as (ca & Eca & Vca).
  destruct (acc_add_current _ _ _ _ An ltac:(lia) Ht) as (na & Ena & Vna).
  destruct Ac as ((_ & Hvc & _) & _ & Huc & _ & Hc2), An as ((_ & Hvn & _) & _ & Hun & _ & Hn2).
  assert (Hctr : forall units w, 0 < w -> 0 <= units -> 0 <= contrib units w).
  { intros. apply divide_ceil_nonneg; [unfold Precision; lia | done]. }
  unfold charge_account. rewrite Hu, Hlim. cbn [mbind result_bind]. rewrite Ena. cbn [mbind result_bind].
  rewrite Eca. cbn [mbind result_bind]. rewrite Vca, Vna.
  destruct ((c >=? 0) && (total_cpu_weight s >? 0)) eqn:E1;
    [rewrite (limit_ex_demand _ _ _ _ _ _ _ _ _ Hvc Wc Tc (proj1 Huc) Hlc' Dc) by
       (try done; specialize (Hctr cpu _ (proj1 Wc)); unfold is_u64, UINT64_MAX in *; lia)|];
    cbn [check mbind result_bind];
    (destruct ((n >=? 0) && (total_net_weight s >? 0)) eqn:E2;
    [rewrite (limit_ex_demand _ _ _ _ _ _ _ _ _ Hvn Wn Tn (proj1 Hun) Hln' Dn) by
       (try done; specialize (Hctr net _ (proj1 Wn)); unfold is_u64, UINT64_MAX in *; lia)|];
    cbn [check mbind result_bind]; by eexists).
Qed.

(** ** RAM *)

Lemma ram_usage_exact_lemma a d db u :
  is_i64 d -> usages db !! a = Some u -> is_u64 (ram_usage u) ->
  ((exists db', add_pending_ram_usage a d db = Ok db') <-> is_u64 (ram_usage u + d)) /\
  (forall db', add_pending_ram_usage a d db = Ok db' ->
     (exists u', usages db' !! a = Some u' /\ ram_usage u' = ram_usage u + d) /\
     forall b, b <> a -> usages db' !! b = usages db !! b).
Proof.
  intros Hd Hu Hr. unfold add_pending_ram_usage, get_usage. rewrite Hu.
  destruct (d =? 0) eqn:E0.
  { split; [split; [intros _; unfold is_u64 in *; lia | eauto]|]. intros db' H. ok_inv. subst db'.
    split; [exists u; split; [done|lia] | done]. }
  cbn [of_option mbind result_bind].
  assert (Hc : (d <=? 0) || (UINT64_MAX - ram_usage u >=? u64 d) = true /\
               (d >=? 0) || (ram_usage u >=? u64 (i64 (- d))) = true <-> is_u64 (ram_usage u + d)).
  { rewrite !orb_true_iff. destruct (decide (0 < d)) as [Hp|Hp].
    - rewrite u64_small by (unfold is_u64, is_i64 in *; lia). unfold is_u64, is_i64, UINT64_MAX in *. lia.
    - assert (u64 (i64 (- d)) = - d) as ->.
      { destruct (decide (d = - 2 ^ 63)) as [->|Hmin]; [reflexivity|].
        rewrite i64_small, u64_small; unfold is_u64, is_i64 in *; lia. }
      unfold is_u64, is_i64, UINT64_MAX in *. lia. }
  rewrite <- Hc. split; [split|].
  - intros [db' H]. ok_bind H as ? H1. ok_bind H as ? H2. by ok_inv.
  - intros [-> ->]. cbn [check mbind result_bind]. eauto.
  - intros db' H. ok_bind H as [] H1. ok_bind H as [] H2.
    apply (proj1 (check_ok _ _ _)) in H1, H2. apply (proj1 (Ok_inj _ _)) in H. subst db'. simpl.
    rewrite u64_small by (apply Hc; done). split.
    + eexists. rewrite lookup_insert_eq. split; reflexivity.
    + intros b Hb. by rewrite lookup_insert_ne.
Qed.

(** RAM is counted exactly: a change is accepted if and only if the result
    fits the counter, the counter never wraps, and no other account is
    touched. *)
Theorem ram_usage_exact a d db u :
  is_i64 d -> usages db !! a = Some u -> is_u64 (ram_usage u) ->
  ((exists db', add_pending_ram_usage a d db = Ok db') <-> is_u64 (ram_usage u + d)) /\
  (forall db', add_pending_ram_usage a d db = Ok db' ->
     (exists u', usages db' !! a = Some u' /\ ram_usage u' = ram_usage u + d) /\
     forall b, b <> a -> usages db' !! b = usages db !! b).
Proof. apply ram_usage_exact_lemma. Qed.

(** ** Block boundaries *)

(** Parameters under which the arithmetic of a block boundary cannot
    overflow; the genesis parameters and any that keep the limits below 2^40
    satisfy them. *)
Record elastic_ok (p : elastic_limit_parameters) : Prop := {
  eo_max : 0 < max p;
  eo_mult : 1 <= max_multiplier p;
  eo_cap : max p * max_multiplier p <= UINT64_MAX;
  eo_periods : 0 < periods p < 2 ^ 32;
  eo_contract : 0 <= numerator (contract_rate p) <= denominator (contract_rate p);
  eo_expand : 0 < denominator (expand_rate p) <= numerator (expand_rate p);
  eo_contract_den : 0 < denominator (contract_rate p);
  eo_contract_fit : max p * max_multiplier p * numerator (contract_rate p) <= UINT64_MAX;
  eo_expand_fit : max p * max_multiplier p * numerator (expand_rate p) <= UINT64_MAX;
  eo_window : acc_bound (max p) (periods p) * periods p <= UINT64_MAX;
  eo_twice : 2 * acc_bound (max p) (periods p) <= UINT64_MAX;
}.

Definition in_elastic_range (p : elastic_limit_parameters) (limit : Z) : Prop :=
  max p <= limit <= max p * max_multiplier p.

Lemma ratio_mul_total v r : 0 <= v -> 0 <= numerator r -> v * numerator r <= UINT64_MAX ->
  ratio_mul v r = Ok (v * numerator r / denominator r).
Proof.
  intros Hv Hn Hm. unfold ratio_mul.
  assert (E : (numerator r =? 0) || (UINT64_MAX / numerator r >=? v) = true).
  { destruct (decide (numerator r = 0)) as [->|]; [done|]. apply orb_true_iff. right.
    apply Z.geb_le, Z.div_le_lower_bound; lia. }
  rewrite E. cbn [check mbind result_bind]. rewrite u64_small; [done|].
  unfold is_u64, UINT64_MAX in *. nia.
Qed.

(** The virtual limit stays between the real limit and its multiple; it
    shrinks when the resource is congested and grows when it is not. *)
Lemma update_elastic_spec p cur avg : elastic_ok p -> in_elastic_range p cur ->
  exists r, update_elastic_limit cur avg p = Ok r /\ in_elastic_range p r /\
    (avg > target p -> r <= cur) /\ (avg <= target p -> cur <= r).
Proof.
  intros [] [Hlo Hhi]. unfold update_elastic_limit, in_elastic_range.
  assert (Hcur : 0 <= cur) by lia.
  rewrite !ratio_mul_total by nia.
  rewrite u64_small by (unfold is_u64, UINT64_MAX in *; nia).
  assert (Hcap : max p <= max p * max_multiplier p) by nia.
  destruct (avg >? target p) eqn:E; cbn [mbind result_bind]; eexists; (split; [reflexivity|]).
  - assert (cur * numerator (contract_rate p) / denominator (contract_rate p) <= cur)
      by (apply Z.div_le_upper_bound; nia). lia.
  - assert (cur <= cur * numerator (expand_rate p) / denominator (expand_rate p))
      by (apply Z.div_le_lower_bound; nia). lia.
Qed.

(** What holds of the state object between blocks. *)
Record block_ok (cfg : resource_limits_config_object) (s : resource_limits_state_object) : Prop := {
  bo_cpu : in_elastic_range (cpu_limit_parameters cfg) (virtual_cpu_limit s);
  bo_net : in_elastic_range (net_limit_parameters cfg) (virtual_net_limit s);
  bo_pcpu : 0 <= pending_cpu_usage s <= max (cpu_limit_parameters cfg);
  bo_pnet : 0 <= pending_net_usage s <= max (net_limit_parameters cfg);
  bo_acpu : acc_small (max (cpu_limit_parameters cfg)) (periods (cpu_limit_parameters cfg))
              (average_block_cpu_usage s);
  bo_anet : acc_small (max (net_limit_parameters cfg)) (periods (net_limit_parameters cfg))
              (average_block_net_usage s);
}.

Lemma block_average_step p a units n :
  elastic_ok p -> acc_small (max p) (periods p) a -> 0 <= units <= max p ->
  last_ordinal a < n -> is_u32 n ->
  exists a', acc_add a units n (periods p) = Ok a' /\ acc_small (max p) (periods p) a' /\
             last_ordinal a' = n.
Proof.
  intros [] Ha Hu Hn Hn2. destruct (acc_add_total (max p) (periods p) a units n) as [a' H]; try done.
  exists a'. split; [done|]. by eapply acc_add_small.
Qed.

(** The end of a block never fails: the pending usage of the block is folded
    into the averages, the virtual limits move in the direction of the load
    and stay in their range, and the counters of the next block start at
    zero. *)
Theorem process_block_usage_correct db cfg s n :
  get_config db = Ok cfg -> get_state db = Ok s ->
  elastic_ok (cpu_limit_parameters cfg) -> elastic_ok (net_limit_parameters cfg) ->
  block_ok cfg s -> is_u32 n ->
  last_ordinal (average_block_cpu_usage s) < n -> last_ordinal (average_block_net_usage s) < n ->
  exists db' s', process_block_usage n db = Ok db' /\ get_state db' = Ok s' /\ block_ok cfg s' /\
    pending_cpu_usage s' = 0 /\ pending_net_usage s' = 0 /\
    (average (average_block_cpu_usage s') > target (cpu_limit_parameters cfg) ->
       virtual_cpu_limit s' <= virtual_cpu_limit s) /\
    (average (average_block_cpu_usage s') <= target (cpu_limit_parameters cfg) ->
       virtual_cpu_limit s <= virtual_cpu_limit s') /\
    last_ordinal (average_block_cpu_usage s') = n /\ last_ordinal (average_block_net_usage s') = n.
Proof.
  intros Hcfg Hs Ec En [B1 B2 B3 B4 B5 B6] Hn Hlc Hln.
  destruct (block_average_step _ _ _ _ Ec B5 B3 Hlc Hn) as (ca & Hca & Sca & Lca).
  destruct (block_average_step _ _ _ _ En B6 B4 Hln Hn) as (na & Hna & Sna & Lna).
  destruct (update_elastic_spec _ _ (average ca) Ec B1) as (vc & Hvc & Rvc & Dc & Uc).
  destruct (update_elastic_spec _ _ (average na) En B2) as (vn & Hvn & Rvn & _).
  unfold process_block_usage. rewrite Hs, Hcfg. cbn [mbind result_bind].
  rewrite Hca. cbn [mbind result_bind]. rewrite Hvc. cbn [mbind result_bind].
  rewrite Hna. cbn [mbind result_bind]. rewrite Hvn. cbn [mbind result_bind].
  eexists _, _. split; [reflexivity|]. split; [reflexivity|]. destruct Ec, En.
  split_and!; simpl; try done. split; simpl; try done; lia.
Qed.

(** ** A history *)

Definition history : list rl_op :=
  [ InitializeDatabase; InitializeAccount 1; InitializeAccount 2;
    SetAccountLimits 1 1000 10 20; SetAccountLimits 2 (-1) 5 5; ProcessAccountLimitUpdates;
    ProcessBlockUsage 4; AddPendingRamUsage 1 100; AddTransactionUsage [1; 2] 900 300 5;
    SetAccountLimits 1 2000 (-1) 30 ].
Definition history_db : rdb := from_ok rdb_empty (rl_run history).
Definition history_state : resource_limits_state_object :=
  from_ok (mk_rstate acc_init acc_init 0 0 0 0 0 0 0) (get_state history_db).
Definition usage1 : resource_usage_object :=
  from_ok (mk_usage 0 acc_init acc_init 0) (get_usage history_db 1).

Lemma history_runs : rl_run history = Ok history_db.
Proof. run_ok. Qed.
Lemma history_typed : Forall op_typed history.
Proof. repeat constructor; vm_compute; congruence. Qed.
Lemma history_config : get_config history_db = Ok default_config.
Proof. compute_run. Qed.
Lemma history_get_state : get_state history_db = Ok history_state.
Proof. run_ok. Qed.
Lemma history_rstate : rstate history_db = Some history_state.
Proof. pose proof history_get_state as H. unfold get_state in H. by ok_inv. Qed.

Lemma totals_exact_witness : state_totals history_state (limits history_db).
Proof.
  apply (totals_exact history history_db history_state history_typed history_runs history_rstate).
Defined.

Lemma process_updates_correct_witness :
  room (limits history_db) /\
  exists db', process_account_limit_updates history_db = Ok db' /\ pending_owners (limits db') = [].
Proof.
  assert (Hr : room (limits history_db)).
  { repeat split; apply Z.leb_le; compute_run. }
  split; [exact Hr|].
  destruct (process_updates_correct history history_db history_state history_typed history_runs
              history_rstate Hr) as (db' & H & _ & Hp & _).
  exists db'. auto.
Defined.

Lemma transaction_usage_enforced_witness :
  exists db' s', add_transaction_usage [1; 2] 800 100 6 history_db = Ok db' /\
    get_state db' = Ok s' /\ pending_cpu_usage s' <= 200000.
Proof.
  set (db' := from_ok history_db (add_transaction_usage [1; 2] 800 100 6 history_db)).
  assert (H : add_transaction_usage [1; 2] 800 100 6 history_db = Ok db') by run_ok.
  destruct (transaction_usage_enforced [1; 2] 800 100 6 history_db db' default_config history_state
              history_config history_get_state H) as (_ & s' & Hs & _ & Hle & _).
  exists db', s'. auto.
Defined.

Definition usage2 : resource_usage_object :=
  mk_usage 2 (mk_acc 5 1737 300) (mk_acc 5 5209 900) 0.

Lemma reported_limit_suffices_witness :
  exists db', charge_account default_config history_state 6918911099 1000 5 history_db 2 = Ok db'.
Proof.
  assert (Hu : get_usage history_db 2 = Ok usage2) by compute_run.
  assert (Hc : get_account_cpu_limit history_db 2 1000 = Ok (6918911099, false)) by compute_run.
  assert (Hn : get_account_net_limit history_db 2 1000 = Ok (60458399699, false)) by compute_run.
  apply (reported_limit_suffices history_db 2 default_config history_state usage2 6918911099 1000 5
           6918911099 60458399699 1000 history_config history_get_state Hu).
  - split; reflexivity || discriminate.
  - split; [reflexivity | discriminate].
  - split; [reflexivity | discriminate].
  - apply Z.leb_le. compute_run.
  - apply Z.leb_le. compute_run.
  - repeat split; vm_compute; congruence.
  - repeat split; vm_compute; congruence.
  - exact Hc.
  - exact Hn.
  - right. split; [reflexivity | apply Z.le_refl].
  - right. split; [reflexivity | discriminate].
Defined.

Lemma ram_usage_exact_witness :
  exists db', add_pending_ram_usage 1 (-100) history_db = Ok db' /\
    exists u', usages db' !! 1 = Some u' /\ ram_usage u' = 0.
Proof.
  assert (Hu : usages history_db !! 1 = Some (mk_usage 1 (mk_acc 5 1737 300) (mk_acc 5 5209 900) 100))
    by compute_run.
  destruct (ram_usage_exact 1 (-100) history_db _ ltac:(split; [discriminate | reflexivity]) Hu
              ltac:(split; [discriminate | reflexivity])) as [[_ Hok] Hspec].
  destruct Hok as [db' H]; [split; [discriminate | reflexivity]|].
  exists db'. split; [exact H|]. apply (Hspec db' H).
Defined.

Lemma default_elastic_ok m : 0 < m <= 2 ^ 24 -> elastic_ok (default_parameters m).
Proof.
  intros Hm. unfold default_parameters. split; simpl; unfold acc_bound, Precision, UINT64_MAX;
    change block_window with 120; lia.
Qed.

Lemma process_block_usage_correct_witness :
  exists db' s', process_block_usage 5 history_db = Ok db' /\ get_state db' = Ok s' /\
    block_ok default_config s' /\ pending_cpu_usage s' = 0.
Proof.
  assert (Hb : block_ok default_config history_state).
  { split; repeat split; apply Z.leb_le || apply Z.ltb_lt; compute_run. }
  destruct (process_block_usage_correct history_db default_config history_state 5
    history_config history_get_state) as (db' & s' & H & Hs & Hok & Hz & _).
  - apply default_elastic_ok. split; [reflexivity | discriminate].
  - apply default_elastic_ok. split; [reflexivity | discriminate].
  - exact Hb.
  - split; [discriminate | reflexivity].
  - apply Z.ltb_lt. compute_run.
  - apply Z.ltb_lt. compute_run.
  - exists db', s'. auto.
Defined.
