(* ===== verification/Authority.v ===== *)
(** * Authorities and the authority checker ([authority.hpp],
    [authority_checker.hpp])

    An authority is a threshold over weighted keys, permissions and waits.
    [satisfied] decides whether the provided keys, permissions and delay reach
    it, following permissions to their authorities up to a depth limit. *)

From stdpp Require Import base numbers list gmap strings.
From Stdlib Require Import ZArith Lia.
From S2P Require Import Prelude.
Local Open Scope Z_scope.

(** Public keys: a type with decidable equality and the order of their
    serialised form. *)
Class PublicKey (key : Type) := {
  #[global] pk_eq_dec :: EqDecision key;
  pk_lt : key -> key -> bool;
  pk_lt_irrefl : forall k, pk_lt k k = false;
  pk_lt_trans : forall a b c, pk_lt a b = true -> pk_lt b c = true -> pk_lt a c = true;
}.

(** (actor, permission), ordered lexicographically *)
Abbreviation permission_level := (Z * Z)%type.
Definition level_lt (p q : permission_level) : bool :=
  (p.1 <? q.1) || ((p.1 =? q.1) && (p.2 <? q.2)).

Inductive permission_cache_status := being_evaluated | permission_unsatisfied | permission_satisfied.

Abbreviation permission_cache := (gmap permission_level permission_cache_status).

Section Authority.
Context {key : Type} `{PublicKey key}.

Record key_weight := mk_key_weight { kw_key : key; kw_weight : Z }.
Record permission_level_weight := mk_plw { pw_permission : permission_level; pw_weight : Z }.
Record wait_weight := mk_wait_weight { ww_sec : Z; ww_weight : Z }.

Record authority := mk_authority {
  threshold : Z; keys : list key_weight; accounts : list permission_level_weight;
  waits : list wait_weight }.

(** [authority(public_key_type, delay_sec)] and [authority(permission_level, delay_sec)] *)
Definition authority_of_key (k : key) (delay_sec : Z) : authority :=
  if delay_sec >? 0 then mk_authority 2 [mk_key_weight k 1] [] [mk_wait_weight delay_sec 1]
  else mk_authority 1 [mk_key_weight k 1] [] [].
Definition authority_of_permission (p : permission_level) (delay_sec : Z) : authority :=
  if delay_sec >? 0 then mk_authority 2 [] [mk_plw p 1] [mk_wait_weight delay_sec 1]
  else mk_authority 1 [] [mk_plw p 1] [].

(** ** [validate] *)

(** One of the three loops: consecutive entries strictly increase, weights
    are added to the 32-bit total. *)
Fixpoint validate_loop {A} (lt : A -> A -> bool) (weight : A -> Z) (prev : option A) (l : list A)
    (total : Z) : option Z :=
  match l with
  | [] => Some total
  | x :: l =>
    match prev with
    | Some p => if lt p x then validate_loop lt weight (Some x) l (u32 (total + weight x)) else None
    | None => validate_loop lt weight (Some x) l (u32 (total + weight x))
    end
  end.

Definition key_before (a b : key_weight) : bool := pk_lt (kw_key a) (kw_key b).
Definition perm_before (a b : permission_level_weight) : bool :=
  level_lt (pw_permission a) (pw_permission b).
Definition wait_before (a b : wait_weight) : bool := ww_sec a <? ww_sec b.

Definition validate (auth : authority) : bool :=
  if Z.of_nat (length (keys auth)) + Z.of_nat (length (accounts auth))
       + Z.of_nat (length (waits auth)) >? 2 ^ 16 then false
  else if threshold auth =? 0 then false
  else
    match validate_loop key_before kw_weight None (keys auth) 0 with
    | None => false
    | Some total_weight =>
      match validate_loop perm_before pw_weight None (accounts auth) total_weight with
      | None => false
      | Some total_weight =>
        if match waits auth with w :: _ => ww_sec w =? 0 | [] => false end then false
        else
          match validate_loop wait_before ww_weight None (waits auth) total_weight with
          | None => false
          | Some total_weight => total_weight >=? threshold auth
          end
      end
    end.

(** ** The checker *)

Inductive meta_permission :=
| MetaAccount (p : permission_level_weight)
| MetaKey (k : key_weight)
| MetaWait (w : wait_weight).

Definition meta_weight (m : meta_permission) : Z :=
  match m with
  | MetaAccount p => pw_weight p | MetaKey k => kw_weight k | MetaWait w => ww_weight w
  end.

(** [which()] of the static_variant *)
Definition which (m : meta_permission) : Z :=
  match m with MetaAccount _ => 0 | MetaKey _ => 1 | MetaWait _ => 2 end.

(** [meta_permission_comparator]: (weight, type) descending *)
Definition meta_less (lhs rhs : meta_permission) : bool :=
  (meta_weight rhs <? meta_weight lhs) ||
  ((meta_weight rhs =? meta_weight lhs) && (which rhs <? which lhs)).

(** [flat_multiset::insert]: after the equivalent elements *)
Fixpoint multiset_insert (x : meta_permission) (l : list meta_permission) : list meta_permission :=
  match l with
  | [] => [x]
  | y :: l' => if meta_less x y then x :: l else y :: multiset_insert x l'
  end.

Definition meta_permissions (auth : authority) : list meta_permission :=
  foldl (fun l x => multiset_insert x l) []
    ((MetaWait <$> waits auth) ++ (MetaKey <$> keys auth) ++ (MetaAccount <$> accounts auth)).

Definition permission_status_in_cache (permissions : permission_cache) (level : permission_level)
    : option permission_cache_status :=
  match permissions !! level with
  | Some st => Some st
  | None => permissions !! (level.1, 0)
  end.

(** What the checker is constructed with.  [permission_to_authority] may
    throw: [Ok None] is a [permission_query_exception], [Err] any other
    exception, such as the one of [checktime]. *)
Record checker := mk_checker {
  permission_to_authority : permission_level -> result (option authority);
  recursion_depth_limit : nat;
  provided_keys : list key;
  provided_permissions : list permission_level;
  provided_delay : Z }.

(** What it mutates: the markers of used keys and the cache. *)
Record cstate := mk_cstate { used : list bool; cache : permission_cache }.

(** [boost::find]: the position of the key *)
Fixpoint find_key (k : key) (l : list key) : option nat :=
  match l with
  | [] => None
  | x :: l => if decide (x = k) then Some O else S <$> find_key k l
  end.

(** [weight_tally_visitor]; [rec] evaluates an authority one level deeper,
    [None] when [recursion_depth] has reached the limit. *)
Definition visit (c : checker) (rec : option (authority -> cstate -> result (bool * cstate)))
    (m : meta_permission) (total_weight : Z) (st : cstate) : result (Z * cstate) :=
  match m with
  | MetaWait w =>
    Ok (if provided_delay c >=? 1000000 * ww_sec w then u32 (total_weight + ww_weight w)
        else total_weight, st)
  | MetaKey k =>
    match find_key (kw_key k) (provided_keys c) with
    | Some i => Ok (u32 (total_weight + kw_weight k), mk_cstate (<[i := true]> (used st)) (cache st))
    | None => Ok (total_weight, st)
    end
  | MetaAccount p =>
    match permission_status_in_cache (cache st) (pw_permission p) with
    | None =>
      match rec with
      | None => Ok (total_weight, st)
      | Some rec =>
        auth ← permission_to_authority c (pw_permission p);
        match auth with
        | None => Ok (total_weight, st)
        | Some auth =>
          '(r, st) ← rec auth (mk_cstate (used st) (<[pw_permission p := being_evaluated]> (cache st)));
          let mark s := mk_cstate (used st) (<[pw_permission p := s]> (cache st)) in
          if (r : bool) then Ok (u32 (total_weight + pw_weight p), mark permission_satisfied)
          else Ok (total_weight, mark permission_unsatisfied)
        end
      end
    | Some permission_satisfied => Ok (u32 (total_weight + pw_weight p), st)
    | Some _ => Ok (total_weight, st)
    end
  end.

(** The loop of [satisfied]: [None] when no prefix reaches the threshold. *)
Fixpoint tally (c : checker) (rec : option (authority -> cstate -> result (bool * cstate)))
    (thr : Z) (l : list meta_permission) (total_weight : Z) (st : cstate)
    : result (bool * cstate) :=
  match l with
  | [] => Ok (false, st)
  | m :: l =>
    '(total_weight, st) ← visit c rec m total_weight st;
    if total_weight >=? thr then Ok (true, st) else tally c rec thr l total_weight st
  end.

(** [satisfied(authority, cached_permissions, depth)], where [levels] is
    [recursion_depth_limit - depth]. *)
Fixpoint satisfied_at (c : checker) (levels : nat) (auth : authority) (st : cstate)
    : result (bool * cstate) :=
  '(r, st') ← tally c (match levels with O => None | S levels => Some (satisfied_at c levels) end)
    (threshold auth) (meta_permissions auth) 0 st;
  Ok (if (r : bool) then (true, st') else (false, mk_cstate (used st) (cache st'))).

(** [initialize_permission_cache] *)
Definition initial_cache (c : checker) : permission_cache :=
  list_to_map ((fun p => (p, permission_satisfied)) <$> provided_permissions c).

Definition initial_state (c : checker) : cstate :=
  mk_cstate (replicate (length (provided_keys c)) false) (initial_cache c).

(** [satisfied(authority)] and [satisfied(permission_level)], with a fresh cache. *)
Definition satisfied (c : checker) (auth : authority) (st : list bool) : result (bool * list bool) :=
  '(r, st) ← satisfied_at c (recursion_depth_limit c) auth (mk_cstate st (initial_cache c));
  Ok (r, used st).

Definition satisfied_permission (c : checker) (p : permission_level) (st : list bool)
    : result (bool * list bool) :=
  '(w, st) ← visit c (match recursion_depth_limit c with
                      | O => None | S levels => Some (satisfied_at c levels) end)
               (MetaAccount (mk_plw p 1)) 0 (mk_cstate st (initial_cache c));
  Ok (w >? 0, used st).

Definition all_keys_used (used : list bool) : bool := forallb id used.

(** [filter_data_by_marker] *)
Fixpoint filter_by_marker (data : list key) (markers : list bool) (b : bool) : list key :=
  match data, markers with
  | x :: data, m :: markers =>
    if Bool.eqb m b then x :: filter_by_marker data markers b else filter_by_marker data markers b
  | _, _ => []
  end.
Definition used_keys (c : checker) (used : list bool) : list key :=
  filter_by_marker (provided_keys c) used true.
Definition unused_keys (c : checker) (used : list bool) : list key :=
  filter_by_marker (provided_keys c) used false.
End Authority.
