(* ===== verification/AuthoritySpec.v ===== *)
(** * What a satisfied authority means

    [sat] is the declarative meaning of an authority: the weights of the
    factors that are granted reach the threshold, where a permission is
    granted if it is provided or if its own authority is satisfied by a
    derivation of finite depth.  The checker, with its cache, its early exit
    and its 32-bit tally, accepts nothing else. *)

From stdpp Require Import base numbers list gmap strings.
From Stdlib Require Import ZArith Lia.
From S2P Require Import Prelude Authority.
Local Open Scope Z_scope.
Section Spec.
Context {key : Type} `{PublicKey key}.
#[local] Abbreviation authority := (authority (key := key)).
#[local] Abbreviation meta_permission := (meta_permission (key := key)).
#[local] Abbreviation checker := (checker (key := key)).
Implicit Types (auth : authority) (m : meta_permission) (l : list meta_permission) (c : checker).

Definition factors (auth : authority) : list meta_permission :=
  (MetaWait <$> waits auth) ++ (MetaKey <$> keys auth) ++ (MetaAccount <$> accounts auth).

Fixpoint weight_sum (g : meta_permission -> bool) (l : list meta_permission) : Z :=
  match l with [] => 0 | m :: l => (if g m then meta_weight m else 0) + weight_sum g l end.

Definition provided (c : checker) (p : permission_level) : bool :=
  bool_decide (p ∈ provided_permissions c) || bool_decide ((p.1, 0) ∈ provided_permissions c).

(** A factor is granted, given how deeper authorities are decided. *)
Definition grants_with (c : checker) (deeper : authority -> bool) (m : meta_permission) : bool :=
  match m with
  | MetaWait w => 1000000 * ww_sec w <=? provided_delay c
  | MetaKey k => bool_decide (kw_key k ∈ provided_keys c)
  | MetaAccount p =>
    provided c (pw_permission p) ||
    match permission_to_authority c (pw_permission p) with
    | Ok (Some a) => deeper a
    | _ => false
    end
  end.

Fixpoint sat (c : checker) (levels : nat) (auth : authority) : bool :=
  threshold auth <=? weight_sum
    (grants_with c (match levels with O => fun _ => false | S n => sat c n end)) (factors auth).

Definition grants (c : checker) (levels : nat) (m : meta_permission) : bool :=
  grants_with c (match levels with O => fun _ => false | S n => sat c n end) m.

Lemma sat_unfold c levels auth :
  sat c levels auth = (threshold auth <=? weight_sum (grants c levels) (factors auth)).
Proof. by destruct levels. Qed.

(** Weights are [uint16_t], and no authority has more than 2^16 factors. *)
Definition auth_ok (auth : authority) : Prop :=
  Forall (fun m => is_u16 (meta_weight m)) (factors auth) /\
  Z.of_nat (length (factors auth)) <= 2 ^ 16.

(** ** Sums *)

Lemma weight_sum_perm g l1 l2 : l1 ≡ₚ l2 -> weight_sum g l1 = weight_sum g l2.
Proof. induction 1; simpl; lia. Qed.

Lemma weight_sum_app g l1 l2 : weight_sum g (l1 ++ l2) = weight_sum g l1 + weight_sum g l2.
Proof. induction l1; simpl; lia. Qed.

Lemma weight_sum_mono g1 g2 l :
  Forall (fun m => is_u16 (meta_weight m)) l ->
  (forall m, m ∈ l -> g1 m = true -> g2 m = true) -> weight_sum g1 l <= weight_sum g2 l.
Proof.
  induction 1 as [|m l Hm _ IH]; intros Hg; simpl; [lia|].
  assert (weight_sum g1 l <= weight_sum g2 l) by (apply IH; intros; apply Hg; [by right|done]).
  specialize (Hg m ltac:(by left)). unfold is_u16 in Hm.
  destruct (g1 m), (g2 m); lia.
Qed.

Lemma weight_sum_bound g l : Forall (fun m => is_u16 (meta_weight m)) l ->
  0 <= weight_sum g l <= (2 ^ 16 - 1) * Z.of_nat (length l).
Proof.
  induction 1 as [|m l Hm _ IH]; simpl; [lia|]. unfold is_u16 in Hm. destruct (g m); lia.
Qed.

Lemma multiset_insert_perm m l : multiset_insert m l ≡ₚ m :: l.
Proof.
  induction l as [|y l IH]; simpl; [done|]. destruct (meta_less m y); [done|].
  rewrite IH. apply Permutation_swap.
Qed.

Lemma meta_permissions_perm auth : meta_permissions auth ≡ₚ factors auth.
Proof.
  unfold meta_permissions. fold (factors auth).
  enough (forall l acc, foldl (fun l x => multiset_insert x l) acc l ≡ₚ acc ++ l) by (by rewrite H0).
  clear auth. intros l. induction l as [|x l IH]; intros acc; simpl; [by rewrite app_nil_r|].
  rewrite IH, multiset_insert_perm. simpl. apply Permutation_middle.
Qed.

(** ** Soundness *)

(** The authorities the checker is given are well formed, and no permission
    has the empty name, as [get_permission] asserts. *)
Record checker_ok (c : checker) : Prop := {
  co_auths : forall p a, permission_to_authority c p = Ok (Some a) -> auth_ok a;
  co_named : forall actor a, permission_to_authority c (actor, 0) <> Ok (Some a);
}.

Lemma sat_mono c n auth : checker_ok c -> auth_ok auth -> sat c n auth = true -> sat c (S n) auth = true.
Proof.
  intros Hc. revert auth. induction n as [|n IH]; intros auth Ha Hs; rewrite sat_unfold in *;
    apply Z.leb_le; apply Z.leb_le in Hs; (etrans; [exact Hs|]);
    (apply weight_sum_mono; [apply Ha|]); intros [p|k|w] _ Hg; try exact Hg;
    unfold grants, grants_with in *; apply orb_true_iff in Hg as [-> | Hg]; try done;
    destruct (permission_to_authority c (pw_permission p)) as [[a|]|] eqn:Ea; try done;
    apply orb_true_iff; right; apply IH; [by eapply co_auths | done].
Qed.

Lemma sat_mono_le c n n' auth : checker_ok c -> auth_ok auth -> (n <= n')%nat ->
  sat c n auth = true -> sat c n' auth = true.
Proof. intros Hc Ha Hle Hs. induction Hle; [done|]. by apply sat_mono. Qed.

Lemma grants_mono_le c n n' m : checker_ok c -> (n <= n')%nat ->
  grants c n m = true -> grants c n' m = true.
Proof.
  intros Hc Hle. destruct m as [p|k|w]; try done. unfold grants, grants_with.
  rewrite !orb_true_iff. intros [Hg|Hg]; [by left|right].
  destruct (permission_to_authority c (pw_permission p)) as [[a|]|] eqn:Ea; try done.
  destruct n as [|n]; [done|]. destruct n' as [|n']; [lia|].
  eapply sat_mono_le; [done | by eapply co_auths | | exact Hg]. lia.
Qed.

(** The permission is granted by some finite derivation. *)
Definition perm_granted (c : checker) (p : permission_level) : Prop :=
  exists n, grants c n (MetaAccount (mk_plw p 0)) = true.

Definition cache_sound (c : checker) (m : permission_cache) : Prop :=
  forall p, m !! p = Some permission_satisfied -> perm_granted c p.

Lemma cache_sound_insert c (m : permission_cache) p st :
  cache_sound c m -> (st = permission_satisfied -> perm_granted c p) ->
  cache_sound c (<[p := st]> m).
Proof.
  intros Hs Hp q Hq. apply lookup_insert_Some in Hq as [[<- ->]|[_ Hq]]; auto.
Qed.

Lemma status_sound c (m : permission_cache) p : checker_ok c -> cache_sound c m ->
  permission_status_in_cache m p = Some permission_satisfied -> perm_granted c p.
Proof.
  intros Hc Hs Hst. unfold permission_status_in_cache in Hst.
  destruct (m !! p) eqn:E; [apply Hs; congruence|].
  destruct (Hs _ Hst) as [n Hn]. exists n. unfold grants, grants_with in *. simpl in *.
  apply orb_true_iff in Hn as [Hn|Hn].
  - apply orb_true_iff. left. unfold provided in *. simpl in Hn.
    apply orb_true_iff. right. by destruct (bool_decide ((p.1, 0) ∈ _)).
  - destruct (permission_to_authority c (p.1, 0)) as [[a|]|] eqn:Ea; try done.
    by apply co_named in Ea.
Qed.

Lemma find_key_elem k ks i : find_key k ks = Some i -> k ∈ ks.
Proof.
  revert i. induction ks as [|x ks IH]; intros i Hi; simpl in Hi; [done|].
  destruct (decide (x = k)) as [->|]; [by left|]. right.
  destruct (find_key k ks) eqn:E; [|done]. by eapply IH.
Qed.

(** The recursive call is sound. *)
Definition rec_sound (c : checker) (rec : option (authority -> cstate -> result (bool * cstate))) : Prop :=
  match rec with
  | None => True
  | Some f => forall a st r st', auth_ok a -> cache_sound c (cache st) -> f a st = Ok (r, st') ->
                cache_sound c (cache st') /\ (r = true -> exists n, sat c n a = true)
  end.

Lemma perm_granted_by c p w a n :
  permission_to_authority c p = Ok (Some a) -> sat c n a = true ->
  grants c (S n) (MetaAccount (mk_plw p w)) = true.
Proof. intros Ea Hn. unfold grants, grants_with. simpl. rewrite Ea, Hn. apply orb_true_r. Qed.

Lemma visit_sound c rec m total st total' st' :
  checker_ok c -> rec_sound c rec -> is_u16 (meta_weight m) -> 0 <= total ->
  total + meta_weight m < 2 ^ 32 -> cache_sound c (cache st) ->
  visit c rec m total st = Ok (total', st') ->
  cache_sound c (cache st') /\
  (total' = total \/ (total' = total + meta_weight m /\ exists n, grants c n m = true)).
Proof.
  intros Hc Hrec Hw Ht Hfit Hs Hv. unfold is_u16 in Hw.
  assert (Eu : u32 (total + meta_weight m) = total + meta_weight m) by (apply u32_small; unfold is_u32; lia).
  destruct m as [p|k|w]; simpl in Hv, Eu |- *.
  - destruct (permission_status_in_cache (cache st) (pw_permission p)) as [status|] eqn:Est.
    + destruct status; ok_inv; injection Hv as <- <-; (split; [done|]); auto. right. split; [done|].
      destruct (status_sound _ _ _ Hc Hs Est) as [n Hn]. by exists n.
    + destruct rec as [f|]; [|ok_inv; injection Hv as <- <-; auto].
      ok_bind Hv as [a|] Ha; [|ok_inv; injection Hv as <- <-; auto].
      ok_bind Hv as [r st1] Hr. apply Hrec in Hr as [Hs1 Hr]; [|by eapply co_auths|].
      2:{ apply cache_sound_insert; [done|discriminate]. }
      destruct r; ok_inv; injection Hv as <- <-; simpl.
      * destruct (Hr eq_refl) as [n Hn]. split.
        -- apply cache_sound_insert; [done|]. intros _. exists (S n). by eapply perm_granted_by.
        -- right. split; [done|]. exists (S n). destruct p. by eapply perm_granted_by.
      * split; [|auto]. apply cache_sound_insert; [done|discriminate].
  - destruct (find_key (kw_key k) (provided_keys c)) as [i|] eqn:E; ok_inv; injection Hv as <- <-; auto.
    split; [done|]. right. split; [done|]. exists O. unfold grants. simpl.
    apply bool_decide_eq_true. by eapply find_key_elem.
  - ok_inv. injection Hv as <- <-. split; [done|].
    destruct (provided_delay c >=? 1000000 * ww_sec w) eqn:E; [|by left]. right. split; [done|].
    exists O. unfold grants. simpl. lia.
Qed.

Lemma tally_sound c rec thr l total st r st' :
  checker_ok c -> rec_sound c rec -> Forall (fun m => is_u16 (meta_weight m)) l -> 0 <= total ->
  total + (2 ^ 16 - 1) * Z.of_nat (length l) < 2 ^ 32 -> cache_sound c (cache st) ->
  tally c rec thr l total st = Ok (r, st') ->
  cache_sound c (cache st') /\
  (r = true -> exists n, thr <= total + weight_sum (grants c n) l).
Proof.
  intros Hc Hrec Hl. revert total st. induction Hl as [|m l Hm Hl IH]; intros total st Ht Hfit Hs H1.
  - simpl in H1. ok_inv. by injection H1 as <- <-.
  - simpl in H1. ok_bind H1 as [total1 st1] Hv. cbn [length] in Hfit. pose proof Hm as Hm'.
    unfold is_u16 in Hm'.
    apply visit_sound in Hv as [Hs1 Htot]; [|done..|lia|done].
    assert (Htot1 : 0 <= total1 <= total + meta_weight m) by (destruct Htot as [->|[-> _]]; lia).
    assert (Hstep : exists n, forall n', (n <= n')%nat ->
      total1 <= total + (if grants c n' m then meta_weight m else 0)).
    { destruct Htot as [->|[-> [n Hn]]]; [exists O | exists n]; intros n' Hn'.
      - destruct (grants c n' m); lia.
      - rewrite (grants_mono_le c n n' m) by done. lia. }
    destruct Hstep as [n Hn]. destruct (total1 >=? thr) eqn:E.
    + ok_inv. injection H1 as <- <-. split; [done|]. intros _. exists n. simpl.
      specialize (Hn n ltac:(lia)). pose proof (weight_sum_bound (grants c n) l Hl). lia.
    + apply IH in H1 as [Hs' Hr]; [|lia..|done]. split; [done|]. intros Htrue.
      destruct (Hr Htrue) as [n2 Hn2]. exists (Nat.max n n2). simpl.
      specialize (Hn (Nat.max n n2) ltac:(lia)).
      assert (weight_sum (grants c n2) l <= weight_sum (grants c (Nat.max n n2)) l); [|lia].
      apply weight_sum_mono; [done|]. intros m' _. apply grants_mono_le; [done|lia].
Qed.

Lemma satisfied_at_sound c levels : checker_ok c -> rec_sound c (Some (satisfied_at c levels)).
Proof.
  intros Hc. induction levels as [|levels IH]; intros a st r st' Ha Hs Hr; simpl in Hr;
    ok_bind Hr as [b st1] Ht;
    (apply tally_sound in Ht as [Hs1 Hsat];
      [|done|done|rewrite meta_permissions_perm; apply Ha|lia| |done];
      [|destruct Ha; rewrite meta_permissions_perm; lia]);
    destruct b; ok_inv; injection Hr as <- <-; (split; [done|]); try done;
    intros _; destruct (Hsat eq_refl) as [n Hn]; exists n; rewrite sat_unfold; apply Z.leb_le;
    rewrite (weight_sum_perm _ _ _ (meta_permissions_perm a)) in Hn; lia.
Qed.

Lemma initial_cache_sound c : cache_sound c (initial_cache c).
Proof.
  intros p Hp. apply elem_of_list_to_map_2, list_elem_of_fmap in Hp as (q & E & Hq).
  injection E as -> . exists O. unfold grants, grants_with, provided. simpl.
  by rewrite (bool_decide_eq_true_2 _ Hq).
Qed.

(** If the checker accepts an authority, the provided keys, permissions and
    delay really reach its threshold, through authorities that are satisfied
    in turn; cycles of permissions and the cache never contribute weight that
    nothing backs. *)
Theorem satisfied_sound c auth used used' :
  checker_ok c -> auth_ok auth -> satisfied c auth used = Ok (true, used') ->
  exists n, sat c n auth = true.
Proof.
  intros Hc Ha H1. unfold satisfied in H1. ok_bind H1 as [r st] Hr. ok_inv. injection H1 as -> <-.
  pose proof (satisfied_at_sound c (recursion_depth_limit c) Hc) as Hsound.
  by apply Hsound in Hr as [_ Hr]; [apply Hr | done | apply initial_cache_sound].
Qed.

(** The same for a permission. *)
Lemma satisfied_permission_sound c p used used' :
  checker_ok c -> satisfied_permission c p used = Ok (true, used') -> perm_granted c p.
Proof.
  intros Hc H1. unfold satisfied_permission in H1. ok_bind H1 as [w st] Hv. ok_inv.
  injection H1 as Hw <-.
  apply visit_sound in Hv as [_ [->|[_ [n Hn]]]]; try done.
  - by exists n.
  - destruct (recursion_depth_limit c); [done|]. by apply satisfied_at_sound.
  - apply initial_cache_sound.
Qed.

(** ** Authorities of keys and waits: the checker decides exactly *)

Lemma find_key_iff k (ks : list key) : is_Some (find_key k ks) <-> k ∈ ks.
Proof.
  split; [intros [i Hi]; by eapply find_key_elem|].
  induction ks as [|x ks IH]; intros Hk; [by apply not_elem_of_nil in Hk|]. simpl.
  destruct (decide (x = k)); [by eexists|]. apply elem_of_cons in Hk as [->|Hk]; [done|].
  destruct (IH Hk) as [i ->]. by eexists.
Qed.

Definition is_account_factor (m : meta_permission) : bool :=
  match m with MetaAccount _ => true | _ => false end.

Lemma visit_flat c rec m total st :
  is_account_factor m = false -> is_u16 (meta_weight m) -> 0 <= total ->
  total + meta_weight m < 2 ^ 32 ->
  exists st', visit c rec m total st =
    Ok (total + (if grants c 0 m then meta_weight m else 0), st').
Proof.
  intros Hf Hw Ht Hfit. unfold is_u16 in Hw.
  assert (Eu : u32 (total + meta_weight m) = total + meta_weight m) by (apply u32_small; unfold is_u32; lia).
  destruct m as [p|k|w]; simpl in *; [done| |].
  - unfold grants, grants_with. destruct (find_key (kw_key k) (provided_keys c)) eqn:E.
    + rewrite bool_decide_eq_true_2, Eu by (apply find_key_iff; by rewrite E). eauto.
    + rewrite bool_decide_eq_false_2, Z.add_0_r; [eauto|]. rewrite <- find_key_iff, E. by intros [].
  - unfold grants, grants_with. rewrite Z.geb_leb. destruct (_ <=? _); rewrite ?Eu, ?Z.add_0_r; eauto.
Qed.

Lemma tally_flat c rec thr l total st :
  Forall (fun m => is_u16 (meta_weight m)) l -> Forall (fun m => is_account_factor m = false) l ->
  0 <= total < thr -> total + (2 ^ 16 - 1) * Z.of_nat (length l) < 2 ^ 32 ->
  exists st', tally c rec thr l total st = Ok (thr <=? total + weight_sum (grants c 0) l, st').
Proof.
  intros Hl. revert total st. induction Hl as [|m l Hm Hl IH]; intros total st Hf Ht Hfit; simpl.
  - replace (thr <=? total + 0) with false by lia. eauto.
  - apply Forall_cons in Hf as [Hfm Hf]. cbn [length] in Hfit. pose proof Hm as Hm'. unfold is_u16 in Hm'.
    destruct (visit_flat c rec m total st) as [st1 ->]; [done|done|lia|lia|]. cbn [mbind result_bind].
    set (total1 := total + (if grants c 0 m then meta_weight m else 0)).
    assert (total1 <= total + meta_weight m) by (unfold total1; destruct (grants c 0 m); lia).
    assert (0 <= total1) by (unfold total1; destruct (grants c 0 m); lia).
    pose proof (weight_sum_bound (grants c 0) l Hl).
    destruct (total1 >=? thr) eqn:E.
    + replace (thr <=? _) with true; [eauto|]. unfold total1 in *. lia.
    + destruct (IH total1 st1) as [st' ->]; [done|lia|lia|]. exists st'. do 2 f_equal.
      unfold total1. f_equal. lia.
Qed.

(** An authority of keys and waits alone is accepted if and only if the
    provided keys and the delay reach its threshold. *)
Theorem satisfied_flat_exact c auth used :
  auth_ok auth -> accounts auth = [] -> 0 < threshold auth ->
  exists used', satisfied c auth used = Ok (sat c 0 auth, used').
Proof.
  intros [Hw Hlen] Hacc Hthr. unfold satisfied.
  set (st := mk_cstate used (initial_cache c)).
  assert (Hf : Forall (fun m => is_account_factor m = false) (factors auth)).
  { unfold factors. rewrite Hacc. simpl. rewrite app_nil_r, Forall_app, !Forall_fmap.
    split; by apply Forall_true. }
  assert (Hs : forall rec, exists st', tally c rec (threshold auth) (meta_permissions auth) 0 st =
    Ok (sat c 0 auth, st')).
  { intros rec. rewrite sat_unfold, <- (weight_sum_perm _ _ _ (meta_permissions_perm auth)).
    apply tally_flat; rewrite ?meta_permissions_perm; try done; lia. }
  assert (Hat : forall levels, exists st', satisfied_at c levels auth st = Ok (sat c 0 auth, st')).
  { intros [|levels]; cbn [satisfied_at];
      [destruct (Hs None) as [st' ->] | destruct (Hs (Some (satisfied_at c levels))) as [st' ->]];
      cbn [mbind result_bind]; destruct (sat c 0 auth); eauto. }
  destruct (Hat (recursion_depth_limit c)) as [st' ->]. cbn [mbind result_bind]. eauto.
Qed.

(** ** [validate] *)

Section Loop.
Context {A : Type} (lt : A -> A -> bool) (weight : A -> Z).

(** Consecutive entries are in order. *)
Fixpoint increasing (l : list A) : Prop :=
  match l with
  | x :: ((y :: _) as l') => lt x y = true /\ increasing l'
  | _ => True
  end.

Fixpoint sum_weights (l : list A) : Z :=
  match l with [] => 0 | x :: l => weight x + sum_weights l end.

Lemma validate_loop_spec prev (l : list A) total :
  Forall (fun x => is_u16 (weight x)) l -> 0 <= total ->
  total + (2 ^ 16 - 1) * Z.of_nat (length l) < 2 ^ 32 ->
  forall r, validate_loop lt weight prev l total = Some r <->
    increasing (match prev with Some p => p :: l | None => l end) /\ r = total + sum_weights l.
Proof.
  intros Hl. revert prev total. induction Hl as [|x l Hx Hl IH]; intros prev total Ht Hfit r; simpl.
  - rewrite Z.add_0_r. destruct prev; split; [intros [= <-]|intros [_ ->]|intros [= <-]|intros [_ ->]]; done.
  - cbn [length] in Hfit. unfold is_u16 in Hx. rewrite u32_small by (unfold is_u32; lia).
    specialize (IH (Some x) (total + weight x) ltac:(lia) ltac:(lia) r).
    replace (total + (weight x + sum_weights l)) with (total + weight x + sum_weights l) by lia.
    destruct prev as [p|]; [|exact IH]. destruct (lt p x) eqn:E; [rewrite IH; simpl; intuition congruence|].
    split; [done|]. intros [[E' _] _]. congruence.
Qed.

Lemma sum_weights_bound (l : list A) : Forall (fun x => is_u16 (weight x)) l ->
  0 <= sum_weights l <= (2 ^ 16 - 1) * Z.of_nat (length l).
Proof. induction 1 as [|x l Hx _ IH]; simpl; [lia|]. unfold is_u16 in Hx. lia. Qed.

Lemma weight_sum_all (f : A -> meta_permission) (l : list A) :
  (forall x, meta_weight (f x) = weight x) ->
  weight_sum (fun _ => true) (f <$> l) = sum_weights l.
Proof. intros Hf. induction l as [|x l IH]; [done|].
  rewrite fmap_cons. cbn [weight_sum sum_weights]. by rewrite Hf, IH.
Qed.
End Loop.

Lemma validate_spec auth :
  Forall (fun m => is_u16 (meta_weight m)) (factors auth) ->
  validate auth = true <->
  Z.of_nat (length (factors auth)) <= 2 ^ 16 /\ threshold auth <> 0 /\
  increasing key_before (keys auth) /\ increasing perm_before (accounts auth) /\
  increasing wait_before (waits auth) /\ (forall w ws, waits auth = w :: ws -> ww_sec w <> 0) /\
  threshold auth <= weight_sum (fun _ => true) (factors auth).
Proof.
  intros Hw. unfold factors in Hw. rewrite !Forall_app, !Forall_fmap in Hw. destruct Hw as (Hww & Hwk & Hwa).
  unfold validate, factors. rewrite !weight_sum_app, !length_app, !length_fmap.
  rewrite (weight_sum_all kw_weight), (weight_sum_all pw_weight), (weight_sum_all ww_weight) by done.
  destruct (_ >? 2 ^ 16) eqn:Elen; [split; [done|]; lia|].
  destruct (threshold auth =? 0) eqn:Ethr; [split; [done|]; lia|].
  pose proof (Nat2Z.is_nonneg (length (keys auth))).
  pose proof (Nat2Z.is_nonneg (length (accounts auth))).
  pose proof (Nat2Z.is_nonneg (length (waits auth))).
  assert (Hk : 0 <= sum_weights kw_weight (keys auth) <= (2 ^ 16 - 1) * Z.of_nat (length (keys auth)))
    by (by apply sum_weights_bound).
  assert (Ha : 0 <= sum_weights pw_weight (accounts auth) <=
    (2 ^ 16 - 1) * Z.of_nat (length (accounts auth))) by (by apply sum_weights_bound).
  epose proof (validate_loop_spec key_before kw_weight None (keys auth) 0 Hwk _ _) as Hkeys.
  destruct (validate_loop key_before _ _ _ _) as [t1|].
  2:{ split; [done|]. intros (_ & _ & Hi & _). by discriminate (proj2 (Hkeys _) (conj Hi eq_refl)). }
  destruct (proj1 (Hkeys t1) eq_refl) as [Ik ->].
  epose proof (validate_loop_spec perm_before pw_weight None (accounts auth)
    (0 + sum_weights kw_weight (keys auth)) Hwa _ _) as Haccs.
  destruct (validate_loop perm_before _ _ _ _) as [t2|].
  2:{ split; [done|]. intros (_ & _ & _ & Hi & _). by discriminate (proj2 (Haccs _) (conj Hi eq_refl)). }
  destruct (proj1 (Haccs t2) eq_refl) as [Ia ->].
  assert (Hfirst : (match waits auth with w :: _ => ww_sec w =? 0 | [] => false end) = false <->
    (forall w ws, waits auth = w :: ws -> ww_sec w <> 0)).
  { destruct (waits auth) as [|w ws]; [done|]. rewrite Z.eqb_neq. split; [|by eauto].
    by intros Hne w' ws' [= -> _]. }
  destruct (match waits auth with w :: _ => ww_sec w =? 0 | [] => false end) eqn:Efirst.
  { split; [done|]. intros (_ & _ & _ & _ & _ & Hf & _). by apply Hfirst in Hf. }
  epose proof (validate_loop_spec wait_before ww_weight None (waits auth)
    (0 + sum_weights kw_weight (keys auth) + sum_weights pw_weight (accounts auth)) Hww
    _ _) as Hwaits.
  destruct (validate_loop wait_before _ _ _ _) as [t3|].
  2:{ split; [done|]. intros (_ & _ & _ & _ & Hi & _). by discriminate (proj2 (Hwaits _) (conj Hi eq_refl)). }
  destruct (proj1 (Hwaits t3) eq_refl) as [Iw ->]. rewrite Z.geb_le.
  split; [intros; split_and!; try done; try lia; by apply Hfirst | lia].
  Unshelve. all: lia.
Qed.

(** [validate] accepts exactly the authorities whose keys, permissions and
    waits are strictly sorted, whose first wait is not zero, and whose
    threshold is positive and can be reached; the 32-bit sum never wraps. *)
Theorem validate_exact auth :
  Forall (fun m => is_u16 (meta_weight m)) (factors auth) ->
  validate auth = true <->
  Z.of_nat (length (factors auth)) <= 2 ^ 16 /\ threshold auth <> 0 /\
  increasing key_before (keys auth) /\ increasing perm_before (accounts auth) /\
  increasing wait_before (waits auth) /\ (forall w ws, waits auth = w :: ws -> ww_sec w <> 0) /\
  threshold auth <= weight_sum (fun _ => true) (factors auth).
Proof. apply validate_spec. Qed.
End Spec.

(** ** Concrete authorities

    The hypotheses of the soundness theorems at a concrete checker, and a
    run in which the markers of used keys miss a key that was needed. *)

#[export] Program Instance key_number : PublicKey Z := { pk_lt := Z.ltb }.
Next Obligation. apply Z.ltb_irrefl. Qed.
Next Obligation. lia. Qed.

Definition active : Z := 1.
Definition acct_a : permission_level := (10, active).
Definition acct_p : permission_level := (20, active).
Definition acct_q : permission_level := (30, active).
Definition key_p : Z := 7.
Definition key_q : Z := 8.

Definition auth_a : authority (key := Z) := mk_authority 2 [] [mk_plw acct_p 1; mk_plw acct_q 1] [].
Definition auth_p : authority (key := Z) := authority_of_key (key := Z) key_p 0.
Definition auth_q : authority (key := Z) := authority_of_key (key := Z) key_q 0.
(** Either [a], or [p] alone. *)
Definition auth_top : authority (key := Z) := mk_authority 1 [] [mk_plw acct_a 2; mk_plw acct_p 1] [].

Definition lookup_auth (p : permission_level) : result (option (authority (key := Z))) :=
  if decide (p = acct_a) then Ok (Some auth_a)
  else if decide (p = acct_p) then Ok (Some auth_p)
  else if decide (p = acct_q) then Ok (Some auth_q) else Ok None.

(** Six levels, as [max_authority_depth] has it. *)
Definition chk (keys : list Z) : checker (key := Z) := mk_checker lookup_auth 6 keys [] 0.

Lemma chk_ok keys : checker_ok (chk keys).
Proof.
  split; simpl; unfold lookup_auth.
  - intros p a Ha. repeat case_decide; simplify_eq; (split; [|simpl; lia]);
      repeat constructor; simpl; lia.
  - intros actor a. unfold acct_a, acct_p, acct_q, active. repeat case_decide; simplify_eq; done.
Qed.

Lemma auth_top_ok : auth_ok auth_top.
Proof. split; [repeat constructor; simpl; lia | simpl; lia]. Qed.

Lemma satisfied_sound_witness : exists n, sat (chk [key_p]) n auth_top = true.
Proof.
  apply (satisfied_sound (chk [key_p]) auth_top [false] [false]).
  - apply chk_ok.
  - apply auth_top_ok.
  - vm_compute. reflexivity.
Defined.

Lemma satisfied_flat_exact_witness :
  exists used', satisfied (chk [key_p]) auth_p [false] = Ok (sat (chk [key_p]) 0 auth_p, used').
Proof.
  apply (satisfied_flat_exact (chk [key_p]) auth_p [false]).
  - split; [repeat constructor; simpl; lia | simpl; lia].
  - reflexivity.
  - reflexivity.
Defined.

Lemma validate_exact_witness : validate auth_a = true <->
  Z.of_nat (length (factors auth_a)) <= 2 ^ 16 /\ threshold auth_a <> 0 /\
  increasing key_before (keys auth_a) /\ increasing perm_before (accounts auth_a) /\
  increasing wait_before (waits auth_a) /\ (forall w ws, waits auth_a = w :: ws -> ww_sec w <> 0) /\
  threshold auth_a <= weight_sum (fun _ => true) (factors auth_a).
Proof. apply (validate_exact auth_a). repeat constructor; simpl; lia. Defined.

(** The key of [p] satisfies [auth_top], and nothing does without it; yet it
    is reported as unused.  [a], tried first, marks the key and caches [p] as
    satisfied; when [a] fails the marker is reverted, the cache is not. *)
Example needed_key_reported_unused :
  satisfied (chk [key_p]) auth_top [false] = Ok (true, [false]) /\
  satisfied (chk []) auth_top [] = Ok (false, []) /\
  all_keys_used [false] = false /\ unused_keys (chk [key_p]) [false] = [key_p].
Proof. split_and!; vm_compute; reflexivity. Qed.
