(* ===== verification/Authorization.v ===== *)
(** * The authorization manager ([authorization_manager.cpp],
    [permission_object.hpp], [permission_link_object.hpp])

    Permissions form a tree per account; actions are linked to minimum
    permissions; [check_authorization] decides whether a transaction may run.
    The time checks in its loops either abort the transaction or do nothing
    and are left out. *)

From stdpp Require Import base numbers list gmap strings sorting.
From Stdlib Require Import ZArith Lia.
From Stdlib Require String.
From S2P Require Import Prelude Boost Names Authority.
Local Open Scope Z_scope.

(** [N(...)] *)
Definition N_ (s : string) : Z := string_to_name (String.list_ascii_of_string s).
Definition system_account_name : Z := N_ "eosio".
Definition active_name : Z := N_ "active".
Definition owner_name : Z := N_ "owner".
Definition eosio_any_name : Z := N_ "eosio.any".
Definition eosio_code_name : Z := N_ "eosio.code".

Section Authorization.
Context {key : Type} `{PublicKey key}.
#[local] Abbreviation authority := (authority (key := key)).
#[local] Abbreviation checker := (checker (key := key)).

Record permission_object := mk_permission {
  po_id : Z; po_usage_id : Z; po_parent : Z; po_owner : Z; po_name : Z;
  po_last_updated : Z; po_auth : authority }.

(** The permission, usage and link tables.  Ids are handed out by counters;
    [perm_index] is the by_owner index, [links] the by_action_name index. *)
Record adb := mk_adb {
  perms : gmap Z permission_object; perm_index : gmap (Z * Z) Z; perm_next : Z;
  perm_usages : gmap Z Z; usage_next : Z;
  links : gmap (Z * Z * Z) Z }.

Definition adb_empty : adb := mk_adb ∅ ∅ 0 ∅ 0 ∅.

(** [permission_object::satisfies]: the walk up the parents of [other].  A
    parent that is not found is an iterator past the end. *)
Fixpoint satisfies_walk (fuel : nat) (m : gmap Z permission_object) (id : Z)
    (parent : permission_object) : result bool :=
  if id =? po_parent parent then Ok true
  else if po_parent parent =? 0 then Ok false
  else
    match fuel with
    | O => Err "out of fuel"
    | S fuel =>
      parent ← of_option (m !! po_parent parent) "end iterator dereferenced";
      satisfies_walk fuel m id parent
    end.

(** Parents have smaller ids: the id of the parent bounds the walk. *)
Definition satisfies (m : gmap Z permission_object) (self other : permission_object) : result bool :=
  if negb (po_owner self =? po_owner other) then Ok false
  else if (po_id self =? po_id other) || (po_id self =? po_parent other) then Ok true
  else
    parent ← of_option (m !! po_parent other) "end iterator dereferenced";
    satisfies_walk (Z.to_nat (po_id parent)) m (po_id self) parent.

(** ** Creating and changing permissions *)

Definition insert_permission (db : adb) (p : permission_object) (usages : gmap Z Z) (unext : Z)
    : result adb :=
  check (bool_decide (perm_index db !! (po_owner p, po_name p) = None)) "could not insert object" ;;
  Ok (mk_adb (<[po_id p := p]> (perms db)) (<[(po_owner p, po_name p) := po_id p]> (perm_index db))
        (perm_next db + 1) usages unext (links db)).

(** [initialize_database]: reserves permission 0. *)
Definition initialize_database (db : adb) : result adb :=
  insert_permission db (mk_permission (perm_next db) 0 0 0 0 0 (mk_authority 0 [] [] []))
    (perm_usages db) (usage_next db).

Definition create_permission (pending_block_time : Z) (account name parent : Z) (auth : authority)
    (initial_creation_time : Z) (db : adb) : result (permission_object * adb) :=
  let creation_time := if initial_creation_time =? 0 then pending_block_time
                       else initial_creation_time in
  let p := mk_permission (perm_next db) (usage_next db) parent account name creation_time auth in
  db ← insert_permission db p (<[usage_next db := creation_time]> (perm_usages db)) (usage_next db + 1);
  Ok (p, db).

Definition set_perm (db : adb) (p : permission_object) : adb :=
  mk_adb (<[po_id p := p]> (perms db)) (perm_index db) (perm_next db) (perm_usages db)
    (usage_next db) (links db).

Definition modify_permission (pending_block_time : Z) (p : permission_object) (auth : authority)
    (db : adb) : adb :=
  set_perm db (mk_permission (po_id p) (po_usage_id p) (po_parent p) (po_owner p) (po_name p)
                 pending_block_time auth).

Definition has_children (db : adb) (id : Z) : bool :=
  existsb (fun kv : Z * permission_object => po_parent kv.2 =? id) (map_to_list (perms db)).

Definition remove_permission (p : permission_object) (db : adb) : result adb :=
  check (negb (has_children db (po_id p)))
    "Cannot remove a permission which has children. Remove the children first." ;;
  of_option (perm_usages db !! po_usage_id p) "unable to find permission_usage_object" ;;
  Ok (mk_adb (delete (po_id p) (perms db)) (delete (po_owner p, po_name p) (perm_index db))
        (perm_next db) (delete (po_usage_id p) (perm_usages db)) (usage_next db) (links db)).

Definition update_permission_usage (pending_block_time : Z) (p : permission_object) (db : adb)
    : result adb :=
  of_option (perm_usages db !! po_usage_id p) "unable to find permission_usage_object" ;;
  Ok (mk_adb (perms db) (perm_index db) (perm_next db)
        (<[po_usage_id p := pending_block_time]> (perm_usages db)) (usage_next db) (links db)).

Definition get_permission_last_used (db : adb) (p : permission_object) : result Z :=
  of_option (perm_usages db !! po_usage_id p) "unable to find permission_usage_object".

(** ** Queries *)

Definition find_permission (db : adb) (level : permission_level) : result (option permission_object) :=
  check (negb (level.1 =? 0) && negb (level.2 =? 0)) "Invalid permission" ;;
  Ok (perm_index db !! level ≫= fun id => perms db !! id).

Definition get_permission (db : adb) (level : permission_level) : result permission_object :=
  p ← find_permission db level;
  of_option p "Failed to retrieve permission".

Definition lookup_linked_permission (db : adb) (authorizer scope act_name : Z) : option Z :=
  match links db !! (authorizer, scope, act_name) with
  | Some p => Some p
  | None => links db !! (authorizer, scope, 0)
  end.

Definition native_unlinkable (act_name : Z) : bool :=
  (act_name =? N_ "updateauth") || (act_name =? N_ "deleteauth") || (act_name =? N_ "linkauth") ||
  (act_name =? N_ "unlinkauth") || (act_name =? N_ "canceldelay").

(** [None] when the action is linked to eosio.any. *)
Definition lookup_minimum_permission (db : adb) (authorizer scope act_name : Z)
    : result (option Z) :=
  (if scope =? system_account_name then
     check (negb (native_unlinkable act_name))
       "cannot call lookup_minimum_permission on native actions that are not allowed to be linked to minimum permissions"
   else Ok tt) ;;
  match lookup_linked_permission db authorizer scope act_name with
  | None => Ok (Some active_name)
  | Some linked => if linked =? eosio_any_name then Ok None else Ok (Some linked)
  end.

(** ** Native actions *)

Record updateauth := mk_updateauth {
  ua_account : Z; ua_permission : Z; ua_parent : Z; ua_auth : authority }.
Record deleteauth := mk_deleteauth { da_account : Z; da_permission : Z }.
Record linkauth := mk_linkauth { la_account : Z; la_code : Z; la_type : Z; la_requirement : Z }.
Record unlinkauth := mk_unlinkauth { ul_account : Z; ul_code : Z; ul_type : Z }.
Record canceldelay := mk_canceldelay { cd_canceling_auth : permission_level; cd_trx_id : Z }.

(** The data of an action, as [data_as] decodes it. *)
Inductive native_data :=
| Updateauth (u : updateauth) | Deleteauth (d : deleteauth) | Linkauth (l : linkauth)
| Unlinkauth (u : unlinkauth) | Canceldelay (c : canceldelay) | OtherData (data : chars).

Record chain_action := mk_action {
  act_account : Z; act_name : Z; act_authorization : list permission_level; act_data : native_data }.

(** A deferred transaction: its sender and times, and the authorizations of
    the actions of the packed transaction. *)
Record generated_transaction := mk_gto {
  gto_sender : Z; gto_delay_until : Z; gto_published : Z; gto_auths : list (list permission_level) }.

(** What the manager asks the controller for. *)
Record control := mk_control {
  max_transaction_delay : Z; max_authority_depth : nat;
  fix_linkauth_restriction : bool; generated : gmap Z generated_transaction }.

Definition one_auth (auths : list permission_level) (msg : string) : result permission_level :=
  match auths with [a] => Ok a | _ => Err msg end.

Definition require_satisfies (db : adb) (auth min : permission_object) (msg : string) : result unit :=
  b ← satisfies (perms db) auth min; check b msg.

Definition check_updateauth_authorization (db : adb) (update : updateauth)
    (auths : list permission_level) : result unit :=
  auth ← one_auth auths "updateauth action should only have one declared authorization";
  check (auth.1 =? ua_account update)
    "the owner of the affected permission needs to be the actor of the declared authorization" ;;
  found ← find_permission db (ua_account update, ua_permission update);
  min_permission ← (match found with
                    | Some p => Ok p
                    | None => get_permission db (ua_account update, ua_parent update)
                    end);
  p ← get_permission db auth;
  require_satisfies db p min_permission "updateauth action declares irrelevant authority".

Definition check_deleteauth_authorization (db : adb) (del : deleteauth)
    (auths : list permission_level) : result unit :=
  auth ← one_auth auths "deleteauth action should only have one declared authorization";
  check (auth.1 =? da_account del)
    "the owner of the permission to delete needs to be the actor of the declared authorization" ;;
  min_permission ← get_permission db (da_account del, da_permission del);
  p ← get_permission db auth;
  require_satisfies db p min_permission "updateauth action declares irrelevant authority".

Definition check_linkauth_authorization (ctl : control) (db : adb) (link : linkauth)
    (auths : list permission_level) : result unit :=
  auth ← one_auth auths "link action should only have one declared authorization";
  check (auth.1 =? la_account link)
    "the owner of the linked permission needs to be the actor of the declared authorization" ;;
  (if (la_code link =? system_account_name) || negb (fix_linkauth_restriction ctl) then
     check (negb (native_unlinkable (la_type link))) "Cannot link to a minimum permission"
   else Ok tt) ;;
  linked ← lookup_minimum_permission db (la_account link) (la_code link) (la_type link);
  match linked with
  | None => Ok tt
  | Some name =>
    p ← get_permission db auth;
    min_permission ← get_permission db (la_account link, name);
    require_satisfies db p min_permission "link action declares irrelevant authority"
  end.

Definition check_unlinkauth_authorization (db : adb) (unlink : unlinkauth)
    (auths : list permission_level) : result unit :=
  auth ← one_auth auths "unlink action should only have one declared authorization";
  check (auth.1 =? ul_account unlink)
    "the owner of the linked permission needs to be the actor of the declared authorization" ;;
  name ← of_option (lookup_linked_permission db (ul_account unlink) (ul_code unlink) (ul_type unlink))
           "cannot unlink non-existent permission link";
  if name =? eosio_any_name then Ok tt
  else
    p ← get_permission db auth;
    min_permission ← get_permission db (ul_account unlink, name);
    require_satisfies db p min_permission "unlink action declares irrelevant authority".

Definition check_canceldelay_authorization (ctl : control) (db : adb) (cancel : canceldelay)
    (auths : list permission_level) : result Z :=
  auth ← one_auth auths "canceldelay action should only have one declared authorization";
  p ← get_permission db auth;
  min_permission ← get_permission db (cd_canceling_auth cancel);
  require_satisfies db p min_permission "canceldelay action declares irrelevant authority" ;;
  itr ← of_option (generated ctl !! cd_trx_id cancel) "there is no deferred transaction with that transaction id";
  check (gto_sender itr =? 0) "there is no deferred transaction with that transaction id" ;;
  check (existsb (existsb (fun a => bool_decide (a = cd_canceling_auth cancel))) (gto_auths itr))
    "canceling_auth in canceldelay action was not found as authorization in the original delayed transaction" ;;
  Ok (gto_delay_until itr - gto_published itr).

(** ** [check_authorization] *)

(** The callable given to the checker: a failed [get_permission] is a
    [permission_query_exception]. *)
Definition authority_of (db : adb) (p : permission_level) : result (option authority) :=
  match get_permission db p with Ok po => Ok (Some (po_auth po)) | Err _ => Ok None end.

Definition effective_delay (ctl : control) (provided_delay : Z) : Z :=
  if provided_delay >=? 1000000 * max_transaction_delay ctl then INT64_MAX else provided_delay.

Definition make_checker (ctl : control) (db : adb) (pkeys : list key)
    (pperms : list permission_level) (delay : Z) : checker :=
  mk_checker (authority_of db) (max_authority_depth ctl) pkeys pperms delay.

(** The special treatment of the native actions of the system account:
    whether the action is one of them, and the delay its authorizations have
    to wait for. *)
Definition check_native (ctl : control) (db : adb) (act : chain_action) (delay : Z)
    : result (bool * Z) :=
  if act_account act =? system_account_name then
    if act_name act =? N_ "updateauth" then
      match act_data act with
      | Updateauth u => check_updateauth_authorization db u (act_authorization act) ;; Ok (true, delay)
      | _ => Err "unpack" end
    else if act_name act =? N_ "deleteauth" then
      match act_data act with
      | Deleteauth d => check_deleteauth_authorization db d (act_authorization act) ;; Ok (true, delay)
      | _ => Err "unpack" end
    else if act_name act =? N_ "linkauth" then
      match act_data act with
      | Linkauth l => check_linkauth_authorization ctl db l (act_authorization act) ;; Ok (true, delay)
      | _ => Err "unpack" end
    else if act_name act =? N_ "unlinkauth" then
      match act_data act with
      | Unlinkauth u => check_unlinkauth_authorization db u (act_authorization act) ;; Ok (true, delay)
      | _ => Err "unpack" end
    else if act_name act =? N_ "canceldelay" then
      match act_data act with
      | Canceldelay c => d ← check_canceldelay_authorization ctl db c (act_authorization act);
                         Ok (true, Z.max delay d)
      | _ => Err "unpack" end
    else Ok (false, delay)
  else Ok (false, delay).

(** The declared authorization reaches the minimum permission of the action. *)
Definition check_minimum (db : adb) (act : chain_action) (declared_auth : permission_level)
    : result unit :=
  min_permission_name ← lookup_minimum_permission db declared_auth.1 (act_account act) (act_name act);
  match min_permission_name with
  | None => Ok tt
  | Some name =>
    min_permission ← get_permission db (declared_auth.1, name);
    p ← get_permission db declared_auth;
    require_satisfies db p min_permission "action declares irrelevant authority"
  end.

(** [permissions_to_satisfy.emplace], keeping the smaller delay. *)
Definition want (m : gmap permission_level Z) (p : permission_level) (delay : Z)
    : gmap permission_level Z :=
  match m !! p with
  | None => <[p := delay]> m
  | Some d => if d >? delay then <[p := delay]> m else m
  end.

Definition collect_action (ctl : control) (db : adb) (effective : Z)
    (satisfied_authorizations : list permission_level)
    (m : gmap permission_level Z) (act : chain_action) : result (gmap permission_level Z) :=
  '(special_case, delay) ← check_native ctl db act effective;
  mfold (fun m declared_auth =>
    (if (special_case : bool) then Ok tt else check_minimum db act declared_auth) ;;
    Ok (if bool_decide (declared_auth ∈ satisfied_authorizations) then m
        else want m declared_auth delay)) (act_authorization act) m.

(** Iteration over the map: ascending permission levels. *)
Definition level_le (x y : permission_level * Z) : Prop := level_lt y.1 x.1 = false.
#[global] Instance level_le_dec : RelDecision level_le.
Proof. intros x y. unfold level_le. apply _. Defined.
Definition levels_in_order (m : gmap permission_level Z) : list (permission_level * Z) :=
  merge_sort level_le (map_to_list m).

Definition check_authorization (ctl : control) (db : adb) (actions : list chain_action)
    (pkeys : list key) (pperms : list permission_level) (provided_delay : Z)
    (allow_unused_keys : bool) (satisfied_authorizations : list permission_level) : result unit :=
  let effective := effective_delay ctl provided_delay in
  permissions_to_satisfy ← mfold (collect_action ctl db effective satisfied_authorizations) actions ∅;
  used ← mfold (fun used '(p, delay) =>
      '(r, used) ← satisfied_permission (make_checker ctl db pkeys pperms delay) p used;
      check r "transaction declares authority, but does not have signatures for it" ;;
      Ok used) (levels_in_order permissions_to_satisfy) (replicate (length pkeys) false);
  if allow_unused_keys then Ok tt
  else check (all_keys_used used) "transaction bears irrelevant signatures".

(** The overload for one permission. *)
Definition check_permission (ctl : control) (db : adb) (p : permission_level) (pkeys : list key)
    (pperms : list permission_level) (provided_delay : Z) (allow_unused_keys : bool) : result unit :=
  '(r, used) ← satisfied_permission
      (make_checker ctl db pkeys pperms (effective_delay ctl provided_delay)) p
      (replicate (length pkeys) false);
  check r "permission was not satisfied" ;;
  if allow_unused_keys then Ok tt else check (all_keys_used used) "irrelevant keys provided".

Definition get_required_keys (ctl : control) (db : adb) (actions : list chain_action)
    (candidate_keys : list key) (provided_delay : Z) : result (list key) :=
  let c := make_checker ctl db candidate_keys [] provided_delay in
  used ← mfold (fun used act =>
      mfold (fun used declared_auth =>
        '(r, used) ← satisfied_permission c declared_auth used;
        check r "transaction declares authority, but does not have signatures for it." ;;
        Ok used) (act_authorization act) used)
    actions (replicate (length candidate_keys) false);
  Ok (used_keys c used).
End Authorization.
