(* ===== verification/AuthorizationSpec.v ===== *)
(** * What an authorized transaction means

    The permissions of an account form a tree, [satisfies] is its ancestor
    relation, and a transaction that passes [check_authorization] carries, for
    every authorization it declares, signatures that grant it and that reach
    the minimum permission of the action. *)

From stdpp Require Import base numbers list gmap strings sorting.
From Stdlib Require Import ZArith Lia.
From S2P Require Import Prelude Names Authority AuthoritySpec Authorization.
Local Open Scope Z_scope.

Section Spec.
Context {key : Type} `{PublicKey key}.
#[local] Abbreviation adb := (adb (key := key)).
#[local] Abbreviation permission_object := (permission_object (key := key)).
Implicit Types (db : adb) (p q : permission_object) (m : gmap Z permission_object).

(** ** The permission tree *)

(** Permission 0 is the root; every other permission has a parent that was
    created before it and, unless it is the root, belongs to its owner. *)
Record tree_ok db : Prop := {
  tr_id : forall id p, perms db !! id = Some p -> po_id p = id /\ 0 <= id < perm_next db;
  tr_root : exists p, perms db !! 0 = Some p /\ po_parent p = 0 /\ po_owner p = 0 /\ po_name p = 0;
  tr_parent : forall id p, perms db !! id = Some p -> id <> 0 ->
    0 <= po_parent p < id /\ exists q, perms db !! po_parent p = Some q /\
      (po_parent p <> 0 -> po_owner q = po_owner p);
  tr_index : forall o n id, perm_index db !! (o, n) = Some id ->
    exists p, perms db !! id = Some p /\ po_owner p = o /\ po_name p = n;
  tr_indexed : forall id p, perms db !! id = Some p -> perm_index db !! (po_owner p, po_name p) = Some id;
}.

(** [a] is [id] or lies above it. *)
Inductive ancestor m (a : Z) : Z -> Prop :=
| anc_self : ancestor m a a
| anc_up id p : m !! id = Some p -> ancestor m a (po_parent p) -> ancestor m a id.

Lemma ancestor_root db a : tree_ok db -> ancestor (perms db) a 0 -> a = 0.
Proof.
  intros Ht. destruct (tr_root _ Ht) as (r & Hr & Hp & _).
  enough (forall z, ancestor (perms db) a z -> z = 0 -> a = 0) by eauto.
  intros z Ha. induction Ha as [|id p Hid Ha IH]; [done|]. intros ->. apply IH. congruence.
Qed.

Lemma ancestor_up db a id p : perms db !! id = Some p -> a <> id ->
  ancestor (perms db) a id <-> ancestor (perms db) a (po_parent p).
Proof.
  intros Hid Hne. split; [|by eapply anc_up]. intros Ha. destruct Ha as [|id q Hq Ha]; [done|].
  congruence.
Qed.

Lemma satisfies_walk_spec db fuel id p :
  tree_ok db -> id <> 0 -> perms db !! po_id p = Some p -> po_id p <= Z.of_nat fuel ->
  exists b, satisfies_walk fuel (perms db) id p = Ok b /\
    (b = true <-> ancestor (perms db) id (po_parent p)).
Proof.
  intros Ht Hne. revert p. induction fuel as [|fuel IH]; intros p Hp Hf; simpl;
    (destruct (id =? po_parent p) eqn:E1;
      [exists true; split; [done|]; split; [|done]; intros _;
       replace (po_parent p) with id by lia; constructor|]);
    (destruct (po_parent p =? 0) eqn:E2;
      [exists false; split; [done|]; split; [done|]; intros Ha;
       replace (po_parent p) with 0 in Ha by lia; by apply ancestor_root in Ha|]).
  - exfalso. pose proof (tr_id _ Ht _ _ Hp). destruct (tr_root _ Ht) as (r & Hr & Hpr & _).
    assert (po_id p = 0) as E by lia. rewrite E in Hp. rewrite Hr in Hp. injection Hp as ->. lia.
  - destruct (decide (po_id p = 0)) as [E|E].
    { exfalso. destruct (tr_root _ Ht) as (r & Hr & Hpr & _). rewrite E, Hr in Hp.
      injection Hp as ->. lia. }
    destruct (tr_parent _ Ht _ _ Hp E) as (Hlt & q & Hq & _).
    pose proof (proj1 (tr_id _ Ht _ _ Hq)) as Eq. rewrite Hq. cbn [of_option mbind result_bind].
    destruct (IH q) as (b & Hb & Hiff); [by rewrite Eq | lia|]. exists b. split; [done|].
    rewrite Hiff. symmetry. apply ancestor_up; [done|lia].
Qed.

Lemma satisfies_spec db p other :
  tree_ok db -> perms db !! po_id p = Some p -> perms db !! po_id other = Some other ->
  po_id p <> 0 ->
  exists b, satisfies (perms db) p other = Ok b /\
    (b = true <-> po_owner p = po_owner other /\ ancestor (perms db) (po_id p) (po_id other)).
Proof.
  intros Ht Hp Ho Hne. unfold satisfies.
  destruct (po_owner p =? po_owner other) eqn:Eo; simpl.
  2:{ exists false. split; [done|]. split; [done|]. intros [Eo' _]. lia. }
  assert (po_owner p = po_owner other) by lia.
  destruct (po_id p =? po_id other) eqn:E1; simpl.
  { exists true. split; [done|]. split; [|done]. intros _. split; [done|].
    replace (po_id p) with (po_id other) by lia. constructor. }
  destruct (po_id p =? po_parent other) eqn:E2; simpl.
  { exists true. split; [done|]. split; [|done]. intros _. split; [done|].
    eapply anc_up; [exact Ho|]. replace (po_id p) with (po_parent other) by lia. constructor. }
  assert (Hpar : exists q, perms db !! po_parent other = Some q).
  { destruct (decide (po_id other = 0)) as [E|E].
    - destruct (tr_root _ Ht) as (r & Hr & Hpr & _). rewrite E, Hr in Ho. injection Ho as <-.
      rewrite Hpr. eauto.
    - destruct (tr_parent _ Ht _ _ Ho E) as (_ & q & Hq & _). eauto. }
  destruct Hpar as [q Hq]. rewrite Hq. cbn [of_option mbind result_bind].
  pose proof (tr_id _ Ht _ _ Hq) as [Eq Hb].
  destruct (satisfies_walk_spec db (Z.to_nat (po_id q)) (po_id p) q) as (b & Hwalk & Hiff); try done.
  { by rewrite Eq. } { lia. }
  exists b. split; [done|]. rewrite Hiff.
  rewrite <- (ancestor_up db (po_id p) (po_parent other) q Hq) by lia.
  rewrite <- (ancestor_up db (po_id p) (po_id other) other Ho) by lia. tauto.
Qed.

(** [satisfies] always returns, and holds exactly when the permission is the
    other one or one of its ancestors. *)
Theorem satisfies_iff db p other :
  tree_ok db -> perms db !! po_id p = Some p -> perms db !! po_id other = Some other ->
  po_id p <> 0 ->
  exists b, satisfies (perms db) p other = Ok b /\
    (b = true <-> po_owner p = po_owner other /\ ancestor (perms db) (po_id p) (po_id other)).
Proof. apply satisfies_spec. Qed.

Lemma get_permission_ok db level p : tree_ok db -> get_permission db level = Ok p ->
  perms db !! po_id p = Some p /\ po_owner p = level.1 /\ po_name p = level.2 /\ po_id p <> 0.
Proof.
  intros Ht Hg. unfold get_permission, find_permission in Hg. ok_bind Hg as o Ho.
  ok_bind Ho as ? Hne. ok_inv. subst o. destruct level as [a n].
  destruct (perm_index db !! (a, n)) as [id|] eqn:Ei; [|done]. simpl in Hg.
  destruct (tr_index _ Ht _ _ _ Ei) as (q & Hq & Eo & En). rewrite Hg in Hq. injection Hq as <-.
  pose proof (proj1 (tr_id _ Ht _ _ Hg)) as Eid. rewrite Eid. split_and!; try done.
  intros ->. destruct (tr_root _ Ht) as (r & Hr & _ & Ero & _). rewrite Hr in Hg. injection Hg as ->.
  simpl in *. congruence.
Qed.

(** ** Changes of the tree *)

Lemma insert_permission_tree db p us un db' :
  tree_ok db -> po_id p = perm_next db -> po_owner p <> 0 ->
  0 <= po_parent p ->
  (exists q, perms db !! po_parent p = Some q /\ (po_parent p <> 0 -> po_owner q = po_owner p)) ->
  insert_permission db p us un = Ok db' -> tree_ok db' /\ links db' = links db.
Proof.
  intros Ht Eid Hown H0 (q & Hq & Hqo) H1. unfold insert_permission in H1. ok_bind H1 as ? Hnew. ok_inv.
  subst db'. split; [|done].
  pose proof (tr_id _ Ht _ _ Hq) as [_ Hqb].
  assert (Hfresh : forall id r, perms db !! id = Some r -> id <> po_id p).
  { intros id r Hr. pose proof (tr_id _ Ht _ _ Hr). lia. }
  destruct (tr_root _ Ht) as (r & Hr & Hr2). assert (Hr0 := Hfresh _ _ Hr).
  split; simpl.
  - intros id r' Hid. apply lookup_insert_Some in Hid as [[<- <-]|[_ Hid]]; [lia|].
    pose proof (tr_id _ Ht _ _ Hid). lia.
  - exists r. rewrite lookup_insert_ne by done. done.
  - intros id r' Hid Hne. apply lookup_insert_Some in Hid as [[<- <-]|[_ Hid]].
    + split; [lia|]. exists q. rewrite lookup_insert_ne by (apply not_eq_sym; by eapply Hfresh). done.
    + destruct (tr_parent _ Ht _ _ Hid Hne) as (Hlt & q' & Hq' & Ho). split; [done|]. exists q'.
      rewrite lookup_insert_ne by (apply not_eq_sym; by eapply Hfresh). done.
  - intros o n id Hi. apply lookup_insert_Some in Hi as [[E <-]|[_ Hi]].
    + injection E as <- <-. exists p. rewrite lookup_insert_eq. done.
    + destruct (tr_index _ Ht _ _ _ Hi) as (r' & Hr' & ?). exists r'.
      rewrite lookup_insert_ne by (apply not_eq_sym; by eapply Hfresh). done.
  - intros id r' Hid. apply lookup_insert_Some in Hid as [[<- <-]|[_ Hid]].
    + by rewrite lookup_insert_eq.
    + pose proof (tr_indexed _ Ht _ _ Hid) as Hi. rewrite lookup_insert_ne; [done|].
      intros E. congruence.
Qed.

Lemma modify_permission_tree now auth db p :
  tree_ok db -> perms db !! po_id p = Some p ->
  tree_ok (modify_permission now p auth db) /\ links (modify_permission now p auth db) = links db.
Proof.
  intros Ht Hp. split; [|done].
  set (p' := mk_permission (po_id p) (po_usage_id p) (po_parent p) (po_owner p) (po_name p) now auth).
  assert (Hget : forall id r', <[po_id p := p']> (perms db) !! id = Some r' ->
    exists r, perms db !! id = Some r /\ po_id r' = po_id r /\ po_parent r' = po_parent r /\
              po_owner r' = po_owner r /\ po_name r' = po_name r).
  { intros id r' Hid. apply lookup_insert_Some in Hid as [[<- <-]|[_ Hid]]; [by exists p | by exists r']. }
  assert (Hput : forall id r, perms db !! id = Some r ->
    exists r', <[po_id p := p']> (perms db) !! id = Some r' /\ po_id r' = po_id r /\
      po_parent r' = po_parent r /\ po_owner r' = po_owner r /\ po_name r' = po_name r).
  { intros id r Hid. destruct (decide (id = po_id p)) as [->|Hne].
    - exists p'. rewrite lookup_insert_eq. rewrite Hp in Hid. injection Hid as <-. done.
    - exists r. by rewrite lookup_insert_ne. }
  split; simpl; fold p'.
  - intros id r' Hid. destruct (Hget _ _ Hid) as (r & Hr & -> & _). by apply (tr_id _ Ht).
  - destruct (tr_root _ Ht) as (r & Hr & E1 & E2 & E3). destruct (Hput _ _ Hr) as (r' & Hr' & _ & ? & ? & ?).
    exists r'. split_and!; [done|congruence..].
  - intros id r' Hid Hne. destruct (Hget _ _ Hid) as (r & Hr & _ & -> & -> & _).
    destruct (tr_parent _ Ht _ _ Hr Hne) as (Hlt & q & Hq & Ho). split; [done|].
    destruct (Hput _ _ Hq) as (q' & Hq' & _ & _ & Eo & _). exists q'. split; [done|]. intros. rewrite Eo. auto.
  - intros o n id Hi. destruct (tr_index _ Ht _ _ _ Hi) as (r & Hr & <- & <-).
    destruct (Hput _ _ Hr) as (r' & Hr' & _ & _ & Eo & En). exists r'. done.
  - intros id r' Hid. destruct (Hget _ _ Hid) as (r & Hr & _ & _ & -> & ->). by apply (tr_indexed _ Ht).
Qed.

Lemma has_children_false db id : has_children db id = false ->
  forall i p, perms db !! i = Some p -> po_parent p <> id.
Proof.
  intros Hc i p Hp E. enough (has_children db id = true) by congruence.
  apply existsb_exists. exists (i, p). split; [|simpl; lia].
  apply list_elem_of_In. by apply elem_of_map_to_list.
Qed.

Lemma remove_permission_tree db p db' :
  tree_ok db -> perms db !! po_id p = Some p -> po_id p <> 0 ->
  remove_permission p db = Ok db' -> tree_ok db' /\ links db' = links db.
Proof.
  intros Ht Hp Hne H1. unfold remove_permission in H1. ok_bind H1 as ? Hc. ok_bind H1 as ? _. ok_inv.
  subst db'. split; [|done]. pose proof (has_children_false _ _ Hc) as Hch.
  split; simpl.
  - intros id r Hid. apply lookup_delete_Some in Hid as [_ Hid]. by apply (tr_id _ Ht).
  - destruct (tr_root _ Ht) as (r & Hr & ?). exists r. by rewrite lookup_delete_ne.
  - intros id r Hid Hz. apply lookup_delete_Some in Hid as [_ Hid].
    destruct (tr_parent _ Ht _ _ Hid Hz) as (Hlt & q & Hq & Ho). split; [done|]. exists q.
    rewrite lookup_delete_ne; [done|]. intros E. by eapply (Hch _ _ Hid).
  - intros o n id Hi. apply lookup_delete_Some in Hi as [Hk Hi].
    destruct (tr_index _ Ht _ _ _ Hi) as (r & Hr & Eo & En). exists r.
    rewrite lookup_delete_ne; [done|]. intros E. subst id. rewrite Hp in Hr. injection Hr as ->.
    apply Hk. congruence.
  - intros id r Hid. apply lookup_delete_Some in Hid as [Hk Hid].
    pose proof (tr_indexed _ Ht _ _ Hid) as Hi. rewrite lookup_delete_ne; [done|].
    intros E. rewrite <- E, (tr_indexed _ Ht _ _ Hp) in Hi. congruence.
Qed.

(** ** Authorized transactions *)

Definition auths_ok db : Prop := forall id p, perms db !! id = Some p -> auth_ok (po_auth p).

Lemma make_checker_ok ctl db pkeys pperms delay :
  auths_ok db -> checker_ok (make_checker ctl db pkeys pperms delay).
Proof.
  intros Ha. split; simpl; unfold authority_of.
  - intros p a Hp. destruct (get_permission db p) as [po|] eqn:E; [|done]. injection Hp as <-.
    unfold get_permission, find_permission in E. ok_bind E as o Ho. ok_bind Ho as ? _. ok_inv. subst o.
    destruct (perm_index db !! p) as [id|]; [|done]. by eapply Ha.
  - intros actor a. destruct (get_permission db (actor, 0)) as [po|] eqn:E; [|done].
    unfold get_permission, find_permission in E. ok_bind E as o Ho. ok_bind Ho as ? Hne. ok_inv.
    simpl in *. lia.
Qed.

(** The declared authorization [a] is at least the minimum permission of the
    action: that one is the permission [a] names or lies below it. *)
Definition minimum_met db (act : chain_action (key := key)) (a : permission_level) : Prop :=
  exists min, lookup_minimum_permission db a.1 (act_account act) (act_name act) = Ok min /\
    match min with
    | None => True
    | Some name => exists p q, get_permission db a = Ok p /\
        get_permission db (a.1, name) = Ok q /\ ancestor (perms db) (po_id p) (po_id q)
    end.

Lemma require_satisfies_ok db p q msg u :
  tree_ok db -> perms db !! po_id p = Some p -> perms db !! po_id q = Some q -> po_id p <> 0 ->
  require_satisfies db p q msg = Ok u ->
  po_owner p = po_owner q /\ ancestor (perms db) (po_id p) (po_id q).
Proof.
  intros Ht Hp Hq Hne Hr. unfold require_satisfies in Hr. ok_bind Hr as b Hb. ok_inv. subst b.
  destruct (satisfies_spec db p q Ht Hp Hq Hne) as (b & Hb' & Hiff). rewrite Hb in Hb'.
  injection Hb' as <-. by apply Hiff.
Qed.

Lemma check_minimum_ok db act a u :
  tree_ok db -> check_minimum db act a = Ok u -> minimum_met db act a.
Proof.
  intros Ht Hc. unfold check_minimum in Hc. ok_bind Hc as mn Hmn. exists mn. split; [done|].
  destruct mn as [name|]; [|done]. ok_bind Hc as q Hq. ok_bind Hc as p Hp. exists p, q.
  destruct (get_permission_ok _ _ _ Ht Hp) as (? & _ & _ & ?).
  destruct (get_permission_ok _ _ _ Ht Hq) as (? & _ & _ & _).
  apply require_satisfies_ok in Hc as [_ Hanc]; [|done..]. done.
Qed.

Lemma want_other (m0 : gmap permission_level Z) (p : permission_level) d (q : permission_level) x : m0 !! q = Some x -> exists y, want m0 p d !! q = Some y /\ y <= x.
Proof.
  intros Hq. unfold want. destruct (m0 !! p) as [d0|] eqn:Ep.
  - destruct (d0 >? d) eqn:E; [|eauto with lia]. destruct (decide (q = p)) as [->|Hne].
    + exists d. rewrite lookup_insert_eq. split; [done|]. rewrite Ep in Hq. injection Hq as <-. lia.
    + exists x. rewrite lookup_insert_ne by done. split; [done|lia].
  - exists x. rewrite lookup_insert_ne by congruence. split; [done|lia].
Qed.

Lemma want_self (m0 : gmap permission_level Z) (p : permission_level) d : exists y, want m0 p d !! p = Some y /\ y <= d.
Proof.
  unfold want. destruct (m0 !! p) as [d0|] eqn:Ep; [|exists d; rewrite lookup_insert_eq; split; [done|lia]].
  destruct (d0 >? d) eqn:E; [exists d; rewrite lookup_insert_eq; split; [done|lia]|].
  exists d0. split; [done|lia].
Qed.

(** What collecting an action establishes for one of its authorizations. *)
Definition collected (ctl : control) db (eff : Z) (sat_auths : list permission_level) (act : chain_action)
    (m0 : gmap permission_level Z) : Prop :=
  exists special delay, check_native ctl db act eff = Ok (special, delay) /\
    forall a, a ∈ act_authorization act ->
      (special = false -> minimum_met db act a) /\
      (a ∈ sat_auths \/ exists d, m0 !! a = Some d /\ d <= delay).

Lemma collect_grows (ctl : control) db (eff : Z) (sat_auths : list permission_level) (act : chain_action (key := key)) (m0 m1 : gmap permission_level Z) (q : permission_level) x :
  collect_action ctl db eff sat_auths m0 act = Ok m1 -> m0 !! q = Some x ->
  exists y, m1 !! q = Some y /\ y <= x.
Proof.
  intros Hc Hq. unfold collect_action in Hc. ok_bind Hc as [special delay] _. revert Hc.
  apply (mfold_inv (fun z => exists y, z !! q = Some y /\ y <= x)); [|exists x; split; [done|lia]].
  intros s1 a s2 _ (y & Hy & Hle) Hs. ok_bind Hs as ? _. ok_inv. subst s2.
  destruct (bool_decide _); [by exists y|].
  destruct (want_other _ a delay _ _ Hy) as (y' & Hy' & Hle'). exists y'. split; [done|lia].
Qed.

Lemma collect_one (ctl : control) db (eff : Z) (sat_auths : list permission_level) (act : chain_action (key := key)) (m0 m1 : gmap permission_level Z) :
  tree_ok db -> collect_action ctl db eff sat_auths m0 act = Ok m1 ->
  collected ctl db eff sat_auths act m1.
Proof.
  intros Ht Hc. unfold collect_action in Hc. ok_bind Hc as [special delay] Hn.
  exists special, delay. split; [done|].
  apply (mfold_each (fun _ => True) (fun a (z : gmap permission_level Z) =>
      (special = false -> minimum_met db act a) /\
      (a ∈ sat_auths \/ exists d, z !! a = Some d /\ d <= delay))) in Hc as [_ Hc]; [done| | |done].
  - intros s1 a s2 _ _ Hs. ok_bind Hs as ? Hmin. ok_inv. subst s2. split; [done|]. split.
    + intros ->. by eapply check_minimum_ok.
    + destruct (bool_decide (a ∈ sat_auths)) eqn:Ein; [left; by apply bool_decide_eq_true in Ein|].
      right. destruct (want_self s1 a delay) as (y & Hy & Hle). eauto.
  - intros s1 a b s2 _ Hs [HA HB]. split; [done|]. destruct HB as [HB|(d & Hd & Hle)]; [by left|right].
    ok_bind Hs as ? _. ok_inv. subst s2. destruct (bool_decide _); [by exists d|].
    destruct (want_other _ b delay _ _ Hd) as (y & Hy & Hle'). exists y. split; [done|lia].
Qed.

End Spec.
