(* ===== verification/EosioContract.v ===== *)
(** * The native actions of the system account ([eosio_contract.cpp])

    Creating accounts, setting code and ABI, and changing permissions and
    links, over the account, code, permission and resource tables. *)

From stdpp Require Import base numbers list gmap strings sorting.
From Stdlib Require Import ZArith Lia Ascii.
From Stdlib Require String.
From S2P Require Import Prelude Boost Names Accumulator ResourceLimits Authority Authorization.
From S2P Require Import BlockTimestamp.
Local Open Scope Z_scope.

(** ** Billable sizes ([config.hpp]) *)

Definition overhead_per_account_ram_bytes : Z := 2 * 1024.
Definition setcode_ram_bytes_multiplier : Z := 10.
Definition billable_permission_level_weight : Z := billable_size_v 24.
Definition billable_key_weight : Z := billable_size_v 8.
Definition billable_wait_weight : Z := billable_size_v 16.
Definition billable_shared_authority : Z := billable_size_v (3 * 16 + 4).
Definition billable_permission_object : Z :=
  billable_size_v (billable_shared_authority + 64 + 5 * overhead_per_row_per_index_ram_bytes).
Definition billable_permission_link_object : Z :=
  billable_size_v (40 + overhead_per_row_per_index_ram_bytes * 3).

Section Native.
Context {boost : Boost} {key : Type} `{PublicKey key}.
#[local] Abbreviation authority := (authority (key := key)).
#[local] Abbreviation adb := (adb (key := key)).

Record account_object := mk_account { creation_date : Z; abi : chars }.
Record account_metadata_object := mk_meta {
  recv_sequence : Z; auth_sequence : Z; code_sequence : Z; abi_sequence : Z;
  code_hash : Z; last_code_update : Z; flags : Z; vm_type : Z; vm_version : Z }.
Record code_object := mk_code {
  code : chars; code_ref_count : Z; first_block_used : Z }.

(** [codes] is keyed by (code_hash, vm_type, vm_version). *)
Record chain_db := mk_chain_db {
  accts : gmap Z account_object; metas : gmap Z account_metadata_object;
  codes : gmap (Z * Z * Z) code_object; auth_db : adb; res_db : rdb }.

Definition is_privileged (m : account_metadata_object) : bool := negb (Z.land (flags m) 1 =? 0).

(** The context of the action: its authorizations, the clock, the chain
    parameters and activated features, the whitelist of keys when it is
    enforced, and the code the action relies on: hashing, validation of
    WebAssembly and the size of a packed key. *)
Record context := mk_context {
  ctx_auths : list permission_level; pending_block_time : Z; head_block_num : Z;
  ctx_max_transaction_delay : Z; only_link_to_existing_permission : bool;
  check_key_list : option (key -> result unit);
  sha256 : chars -> Z; wasm_validate : chars -> result unit; key_pack_size : key -> Z }.

Definition require_authorization (cx : context) (account : Z) : result unit :=
  check (existsb (fun a : permission_level => a.1 =? account) (ctx_auths cx)) "missing authority".

Definition add_ram_usage (account ram_delta : Z) (db : chain_db) : result chain_db :=
  r ← add_pending_ram_usage account ram_delta (res_db db);
  Ok (mk_chain_db (accts db) (metas db) (codes db) (auth_db db) r).

Definition with_auth (db : chain_db) (a : adb) : chain_db :=
  mk_chain_db (accts db) (metas db) (codes db) a (res_db db).
Definition with_accts (db : chain_db) x : chain_db :=
  mk_chain_db x (metas db) (codes db) (auth_db db) (res_db db).
Definition with_metas (db : chain_db) x : chain_db :=
  mk_chain_db (accts db) x (codes db) (auth_db db) (res_db db).
Definition with_codes (db : chain_db) x : chain_db :=
  mk_chain_db (accts db) (metas db) x (auth_db db) (res_db db).

(** [shared_authority::get_billable_size] *)
Definition get_billable_size (cx : context) (a : authority) : Z :=
  Z.of_nat (length (accounts a)) * billable_permission_level_weight +
  Z.of_nat (length (waits a)) * billable_wait_weight +
  foldr (fun k acc => billable_key_weight + key_pack_size cx (kw_key k) + acc) 0 (keys a).

(** [name.to_string().find("eosio.") == 0] *)
Definition reserved_name (n : Z) : bool :=
  bool_decide (take 6 (name_to_string n) = String.list_ascii_of_string "eosio.").

Definition validate_authority_precondition (cx : context) (db : chain_db) (auth : authority)
    : result unit :=
  mfold (fun _ a =>
    let p := pw_permission a in
    of_option (accts db !! p.1) "account does not exist" ;;
    if (p.2 =? owner_name) || (p.2 =? active_name) then Ok tt
    else if p.2 =? eosio_code_name then Ok tt
    else
      match get_permission (auth_db db) p with
      | Ok _ => Ok tt
      | Err _ => Err "permission does not exist"
      end) (accounts auth) tt ;;
  match check_key_list cx with
  | Some check_key => mfold (fun _ k => check_key (kw_key k)) (keys auth) tt
  | None => Ok tt
  end.

(** ** Accounts *)

Record newaccount := mk_newaccount {
  na_creator : Z; na_name : Z; na_owner : authority; na_active : authority }.

Definition apply_eosio_newaccount (cx : context) (create : newaccount) (db : chain_db)
    : result chain_db :=
  require_authorization cx (na_creator create) ;;
  check (Authority.validate (na_owner create)) "Invalid owner authority" ;;
  check (Authority.validate (na_active create)) "Invalid active authority" ;;
  let name_str := name_to_string (na_name create) in
  check (negb (na_name create =? 0)) "account name cannot be empty" ;;
  check (Nat.leb (length name_str) 12) "account names can only be 12 chars long" ;;
  creator ← of_option (metas db !! na_creator create) "unable to find account_metadata_object";
  (if is_privileged creator then Ok tt
   else check (negb (reserved_name (na_name create)))
          "only privileged accounts can have names that start with 'eosio.'") ;;
  check (bool_decide (accts db !! na_name create = None)) "that name is already taken" ;;
  let db := with_accts db (<[na_name create := mk_account (set_time_point (pending_block_time cx)) []]> (accts db)) in
  check (bool_decide (metas db !! na_name create = None)) "could not insert object" ;;
  let db := with_metas db (<[na_name create := mk_meta 0 0 0 0 0 0 0 0 0]> (metas db)) in
  validate_authority_precondition cx db (na_owner create) ;;
  validate_authority_precondition cx db (na_active create) ;;
  '(owner_permission, a) ← create_permission (pending_block_time cx) (na_name create) owner_name 0
                             (na_owner create) 0 (auth_db db);
  '(active_permission, a) ← create_permission (pending_block_time cx) (na_name create) active_name
                              (po_id owner_permission) (na_active create) 0 a;
  r ← initialize_account (na_name create) (res_db db);
  let db := mk_chain_db (accts db) (metas db) (codes db) a r in
  let ram_delta := overhead_per_account_ram_bytes + 2 * billable_permission_object +
                   get_billable_size cx (po_auth owner_permission) +
                   get_billable_size cx (po_auth active_permission) in
  add_ram_usage (na_name create) ram_delta db.

(** ** Code and ABI *)

Record setcode := mk_setcode { sc_account : Z; sc_vmtype : Z; sc_vmversion : Z; sc_code : chars }.

(** One reference to the code [k] is given up. *)
Definition drop_code (k : Z * Z * Z) (entry : code_object) (m : gmap (Z * Z * Z) code_object)
    : gmap (Z * Z * Z) code_object :=
  if code_ref_count entry =? 1 then delete k m
  else <[k := mk_code (code entry) (u64 (code_ref_count entry - 1)) (first_block_used entry)]> m.

(** One reference to the code [k] is taken. *)
Definition take_code (k : Z * Z * Z) (bytes : chars) (first_block : Z)
    (m : gmap (Z * Z * Z) code_object) : gmap (Z * Z * Z) code_object :=
  match m !! k with
  | Some e => <[k := mk_code (code e) (u64 (code_ref_count e + 1)) (first_block_used e)]> m
  | None => <[k := mk_code bytes 1 first_block]> m
  end.

Definition apply_eosio_setcode (cx : context) (act : setcode) (db : chain_db) : result chain_db :=
  require_authorization cx (sc_account act) ;;
  check (sc_vmtype act =? 0) "code should be 0" ;;
  check (sc_vmversion act =? 0) "version should be 0" ;;
  let code_size := Z.of_nat (length (sc_code act)) in
  hash ← (if code_size >? 0 then wasm_validate cx (sc_code act) ;; Ok (sha256 cx (sc_code act))
          else Ok 0);
  account ← of_option (metas db !! sc_account act) "unable to find account_metadata_object";
  let existing_code := negb (code_hash account =? 0) in
  check ((code_size >? 0) || existing_code) "contract is already cleared" ;;
  let new_size := code_size * setcode_ram_bytes_multiplier in
  '(old_size, db) ←
    (if existing_code then
       let k := (code_hash account, vm_type account, vm_version account) in
       entry ← of_option (codes db !! k) "unable to find code_object";
       check (negb (code_hash account =? hash)) "contract is already running this version of code" ;;
       Ok (Z.of_nat (length (code entry)) * setcode_ram_bytes_multiplier,
           with_codes db (drop_code k entry (codes db)))
     else Ok (0, db));
  let db := if code_size >? 0 then
              with_codes db (take_code (hash, sc_vmtype act, sc_vmversion act) (sc_code act)
                               (u32 (head_block_num cx + 1)) (codes db))
            else db in
  let db := with_metas db (<[sc_account act :=
      mk_meta (recv_sequence account) (auth_sequence account) (u64 (code_sequence account + 1))
        (abi_sequence account) hash (pending_block_time cx) (flags account) (sc_vmtype act)
        (sc_vmversion act)]> (metas db)) in
  if new_size =? old_size then Ok db else add_ram_usage (sc_account act) (new_size - old_size) db.

Record setabi := mk_setabi { sa_account : Z; sa_abi : chars }.

Definition apply_eosio_setabi (cx : context) (act : setabi) (db : chain_db) : result chain_db :=
  require_authorization cx (sa_account act) ;;
  account ← of_option (accts db !! sa_account act) "unable to find account_object";
  let old_size := Z.of_nat (length (abi account)) in
  let new_size := Z.of_nat (length (sa_abi act)) in
  let db := with_accts db
      (<[sa_account act := mk_account (creation_date account) (sa_abi act)]> (accts db)) in
  m ← of_option (metas db !! sa_account act) "unable to find account_metadata_object";
  let db := with_metas db (<[sa_account act :=
      mk_meta (recv_sequence m) (auth_sequence m) (code_sequence m) (u64 (abi_sequence m + 1))
        (code_hash m) (last_code_update m) (flags m) (vm_type m) (vm_version m)]> (metas db)) in
  if new_size =? old_size then Ok db else add_ram_usage (sa_account act) (new_size - old_size) db.

(** ** Permissions and links *)

Definition apply_eosio_updateauth (cx : context) (update : updateauth) (db : chain_db)
    : result chain_db :=
  require_authorization cx (ua_account update) ;;
  check (negb (ua_permission update =? 0)) "Cannot create authority with empty name" ;;
  check (negb (reserved_name (ua_permission update)))
    "Permission names that start with 'eosio.' are reserved" ;;
  check (negb (ua_permission update =? ua_parent update)) "Cannot set an authority as its own parent" ;;
  of_option (accts db !! ua_account update) "unable to find account_object" ;;
  check (Authority.validate (ua_auth update)) "Invalid authority" ;;
  (if ua_permission update =? active_name then
     check (ua_parent update =? owner_name) "Cannot change active authority's parent from owner"
   else Ok tt) ;;
  (if ua_permission update =? owner_name then
     check (ua_parent update =? 0) "Cannot change owner authority's parent"
   else check (negb (ua_parent update =? 0)) "Only owner permission can have empty parent") ;;
  (match last (waits (ua_auth update)) with
   | Some w => check (ww_sec w <=? ctx_max_transaction_delay cx)
                 "Cannot set delay longer than max_transacton_delay"
   | None => Ok tt
   end) ;;
  validate_authority_precondition cx db (ua_auth update) ;;
  permission ← find_permission (auth_db db) (ua_account update, ua_permission update);
  parent_id ← (if ua_permission update =? owner_name then Ok 0
               else
                 parent ← get_permission (auth_db db) (ua_account update, ua_parent update);
                 Ok (po_id parent));
  match permission with
  | Some permission =>
    check (parent_id =? po_parent permission) "Changing parent authority is not currently supported" ;;
    let old_size := billable_permission_object + get_billable_size cx (po_auth permission) in
    let db := with_auth db (modify_permission (pending_block_time cx) permission (ua_auth update)
                              (auth_db db)) in
    let new_size := billable_permission_object + get_billable_size cx (ua_auth update) in
    add_ram_usage (po_owner permission) (new_size - old_size) db
  | None =>
    '(p, a) ← create_permission (pending_block_time cx) (ua_account update) (ua_permission update)
                parent_id (ua_auth update) 0 (auth_db db);
    add_ram_usage (ua_account update) (billable_permission_object + get_billable_size cx (po_auth p))
      (with_auth db a)
  end.

(** The links of [account] to [permission]. *)
Definition linked_to (a : adb) (account permission : Z) : bool :=
  existsb (fun kv : (Z * Z * Z) * Z => (kv.1.1.1 =? account) && (kv.2 =? permission))
    (map_to_list (links a)).

Definition apply_eosio_deleteauth (cx : context) (remove : deleteauth) (db : chain_db)
    : result chain_db :=
  require_authorization cx (da_account remove) ;;
  check (negb (da_permission remove =? active_name)) "Cannot delete active authority" ;;
  check (negb (da_permission remove =? owner_name)) "Cannot delete owner authority" ;;
  check (negb (linked_to (auth_db db) (da_account remove) (da_permission remove)))
    "Cannot delete a linked authority. Unlink the authority first." ;;
  permission ← get_permission (auth_db db) (da_account remove, da_permission remove);
  let old_size := billable_permission_object + get_billable_size cx (po_auth permission) in
  a ← remove_permission permission (auth_db db);
  add_ram_usage (da_account remove) (- old_size) (with_auth db a).

Definition with_links (db : chain_db) (l : gmap (Z * Z * Z) Z) : chain_db :=
  let a := auth_db db in
  with_auth db (mk_adb (perms a) (perm_index a) (perm_next a) (perm_usages a) (usage_next a) l).

(** [db.find<permission_object, by_name>]: some permission of that name. *)
Definition name_exists (a : adb) (n : Z) : bool :=
  existsb (fun kv => po_name (key := key) (snd kv) =? n) (map_to_list (perms a)).

Definition apply_eosio_linkauth (cx : context) (requirement : linkauth) (db : chain_db)
    : result chain_db :=
  check (negb (la_requirement requirement =? 0)) "Required permission cannot be empty" ;;
  require_authorization cx (la_account requirement) ;;
  of_option (accts db !! la_account requirement) "Failed to retrieve account" ;;
  of_option (accts db !! la_code requirement) "Failed to retrieve code for account" ;;
  (if la_requirement requirement =? eosio_any_name then Ok tt
   else
     check (if only_link_to_existing_permission cx
            then bool_decide (is_Some (perm_index (auth_db db) !!
                                         (la_account requirement, la_requirement requirement)))
            else name_exists (auth_db db) (la_requirement requirement))
       "Failed to retrieve permission") ;;
  let link_key := (la_account requirement, la_code requirement, la_type requirement) in
  match links (auth_db db) !! link_key with
  | Some required =>
    check (negb (required =? la_requirement requirement))
      "Attempting to update required authority, but new requirement is same as old" ;;
    Ok (with_links db (<[link_key := la_requirement requirement]> (links (auth_db db))))
  | None =>
    add_ram_usage (la_account requirement) billable_permission_link_object
      (with_links db (<[link_key := la_requirement requirement]> (links (auth_db db))))
  end.

Definition apply_eosio_unlinkauth (cx : context) (unlink : unlinkauth) (db : chain_db)
    : result chain_db :=
  require_authorization cx (ul_account unlink) ;;
  let link_key := (ul_account unlink, ul_code unlink, ul_type unlink) in
  of_option (links (auth_db db) !! link_key) "Attempting to unlink authority, but no link found" ;;
  db ← add_ram_usage (ul_account unlink) (- billable_permission_link_object) db;
  Ok (with_links db (delete link_key (links (auth_db db)))).

(** ** The genesis state ([controller.cpp]) *)

Definition null_account_name : Z := N_ "eosio.null".
Definition producers_account_name : Z := N_ "eosio.prods".
Definition majority_producers_permission_name : Z := N_ "prod.major".
Definition minority_producers_permission_name : Z := N_ "prod.minor".

(** The genesis parameters; [system_abi] is the ABI of the native actions. *)
Record genesis_state := mk_genesis {
  initial_timestamp : Z; initial_key : key; system_abi : chars; genesis_key_size : key -> Z }.

Definition create_native_account (g : genesis_state) (name : Z) (owner active : authority)
    (privileged : bool) (db : chain_db) : result chain_db :=
  check (bool_decide (accts db !! name = None)) "could not insert object" ;;
  check (bool_decide (metas db !! name = None)) "could not insert object" ;;
  let account := mk_account (set_time_point (initial_timestamp g))
                   (if name =? system_account_name then system_abi g else []) in
  let meta := mk_meta 0 0 0 0 0 0 (if privileged then Z.lor 0 1 else 0) 0 0 in
  '(owner_permission, a) ← create_permission 0 name owner_name 0 owner (initial_timestamp g) (auth_db db);
  '(active_permission, a) ← create_permission 0 name active_name (po_id owner_permission) active
                              (initial_timestamp g) a;
  r ← initialize_account name (res_db db);
  let cx := mk_context [] 0 0 0 false None (fun _ => 0) (fun _ => Ok tt) (genesis_key_size g) in
  let ram_delta := overhead_per_account_ram_bytes + 2 * billable_permission_object +
                   get_billable_size cx (po_auth owner_permission) +
                   get_billable_size cx (po_auth active_permission) in
  r ← add_pending_ram_usage name ram_delta r;
  verify_account_ram_usage r name ;;
  Ok (mk_chain_db (<[name := account]> (accts db)) (<[name := meta]> (metas db)) (codes db) a r).

(** The part of [initialize_database] that concerns accounts, permissions and
    resources. *)
Definition initialize_chain (g : genesis_state) : result chain_db :=
  a ← Authorization.initialize_database adb_empty;
  let r := ResourceLimits.initialize_database rdb_empty in
  let system_auth := authority_of_key (initial_key g) 0 in
  let empty_authority := mk_authority 1 [] [] [] in
  let active_producers_authority :=
    mk_authority 1 [] [mk_plw (system_account_name, active_name) 1] [] in
  db ← create_native_account g system_account_name system_auth system_auth true
         (mk_chain_db ∅ ∅ ∅ a r);
  db ← create_native_account g null_account_name empty_authority empty_authority false db;
  db ← create_native_account g producers_account_name empty_authority active_producers_authority
         false db;
  active_permission ← get_permission (auth_db db) (producers_account_name, active_name);
  '(majority_permission, a) ← create_permission 0 producers_account_name
      majority_producers_permission_name (po_id active_permission) active_producers_authority
      (initial_timestamp g) (auth_db db);
  '(_, a) ← create_permission 0 producers_account_name minority_producers_permission_name
      (po_id majority_permission) active_producers_authority (initial_timestamp g) a;
  Ok (with_auth db a).
End Native.
