(* ===== verification/EosioContractSpec.v ===== *)
(** * What the native actions preserve

    From genesis on, the permissions of every account form a tree with its
    owner permission at the top and active below it, every stored authority is
    well formed, and every code object counts exactly the accounts that run
    it. *)

From stdpp Require Import base numbers list gmap strings sorting.
From Stdlib Require Import ZArith Lia Ascii.
From Stdlib Require String.
From S2P Require Import Prelude Boost Names Accumulator ResourceLimits Authority AuthoritySpec Authorization AuthorizationSpec EosioContract.
Local Open Scope Z_scope.

Section Codes.

Definition meta_key (m : account_metadata_object) : Z * Z * Z := (code_hash m, vm_type m, vm_version m).

(** The accounts that run the code [k]. *)
Definition runs (k : Z * Z * Z) (m : account_metadata_object) : Z :=
  if negb (code_hash m =? 0) && bool_decide (meta_key m = k) then 1 else 0.
Definition refs (ms : gmap Z account_metadata_object) (k : Z * Z * Z) : Z :=
  map_sum (fun (_ : Z) m => runs k m) ms.

(** The code table counts [f]. *)
Definition counts (cs : gmap (Z * Z * Z) code_object) (f : Z * Z * Z -> Z) : Prop :=
  forall k, match cs !! k with
            | Some e => code_ref_count e = f k /\ 0 < f k
            | None => f k = 0
            end.

Definition one_if (k k0 : Z * Z * Z) : Z := if bool_decide (k = k0) then 1 else 0.

Lemma counts_ext cs f g : (forall k, f k = g k) -> counts cs f -> counts cs g.
Proof. intros E Hc k. rewrite <- E. apply Hc. Qed.

Lemma drop_counts cs f k0 e :
  counts cs f -> cs !! k0 = Some e -> f k0 < 2 ^ 64 ->
  counts (drop_code k0 e cs) (fun k => f k - one_if k k0).
Proof.
  intros Hc He Hb k. pose proof (Hc k0) as Hk0. rewrite He in Hk0. destruct Hk0 as [Ec Hpos].
  unfold one_if, drop_code. specialize (Hc k). destruct (decide (k = k0)) as [->|Hne].
  - rewrite bool_decide_eq_true_2 by done. destruct (code_ref_count e =? 1) eqn:E1.
    + rewrite lookup_delete_eq. lia.
    + rewrite lookup_insert_eq. simpl. rewrite u64_small by (unfold is_u64; lia). lia.
  - rewrite bool_decide_eq_false_2 by done. rewrite Z.sub_0_r.
    destruct (code_ref_count e =? 1);
      [rewrite lookup_delete_ne by congruence | rewrite lookup_insert_ne by congruence]; exact Hc.
Qed.

Lemma take_counts cs f k0 bytes n :
  counts cs f -> 0 <= f k0 -> f k0 + 1 < 2 ^ 64 ->
  counts (take_code k0 bytes n cs) (fun k => f k + one_if k k0).
Proof.
  intros Hc H0 Hb k. pose proof (Hc k0) as Hk0. unfold one_if, take_code. specialize (Hc k).
  destruct (decide (k = k0)) as [->|Hne].
  - rewrite bool_decide_eq_true_2 by done.
    destruct (cs !! k0) as [e|]; rewrite lookup_insert_eq; simpl; [|lia].
    destruct Hk0 as [-> Hpos]. rewrite u64_small by (unfold is_u64; lia). lia.
  - rewrite bool_decide_eq_false_2 by done. rewrite Z.add_0_r.
    destruct (cs !! k0); rewrite lookup_insert_ne by congruence; exact Hc.
Qed.

Lemma refs_bound ms k : 0 <= refs ms k <= Z.of_nat (size ms).
Proof.
  unfold refs. induction ms as [|a m ms Ha IH] using map_ind; [done|].
  rewrite map_sum_insert_new, map_size_insert_None by done. unfold runs at 1 3.
  destruct (_ && _); lia.
Qed.

Lemma refs_new ms a m k : ms !! a = None -> code_hash m = 0 -> refs (<[a := m]> ms) k = refs ms k.
Proof.
  intros Ha Hz. unfold refs. rewrite map_sum_insert_new by done. unfold runs at 1. by rewrite Hz.
Qed.

Lemma refs_set ms a m m' k : ms !! a = Some m ->
  refs (<[a := m']> ms) k = refs ms k - runs k m + runs k m'.
Proof. intros Ha. unfold refs. by rewrite (map_sum_insert _ _ _ _ _ Ha). Qed.

Lemma runs_one k m : code_hash m <> 0 -> runs k m = one_if k (meta_key m).
Proof.
  intros Hz. unfold runs, one_if. replace (code_hash m =? 0) with false by lia. simpl.
  destruct (decide (meta_key m = k)) as [<-|Hne]; [by rewrite !bool_decide_eq_true_2|].
  by rewrite !bool_decide_eq_false_2 by congruence.
Qed.

Lemma runs_zero k m : code_hash m = 0 -> runs k m = 0.
Proof. unfold runs. by intros ->. Qed.
End Codes.

Section Native.
Context {boost : Boost} {key : Type} `{PublicKey key}.
#[local] Abbreviation chain_db := (chain_db (key := key)).
#[local] Abbreviation context := (context (key := key)).
#[local] Abbreviation adb := (adb (key := key)).
#[local] Abbreviation authority := (authority (key := key)).
Implicit Types (db : chain_db) (cx : context) (a : adb).

(** No contract hashes to the digest that marks the absence of code. *)
Definition hash_ok cx : Prop := forall c, c <> [] -> sha256 cx c <> 0.

(** Billing RAM changes the resource tables only. *)
Lemma add_ram_usage_frame x d db db' : add_ram_usage x d db = Ok db' ->
  accts db' = accts db /\ metas db' = metas db /\ codes db' = codes db /\ auth_db db' = auth_db db.
Proof. unfold add_ram_usage. intros Hr. ok_bind Hr as r _. ok_inv. by subst. Qed.

Lemma bill_frame (b : bool) x d db db' :
  (if b then Ok db else add_ram_usage x d db) = Ok db' ->
  accts db' = accts db /\ metas db' = metas db /\ codes db' = codes db /\ auth_db db' = auth_db db.
Proof. destruct b; [intros; ok_inv; by subst | apply add_ram_usage_frame]. Qed.

Definition code_inv db : Prop := counts (codes db) (refs (metas db)).

Lemma setcode_inv cx act db db' :
  hash_ok cx -> code_inv db -> Z.of_nat (size (metas db)) < 2 ^ 63 ->
  apply_eosio_setcode cx act db = Ok db' ->
  code_inv db' /\ size (metas db') = size (metas db) /\ accts db' = accts db /\ auth_db db' = auth_db db.
Proof.
  intros Hh Hc Hs Ha. unfold apply_eosio_setcode in Ha. do 3 ok_bind Ha as ? _. ok_bind Ha as h Hhash.
  ok_bind Ha as m Hm. apply (proj1 (of_option_ok _ _ _)) in Hm. ok_bind Ha as ? Hex.
  ok_bind Ha as [old db1] Hdrop. apply bill_frame in Ha as (Ea & Em & Ecs & Eau). simpl in *.
  assert (Hhz : h <> 0 <-> sc_code act <> []).
  { destruct (sc_code act) as [|b bs] eqn:E; simpl in Hhash.
    - ok_inv. subst h. done.
    - ok_bind Hhash as ? _. ok_inv. subst h. split; [done|]. intros _. by apply Hh. }
  set (k_old := meta_key m) in *.
  assert (Hd : counts (codes db1) (fun k => refs (metas db) k - runs k m) /\ metas db1 = metas db /\
               accts db1 = accts db /\ auth_db db1 = auth_db db).
  { destruct (code_hash m =? 0) eqn:Ez; simpl in Hdrop.
    - ok_inv. injection Hdrop as <- <-. split; [|done]. eapply counts_ext; [|exact Hc]. intros k.
      simpl. rewrite runs_zero by lia. lia.
    - ok_bind Hdrop as e He. ok_bind Hdrop as ? _. ok_inv. injection Hdrop as <- <-. split; [|done]. simpl.
      pose proof (refs_bound (metas db) k_old).
      eapply counts_ext; [|apply (drop_counts _ _ k_old e Hc He); lia].
      intros k. simpl. rewrite runs_one by lia. done. }
  destruct Hd as (Hd & Em1 & Ea1 & Eau1). unfold code_inv. rewrite Em, Ecs.
  set (m' := mk_meta _ _ _ _ h _ _ _ _) in *.
  assert (Ebase : metas db1 !! sc_account act = Some m) by (by rewrite Em1).
  assert (Esize : forall y, size (<[sc_account act := y]> (metas db1)) = size (metas db)).
  { intros y. rewrite map_size_insert_Some, Em1 by eauto. done. }
  destruct (sc_code act) as [|b bs] eqn:Ecode; simpl in *; (split_and!; [|by auto|congruence..]).
  - eapply counts_ext; [intros k; symmetry; apply refs_set; exact Ebase|]. rewrite Em1.
    eapply counts_ext; [|exact Hd]. intros k. simpl. rewrite (runs_zero k m'); [lia|].
    simpl. destruct (decide (h = 0)) as [|Hne]; [done|]. by apply Hhz in Hne.
  - eapply counts_ext; [intros k; symmetry; apply refs_set; exact Ebase|]. rewrite Em1.
    assert (Hm' : code_hash m' <> 0) by (by apply Hhz).
    eapply counts_ext; [|apply (take_counts _ _ (meta_key m') (b :: bs) (u32 (head_block_num cx + 1)) Hd)].
    + intros k. simpl. by rewrite (runs_one k m' Hm').
    + specialize (Hd (meta_key m')). destruct (codes db1 !! meta_key m'); lia.
    + pose proof (refs_bound (metas db) (meta_key m')). unfold runs. destruct (_ && _); lia.
Qed.

(** ** Permissions *)

(** Every account has an owner permission below the root and an active
    permission below owner. *)
Definition core_ok (ac : gmap Z account_object) a : Prop :=
  forall n, is_Some (ac !! n) -> exists o q p1 p2,
    perm_index a !! (n, owner_name) = Some o /\ perms a !! o = Some p1 /\ po_parent p1 = 0 /\
    perm_index a !! (n, active_name) = Some q /\ perms a !! q = Some p2 /\ po_parent p2 = o.

(** The owner and active permissions survive, with their parents. *)
Definition keeps_core a a' : Prop :=
  forall n nm id p, nm = owner_name \/ nm = active_name ->
    perm_index a !! (n, nm) = Some id -> perms a !! id = Some p ->
    perm_index a' !! (n, nm) = Some id /\ exists p', perms a' !! id = Some p' /\ po_parent p' = po_parent p.

Lemma core_ok_keeps ac a a' : keeps_core a a' -> core_ok ac a -> core_ok ac a'.
Proof.
  intros Hk Hc n Hn. destruct (Hc n Hn) as (o & q & p1 & p2 & H1 & H2 & H3 & H4 & H5 & H6).
  destruct (Hk _ _ _ _ (or_introl eq_refl) H1 H2) as (H1' & p1' & H2' & E1).
  destruct (Hk _ _ _ _ (or_intror eq_refl) H4 H5) as (H4' & p2' & H5' & E2).
  exists o, q, p1', p2'. split_and!; congruence.
Qed.

Definition auth_typed (auth : authority) : Prop :=
  Forall (fun m => is_u16 (meta_weight m)) (factors auth).

Lemma validate_auth_ok auth : auth_typed auth -> Authority.validate auth = true -> auth_ok auth.
Proof. intros Ht Hv. split; [done|]. by apply validate_spec in Hv as [Hl _]. Qed.

(** The permission tables of a reachable state. *)
Record perms_inv (ac : gmap Z account_object) a : Prop := {
  pi_tree : tree_ok a;
  pi_auths : auths_ok a;
  pi_core : core_ok ac a;
}.

Lemma create_permission_inv now acct nm par auth t ac a p a' :
  create_permission now acct nm par auth t a = Ok (p, a') ->
  perms_inv ac a -> acct <> 0 -> auth_ok auth -> 0 <= par ->
  (exists q, perms a !! par = Some q /\ (par <> 0 -> po_owner q = acct)) ->
  perms_inv ac a' /\ po_id p = perm_next a /\ po_parent p = par /\ po_owner p = acct /\
  po_auth p = auth /\
  perms a' !! po_id p = Some p /\ perm_index a' !! (acct, nm) = Some (po_id p) /\
  (forall k, k <> (acct, nm) -> perm_index a' !! k = perm_index a !! k) /\
  (forall id r, perms a !! id = Some r -> perms a' !! id = Some r) /\ links a' = links a.
Proof.
  intros Hc [Ht Ha Hcore] Hac Hau Hpar Hq. unfold create_permission in Hc. ok_bind Hc as a1 Hi.
  apply (proj1 (Ok_inj _ _)) in Hc. injection Hc as <- <-.
  assert (Hf : forall id r, perms a !! id = Some r -> id <> perm_next a).
  { intros id r Hr. pose proof (tr_id _ Ht _ _ Hr). lia. }
  assert (Ht1 := Hi). apply insert_permission_tree in Ht1 as [Ht1 Hl]; [|done..].
  unfold insert_permission in Hi. ok_bind Hi as ? Hnew. ok_inv. subst a1. simpl in *.
  assert (Hold : forall id r, perms a !! id = Some r -> <[perm_next a := mk_permission (perm_next a)
    (usage_next a) par acct nm (if t =? 0 then now else t) auth]> (perms a) !! id = Some r).
  { intros id r Hr. rewrite lookup_insert_ne; [done|]. apply not_eq_sym. by eapply Hf. }
  split_and!; simpl; rewrite ?lookup_insert_eq; try done.
  - split; [done| |].
    + intros id r Hr. simpl in Hr. apply lookup_insert_Some in Hr as [[_ <-]|[_ Hr]]; [done | by eapply Ha].
    + eapply core_ok_keeps; [|exact Hcore]. intros n nm' id r _ Hix Hr. simpl. split; [|eauto].
      rewrite lookup_insert_ne; [done|]. congruence.
  - intros k Hk. by rewrite lookup_insert_ne.
Qed.

Lemma modify_permission_inv now auth ac a p :
  perms_inv ac a -> perms a !! po_id p = Some p -> auth_ok auth ->
  perms_inv ac (modify_permission now p auth a).
Proof.
  intros [Ht Ha Hc] Hp Hau. split.
  - by apply modify_permission_tree.
  - intros id r Hr. simpl in Hr. apply lookup_insert_Some in Hr as [[_ <-]|[_ Hr]]; [done | by eapply Ha].
  - eapply core_ok_keeps; [|exact Hc]. intros n nm id r _ Hix Hr. simpl. split; [done|].
    destruct (decide (id = po_id p)) as [->|Hne].
    + rewrite lookup_insert_eq. rewrite Hp in Hr. injection Hr as <-. eauto.
    + rewrite lookup_insert_ne by congruence. eauto.
Qed.

Lemma remove_permission_inv ac a p a' :
  perms_inv ac a -> perms a !! po_id p = Some p -> po_id p <> 0 ->
  po_name p <> owner_name -> po_name p <> active_name ->
  remove_permission p a = Ok a' -> perms_inv ac a'.
Proof.
  intros [Ht Ha Hc] Hp Hz Ho Hact Hr. assert (Ht' := Hr).
  apply remove_permission_tree in Ht' as [Ht' _]; [|done..].
  unfold remove_permission in Hr. do 2 ok_bind Hr as ? _. ok_inv. subst a'. split; [done| |].
  - intros id r Hid. simpl in Hid. apply lookup_delete_Some in Hid as [_ Hid]. by eapply Ha.
  - eapply core_ok_keeps; [|exact Hc]. intros n nm id r Hnm Hix Hid. simpl.
    destruct (tr_index _ Ht _ _ _ Hix) as (r' & Hr' & En & Enm).
    assert (po_name p <> nm) by (destruct Hnm as [-> | ->]; done).
    rewrite lookup_delete_ne by congruence. split; [done|]. exists r.
    rewrite lookup_delete_ne; [done|]. intros E. subst id. congruence.
Qed.

Lemma perms_inv_links ac a l :
  perms_inv ac a ->
  perms_inv ac (mk_adb (perms a) (perm_index a) (perm_next a) (perm_usages a) (usage_next a) l).
Proof. intros [[T1 T2 T3 T4 T5] Ha Hc]. split; [split; done | done | done]. Qed.

Lemma perms_inv_accts ac ac' a : (forall n, is_Some (ac' !! n) -> is_Some (ac !! n)) ->
  perms_inv ac a -> perms_inv ac' a.
Proof. intros Hd [Ht Ha Hc]. split; try done. intros n Hn. by apply Hc, Hd. Qed.

Lemma root_exists a : tree_ok a -> exists q, perms a !! 0 = Some q /\ (0 <> 0 -> po_owner q = 0).
Proof. intros Ht. destruct (tr_root _ Ht) as (r & Hr & _). exists r. split; [done|]. by intros []. Qed.

Lemma owner_active_ne : owner_name <> active_name.
Proof. vm_compute. discriminate. Qed.

(** The two permissions of a new account. *)
Lemma new_account_perms now t ac n own act a p1 a1 p2 a2 acct :
  perms_inv ac a -> n <> 0 -> auth_ok own -> auth_ok act ->
  create_permission now n owner_name 0 own t a = Ok (p1, a1) ->
  create_permission now n active_name (po_id p1) act t a1 = Ok (p2, a2) ->
  perms_inv (<[n := acct]> ac) a2.
Proof.
  intros Hi Hn Ho Ha H1 H2.
  assert (Hroot := root_exists _ (pi_tree _ _ Hi)). destruct Hroot as (r & Hr & _).
  apply (create_permission_inv _ _ _ _ _ _ ac) in H1
    as (Hi1 & Eid1 & Epar1 & Eo1 & _ & Hp1 & Hx1 & _ & _ & _); [|done..|by exists r].
  pose proof (tr_id _ (pi_tree _ _ Hi1) _ _ Hp1) as [_ Hb1].
  apply (create_permission_inv _ _ _ _ _ _ ac) in H2
    as (Hi2 & Eid2 & Epar2 & Eo2 & _ & Hp2 & Hx2 & Hrest & Hkeep & _); [|done..|lia|exists p1; auto].
  destruct Hi2 as [Ht2 Ha2 Hc2]. split; [done|done|].
  intros m Hm. destruct (decide (m = n)) as [->|Hne].
  - exists (po_id p1), (po_id p2), p1, p2. split_and!; auto.
    rewrite Hrest; [done|]. intros E. apply owner_active_ne. congruence.
  - apply Hc2. by rewrite lookup_insert_ne in Hm.
Qed.

(** ** Actions *)

Inductive native_action :=
| NNewaccount (x : newaccount (key := key)) | NSetcode (x : setcode) | NSetabi (x : setabi)
| NUpdateauth (x : updateauth (key := key)) | NDeleteauth (x : deleteauth) | NLinkauth (x : linkauth)
| NUnlinkauth (x : unlinkauth).

Definition native_apply cx (x : native_action) db : result chain_db :=
  match x with
  | NNewaccount x => apply_eosio_newaccount cx x db
  | NSetcode x => apply_eosio_setcode cx x db
  | NSetabi x => apply_eosio_setabi cx x db
  | NUpdateauth x => apply_eosio_updateauth cx x db
  | NDeleteauth x => apply_eosio_deleteauth cx x db
  | NLinkauth x => apply_eosio_linkauth cx x db
  | NUnlinkauth x => apply_eosio_unlinkauth cx x db
  end.

(** Weights in action data are [uint16_t]. *)
Definition native_typed (x : native_action) : Prop :=
  match x with
  | NNewaccount x => auth_typed (na_owner x) /\ auth_typed (na_active x)
  | NUpdateauth x => auth_typed (ua_auth x)
  | _ => True
  end.

Record native_inv db : Prop := {
  ni_perms : perms_inv (accts db) (auth_db db);
  ni_codes : code_inv db;
}.

Lemma newaccount_inv cx x db db' :
  auth_typed (na_owner x) -> auth_typed (na_active x) -> native_inv db ->
  apply_eosio_newaccount cx x db = Ok db' ->
  native_inv db' /\ size (metas db') = S (size (metas db)).
Proof.
  intros To Ta [Hp Hc] Hn. unfold apply_eosio_newaccount in Hn. ok_bind Hn as ? _.
  ok_bind Hn as ? Vo. ok_bind Hn as ? Va. ok_bind Hn as ? Hz. ok_bind Hn as ? _.
  ok_bind Hn as cr _. ok_bind Hn as ? _. ok_bind Hn as ? _. ok_bind Hn as ? Hmeta.
  do 2 ok_bind Hn as ? _. ok_bind Hn as [p1 a1] H1. ok_bind Hn as [p2 a2] H2. ok_bind Hn as r _.
  apply add_ram_usage_frame in Hn as (Ea & Em & Ec & Eau). simpl in *.
  apply (proj1 (check_ok _ _ _)) in Vo, Va, Hz, Hmeta. apply bool_decide_eq_true in Hmeta.
  split; [|by rewrite Em, map_size_insert_None]. split.
  - rewrite Ea, Eau. eapply new_account_perms; [exact Hp| | | |exact H1|exact H2].
    + intros E. by rewrite E in Hz.
    + by apply validate_auth_ok.
    + by apply validate_auth_ok.
  - unfold code_inv. rewrite Em, Ec. eapply counts_ext; [|exact Hc]. intros k. symmetry. by apply refs_new.
Qed.

Lemma setabi_inv cx x db db' :
  native_inv db -> apply_eosio_setabi cx x db = Ok db' ->
  native_inv db' /\ size (metas db') = size (metas db).
Proof.
  intros [Hp Hc] Hn. unfold apply_eosio_setabi in Hn. ok_bind Hn as ? _. ok_bind Hn as ac Hac.
  ok_bind Hn as m Hm. apply bill_frame in Hn as (Ea & Em & Ec & Eau). simpl in *.
  apply (proj1 (of_option_ok _ _ _)) in Hac, Hm.
  split; [|by rewrite Em, map_size_insert_Some by eauto]. split.
  - rewrite Ea, Eau. eapply perms_inv_accts; [|exact Hp]. intros n Hn.
    destruct (decide (n = sa_account x)) as [->|]; [eauto|]. by rewrite lookup_insert_ne in Hn.
  - unfold code_inv. rewrite Em, Ec. eapply counts_ext; [|exact Hc]. intros k.
    rewrite (refs_set _ _ m) by done. unfold runs, meta_key. simpl. lia.
Qed.

(** An action that leaves accounts and code alone. *)
Lemma native_inv_auth db db' :
  native_inv db -> accts db' = accts db -> metas db' = metas db -> codes db' = codes db ->
  perms_inv (accts db) (auth_db db') ->
  native_inv db' /\ size (metas db') = size (metas db).
Proof. intros [Hp Hc] Ea Em Ec Hp'. split; [|congruence]. split; [by rewrite Ea|]. unfold code_inv. by rewrite Em, Ec. Qed.

Lemma updateauth_inv cx x db db' :
  auth_typed (ua_auth x) -> native_inv db -> apply_eosio_updateauth cx x db = Ok db' ->
  native_inv db' /\ size (metas db') = size (metas db).
Proof.
  intros Tx Hi Hn. pose proof (ni_perms _ Hi) as Hp. unfold apply_eosio_updateauth in Hn.
  do 4 ok_bind Hn as ? _. ok_bind Hn as ? _. ok_bind Hn as ? Hv. do 4 ok_bind Hn as ? _.
  ok_bind Hn as found Hf. ok_bind Hn as par Hpar. apply (proj1 (check_ok _ _ _)) in Hv.
  pose proof (validate_auth_ok _ Tx Hv) as Hok.
  assert (Hacct : ua_account x <> 0 /\ forall q, found = Some q -> perms (auth_db db) !! po_id q = Some q).
  { unfold find_permission in Hf. ok_bind Hf as ? Hne. ok_inv. simpl in *. split; [lia|]. intros q ->.
    destruct (perm_index (auth_db db) !! (ua_account x, ua_permission x)) as [id|]; [|done]. simpl in Hf.
    by rewrite (proj1 (tr_id _ (pi_tree _ _ Hp) _ _ Hf)). }
  destruct Hacct as [Hac Hfound]. destruct found as [q|].
  - ok_bind Hn as ? _. apply add_ram_usage_frame in Hn as (Ea & Em & Ec & Eau). simpl in *.
    apply native_inv_auth; try done. rewrite Eau. apply modify_permission_inv; auto.
  - ok_bind Hn as [p a1] Hcr. apply add_ram_usage_frame in Hn as (Ea & Em & Ec & Eau). simpl in *.
    apply native_inv_auth; try done. rewrite Eau.
    assert (Hparent : 0 <= par /\ exists r, perms (auth_db db) !! par = Some r /\
                        (par <> 0 -> po_owner r = ua_account x)).
    { destruct (ua_permission x =? owner_name).
      - ok_inv. subst par. split; [lia|]. destruct (root_exists _ (pi_tree _ _ Hp)) as (r & Hr & _).
        exists r. split; [done|]. by intros [].
      - ok_bind Hpar as r Hr. ok_inv. subst par.
        apply get_permission_ok in Hr as (Hr & Ho & _ & _); [|apply Hp]. simpl in Ho.
        pose proof (tr_id _ (pi_tree _ _ Hp) _ _ Hr). split; [lia|]. exists r. auto. }
    destruct Hparent as [H0 Hparent].
    by apply (create_permission_inv _ _ _ _ _ _ (accts db)) in Hcr as [Hcr _].
Qed.

Lemma deleteauth_inv cx x db db' :
  native_inv db -> apply_eosio_deleteauth cx x db = Ok db' ->
  native_inv db' /\ size (metas db') = size (metas db).
Proof.
  intros Hi Hn. pose proof (ni_perms _ Hi) as Hp. unfold apply_eosio_deleteauth in Hn.
  ok_bind Hn as ? _. ok_bind Hn as ? Hact. ok_bind Hn as ? Hown. ok_bind Hn as ? _. ok_bind Hn as q Hq.
  ok_bind Hn as a1 Hr. apply add_ram_usage_frame in Hn as (Ea & Em & Ec & Eau). simpl in *.
  apply native_inv_auth; try done. rewrite Eau.
  apply (proj1 (check_ok _ _ _)) in Hact, Hown.
  apply get_permission_ok in Hq as (Hq & _ & En & Hz); [|apply Hp]. simpl in En.
  eapply remove_permission_inv; [exact Hp|exact Hq|exact Hz| | |exact Hr].
  - intros E. rewrite <- En, E, Z.eqb_refl in Hown. done.
  - intros E. rewrite <- En, E, Z.eqb_refl in Hact. done.
Qed.

Lemma linkauth_inv cx x db db' :
  native_inv db -> apply_eosio_linkauth cx x db = Ok db' ->
  native_inv db' /\ size (metas db') = size (metas db).
Proof.
  intros Hi Hn. pose proof (ni_perms _ Hi) as Hp. unfold apply_eosio_linkauth in Hn.
  do 5 ok_bind Hn as ? _. destruct (links (auth_db db) !! _).
  - ok_bind Hn as ? _. ok_inv. subst db'. apply native_inv_auth; try done. by apply perms_inv_links.
  - apply add_ram_usage_frame in Hn as (Ea & Em & Ec & Eau). simpl in *.
    apply native_inv_auth; try done. rewrite Eau. by apply perms_inv_links.
Qed.

Lemma unlinkauth_inv cx x db db' :
  native_inv db -> apply_eosio_unlinkauth cx x db = Ok db' ->
  native_inv db' /\ size (metas db') = size (metas db).
Proof.
  intros Hi Hn. pose proof (ni_perms _ Hi) as Hp. unfold apply_eosio_unlinkauth in Hn.
  do 2 ok_bind Hn as ? _. ok_bind Hn as db1 Hr. ok_inv. subst db'.
  apply add_ram_usage_frame in Hr as (Ea & Em & Ec & Eau). apply native_inv_auth; try done.
  simpl. rewrite Eau. by apply perms_inv_links.
Qed.

Lemma native_apply_inv cx x db db' :
  hash_ok cx -> native_typed x -> native_inv db -> Z.of_nat (size (metas db)) < 2 ^ 63 ->
  native_apply cx x db = Ok db' ->
  native_inv db' /\ (size (metas db') <= S (size (metas db)))%nat.
Proof.
  intros Hh Ht Hi Hs Hn. destruct x; simpl in Hn, Ht.
  - destruct Ht. eapply newaccount_inv in Hn as [? ->]; eauto.
  - apply setcode_inv in Hn as (Hc & -> & Ea & Eau); [|done|apply Hi|done]. split; [|lia].
    split; [|done]. rewrite Ea, Eau. apply Hi.
  - eapply setabi_inv in Hn as [? ->]; eauto.
  - eapply updateauth_inv in Hn as [? ->]; eauto.
  - eapply deleteauth_inv in Hn as [? ->]; eauto.
  - eapply linkauth_inv in Hn as [? ->]; eauto.
  - eapply unlinkauth_inv in Hn as [? ->]; eauto.
Qed.

(** ** Genesis *)

Lemma initialize_database_inv (a : adb) : Authorization.initialize_database adb_empty = Ok a ->
  perms_inv ∅ a.
Proof.
  intros Ha. unfold Authorization.initialize_database, insert_permission in Ha. simpl in Ha.
  ok_bind Ha as ? _. ok_inv. subst a. split; [split| |]; simpl.
  - intros id p Hp. apply lookup_insert_Some in Hp as [[<- <-]|[_ Hp]]; [simpl; lia | done].
  - eexists. rewrite lookup_insert_eq. done.
  - intros id p Hp Hne. by apply lookup_insert_Some in Hp as [[<- <-]|[_ Hp]].
  - intros o n id Hi. apply lookup_insert_Some in Hi as [[E <-]|[_ Hi]]; [|done].
    injection E as <- <-. eexists. rewrite lookup_insert_eq. done.
  - intros id p Hp. apply lookup_insert_Some in Hp as [[<- <-]|[_ Hp]]; [|done]. by rewrite lookup_insert_eq.
  - intros id p Hp. simpl in Hp. apply lookup_insert_Some in Hp as [[_ <-]|[_ Hp]]; [|done].
    split; [constructor | simpl; lia].
  - intros n Hn. rewrite lookup_empty in Hn. by destruct Hn.
Qed.

Lemma create_native_account_inv g n own act b db db' :
  n <> 0 -> auth_ok own -> auth_ok act -> native_inv db ->
  create_native_account g n own act b db = Ok db' ->
  native_inv db' /\ size (metas db') = S (size (metas db)).
Proof.
  intros Hn Ho Ha [Hp Hc] Hcr. unfold create_native_account in Hcr. ok_bind Hcr as ? _.
  ok_bind Hcr as ? Hm. ok_bind Hcr as [p1 a1] H1. ok_bind Hcr as [p2 a2] H2. do 3 ok_bind Hcr as ? _.
  apply (proj1 (Ok_inj _ _)) in Hcr. subst db'. simpl.
  apply (proj1 (check_ok _ _ _)), bool_decide_eq_true in Hm.
  split; [|by apply map_size_insert_None]. split; simpl.
  - eapply new_account_perms; [exact Hp|done|exact Ho|exact Ha|exact H1|exact H2].
  - unfold code_inv. simpl. eapply counts_ext; [|exact Hc]. intros k. symmetry. by apply refs_new.
Qed.

Lemma simple_auth_ok thr ks accs :
  Forall (fun k => is_u16 (kw_weight (key := key) k)) ks -> Forall (fun p => is_u16 (pw_weight p)) accs ->
  Z.of_nat (length ks) + Z.of_nat (length accs) <= 2 ^ 16 -> auth_ok (mk_authority thr ks accs []).
Proof.
  intros Hk Ha Hl. split; unfold factors; simpl.
  - rewrite Forall_app, !Forall_fmap. done.
  - rewrite length_app, !length_fmap. lia.
Qed.

Lemma initialize_chain_inv g db : initialize_chain g = Ok db ->
  native_inv db /\ size (metas db) = 3%nat.
Proof.
  intros Hi. unfold initialize_chain in Hi. ok_bind Hi as a Ha. apply initialize_database_inv in Ha.
  assert (Hsys : auth_ok (authority_of_key (initial_key g) 0)).
  { apply simple_auth_ok; [repeat constructor; simpl; lia | constructor | simpl; lia]. }
  assert (Hemp : auth_ok (mk_authority (key := key) 1 [] [] [])).
  { apply simple_auth_ok; [constructor | constructor | simpl; lia]. }
  assert (Hprod : auth_ok (mk_authority (key := key) 1 []
    [mk_plw (system_account_name, active_name) 1] [])).
  { apply simple_auth_ok; [constructor | repeat constructor; simpl; lia | simpl; lia]. }
  ok_bind Hi as db1 H1. ok_bind Hi as db2 H2. ok_bind Hi as db3 H3. ok_bind Hi as ap Hap.
  ok_bind Hi as [mj a1] Hmj. ok_bind Hi as [mn a2] Hmn. ok_inv. subst db.
  apply create_native_account_inv in H1 as [Hi1 S1];
    [|by vm_compute|done|done|split; [done | by intros k]].
  apply create_native_account_inv in H2 as [Hi2 S2]; [|by vm_compute|done..].
  apply create_native_account_inv in H3 as [Hi3 S3]; [|by vm_compute|done..].
  split; [|simpl; rewrite S3, S2, S1; done].
  destruct Hi3 as [Hp3 Hc3]. split; [|exact Hc3]. simpl.
  apply get_permission_ok in Hap as (Hap & Eo & _ & _); [|apply Hp3]. simpl in Eo.
  pose proof (tr_id _ (pi_tree _ _ Hp3) _ _ Hap) as [_ Hb].
  apply (create_permission_inv _ _ _ _ _ _ (accts db3)) in Hmj
    as (Hp4 & _ & _ & Eo4 & _ & Hmj & _); [|done|by vm_compute|done|lia|exists ap; auto].
  pose proof (tr_id _ (pi_tree _ _ Hp4) _ _ Hmj) as [_ Hb4].
  apply (create_permission_inv _ _ _ _ _ _ (accts db3)) in Hmn as [Hp5 _];
    [done|done|by vm_compute|done|lia|exists mj; auto].
Qed.

(** The states reached from genesis by [n] native actions. *)
Inductive chain_reachable (g : genesis_state) : nat -> chain_db -> Prop :=
| cr_genesis db : initialize_chain g = Ok db -> chain_reachable g 0 db
| cr_step n cx x db db' : chain_reachable g n db -> hash_ok cx -> native_typed x ->
    native_apply cx x db = Ok db' -> chain_reachable g (S n) db'.

Lemma reachable_native_inv g n db :
  chain_reachable g n db -> Z.of_nat n < 2 ^ 62 ->
  perms_inv (accts db) (auth_db db) /\ code_inv db.
Proof.
  intros Hr Hn. enough (native_inv db /\ (size (metas db) <= n + 3)%nat) as [[? ?] _] by done.
  induction Hr as [db Hi|n cx x db db' _ IH Hh Ht Ha].
  - apply initialize_chain_inv in Hi as [? ->]. split; [done|lia].
  - destruct IH as [Hi Hs]; [lia|]. apply native_apply_inv in Ha as [Hi' Hs']; [|done..|lia].
    split; [done|lia].
Qed.

(** From genesis on, whatever native actions run: the permissions of each
    account form a tree below the root, every account has an owner permission
    at its top and an active permission directly below, every authority on
    record is well formed, and every code object counts exactly the accounts
    that run it, so code is kept as long as it is in use and no longer. (C21) *)
Theorem native_invariant g n db :
  chain_reachable g n db -> Z.of_nat n < 2 ^ 62 ->
  perms_inv (accts db) (auth_db db) /\ code_inv db.
Proof. apply reachable_native_inv. Qed.
End Native.

(** ** A chain from genesis

    A genesis block, an account, a permission and a contract, at which the
    theorems on authorization and on the native actions are evaluated. *)

Module GenesisRuns.

#[local] Abbreviation db_t := (chain_db (key := Z)).

Definition root_key : Z := 7.
Definition dave_key : Z := 8.
Definition trade_key : Z := 9.
Definition dave : Z := N_ "dave".
Definition trade : Z := N_ "trade".

Definition genesis : genesis_state := mk_genesis 1000 root_key [] (fun _ => 34).
Definition empty_db : db_t := mk_chain_db ∅ ∅ ∅ adb_empty rdb_empty.
Definition db0 : db_t := from_ok empty_db (initialize_chain genesis).

(** A stand-in for the hash: never zero. *)
Definition digest (c : chars) : Z := 1 + Z.of_nat (length c).
Definition ctx (auths : list permission_level) : context (key := Z) :=
  mk_context auths 2000 5 3888000 true None digest (fun _ => Ok tt) (fun _ => 34).

Definition native_script : list (context (key := Z) * native_action (key := Z)) :=
  [ (ctx [(system_account_name, active_name)],
     NNewaccount (mk_newaccount system_account_name dave (authority_of_key dave_key 0)
                    (authority_of_key dave_key 0)));
    (ctx [(dave, active_name)],
     NUpdateauth (mk_updateauth dave trade active_name (authority_of_key trade_key 0)));
    (ctx [(dave, active_name)], NLinkauth (mk_linkauth dave system_account_name (N_ "bid") trade));
    (ctx [(dave, active_name)],
     NSetcode (mk_setcode dave 0 0 (String.list_ascii_of_string "wasm"))) ].

Definition db1 : db_t :=
  from_ok empty_db (mfold (fun db p => native_apply p.1 p.2 db) native_script db0).

Lemma ctx_hash_ok auths : hash_ok (ctx auths).
Proof. intros c _. simpl. unfold digest. lia. Qed.

Lemma native_run_reachable g script n db db' :
  chain_reachable g n db -> Forall (fun p => hash_ok p.1 /\ native_typed p.2) script ->
  mfold (fun (db : db_t) p => native_apply p.1 p.2 db) script db = Ok db' ->
  exists n', chain_reachable g n' db' /\ (n' <= n + length script)%nat.
Proof.
  intros Hr Hs. revert n db Hr. induction Hs as [|[cx x] script [Hh Ht] Hs IH]; intros n db Hr Hm; simpl in Hm.
  - ok_inv. subst db'. exists n. split; [done|simpl; lia].
  - ok_bind Hm as d Hd. destruct (IH (S n) d) as (n' & Hn' & Hle); [by eapply cr_step|done|].
    exists n'. split; [done|simpl; lia].
Qed.

Lemma db1_reachable : exists n, chain_reachable genesis n db1 /\ (n <= 4)%nat.
Proof.
  apply (native_run_reachable genesis native_script 0 db0).
  - constructor. run_ok.
  - repeat constructor; try apply ctx_hash_ok; simpl; lia.
  - run_ok.
Qed.

Lemma db1_inv : perms_inv (accts db1) (auth_db db1).
Proof.
  destruct db1_reachable as (n & Hr & Hn).
  destruct (reachable_native_inv genesis n db1 Hr) as [Hp _]; [lia | exact Hp].
Qed.

Lemma db1_tree : tree_ok (auth_db db1).
Proof. exact (pi_tree _ _ db1_inv). Qed.
Lemma db1_auths : auths_ok (auth_db db1).
Proof. exact (pi_auths _ _ db1_inv). Qed.

Lemma native_invariant_witness : perms_inv (accts db1) (auth_db db1) /\ code_inv db1.
Proof.
  destruct db1_reachable as (n & Hr & Hn). exact (native_invariant genesis n db1 Hr ltac:(lia)).
Defined.

Definition perm_of (n : Z) : permission_object (key := Z) :=
  from_ok (mk_permission 0 0 0 0 0 0 (mk_authority 0 [] [] [])) (get_permission (auth_db db1) (dave, n)).

Lemma perm_of_found n : is_ok (get_permission (auth_db db1) (dave, n)) = true ->
  perms (auth_db db1) !! po_id (perm_of n) = Some (perm_of n) /\ po_id (perm_of n) <> 0.
Proof.
  intros Hn. assert (Hg : get_permission (auth_db db1) (dave, n) = Ok (perm_of n)) by (by apply from_ok_eq).
  destruct (get_permission_ok _ _ _ db1_tree Hg) as (Hp & _ & _ & Hz). split; assumption.
Qed.

Lemma active_found : is_ok (get_permission (auth_db db1) (dave, active_name)) = true.
Proof. vm_cast_no_check (eq_refl true). Qed.
Lemma trade_found : is_ok (get_permission (auth_db db1) (dave, trade)) = true.
Proof. vm_cast_no_check (eq_refl true). Qed.

Lemma satisfies_iff_witness :
  exists b, satisfies (perms (auth_db db1)) (perm_of active_name) (perm_of trade) = Ok b /\
    (b = true <-> po_owner (perm_of active_name) = po_owner (perm_of trade) /\
       ancestor (perms (auth_db db1)) (po_id (perm_of active_name)) (po_id (perm_of trade))).
Proof.
  destruct (perm_of_found _ active_found) as [Ha Hz]. destruct (perm_of_found _ trade_found) as [Ht _].
  exact (satisfies_iff (auth_db db1) (perm_of active_name) (perm_of trade) db1_tree Ha Ht Hz).
Defined.

Definition controls : control := mk_control 3888000 6 true ∅.
(** [dave] bids, under the permission linked to that action. *)
Definition bid : chain_action := mk_action (key := Z) system_account_name (N_ "bid") [(dave, trade)] (OtherData []).

End GenesisRuns.
