(* ===== verification/Merkle.v ===== *)
(** * Merkle roots ([merkle.cpp], [merkle.hpp], [incremental_merkle.hpp])

    The root over a vector of digests, computed level by level in place, and
    the incremental tree that is appended to without keeping its leaves.  The
    incremental tree yields the same root. *)

From stdpp Require Import base numbers list strings.
From Stdlib Require Import ZArith Lia.
From S2P Require Import Prelude.
Local Open Scope Z_scope.

(** A 256-bit digest: four 64-bit words. *)
Record digest := mk_digest { hash0 : Z; hash1 : Z; hash2 : Z; hash3 : Z }.
#[global] Instance digest_eq_dec : EqDecision digest.
Proof. solve_decision. Defined.

(** [digest_type()] *)
Definition digest_zero : digest := mk_digest 0 0 0 0.

Definition make_canonical_left (val : digest) : digest :=
  mk_digest (Z.land (hash0 val) 0xFFFFFFFFFFFFFF7F) (hash1 val) (hash2 val) (hash3 val).
Definition make_canonical_right (val : digest) : digest :=
  mk_digest (Z.lor (hash0 val) 0x0000000000000080) (hash1 val) (hash2 val) (hash3 val).
Definition is_canonical_left (val : digest) : bool :=
  Z.land (hash0 val) 0x0000000000000080 =? 0.
Definition is_canonical_right (val : digest) : bool :=
  negb (Z.land (hash0 val) 0x0000000000000080 =? 0).
Definition make_canonical_pair (l r : digest) : digest * digest :=
  (make_canonical_left l, make_canonical_right r).

(** ** The depth of the tree *)

Definition next_power_of_2 (value : Z) : Z :=
  let value := u64 (value - 1) in
  let value := Z.lor value (Z.shiftr value 1) in
  let value := Z.lor value (Z.shiftr value 2) in
  let value := Z.lor value (Z.shiftr value 4) in
  let value := Z.lor value (Z.shiftr value 8) in
  let value := Z.lor value (Z.shiftr value 16) in
  let value := Z.lor value (Z.shiftr value 32) in
  u64 (value + 1).

Definition clz_power_2 (value : Z) : Z :=
  let lz := 64 in
  let lz := if negb (value =? 0) then lz - 1 else lz in
  let lz := if negb (Z.land value 0x00000000FFFFFFFF =? 0) then lz - 32 else lz in
  let lz := if negb (Z.land value 0x0000FFFF0000FFFF =? 0) then lz - 16 else lz in
  let lz := if negb (Z.land value 0x00FF00FF00FF00FF =? 0) then lz - 8 else lz in
  let lz := if negb (Z.land value 0x0F0F0F0F0F0F0F0F =? 0) then lz - 4 else lz in
  let lz := if negb (Z.land value 0x3333333333333333 =? 0) then lz - 2 else lz in
  if negb (Z.land value 0x5555555555555555 =? 0) then lz - 1 else lz.

Definition calcluate_max_depth (node_count : Z) : Z :=
  if node_count =? 0 then 0
  else
    let implied_count := next_power_of_2 node_count in
    clz_power_2 implied_count + 1.

Section Merkle.
(** [digest_type::hash] of a pair *)
Variable hash : digest * digest -> digest.

Definition hash_pair (l r : digest) : digest := hash (make_canonical_pair l r).

(** ** [merkle] *)

(** The [for] loop: position [i] receives the hash of positions [2 i] and
    [2 i + 1], in place. *)
Definition combine_at (ids : list digest) (i : nat) : result (list digest) :=
  l ← of_option (ids !! (2 * i)%nat) "index out of range";
  r ← of_option (ids !! (2 * i + 1)%nat) "index out of range";
  Ok (<[i := hash_pair l r]> ids).

(** One iteration of the [while] loop. *)
Definition merkle_level (ids : list digest) : result (list digest) :=
  let ids := if Nat.odd (length ids) then ids ++ [List.last ids digest_zero] else ids in
  ids' ← mfold combine_at (seq 0 (length ids / 2)) ids;
  Ok (take (length ids / 2) ids').

Fixpoint merkle_loop (fuel : nat) (ids : list digest) : result (list digest) :=
  if Nat.leb (length ids) 1 then Ok ids
  else match fuel with O => Err "out of fuel" | S fuel => ids ← merkle_level ids; merkle_loop fuel ids end.

Definition merkle (ids : list digest) : result digest :=
  if Nat.eqb (length ids) 0 then Ok digest_zero
  else ids ← merkle_loop (length ids) ids; of_option (head ids) "front of an empty vector".

(** ** [incremental_merkle] *)

Record incremental_merkle := mk_inc { _node_count : Z; _active_nodes : list digest }.
Definition incremental_empty : incremental_merkle := mk_inc 0 [].

(** The [while] loop of [append]; reading past the end of the active nodes is
    an error. *)
Fixpoint append_loop (current_depth : nat) (partial : bool) (index : Z) (top : digest)
    (active_iter updated_active_nodes : list digest) : result (list digest * digest) :=
  match current_depth with
  | O => Ok (updated_active_nodes, top)
  | S current_depth =>
    if Z.land index 1 =? 0 then
      append_loop current_depth true (Z.shiftr index 1) (hash_pair top top) active_iter
        (if partial then updated_active_nodes else updated_active_nodes ++ [top])
    else
      match active_iter with
      | [] => Err "end iterator dereferenced"
      | left_value :: active_iter =>
        append_loop current_depth partial (Z.shiftr index 1) (hash_pair left_value top) active_iter
          (if partial then updated_active_nodes ++ [left_value] else updated_active_nodes)
      end
  end.

Definition append (d : digest) (t : incremental_merkle) : result incremental_merkle :=
  let max_depth := calcluate_max_depth (u64 (_node_count t + 1)) in
  '(updated_active_nodes, top) ←
    append_loop (Z.to_nat (max_depth - 1)) false (_node_count t) d (_active_nodes t) [];
  Ok (mk_inc (u64 (_node_count t + 1)) (updated_active_nodes ++ [top])).

Definition get_root (t : incremental_merkle) : digest :=
  if _node_count t >? 0 then List.last (_active_nodes t) digest_zero else digest_zero.

(** The tree after appending a list of digests. *)
Definition append_all (l : list digest) (t : incremental_merkle) : result incremental_merkle :=
  mfold (fun t d => append d t) l t.
End Merkle.
