(* ===== verification/MerkleSpec.v ===== *)
(** * The incremental tree has the root of its leaves

    The levels of a tree as list functions, the in-place loop of [merkle] and
    the append of the incremental tree as refinements of them. *)

From stdpp Require Import base numbers list strings countable.
From Stdlib Require Import ZArith Lia.
From S2P Require Import Prelude Merkle.
Local Open Scope Z_scope.

(** ** The depth computation *)

(** [v] has its top bit at [k], and the [m] bits from there down are ones. *)
Definition ones_from (v m k : Z) : Prop :=
  (forall i, k < i -> Z.testbit v i = false) /\
  (forall i, 0 <= i -> k - m < i <= k -> Z.testbit v i = true).

Lemma smear v m m' k : 0 < m -> m' = 2 * m -> ones_from v m k ->
  ones_from (Z.lor v (Z.shiftr v m)) m' k.
Proof.
  intros Hm -> [Hhi Hlo]. split.
  - intros i Hi. destruct (Z.neg_nonneg_cases i); [by apply Z.testbit_neg_r|].
    rewrite Z.lor_spec, Z.shiftr_spec, !Hhi by lia. done.
  - intros i Hi Hk. rewrite Z.lor_spec, Z.shiftr_spec by lia.
    destruct (Z.lt_ge_cases (k - m) i).
    + by rewrite Hlo by lia.
    + rewrite (Hlo (i + m)) by lia. apply orb_true_r.
Qed.

Lemma ones_from_full v m k : 0 <= k < m -> ones_from v m k -> v = Z.ones (k + 1).
Proof.
  intros Hk [Hhi Hlo]. apply Z.bits_inj'. intros i Hi. rewrite Z.testbit_ones_nonneg by lia.
  destruct (Z.ltb_spec i (k + 1)); [apply Hlo | apply Hhi]; lia.
Qed.

Lemma next_power_of_2_ok v : 1 <= v <= 2 ^ 63 -> next_power_of_2 v = 2 ^ Z.log2_up v.
Proof.
  intros Hv. destruct (Z.eq_dec v 1) as [->|Hv1]; [done|].
  unfold next_power_of_2. replace (u64 (v - 1)) with (v - 1) by (symmetry; apply Z.mod_small; lia).
  rewrite Z.log2_up_eqn, <- Z.sub_1_r by lia. set (k := Z.log2 (v - 1)).
  assert (Hk : 0 <= k < 63).
  { split; [apply Z.log2_nonneg|]. apply Z.log2_lt_pow2; lia. }
  assert (H0 : ones_from (v - 1) 1 k).
  { split; intros i ?; [apply Z.bits_above_log2; lia|]. intros Hi. replace i with k by lia.
    apply Z.bit_log2. lia. }
  cbv zeta. apply (smear _ 1 2) in H0; [|lia..]. apply (smear _ 2 4) in H0; [|lia..].
  apply (smear _ 4 8) in H0; [|lia..]. apply (smear _ 8 16) in H0; [|lia..].
  apply (smear _ 16 32) in H0; [|lia..]. apply (smear _ 32 64) in H0; [|lia..].
  apply ones_from_full in H0; [|lia]. rewrite H0. unfold u64. rewrite Z.ones_equiv.
  assert (0 < 2 ^ (k + 1) <= 2 ^ 63) by (split; [lia | apply Z.pow_le_mono_r; lia]).
  rewrite Z.mod_small by lia. by replace (Z.succ k) with (k + 1) by lia; lia.
Qed.

(** The routine whose comment promises the leading zeros counts the trailing
    ones: on a power of two it is the binary logarithm. *)
Lemma clz_power_2_ok k : 0 <= k < 64 -> clz_power_2 (2 ^ k) = k.
Proof.
  intros Hk. assert (H : forallb (fun n => clz_power_2 (2 ^ Z.of_nat n) =? Z.of_nat n) (seq 0 64) = true)
    by reflexivity.
  rewrite forallb_forall in H. specialize (H (Z.to_nat k)). rewrite Z2Nat.id in H by lia.
  apply Z.eqb_eq, H, in_seq. lia.
Qed.

Lemma max_depth_ok n : 1 <= n <= 2 ^ 63 -> calcluate_max_depth n = Z.log2_up n + 1.
Proof.
  intros Hn. unfold calcluate_max_depth. rewrite (proj2 (Z.eqb_neq n 0)), next_power_of_2_ok by lia.
  rewrite clz_power_2_ok; [done|]. split; [apply Z.log2_up_nonneg|].
  eapply Z.le_lt_trans; [apply (Z.log2_up_le_mono _ (2 ^ 63)); lia | done].
Qed.

Lemma log2_up_of_nat n : Z.log2_up (Z.of_nat n) = Z.of_nat (Nat.log2_up n).
Proof.
  destruct (Nat.le_gt_cases n 1) as [|Hn]; [by destruct n as [|[|]]; [..|lia]|].
  destruct (Nat.log2_up_spec n Hn) as [H1 H2]. pose proof (Nat.log2_up_pos n Hn).
  apply Z.log2_up_unique; [lia|]. rewrite <- Nat2Z.inj_pred by lia.
  change 2 with (Z.of_nat 2). rewrite <- !Nat2Z.inj_pow. lia.
Qed.

Section Spec.
Variable hash : digest * digest -> digest.
#[local] Abbreviation hash_pair := (hash_pair hash).

(** ** Reference: one level of the tree *)

(** The complete pairs of a level. *)
Fixpoint pairs (l : list digest) : list digest :=
  match l with
  | a :: b :: l => hash_pair a b :: pairs l
  | _ => []
  end.

(** A level with its last node doubled when it has no partner. *)
Fixpoint level_up (l : list digest) : list digest :=
  match l with
  | a :: b :: l => hash_pair a b :: level_up l
  | [a] => [hash_pair a a]
  | [] => []
  end.

(** The root by levels. *)
Fixpoint root_of (depth : nat) (l : list digest) : option digest :=
  match depth with
  | O => match l with [x] => Some x | _ => None end
  | S depth => root_of depth (level_up l)
  end.

Lemma list_ind2 (P : list digest -> Prop) :
  P [] -> (forall a, P [a]) -> (forall a b l, P l -> P (a :: b :: l)) -> forall l, P l.
Proof.
  intros H0 H1 H2 l. enough (P l /\ forall a, P (a :: l)) by tauto.
  induction l as [|b l [IH1 IH2]]; split; auto.
Qed.

Lemma pairs_app l1 l2 : Nat.even (length l1) = true -> pairs (l1 ++ l2) = pairs l1 ++ pairs l2.
Proof. induction l1 as [| |a b l IH] using list_ind2; simpl; intros He; [done..|]. by rewrite IH. Qed.

Lemma level_up_app l1 l2 : Nat.even (length l1) = true -> level_up (l1 ++ l2) = pairs l1 ++ level_up l2.
Proof. induction l1 as [| |a b l IH] using list_ind2; simpl; intros He; [done..|]. by rewrite IH. Qed.

Lemma length_pairs l : length (pairs l) = (length l / 2)%nat.
Proof.
  induction l as [| |a b l IH] using list_ind2; [done..|]. cbn [pairs length]. rewrite IH.
  replace (S (S (length l))) with (length l + 1 * 2)%nat by lia. rewrite Nat.div_add by lia. lia.
Qed.

Lemma length_level_up l : length (level_up l) = ((length l + 1) / 2)%nat.
Proof.
  induction l as [| |a b l IH] using list_ind2; [done..|]. cbn [level_up length]. rewrite IH.
  replace (S (S (length l)) + 1)%nat with (length l + 1 + 1 * 2)%nat by lia.
  rewrite Nat.div_add by lia. lia.
Qed.

Lemma level_up_even l : Nat.even (length l) = true -> level_up l = pairs l.
Proof. intros He. rewrite <- (app_nil_r l) at 1. rewrite level_up_app by done. apply app_nil_r. Qed.

(** ** The in-place loop computes a level *)

Lemma half_double m : (2 * m / 2)%nat = m.
Proof. rewrite Nat.mul_comm. by apply Nat.div_mul. Qed.

Lemma combine_prefix ids k : (2 * k <= length ids)%nat ->
  mfold (combine_at hash) (seq 0 k) ids = Ok (pairs (take (2 * k) ids) ++ drop k ids).
Proof.
  induction k as [|k IH]; intros Hk; [done|].
  rewrite seq_S, mfold_app, IH by lia. cbn [mbind result_bind mfold]. rewrite Nat.add_0_l.
  destruct (lookup_lt_is_Some_2 ids (2 * k)) as [a Ha]; [lia|].
  destruct (lookup_lt_is_Some_2 ids (2 * k + 1)) as [b Hb]; [lia|].
  assert (Hlen : length (pairs (take (2 * k) ids)) = k).
  { by rewrite length_pairs, length_take_le, half_double by lia. }
  unfold combine_at.
  rewrite !lookup_app_r, Hlen, !lookup_drop by (rewrite Hlen; lia).
  replace (k + (2 * k - k))%nat with (2 * k)%nat by lia.
  replace (k + (2 * k + 1 - k))%nat with (2 * k + 1)%nat by lia.
  rewrite Ha, Hb. cbn [of_option mbind result_bind]. f_equal.
  rewrite insert_app_r_alt, Hlen by (rewrite Hlen; lia). rewrite Nat.sub_diag.
  replace (2 * S k)%nat with (S (S (2 * k))) by lia.
  erewrite (take_S_r ids (S (2 * k)) b) by (rewrite <- Hb; f_equal; lia).
  erewrite (take_S_r ids (2 * k) a) by done.
  rewrite <- app_assoc, pairs_app.
  - destruct (lookup_lt_is_Some_2 ids k) as [c Hc]; [lia|].
    rewrite <- app_assoc. f_equal. by rewrite (drop_S ids c k Hc).
  - rewrite length_take_le by lia. by rewrite Nat.even_mul.
Qed.

Lemma level_up_odd l a : Nat.even (length l) = true ->
  level_up (l ++ [a]) = pairs ((l ++ [a]) ++ [a]).
Proof. intros He. rewrite level_up_app, <- app_assoc, pairs_app by done. done. Qed.

Lemma combine_even ids : Nat.even (length ids) = true ->
  (ids' ← mfold (combine_at hash) (seq 0 (length ids / 2)) ids; Ok (take (length ids / 2) ids'))
  = Ok (pairs ids).
Proof.
  intros He. apply Nat.even_spec in He as [m Hm]. rewrite Hm.
  rewrite half_double, combine_prefix by lia. cbn [mbind result_bind]. rewrite <- Hm, firstn_all.
  f_equal. apply take_app_length'. by rewrite length_pairs, Hm, half_double.
Qed.

Lemma merkle_level_ok ids : merkle_level hash ids = Ok (level_up ids).
Proof.
  unfold merkle_level. destruct (Nat.odd (length ids)) eqn:Ho.
  - destruct ids as [|a l _] using rev_ind; [done|].
    rewrite length_app, Nat.add_1_r, Nat.odd_succ in Ho.
    rewrite last_last, combine_even, level_up_odd; [done..|].
    rewrite !length_app. simpl. by rewrite <- Nat.add_assoc, Nat.even_add, Ho.
  - rewrite combine_even, level_up_even; [done|..]; by rewrite <- Nat.negb_odd, Ho.
Qed.

(** ** [merkle] is the root by levels *)

Lemma log2_up_half n : (2 <= n)%nat -> Nat.log2_up n = S (Nat.log2_up ((n + 1) / 2)).
Proof.
  intros Hn. set (m := ((n + 1) / 2)%nat).
  assert (Hm : (2 * m <= n + 1 < 2 * m + 2)%nat).
  { pose proof (Nat.div_mod_eq (n + 1) 2). pose proof (Nat.mod_upper_bound (n + 1) 2). lia. }
  apply Nat.log2_up_unique; [lia|]. cbn [Nat.pred].
  destruct (decide (m = 1)%nat) as [->|Hm1]; [simpl; lia|].
  destruct (Nat.log2_up_spec m) as [H1 H2]; [lia|].
  pose proof (Nat.log2_up_pos m ltac:(lia)).
  replace (Nat.log2_up m) with (S (Nat.pred (Nat.log2_up m))) in H2 |- * by lia.
  rewrite !Nat.pow_succ_r' in *. lia.
Qed.

Definition depth_of (l : list digest) : nat := Nat.log2_up (length l).

Lemma depth_level_up l : (2 <= length l)%nat -> depth_of l = S (depth_of (level_up l)).
Proof. intros Hl. unfold depth_of. by rewrite length_level_up, log2_up_half. Qed.

Lemma merkle_loop_ok fuel l : (1 <= length l <= S fuel)%nat ->
  exists x, merkle_loop hash fuel l = Ok [x] /\ root_of (depth_of l) l = Some x.
Proof.
  revert l. induction fuel as [|fuel IH]; intros l Hl.
  - destruct l as [|x [|]]; simpl in Hl; try lia. by exists x.
  - destruct (Nat.leb_spec (length l) 1).
    { destruct l as [|x [|]]; simpl in Hl; try (simpl in *; lia). by exists x. }
    destruct (IH (level_up l)) as (x & Hx & Hr).
    { rewrite length_level_up. pose proof (Nat.div_mod_eq (length l + 1) 2).
      pose proof (Nat.mod_upper_bound (length l + 1) 2). lia. }
    exists x. cbn [merkle_loop]. rewrite (proj2 (Nat.leb_gt _ _)), merkle_level_ok by lia.
    rewrite depth_level_up by lia. done.
Qed.

(** [merkle] always returns, and returns the root by levels. *)
Lemma merkle_root l : l <> [] -> exists x, merkle hash l = Ok x /\ root_of (depth_of l) l = Some x.
Proof.
  intros Hl. assert (1 <= length l)%nat by (destruct l; simpl; [done|lia]).
  destruct (merkle_loop_ok (length l) l) as (x & Hx & Hr); [lia|].
  exists x. unfold merkle. rewrite (proj2 (Nat.eqb_neq _ _)), Hx by lia. done.
Qed.

(** ** The append keeps the complete subtrees *)

(** The roots of the complete subtrees that wait for a right sibling, from the
    lowest level up: what the active nodes hold, apart from the root. *)
Fixpoint waiting (fuel : nat) (l : list digest) : list digest :=
  match fuel with
  | O => []
  | S fuel =>
    match l with
    | [] => []
    | _ => (if Nat.odd (length l) then [List.last l digest_zero] else []) ++ waiting fuel (pairs l)
    end
  end.

Lemma waiting_even fuel l : Nat.even (length l) = true ->
  waiting (S fuel) l = waiting fuel (pairs l).
Proof.
  intros He. cbn [waiting]. rewrite <- Nat.negb_even, He. destruct l as [|a l]; [|done].
  by destruct fuel.
Qed.

Lemma waiting_odd fuel l a : Nat.even (length l) = true ->
  waiting (S fuel) (l ++ [a]) = a :: waiting fuel (pairs l).
Proof.
  intros He. cbn [waiting]. rewrite length_app, Nat.add_1_r, Nat.odd_succ, He, last_last.
  rewrite pairs_app by done. simpl. rewrite app_nil_r. by destruct (l ++ [a]) eqn:E; [destruct l|].
Qed.

Lemma waiting_more fuel l : (length l < 2 ^ fuel)%nat -> waiting (S fuel) l = waiting fuel l.
Proof.
  revert l. induction fuel as [|fuel IH]; intros l Hl.
  { by destruct l; [|simpl in Hl; lia]. }
  cbn [waiting] in IH |- *. destruct l as [|a l]; [done|]. f_equal. apply IH.
  rewrite length_pairs. apply Nat.Div0.div_lt_upper_bound. by rewrite <- Nat.pow_succ_r'.
Qed.

Lemma waiting_fuel f f' l : (length l < 2 ^ f)%nat -> (f <= f')%nat -> waiting f' l = waiting f l.
Proof.
  intros Hl. induction 1 as [|f' Hf IH]; [done|]. rewrite waiting_more; [done|].
  eapply Nat.lt_le_trans; [exact Hl|]. by apply Nat.pow_le_mono_r.
Qed.

Lemma index_even n : (Z.land (Z.of_nat n) 1 =? 0) = Nat.even n.
Proof.
  rewrite (Z.land_ones _ 1), Z.pow_1_r by lia.
  destruct (Nat.Even_or_Odd n) as [[m ->]|[m ->]].
  - rewrite Nat.even_mul. apply Z.eqb_eq. rewrite Nat2Z.inj_mul, Z.mul_comm. apply Z_mod_mult.
  - rewrite Nat.even_add, Nat.even_mul. apply Z.eqb_neq.
    rewrite Nat2Z.inj_add, Nat2Z.inj_mul, Z.add_comm, Z.mul_comm, Z_mod_plus_full. done.
Qed.

Lemma index_half n : Z.shiftr (Z.of_nat n) 1 = Z.of_nat (n / 2).
Proof. by rewrite Z.shiftr_div_pow2, Nat2Z.inj_div. Qed.

(** The loop of [append], started at any level: [F] are the complete nodes of
    that level, [top] the last node, complete unless [partial]. *)
Lemma append_loop_ok D F top partial acc junk :
  D = Nat.log2_up (length F + 1) ->
  exists upd root junk',
    append_loop hash D partial (Z.of_nat (length F)) top (waiting (S D) F ++ junk) acc = Ok (upd, root) /\
    root_of D (F ++ [top]) = Some root /\
    upd ++ [root] = acc ++ waiting (S D) (if partial then F else F ++ [top]) ++ junk'.
Proof.
  revert F top partial acc. induction D as [|D IH]; intros F top partial acc HD.
  { destruct F as [|x F].
    2: { cbn [length] in HD. pose proof (Nat.log2_up_pos (S (length F) + 1)). lia. }
    exists acc, top, (if partial then [top] else []). by destruct partial. }
  assert (HD' : D = Nat.log2_up (length F / 2 + 1)).
  { rewrite log2_up_half in HD by (destruct F; simpl in *; [done|lia]). apply Nat.succ_inj in HD.
    rewrite HD. f_equal. replace (length F + 1 + 1)%nat with (length F + 1 * 2)%nat by lia.
    rewrite Nat.div_add by lia. done. }
  cbn [append_loop root_of]. rewrite index_even, index_half.
  destruct (Nat.even (length F)) eqn:He.
  - rewrite waiting_even, level_up_app, <- length_pairs by done. cbn [level_up].
    destruct (IH (pairs F) (hash_pair top top) true (if partial then acc else acc ++ [top]))
      as (upd & root & junk' & -> & -> & Hupd); [by rewrite length_pairs|].
    exists upd, root, junk'. split_and!; [done..|]. rewrite Hupd.
    destruct partial; [rewrite (waiting_even (S D)) by done; done|].
    rewrite waiting_odd by done. by rewrite <- app_assoc.
  - destruct F as [|left F0 _] using rev_ind; [done|]. clear HD.
    assert (He' : Nat.even (length F0) = true).
    { rewrite length_app, Nat.add_1_r, Nat.even_succ in He. by rewrite <- Nat.negb_odd, He. }
    assert (Hlen : (length (F0 ++ [left]) / 2)%nat = length (pairs F0)).
    { rewrite <- length_pairs, pairs_app by done. by rewrite app_nil_r. }
    rewrite waiting_odd, Hlen, <- app_assoc, level_up_app by done. cbn [app level_up].
    destruct (IH (pairs F0) (hash_pair left top) partial (if partial then acc ++ [left] else acc))
      as (upd & root & junk' & -> & -> & Hupd); [by rewrite <- Hlen|].
    exists upd, root, junk'. split_and!; [done..|]. rewrite Hupd.
    destruct partial; [rewrite waiting_odd by done; by rewrite <- app_assoc|].
    assert (He2 : Nat.even (length (F0 ++ [left; top])) = true) by by rewrite length_app, Nat.even_add, He'.
    rewrite (waiting_even (S D)), pairs_app by done. done.
Qed.

(** ** Appending one leaf after the other *)

(** The active nodes of a tree over the leaves [l]: the waiting subtrees, and
    at the end the root. *)
Definition tree_of (l : list digest) (t : incremental_merkle) : Prop :=
  _node_count t = Z.of_nat (length l) /\
  (exists junk, _active_nodes t = waiting (S (depth_of l)) l ++ junk) /\
  (l <> [] -> exists nodes root, _active_nodes t = nodes ++ [root] /\ root_of (depth_of l) l = Some root).

Lemma depth_bound (l : list digest) : (length l < 2 ^ S (depth_of l))%nat.
Proof.
  unfold depth_of. rewrite Nat.pow_succ_r'. destruct (Nat.le_gt_cases (length l) 1) as [Hl|Hl].
  - pose proof (Nat.pow_nonzero 2 (Nat.log2_up (length l))). lia.
  - destruct (Nat.log2_up_spec (length l) Hl). lia.
Qed.

Lemma append_ok l t d : tree_of l t -> Z.of_nat (length l) < 2 ^ 63 ->
  exists t', append hash d t = Ok t' /\ tree_of (l ++ [d]) t'.
Proof.
  intros (Hn & (junk & Ha) & _) Hl. unfold append. rewrite Hn.
  replace (u64 (Z.of_nat (length l) + 1)) with (Z.of_nat (length l + 1))
    by (unfold u64; rewrite Z.mod_small; lia).
  rewrite max_depth_ok, log2_up_of_nat, Z.add_simpl_r, Nat2Z.id by lia.
  set (D := Nat.log2_up (length l + 1)).
  assert (HD : D = depth_of (l ++ [d])) by (unfold depth_of; by rewrite length_app).
  assert (Hw : waiting (S (depth_of l)) l = waiting (S D) l).
  { symmetry. apply waiting_fuel; [apply depth_bound|]. unfold D, depth_of.
    apply le_n_S, Nat.log2_up_le_mono. lia. }
  destruct (append_loop_ok D l d false [] junk eq_refl) as (upd & root & junk' & Hloop & Hroot & Hupd).
  rewrite Ha, Hw, Hloop. eexists. split; [reflexivity|]. split_and!; cbn [_node_count _active_nodes].
  - rewrite length_app. done.
  - exists junk'. by rewrite Hupd, HD.
  - intros _. exists upd, root. by rewrite <- HD.
Qed.

Lemma append_all_ok l : Z.of_nat (length l) <= 2 ^ 63 ->
  exists t, append_all hash l incremental_empty = Ok t /\ tree_of l t.
Proof.
  induction l as [|d l IH] using rev_ind; intros Hl.
  - exists incremental_empty. split; [done|]. by split_and!; [|exists []|].
  - rewrite length_app in Hl. simpl in Hl. destruct IH as (t & Ht & Hinv); [lia|].
    destruct (append_ok l t d Hinv) as (t' & Ht' & Hinv'); [lia|].
    exists t'. unfold append_all in *. rewrite mfold_app, Ht. cbn [mbind result_bind mfold].
    by rewrite Ht'.
Qed.

(** Appending digests one by one never fails, and the root the incremental
    tree reports is the root [merkle] computes over all of them. (C37) *)
Theorem incremental_merkle_exact l : Z.of_nat (length l) <= 2 ^ 63 ->
  exists t, append_all hash l incremental_empty = Ok t /\
    _node_count t = Z.of_nat (length l) /\ merkle hash l = Ok (get_root t).
Proof.
  intros Hl. destruct (append_all_ok l Hl) as (t & Ht & Hn & _ & Hroot).
  exists t. split_and!; [done..|]. unfold get_root. rewrite Hn. destruct l as [|d l]; [done|].
  destruct Hroot as (nodes & root & -> & Hr); [done|].
  destruct (merkle_root (d :: l)) as (x & -> & Hx); [done|]. rewrite last_last. simpl length.
  destruct (Z.gtb_spec (Z.of_nat (S (length l))) 0); [congruence|lia].
Qed.

(** ** Binding *)

(** Equal apart from the bit that tells the side. *)
Definition same_node (a b : digest) : Prop := make_canonical_left a = make_canonical_left b.

Definition collision_free : Prop :=
  forall p q, same_node (hash p) (hash q) -> p = q.

Lemma set_side x y : Z.lor x 128 = Z.lor y 128 -> Z.land x 0xFFFFFFFFFFFFFF7F = Z.land y 0xFFFFFFFFFFFFFF7F.
Proof.
  intros H. apply Z.bits_inj'. intros i Hi. rewrite !Z.land_spec.
  apply (f_equal (fun z => Z.testbit z i)) in H. rewrite !Z.lor_spec in H.
  assert (Hd : Z.testbit 0xFFFFFFFFFFFFFF7F i && Z.testbit 128 i = false).
  { rewrite <- Z.land_spec. change (Z.land 0xFFFFFFFFFFFFFF7F 128) with 0. apply Z.bits_0. }
  revert H Hd. generalize (Z.testbit 0xFFFFFFFFFFFFFF7F i) (Z.testbit 128 i).
  by intros [] []; destruct (Z.testbit x i), (Z.testbit y i).
Qed.

Lemma same_node_right a b : make_canonical_right a = make_canonical_right b -> same_node a b.
Proof.
  destruct a, b. unfold make_canonical_right, same_node, make_canonical_left. simpl. intros [= H -> -> ->].
  f_equal. by apply set_side.
Qed.

Lemma hash_pair_inj l r l' r' : collision_free -> same_node (hash_pair l r) (hash_pair l' r') ->
  same_node l l' /\ same_node r r'.
Proof.
  intros Hcf H%Hcf. split; [exact (f_equal fst H) | apply same_node_right; exact (f_equal snd H)].
Qed.

Lemma level_up_inj l l' : collision_free -> length l = length l' ->
  Forall2 same_node (level_up l) (level_up l') -> Forall2 same_node l l'.
Proof.
  intros Hcf. revert l'. induction l as [|a|a b l IH] using list_ind2; intros l' Hl Hf.
  - by destruct l'.
  - destruct l' as [|a' [|]]; try done. apply Forall2_cons_1 in Hf as [Hf _].
    constructor; [|done]. by apply (hash_pair_inj _ _ _ _ Hcf Hf).
  - destruct l' as [|a' [|b' l']]; try done. cbn [level_up] in Hf. apply Forall2_cons_1 in Hf as [Hh Hf].
    destruct (hash_pair_inj _ _ _ _ Hcf Hh). constructor; [done|]. constructor; [done|]. apply IH; [|done].
    simpl in Hl. lia.
Qed.

Lemma root_of_inj D l l' x x' : collision_free -> length l = length l' -> same_node x x' ->
  root_of D l = Some x -> root_of D l' = Some x' -> Forall2 same_node l l'.
Proof.
  intros Hcf. revert l l'. induction D as [|D IH]; intros l l' Hl Hx H H'.
  - destruct l as [|y [|]], l' as [|y' [|]]; try done. simpl in H, H'. simplify_eq. by constructor.
  - apply level_up_inj; [done..|]. eapply IH; [|done..]. by rewrite !length_level_up, Hl.
Qed.

(** Under a collision-free hash the root commits to the leaves: two vectors of
    the same length with the same root agree at every position, apart from
    the bit of each digest that the tree overwrites. *)
Theorem merkle_binding l l' x : collision_free -> length l = length l' ->
  merkle hash l = Ok x -> merkle hash l' = Ok x -> Forall2 same_node l l'.
Proof.
  intros Hcf Hl H H'. destruct (decide (l = [])) as [->|Hne].
  { by destruct l'. }
  assert (Hne' : l' <> []) by (by destruct l, l').
  destruct (merkle_root l Hne) as (y & Hy & Hr). destruct (merkle_root l' Hne') as (y' & Hy' & Hr').
  unfold depth_of in *. rewrite <- Hl in Hr'.
  assert (y = x) as -> by congruence. assert (y' = x) as -> by congruence.
  by apply (root_of_inj (Nat.log2_up (length l)) l l' x x).
Qed.

(** The length has to be known: a level of odd length has the root of the
    same level with its last node repeated. *)
Theorem merkle_ambiguous l d : l <> [] -> Nat.even (length l) = true ->
  merkle hash (l ++ [d]) = merkle hash (l ++ [d; d]).
Proof.
  intros Hl He.
  destruct (merkle_root (l ++ [d])) as (x & -> & Hx); [by destruct l|].
  destruct (merkle_root (l ++ [d; d])) as (x' & -> & Hx'); [by destruct l|].
  assert (2 <= length l)%nat by (destruct l as [|? [|]]; [done|done|simpl; lia]).
  rewrite depth_level_up in Hx, Hx' by (rewrite length_app; simpl; lia).
  cbn [root_of] in Hx, Hx'. rewrite level_up_app in Hx, Hx' by done. cbn [level_up] in *. congruence.
Qed.
End Spec.

(** ** Concrete digests *)

(** A collision-free function on digests. *)
Definition toy_hash (p : digest * digest) : digest :=
  let code d := (hash0 d, hash1 d, hash2 d, hash3 d) in
  mk_digest 0 (Zpos (encode (code p.1, code p.2))) 0 0.

Lemma toy_hash_collision_free : collision_free toy_hash.
Proof.
  intros [[a0 a1 a2 a3] [b0 b1 b2 b3]] [[c0 c1 c2 c3] [d0 d1 d2 d3]] H.
  unfold same_node, make_canonical_left, toy_hash in H. simpl in H. injection H as H.
  apply (inj encode) in H. by simplify_eq.
Qed.

Definition leaf (n : Z) : digest := mk_digest n 0 0 0.

Lemma incremental_merkle_exact_witness :
  exists t, append_all toy_hash (leaf <$> [1; 2; 3; 4; 5]) incremental_empty = Ok t /\
    _node_count t = 5 /\ merkle toy_hash (leaf <$> [1; 2; 3; 4; 5]) = Ok (get_root t).
Proof.
  destruct (incremental_merkle_exact toy_hash (leaf <$> [1; 2; 3; 4; 5])) as (t & Ht & Hn & Hr).
  - simpl. lia.
  - exists t. split; [exact Ht|]. split; [exact Hn | exact Hr].
Defined.

Lemma merkle_binding_witness :
  Forall2 same_node [leaf 1; leaf 2; leaf 3] [leaf 129; leaf 2; leaf 131].
Proof.
  destruct (merkle toy_hash [leaf 1; leaf 2; leaf 3]) as [x|e] eqn:E; [|discriminate].
  apply (merkle_binding toy_hash _ _ x toy_hash_collision_free); [reflexivity | exact E | exact E].
Defined.

Lemma merkle_ambiguous_witness :
  merkle toy_hash [leaf 1; leaf 2; leaf 3] = merkle toy_hash [leaf 1; leaf 2; leaf 3; leaf 3].
Proof. apply (merkle_ambiguous toy_hash [leaf 1; leaf 2] (leaf 3)); [discriminate | reflexivity]. Defined.
