(* ===== verification/BlockHeader.v ===== *)
(** * Block headers ([block_header.hpp], [block_header.cpp],
    [producer_schedule.hpp], [protocol_feature_activation.cpp])

    Headers, producer schedules, the block number stored in a block id, and
    the header extension that activates protocol features. *)

From stdpp Require Import base numbers list gmap strings countable.
From Stdlib Require Import ZArith Lia.
From S2P Require Import Prelude Boost Merkle.
Local Open Scope Z_scope.

#[global] Instance digest_countable : Countable digest :=
  inj_countable' (fun d => (hash0 d, hash1 d, hash2 d, hash3 d))
    (fun '(a, b, c, d) => mk_digest a b c d) (fun d => match d with mk_digest _ _ _ _ => eq_refl end).

(** [fc::endian_reverse_u32] *)
Definition endian_reverse_u32 (x : Z) : Z :=
  Z.lor (Z.lor (Z.lor (Z.land (Z.shiftr x 24) 0xFF) (Z.shiftl (Z.land (Z.shiftr x 16) 0xFF) 8))
    (Z.shiftl (Z.land (Z.shiftr x 8) 0xFF) 16)) (Z.shiftl (Z.land x 0xFF) 24).

(** [num_from_id]: the low word is converted to 32 bits. *)
Definition num_from_id (id : digest) : Z := endian_reverse_u32 (u32 (hash0 id)).

Section Header.
Context {key sig : Type}.

Record producer_key := mk_producer { producer_name : Z; producer_block_signing_key : key }.
Record producer_schedule := mk_schedule { version : Z; producers : list producer_key }.

(** [get_producer_key]; [None] is the default key. *)
Fixpoint get_producer_key (ps : list producer_key) (p : Z) : option key :=
  match ps with
  | [] => None
  | i :: ps => if producer_name i =? p then Some (producer_block_signing_key i) else get_producer_key ps p
  end.

(** An extension: its id and its serialised data. *)
Abbreviation extension := (Z * chars)%type.

Record block_header := mk_header {
  h_timestamp : Z; h_producer : Z; h_confirmed : Z; h_previous : digest;
  h_transaction_mroot : digest; h_action_mroot : digest; h_schedule_version : Z;
  h_new_producers : option producer_schedule; h_extensions : list extension }.
Record signed_block_header := mk_signed { sb_header : block_header; producer_signature : sig }.

Definition block_num_of (h : block_header) : Z := u32 (num_from_id (h_previous h) + 1).

(** What the headers rely on: the hashes of serialised values, recovery of the
    signing key, and the serialisation of the activation extension. *)
Class HeaderCrypto := {
  hash_of_pair : digest * digest -> digest;
  header_digest : block_header -> digest;
  schedule_digest : producer_schedule -> digest;
  recover_key : bool (** check_canonical *) -> sig -> digest -> result key;
  default_key : key;
  default_signature : sig;
  pack_features : list digest -> chars;
  unpack_features : chars -> result (list digest);
  unpack_pack : forall l, unpack_features (pack_features l) = Ok l;
}.
Context `{HeaderCrypto}.

(** [block_header::id]: the digest with the block number in its low half word. *)
Definition id_of (h : block_header) : digest :=
  let result := header_digest h in
  mk_digest (u64 (Z.land (hash0 result) 0xffffffff00000000 + endian_reverse_u32 (block_num_of h)))
    (hash1 result) (hash2 result) (hash3 result).

(** ** The activation extension *)

(** [protocol_feature_activation::reflector_init]: at least one digest, none
    repeated. *)
Definition reflector_init (protocol_features : list digest) : result unit :=
  check (negb (Nat.eqb (length protocol_features) 0))
    "Protocol feature activation extension must have at least one protocol feature digest" ;;
  mfold (fun s d =>
      check (negb (bool_decide (d ∈ s)))
        "Protocol feature digest was repeated in the protocol feature activation extension" ;;
      Ok ({[ d ]} ∪ s)) protocol_features (∅ : gset digest) ;;
  Ok tt.

(** [decompose_t::extract]: the one supported extension, id 0, is unique. *)
Definition extract (id : Z) (data : chars) : result (option (list digest)) :=
  if id =? 0 then
    fs ← unpack_features data;
    reflector_init fs ;;
    Ok (Some fs)
  else Ok None.

(** The loop of [validate_and_extract_header_extensions]; [i] tells whether
    this is the first extension. *)
Fixpoint extract_loop (first : bool) (id_type_lower_bound : Z) (exts : list extension)
    : result (list (list digest)) :=
  match exts with
  | [] => Ok []
  | (id, data) :: exts =>
    check (id >=? id_type_lower_bound) "Block header extensions are not in the correct order" ;;
    m ← extract id data;
    fs ← of_option m "Block header extension is not supported";
    check (first || (id >? id_type_lower_bound)) "Block header extension is not allowed to repeat" ;;
    rest ← extract_loop false id exts;
    Ok (fs :: rest)
  end.
Definition validate_and_extract_header_extensions (h : block_header) : result (list (list digest)) :=
  extract_loop true 0 (h_extensions h).

(** [protocol_feature_activation_set(orig, additional, enforce_disjoint)] *)
Definition activation_set (orig : gset digest) (additional_features : list digest)
    (enforce_disjoint : bool) : result (gset digest) :=
  let protocol_features := orig ∪ list_to_set additional_features in
  check (negb enforce_disjoint ||
         Nat.eqb (size protocol_features) (size orig + length additional_features))
    "duplication of protocol feature digests" ;;
  Ok protocol_features.
End Header.
Arguments producer_key : clear implicits.
Arguments producer_schedule : clear implicits.
Arguments block_header : clear implicits.
Arguments signed_block_header : clear implicits.
Arguments HeaderCrypto : clear implicits.
