(* ===== verification/BlockHeaderState.v ===== *)
(** * Block header states ([block_header_state.hpp], [block_header_state.cpp])

    The state that follows from the headers alone: who may produce when, which
    blocks are confirmed by how many producers, which block is irreversible,
    and the change of producer schedules. *)

From stdpp Require Import base numbers list gmap strings sorting.
From Stdlib Require Import ZArith Lia.
From S2P Require Import Prelude Boost Merkle BlockTimestamp BlockHeader.
Local Open Scope Z_scope.

Definition producer_repetitions : Z := 12.
Definition max_producers : Z := 125.
Definition maximum_tracked_dpos_confirmations : Z := 1024.

Section HeaderState.
Context {key sig : Type} `{EqDecision key} `{crypto : HeaderCrypto key sig}.
#[local] Abbreviation producer_schedule := (producer_schedule key).
#[local] Abbreviation signed_block_header := (signed_block_header key sig).

(** [detail::block_header_state_common] *)
Record common := mk_common {
  block_num : Z;
  dpos_proposed_irreversible_blocknum : Z;
  dpos_irreversible_blocknum : Z;
  active_schedule : producer_schedule;
  blockroot_merkle : incremental_merkle;
  producer_to_last_produced : gmap Z Z;
  producer_to_last_implied_irb : gmap Z Z;
  block_signing_key : key;
  confirm_count : list Z }.

Record schedule_info := mk_sinfo {
  schedule_lib_num : Z; schedule_hash : digest; schedule : producer_schedule }.

Record pending_block_header_state := mk_pbhs {
  p_common : common;
  prev_activated_protocol_features : gset digest;
  prev_pending_schedule : schedule_info;
  was_pending_promoted : bool;
  p_previous : digest; p_producer : Z; p_timestamp : Z;
  active_schedule_version : Z; p_confirmed : Z }.

Record block_header_state := mk_bhs {
  b_common : common;
  b_id : digest;
  b_header : signed_block_header;
  pending_schedule : schedule_info;
  activated_protocol_features : gset digest;
  header_exts : list (list digest) }.

Definition is_active_producer (b : block_header_state) (n : Z) : bool :=
  bool_decide (is_Some (producer_to_last_produced (b_common b) !! n)).

(** [size() * producer_repetitions] of an empty schedule is a division by zero. *)
Definition get_scheduled_producer (c : common) (slot : Z) : result (producer_key key) :=
  let size := Z.of_nat (length (producers (active_schedule c))) in
  check (negb (size =? 0)) "division by zero" ;;
  let index := slot mod (size * producer_repetitions) / producer_repetitions in
  of_option (producers (active_schedule c) !! Z.to_nat index) "index out of range".

(** [nth_element] puts the element of rank [index] in its place. *)
Definition nth_element (l : list Z) (index : nat) : option Z := merge_sort Z.le l !! index.

Definition calc_dpos_last_irreversible (c : common) (producer_of_next_block : Z) : Z :=
  let blocknums := (fun i : Z * Z => if i.1 =? producer_of_next_block
                     then dpos_proposed_irreversible_blocknum c else i.2)
                   <$> map_to_list (producer_to_last_implied_irb c) in
  default 0 (nth_element blocknums ((length blocknums - 1) / 3)).

(** ** [next] *)

(** The confirmation count of the new block joins the list; the list is
    shifted when it is full. *)
Definition grow_confirm_count (cc : list Z) (required_confs : Z) : list Z :=
  if Z.of_nat (length cc) <? maximum_tracked_dpos_confirmations then cc ++ [u8 required_confs]
  else drop 1 cc ++ [u8 required_confs].

(** The loop over the confirmed blocks, downwards from position [k - 1]: the
    remaining counts, and the number of the block whose count reached 0. *)
Fixpoint confirm_loop (num : Z) (k : nat) (blocks_to_confirm : nat) (cc : list Z)
    : list Z * option Z :=
  match k, blocks_to_confirm with
  | S i, S blocks_to_confirm =>
    let c := u8 (nth i cc 0 - 1) in
    let cc := <[i := c]> cc in
    if c =? 0 then (drop (i + 1) cc, Some (u32 (num - u32 (Z.of_nat (length cc - 1 - i)))))
    else confirm_loop num i blocks_to_confirm cc
  | _, _ => (cc, None)
  end.

(** [new_producer_to_last_produced] and [new_producer_to_last_implied_irb] at
    the promotion of a schedule: known producers keep their entry, new ones
    start at [lib]. *)
Definition carry_over (ps : list (producer_key key)) (self mine lib : Z) (old : gmap Z Z) : gmap Z Z :=
  foldl (fun m pro =>
    <[producer_name pro :=
      if producer_name pro =? self then mine
      else default lib (old !! producer_name pro)]> m) ∅ ps.

Definition next (b : block_header_state) (when num_prev_blocks_to_confirm : Z)
    : result pending_block_header_state :=
  let c := b_common b in
  let timestamp := h_timestamp (sb_header (b_header b)) in
  when ← (if negb (when =? 0) then check (when >? timestamp) "next block must be in the future" ;; Ok when
          else Ok (u32 (timestamp + 1)));
  prokey ← get_scheduled_producer c when;
  let producer := producer_name prokey in
  (match producer_to_last_produced c !! producer with
   | Some last =>
     check (last <? u32 (u32 (block_num c + 1) - num_prev_blocks_to_confirm))
       "producer double-confirming known range"
   | None => Ok tt
   end) ;;
  let num := u32 (block_num c + 1) in
  merkle ← append hash_of_pair (b_id b) (blockroot_merkle c);
  let num_active_producers := Z.of_nat (length (producers (active_schedule c))) in
  let required_confs := u32 (num_active_producers * 2 / 3 + 1) in
  let cc := grow_confirm_count (confirm_count c) required_confs in
  let '(cc, hit) := confirm_loop num (length cc) (Z.to_nat (num_prev_blocks_to_confirm + 1)) cc in
  let proposed := default (dpos_proposed_irreversible_blocknum c) hit in
  let lib := calc_dpos_last_irreversible c producer in
  let pending := pending_schedule b in
  let promote := negb (Nat.eqb (length (producers (schedule pending))) 0)
                 && (lib >=? schedule_lib_num pending) in
  let active := if promote then schedule pending else active_schedule c in
  let last_produced :=
    if promote then
      <[producer := num]> (carry_over (producers active) producer num lib (producer_to_last_produced c))
    else <[producer := num]> (producer_to_last_produced c) in
  let implied :=
    if promote then
      carry_over (producers active) producer (dpos_proposed_irreversible_blocknum c) lib
        (producer_to_last_implied_irb c)
    else <[producer := dpos_proposed_irreversible_blocknum c]> (producer_to_last_implied_irb c) in
  Ok (mk_pbhs
        (mk_common num proposed lib active merkle last_produced implied
           (producer_block_signing_key prokey) cc)
        (activated_protocol_features b) pending promote (b_id b) producer when
        (version (active_schedule c)) num_prev_blocks_to_confirm).

(** ** Finishing a block *)

Definition make_block_header (p : pending_block_header_state) (transaction_mroot action_mroot : digest)
    (new_producers : option producer_schedule) (new_protocol_feature_activations : list digest)
    : signed_block_header :=
  mk_signed
    (mk_header (p_timestamp p) (p_producer p) (p_confirmed p) (p_previous p) transaction_mroot
       action_mroot (active_schedule_version p) new_producers
       (if Nat.eqb (length new_protocol_feature_activations) 0 then []
        else [(0, pack_features new_protocol_feature_activations)]))
    default_signature.

(** The callback that validates newly activated features. *)
Abbreviation validator := (Z -> gset digest -> list digest -> result unit).

Definition _finish_next (p : pending_block_header_state) (sh : signed_block_header) (v : validator)
    : result block_header_state :=
  let h := sb_header sh in
  check (h_timestamp h =? p_timestamp p) "timestamp mismatch" ;;
  check (bool_decide (h_previous h = p_previous p)) "previous mismatch" ;;
  check (h_confirmed h =? p_confirmed p) "confirmed mismatch" ;;
  check (h_producer h =? p_producer p) "wrong producer specified" ;;
  check (h_schedule_version h =? active_schedule_version p)
    "schedule_version in signed block is corrupted" ;;
  (match h_new_producers h with
   | Some ps =>
     check (negb (was_pending_promoted p))
       "cannot set pending producer schedule in the same block in which pending was promoted to active" ;;
     check (version ps =? u32 (version (active_schedule (p_common p)) + 1))
       "wrong producer schedule version specified" ;;
     check (Nat.eqb (length (producers (schedule (prev_pending_schedule p)))) 0)
       "cannot set new pending producers until last pending is confirmed"
   | None => Ok tt
   end) ;;
  exts ← validate_and_extract_header_extensions h;
  features ← (match exts with
              | new_protocol_features :: _ =>
                v (p_timestamp p) (prev_activated_protocol_features p) new_protocol_features ;;
                activation_set (prev_activated_protocol_features p) new_protocol_features true
              | [] => Ok (prev_activated_protocol_features p)
              end);
  let prev := prev_pending_schedule p in
  let pending :=
    match h_new_producers h with
    | Some ps => mk_sinfo (block_num (p_common p)) (schedule_digest ps) ps
    | None =>
      mk_sinfo (schedule_lib_num prev) (schedule_hash prev)
        (if was_pending_promoted p then mk_schedule (version (schedule prev)) [] else schedule prev)
    end in
  Ok (mk_bhs (p_common p) (id_of h) sh pending features exts).

Definition sig_digest (b : block_header_state) : digest :=
  let header_bmroot := hash_of_pair (header_digest (sb_header (b_header b)),
                                     get_root (blockroot_merkle (b_common b))) in
  hash_of_pair (header_bmroot, schedule_hash (pending_schedule b)).

Definition set_signature (b : block_header_state) (s : sig) : block_header_state :=
  mk_bhs (b_common b) (b_id b) (mk_signed (sb_header (b_header b)) s) (pending_schedule b)
    (activated_protocol_features b) (header_exts b).

Definition sign (b : block_header_state) (signer : digest -> result sig) : result block_header_state :=
  let d := sig_digest b in
  s ← signer d;
  k ← recover_key false s d;
  check (bool_decide (block_signing_key (b_common b) = k)) "block is signed with unexpected key" ;;
  Ok (set_signature b s).

Definition signee (b : block_header_state) : result key :=
  recover_key true (producer_signature (b_header b)) (sig_digest b).

Definition verify_signee (b : block_header_state) (k : key) : result unit :=
  check (bool_decide (block_signing_key (b_common b) = k)) "block not signed by expected key".

Definition finish_next (p : pending_block_header_state) (h : signed_block_header) (v : validator)
    (skip_validate_signee : bool) : result block_header_state :=
  b ← _finish_next p h v;
  (if skip_validate_signee then Ok tt else k ← signee b; verify_signee b k) ;;
  Ok b.

(** The overload that signs the block. *)
Definition finish_next_sign (p : pending_block_header_state) (h : signed_block_header) (v : validator)
    (signer : digest -> result sig) : result block_header_state :=
  b ← _finish_next p h v;
  sign b signer.

(** [next(h, validator, skip_validate_signee)] *)
Definition next_header (b : block_header_state) (h : signed_block_header) (v : validator)
    (skip_validate_signee : bool) : result block_header_state :=
  p ← next b (h_timestamp (sb_header h)) (h_confirmed (sb_header h));
  finish_next p h v skip_validate_signee.

Definition get_new_protocol_feature_activations (b : block_header_state) : list digest :=
  match header_exts b with fs :: _ => fs | [] => [] end.

(** ** The genesis header ([controller.cpp], [initialize_blockchain_state]) *)

Definition genesis_header_state (initial_producer : Z) (initial_key : key) (initial_timestamp : Z)
    (chain_id : digest) : block_header_state :=
  let initial_schedule := mk_schedule 0 [mk_producer initial_producer initial_key] in
  let header := mk_header (set_time_point initial_timestamp) 0 1 digest_zero digest_zero chain_id 0 None [] in
  mk_bhs
    (mk_common (block_num_of header) 0 0 initial_schedule incremental_empty ∅ ∅ default_key [])
    (id_of header) (mk_signed header default_signature)
    (mk_sinfo 0 (schedule_digest initial_schedule) initial_schedule) ∅ [].
End HeaderState.
Arguments block_header_state : clear implicits.
