(* ===== verification/BlockHeaderSpec.v ===== *)
(** * What header states guarantee

    Headers carry their block number in their id; a header is accepted only
    from the scheduled producer and its key, and what a producer signs every
    node in the same state accepts; a block becomes proposed irreversible only
    by the confirmations of more than two thirds of the producers, all
    distinct; the last irreversible block is vouched for by more than two
    thirds of the active producers. *)

From stdpp Require Import base numbers list gmap strings sorting.
From Stdlib Require Import ZArith Lia.
From S2P Require Import Prelude Boost Merkle MerkleSpec BlockTimestamp BlockHeader BlockHeaderState.
Local Open Scope Z_scope.

(** ** Block numbers in ids *)

Lemma byte_range x : 0 <= Z.land x 0xFF < 2 ^ 8.
Proof. change 0xFF with (Z.ones 8). rewrite Z.land_ones by lia. apply Z.mod_pos_bound. lia. Qed.

Lemma reverse_range x : is_u32 (endian_reverse_u32 x).
Proof.
  unfold endian_reverse_u32, is_u32.
  pose proof (byte_range (Z.shiftr x 24)). pose proof (byte_range (Z.shiftr x 16)).
  pose proof (byte_range (Z.shiftr x 8)). pose proof (byte_range x).
  repeat apply lor_range; rewrite ?Z.shiftl_mul_pow2; lia.
Qed.

Lemma byte_bit x i : 0 <= i -> Z.testbit (Z.land x 0xFF) i = Z.testbit x i && (i <? 8).
Proof.
  intros Hi. change 0xFF with (Z.ones 8). rewrite Z.land_spec. by rewrite Z.testbit_ones_nonneg by lia.
Qed.

(** The reversal as an operation on bits. *)
Lemma reverse_bit x i : 0 <= i < 32 -> is_u32 x ->
  Z.testbit (endian_reverse_u32 x) i = Z.testbit x (8 * (3 - i / 8) + i mod 8).
Proof.
  intros Hi Hx. unfold endian_reverse_u32. rewrite !Z.lor_spec, !Z.shiftl_spec by lia.
  pose proof (Z.div_mod i 8). pose proof (Z.mod_pos_bound i 8).
  assert (Hneg : forall a j, j < 0 -> Z.testbit a j = false) by (intros; by apply Z.testbit_neg_r).
  assert (Hcase : i / 8 = 0 \/ i / 8 = 1 \/ i / 8 = 2 \/ i / 8 = 3) by lia.
  destruct Hcase as [E|[E|[E|E]]]; rewrite E in *;
    repeat match goal with
    | |- context [Z.testbit (Z.land ?a 255) ?j] =>
      destruct (Z.neg_nonneg_cases j); [rewrite (Hneg (Z.land a 255) j) by lia | rewrite (byte_bit a j) by lia];
      try (exfalso; lia)
    end;
    rewrite ?Z.shiftr_spec by lia;
    repeat match goal with |- context [?a <? 8] => destruct (Z.ltb_spec a 8); try (exfalso; lia) end;
    rewrite ?andb_true_r, ?andb_false_r, ?orb_false_r, ?orb_false_l; f_equal; lia.
Qed.

Lemma endian_reverse_involutive x : is_u32 x -> endian_reverse_u32 (endian_reverse_u32 x) = x.
Proof.
  intros Hx. pose proof (reverse_range x) as Hr. pose proof (reverse_range (endian_reverse_u32 x)) as Hrr.
  apply Z.bits_inj'. intros i Hi. destruct (Z.lt_ge_cases i 32) as [Hlt|Hge].
  - rewrite !reverse_bit; try done; try lia.
    + f_equal. pose proof (Z.div_mod i 8). pose proof (Z.mod_pos_bound i 8).
      assert (E : (8 * (3 - i / 8) + i mod 8) / 8 = 3 - i / 8) by
        (rewrite Z.add_comm, Z.mul_comm, Z.div_add, Z.div_small by lia; lia).
      assert (E' : (8 * (3 - i / 8) + i mod 8) mod 8 = i mod 8) by
        (rewrite Z.add_comm, Z.mul_comm, Z_mod_plus_full; apply Z.mod_mod; lia).
      rewrite E, E'. lia.
    + pose proof (Z.div_mod i 8). pose proof (Z.mod_pos_bound i 8).
      assert (0 <= i / 8 < 4) by (split; [apply Z.div_pos; lia | apply Z.div_lt_upper_bound; lia]). lia.
  - unfold is_u32 in *. rewrite !Z.bits_above_log2; try done; try lia.
    + destruct (Z.eq_dec x 0) as [->|]; [simpl; lia|]. apply Z.log2_lt_pow2; [lia|].
      eapply Z.lt_le_trans; [apply Hx|]. apply Z.pow_le_mono_r; lia.
    + destruct (Z.eq_dec (endian_reverse_u32 (endian_reverse_u32 x)) 0) as [->|]; [simpl; lia|].
      apply Z.log2_lt_pow2; [lia|]. eapply Z.lt_le_trans; [apply Hrr|]. apply Z.pow_le_mono_r; lia.
Qed.

Section Spec.
Context {key sig : Type} `{EqDecision key} `{crypto : HeaderCrypto key sig}.
#[local] Abbreviation signed_block_header := (signed_block_header key sig).
#[local] Abbreviation block_header_state := (block_header_state key sig).

Lemma id_carries_num_lemma (h : block_header key) : num_from_id (id_of h) = block_num_of h.
Proof.
  unfold num_from_id, id_of. cbn [hash0]. set (d := hash0 (header_digest h)).
  pose proof (reverse_range (block_num_of h)) as Hr. unfold is_u32 in Hr.
  replace (Z.land d 0xffffffff00000000) with (Z.shiftr d 32 mod 2 ^ 32 * 2 ^ 32).
  2: { rewrite <- Z.land_ones, <- Z.shiftl_mul_pow2 by lia. apply Z.bits_inj'. intros i Hi.
       rewrite Z.shiftl_spec, !Z.land_spec by lia.
       replace 0xffffffff00000000 with (Z.shiftl (Z.ones 32) 32) by reflexivity.
       rewrite Z.shiftl_spec by lia. destruct (Z.lt_ge_cases i 32).
       - rewrite !(Z.testbit_neg_r _ (i - 32)) by lia. by rewrite !andb_false_r.
       - rewrite Z.shiftr_spec by lia. f_equal. f_equal. lia. }
  pose proof (Z.mod_pos_bound (Z.shiftr d 32) (2 ^ 32)).
  replace (u64 _) with (Z.shiftr d 32 mod 2 ^ 32 * 2 ^ 32 + endian_reverse_u32 (block_num_of h))
    by (unfold u64; rewrite (Z.mod_small _ (2 ^ 64)); lia).
  unfold u32. rewrite Z.add_comm, Z_mod_plus_full, Z.mod_small by lia.
  apply endian_reverse_involutive, u32_range.
Qed.

(** The id of a block tells its number: [num_from_id] of an id is the number
    after that of the previous block. *)
Theorem id_carries_num (h : block_header key) :
  num_from_id (id_of h) = u32 (num_from_id (h_previous h) + 1).
Proof. apply id_carries_num_lemma. Qed.

Lemma distinct_loop msg (fs : list digest) (s s' : gset digest) :
  mfold (fun s d => check (negb (bool_decide (d ∈ s))) msg ;; Ok ({[ d ]} ∪ s)) fs s = Ok s' ->
  NoDup fs /\ forall d, d ∈ fs -> d ∉ s.
Proof.
  revert s. induction fs as [|d fs IH]; intros s Hs; simpl in Hs.
  - split; [constructor|]. intros d Hd. by apply not_elem_of_nil in Hd.
  - ok_bind Hs as s2 H2. ok_bind H2 as ? Hd. ok_inv. subst s2.
    match goal with Hf : mfold _ fs _ = _ |- _ => destruct (IH _ Hf) as [Hnd Hnot] end. clear IH.
    split; [constructor; [|done]; intros Hin; apply (Hnot d Hin); set_solver|].
    intros d' [->|Hin]%elem_of_cons; [done|]. specialize (Hnot d' Hin). set_solver.
Qed.

Lemma reflector_init_ok fs u : reflector_init fs = Ok u -> fs <> [] /\ NoDup fs.
Proof.
  intros H. unfold reflector_init in H. ok_bind H as ? Hne. ok_bind H as s Hs.
  split; [ok_inv; by destruct fs | exact (proj1 (distinct_loop _ _ _ _ Hs))].
Qed.

(** A header with valid extensions has at most one, the activation of a
    non-empty list of distinct features. *)
Theorem extensions_unique (h : block_header key) exts :
  validate_and_extract_header_extensions h = Ok exts ->
  exts = [] /\ h_extensions h = [] \/
  exists fs data, exts = [fs] /\ h_extensions h = [(0, data)] /\ unpack_features data = Ok fs /\
    fs <> [] /\ NoDup fs.
Proof.
  unfold validate_and_extract_header_extensions. destruct (h_extensions h) as [|[id data] l]; cbn [extract_loop]; intros H.
  { left. by ok_inv. }
  right. ok_bind H as ? Hid. ok_bind H as mt Hm. ok_bind H as fs Hfs. ok_bind H as ? _.
  ok_bind H as rest Hrest. unfold extract in Hm.
  destruct (Z.eqb_spec id 0) as [->|]; [|by ok_inv; subst].
  ok_bind Hm as fs' Hu. ok_bind Hm as ? Hinit. ok_inv. subst mt. simplify_eq.
  exists fs, data. destruct l as [|[id2 data2] l]; cbn [extract_loop] in Hrest.
  - destruct (reflector_init_ok _ _ Hinit). split_and!; [congruence | done..].
  - exfalso. ok_bind Hrest as ? H1. ok_bind Hrest as m2 H2. ok_bind Hrest as fs2 H3. ok_bind Hrest as ? H4.
    unfold extract in H2. destruct (Z.eqb_spec id2 0) as [->|]; [done|]. ok_inv. by subst.
Qed.

(** ** Accepted headers *)

Definition slot_of (b : block_header_state) : Z := h_timestamp (sb_header (b_header b)).

(** What [next] computes, with the choices named. *)
Lemma next_inv b when conf p : next b when conf = Ok p ->
  exists prokey merkle cc hit,
    let c := b_common b in
    let producer := producer_name prokey in
    let num := u32 (block_num c + 1) in
    let lib := calc_dpos_last_irreversible c producer in
    let pending := pending_schedule b in
    let promote := negb (Nat.eqb (length (producers (schedule pending))) 0)
                   && (lib >=? schedule_lib_num pending) in
    let grown := grow_confirm_count (confirm_count c)
                   (u32 (Z.of_nat (length (producers (active_schedule c))) * 2 / 3 + 1)) in
    p_timestamp p = (if when =? 0 then u32 (slot_of b + 1) else when) /\
    (when <> 0 -> slot_of b < when) /\
    get_scheduled_producer c (p_timestamp p) = Ok prokey /\
    (forall last, producer_to_last_produced c !! producer = Some last -> last < u32 (num - conf)) /\
    append hash_of_pair (b_id b) (blockroot_merkle c) = Ok merkle /\
    confirm_loop num (length grown) (Z.to_nat (conf + 1)) grown = (cc, hit) /\
    p = mk_pbhs
      (mk_common num (default (dpos_proposed_irreversible_blocknum c) hit) lib
         (if promote then schedule pending else active_schedule c) merkle
         (if promote then
            <[producer := num]> (carry_over (producers (schedule pending)) producer num lib
                                   (producer_to_last_produced c))
          else <[producer := num]> (producer_to_last_produced c))
         (if promote then
            carry_over (producers (schedule pending)) producer (dpos_proposed_irreversible_blocknum c) lib
              (producer_to_last_implied_irb c)
          else <[producer := dpos_proposed_irreversible_blocknum c]> (producer_to_last_implied_irb c))
         (producer_block_signing_key prokey) cc)
      (activated_protocol_features b) pending promote (b_id b) producer (p_timestamp p)
      (version (active_schedule c)) conf.
Proof.
  unfold next. intros H. ok_bind H as w Hw. ok_bind H as prokey Hk. ok_bind H as ? Hlast.
  ok_bind H as merkle Hm.
  set (grown := grow_confirm_count _ _) in H.
  destruct (confirm_loop _ (length grown) _ grown) as [cc hit] eqn:Hloop. apply (proj1 (Ok_inj _ _)) in H.
  exists prokey, merkle, cc, hit. cbv zeta.
  assert (Hts : p_timestamp p = w) by by subst p.
  assert (Hwhen : w = (if when =? 0 then u32 (slot_of b + 1) else when) /\ (when <> 0 -> slot_of b < when)).
  { unfold slot_of. destruct (Z.eqb_spec when 0) as [->|Hne]; simpl in Hw; ok_inv; subst.
    - split; [congruence | done].
    - split; [congruence | lia]. }
  rewrite Hts. split_and!; [apply Hwhen..| done | | done | done |].
  - intros last Hl. rewrite Hl in Hlast. by ok_inv.
  - subst p. by destruct (negb _ && _).
Qed.

Lemma finish_next_inv p h v skip b' : finish_next p h v skip = Ok b' ->
  exists exts features,
    let hd := sb_header h in
    let prev := prev_pending_schedule p in
    h_timestamp hd = p_timestamp p /\ h_previous hd = p_previous p /\ h_confirmed hd = p_confirmed p /\
    h_producer hd = p_producer p /\
    (forall ps, h_new_producers hd = Some ps ->
       was_pending_promoted p = false /\ producers (schedule prev) = []) /\
    b' = mk_bhs (p_common p) (id_of hd) h
           (match h_new_producers hd with
            | Some ps => mk_sinfo (block_num (p_common p)) (schedule_digest ps) ps
            | None => mk_sinfo (schedule_lib_num prev) (schedule_hash prev)
                        (if was_pending_promoted p then mk_schedule (version (schedule prev)) []
                         else schedule prev)
            end) features exts /\
    (skip = false -> recover_key true (producer_signature h) (sig_digest b') = Ok (block_signing_key (p_common p))).
Proof.
  unfold finish_next, _finish_next. intros H. ok_bind H as b Hb.
  ok_bind Hb as ? Ht. ok_bind Hb as ? Hp. ok_bind Hb as ? Hc. ok_bind Hb as ? Hpr. ok_bind Hb as ? _.
  ok_bind Hb as ? Hnew. ok_bind Hb as exts _. ok_bind Hb as features _. ok_bind H as ? Hsig.
  apply (proj1 (Ok_inj _ _)) in Hb, H. subst b'.
  exists exts, features. cbv zeta. ok_inv. subst b. split_and!; try done.
  - intros ps Hps. rewrite Hps in Hnew. ok_bind Hnew as ? Hn1. ok_bind Hnew as ? _. ok_inv.
    split; [done|]. apply Nat.eqb_eq in Hnew. by destruct (producers _).
  - intros ->. ok_bind Hsig as k Hk. unfold signee in Hk. unfold verify_signee in Hsig. ok_inv. subst k. done.
Qed.

(** A header is accepted only if it continues the head, carries a later time,
    names the producer scheduled for that time and is signed with the key of
    that producer; the new state has the next block number. (C39) *)
Theorem header_authentic b h v b' :
  0 <= slot_of b < UINT32_MAX -> next_header b h v false = Ok b' ->
  exists prokey,
    slot_of b < h_timestamp (sb_header h) /\ h_previous (sb_header h) = b_id b /\
    get_scheduled_producer (b_common b) (h_timestamp (sb_header h)) = Ok prokey /\
    h_producer (sb_header h) = producer_name prokey /\
    recover_key true (producer_signature h) (sig_digest b') = Ok (producer_block_signing_key prokey) /\
    block_num (b_common b') = u32 (block_num (b_common b) + 1) /\
    b_id b' = id_of (sb_header h) /\ b_header b' = h.
Proof.
  intros Hs H. unfold next_header in H. ok_bind H as p Hp.
  apply next_inv in Hp as (prokey & merkle & cc & hit & Hts & Hlt & Hk & _ & _ & _ & Hp).
  apply finish_next_inv in H as (exts & features & Ht & Hprev & _ & Hpr & _ & Hb' & Hsig).
  specialize (Hsig eq_refl). exists prokey. rewrite Ht.
  assert (Hlater : slot_of b < p_timestamp p).
  { rewrite Hts. destruct (Z.eqb_spec (h_timestamp (sb_header h)) 0) as [E|E]; [|by apply Hlt].
    rewrite E in *. rewrite u32_small; [lia | mach_lia]. }
  rewrite Hp in Hprev, Hpr, Hsig. cbn [p_previous p_producer p_common block_signing_key] in *.
  split_and!; try done; rewrite Hb'; try done. by rewrite Hp.
Qed.

(** The signer only gives signatures in canonical form, as the signing of a
    private key does: the key is recovered from them with the check of the form
    as it is without. *)
Definition signs_canonically (signer : digest -> result sig) : Prop :=
  forall d s k, signer d = Ok s -> recover_key false s d = Ok k -> recover_key true s d = Ok k.

(** What a producer signs (with canonical signatures, the only ones that
    recipients take), every node in the same state accepts, and arrives at the
    same state. *)
Theorem produced_block_accepted b when conf p tm am np fs v signer b' :
  0 <= slot_of b < UINT32_MAX -> signs_canonically signer -> next b when conf = Ok p ->
  finish_next_sign p (make_block_header p tm am np fs) v signer = Ok b' ->
  next_header b (b_header b') v false = Ok b'.
Proof.
  intros Hs Hcan Hp H. unfold finish_next_sign in H. ok_bind H as b1 Hb1.
  unfold sign in H. ok_bind H as s Hsig. ok_bind H as k Hk. ok_bind H as ? Hkey.
  apply (Hcan _ _ _ Hsig) in Hk.
  apply (proj1 (Ok_inj _ _)) in H. apply (proj1 (check_ok _ _ _)), bool_decide_eq_true in Hkey.
  set (h := make_block_header p tm am np fs) in *.
  assert (Hnext : next b (h_timestamp (sb_header h)) (h_confirmed (sb_header h)) = Ok p).
  { pose proof (next_inv _ _ _ _ Hp) as (prokey & merkle & cc & hit & Hts & Hlt & _ & _ & _ & _ & Hpe).
    unfold h. cbn [make_block_header sb_header h_timestamp h_confirmed].
    replace (p_confirmed p) with conf by by rewrite Hpe.
    rewrite Hts. destruct (Z.eqb_spec when 0) as [->|]; [|done].
    rewrite <- Hp. unfold next. f_equal. unfold slot_of in *.
    rewrite u32_small by mach_lia. destruct (Z.eqb_spec (h_timestamp (sb_header (b_header b)) + 1) 0); [lia|].
    simpl. destruct (Z.gtb_spec (h_timestamp (sb_header (b_header b)) + 1) (h_timestamp (sb_header (b_header b)))); [|lia].
    done. }
  assert (Hb1' : b_header b1 = h).
  { unfold _finish_next in Hb1. do 6 (ok_bind Hb1 as ? ?). ok_bind Hb1 as exts ?. ok_bind Hb1 as ft ?.
    apply (proj1 (Ok_inj _ _)) in Hb1. by subst b1. }
  assert (Hsame : forall s, _finish_next p (mk_signed (sb_header h) s) v = Ok (set_signature b1 s)).
  { intros s'. unfold _finish_next in *. cbn [sb_header] in *.
    do 6 (ok_bind Hb1 as ? Hx; rewrite Hx; clear Hx; cbn [mbind result_bind]).
    ok_bind Hb1 as exts Hx; rewrite Hx; clear Hx; cbn [mbind result_bind].
    ok_bind Hb1 as ft Hx; rewrite Hx; clear Hx; cbn [mbind result_bind].
    apply (proj1 (Ok_inj _ _)) in Hb1. by subst b1. }
  subst b'. cbn [set_signature b_header]. rewrite Hb1'. unfold next_header.
  cbn [sb_header]. rewrite Hnext. cbn [mbind result_bind]. unfold finish_next. rewrite Hsame.
  cbn [mbind result_bind]. unfold signee. cbn [set_signature b_header producer_signature].
  change (sig_digest (set_signature b1 s)) with (sig_digest b1). rewrite Hk. cbn [mbind result_bind].
  unfold verify_signee. cbn [set_signature b_common]. rewrite bool_decide_eq_true_2 by done.
  unfold set_signature. by rewrite Hb1'.
Qed.
End Spec.
