(* ===== verification/DposSpec.v ===== *)
(** * Confirmations and irreversibility

    A run of the header states from genesis together with the confirmations
    its blocks made.  The counts that [next] keeps are the confirmations still
    missing; they are never given twice by the same producer; the last
    irreversible block number is backed by more than two thirds of the
    producers and goes back only where the schedule changes. *)

From stdpp Require Import base numbers list gmap strings sorting.
From Stdlib Require Import ZArith Lia.
From S2P Require Import Prelude Boost Merkle MerkleSpec BlockTimestamp BlockHeader BlockHeaderState.
From S2P Require Import BlockHeaderSpec.
Local Open Scope Z_scope.

Lemma option_case {A} (o : option A) : o = None \/ exists x, o = Some x.
Proof. destruct o; eauto. Qed.
Lemma bool_case (b : bool) : b = true \/ b = false.
Proof. destruct b; auto. Qed.

(** ** The element of a given rank *)

#[global] Instance Z_le_total : Total Z.le.
Proof. intros x y. lia. Qed.

Lemma sort_sorted l : StronglySorted Z.le (merge_sort Z.le l).
Proof. apply Sorted_StronglySorted; [intros x y z; lia | apply Sorted_merge_sort; apply _]. Qed.

Lemma nth_element_perm l l' i : l ≡ₚ l' -> nth_element l i = nth_element l' i.
Proof.
  intros Hp. unfold nth_element. f_equal.
  apply (StronglySorted_unique Z.le); [apply sort_sorted.. |]. by rewrite !merge_sort_Permutation.
Qed.

Lemma nth_element_some l i : (i < length l)%nat -> exists x, nth_element l i = Some x.
Proof.
  intros Hi. apply lookup_lt_is_Some_2. by rewrite (Permutation_length (merge_sort_Permutation Z.le l)).
Qed.

(** How many elements satisfy a test. *)
Fixpoint count {A} (p : A -> bool) (l : list A) : nat :=
  match l with [] => O | x :: l => (if p x then 1 else 0) + count p l end.

Lemma count_app {A} (p : A -> bool) l1 l2 : count p (l1 ++ l2) = (count p l1 + count p l2)%nat.
Proof. induction l1 as [|x l1 IH]; simpl; [done | rewrite IH; lia]. Qed.

Lemma count_perm {A} (p : A -> bool) l l' : l ≡ₚ l' -> count p l = count p l'.
Proof. induction 1; simpl; lia. Qed.

Lemma count_all {A} (p : A -> bool) l : Forall (fun x => p x = true) l -> count p l = length l.
Proof. induction 1 as [|x l Hx _ IH]; simpl; [done | rewrite Hx, IH; lia]. Qed.

Lemma count_pair {A B} (p : A -> bool) (q : B -> bool) (R : A -> B -> Prop) l l' :
  (forall x y, R x y -> p x = true -> q y = true) -> Forall2 R l l' -> (count p l <= count q l')%nat.
Proof.
  intros HR. induction 1 as [|x y l l' Hxy _ IH]; simpl; [lia|].
  specialize (HR x y Hxy). destruct (p x); [rewrite HR by done; lia | destruct (q y); lia].
Qed.

Definition below (x y : Z) : bool := y <? x.
Definition from_up (x y : Z) : bool := x <=? y.
Definition up_to (x y : Z) : bool := y <=? x.

Lemma count_split x l : (count (below x) l + count (from_up x) l = length l)%nat.
Proof.
  induction l as [|y l IH]; simpl; [done|]. unfold below, from_up in *.
  destruct (Z.ltb_spec y x), (Z.leb_spec x y); lia.
Qed.

Lemma sorted_from l i x : StronglySorted Z.le l -> l !! i = Some x ->
  Forall (fun y => y <= x) (take (S i) l) /\ Forall (fun y => x <= y) (drop i l).
Proof.
  intros Hs Hx. rewrite Forall_forall, Forall_forall.
  assert (Hij : forall j k a b, l !! j = Some a -> l !! k = Some b -> (j < k)%nat -> a <= b).
  { clear i x Hx. induction Hs as [|y l Hs IH Hf]; intros j k a b Ha Hb Hjk; [done|].
    destruct k as [|k]; [lia|]. simpl in Hb. destruct j as [|j]; simpl in Ha.
    - simplify_eq. rewrite Forall_forall in Hf. apply Hf. by eapply list_elem_of_lookup_2.
    - eapply (IH j k); [done..|lia]. }
  split; intros y [j Hj]%list_elem_of_lookup_1.
  - apply lookup_take_Some in Hj as [Hj ?]. destruct (decide (j = i)) as [->|]; [simplify_eq; lia|].
    eapply (Hij j i); [done..|lia].
  - rewrite lookup_drop in Hj. destruct (decide (j = 0%nat)) as [->|].
    + rewrite Nat.add_0_r in Hj. simplify_eq. lia.
    + eapply (Hij i (i + j)%nat); [done..|lia].
Qed.

(** All but [i] elements are at least the element of rank [i], and [i + 1]
    are at most that element. *)
Lemma rank_above l i x : nth_element l i = Some x -> (length l - i <= count (from_up x) l)%nat.
Proof.
  intros Hx. rewrite <- (count_perm _ _ _ (merge_sort_Permutation Z.le l)).
  rewrite <- (Permutation_length (merge_sort_Permutation Z.le l)).
  destruct (sorted_from _ _ _ (sort_sorted l) Hx) as [_ Hf]. unfold nth_element in Hx.
  rewrite <- (take_drop i (merge_sort Z.le l)) at 2. rewrite count_app, (count_all _ (drop i _)).
  - rewrite length_drop. lia.
  - eapply Forall_impl; [exact Hf|]. intros y Hy. by apply Z.leb_le.
Qed.

Lemma rank_below l i x : nth_element l i = Some x -> (i < count (up_to x) l)%nat.
Proof.
  intros Hx. rewrite <- (count_perm _ _ _ (merge_sort_Permutation Z.le l)).
  destruct (sorted_from _ _ _ (sort_sorted l) Hx) as [Hf _]. unfold nth_element in Hx.
  rewrite <- (take_drop (S i) (merge_sort Z.le l)). rewrite count_app, (count_all _ (take _ _)).
  - rewrite length_take. apply lookup_lt_Some in Hx. lia.
  - eapply Forall_impl; [exact Hf|]. intros y Hy. by apply Z.leb_le.
Qed.

(** The element of a rank grows with the elements. *)
Lemma rank_mono l l' i x x' : Forall2 Z.le l l' ->
  nth_element l i = Some x -> nth_element l' i = Some x' -> x <= x'.
Proof.
  intros Hl Hx Hx'. destruct (Z.le_gt_cases x x') as [|Hlt]; [done|exfalso].
  pose proof (rank_above l i x Hx) as Ha. pose proof (rank_below l' i x' Hx') as Hb.
  pose proof (count_split x l).
  enough (count (up_to x') l' <= count (below x) l)%nat by lia.
  eapply (count_pair _ _ (fun a b => b <= a)); [|by apply Forall2_flip in Hl].
  intros a b Hab Hle. apply Z.leb_le in Hle. apply Z.ltb_lt. lia.
Qed.

(** ** The confirmation loop on the reversed list *)

(** Newest block first: each of the first [blocks] counts is decremented, and
    the list is cut where a count reaches 0. *)
Fixpoint conf_rev (num : Z) (blocks : nat) (l : list Z) : list Z * option Z :=
  match blocks, l with
  | S blocks, c :: l =>
    if c =? 1 then ([], Some num)
    else let '(r, hit) := conf_rev (num - 1) blocks l in (c - 1 :: r, hit)
  | _, _ => (l, None)
  end.

Lemma confirm_loop_rev num blocks cc1 cc2 :
  Forall (fun c => 1 <= c < 2 ^ 8) cc1 -> num < 2 ^ 32 ->
  Z.of_nat (length cc1 + length cc2) <= num ->
  confirm_loop num (length cc1) blocks (cc1 ++ cc2) =
  let '(r, hit) := conf_rev (num - Z.of_nat (length cc2)) blocks (reverse cc1) in (reverse r ++ cc2, hit).
Proof.
  intros Hf Hn. revert blocks cc2. induction cc1 as [|c cc1 IH] using rev_ind; intros blocks cc2 Hlen.
  { destruct blocks; done. }
  apply Forall_app in Hf as [Hf Hc]. apply (proj1 (Forall_singleton _ _)) in Hc. cbn beta in Hc.
  rewrite length_app, reverse_app, reverse_singleton in *. cbn [length app] in *.
  rewrite Nat.add_1_r in *. destruct blocks as [|blocks]; cbn [confirm_loop conf_rev].
  { by rewrite reverse_cons, reverse_involutive. }
  rewrite <- app_assoc, app_nth2, Nat.sub_diag by lia. cbn [nth app].
  replace (u8 (c - 1)) with (c - 1) by (unfold u8; rewrite Z.mod_small; lia).
  rewrite insert_app_r_alt, Nat.sub_diag by lia. cbn [insert list_insert].
  rewrite length_app. cbn [length].
  replace (length cc1 + S (length cc2) - 1 - length cc1)%nat with (length cc2) by lia.
  destruct (Z.eqb_spec c 1) as [->|Hc1].
  - cbn [Z.sub Z.eqb Z.add Z.opp Pos.eqb Z.pos_sub].
    change (1 - 1 =? 0) with true. cbn iota. rewrite reverse_nil. cbn [app].
    rewrite (u32_small (Z.of_nat _)), u32_small by mach_lia. f_equal.
    rewrite drop_app_ge, Nat.add_comm by lia. by replace (1 + length cc1 - length cc1)%nat with 1%nat by lia.
  - destruct (Z.eqb_spec (c - 1) 0); [lia|].
    rewrite IH by (try done; cbn [length]; lia). cbn [length].
    replace (num - Z.of_nat (length cc2) - 1) with (num - Z.of_nat (S (length cc2))) by lia.
    destruct (conf_rev _ blocks (reverse cc1)) as [r hit]. rewrite reverse_cons, <- app_assoc. done.
Qed.

Lemma conf_rev_inv num blocks l r hit : conf_rev num blocks l = (r, hit) ->
  (forall k c, r !! k = Some c -> exists c0, l !! k = Some c0 /\
     c = (if (k <? blocks)%nat then c0 - 1 else c0) /\ ((k < blocks)%nat -> c0 <> 1)) /\
  (hit = None -> length r = length l) /\
  (forall n, hit = Some n -> n = num - Z.of_nat (length r) /\ l !! length r = Some 1 /\ (length r < blocks)%nat).
Proof.
  revert num l r hit. induction blocks as [|blocks IH]; intros num l r hit Heq; simpl in Heq.
  { simplify_eq. split_and!; [|done..]. intros k c Hk. exists c. split_and!; [done..|lia]. }
  destruct l as [|c0 l].
  { simplify_eq. split_and!; done. }
  destruct (Z.eqb_spec c0 1) as [->|Hc0].
  { simplify_eq. split_and!; [done..|]. intros n [= <-]. cbn [length]. split_and!; [lia|done|lia]. }
  destruct (conf_rev (num - 1) blocks l) as [r' hit'] eqn:E. simplify_eq.
  destruct (IH _ _ _ _ E) as (H1 & H2 & H3). split_and!.
  - intros [|k] c Hk; simpl in Hk.
    + simplify_eq. exists c0. split_and!; done.
    + destruct (H1 k c Hk) as (c1 & Hc1 & -> & Hne). exists c1. split; [done|].
      change (S k <? S blocks)%nat with (k <? blocks)%nat. split; [done|]. intros. apply Hne. lia.
  - intros ->. cbn [length]. f_equal. by apply H2.
  - intros n Hn. destruct (H3 n Hn) as (-> & Hl & Hb). cbn [length]. split_and!; [lia|done|lia].
Qed.

(** ** Runs and their confirmations *)

(** What one block confirms: the blocks from [cf_num - cf_confirmed] to its
    own number; [cf_required] confirmations make it proposed irreversible. *)
Record confirmation := mk_conf {
  cf_num : Z; cf_producer : Z; cf_confirmed : Z; cf_required : Z }.

Definition covers (n : Z) (e : confirmation) : bool :=
  (cf_num e - cf_confirmed e <=? n) && (n <=? cf_num e).

(** The producers of the blocks that confirm block [n]. *)
Definition confirmers (n : Z) (H : list confirmation) : list Z :=
  cf_producer <$> List.filter (covers n) H.

Lemma confirmers_cons n e H :
  confirmers n (e :: H) = (if covers n e then [cf_producer e] else []) ++ confirmers n H.
Proof. unfold confirmers. simpl. by destruct (covers n e). Qed.

Section Spec.
Context {key sig : Type} `{EqDecision key} `{crypto : HeaderCrypto key sig}.
#[local] Abbreviation block_header_state := (block_header_state key sig).

Definition num_producers (b : block_header_state) : Z :=
  Z.of_nat (length (producers (active_schedule (b_common b)))).

(** A run from genesis with the confirmations of its blocks, newest first.  A
    block does not claim to confirm blocks before the first one; schedules
    have at most [max_producers] entries; numbers stay within 32 bits. *)
Inductive dpos_run : block_header_state -> list confirmation -> Prop :=
| run_genesis ip ik ts cid : dpos_run (genesis_header_state ip ik ts cid) []
| run_next b H h v skip b' :
    dpos_run b H -> next_header b h v skip = Ok b' ->
    0 <= h_confirmed (sb_header h) <= block_num (b_common b) ->
    block_num (b_common b) < UINT32_MAX ->
    (forall ps, h_new_producers (sb_header h) = Some ps -> Z.of_nat (length (producers ps)) <= max_producers) ->
    dpos_run b' (mk_conf (block_num (b_common b) + 1) (h_producer (sb_header h))
                   (h_confirmed (sb_header h)) (num_producers b * 2 / 3 + 1) :: H).

Definition pending_producers (b : block_header_state) : list (producer_key key) :=
  producers (schedule (pending_schedule b)).

(** The history is numbered without gaps, and the schedules are bounded. *)
Definition shape_inv (b : block_header_state) (H : list confirmation) : Prop :=
  block_num (b_common b) = Z.of_nat (length H) + 1 /\
  block_num (b_common b) <= UINT32_MAX /\
  (forall k e, H !! k = Some e -> cf_num e = block_num (b_common b) - Z.of_nat k /\
     0 <= cf_confirmed e < cf_num e /\ 1 <= cf_required e < 2 ^ 7) /\
  num_producers b <= max_producers /\
  Z.of_nat (length (pending_producers b)) <= max_producers.

(** Each tracked count is the number of confirmations its block still misses. *)
Definition count_inv (b : block_header_state) (H : list confirmation) : Prop :=
  (length (confirm_count (b_common b)) <= length H)%nat /\
  forall k c, reverse (confirm_count (b_common b)) !! k = Some c ->
    exists e, H !! k = Some e /\ 1 <= c /\
      c = cf_required e - Z.of_nat (length (confirmers (cf_num e) H)).

(** No producer confirms a block twice; [producer_to_last_produced] is what
    keeps it so, also across changes of the schedule. *)
Definition once_inv (b : block_header_state) (H : list confirmation) : Prop :=
  (forall i j ei ej, (i < j)%nat -> H !! i = Some ei -> H !! j = Some ej ->
     cf_producer ei = cf_producer ej -> cf_num ej < cf_num ei - cf_confirmed ei) /\
  (forall e last, e ∈ H -> producer_to_last_produced (b_common b) !! cf_producer e = Some last ->
     cf_num e <= last) /\
  (forall e, e ∈ H -> producer_to_last_produced (b_common b) !! cf_producer e = None ->
     pending_producers b <> [] -> cf_num e <= schedule_lib_num (pending_schedule b)) /\
  (H <> [] -> forall p, p ∈ producers (active_schedule (b_common b)) ->
     is_Some (producer_to_last_produced (b_common b) !! producer_name p)).

(** The proposed irreversible block lies below the tracked ones and has all
    the confirmations it needs. *)
Definition proposed_inv (b : block_header_state) (H : list confirmation) : Prop :=
  0 <= dpos_proposed_irreversible_blocknum (b_common b) <=
    block_num (b_common b) - Z.of_nat (length (confirm_count (b_common b))) /\
  (dpos_proposed_irreversible_blocknum (b_common b) <> 0 ->
   exists e, e ∈ H /\ cf_num e = dpos_proposed_irreversible_blocknum (b_common b) /\
     cf_required e <= Z.of_nat (length (confirmers (cf_num e) H))).

(** The implied irreversible numbers do not exceed the proposed one and are
    known for all active producers. *)
Definition implied_inv (b : block_header_state) (H : list confirmation) : Prop :=
  (forall p n, producer_to_last_implied_irb (b_common b) !! p = Some n ->
     0 <= n <= dpos_proposed_irreversible_blocknum (b_common b)) /\
  (H <> [] -> forall p, p ∈ producers (active_schedule (b_common b)) ->
     is_Some (producer_to_last_implied_irb (b_common b) !! producer_name p)).

(** At genesis the initial schedule is pending, to be promoted by the first
    block. *)
Definition start_inv (b : block_header_state) (H : list confirmation) : Prop :=
  H = [] -> pending_producers b <> [] /\ schedule_lib_num (pending_schedule b) = 0 /\
    producer_to_last_implied_irb (b_common b) = ∅.

Definition dpos_inv (b : block_header_state) (H : list confirmation) : Prop :=
  start_inv b H /\ shape_inv b H /\ count_inv b H /\ once_inv b H /\ proposed_inv b H /\ implied_inv b H.

(** Distinct confirmers, from disjoint ranges. *)
Lemma confirmers_nodup b H n : once_inv b H -> NoDup (confirmers n H).
Proof.
  intros (Hd & _). revert Hd. generalize H as l. clear.
  induction l as [|e l IH]; intros Hd; [constructor|].
  rewrite confirmers_cons. destruct (covers n e) eqn:Hc; simpl.
  - constructor.
    + unfold confirmers. intros (e' & Hp & Hin)%list_elem_of_fmap.
      rewrite list_elem_of_In, filter_In, <- list_elem_of_In in Hin. destruct Hin as [Hin Hc'].
      apply list_elem_of_lookup_1 in Hin as [j Hj].
      specialize (Hd 0%nat (S j) e e' ltac:(lia) eq_refl Hj Hp).
      unfold covers in *. ok_inv. lia.
    + apply IH. intros i j ei ej Hij Hi Hj. apply (Hd (S i) (S j)); [lia|done..].
  - apply IH. intros i j ei ej Hij Hi Hj. apply (Hd (S i) (S j)); [lia|done..].
Qed.

Lemma dpos_inv_genesis ip ik ts cid : dpos_inv (genesis_header_state ip ik ts cid) [].
Proof.
  unfold dpos_inv, start_inv, shape_inv, count_inv, once_inv, proposed_inv, implied_inv, num_producers,
    pending_producers, max_producers, UINT32_MAX, genesis_header_state.
  cbn -[set_time_point id_of]. unfold block_num_of. cbn -[set_time_point id_of].
  split_and!; try done; try lia; intros; try set_solver; simplify_map_eq.
Qed.

(** ** One step *)

Definition grown (b : block_header_state) : list Z :=
  grow_confirm_count (confirm_count (b_common b)) (u32 (num_producers b * 2 / 3 + 1)).

(** The fields of the next state that matter here. *)
Record step_facts (b b' : block_header_state) (producer confirmed : Z) (hit : option Z) (promote : bool) : Prop := {
  sf_num : block_num (b_common b') = u32 (block_num (b_common b) + 1);
  sf_scheduled : exists p, p ∈ producers (active_schedule (b_common b)) /\ producer_name p = producer;
  sf_last : forall last, producer_to_last_produced (b_common b) !! producer = Some last ->
    last < u32 (block_num (b_common b') - confirmed);
  sf_loop : confirm_loop (block_num (b_common b')) (length (grown b)) (Z.to_nat (confirmed + 1)) (grown b)
    = (confirm_count (b_common b'), hit);
  sf_proposed : dpos_proposed_irreversible_blocknum (b_common b') =
    default (dpos_proposed_irreversible_blocknum (b_common b)) hit;
  sf_lib : dpos_irreversible_blocknum (b_common b') = calc_dpos_last_irreversible (b_common b) producer;
  sf_promote : promote = true -> pending_producers b <> [] /\
    schedule_lib_num (pending_schedule b) <= dpos_irreversible_blocknum (b_common b');
  sf_stay : promote = false -> pending_producers b = [] \/
    dpos_irreversible_blocknum (b_common b') < schedule_lib_num (pending_schedule b);
  sf_active : producers (active_schedule (b_common b')) =
    if promote then pending_producers b else producers (active_schedule (b_common b));
  sf_produced : producer_to_last_produced (b_common b') =
    <[producer := block_num (b_common b')]>
      (if promote then carry_over (pending_producers b) producer (block_num (b_common b'))
                         (dpos_irreversible_blocknum (b_common b')) (producer_to_last_produced (b_common b))
       else producer_to_last_produced (b_common b));
  sf_implied : producer_to_last_implied_irb (b_common b') =
    if promote then carry_over (pending_producers b) producer (dpos_proposed_irreversible_blocknum (b_common b))
                      (dpos_irreversible_blocknum (b_common b')) (producer_to_last_implied_irb (b_common b))
    else <[producer := dpos_proposed_irreversible_blocknum (b_common b)]>
           (producer_to_last_implied_irb (b_common b));
  sf_pending : pending_producers b' = [] \/
    schedule_lib_num (pending_schedule b') = block_num (b_common b') \/
    promote = false /\ pending_producers b' = pending_producers b /\
      schedule_lib_num (pending_schedule b') = schedule_lib_num (pending_schedule b) }.

Lemma scheduled_elem c slot p : get_scheduled_producer (key := key) c slot = Ok p ->
  p ∈ producers (active_schedule c).
Proof. unfold get_scheduled_producer. intros Hp. ok_inv. by eapply list_elem_of_lookup_2. Qed.

Lemma step_inv b h v skip b' : next_header b h v skip = Ok b' ->
  exists hit promote, step_facts b b' (h_producer (sb_header h)) (h_confirmed (sb_header h)) hit promote.
Proof.
  unfold next_header. intros Hn. ok_bind Hn as p Hp.
  apply next_inv in Hp as (prokey & merkle & cc & hit & _ & _ & Hk & Hlast & _ & Hloop & Hp).
  apply finish_next_inv in Hn as (exts & features & _ & _ & _ & Hpr & Hnew & Hb' & _).
  set (promote := negb _ && _) in Hp. exists hit, promote.
  apply scheduled_elem in Hk. rewrite Hp in Hpr. cbn [p_producer] in Hpr. rewrite Hpr.
  cbv zeta in Hlast, Hloop.
  destruct (h_new_producers (sb_header h)) as [ps|] eqn:Enew.
  - destruct (Hnew ps eq_refl) as [Hprom Hempty]. rewrite Hp in Hprom, Hempty, Hb'.
    cbn [was_pending_promoted prev_pending_schedule p_common block_num] in *. rewrite Hb'.
    split; cbn [b_common pending_schedule schedule_lib_num block_num dpos_proposed_irreversible_blocknum
      dpos_irreversible_blocknum active_schedule producer_to_last_produced producer_to_last_implied_irb
      confirm_count]; rewrite ?Hprom; try done; eauto.
  - rewrite Hp in Hb'. cbn [was_pending_promoted prev_pending_schedule p_common block_num] in Hb'. rewrite Hb'.
    split; cbn [b_common pending_schedule schedule_lib_num block_num dpos_proposed_irreversible_blocknum
      dpos_irreversible_blocknum active_schedule producer_to_last_produced producer_to_last_implied_irb
      confirm_count]; try done; eauto.
    + intros Hprom. subst promote. apply andb_true_iff in Hprom as [H1 H2].
      apply negb_true_iff, Nat.eqb_neq in H1. split; [|by ok_inv].
      unfold pending_producers. intros E. by rewrite E in H1.
    + intros Hprom. subst promote. apply andb_false_iff in Hprom as [Hprom|Hprom]; [left|right].
      * apply negb_false_iff, Nat.eqb_eq, nil_length_inv in Hprom. done.
      * rewrite Z.geb_leb in Hprom. by apply Z.leb_gt in Hprom.
    + by destruct promote.
    + by destruct promote.
    + unfold pending_producers. cbn [pending_schedule schedule]. destruct promote; [by left | by right; right].
Qed.

Lemma carry_over_lookup (ps : list (producer_key key)) self mine lib old p :
  carry_over ps self mine lib old !! p =
  if bool_decide (p ∈ producer_name <$> ps)
  then Some (if p =? self then mine else default lib (old !! p)) else None.
Proof.
  unfold carry_over. induction ps as [|q ps IH] using rev_ind; [done|].
  rewrite foldl_app, fmap_app. simpl. destruct (decide (producer_name q = p)) as [->|Hne].
  - rewrite lookup_insert_eq, bool_decide_eq_true_2; [done|].
    rewrite elem_of_app, list_elem_of_singleton. by right.
  - rewrite lookup_insert_ne, IH by done. erewrite bool_decide_ext; [done|].
    rewrite elem_of_app, list_elem_of_singleton. split; [by left|]. by intros [?|?]; [|congruence].
Qed.

(** The confirmations the next block makes. *)
Definition new_conf (b : block_header_state) (producer confirmed : Z) : confirmation :=
  mk_conf (block_num (b_common b) + 1) producer confirmed (num_producers b * 2 / 3 + 1).

Section Step.
Context (b b' : block_header_state) (H : list confirmation) (producer confirmed : Z).
Context (hit : option Z) (promote : bool).
Context (Hstep : step_facts b b' producer confirmed hit promote).
Context (Hconf : 0 <= confirmed <= block_num (b_common b)).
Context (Hmax : block_num (b_common b) < UINT32_MAX).
Context (Hsize : Z.of_nat (length (pending_producers b')) <= max_producers).
#[local] Abbreviation e0 := (new_conf b producer confirmed).

Lemma step_num : shape_inv b H -> block_num (b_common b') = block_num (b_common b) + 1.
Proof. intros (Hn & _). rewrite (sf_num _ _ _ _ _ _ Hstep). apply u32_small. mach_lia. Qed.

Lemma required_range : num_producers b <= max_producers -> 1 <= num_producers b * 2 / 3 + 1 < 2 ^ 7.
Proof.
  unfold max_producers, num_producers. intros Hm. split.
  - enough (0 <= Z.of_nat (length (producers (active_schedule (b_common b)))) * 2 / 3) by lia.
    apply Z.div_pos; lia.
  - enough (Z.of_nat (length (producers (active_schedule (b_common b)))) * 2 / 3 < 127) by lia.
    apply Z.div_lt_upper_bound; lia.
Qed.

Lemma shape_step : shape_inv b H -> shape_inv b' (e0 :: H).
Proof.
  intros Hs. pose proof (step_num Hs) as Hnum. destruct Hs as (Hn & _ & He & Ha & Hp).
  pose proof (required_range Ha). split_and!; [| | | |done].
  - rewrite Hnum, Hn. cbn [length]. lia.
  - rewrite Hnum. lia.
  - intros [|k] e Hk; simpl in Hk.
    + simplify_eq. unfold new_conf. cbn [cf_num cf_confirmed cf_required]. split_and!; lia.
    + destruct (He k e Hk) as (-> & ? & ?). split_and!; lia.
  - unfold num_producers. rewrite (sf_active _ _ _ _ _ _ Hstep). by destruct promote.
Qed.

(** The counts after the new block joined, before its confirmations count. *)
Lemma grown_counts k c : shape_inv b H -> count_inv b H -> reverse (grown b) !! k = Some c ->
  exists e, (e0 :: H) !! k = Some e /\ 1 <= c < 2 ^ 8 /\
    c = cf_required e - Z.of_nat (length (confirmers (cf_num e) H)).
Proof.
  intros Hs [Hlen Hc] Hk. pose proof (shape_step Hs) as (_ & _ & Hr & _).
  destruct Hs as (Hn & _ & He & Ha & _). pose proof (required_range Ha) as Hreq.
  assert (Hnew : confirmers (cf_num e0) H = []).
  { unfold confirmers. enough (Hf : List.filter (covers (cf_num e0)) H = []) by by rewrite Hf.
    destruct (List.filter _ H) as [|e l] eqn:E; [done|]. exfalso.
    assert (Hin : In e (List.filter (covers (cf_num e0)) H)) by (rewrite E; by left).
    apply filter_In in Hin as [Hin Hcov]. apply list_elem_of_In, list_elem_of_lookup_1 in Hin as [j Hj].
    destruct (He j e Hj) as (Hnum & _). unfold covers, new_conf in Hcov. cbn [cf_num] in Hcov. ok_inv. lia. }
  assert (Hu : u8 (u32 (num_producers b * 2 / 3 + 1)) = num_producers b * 2 / 3 + 1).
  { rewrite u32_small by mach_lia. apply Z.mod_small. lia. }
  assert (Hcases : (k = 0%nat /\ c = num_producers b * 2 / 3 + 1) \/
    exists j, k = S j /\ reverse (confirm_count (b_common b)) !! j = Some c).
  { unfold grown, grow_confirm_count in Hk. rewrite Hu in Hk.
    destruct (_ <? _); rewrite reverse_app, reverse_singleton in Hk; destruct k as [|j]; simpl in Hk;
      [left; split; congruence | right; by exists j | left; split; congruence | right].
    exists j. split; [done|]. destruct (confirm_count (b_common b)) as [|x l]; [done|].
    simpl in Hk. rewrite reverse_cons. by apply lookup_app_l_Some. }
  destruct Hcases as [[-> ->]|(j & -> & Hj)].
  - exists e0. rewrite Hnew. cbn [length cf_required new_conf]. split_and!; [done|lia..].
  - destruct (Hc j c Hj) as (e & Hej & H1 & Hceq). exists e. split_and!; [done|done| |done].
    destruct (Hr (S j) e Hej) as (_ & _ & ?). lia.
Qed.

Lemma grown_length : shape_inv b H -> count_inv b H -> (length (grown b) <= S (length (confirm_count (b_common b))))%nat.
Proof.
  intros _ _. unfold grown, grow_confirm_count. destruct (_ <? _); rewrite length_app, ?length_drop; simpl; lia.
Qed.

Lemma covers_new k e : shape_inv b H -> (e0 :: H) !! k = Some e ->
  covers (cf_num e) e0 = (k <? Z.to_nat (confirmed + 1))%nat.
Proof.
  intros Hs Hk. destruct (shape_step Hs) as (_ & _ & Hr & _).
  destruct (Hr k e Hk) as (He & _). rewrite (step_num Hs) in He.
  unfold covers, new_conf. cbn [cf_num cf_confirmed]. rewrite He.
  destruct (Nat.ltb_spec k (Z.to_nat (confirmed + 1))).
  - apply andb_true_iff. split; apply Z.leb_le; lia.
  - apply andb_false_iff. left. apply Z.leb_gt. lia.
Qed.

(** The loop, on the reversed counts. *)
Lemma step_loop : shape_inv b H -> count_inv b H ->
  exists r, confirm_count (b_common b') = reverse r /\
    conf_rev (block_num (b_common b')) (Z.to_nat (confirmed + 1)) (reverse (grown b)) = (r, hit).
Proof.
  intros Hs Hc. pose proof (sf_loop _ _ _ _ _ _ Hstep) as Hloop.
  rewrite <- (app_nil_r (grown b)) in Hloop at 2. rewrite confirm_loop_rev in Hloop.
  - rewrite Z.sub_0_r in Hloop. destruct (conf_rev _ _ _) as [r hit']. exists r.
    rewrite app_nil_r in Hloop. by simplify_eq.
  - rewrite Forall_forall. intros c Hin. apply elem_of_reverse, list_elem_of_lookup_1 in Hin as [k Hk].
    destruct (grown_counts k c Hs Hc Hk) as (e & _ & ? & _). lia.
  - rewrite (step_num Hs). mach_lia.
  - rewrite (step_num Hs). pose proof (grown_length Hs Hc). destruct Hc as [Hlen _], Hs as (Hn & _).
    cbn [length]. lia.
Qed.

Lemma first_promotes : start_inv b H -> H = [] -> promote = true.
Proof.
  intros Hst HH. destruct (Hst HH) as (Hp & Hl & Hi).
  destruct (bool_case promote) as [E|E]; [done|exfalso].
  destruct (sf_stay _ _ _ _ _ _ Hstep E) as [?|Hlt]; [done|].
  rewrite (sf_lib _ _ _ _ _ _ Hstep), Hl in Hlt. unfold calc_dpos_last_irreversible in Hlt.
  rewrite Hi, map_to_list_empty in Hlt. done.
Qed.

Lemma count_step : shape_inv b H -> count_inv b H -> count_inv b' (e0 :: H).
Proof.
  intros Hs Hc. destruct (step_loop Hs Hc) as (r & Hr & Hloop).
  destruct (conf_rev_inv _ _ _ _ _ Hloop) as (Hk & Hnone & Hhit).
  assert (Hlen : (length r <= length (grown b))%nat).
  { destruct (option_case hit) as [Eh|[n Eh]]; [rewrite Hnone, length_reverse by done; lia|].
    destruct (Hhit n Eh) as (_ & Hl & _). apply lookup_lt_Some in Hl. rewrite length_reverse in Hl. lia. }
  split.
  - rewrite Hr, length_reverse. pose proof (grown_length Hs Hc). destruct Hc as [Hl _]. cbn [length]. lia.
  - rewrite Hr, reverse_involutive. intros k c Hkc.
    destruct (Hk k c Hkc) as (c0 & Hc0 & -> & Hne).
    destruct (grown_counts k c0 Hs Hc Hc0) as (e & He & H1 & Hceq). exists e. split; [done|].
    rewrite confirmers_cons, (covers_new k e Hs He), length_app.
    destruct (Nat.ltb_spec k (Z.to_nat (confirmed + 1))); cbn [length]; [|lia].
    specialize (Hne ltac:(lia)). lia.
Qed.

Lemma proposed_step : shape_inv b H -> count_inv b H -> proposed_inv b H -> proposed_inv b' (e0 :: H).
Proof.
  intros Hs Hc [Hrange Hq]. destruct (step_loop Hs Hc) as (r & Hr & Hloop).
  destruct (conf_rev_inv _ _ _ _ _ Hloop) as (_ & Hnone & Hhit).
  pose proof (grown_length Hs Hc). pose proof (step_num Hs) as Hnum.
  unfold proposed_inv. rewrite (sf_proposed _ _ _ _ _ _ Hstep), Hr, length_reverse.
  destruct (option_case hit) as [Eh|[n Eh]]; rewrite Eh; cbn [default id].
  2: { destruct (Hhit n Eh) as (Hn & Hl & Hb).
    destruct (grown_counts _ _ Hs Hc Hl) as (e & He & _ & Hceq).
    destruct (shape_step Hs) as (_ & _ & Hsh & _). destruct (Hsh _ _ He) as (Hen & Hce & _).
    split; [lia|]. intros _. exists e. split_and!; [by eapply list_elem_of_lookup_2 | lia |].
    rewrite confirmers_cons, (covers_new _ _ Hs He), (proj2 (Nat.ltb_lt _ _)), length_app by done.
    cbn [length]. lia. }
  - rewrite Hnone, length_reverse by done. split; [lia|]. intros Hp0.
    destruct (Hq Hp0) as (e & He & Hen & Hreq). exists e. split_and!; [by right | done|].
    rewrite confirmers_cons, length_app. lia.
Qed.

Lemma once_step : start_inv b H -> shape_inv b H -> once_inv b H -> once_inv b' (e0 :: H).
Proof.
  intros Hst Hs (Hd & Hlast & Hmiss & Hact). pose proof (step_num Hs) as Hnum.
  pose proof (sf_produced _ _ _ _ _ _ Hstep) as Hprod.
  assert (Hnums : forall e, e ∈ H -> cf_num e <= block_num (b_common b)).
  { intros e [k Hk]%list_elem_of_lookup_1. destruct Hs as (_ & _ & He & _). destruct (He k e Hk). lia. }
  unfold once_inv. rewrite Hprod. split_and!.
  - intros [|i] [|j] ei ej Hij Hi Hj Hp; simpl in Hi, Hj; [lia| |lia|by eapply (Hd i j); [lia|..]].
    simplify_eq. unfold new_conf in *. cbn [cf_producer cf_num cf_confirmed] in *.
    assert (Hin : ej ∈ H) by by eapply list_elem_of_lookup_2.
    destruct (sf_scheduled _ _ _ _ _ _ Hstep) as (p & Hp1 & Hp2).
    destruct (Hact ltac:(by destruct H) p Hp1) as [last Hl]. rewrite Hp2 in Hl.
    pose proof (sf_last _ _ _ _ _ _ Hstep last Hl) as Hlt. rewrite Hnum in Hlt.
    rewrite u32_small in Hlt by mach_lia.
    specialize (Hlast ej last Hin). rewrite <- Hp in Hlast. specialize (Hlast Hl). lia.
  - intros e last [->|Hin]%elem_of_cons; cbn [new_conf cf_producer cf_num].
    { rewrite lookup_insert_eq. intros [= <-]. lia. }
    destruct (decide (cf_producer e = producer)) as [->|Hne].
    { rewrite lookup_insert_eq. intros [= <-]. specialize (Hnums e Hin). lia. }
    rewrite lookup_insert_ne by done.
    destruct (bool_case promote) as [Ep|Ep]; rewrite Ep; [|by apply Hlast]. rewrite carry_over_lookup. case_bool_decide; [|done]. rewrite (proj2 (Z.eqb_neq _ _)) by done.
    intros [= <-]. destruct (producer_to_last_produced (b_common b) !! cf_producer e) as [l|] eqn:El;
      cbn [default id]; [by apply Hlast|].
    destruct (sf_promote _ _ _ _ _ _ Hstep Ep) as [Hpe Hle]. specialize (Hmiss e Hin El Hpe). lia.
  - intros e Hin Hnone Hpend. destruct (sf_pending _ _ _ _ _ _ Hstep) as [?|[->|(Ep & Hpe & ->)]]; [done|..].
    + apply elem_of_cons in Hin as [->|Hin]; cbn [new_conf cf_num]; [lia|].
      specialize (Hnums e Hin). lia.
    + rewrite Hpe in Hpend. rewrite Ep in Hnone. apply lookup_insert_None in Hnone as [Hnone Hne].
      apply elem_of_cons in Hin as [->|Hin]; [done|]. by apply Hmiss.
  - intros _ p. rewrite (sf_active _ _ _ _ _ _ Hstep).
    destruct (decide (producer_name p = producer)) as [->|Hne]; [by rewrite lookup_insert_eq|].
    rewrite lookup_insert_ne by done.
    destruct (bool_case promote) as [Ep|Ep]; rewrite Ep; intros Hp.
    + rewrite carry_over_lookup, bool_decide_eq_true_2 by by apply list_elem_of_fmap_2. done.
    + apply Hact; [|done]. intros HH. by rewrite (first_promotes Hst HH) in Ep.
Qed.

Lemma calc_in c p n : calc_dpos_last_irreversible (key := key) c p = n ->
  n = 0 \/ n = dpos_proposed_irreversible_blocknum c \/
  exists q, producer_to_last_implied_irb c !! q = Some n.
Proof.
  unfold calc_dpos_last_irreversible. intros <-.
  destruct (nth_element _ _) as [x|] eqn:E; [|by left]. right. unfold nth_element in E.
  apply list_elem_of_lookup_2 in E. rewrite merge_sort_Permutation in E.
  apply list_elem_of_fmap in E as ([q m] & -> & Hin). apply elem_of_map_to_list in Hin. simpl.
  destruct (q =? p); [by left | right; by exists q].
Qed.

Lemma implied_step : start_inv b H -> shape_inv b H -> count_inv b H -> proposed_inv b H ->
  implied_inv b H -> implied_inv b' (e0 :: H).
Proof.
  intros Hst Hs Hc Hp [Hi Hact].
  assert (Hmono : 0 <= dpos_proposed_irreversible_blocknum (b_common b) <=
            dpos_proposed_irreversible_blocknum (b_common b')).
  { rewrite (sf_proposed _ _ _ _ _ _ Hstep). destruct Hp as [Hp _]. split; [lia|].
    destruct (option_case hit) as [Eh|[n Eh]]; rewrite Eh; cbn [default id]; [lia|].
    destruct (step_loop Hs Hc) as (r & Hr & Hloop).
    destruct (conf_rev_inv _ _ _ _ _ Hloop) as (_ & _ & Hhit). destruct (Hhit n Eh) as (-> & Hl & _).
    apply lookup_lt_Some in Hl. rewrite length_reverse in Hl. rewrite (step_num Hs).
    pose proof (grown_length Hs Hc). lia. }
  assert (Hlib : 0 <= dpos_irreversible_blocknum (b_common b') <=
            dpos_proposed_irreversible_blocknum (b_common b)).
  { rewrite (sf_lib _ _ _ _ _ _ Hstep).
    destruct (calc_in (b_common b) producer _ eq_refl) as [->|[->|[q Hq]]]; [lia..|].
    specialize (Hi q _ Hq). lia. }
  unfold implied_inv. rewrite (sf_implied _ _ _ _ _ _ Hstep), (sf_active _ _ _ _ _ _ Hstep).
  destruct (bool_case promote) as [Ep|Ep]; rewrite Ep; split.
  - intros p n. rewrite carry_over_lookup. case_bool_decide; [|done]. intros [= <-].
    destruct (p =? producer); [lia|]. destruct (producer_to_last_implied_irb (b_common b) !! p) as [m|] eqn:E;
      cbn [default id]; [specialize (Hi p m E)|]; lia.
  - intros _ p Hp'. rewrite carry_over_lookup, bool_decide_eq_true_2 by by apply list_elem_of_fmap_2. done.
  - intros p n [[<- <-]|[_ E]]%lookup_insert_Some; [lia|]. specialize (Hi p n E). lia.
  - intros _ p Hp'. destruct (decide (producer_name p = producer)) as [->|Hne]; [by rewrite lookup_insert_eq|].
    rewrite lookup_insert_ne by done. apply Hact; [|done]. intros HH. by rewrite (first_promotes Hst HH) in Ep.
Qed.
End Step.

(** ** What holds of every run *)

Lemma finish_pending b h v skip b' : next_header b h v skip = Ok b' ->
  pending_producers b' = [] \/ pending_producers b' = pending_producers b \/
  exists ps, h_new_producers (sb_header h) = Some ps /\ pending_producers b' = producers ps.
Proof.
  unfold next_header. intros Hn. ok_bind Hn as p Hp.
  apply next_inv in Hp as (prokey & merkle & cc & hit & _ & _ & _ & _ & _ & _ & Hp).
  apply finish_next_inv in Hn as (exts & features & _ & _ & _ & _ & _ & -> & _).
  rewrite Hp. unfold pending_producers. cbn [pending_schedule schedule prev_pending_schedule was_pending_promoted].
  destruct (h_new_producers (sb_header h)) as [ps|]; cbn [schedule].
  - right. right. by exists ps.
  - match goal with |- context [if ?c then _ else _] => destruct c end; [by left | by right; left].
Qed.

Lemma dpos_run_inv b H : dpos_run b H -> dpos_inv b H.
Proof.
  induction 1 as [ip ik ts cid | b H h v skip b' _ (Hst & Hs & Hc & Ho & Hp & Hi) Hn Hconf Hmax Hps].
  { apply dpos_inv_genesis. }
  destruct (step_inv _ _ _ _ _ Hn) as (hit & promote & Hf).
  assert (Hsize : Z.of_nat (length (pending_producers b')) <= max_producers).
  { destruct (finish_pending _ _ _ _ _ Hn) as [->|[->|(ps & Hnew & ->)]];
      [done | apply Hs | by apply Hps]. }
  split_and!; [done|..].
  - by eapply shape_step.
  - by eapply count_step.
  - by eapply once_step.
  - by eapply proposed_step.
  - by eapply implied_step.
Qed.

(** A block is proposed irreversible only with a quorum: more than two thirds
    of the producers scheduled when it was made, all of them distinct, have
    produced a block that confirms it; no producer ever confirms a block
    twice, also when schedules change in between.  No header of the chain
    confirms more blocks than its number ([dpos_run]), which the code does not
    check: [wraparound_confirms_alone] shows what happens otherwise. (C22) *)
Theorem proposed_quorum b H : dpos_run b H ->
  dpos_proposed_irreversible_blocknum (b_common b) <> 0 ->
  exists e Q, e ∈ H /\ cf_num e = dpos_proposed_irreversible_blocknum (b_common b) /\
    NoDup Q /\ cf_required e <= Z.of_nat (length Q) /\
    (forall p, p ∈ Q -> exists e', e' ∈ H /\ cf_producer e' = p /\ covers (cf_num e) e' = true).
Proof.
  intros (_ & _ & _ & Ho & [_ Hq] & _)%dpos_run_inv Hne.
  destruct (Hq Hne) as (e & He & Hn & Hreq). exists e, (confirmers (cf_num e) H).
  split_and!; [done..| by eapply confirmers_nodup | done|].
  intros p (e' & -> & Hin)%list_elem_of_fmap.
  rewrite list_elem_of_In, filter_In, <- list_elem_of_In in Hin. exists e'. by destruct Hin.
Qed.

(** The numbers among which the last irreversible one is chosen. *)
Definition votes (c : common (key := key)) (producer : Z) : list Z :=
  (fun i : Z * Z => if i.1 =? producer then dpos_proposed_irreversible_blocknum c else i.2)
  <$> map_to_list (producer_to_last_implied_irb c).

Lemma length_votes c p : length (votes c p) = size (producer_to_last_implied_irb c).
Proof. unfold votes. by rewrite length_fmap, length_map_to_list. Qed.

Lemma votes_pos c p : producer_to_last_implied_irb c <> ∅ -> (0 < length (votes c p))%nat.
Proof. rewrite length_votes. intros Hne%map_size_non_empty_iff. lia. Qed.

Lemma calc_votes c p : producer_to_last_implied_irb c <> ∅ ->
  nth_element (votes c p) ((length (votes c p) - 1) / 3) = Some (calc_dpos_last_irreversible c p).
Proof.
  intros Hne. change (calc_dpos_last_irreversible c p) with
    (default 0 (nth_element (votes c p) ((length (votes c p) - 1) / 3))).
  destruct (nth_element_some (votes c p) ((length (votes c p) - 1) / 3)) as [x ->]; [|done].
  pose proof (votes_pos c p Hne).
  pose proof (Nat.Div0.div_le_upper_bound (length (votes c p) - 1) 3 (length (votes c p) - 1)). lia.
Qed.

(** More than two thirds of the tracked producers imply at least the last
    irreversible block number; it never exceeds the proposed one.  No header of
    the chain confirms more blocks than its number. (C24) *)
Theorem lib_backed b H h v skip b' : dpos_run b H -> next_header b h v skip = Ok b' ->
  producer_to_last_implied_irb (b_common b) <> ∅ ->
  let lib := dpos_irreversible_blocknum (b_common b') in
  let vs := votes (b_common b) (h_producer (sb_header h)) in
  (2 * length vs < 3 * count (from_up lib) vs)%nat /\
  0 <= lib <= dpos_proposed_irreversible_blocknum (b_common b) /\
  dpos_proposed_irreversible_blocknum (b_common b) <= block_num (b_common b).
Proof.
  intros (_ & _ & _ & _ & [Hp _] & [Hi _])%dpos_run_inv Hn Hne lib vs.
  destruct (step_inv _ _ _ _ _ Hn) as (hit & promote & Hf).
  assert (Hlib : lib = calc_dpos_last_irreversible (b_common b) (h_producer (sb_header h)))
    by apply (sf_lib _ _ _ _ _ _ Hf).
  split_and!.
  - pose proof (rank_above _ _ _ (calc_votes _ (h_producer (sb_header h)) Hne)) as Hr.
    rewrite <- Hlib in Hr. fold vs in Hr.
    pose proof (votes_pos _ (h_producer (sb_header h)) Hne) as Hpos. fold vs in Hpos.
    pose proof (Nat.div_mod_eq (length vs - 1) 3). lia.
  - destruct (calc_in (b_common b) (h_producer (sb_header h)) _ eq_refl) as [E|[E|[q Hq]]];
      rewrite Hlib; [rewrite E; lia.. | by apply (Hi q)].
  - destruct (calc_in (b_common b) (h_producer (sb_header h)) _ eq_refl) as [E|[E|[q Hq]]];
      rewrite Hlib; [rewrite E; lia.. | by apply (Hi q)].
  - lia.
Qed.

(** Replacing the entry of a known producer, in the map or in the votes. *)
Lemma votes_insert c p : is_Some (producer_to_last_implied_irb c !! p) ->
  votes c p ≡ₚ snd <$> map_to_list (<[p := dpos_proposed_irreversible_blocknum c]>
                                      (producer_to_last_implied_irb c)).
Proof.
  intros [n Hn]. unfold votes. set (m := producer_to_last_implied_irb c) in *.
  rewrite <- insert_delete_eq, (map_to_list_insert (delete p m)) by apply lookup_delete_eq.
  rewrite <- (insert_delete_id m p n Hn) at 1.
  rewrite (map_to_list_insert (delete p m)) by apply lookup_delete_eq. simpl. rewrite Z.eqb_refl.
  constructor. apply Permutation_refl'. apply list_fmap_ext. intros i [q k] Hi. simpl.
  apply list_elem_of_lookup_2, elem_of_map_to_list, lookup_delete_Some in Hi as [Hne _].
  by rewrite (proj2 (Z.eqb_neq q p)) by done.
Qed.

(** Where no schedule is promoted, the last irreversible block number never
    goes back. *)
Theorem lib_monotone b H h1 v1 k1 b1 H1 h2 v2 k2 b2 :
  dpos_run b H -> H <> [] -> dpos_run b1 H1 ->
  next_header b h1 v1 k1 = Ok b1 -> next_header b1 h2 v2 k2 = Ok b2 ->
  pending_producers b = [] \/
    dpos_irreversible_blocknum (b_common b1) < schedule_lib_num (pending_schedule b) ->
  dpos_irreversible_blocknum (b_common b1) <= dpos_irreversible_blocknum (b_common b2).
Proof.
  intros Hrun HH Hrun1 Hn1 Hn2 Hstay.
  destruct (dpos_run_inv _ _ Hrun) as (Hst & Hs & Hc & Ho & Hp & Hi).
  destruct (step_inv _ _ _ _ _ Hn1) as (hit1 & promote & Hf1).
  destruct (step_inv _ _ _ _ _ Hn2) as (hit2 & promote2 & Hf2).
  assert (promote = false) as ->.
  { destruct promote; [|done]. destruct (sf_promote _ _ _ _ _ _ Hf1 eq_refl). destruct Hstay; [done|lia]. }
  assert (Hknown : is_Some (producer_to_last_implied_irb (b_common b) !! h_producer (sb_header h1))).
  { destruct (sf_scheduled _ _ _ _ _ _ Hf1) as (p & Hp1 & <-). destruct Hi as [_ Hi]. by apply Hi. }
  pose proof (sf_implied _ _ _ _ _ _ Hf1) as Himp. cbn iota in Himp.
  destruct (dpos_run_inv _ _ Hrun1) as (_ & _ & _ & _ & _ & Hi1).
  assert (Hne1 : producer_to_last_implied_irb (b_common b1) <> ∅) by (rewrite Himp; apply insert_non_empty).
  assert (Hne : producer_to_last_implied_irb (b_common b) <> ∅).
  { intros E. rewrite E in Hknown. by destruct Hknown. }
  pose proof (calc_votes _ (h_producer (sb_header h1)) Hne) as Hv1.
  pose proof (calc_votes _ (h_producer (sb_header h2)) Hne1) as Hv2.
  rewrite <- (sf_lib _ _ _ _ _ _ Hf1) in Hv1. rewrite <- (sf_lib _ _ _ _ _ _ Hf2) in Hv2.
  pose proof (votes_insert _ _ Hknown) as Hperm. rewrite <- Himp in Hperm.
  rewrite (nth_element_perm _ _ _ Hperm), (Permutation_length Hperm) in Hv1.
  rewrite length_fmap in Hv1. unfold votes in Hv2 at 2. rewrite length_fmap in Hv2.
  eapply rank_mono; [|exact Hv1 | exact Hv2].
  unfold votes. apply Forall2_fmap_2, Forall_Forall2_diag, Forall_forall. intros [q n] Hin.
  apply elem_of_map_to_list in Hin. simpl. destruct Hi1 as [Hi1 _]. specialize (Hi1 q n Hin).
  destruct (q =? _); lia.
Qed.
End Spec.
