(* ===== verification/DposRuns.v ===== *)
(** * Concrete chains of headers

    An instance of the cryptographic interface, chains of headers from genesis
    under several schedules, and two runs that show the limits of the
    guarantees: confirmations that wrap around, and a last irreversible block
    number that goes back. *)

From stdpp Require Import base numbers list gmap strings sorting countable.
From Stdlib Require Import ZArith Lia Ascii.
From S2P Require Import Prelude Boost Names Merkle MerkleSpec BlockTimestamp BlockHeader.
From S2P Require Import BlockHeaderState BlockHeaderSpec DposSpec.
Local Open Scope Z_scope.

(** ** An instance of the interface *)

Fixpoint bits_of (p : positive) : chars :=
  match p with xH => [] | xO p => "0"%char :: bits_of p | xI p => "1"%char :: bits_of p end.
Fixpoint of_bits (l : chars) : positive :=
  match l with [] => xH | c :: l => if (c =? "0")%char then xO (of_bits l) else xI (of_bits l) end.
Lemma of_bits_of p : of_bits (bits_of p) = p.
Proof. induction p as [p IH|p IH|]; simpl; by rewrite ?IH. Qed.

Definition toy_pack (l : list digest) : chars := bits_of (encode l).
Definition toy_unpack (c : chars) : result (list digest) := of_option (decode (of_bits c)) "unpack".
Lemma toy_unpack_pack l : toy_unpack (toy_pack l) = Ok l.
Proof. unfold toy_unpack, toy_pack. by rewrite of_bits_of, decode_encode. Qed.

(** Keys are numbers, and a signature is the key that made it. *)
#[local] Instance toy_crypto : HeaderCrypto Z Z := {
  hash_of_pair := fun p => mk_digest (hash0 p.1 + 3 * hash0 p.2 + 1) (hash1 p.1) (hash1 p.2) 1;
  header_digest := fun h => mk_digest (h_timestamp h) (h_producer h) (h_confirmed h) 2;
  schedule_digest := fun s => mk_digest (version s) 0 0 3;
  recover_key := fun _ s _ => Ok s;
  default_key := 0;
  default_signature := 0;
  pack_features := toy_pack;
  unpack_features := toy_unpack;
  unpack_pack := toy_unpack_pack }.

#[local] Abbreviation bhs := (block_header_state Z Z).
Definition no_features : Z -> gset digest -> list digest -> result unit := fun _ _ _ => Ok tt.

(** ** Running a script *)

(** A block: its slot, the number of blocks it confirms, new producers. *)
Abbreviation script := (list (Z * Z * option (producer_schedule Z))).

Definition produce (b : bhs) (slot confirmed : Z) (np : option (producer_schedule Z))
    : result (signed_block_header Z Z) :=
  p ← next b slot confirmed;
  Ok (mk_signed (sb_header (make_block_header p digest_zero digest_zero np []))
        (block_signing_key (p_common p))).

Fixpoint run (b : bhs) (l : script) : result bhs :=
  match l with
  | [] => Ok b
  | (slot, confirmed, np) :: l =>
    h ← produce b slot confirmed np;
    b ← next_header b h no_features false;
    run b l
  end.

(** The same with the confirmations recorded, for scripts that stay within the
    bounds of [dpos_run]. *)
Fixpoint run_conf (b : bhs) (H : list confirmation) (l : script) : result (bhs * list confirmation) :=
  match l with
  | [] => Ok (b, H)
  | (slot, confirmed, np) :: l =>
    h ← produce b slot confirmed np;
    b' ← next_header b h no_features false;
    check ((0 <=? h_confirmed (sb_header h)) && (h_confirmed (sb_header h) <=? block_num (b_common b))
           && (block_num (b_common b) <? UINT32_MAX)) "bounds" ;;
    check (match h_new_producers (sb_header h) with
           | Some ps => Z.of_nat (length (producers ps)) <=? max_producers | None => true end) "bounds" ;;
    run_conf b' (mk_conf (block_num (b_common b) + 1) (h_producer (sb_header h))
                   (h_confirmed (sb_header h)) (num_producers b * 2 / 3 + 1) :: H) l
  end.

Lemma run_conf_dpos b H l b' H' : dpos_run b H -> run_conf b H l = Ok (b', H') -> dpos_run b' H'.
Proof.
  revert b H. induction l as [|[[slot confirmed] np] l IH]; intros b H Hr Hrun; simpl in Hrun.
  { by ok_inv; simplify_eq. }
  ok_bind Hrun as h Hh. ok_bind Hrun as b1 Hb1. ok_bind Hrun as ? H1. ok_bind Hrun as ? H2.
  apply (IH _ _) in Hrun; [done|]. ok_inv. eapply run_next; [done..| lia | mach_lia |].
  intros ps Hps. rewrite Hps in *. by ok_inv.
Qed.

(** ** A chain with four producers *)

Definition genesis : bhs := genesis_header_state 1 100 946684800000000 digest_zero.
Definition schedule4 : producer_schedule Z :=
  mk_schedule 1 [mk_producer 11 111; mk_producer 12 112; mk_producer 13 113; mk_producer 14 114].

(** Blocks 2 to 4: the initial producer proposes the four, who take over. *)
Definition handover : script := [(1, 0, None); (2, 0, Some schedule4); (3, 0, None)].

(** The slots of the four in a round of 48: 48 k + 12 i .. 48 k + 12 i + 11. *)
Definition round (k : Z) (who : list Z) : script := (fun i => (48 * k + 12 * i, 3, None)) <$> who.

Definition two_rounds : script :=
  handover ++ [(48, 0, None); (60, 0, None); (72, 0, None); (84, 0, None)] ++ round 2 [0; 1; 2; 3].

(** ** The theorems at these chains *)

Definition state_after (l : script) : bhs := from_ok genesis (run genesis l).
Definition conf_after (l : script) : bhs * list confirmation := from_ok (genesis, []) (run_conf genesis [] l).

Lemma two_rounds_run : dpos_run (conf_after two_rounds).1 (conf_after two_rounds).2.
Proof.
  apply (run_conf_dpos genesis [] two_rounds); [apply run_genesis|].
  rewrite <- surjective_pairing. unfold conf_after. run_ok.
Qed.

(** After two rounds block 10 is proposed irreversible. *)
Lemma proposed_quorum_witness :
  exists e Q, e ∈ (conf_after two_rounds).2 /\ cf_num e = 10 /\ NoDup Q /\ cf_required e <= Z.of_nat (length Q) /\
    (forall p, p ∈ Q -> exists e', e' ∈ (conf_after two_rounds).2 /\ cf_producer e' = p /\
       covers (cf_num e) e' = true).
Proof.
  assert (E : dpos_proposed_irreversible_blocknum (b_common (conf_after two_rounds).1) = 10) by compute_run.
  rewrite <- E. apply (proposed_quorum (conf_after two_rounds).1 (conf_after two_rounds).2 two_rounds_run).
  rewrite E. discriminate.
Defined.

(** The next two blocks of that chain. *)
Definition header_at (b : bhs) (slot confirmed : Z) : signed_block_header Z Z :=
  from_ok (b_header genesis) (produce b slot confirmed None).
Definition state_at (b : bhs) (slot confirmed : Z) : bhs :=
  from_ok genesis (next_header b (header_at b slot confirmed) no_features false).
Definition tip1 : bhs := state_at (conf_after two_rounds).1 144 3.
Definition tip2 : bhs := state_at tip1 156 3.

Lemma tip1_next : next_header (conf_after two_rounds).1 (header_at (conf_after two_rounds).1 144 3) no_features false
  = Ok tip1.
Proof. unfold tip1, state_at. run_ok. Qed.
Lemma tip2_next : next_header tip1 (header_at tip1 156 3) no_features false = Ok tip2.
Proof. unfold tip2, state_at. run_ok. Qed.

Lemma implied_some : producer_to_last_implied_irb (b_common (conf_after two_rounds).1) !! 11 = Some 4.
Proof. compute_run. Qed.

Lemma lib_backed_witness :
  let lib := dpos_irreversible_blocknum (b_common tip1) in
  let vs := votes (b_common (conf_after two_rounds).1) 11 in
  (2 * length vs < 3 * count (from_up lib) vs)%nat.
Proof.
  assert (E : h_producer (sb_header (header_at (conf_after two_rounds).1 144 3)) = 11) by compute_run.
  rewrite <- E. apply (lib_backed _ _ _ _ _ _ two_rounds_run tip1_next).
  intros Em. pose proof implied_some as Hs. rewrite Em in Hs. discriminate.
Defined.

Lemma tip1_run : exists H1, dpos_run tip1 H1.
Proof.
  eexists. eapply (run_next _ _ _ _ _ _ two_rounds_run tip1_next).
  - assert (h_confirmed (sb_header (header_at (conf_after two_rounds).1 144 3)) = 3) as -> by compute_run.
    assert (block_num (b_common (conf_after two_rounds).1) = 12) as -> by compute_run. lia.
  - assert (block_num (b_common (conf_after two_rounds).1) = 12) as -> by compute_run. mach_lia.
  - assert (h_new_producers (sb_header (header_at (conf_after two_rounds).1 144 3)) = None) as -> by compute_run.
    discriminate.
Qed.

Lemma lib_monotone_witness :
  dpos_irreversible_blocknum (b_common tip1) <= dpos_irreversible_blocknum (b_common tip2).
Proof.
  destruct tip1_run as [H1 Hr].
  eapply (lib_monotone _ _ _ _ _ tip1 H1 _ _ _ tip2 two_rounds_run); [ | exact Hr | exact tip1_next | exact tip2_next | ].
  - intros E. assert (L : length (conf_after two_rounds).2 = 11%nat) by compute_run. rewrite E in L. discriminate.
  - left. compute_run.
Defined.

(** The first header of the four, and its acceptance. *)
Lemma header_authentic_witness : exists prokey,
  slot_of (conf_after two_rounds).1 < 144 /\
  get_scheduled_producer (b_common (conf_after two_rounds).1) 144 = Ok prokey.
Proof.
  assert (T : h_timestamp (sb_header (header_at (conf_after two_rounds).1 144 3)) = 144) by compute_run.
  assert (S : slot_of (conf_after two_rounds).1 = 132) by compute_run.
  destruct (header_authentic (conf_after two_rounds).1 (header_at (conf_after two_rounds).1 144 3)
              no_features tip1) as (prokey & H1 & _ & H2 & _).
  - rewrite S. mach_lia.
  - exact tip1_next.
  - exists prokey. rewrite T in *. split; [exact H1 | exact H2].
Defined.

(** A signer for the scheduled producer. *)
Definition pending_at : pending_block_header_state (key := Z) :=
  from_ok (mk_pbhs (b_common genesis) ∅ (pending_schedule genesis) false digest_zero 0 0 0 0)
    (next (conf_after two_rounds).1 144 3).
Definition signed_at : bhs :=
  from_ok genesis (finish_next_sign pending_at (make_block_header pending_at digest_zero digest_zero None [])
                     no_features (fun _ => Ok (block_signing_key (p_common pending_at)))).
Lemma produced_block_accepted_witness :
  next_header (conf_after two_rounds).1 (b_header signed_at) no_features false = Ok signed_at.
Proof.
  apply (produced_block_accepted (conf_after two_rounds).1 144 3 pending_at digest_zero digest_zero None [] no_features
           (fun _ => Ok (block_signing_key (p_common pending_at)))).
  - assert (S : slot_of (conf_after two_rounds).1 = 132) by compute_run. rewrite S. mach_lia.
  - intros d s k _ Hk. exact Hk.
  - unfold pending_at. run_ok.
  - unfold signed_at. run_ok.
Defined.

Definition activating : block_header Z :=
  mk_header 1 2 0 digest_zero digest_zero digest_zero 0 None [(0, toy_pack [digest_zero])].
Lemma extensions_unique_witness :
  exists fs data, [[digest_zero]] = [fs] /\ h_extensions activating = [(0, data)] /\
    unpack_features data = Ok fs /\ fs <> [] /\ NoDup fs.
Proof.
  destruct (extensions_unique activating [[digest_zero]]) as [[E _]|E]; [ | discriminate E | exact E].
  compute_run.
Defined.

(** ** The limits *)

(** The range check of [next] compares 32-bit differences: early in the chain a
    block that claims to confirm more blocks than exist passes it, whatever
    its producer has confirmed before.  With four producers, of which three
    have to confirm a block, producer 11 alone makes block 5 proposed
    irreversible. *)
Example wraparound_confirms_alone :
  let b := state_after (handover ++ [(48, 0, None)]) in
  let b' := from_ok genesis (run b [(49, 65535, None); (50, 65535, None)]) in
  block_num (b_common b) = 5 /\ h_producer (sb_header (b_header b)) = 11 /\
  num_producers b * 2 / 3 + 1 = 3 /\
  is_ok (run b [(49, 65535, None); (50, 65535, None)]) = true /\
  producer_to_last_produced (b_common b') !! 11 = Some 7 /\
  producer_to_last_produced (b_common b') !! 12 = Some 3 /\
  producer_to_last_produced (b_common b') !! 13 = Some 3 /\
  producer_to_last_produced (b_common b') !! 14 = Some 3 /\
  dpos_proposed_irreversible_blocknum (b_common b') = 5.
Proof. intros b b'. split_and!; compute_run. Qed.

(** A schedule of two of the four producers, 14 of which misses all its slots
    until then. *)
Definition schedule2 : producer_schedule Z := mk_schedule 2 [mk_producer 14 114; mk_producer 11 111].
Definition three (k : Z) : script := (fun i => (48 * k + 12 * i, 2, None)) <$> [0; 1; 2].
Definition shrinking : script :=
  handover ++ [(48, 0, None); (60, 1, None); (72, 2, None)] ++ three 2 ++ three 3 ++
  [(192, 2, Some schedule2); (204, 2, None); (216, 2, None)] ++ three 5.

(** Producer 14 of the four misses all its slots; the others agree on a
    schedule of producers 14 and 11.  The first block after it takes effect has
    a smaller last irreversible block number than its parent. *)
Example lib_goes_back :
  let b := state_after shrinking in
  let b' := state_after (shrinking ++ [(300, 0, None)]) in
  block_num (b_common b) = 19 /\ block_num (b_common b') = 20 /\
  h_previous (sb_header (b_header b')) = b_id b /\
  dpos_irreversible_blocknum (b_common b) = 14 /\ dpos_irreversible_blocknum (b_common b') = 3.
Proof. intros b b'. split_and!; compute_run. Qed.
