(* ===== verification/Intrinsics.v ===== *)
(** * The whitelist of intrinsics ([whitelisted_intrinsics.hpp],
    [whitelisted_intrinsics.cpp])

    The host functions a contract may import are kept in the protocol state as
    a flat multimap from the hash of a name to the name.  Whatever the hash,
    collisions included, the multimap behaves as the set of the names. *)

From stdpp Require Import base numbers list gmap strings sorting.
From Stdlib Require Import ZArith Lia String Ascii OrderedTypeEx.
From S2P Require Import Prelude.
Local Open Scope Z_scope.

(** [std::hash<std::string>]: some function to 64 bits. *)
Class StringHash := string_hash : string -> Z.

(** [std::set<std::string>], in the order of its elements. *)
Definition string_lt (a b : string) : Prop := String.compare a b = Lt.

Fixpoint set_emplace (x : string) (s : list string) : list string :=
  match s with
  | [] => [x]
  | y :: s' =>
    match String.compare x y with
    | Lt => x :: s
    | Eq => s
    | Gt => y :: set_emplace x s'
    end
  end.

(** [shared_flat_multimap<uint64_t, shared_string>]: entries in the order of
    their keys; an iterator is a position. *)
Abbreviation whitelisted_intrinsics_type := (list (Z * string)).

Section Whitelist.
Context `{StringHash}.
Implicit Types (w : whitelisted_intrinsics_type) (name : string).

Definition intrinsic_hash name : Z := u64 (string_hash name).

Fixpoint lower_bound_from w (h : Z) : nat :=
  match w with
  | [] => 0
  | (k, _) :: w => if k <? h then S (lower_bound_from w h) else 0
  end.

(** [emplace] puts an entry behind those with the same key. *)
Fixpoint whitelist_emplace w (h : Z) name : whitelisted_intrinsics_type :=
  match w with
  | [] => [(h, name)]
  | (k, n) :: w' => if h <? k then (h, name) :: w else (k, n) :: whitelist_emplace w' h name
  end.

(** [find_intrinsic_helper]: [l] holds the entries from [itr] to the end; the
    position of the name, if it is found. *)
Fixpoint find_intrinsic_helper (h : Z) name (itr : nat) (l : whitelisted_intrinsics_type) : option nat :=
  match l with
  | [] => None
  | (k, n) :: l =>
    if k =? h then
      if String.eqb n name then Some itr else find_intrinsic_helper h name (S itr) l
    else None
  end.

Definition find_intrinsic w (h : Z) name : option nat :=
  let itr := lower_bound_from w h in
  find_intrinsic_helper h name itr (drop itr w).

Definition is_intrinsic_whitelisted w name : bool :=
  let h := intrinsic_hash name in
  let itr := lower_bound_from w h in
  match find_intrinsic_helper h name itr (drop itr w) with Some _ => true | None => false end.

Definition add_intrinsic_to_whitelist w name : result whitelisted_intrinsics_type :=
  let h := intrinsic_hash name in
  match find_intrinsic w h name with
  | Some _ => Err "cannot add intrinsic since it already exists in the whitelist"
  | None => Ok (whitelist_emplace w h name)
  end.

Definition remove_intrinsic_from_whitelist w name : result whitelisted_intrinsics_type :=
  let h := intrinsic_hash name in
  match find_intrinsic w h name with
  | None => Err "cannot remove intrinsic since it does not exist in the whitelist"
  | Some itr => Ok (delete itr w)
  end.

Definition reset_intrinsic_whitelist (s : list string) : whitelisted_intrinsics_type :=
  foldl (fun w name => whitelist_emplace w (intrinsic_hash name) name) [] s.

Definition convert_intrinsic_whitelist_to_set w : list string :=
  foldl (fun s (p : Z * string) => set_emplace p.2 s) [] w.

(** ** The invariant *)

Definition key_le (a b : Z * string) : Prop := a.1 <= b.1.

Record whitelist_ok w : Prop := {
  wl_sorted : StronglySorted key_le w;
  wl_keys : Forall (fun p => p.1 = intrinsic_hash p.2) w;
  wl_nodup : NoDup w.*2 }.

Definition intrinsic_names w : gset string := list_to_set w.*2.

Lemma elem_names w n : n ∈ intrinsic_names w <-> n ∈ w.*2.
Proof. unfold intrinsic_names. by rewrite elem_of_list_to_set. Qed.

Lemma lower_bound_spec w h :
  Forall (fun p => p.1 < h) (take (lower_bound_from w h) w) /\
  forall k n l, drop (lower_bound_from w h) w = (k, n) :: l -> h <= k.
Proof.
  induction w as [|[k n] w [IH1 IH2]]; simpl; [split; [constructor | discriminate]|].
  destruct (k <? h) eqn:E; simpl.
  - split; [constructor; [simpl; lia | done] | done].
  - split; [constructor|]. intros k' n' l [= <- <- <-]. lia.
Qed.

Lemma helper_found h name itr l i :
  find_intrinsic_helper h name itr l = Some i ->
  exists j, (i = itr + j)%nat /\ l !! j = Some (h, name).
Proof.
  revert itr. induction l as [|[k n] l IH]; intros itr; simpl; [discriminate|].
  destruct (k =? h) eqn:Ek; [|discriminate]. destruct (String.eqb_spec n name) as [->|].
  - intros [= <-]. exists 0%nat. split; [lia|]. simpl. repeat f_equal. lia.
  - intros (j & -> & Hj)%IH. exists (S j). split; [lia | done].
Qed.

Lemma helper_missing h name itr l :
  StronglySorted key_le l -> (forall k n l', l = (k, n) :: l' -> h <= k) ->
  find_intrinsic_helper h name itr l = None -> (h, name) ∉ l.
Proof.
  revert itr. induction l as [|[k n] l IH]; intros itr Hs Hk; simpl; [intros _; apply not_elem_of_nil|].
  apply StronglySorted_inv in Hs as [Hs Hall]. rewrite Forall_forall in Hall.
  destruct (k =? h) eqn:Ek.
  - destruct (String.eqb_spec n name) as [|Hn]; [discriminate|]. intros Hf.
    rewrite not_elem_of_cons. split; [congruence|]. eapply IH; [done| |done].
    intros k' n' l' ->. specialize (Hall (k', n') ltac:(by left)). unfold key_le in Hall. simpl in *. lia.
  - intros _. specialize (Hk k n l eq_refl). rewrite not_elem_of_cons. split; [intros [= ? ?]; lia|].
    intros Hin%Hall. unfold key_le in Hin. simpl in Hin. lia.
Qed.

Lemma sorted_drop w i : StronglySorted key_le w -> StronglySorted key_le (drop i w).
Proof.
  revert i. induction w as [|p w IH]; intros [|i] Hs; simpl; [done..|].
  apply IH. by apply StronglySorted_inv in Hs as [? _].
Qed.

Lemma name_entry w n : whitelist_ok w -> n ∈ w.*2 <-> (intrinsic_hash n, n) ∈ w.
Proof.
  intros [_ Hk _]. rewrite Forall_forall in Hk. rewrite list_elem_of_fmap. split.
  - intros ([k m] & -> & Hin). by rewrite <- (Hk _ Hin).
  - intros Hin. eexists (_, _). by split.
Qed.

(** The search finds a name exactly when it is there. *)
Lemma find_intrinsic_spec w n : whitelist_ok w ->
  match find_intrinsic w (intrinsic_hash n) n with
  | Some i => w !! i = Some (intrinsic_hash n, n)
  | None => n ∉ w.*2
  end.
Proof.
  intros Hok. unfold find_intrinsic. destruct (lower_bound_spec w (intrinsic_hash n)) as [H1 H2].
  destruct (find_intrinsic_helper _ _ _ _) as [i|] eqn:E.
  - apply helper_found in E as (j & -> & Hj). by rewrite lookup_drop in Hj.
  - rewrite name_entry by done. apply helper_missing in E; [|by apply sorted_drop, Hok|done].
    rewrite <- (take_drop (lower_bound_from w (intrinsic_hash n)) w), elem_of_app.
    intros [Hin|Hin]; [|done]. rewrite Forall_forall in H1. apply H1 in Hin. simpl in Hin. lia.
Qed.

Lemma whitelist_emplace_perm w h n : whitelist_emplace w h n ≡ₚ (h, n) :: w.
Proof.
  induction w as [|[k m] w IH]; simpl; [done|]. destruct (h <? k); [done|].
  rewrite IH. apply Permutation_swap.
Qed.

Lemma whitelist_emplace_sorted w h n : StronglySorted key_le w -> StronglySorted key_le (whitelist_emplace w h n).
Proof.
  induction w as [|[k m] w IH]; intros Hs; simpl.
  - repeat constructor.
  - destruct (h <? k) eqn:E; apply StronglySorted_inv in Hs as Hs'; destruct Hs' as [Hs1 Hall].
    + constructor; [done|]. constructor; [unfold key_le; simpl; lia|].
      eapply Forall_impl; [exact Hall|]. unfold key_le. simpl. lia.
    + constructor; [by apply IH|]. rewrite whitelist_emplace_perm. constructor; [unfold key_le; simpl; lia | done].
Qed.

Lemma whitelist_emplace_ok w n : whitelist_ok w -> n ∉ w.*2 -> whitelist_ok (whitelist_emplace w (intrinsic_hash n) n).
Proof.
  intros [Hs Hk Hd] Hn. split.
  - by apply whitelist_emplace_sorted.
  - rewrite whitelist_emplace_perm. by constructor.
  - rewrite whitelist_emplace_perm. simpl. by constructor.
Qed.

Lemma whitelist_emplace_names w h n : intrinsic_names (whitelist_emplace w h n) = {[ n ]} ∪ intrinsic_names w.
Proof.
  apply set_eq. intros x. rewrite elem_names, elem_of_union, elem_of_singleton, elem_names, whitelist_emplace_perm.
  simpl. apply elem_of_cons.
Qed.

Lemma delete_perm w i p : w !! i = Some p -> p :: delete i w ≡ₚ w.
Proof. intros Hi. symmetry. by apply delete_Permutation. Qed.

Lemma delete_sorted w i : StronglySorted key_le w -> StronglySorted key_le (delete i w).
Proof.
  revert i. induction w as [|p w IH]; intros [|i] Hs; simpl; [done..| |];
    apply StronglySorted_inv in Hs as [Hs Hall]; [done|].
  constructor; [by apply IH | by apply Forall_delete].
Qed.

Lemma delete_ok w i p : whitelist_ok w -> w !! i = Some p -> whitelist_ok (delete i w).
Proof.
  intros [Hs Hk Hd] Hi. split.
  - by apply delete_sorted.
  - by apply Forall_delete.
  - pose proof (delete_perm w i p Hi) as Hp. rewrite <- Hp in Hd. simpl in Hd. by apply NoDup_cons in Hd as [_ ?].
Qed.

Lemma delete_names w i p : whitelist_ok w -> w !! i = Some p ->
  intrinsic_names (delete i w) = intrinsic_names w ∖ {[ p.2 ]}.
Proof.
  intros [_ _ Hd] Hi. pose proof (Permutation_map snd (delete_perm w i p Hi)) as Hp.
  apply set_eq. intros x. rewrite elem_of_difference, elem_of_singleton, !elem_names.
  assert (x ∈ w.*2 <-> x = p.2 \/ x ∈ (delete i w).*2) as -> by (rewrite <- elem_of_cons; by rewrite <- Hp).
  rewrite <- Hp in Hd. apply NoDup_cons in Hd as [Hn _]. destruct (decide (x = p.2)) as [->|]; tauto.
Qed.

(** ** The operations on the set of names *)

Lemma is_whitelisted_spec w n : whitelist_ok w ->
  is_intrinsic_whitelisted w n = bool_decide (n ∈ intrinsic_names w).
Proof.
  intros Hok. pose proof (find_intrinsic_spec w n Hok) as Hf.
  unfold is_intrinsic_whitelisted, find_intrinsic in *. symmetry.
  destruct (find_intrinsic_helper _ _ _ _) as [i|].
  - apply bool_decide_eq_true, elem_names, list_elem_of_fmap. eexists. split; [|by eapply list_elem_of_lookup_2]. done.
  - apply bool_decide_eq_false. by rewrite elem_names.
Qed.

Lemma add_intrinsic_spec w n : whitelist_ok w ->
  match add_intrinsic_to_whitelist w n with
  | Ok w' => n ∉ intrinsic_names w /\ whitelist_ok w' /\ intrinsic_names w' = {[ n ]} ∪ intrinsic_names w
  | Err _ => n ∈ intrinsic_names w
  end.
Proof.
  intros Hok. pose proof (find_intrinsic_spec w n Hok) as Hf. unfold add_intrinsic_to_whitelist.
  destruct (find_intrinsic _ _ _) as [i|].
  - apply elem_names, list_elem_of_fmap. eexists. split; [|by eapply list_elem_of_lookup_2]. done.
  - split_and!; [by rewrite elem_names | by apply whitelist_emplace_ok | apply whitelist_emplace_names].
Qed.

Lemma remove_intrinsic_spec w n : whitelist_ok w ->
  match remove_intrinsic_from_whitelist w n with
  | Ok w' => n ∈ intrinsic_names w /\ whitelist_ok w' /\ intrinsic_names w' = intrinsic_names w ∖ {[ n ]}
  | Err _ => n ∉ intrinsic_names w
  end.
Proof.
  intros Hok. pose proof (find_intrinsic_spec w n Hok) as Hf. unfold remove_intrinsic_from_whitelist.
  destruct (find_intrinsic _ _ _) as [i|].
  - split_and!; [|by eapply delete_ok | by rewrite (delete_names w i _ Hok Hf)].
    apply elem_names, list_elem_of_fmap. eexists. split; [|by eapply list_elem_of_lookup_2]. done.
  - by rewrite elem_names.
Qed.

Lemma reset_spec_from s w : whitelist_ok w -> NoDup s -> (forall n, n ∈ s -> n ∉ w.*2) ->
  let w' := foldl (fun w name => whitelist_emplace w (intrinsic_hash name) name) w s in
  whitelist_ok w' /\ intrinsic_names w' = list_to_set s ∪ intrinsic_names w.
Proof.
  revert w. induction s as [|n s IH]; intros w Hok Hd Hn; simpl; [split; [done | set_solver]|].
  apply NoDup_cons in Hd as [Hns Hd]. destruct (IH (whitelist_emplace w (intrinsic_hash n) n)) as [H1 H2]; [|done| |].
  - apply whitelist_emplace_ok; [done|]. apply Hn. by left.
  - intros m Hm. rewrite whitelist_emplace_perm. simpl. rewrite not_elem_of_cons. split; [by intros ->|].
    apply Hn. by right.
  - split; [done|]. simpl in H2. rewrite H2, whitelist_emplace_names. set_solver.
Qed.

Lemma reset_spec s : NoDup s ->
  whitelist_ok (reset_intrinsic_whitelist s) /\ intrinsic_names (reset_intrinsic_whitelist s) = list_to_set s.
Proof.
  intros Hd. destruct (reset_spec_from s []) as [H1 H2]; [|done| |].
  - split; constructor.
  - intros ? _. apply not_elem_of_nil.
  - split; [done|]. simpl in H2. unfold reset_intrinsic_whitelist. rewrite H2. unfold intrinsic_names. set_solver.
Qed.
End Whitelist.

(** ** Ordered sets of strings *)

Section StringSets.
Implicit Types (s : list string).

#[export] Instance string_lt_trans : Transitive string_lt.
Proof.
  intros x y z Hxy Hyz. apply (proj2 (String_as_OT.cmp_lt x z)), (String_as_OT.lt_trans x y z);
    by apply String_as_OT.cmp_lt.
Qed.

Lemma string_lt_irrefl x : ~ string_lt x x.
Proof. unfold string_lt. pose proof (proj2 (String_as_OT.cmp_eq x x) eq_refl). unfold String_as_OT.cmp in *. congruence. Qed.

Lemma string_compare_gt x y : String.compare x y = Gt -> string_lt y x.
Proof. intros H. unfold string_lt. rewrite String.compare_antisym, H. done. Qed.

Lemma set_emplace_elem x s y : y ∈ set_emplace x s <-> y = x \/ y ∈ s.
Proof.
  induction s as [|z s IH]; simpl; [by rewrite list_elem_of_singleton, elem_of_nil; tauto|].
  destruct (String.compare x z) eqn:E; rewrite ?elem_of_cons, ?IH.
  - apply String.compare_eq_iff in E as ->. tauto.
  - tauto.
  - tauto.
Qed.

Lemma set_emplace_sorted x s :
  StronglySorted string_lt s -> StronglySorted string_lt (set_emplace x s).
Proof.
  induction s as [|y s IH]; intros Hs; simpl; [repeat constructor|].
  destruct (String.compare x y) eqn:E; [done| |]; apply StronglySorted_inv in Hs as Hs'; destruct Hs' as [Hs1 Hall].
  - constructor; [done|]. constructor; [done|]. eapply Forall_impl; [exact Hall|]. intros z. by apply transitivity.
  - constructor; [by apply IH|]. rewrite Forall_forall in Hall |- *. intros z [->|Hz]%set_emplace_elem.
    + by apply string_compare_gt.
    + by apply Hall.
Qed.

Lemma convert_fold (w : whitelisted_intrinsics_type) s : StronglySorted string_lt s ->
  let s' := foldl (fun s (p : Z * string) => set_emplace p.2 s) s w in
  StronglySorted string_lt s' /\ forall n, n ∈ s' <-> n ∈ s \/ n ∈ w.*2.
Proof.
  revert s. induction w as [|p w IH]; intros s Hs; simpl; [split; [done|]; intros; rewrite elem_of_nil; tauto|].
  destruct (IH (set_emplace p.2 s)) as [H1 H2]; [by apply set_emplace_sorted|].
  split; [done|]. intros n. simpl in H2. rewrite H2, set_emplace_elem, elem_of_cons. tauto.
Qed.

Lemma sorted_nodup s : StronglySorted string_lt s -> NoDup s.
Proof.
  induction 1 as [|x s Hs IH Hall]; constructor; [|done].
  intros Hin. rewrite Forall_forall in Hall. by apply (string_lt_irrefl x), Hall.
Qed.

(** Two ordered listings of the same elements are the same. *)
Lemma sorted_set_unique s s' :
  StronglySorted string_lt s -> StronglySorted string_lt s' -> (forall x, x ∈ s <-> x ∈ s') -> s = s'.
Proof.
  intros Hs Hs' Heq.
  eapply (StronglySorted_unique_strong string_lt); [|done|done|apply NoDup_Permutation; auto using sorted_nodup].
  intros x y _ _ Hxy Hyx. exfalso. apply (string_lt_irrefl x). by transitivity y.
Qed.

Lemma convert_spec (w : whitelisted_intrinsics_type) :
  StronglySorted string_lt (convert_intrinsic_whitelist_to_set w) /\
  list_to_set (convert_intrinsic_whitelist_to_set w) = intrinsic_names w.
Proof.
  destruct (convert_fold w []) as [H1 H2]; [constructor|]. split; [done|].
  apply set_eq. intros x. rewrite elem_names, elem_of_list_to_set. unfold convert_intrinsic_whitelist_to_set.
  simpl in H2. rewrite H2, elem_of_nil. tauto.
Qed.

Lemma convert_reset `{StringHash} s : StronglySorted string_lt s ->
  convert_intrinsic_whitelist_to_set (reset_intrinsic_whitelist s) = s.
Proof.
  intros Hs. destruct (convert_spec (reset_intrinsic_whitelist s)) as [H1 H2].
  destruct (reset_spec s (sorted_nodup s Hs)) as [_ H3]. apply sorted_set_unique; [done|done|].
  intros x. rewrite H3 in H2. rewrite <- (elem_of_list_to_set (C := gset string)), H2. apply elem_of_list_to_set.
Qed.
End StringSets.

(** ** The intrinsics of the genesis state ([genesis_intrinsics.cpp]) *)

Definition genesis_intrinsics : list string :=
  ["__ashrti3"; "__lshlti3"; "__lshrti3"; "__ashlti3"; "__divti3"; "__udivti3"; "__modti3";
   "__umodti3"; "__multi3"; "__addtf3"; "__subtf3"; "__multf3"; "__divtf3"; "__eqtf2"; "__netf2";
   "__getf2"; "__gttf2"; "__lttf2"; "__letf2"; "__cmptf2"; "__unordtf2"; "__negtf2"; "__floatsitf";
   "__floatunsitf"; "__floatditf"; "__floatunditf"; "__floattidf"; "__floatuntidf"; "__floatsidf";
   "__extendsftf2"; "__extenddftf2"; "__fixtfti"; "__fixtfdi"; "__fixtfsi"; "__fixunstfti";
   "__fixunstfdi"; "__fixunstfsi"; "__fixsfti"; "__fixdfti"; "__fixunssfti"; "__fixunsdfti";
   "__trunctfdf2"; "__trunctfsf2"; "is_feature_active"; "activate_feature"; "get_resource_limits";
   "set_resource_limits"; "set_proposed_producers"; "get_blockchain_parameters_packed";
   "set_blockchain_parameters_packed"; "is_privileged"; "set_privileged"; "get_active_producers";
   "db_idx64_store"; "db_idx64_remove"; "db_idx64_update"; "db_idx64_find_primary";
   "db_idx64_find_secondary"; "db_idx64_lowerbound"; "db_idx64_upperbound"; "db_idx64_end";
   "db_idx64_next"; "db_idx64_previous"; "db_idx128_store"; "db_idx128_remove"; "db_idx128_update";
   "db_idx128_find_primary"; "db_idx128_find_secondary"; "db_idx128_lowerbound";
   "db_idx128_upperbound"; "db_idx128_end"; "db_idx128_next"; "db_idx128_previous";
   "db_idx256_store"; "db_idx256_remove"; "db_idx256_update"; "db_idx256_find_primary";
   "db_idx256_find_secondary"; "db_idx256_lowerbound"; "db_idx256_upperbound"; "db_idx256_end";
   "db_idx256_next"; "db_idx256_previous"; "db_idx_double_store"; "db_idx_double_remove";
   "db_idx_double_update"; "db_idx_double_find_primary"; "db_idx_double_find_secondary";
   "db_idx_double_lowerbound"; "db_idx_double_upperbound"; "db_idx_double_end";
   "db_idx_double_next"; "db_idx_double_previous"; "db_idx_long_double_store";
   "db_idx_long_double_remove"; "db_idx_long_double_update"; "db_idx_long_double_find_primary";
   "db_idx_long_double_find_secondary"; "db_idx_long_double_lowerbound";
   "db_idx_long_double_upperbound"; "db_idx_long_double_end"; "db_idx_long_double_next";
   "db_idx_long_double_previous"; "db_store_i64"; "db_update_i64"; "db_remove_i64"; "db_get_i64";
   "db_next_i64"; "db_previous_i64"; "db_find_i64"; "db_lowerbound_i64"; "db_upperbound_i64";
   "db_end_i64"; "assert_recover_key"; "recover_key"; "assert_sha256"; "assert_sha1";
   "assert_sha512"; "assert_ripemd160"; "sha1"; "sha256"; "sha512"; "ripemd160";
   "check_transaction_authorization"; "check_permission_authorization"; "get_permission_last_used";
   "get_account_creation_time"; "current_time"; "publication_time"; "abort"; "eosio_assert";
   "eosio_assert_message"; "eosio_assert_code"; "eosio_exit"; "read_action_data";
   "action_data_size"; "current_receiver"; "require_recipient"; "require_auth"; "require_auth2";
   "has_auth"; "is_account"; "prints"; "prints_l"; "printi"; "printui"; "printi128"; "printui128";
   "printsf"; "printdf"; "printqf"; "printn"; "printhex"; "read_transaction"; "transaction_size";
   "expiration"; "tapos_block_prefix"; "tapos_block_num"; "get_action"; "send_inline";
   "send_context_free_inline"; "send_deferred"; "cancel_deferred"; "get_context_free_data";
   "memcpy"; "memmove"; "memcmp"; "memset"].

Section GenesisIntrinsics.
Context `{StringHash}.

(** The loop of [initialize_database]. *)
Definition genesis_whitelist : result whitelisted_intrinsics_type :=
  mfold add_intrinsic_to_whitelist genesis_intrinsics [].

Lemma add_all_spec l w : whitelist_ok w -> NoDup l -> (forall n, n ∈ l -> n ∉ intrinsic_names w) ->
  exists w', mfold add_intrinsic_to_whitelist l w = Ok w' /\ whitelist_ok w' /\
    intrinsic_names w' = list_to_set l ∪ intrinsic_names w.
Proof.
  revert w. induction l as [|n l IH]; intros w Hok Hd Hn; simpl; [exists w; split_and!; [done..|set_solver]|].
  apply NoDup_cons in Hd as [Hnl Hd]. pose proof (add_intrinsic_spec w n Hok) as Ha.
  destruct (add_intrinsic_to_whitelist w n) as [w1|e]; [|by destruct (Hn n ltac:(by left))].
  destruct Ha as (_ & Hok1 & Hn1). destruct (IH w1) as (w' & Hrun & Hok' & Hn'); [done|done| |].
  - intros m Hm. rewrite Hn1, not_elem_of_union, not_elem_of_singleton. split; [by intros ->|].
    apply Hn. by right.
  - exists w'. split_and!; [exact Hrun | done |]. rewrite Hn', Hn1. set_solver.
Qed.

(** The genesis whitelist is built without a failure, whatever the hash. *)
Lemma genesis_whitelist_ok : exists w, genesis_whitelist = Ok w /\ whitelist_ok w /\
  intrinsic_names w = list_to_set genesis_intrinsics.
Proof.
  destruct (add_all_spec genesis_intrinsics []) as (w & H1 & H2 & H3).
  - split; constructor.
  - apply (bool_decide_unpack _). vm_cast_no_check I.
  - intros n _. apply not_elem_of_empty.
  - exists w. split_and!; [done|done|]. rewrite H3. apply union_empty_r_L.
Qed.
End GenesisIntrinsics.
