(* ===== verification/Hex.v ===== *)
(** * Hexadecimal text ([fc/src/crypto/hex.cpp], [fc/src/crypto/sha256.cpp])

    Bytes to hexadecimal digits and back, and the digests read from text. *)

From Stdlib Require Import ZArith Lia String Ascii.
From stdpp Require Import base numbers list strings.

From S2P Require Import Prelude Boost Merkle.
Local Open Scope Z_scope.
Local Open Scope list_scope.

Definition char_code (c : ascii) : Z := Z.of_N (N_of_ascii c).

(** [from_hex( char )] *)
Definition from_hex_char (c : ascii) : result Z :=
  let z := char_code c in
  if (z >=? char_code "0") && (z <=? char_code "9") then Ok (z - char_code "0")
  else if (z >=? char_code "a") && (z <=? char_code "f") then Ok (z - char_code "a" + 10)
  else if (z >=? char_code "A") && (z <=? char_code "F") then Ok (z - char_code "A" + 10)
  else Err "Invalid hex character".

Definition hex_digits : chars := list_ascii_of_string "0123456789abcdef".
Definition hex_digit (z : Z) : ascii := nth (Z.to_nat z) hex_digits "0"%char.

(** [to_hex( const char*, uint32_t )] *)
Fixpoint to_hex (d : list Z) : chars :=
  match d with
  | [] => []
  | c :: d => hex_digit (Z.shiftr c 4) :: hex_digit (Z.land c 0x0f) :: to_hex d
  end.

(** [from_hex( string, char*, size_t )]: the bytes written, at most [len]; an
    odd digit at the end is the high half of the last byte. *)
Fixpoint from_hex (hex_str : chars) (len : nat) : result (list Z) :=
  match len, hex_str with
  | O, _ | _, [] => Ok []
  | S len, [i] => h ← from_hex_char i; Ok [u8 (Z.shiftl h 4)]
  | S len, i :: j :: rest =>
    h ← from_hex_char i;
    l ← from_hex_char j;
    out ← from_hex rest len;
    Ok (Z.lor (u8 (Z.shiftl h 4)) l :: out)
  end.

(** Eight bytes of memory as a 64-bit word, and back (little endian). *)
Definition word_of_bytes (l : list Z) : Z := foldr (fun b acc => b + 256 * acc) 0 l.
Fixpoint bytes_of_word (n : nat) (z : Z) : list Z :=
  match n with O => [] | S n => z mod 256 :: bytes_of_word n (z / 256) end.

Definition digest_of_bytes (l : list Z) : digest :=
  mk_digest (word_of_bytes (take 8 l)) (word_of_bytes (take 8 (drop 8 l)))
    (word_of_bytes (take 8 (drop 16 l))) (word_of_bytes (take 8 (drop 24 l))).
Definition bytes_of_digest (d : digest) : list Z :=
  bytes_of_word 8 (hash0 d) ++ bytes_of_word 8 (hash1 d) ++
  bytes_of_word 8 (hash2 d) ++ bytes_of_word 8 (hash3 d).

(** [sha256( const string& )]: what the text does not give is zero. *)
Definition sha256_from_hex (hex_str : chars) : result digest :=
  bytes ← from_hex hex_str 32;
  Ok (digest_of_bytes (bytes ++ replicate (32 - length bytes) 0)).

(** [sha256::str] *)
Definition sha256_str (d : digest) : chars := to_hex (bytes_of_digest d).

(** ** Round trips *)

Definition is_byte (z : Z) : Prop := 0 <= z < 256.
Definition digest_wf (d : digest) : Prop :=
  is_u64 (hash0 d) /\ is_u64 (hash1 d) /\ is_u64 (hash2 d) /\ is_u64 (hash3 d).

Section HexTrip.

Lemma from_hex_digit z : 0 <= z < 16 -> from_hex_char (hex_digit z) = Ok z.
Proof.
  intros Hz. assert (z ∈ [0;1;2;3;4;5;6;7;8;9;10;11;12;13;14;15]) as Hin
    by (rewrite !elem_of_cons; lia).
  repeat (apply elem_of_cons in Hin as [->|Hin]; [reflexivity|]). by apply not_elem_of_nil in Hin.
Qed.

Lemma nibbles c : is_byte c -> Z.lor (u8 (Z.shiftl (Z.shiftr c 4) 4)) (Z.land c 0x0f) = c.
Proof.
  intros Hc. unfold is_byte in Hc. unfold u8. rewrite Z.mod_small.
  - rewrite <- Z.ldiff_ones_r by lia. change 0x0f with (Z.ones 4).
    apply Z.bits_inj'. intros n Hn. rewrite Z.lor_spec, Z.ldiff_spec, Z.land_spec.
    destruct (Z.testbit c n), (Z.testbit (Z.ones 4) n); reflexivity.
  - rewrite Z.shiftl_mul_pow2, Z.shiftr_div_pow2 by lia. change (2 ^ 4) with 16.
    pose proof (Z.div_mod c 16). pose proof (Z.mod_pos_bound c 16). lia.
Qed.

Lemma from_hex_to_hex d len : Forall is_byte d -> (length d <= len)%nat -> from_hex (to_hex d) len = Ok d.
Proof.
  revert len. induction d as [|c d IH]; intros [|len] Hb Hl; cbn [to_hex from_hex length] in *; [done|done|lia|].
  apply Forall_cons in Hb as [Hc Hb]. unfold is_byte in Hc.
  rewrite (from_hex_digit (Z.shiftr c 4)).
  2: { rewrite Z.shiftr_div_pow2 by lia. change (2 ^ 4) with 16.
       split; [apply Z.div_pos | apply Z.div_lt_upper_bound]; lia. }
  cbn [mbind result_bind]. rewrite from_hex_digit.
  2: { change 15 with (Z.ones 4). rewrite Z.land_ones by lia. apply Z.mod_pos_bound. lia. }
  cbn [mbind result_bind]. rewrite IH by (done || lia). cbn [mbind result_bind]. by rewrite nibbles.
Qed.

Lemma bytes_of_word_length n z : length (bytes_of_word n z) = n.
Proof. revert z. induction n; intros; simpl; auto. Qed.

Lemma bytes_of_word_bytes n z : Forall is_byte (bytes_of_word n z).
Proof.
  revert z. induction n as [|n IH]; intros z; simpl; constructor; [|apply IH].
  apply Z.mod_pos_bound. lia.
Qed.

Lemma word_bytes n z : 0 <= z < 256 ^ Z.of_nat n -> word_of_bytes (bytes_of_word n z) = z.
Proof.
  revert z. induction n as [|n IH]; intros z Hz; simpl; [change (256 ^ Z.of_nat 0) with 1 in Hz; lia|].
  rewrite IH; [pose proof (Z.div_mod z 256); lia|].
  rewrite Nat2Z.inj_succ, Z.pow_succ_r in Hz by lia.
  split; [apply Z.div_pos | apply Z.div_lt_upper_bound]; lia.
Qed.

Lemma digest_bytes d : digest_wf d -> digest_of_bytes (bytes_of_digest d) = d.
Proof.
  destruct d as [a b c e]. unfold digest_wf, digest_of_bytes, bytes_of_digest. cbn [hash0 hash1 hash2 hash3].
  intros (Ha & Hb & Hc & He). pose proof (fun z => bytes_of_word_length 8 z) as Hl.
  rewrite (take_app_length' _ _ 8), (drop_app_length' _ _ 8), (take_app_length' _ _ 8) by auto.
  rewrite (drop_app_ge _ _ 16), (drop_app_ge _ _ 24), !Hl by (rewrite Hl; lia). cbn [Nat.sub].
  rewrite (drop_app_length' _ _ 8), (take_app_length' _ _ 8), (drop_app_ge _ _ 16), !Hl by (rewrite ?Hl; lia).
  cbn [Nat.sub]. rewrite (drop_app_length' _ _ 8), (take_ge _ 8) by (rewrite ?Hl; lia).
  by rewrite !word_bytes.
Qed.

Lemma bytes_of_digest_length d : length (bytes_of_digest d) = 32%nat.
Proof. unfold bytes_of_digest. by rewrite !length_app, !bytes_of_word_length. Qed.

(** A digest printed in hexadecimal is read back. *)
Theorem sha256_roundtrip d : digest_wf d -> sha256_from_hex (sha256_str d) = Ok d.
Proof.
  intros Hd. unfold sha256_from_hex, sha256_str.
  rewrite from_hex_to_hex; [|unfold bytes_of_digest; rewrite !Forall_app; auto using bytes_of_word_bytes
                            |by rewrite bytes_of_digest_length].
  cbn [mbind result_bind]. rewrite bytes_of_digest_length. cbn [Nat.sub replicate].
  by rewrite app_nil_r, digest_bytes.
Qed.
End HexTrip.
