(* ===== verification/Raw.v ===== *)
(** * Serialisation ([fc/io/raw.hpp], [fc/io/varint.hpp], [fc/io/datastream.hpp],
    [fc/static_variant.hpp])

    Values as bytes.  A [codec] is the pair of [pack] and [unpack] of a type;
    codecs of compound types are built from those of their parts, the way the
    templates of the code are.  A codec is [lawful] for the values that fit its
    type: what was packed is unpacked, whatever follows, and of a packed value
    that is cut short nothing can be unpacked. *)

From Stdlib Require Import ZArith Lia Ascii String.
From stdpp Require Import base numbers strings list.
From S2P Require Import Prelude Boost Merkle Hex.
Local Open Scope Z_scope.

Abbreviation bytes := (list Z).

(** ** Reading from a stream

    [Ended]: the stream had fewer bytes than asked for; a [datastream] throws
    then, and so does a file stream that was told to.  [Thrown]: an assertion
    failed, with what was not yet read. *)
Inductive reading (A : Type) : Type :=
| Got (a : A) (rest : bytes)
| Ended
| Thrown (e : string) (rest : bytes).
Arguments Got {A} _ _.
Arguments Ended {A}.
Arguments Thrown {A} _ _.

Definition reader (A : Type) : Type := bytes -> reading A.
Definition rret {A} (a : A) : reader A := fun s => Got a s.
Definition rbind {A B} (r : reader A) (k : A -> reader B) : reader B := fun s =>
  match r s with Got a s => k a s | Ended => Ended | Thrown e s => Thrown e s end.
Notation "'let*' x := r 'in' k" := (rbind r (fun x => k)) (at level 200, x name, k at level 200).
Definition rassert (b : bool) (e : string) : reader unit := fun s => if b then Got tt s else Thrown e s.
(** [fc::reflect_init]: a check after the last field *)
Definition rcheck {A} (init : A -> result unit) (a : A) : reader A := fun s =>
  match init a with Ok _ => Got a s | Err e => Thrown e s end.

(** [s.read( d, n )] *)
Definition read_bytes (n : nat) : reader bytes := fun s =>
  if Nat.leb n (length s) then Got (take n s) (drop n s) else Ended.

(** [unpack<T>( const vector<char>& )] and what is thrown. *)
Definition unpack_vector {A} (r : reader A) (s : bytes) : result A :=
  match r s with Got a _ => Ok a | Ended => Err "out_of_range_exception" | Thrown e _ => Err e end.

Record codec (A : Type) := mk_codec { pack : A -> result bytes; unpack : reader A }.
Arguments mk_codec {A} _ _.
Arguments pack {A} _ _.
Arguments unpack {A} _.

(** ** Integers *)

(** An unsigned integer of [n] bytes, as it is in memory *)
Definition c_uint (n : nat) : codec Z :=
  mk_codec (fun z => Ok (bytes_of_word n z)) (let* b := read_bytes n in rret (word_of_bytes b)).
(** [int64_t]; a time in microseconds is one *)
Definition c_int64 : codec Z :=
  mk_codec (fun z => Ok (bytes_of_word 8 (u64 z))) (let* b := read_bytes 8 in rret (i64 (word_of_bytes b))).

(** [unsigned_int]: seven bits per byte, the lowest first; 5 bytes are enough
    for 32 bits. *)
Fixpoint pack_varint_loop (fuel : nat) (val : Z) : bytes :=
  match fuel with
  | O => []
  | S fuel =>
    let b := Z.land (u8 val) 0x7f in
    let val := Z.shiftr val 7 in
    Z.lor b (if val >? 0 then 0x80 else 0) :: (if val =? 0 then [] else pack_varint_loop fuel val)
  end.
Fixpoint unpack_varint_loop (by_ v : Z) (s : bytes) : reading Z :=
  match s with
  | [] => Ended
  | b :: s =>
    let v := Z.lor v (u32 (Z.shiftl (Z.land b 0x7f) by_)) in
    let by_ := u8 (by_ + 7) in
    if negb (Z.land b 0x80 =? 0) && (by_ <? 32) then unpack_varint_loop by_ v s else Got (u32 v) s
  end.
Definition c_varint : codec Z := mk_codec (fun z => Ok (pack_varint_loop 5 z)) (unpack_varint_loop 0 0).

(** [signed_int]: zigzag; nothing stops the loop of [unpack] but a byte
    without the mark, and from the sixth byte on its shift is undefined. *)
Definition zigzag (v : Z) : Z := u32 (Z.lxor (i32 (Z.shiftl v 1)) (Z.shiftr v 31)).
Definition unzigzag (v : Z) : Z := i32 (Z.lxor (Z.shiftr v 1) (u32 (UINT32_MAX - Z.land v 1) + 1)).
Fixpoint unpack_signed_loop (by_ v : Z) (s : bytes) : reading Z :=
  match s with
  | [] => Ended
  | b :: s =>
    if 32 <=? by_ then Thrown "undefined: shift by the width of the type" s else
    let v := Z.lor v (u32 (Z.shiftl (Z.land b 0x7f) by_)) in
    if negb (Z.land b 0x80 =? 0) then unpack_signed_loop (by_ + 7) v s else Got v s
  end.
Definition c_signed : codec Z :=
  mk_codec (fun z => Ok (pack_varint_loop 5 (zigzag z))) (let* v := unpack_signed_loop 0 0 in rret (unzigzag v)).

Definition c_bool : codec bool :=
  mk_codec (fun b => Ok [if b : bool then 1 else 0])
    (let* b := read_bytes 1 in
     let* _ := rassert (Z.land (word_of_bytes b) (Z.lnot 1) =? 0) "(b & ~1) == 0" in
     rret (negb (word_of_bytes b =? 0))).

(** ** Compound types *)

Section Codecs.
Context {A B : Type}.
Implicit Types (c : codec A) (d : codec B).

(** A fixed number of bytes *)
Definition c_array (n : nat) : codec bytes := mk_codec Ok (read_bytes n).

Definition c_pair c d : codec (A * B) :=
  mk_codec (fun p => x ← pack c p.1; y ← pack d p.2; Ok (x ++ y))
    (let* a := unpack c in let* b := unpack d in rret (a, b)).

(** Reflected types: the members one after the other *)
Definition c_iso (f : A -> B) (g : B -> A) c : codec B :=
  mk_codec (fun b => pack c (g b)) (let* a := unpack c in rret (f a)).
Definition c_init (init : A -> result unit) c : codec A :=
  mk_codec (pack c) (let* a := unpack c in rcheck init a).

(** [optional] *)
Definition c_option c : codec (option A) :=
  mk_codec (fun o => x ← pack c_bool (bool_decide (is_Some o));
                     match o with Some a => y ← pack c a; Ok (x ++ y) | None => Ok x end)
    (let* b := unpack c_bool in
     if b : bool then let* a := unpack c in rret (Some a) else rret None).

Definition MAX_NUM_ARRAY_ELEMENTS : Z := 1024 * 1024.
Definition MAX_SIZE_OF_BYTE_ARRAYS : Z := 20 * 1024 * 1024.

Fixpoint pack_all c (l : list A) : result bytes :=
  match l with
  | [] => Ok []
  | a :: l => x ← pack c a; y ← pack_all c l; Ok (x ++ y)
  end.
Fixpoint unpack_all c (n : nat) : reader (list A) :=
  match n with
  | O => rret []
  | S n => let* a := unpack c in let* l := unpack_all c n in rret (a :: l)
  end.
(** [vector<T>] *)
Definition c_vector c : codec (list A) :=
  mk_codec (fun l =>
      check (Z.of_nat (length l) <=? MAX_NUM_ARRAY_ELEMENTS) "value.size() <= MAX_NUM_ARRAY_ELEMENTS" ;;
      x ← pack c_varint (u32 (Z.of_nat (length l)));
      y ← pack_all c l;
      Ok (x ++ y))
    (let* size := unpack c_varint in
     let* _ := rassert (size <=? MAX_NUM_ARRAY_ELEMENTS) "size.value <= MAX_NUM_ARRAY_ELEMENTS" in
     unpack_all c (Z.to_nat size)).

(** [static_variant<A, B>] *)
Definition c_variant c d : codec (A + B) :=
  mk_codec (fun v =>
      match v with
      | inl a => x ← pack c_varint 0; y ← pack c a; Ok (x ++ y)
      | inr b => x ← pack c_varint 1; y ← pack d b; Ok (x ++ y)
      end)
    (let* w := unpack c_varint in
     let* _ := rassert (w <? 2) "w < count()" in
     if w =? 0 then let* a := unpack c in rret (inl a) else let* b := unpack d in rret (inr b)).
End Codecs.

(** [vector<char>] *)
Definition c_bytes : codec bytes :=
  mk_codec (fun l =>
      check (Z.of_nat (length l) <=? MAX_SIZE_OF_BYTE_ARRAYS) "value.size() <= MAX_SIZE_OF_BYTE_ARRAYS" ;;
      x ← pack c_varint (u32 (Z.of_nat (length l)));
      Ok (x ++ l))
    (let* size := unpack c_varint in
     let* _ := rassert (size <=? MAX_SIZE_OF_BYTE_ARRAYS) "size.value <= MAX_SIZE_OF_BYTE_ARRAYS" in
     read_bytes (Z.to_nat size)).
(** [fc::string], and bytes that are kept as characters *)
Definition c_chars : codec chars :=
  c_iso (map (fun b => ascii_of_N (Z.to_N b))) (map chr) c_bytes.

(** [sha256]: its 32 bytes *)
Definition c_digest : codec digest := c_iso digest_of_bytes bytes_of_digest (c_array 32).

(** ** Laws *)

(** [r] takes [bs] off the stream and gives [a], and ends on less. *)
Definition reads_back {A} (r : reader A) (bs : bytes) (a : A) : Prop :=
  (forall rest, r (bs ++ rest) = Got a rest) /\ (forall p q, bs = p ++ q -> q <> [] -> r p = Ended).

Definition lawful {A} (c : codec A) (fits : A -> Prop) : Prop :=
  forall a bs, fits a -> pack c a = Ok bs -> reads_back (unpack c) bs a.

Lemma reads_ret {A} (a : A) : reads_back (rret a) [] a.
Proof. split; [done|]. intros p q E Hq. symmetry in E. by apply app_eq_nil in E as [_ ->]. Qed.

Section Reads.
Context {A B : Type}.
Implicit Types (r : reader A) (k : A -> reader B).

Lemma prefix_cases (xs ys p q : bytes) : xs ++ ys = p ++ q -> q <> [] ->
  (exists q', xs = p ++ q' /\ q' <> []) \/ (exists p', p = xs ++ p' /\ ys = p' ++ q).
Proof.
  intros E Hq. apply app_eq_inv in E as [(l & -> & ->)|(l & -> & ->)].
  - destruct l as [|z l]; [right; exists []; by rewrite !app_nil_r|]. left. by exists (z :: l).
  - right. by exists l.
Qed.

Lemma reads_bind r k xs ys a b : reads_back r xs a -> reads_back (k a) ys b -> reads_back (rbind r k) (xs ++ ys) b.
Proof.
  intros [G1 E1] [G2 E2]. split.
  - intros rest. unfold rbind. by rewrite <- app_assoc, G1.
  - intros p q E Hq. unfold rbind. destruct (prefix_cases _ _ _ _ E Hq) as [(q' & -> & Hq')|(p' & -> & Ey)].
    + by rewrite (E1 p q').
    + rewrite G1. by apply (E2 p' q).
Qed.
(** The last step may consume nothing. *)
Lemma reads_bind_nil r k xs a b : reads_back r xs a -> reads_back (k a) [] b -> reads_back (rbind r k) xs b.
Proof. intros H1 H2. rewrite <- (app_nil_r xs). by eapply reads_bind. Qed.
Lemma reads_bind_first r k ys a b : reads_back r [] a -> reads_back (k a) ys b -> reads_back (rbind r k) ys b.
Proof. intros H1 H2. change ys with ([] ++ ys). by eapply reads_bind. Qed.

Lemma reads_assert (c : bool) e : c = true -> reads_back (rassert c e) [] tt.
Proof. intros ->. exact (reads_ret tt). Qed.
Lemma reads_check init (a : A) : init a = Ok tt -> reads_back (rcheck init a) [] a.
Proof. intros E. split; [intros rest; unfold rcheck; by rewrite E|]. intros p q E' Hq. symmetry in E'. by apply app_eq_nil in E' as [_ ->]. Qed.

Lemma reads_bytes n bs : length bs = n -> reads_back (read_bytes n) bs bs.
Proof.
  intros <-. unfold read_bytes. split.
  - intros rest. rewrite length_app. replace (Nat.leb _ _) with true by (symmetry; apply Nat.leb_le; lia).
    by rewrite take_app_length, drop_app_length.
  - intros p q -> Hq. rewrite length_app. destruct q; [done|]. replace (Nat.leb _ _) with false; [done|].
    symmetry. apply Nat.leb_gt. cbn. lia.
Qed.
End Reads.

Section Integers.
Lemma c_uint_lawful n : lawful (c_uint n) (fun z => 0 <= z < 256 ^ Z.of_nat n).
Proof.
  intros z bs Hz [= <-]. apply reads_bind_nil with (bytes_of_word n z); [apply reads_bytes, bytes_of_word_length|].
  rewrite word_bytes by done. apply reads_ret.
Qed.

Lemma c_int64_lawful : lawful c_int64 is_i64.
Proof.
  intros z bs Hz [= <-]. apply reads_bind_nil with (bytes_of_word 8 (u64 z)); [apply reads_bytes, bytes_of_word_length|].
  rewrite word_bytes by (pose proof (u64_range z); mach_lia).
  replace (i64 (u64 z)) with z; [apply reads_ret|]. rewrite <- (i64_small z) at 1 by done. apply i64_ext. unfold u64. by rewrite Z.mod_mod.
Qed.

(** The byte that is written for the lowest seven bits. *)
Lemma varint_byte val : 0 <= val ->
  let b := Z.lor (Z.land (u8 val) 0x7f) (if Z.shiftr val 7 >? 0 then 0x80 else 0) in
  Z.land b 0x7f = val mod 128 /\ (Z.land b 0x80 =? 0) = (val / 128 =? 0) /\ Z.shiftr val 7 = val / 128.
Proof.
  intros Hv. cbn zeta. rewrite Z.shiftr_div_pow2 by lia. change (2 ^ 7) with 128.
  assert (E : Z.land (u8 val) 0x7f = val mod 128).
  { change 0x7f with (Z.ones 7). rewrite Z.land_ones by lia. unfold u8. change (2 ^ 8) with (2 ^ 7 * 2). rewrite Z.rem_mul_r by lia.
    rewrite (Z.mul_comm (2 ^ 7)), Z.mod_add, Z.mod_mod by lia. done. }
  rewrite E. pose proof (Z.mod_pos_bound val 128 ltac:(lia)) as M.
  assert (L : forall x, 0 <= x < 128 -> Z.land x 0x7f = x /\ Z.land x 0x80 = 0).
  { intros x Hx. change 0x7f with (Z.ones 7). rewrite Z.land_ones, Z.mod_small by lia. split; [done|].
    apply Z.bits_inj'. intros i Hi. rewrite Z.land_spec, Z.bits_0. change 0x80 with (2 ^ 7). rewrite Z.pow2_bits_eqb by lia.
    destruct (Z.eqb_spec 7 i) as [<-|]; [|apply andb_false_r]. rewrite <- (Z.mod_small x (2 ^ 7)) by lia. by rewrite Z.mod_pow2_bits_high by lia. }
  destruct (L _ M) as [L1 L2]. assert (0 <= val / 128) by (apply Z.div_pos; lia).
  destruct (Z.gtb_spec (val / 128) 0) as [G|G]; rewrite !Z.land_lor_distr_l, L1, L2.
  - change (Z.land 0x80 0x7f) with 0. rewrite Z.lor_0_r. split; [done|]. change (Z.lor 0 (Z.land 128 128)) with 128.
    split; [|done]. symmetry. apply Z.eqb_neq. lia.
  - change (Z.land 0 0x7f) with 0. rewrite !Z.lor_0_r. split; [done|]. split; [|done]. symmetry. apply Z.eqb_eq. lia.
Qed.

(** One step of the loops: what is read so far is [v], below [2 ^ by_]. *)
Definition varint_step (L : Z -> Z -> reader Z) : Prop :=
  (forall by_ v, L by_ v [] = Ended) /\
  forall by_ v val b rest, 0 <= by_ < 32 -> 0 <= v < 2 ^ by_ -> 0 <= val -> v + val * 2 ^ by_ < 2 ^ 32 ->
  b = Z.lor (Z.land (u8 val) 0x7f) (if Z.shiftr val 7 >? 0 then 0x80 else 0) ->
  L by_ v (b :: rest) =
    if val / 128 =? 0 then Got (v + val * 2 ^ by_) rest else L (by_ + 7) (v + val mod 128 * 2 ^ by_) rest.

Lemma varint_room by_ val : 0 <= by_ -> 0 <= val -> val / 128 <> 0 -> val * 2 ^ by_ < 2 ^ 32 -> by_ + 7 < 32.
Proof.
  intros Hb Hv E Hs. destruct (Z.lt_ge_cases (by_ + 7) 32) as [|Hc]; [done|exfalso].
  assert (2 ^ 32 <= 2 ^ (by_ + 7)) by (apply Z.pow_le_mono_r; lia). rewrite Z.pow_add_r in * by lia. change (2 ^ 7) with 128 in *.
  assert (0 <= val / 128) by (apply Z.div_pos; lia). pose proof (Z.div_mod val 128 ltac:(lia)). pose proof (Z.mod_pos_bound val 128 ltac:(lia)).
  assert (0 < 2 ^ by_) by (apply Z.pow_pos_nonneg; lia). nia.
Qed.

Lemma varint_added by_ v val : 0 <= by_ -> 0 <= v < 2 ^ by_ -> 0 <= val -> v + val * 2 ^ by_ < 2 ^ 32 ->
  Z.lor v (u32 (Z.shiftl (val mod 128) by_)) = v + val mod 128 * 2 ^ by_ /\ v + val mod 128 * 2 ^ by_ < 2 ^ 32.
Proof.
  intros Hb Hv Hval Hs. pose proof (Z.mod_pos_bound val 128 ltac:(lia)) as M. pose proof (Z.mod_le val 128 ltac:(lia) ltac:(lia)).
  assert (P : 0 < 2 ^ by_) by (apply Z.pow_pos_nonneg; lia). assert (val mod 128 * 2 ^ by_ <= val * 2 ^ by_) by nia.
  rewrite u32_small by (rewrite Z.shiftl_mul_pow2 by lia; split; nia). rewrite lor_above by lia. lia.
Qed.

Lemma unsigned_step : varint_step unpack_varint_loop.
Proof.
  split; [done|]. intros by_ v val b rest Hb Hv Hval Hs ->. cbn [unpack_varint_loop]. destruct (varint_byte val Hval) as (-> & -> & _).
  destruct (varint_added by_ v val) as [-> B]; [lia..|]. unfold u8. rewrite (Z.mod_small (by_ + 7)) by lia.
  destruct (Z.eqb_spec (val / 128) 0) as [E|E]; cbn [negb andb].
  - apply Z.div_small_iff in E as [E|E]; [|lia|lia]. rewrite (Z.mod_small val) in * by lia. by rewrite u32_small by (split; nia).
  - replace (by_ + 7 <? 32) with true; [done|]. symmetry. apply Z.ltb_lt, (varint_room by_ val); lia.
Qed.
Lemma signed_step : varint_step unpack_signed_loop.
Proof.
  split; [done|]. intros by_ v val b rest Hb Hv Hval Hs ->. cbn [unpack_signed_loop]. destruct (varint_byte val Hval) as (-> & -> & _).
  replace (32 <=? by_) with false by lia. destruct (varint_added by_ v val) as [-> B]; [lia..|].
  destruct (Z.eqb_spec (val / 128) 0) as [E|E]; cbn [negb]; [|done].
  apply Z.div_small_iff in E as [E|E]; [|lia|lia]. by rewrite (Z.mod_small val) by lia.
Qed.

Lemma varint_reads L fuel by_ v val : varint_step L -> 0 <= by_ < 32 -> 0 <= v < 2 ^ by_ -> 0 <= val < 128 ^ Z.of_nat fuel -> (0 < fuel)%nat ->
  v + val * 2 ^ by_ < 2 ^ 32 -> reads_back (L by_ v) (pack_varint_loop fuel val) (v + val * 2 ^ by_).
Proof.
  intros [L0 St]. revert by_ v val. induction fuel as [|fuel IH]; intros by_ v val Hb Hv Hval Hf Hs; [lia|]. cbn [pack_varint_loop].
  set (b := Z.lor _ _). destruct (varint_byte val ltac:(lia)) as (_ & _ & Esh). rewrite Esh.
  specialize (St by_ v val b). rewrite Nat2Z.inj_succ, Z.pow_succ_r in Hval by lia.
  destruct (Z.eqb_spec (val / 128) 0) as [E|E].
  - split; [intros rest; cbn [app]; by rewrite St by (done || lia)|].
    intros [|x p] q Eq Hq; [done|]. injection Eq as _ Eq. symmetry in Eq. by apply app_eq_nil in Eq as [_ ->].
  - assert (0 <= val / 128) by (apply Z.div_pos; lia). pose proof (Z.div_mod val 128 ltac:(lia)) as D.
    pose proof (Z.mod_pos_bound val 128 ltac:(lia)) as M. assert (P : 0 < 2 ^ by_) by (apply Z.pow_pos_nonneg; lia).
    assert (P7 : 2 ^ (by_ + 7) = 128 * 2 ^ by_) by (rewrite Z.pow_add_r by lia; change (2 ^ 7) with 128; lia).
    pose proof (varint_room by_ val ltac:(lia) ltac:(lia) E ltac:(lia)) as Hby.
    assert (Hlt : val / 128 < 128 ^ Z.of_nat fuel) by (apply Z.div_lt_upper_bound; lia).
    assert (Hf' : (0 < fuel)%nat) by (destruct fuel; [cbn in Hlt; lia|lia]).
    destruct (IH (by_ + 7) (v + val mod 128 * 2 ^ by_) (val / 128)) as [G N]; [lia|rewrite P7; nia|lia|done|rewrite P7; nia|].
    split; [intros rest; cbn [app]; rewrite St, G by (done || lia); f_equal; rewrite P7; nia|].
    intros [|x p] q Eq Hq; [done|]. injection Eq as <- Eq. rewrite St by (done || lia). by apply (N p q).
Qed.

(** An [unsigned_int] is read back. *)
Lemma c_varint_lawful : lawful c_varint is_u32.
Proof.
  intros z bs Hz E. unfold c_varint, pack, unpack in *. apply (proj1 (Ok_inj _ _)) in E as <-. pose proof (varint_reads _ 5 0 0 z unsigned_step) as R. rewrite Z.add_0_l, Z.mul_1_r in R.
  apply R; [lia|done|mach_lia|lia|mach_lia].
Qed.

Lemma lxor_ones x n : 0 <= n -> 0 <= x < 2 ^ n -> Z.lxor x (2 ^ n - 1) = 2 ^ n - 1 - x.
Proof.
  intros Hn Hx. replace (2 ^ n - 1) with (Z.ones n) by (rewrite Z.ones_equiv; lia). set (y := Z.lxor x (Z.ones n)).
  enough (x + y = Z.ones n) by lia. rewrite Z.add_nocarry_lxor; [unfold y; by rewrite <- Z.lxor_assoc, Z.lxor_nilpotent, Z.lxor_0_l|].
  unfold y. apply Z.bits_inj'. intros i Hi. rewrite Z.land_spec, Z.lxor_spec, Z.bits_0. destruct (Z.lt_ge_cases i n) as [Hl|Hl].
  - rewrite Z.ones_spec_low by lia. by destruct (Z.testbit x i).
  - rewrite <- (Z.mod_small x (2 ^ n)) by lia. by rewrite Z.mod_pow2_bits_high by lia.
Qed.

Lemma zigzag_value v : is_i32 v -> zigzag v = (if v <? 0 then - 2 * v - 1 else 2 * v).
Proof.
  intros Hv. unfold zigzag. rewrite Z.shiftl_mul_pow2, Z.shiftr_div_pow2 by lia. change (2 ^ 1) with 2.
  assert (exists k, i32 (v * 2) = v * 2 + k * 2 ^ 32) as [k ->].
  { exists (- ((v * 2 + 2 ^ 31) / 2 ^ 32)). unfold i32. pose proof (Z.div_mod (v * 2 + 2 ^ 31) (2 ^ 32)). lia. }
  destruct (Z.ltb_spec v 0) as [N|N].
  - replace (v / 2 ^ 31) with (-1) by (apply (Z.div_unique_pos v (2 ^ 31) (-1) (v + 2 ^ 31)); mach_lia).
    rewrite Z.lxor_m1_r. unfold Z.lnot, u32. replace (Z.pred (- (v * 2 + k * 2 ^ 32))) with (- 2 * v - 1 + - k * 2 ^ 32) by lia.
    rewrite Z.mod_add, Z.mod_small by mach_lia. lia.
  - rewrite (Z.div_small v) by mach_lia. rewrite Z.lxor_0_r. unfold u32. rewrite Z.mod_add, Z.mod_small by mach_lia. lia.
Qed.
Lemma unzigzag_zigzag v : is_i32 v -> unzigzag (zigzag v) = v.
Proof.
  intros Hv. rewrite zigzag_value by done. unfold unzigzag. rewrite Z.shiftr_div_pow2 by lia. change (2 ^ 1) with 2.
  assert (Eo : forall x, Z.land x 1 = x mod 2) by (intros x; apply (Z.land_ones x 1); lia). rewrite Eo. destruct (Z.ltb_spec v 0) as [N|N].
  - replace (-2 * v - 1) with (1 + (- v - 1) * 2) by lia. rewrite Z.div_add, Z.mod_add by lia. change (1 / 2) with 0. change (1 mod 2) with 1.
    change (u32 (UINT32_MAX - 1) + 1) with (2 ^ 32 - 1). rewrite lxor_ones by mach_lia. unfold i32.
    replace (2 ^ 32 - 1 - (0 + (- v - 1)) + 2 ^ 31) with (v + 2 ^ 31 + 1 * 2 ^ 32) by lia. rewrite Z.mod_add, Z.mod_small by mach_lia. lia.
  - replace (2 * v) with (0 + v * 2) by lia. rewrite Z.div_add, Z.mod_add by lia. change (0 / 2) with 0. change (0 mod 2) with 0.
    change (u32 (UINT32_MAX - 0) + 1) with (Z.shiftl 1 32). rewrite <- Z.add_nocarry_lxor.
    + rewrite Z.shiftl_mul_pow2 by lia. unfold i32. replace (0 + v + 1 * 2 ^ 32 + 2 ^ 31) with (v + 2 ^ 31 + 1 * 2 ^ 32) by lia.
      rewrite Z.mod_add, Z.mod_small by mach_lia. lia.
    + rewrite <- (Z.mod_small (0 + v) (2 ^ 32)) by mach_lia. apply Z.bits_inj'. intros i Hi.
      rewrite Z.land_spec, Z.bits_0, Z.shiftl_spec by lia. destruct (Z.lt_ge_cases i 32).
      * by rewrite (Z.testbit_neg_r 1), andb_false_r by lia.
      * by rewrite Z.mod_pow2_bits_high by lia.
Qed.

(** A [signed_int] is read back. *)
Lemma c_signed_lawful : lawful c_signed is_i32.
Proof.
  intros z bs Hz E. unfold c_signed, pack, unpack in *. apply (proj1 (Ok_inj _ _)) in E as <-.
  assert (R : 0 <= zigzag z < 2 ^ 32) by apply u32_range. eapply reads_bind_nil with (a := zigzag z).
  - pose proof (varint_reads _ 5 0 0 (zigzag z) signed_step) as V. rewrite Z.add_0_l, Z.mul_1_r in V. apply V; lia.
  - rewrite unzigzag_zigzag by done. apply reads_ret.
Qed.

Lemma c_bool_lawful : lawful c_bool (fun _ => True).
Proof.
  intros b bs _ [= <-]. apply reads_bind_nil with [if b then 1 else 0]; [by apply reads_bytes|].
  apply reads_bind_nil with tt; [apply reads_assert; by destruct b|]. destruct b; apply reads_ret.
Qed.
End Integers.

Section Compound.
Context {A B : Type} (c : codec A) (d : codec B) (P : A -> Prop) (Q : B -> Prop).
Hypothesis Hc : lawful c P.
Hypothesis Hd : lawful d Q.

Lemma c_pair_lawful : lawful (c_pair c d) (fun p => P p.1 /\ Q p.2).
Proof.
  intros [a b] bs [Pa Qb] E. cbn [c_pair pack unpack fst snd] in *. ok_bind E as x Hx. ok_bind E as y Hy. apply (proj1 (Ok_inj _ _)) in E as <-.
  eapply reads_bind; [by apply Hc|]. eapply reads_bind_nil; [by apply Hd|]. apply reads_ret.
Qed.

Lemma c_iso_lawful (f : A -> B) (g : B -> A) (R : B -> Prop) :
  (forall b, R b -> P (g b) /\ f (g b) = b) -> lawful (c_iso f g c) R.
Proof.
  intros Hi b bs Rb E. destruct (Hi b Rb) as [Pg Eg]. eapply reads_bind_nil; [by apply Hc|]. rewrite Eg. apply reads_ret.
Qed.

Lemma c_init_lawful (init : A -> result unit) : lawful (c_init init c) (fun a => P a /\ init a = Ok tt).
Proof. intros a bs [Pa Ha] E. eapply reads_bind_nil; [by apply Hc|]. by apply reads_check. Qed.

Lemma c_option_lawful : lawful (c_option c) (fun o => forall a, o = Some a -> P a).
Proof.
  intros o bs Po E. cbn [c_option pack unpack] in *. destruct o as [a|]; cbn [c_bool pack mbind result_bind] in E.
  - ok_bind E as y Hy. apply (proj1 (Ok_inj _ _)) in E as <-.
    eapply reads_bind; [by apply (c_bool_lawful true)|]. cbn beta iota. eapply reads_bind_nil; [by apply Hc, Hy; apply Po|]. apply reads_ret.
  - apply (proj1 (Ok_inj _ _)) in E as <-. eapply reads_bind_nil; [by apply (c_bool_lawful false)|]. apply reads_ret.
Qed.

Lemma unpack_all_reads l bs : Forall P l -> pack_all c l = Ok bs -> reads_back (unpack_all c (length l)) bs l.
Proof.
  intros Pl. revert bs. induction Pl as [|a l Pa _ IH]; intros bs E; cbn [pack_all unpack_all length] in *.
  - apply (proj1 (Ok_inj _ _)) in E as <-. apply reads_ret.
  - ok_bind E as x Hx. ok_bind E as y Hy. apply (proj1 (Ok_inj _ _)) in E as <-.
    eapply reads_bind; [by apply Hc|]. eapply reads_bind_nil; [by apply IH|]. apply reads_ret.
Qed.

Lemma c_vector_lawful : lawful (c_vector c) (Forall P).
Proof.
  intros l bs Pl E. cbn [c_vector pack unpack] in *. ok_bind E as [] C. apply (proj1 (check_ok _ _ _)) in C. ok_bind E as x Hx. ok_bind E as y Hy.
  apply (proj1 (Ok_inj _ _)) in E as <-. apply Z.leb_le in C. unfold MAX_NUM_ARRAY_ELEMENTS in C. assert (is_u32 (Z.of_nat (length l))) by mach_lia.
  rewrite u32_small in Hx by done. eapply reads_bind; [by apply c_varint_lawful|].
  eapply reads_bind_first; [by apply reads_assert, Z.leb_le|]. rewrite Nat2Z.id. by apply unpack_all_reads.
Qed.

Lemma c_variant_lawful : lawful (c_variant c d) (fun v => match v with inl a => P a | inr b => Q b end).
Proof.
  intros [a|b] bs Pv E; cbn [c_variant pack unpack] in *; ok_bind E as x Hx; ok_bind E as y Hy; apply (proj1 (Ok_inj _ _)) in E as <-.
  - eapply reads_bind; [apply (c_varint_lawful 0); [mach_lia|done]|]. eapply reads_bind_first; [by apply reads_assert|].
    eapply reads_bind_nil; [by apply Hc|]. apply reads_ret.
  - eapply reads_bind; [apply (c_varint_lawful 1); [mach_lia|done]|]. eapply reads_bind_first; [by apply reads_assert|].
    eapply reads_bind_nil; [by apply Hd|]. apply reads_ret.
Qed.

Lemma c_array_lawful n : lawful (c_array n) (fun l => length l = n).
Proof. intros l bs Hl [= <-]. by apply reads_bytes. Qed.

Lemma c_bytes_lawful : lawful c_bytes (fun _ => True).
Proof.
  intros l bs _ E. cbn [c_bytes pack unpack] in *. ok_bind E as [] C. apply (proj1 (check_ok _ _ _)) in C. ok_bind E as x Hx.
  apply (proj1 (Ok_inj _ _)) in E as <-. apply Z.leb_le in C. unfold MAX_SIZE_OF_BYTE_ARRAYS in C. assert (is_u32 (Z.of_nat (length l))) by mach_lia.
  rewrite u32_small in Hx by done. eapply reads_bind; [by apply c_varint_lawful|].
  eapply reads_bind_first; [by apply reads_assert, Z.leb_le|]. rewrite Nat2Z.id. by apply reads_bytes.
Qed.
End Compound.

Section Texts.
Lemma c_chars_lawful : lawful c_chars (fun _ => True).
Proof.
  apply (c_iso_lawful _ _ c_bytes_lawful). intros s _. split; [done|]. rewrite map_map. rewrite <- (map_id s) at 2. apply map_ext. intros c.
  unfold chr. by rewrite N2Z.id, ascii_N_embedding.
Qed.
Lemma c_digest_lawful : lawful c_digest digest_wf.
Proof. apply (c_iso_lawful _ _ (c_array_lawful 32)). intros d Hd. split; [apply bytes_of_digest_length|by apply digest_bytes]. Qed.
End Texts.

Create HintDb raw.
#[export] Hint Resolve c_uint_lawful c_int64_lawful c_varint_lawful c_signed_lawful c_bool_lawful c_bytes_lawful : raw.
#[export] Hint Resolve c_chars_lawful c_digest_lawful c_array_lawful : raw.
#[export] Hint Resolve c_pair_lawful c_option_lawful c_vector_lawful c_variant_lawful c_init_lawful : raw.

(** What is packed into a vector is unpacked from it. *)
Lemma unpack_vector_pack {A} (c : codec A) (P : A -> Prop) a bs : lawful c P -> P a -> pack c a = Ok bs ->
  unpack_vector (unpack c) bs = Ok a.
Proof. intros Hc Pa E. unfold unpack_vector. pose proof (proj1 (Hc a bs Pa E) []) as G. by rewrite app_nil_r in G; rewrite G. Qed.
