(* ===== verification/ProtocolFeatures.v ===== *)
(** * Protocol features ([protocol_feature_manager.hpp],
    [protocol_feature_manager.cpp])

    The builtin features, the set of features a node recognizes, and the
    manager that records which of them are active from which block on.  The
    manager keeps the activations twice: as a vector in the order of
    activation, and as a list threaded through a vector indexed by feature. *)

From Stdlib Require Import ZArith Lia String Ascii.
From stdpp Require Import base numbers gmap strings countable list.
From S2P Require Import Prelude Boost Merkle BlockHeader Hex.
Local Open Scope Z_scope.
Local Open Scope list_scope.

Inductive protocol_feature_t := builtin.

Inductive builtin_protocol_feature_t :=
| preactivate_feature | only_link_to_existing_permission | replace_deferred
| no_duplicate_deferred_id | fix_linkauth_restriction | disallow_empty_producer_schedule
| restrict_action_to_self | only_bill_first_authorizer | forward_setcode | get_sender
| ram_restrictions.

(** [static_cast<uint32_t>] of the enumerators. *)
Definition feature_index (f : builtin_protocol_feature_t) : nat :=
  match f with
  | preactivate_feature => 0 | only_link_to_existing_permission => 1 | replace_deferred => 2
  | no_duplicate_deferred_id => 3 | fix_linkauth_restriction => 4
  | disallow_empty_producer_schedule => 5 | restrict_action_to_self => 6
  | only_bill_first_authorizer => 7 | forward_setcode => 8 | get_sender => 9
  | ram_restrictions => 10
  end.

#[global] Instance builtin_feature_eq_dec : EqDecision builtin_protocol_feature_t.
Proof. solve_decision. Defined.
Definition all_features : list builtin_protocol_feature_t :=
  [preactivate_feature; only_link_to_existing_permission; replace_deferred; no_duplicate_deferred_id;
   fix_linkauth_restriction; disallow_empty_producer_schedule; restrict_action_to_self;
   only_bill_first_authorizer; forward_setcode; get_sender; ram_restrictions].
#[global] Instance builtin_feature_countable : Countable builtin_protocol_feature_t :=
  inj_countable feature_index (fun i => all_features !! i)
    ltac:(by intros []).

Record protocol_feature_subjective_restrictions := mk_restrictions {
  earliest_allowed_activation_time : Z; preactivation_required : bool; enabled : bool }.

Record builtin_protocol_feature_spec := mk_spec {
  codename : string; spec_description_digest : digest;
  builtin_dependencies : gset builtin_protocol_feature_t;
  spec_restrictions : protocol_feature_subjective_restrictions }.

(** The default of [builtin_protocol_feature_spec::subjective_restrictions]. *)
Definition default_restrictions := mk_restrictions 0 true true.

Definition digest_literal (s : string) : digest :=
  from_ok digest_zero (sha256_from_hex (list_ascii_of_string s)).

Definition builtin_protocol_feature_codenames
    : list (builtin_protocol_feature_t * builtin_protocol_feature_spec) :=
  [(preactivate_feature, mk_spec "PREACTIVATE_FEATURE"
      (digest_literal "64fe7df32e9b86be2b296b3f81dfd527f84e82b98e363bc97e40bc7a83733310")
      ∅ (mk_restrictions 0 false true));
   (only_link_to_existing_permission, mk_spec "ONLY_LINK_TO_EXISTING_PERMISSION"
      (digest_literal "f3c3d91c4603cde2397268bfed4e662465293aab10cd9416db0d442b8cec2949")
      ∅ default_restrictions);
   (replace_deferred, mk_spec "REPLACE_DEFERRED"
      (digest_literal "9908b3f8413c8474ab2a6be149d3f4f6d0421d37886033f27d4759c47a26d944")
      ∅ default_restrictions);
   (no_duplicate_deferred_id, mk_spec "NO_DUPLICATE_DEFERRED_ID"
      (digest_literal "45967387ee92da70171efd9fefd1ca8061b5efe6f124d269cd2468b47f1575a0")
      {[ replace_deferred ]} default_restrictions);
   (fix_linkauth_restriction, mk_spec "FIX_LINKAUTH_RESTRICTION"
      (digest_literal "a98241c83511dc86c857221b9372b4aa7cea3aaebc567a48604e1d3db3557050")
      ∅ default_restrictions);
   (disallow_empty_producer_schedule, mk_spec "DISALLOW_EMPTY_PRODUCER_SCHEDULE"
      (digest_literal "2853617cec3eabd41881eb48882e6fc5e81a0db917d375057864b3befbe29acd")
      ∅ default_restrictions);
   (restrict_action_to_self, mk_spec "RESTRICT_ACTION_TO_SELF"
      (digest_literal "e71b6712188391994c78d8c722c1d42c477cf091e5601b5cf1befd05721a57f3")
      ∅ default_restrictions);
   (only_bill_first_authorizer, mk_spec "ONLY_BILL_FIRST_AUTHORIZER"
      (digest_literal "2f1f13e291c79da5a2bbad259ed7c1f2d34f697ea460b14b565ac33b063b73e2")
      ∅ default_restrictions);
   (forward_setcode, mk_spec "FORWARD_SETCODE"
      (digest_literal "898082c59f921d0042e581f00a59d5ceb8be6f1d9c7a45b6f07c0e26eaee0222")
      ∅ default_restrictions);
   (get_sender, mk_spec "GET_SENDER"
      (digest_literal "1eab748b95a2e6f4d7cb42065bdee5566af8efddf01a55a0a8d831b823f8828a")
      ∅ default_restrictions);
   (ram_restrictions, mk_spec "RAM_RESTRICTIONS"
      (digest_literal "1812fdb5096fd854a4958eb9d53b43219d114de0e858ce00255bd46569ad2c68")
      ∅ default_restrictions)].

Fixpoint find_codename (f : builtin_protocol_feature_t)
    (l : list (builtin_protocol_feature_t * builtin_protocol_feature_spec))
    : option builtin_protocol_feature_spec :=
  match l with
  | [] => None
  | (g, s) :: l => if bool_decide (g = f) then Some s else find_codename f l
  end.
Definition builtin_spec (f : builtin_protocol_feature_t) : option builtin_protocol_feature_spec :=
  find_codename f builtin_protocol_feature_codenames.

Definition builtin_protocol_feature_codename (f : builtin_protocol_feature_t) : result string :=
  s ← of_option (builtin_spec f) "Unsupported builtin_protocol_feature_t";
  Ok (codename s).

(** ** Features *)

Definition feature_type_string : string := "builtin".

(** [builtin_protocol_feature] with its base class. *)
Record builtin_protocol_feature := mk_builtin {
  protocol_feature_type : string; bf_description_digest : digest; bf_dependencies : gset digest;
  bf_restrictions : protocol_feature_subjective_restrictions; bf_type : protocol_feature_t;
  builtin_feature_codename : string; _codename : builtin_protocol_feature_t }.

(** The constructors of [protocol_feature_base] and [builtin_protocol_feature]. *)
Definition make_builtin_feature (c : builtin_protocol_feature_t) (description_digest : digest)
    (dependencies : gset digest) (restrictions : protocol_feature_subjective_restrictions)
    : result builtin_protocol_feature :=
  s ← of_option (builtin_spec c) "Unsupported builtin_protocol_feature_t passed to constructor";
  Ok (mk_builtin feature_type_string description_digest dependencies restrictions builtin (codename s) c).

(** [protocol_feature_base::reflector_init] *)
Definition base_reflector_init (f : builtin_protocol_feature) : result builtin_protocol_feature :=
  if String.eqb (protocol_feature_type f) feature_type_string then
    Ok (mk_builtin (protocol_feature_type f) (bf_description_digest f) (bf_dependencies f)
          (bf_restrictions f) builtin (builtin_feature_codename f) (_codename f))
  else Err "Unsupported protocol feature type".

Fixpoint codename_of_string (s : string)
    (l : list (builtin_protocol_feature_t * builtin_protocol_feature_spec))
    : option builtin_protocol_feature_t :=
  match l with
  | [] => None
  | (g, sp) :: l => if String.eqb s (codename sp) then Some g else codename_of_string s l
  end.

(** [builtin_protocol_feature::reflector_init], run after unpacking. *)
Definition builtin_reflector_init (f : builtin_protocol_feature) : result builtin_protocol_feature :=
  f ← base_reflector_init f;
  c ← of_option (codename_of_string (builtin_feature_codename f) builtin_protocol_feature_codenames)
        "Unsupported builtin protocol feature codename";
  Ok (mk_builtin (protocol_feature_type f) (bf_description_digest f) (bf_dependencies f)
        (bf_restrictions f) (bf_type f) (builtin_feature_codename f) c).

(** The hash of the packed fields. *)
Class FeatureHash :=
  feature_hash : protocol_feature_t -> digest -> gset digest -> builtin_protocol_feature_t -> digest.

(** [builtin_protocol_feature::digest] *)
Definition feature_digest_of `{FeatureHash} (f : builtin_protocol_feature) : digest :=
  feature_hash (bf_type f) (bf_description_digest f) (bf_dependencies f) (_codename f).

Record protocol_feature := mk_feature {
  feature_digest : digest; pf_description_digest : digest; pf_dependencies : gset digest;
  pf_earliest : Z; pf_preactivation_required : bool; pf_enabled : bool;
  builtin_feature : option builtin_protocol_feature_t }.

(** ** The set of recognized features

    [std::set<protocol_feature>] ordered by digest; an iterator into it is the
    digest it points at, [None] the end. *)

Record protocol_feature_set := mk_pfs {
  _recognized_protocol_features : gmap digest protocol_feature;
  _recognized_builtin_protocol_features : list (option digest) }.

Definition pfs_empty : protocol_feature_set := mk_pfs ∅ [].

Inductive recognized_t := unrecognized | disabled | too_early | ready.
#[global] Instance recognized_eq_dec : EqDecision recognized_t.
Proof. solve_decision. Defined.

Section FeatureSet.
Implicit Types (s : protocol_feature_set) (d : digest).

Definition is_recognized s d (now : Z) : recognized_t :=
  match _recognized_protocol_features s !! d with
  | None => unrecognized
  | Some f =>
    if negb (pf_enabled f) then disabled
    else if pf_earliest f >? now then too_early
    else ready
  end.

Definition get_builtin_digest s (f : builtin_protocol_feature_t) : option digest :=
  match _recognized_builtin_protocol_features s !! feature_index f with
  | None | Some None => None
  | Some (Some d) => feature_digest <$> _recognized_protocol_features s !! d
  end.

Definition get_protocol_feature s d : result protocol_feature :=
  of_option (_recognized_protocol_features s !! d) "unrecognized protocol feature".

Definition validate_dependencies s d (validator : digest -> bool) : bool :=
  match _recognized_protocol_features s !! d with
  | None => false
  | Some f => forallb validator (elements (pf_dependencies f))
  end.

(** [handle_dependency] may throw. *)
Definition make_default_builtin_protocol_feature (c : builtin_protocol_feature_t)
    (handle_dependency : builtin_protocol_feature_t -> result digest) : result builtin_protocol_feature :=
  sp ← of_option (builtin_spec c) "Unsupported builtin_protocol_feature_t";
  dependencies ← mfold (fun ds f => d ← handle_dependency f; Ok ({[ d ]} ∪ ds))
                   (elements (builtin_dependencies sp)) ∅;
  make_builtin_feature c (spec_description_digest sp) dependencies (spec_restrictions sp).

(** The builtin dependencies that the recognized dependencies satisfy. *)
Definition satisfied_dependencies s (expected : gset builtin_protocol_feature_t) (deps : gset digest)
    : result (gset builtin_protocol_feature_t) :=
  mfold (fun sat d =>
      f ← of_option (_recognized_protocol_features s !! d)
            "builtin protocol feature has a dependency on a protocol feature that is not recognized";
      match builtin_feature f with
      | Some b => Ok (if bool_decide (b ∈ expected) then {[ b ]} ∪ sat else sat)
      | None => Ok sat
      end) (elements deps) ∅.

Definition add_feature `{FeatureHash} (f : builtin_protocol_feature) s
    : result (protocol_feature * protocol_feature_set) :=
  sp ← of_option (builtin_spec (_codename f))
         "Builtin protocol feature has unsupported builtin_protocol_feature_t";
  let indx := feature_index (_codename f) in
  check (match _recognized_builtin_protocol_features s !! indx with
         | Some (Some _) => false
         | _ => true
         end) "builtin protocol feature already added" ;;
  let d := feature_digest_of f in
  let expected := builtin_dependencies sp in
  satisfied ← satisfied_dependencies s expected (bf_dependencies f);
  (if Nat.ltb (size satisfied) (size expected) then
     mfold (fun _ b => of_option (builtin_spec b) "Unexpected error" ;; Ok tt)
       (elements (expected ∖ satisfied)) tt ;;
     Err "Not all the builtin dependencies of the builtin protocol feature were satisfied"
   else Ok tt) ;;
  let pf := mk_feature d (bf_description_digest f) (bf_dependencies f)
              (earliest_allowed_activation_time (bf_restrictions f))
              (preactivation_required (bf_restrictions f)) (enabled (bf_restrictions f))
              (Some (_codename f)) in
  check (match _recognized_protocol_features s !! d with None => true | Some _ => false end)
    "another protocol feature with the same digest has already been added" ;;
  let l := _recognized_builtin_protocol_features s in
  let l := l ++ replicate (S indx - length l) None in
  Ok (pf, mk_pfs (<[d := pf]> (_recognized_protocol_features s)) (<[indx := Some d]> l)).
End FeatureSet.

(** ** The manager *)

Definition no_previous : Z := UINT64_MAX.
Definition not_active : Z := UINT32_MAX.
Definition end_index : Z := UINT64_MAX.

Record protocol_feature_entry := mk_entry {
  iterator_to_protocol_feature : digest; activation_block_num : Z }.
Record builtin_protocol_feature_entry := mk_bentry { previous : Z; b_activation_block_num : Z }.
Definition default_entry : builtin_protocol_feature_entry := mk_bentry no_previous not_active.

Record protocol_feature_manager := mk_pfm {
  _protocol_feature_set : protocol_feature_set;
  _activated_protocol_features : list protocol_feature_entry;
  _builtin_protocol_features : list builtin_protocol_feature_entry;
  _head_of_builtin_activation_list : Z;
  _initialized : bool }.

(** The constructor. *)
Definition make_manager (pfs : protocol_feature_set) : protocol_feature_manager :=
  mk_pfm pfs [] (replicate (length (_recognized_builtin_protocol_features pfs)) default_entry)
    no_previous false.

Section Manager.
Implicit Types (m : protocol_feature_manager).

Definition set_initialized (b : bool) m : protocol_feature_manager :=
  mk_pfm (_protocol_feature_set m) (_activated_protocol_features m) (_builtin_protocol_features m)
    (_head_of_builtin_activation_list m) b.

Definition is_builtin_activated m (f : builtin_protocol_feature_t) (current_block_num : Z) : bool :=
  match _builtin_protocol_features m !! feature_index f with
  | None => false
  | Some e => b_activation_block_num e <=? current_block_num
  end.

(** [activate_feature] throws before it changes anything. *)
Definition activate_feature (d : digest) (current_block_num : Z) m : result protocol_feature_manager :=
  check (_initialized m) "protocol_feature_manager is not yet initialized" ;;
  f ← of_option (_recognized_protocol_features (_protocol_feature_set m) !! d)
        "unrecognized protocol feature digest";
  (match last (_activated_protocol_features m) with
   | None => Ok tt
   | Some e => check (activation_block_num e <=? current_block_num)
       "last protocol feature activation block num is larger than the current block num"
   end) ;;
  b ← of_option (builtin_feature f)
        "invariant failure: encountered non-builtin protocol feature which is not yet supported";
  let indx := feature_index b in
  e ← of_option (_builtin_protocol_features m !! indx)
        "invariant failure while trying to activate feature: unsupported builtin_protocol_feature_t";
  check (b_activation_block_num e =? not_active) "cannot activate already activated builtin feature" ;;
  Ok (mk_pfm (_protocol_feature_set m)
        (_activated_protocol_features m ++ [mk_entry d current_block_num])
        (<[indx := mk_bentry (_head_of_builtin_activation_list m) current_block_num]>
           (_builtin_protocol_features m))
        (Z.of_nat indx) (_initialized m)).

(** The first loop of [popped_blocks_to], on the threaded list. *)
Fixpoint pop_builtins (fuel : nat) (block_num : Z) (bs : list builtin_protocol_feature_entry) (head : Z)
    : result (list builtin_protocol_feature_entry * Z) :=
  if head =? no_previous then Ok (bs, head)
  else
    e ← of_option (bs !! Z.to_nat head) "vector index out of range";
    if b_activation_block_num e <=? block_num then Ok (bs, head)
    else match fuel with
         | O => Err "out of fuel"
         | S fuel => pop_builtins fuel block_num (<[Z.to_nat head := default_entry]> bs) (previous e)
         end.

(** The second loop, on the vector read from its back. *)
Fixpoint pop_entries (block_num : Z) (rev_l : list protocol_feature_entry) : list protocol_feature_entry :=
  match rev_l with
  | [] => []
  | e :: l => if block_num <? activation_block_num e then pop_entries block_num l else rev_l
  end.

Definition popped_blocks_to (block_num : Z) m : result protocol_feature_manager :=
  check (_initialized m) "protocol_feature_manager is not yet initialized" ;;
  '(bs, head) ← pop_builtins (length (_builtin_protocol_features m)) block_num
                  (_builtin_protocol_features m) (_head_of_builtin_activation_list m);
  Ok (mk_pfm (_protocol_feature_set m)
        (reverse (pop_entries block_num (reverse (_activated_protocol_features m)))) bs head
        (_initialized m)).

(** [init]: the features recorded in the database are activated; a failure
    resets the flag, not the features activated before it. *)
Fixpoint activate_all (l : list (digest * Z)) m : protocol_feature_manager * result unit :=
  match l with
  | [] => (m, Ok tt)
  | (d, n) :: l =>
    match activate_feature d n m with
    | Ok m => activate_all l m
    | Err e => (m, Err e)
    end
  end.
Definition init (activated : list (digest * Z)) m : protocol_feature_manager * result unit :=
  if _initialized m then (m, Err "cannot initialize protocol_feature_manager twice")
  else
    match activate_all activated (set_initialized true m) with
    | (m, Ok u) => (m, Ok u)
    | (m, Err e) => (set_initialized false m, Err e)
    end.

(** ** Iterators over the activated features *)

Record const_iterator := mk_iter { _pfm : bool; _index : Z }.
Definition singular_iterator : const_iterator := mk_iter false 0.
Definition cend : const_iterator := mk_iter true end_index.

Definition cbegin m : const_iterator :=
  if Nat.eqb (length (_activated_protocol_features m)) 0 then cend else mk_iter true 0.

Definition activation_ordinal (it : const_iterator) : result Z :=
  check (_pfm it) "called activation_ordinal() on singular iterator" ;;
  check (negb (_index it =? end_index)) "called activation_ordinal() on end iterator" ;;
  Ok (u32 (_index it)).

Definition activation_block_num_at m (it : const_iterator) : result Z :=
  check (_pfm it) "called activation_block_num() on singular iterator" ;;
  check (negb (_index it =? end_index)) "called activation_block_num() on end iterator" ;;
  e ← of_option (_activated_protocol_features m !! Z.to_nat (_index it)) "vector index out of range";
  Ok (activation_block_num e).

(** [get_pointer] *)
Definition iter_deref m (it : const_iterator) : option protocol_feature :=
  e ← _activated_protocol_features m !! Z.to_nat (_index it);
  _recognized_protocol_features (_protocol_feature_set m) !! iterator_to_protocol_feature e.

Definition iter_next m (it : const_iterator) : result const_iterator :=
  check (_pfm it) "cannot increment singular iterator" ;;
  check (negb (_index it =? end_index)) "cannot increment end iterator" ;;
  let i := u64 (_index it + 1) in
  Ok (mk_iter true (if i >=? Z.of_nat (length (_activated_protocol_features m)) then end_index else i)).

Definition iter_prev m (it : const_iterator) : result const_iterator :=
  check (_pfm it) "cannot decrement singular iterator" ;;
  if _index it =? end_index then
    check (Nat.ltb 0 (length (_activated_protocol_features m)))
      "cannot decrement end iterator when no protocol features have been activated" ;;
    Ok (mk_iter true (Z.of_nat (length (_activated_protocol_features m)) - 1))
  else
    check (_index it >? 0)
      "cannot decrement iterator at the beginning of protocol feature activation list" ;;
    Ok (mk_iter true (_index it - 1)).

Definition at_position m (i : nat) : const_iterator :=
  if Nat.leb (length (_activated_protocol_features m)) i then cend else mk_iter true (Z.of_nat i).

Definition at_activation_ordinal m (ordinal : Z) : const_iterator := at_position m (Z.to_nat ordinal).

(** [std::lower_bound] and [std::upper_bound] on a vector that the comparison
    partitions: the length of the part for which it holds. *)
Fixpoint partition_point {A} (p : A -> bool) (l : list A) : nat :=
  match l with
  | [] => 0
  | a :: l => if p a then S (partition_point p l) else 0
  end.

Definition pfm_lower_bound m (block_num : Z) : const_iterator :=
  at_position m (partition_point (fun e => activation_block_num e <? block_num)
                   (_activated_protocol_features m)).
Definition pfm_upper_bound m (block_num : Z) : const_iterator :=
  at_position m (partition_point (fun e => negb (block_num <? activation_block_num e))
                   (_activated_protocol_features m)).
End Manager.
