(* ===== verification/ProtocolFeaturesSpec.v ===== *)
(** * What the protocol feature manager promises

    The recognized features are closed under their dependencies, which have no
    cycle.  The manager implements the list of activations in their order:
    activating appends to it, popping blocks cuts it back to the blocks that
    are left, and a feature is active where the list says so. *)

From Stdlib Require Import ZArith Lia String Ascii.
From stdpp Require Import base numbers gmap strings countable sorting list.
From S2P Require Import Prelude Boost Merkle BlockHeader Hex ProtocolFeatures.
Local Open Scope Z_scope.
Local Open Scope list_scope.

#[global] Instance feature_index_inj : Inj (=) (=) feature_index.
Proof. by intros [] []. Qed.

Lemma builtin_spec_total f : is_Some (builtin_spec f).
Proof. destruct f; eexists; reflexivity. Qed.

Section SetSpec.
Implicit Types (s : protocol_feature_set) (d : digest) (f : protocol_feature).

(** The builtin feature behind a digest. *)
Definition codename_of s d : option builtin_protocol_feature_t :=
  _recognized_protocol_features s !! d ≫= builtin_feature.

(** Every dependency of a feature stands before it. *)
Definition dependency_order s (order : list digest) : Prop :=
  NoDup order /\
  (forall d, d ∈ order <-> is_Some (_recognized_protocol_features s !! d)) /\
  (forall before d after f, order = before ++ d :: after -> _recognized_protocol_features s !! d = Some f ->
     forall d', d' ∈ pf_dependencies f -> d' ∈ before).

Record pfs_ok s : Prop := {
  pfs_keys : forall d f, _recognized_protocol_features s !! d = Some f ->
    feature_digest f = d /\
    exists b, builtin_feature f = Some b /\
      _recognized_builtin_protocol_features s !! feature_index b = Some (Some d);
  pfs_builtins : forall i d, _recognized_builtin_protocol_features s !! i = Some (Some d) ->
    exists f b, _recognized_protocol_features s !! d = Some f /\ builtin_feature f = Some b /\ feature_index b = i;
  pfs_dependencies : forall d f b sp, _recognized_protocol_features s !! d = Some f ->
    builtin_feature f = Some b -> builtin_spec b = Some sp ->
    forall b', b' ∈ builtin_dependencies sp ->
      exists d', d' ∈ pf_dependencies f /\ codename_of s d' = Some b';
  pfs_order : exists order, dependency_order s order }.

Lemma pfs_empty_ok : pfs_ok pfs_empty.
Proof.
  split; simpl.
  - intros d f. by rewrite lookup_empty.
  - intros i d. by rewrite lookup_nil.
  - intros d f. by rewrite lookup_empty.
  - exists []. split_and!; [constructor| |by intros []].
    intros d. split; [by intros ?%not_elem_of_nil | intros [? H]; cbn in H; by rewrite lookup_empty in H].
Qed.

Lemma codename_inj s d1 d2 b : pfs_ok s -> codename_of s d1 = Some b -> codename_of s d2 = Some b -> d1 = d2.
Proof.
  intros Hok (f1 & H1 & Hb1)%bind_Some (f2 & H2 & Hb2)%bind_Some.
  destruct (pfs_keys s Hok d1 f1 H1) as (_ & b1 & E1 & L1).
  destruct (pfs_keys s Hok d2 f2 H2) as (_ & b2 & E2 & L2). congruence.
Qed.

(** What the loop over the dependencies collects. *)
Lemma satisfied_spec s expected deps sat :
  satisfied_dependencies s expected deps = Ok sat ->
  sat ⊆ expected /\
  (forall d, d ∈ deps -> is_Some (_recognized_protocol_features s !! d)) /\
  (forall b, b ∈ sat -> exists d, d ∈ deps /\ codename_of s d = Some b).
Proof.
  unfold satisfied_dependencies. intros H.
  assert ((sat ⊆ expected /\ forall b, b ∈ sat -> exists d, d ∈ deps /\ codename_of s d = Some b) /\
          forall d, d ∈ elements deps -> is_Some (_recognized_protocol_features s !! d)) as [[H1 H2] H3].
  2: { split_and!; [done| |done]. intros d Hd. apply H3. by apply elem_of_elements. }
  revert H. apply (mfold_each
    (fun sat => sat ⊆ expected /\ forall b, b ∈ sat -> exists d, d ∈ deps /\ codename_of s d = Some b)
    (fun d _ => is_Some (_recognized_protocol_features s !! d))); [|done|set_solver].
  intros s1 d s2 Hd%elem_of_elements [HP1 HP2] Hf. ok_bind Hf as f Hfd. apply of_option_ok in Hfd.
  split; [|by eexists]. destruct (builtin_feature f) as [b|] eqn:Eb; apply (proj1 (Ok_inj _ _)) in Hf as <-; [|done].
  destruct (bool_decide (b ∈ expected)) eqn:E; [|done]. apply bool_decide_eq_true in E.
  split; [set_solver|]. intros b' [->%elem_of_singleton|Hb']%elem_of_union; [|by apply HP2].
  exists d. split; [done|]. unfold codename_of. by rewrite Hfd.
Qed.

Lemma satisfied_all (sat expected : gset builtin_protocol_feature_t) :
  sat ⊆ expected -> Nat.ltb (size sat) (size expected) = false -> sat = expected.
Proof.
  intros Hsub Hlt%Nat.ltb_ge. apply set_eq. intros x. split; [by apply Hsub|]. intros Hx.
  destruct (decide (x ∈ sat)) as [|Hn]; [done|]. exfalso.
  assert (size ({[ x ]} ∪ sat) <= size expected)%nat as Hs by (apply subseteq_size; set_solver).
  rewrite size_union, size_singleton in Hs by set_solver. lia.
Qed.

(** The vector of builtins is extended as far as needed. *)
Lemma builtins_insert (l : list (option digest)) i d j :
  (<[i := Some d]> (l ++ replicate (S i - length l) None)) !! j = Some (Some d) /\ i = j \/
  i <> j /\ forall d', (<[i := Some d]> (l ++ replicate (S i - length l) None)) !! j = Some (Some d') <->
              l !! j = Some (Some d').
Proof.
  assert (i < length (l ++ replicate (S i - length l) None))%nat as Hlen
    by (rewrite length_app, length_replicate; lia).
  destruct (decide (i = j)) as [->|Hne]; [left; by rewrite list_lookup_insert_eq|].
  right. split; [done|]. intros d'. rewrite list_lookup_insert_ne by done.
  rewrite lookup_app. destruct (l !! j) as [o|] eqn:E; [done|].
  split; [|done]. intros H%lookup_replicate. by destruct H.
Qed.

Context `{FeatureHash}.

(** The parts of a successful [add_feature]. *)
Lemma add_feature_inv bf s pf s' : add_feature bf s = Ok (pf, s') ->
  exists sp, builtin_spec (_codename bf) = Some sp /\
    (forall d, _recognized_builtin_protocol_features s !! feature_index (_codename bf) <> Some (Some d)) /\
    (forall d, d ∈ bf_dependencies bf -> is_Some (_recognized_protocol_features s !! d)) /\
    (forall b, b ∈ builtin_dependencies sp -> exists d, d ∈ bf_dependencies bf /\ codename_of s d = Some b) /\
    _recognized_protocol_features s !! feature_digest_of bf = None /\
    feature_digest pf = feature_digest_of bf /\ pf_dependencies pf = bf_dependencies bf /\
    builtin_feature pf = Some (_codename bf) /\
    _recognized_protocol_features s' = <[feature_digest_of bf := pf]> (_recognized_protocol_features s) /\
    _recognized_builtin_protocol_features s' =
      <[feature_index (_codename bf) := Some (feature_digest_of bf)]>
        (_recognized_builtin_protocol_features s ++
         replicate (S (feature_index (_codename bf)) - length (_recognized_builtin_protocol_features s)) None).
Proof.
  unfold add_feature. intros Ha. ok_bind Ha as sp Hsp. ok_bind Ha as u Hnew. ok_bind Ha as sat Hsat.
  ok_bind Ha as u2 Hall. ok_bind Ha as u3 Hfresh. apply (proj1 (Ok_inj _ _)) in Ha as [= <- <-].
  apply of_option_ok in Hsp. ok_inv. apply satisfied_spec in Hsat as (Hsub & Hrec & Hsat).
  exists sp. split; [done|]. split.
  { intros d Hd. by rewrite Hd in Hnew. }
  split; [done|]. split.
  { destruct (Nat.ltb (size sat) (size (builtin_dependencies sp))) eqn:E; [by ok_inv|].
    rewrite <- (satisfied_all sat _ Hsub E). done. }
  split; [by destruct (_recognized_protocol_features s !! feature_digest_of bf)|]. done.
Qed.

Lemma codename_mono bf s pf s' d b : add_feature bf s = Ok (pf, s') ->
  codename_of s d = Some b -> codename_of s' d = Some b.
Proof.
  intros (sp & _ & _ & _ & _ & Hnone & _ & _ & _ & Hr & _)%add_feature_inv (f & Hf & Hb)%bind_Some.
  unfold codename_of. rewrite Hr, lookup_insert_ne by congruence. by rewrite Hf.
Qed.

Lemma add_feature_order bf s pf s' order :
  add_feature bf s = Ok (pf, s') -> dependency_order s order ->
  dependency_order s' (order ++ [feature_digest_of bf]).
Proof.
  intros (sp & _ & _ & Hrec & _ & Hnone & _ & Hdep & _ & Hr & _)%add_feature_inv (Hnd & Helem & Hbefore).
  assert (feature_digest_of bf ∉ order) as Hnew by (rewrite Helem, Hnone; by intros [? ?]).
  split_and!.
  - apply NoDup_app. split_and!; [done | | apply NoDup_singleton].
    intros x Hx ->%list_elem_of_singleton. done.
  - intros d. rewrite elem_of_app, list_elem_of_singleton, Hr, Helem.
    destruct (decide (d = feature_digest_of bf)) as [->|Hne].
    + rewrite lookup_insert_eq. split; [by eexists | by right].
    + rewrite lookup_insert_ne by congruence. tauto.
  - intros before d after f Hsplit Hf d' Hd'. rewrite Hr in Hf.
    destruct after as [|x after _] using rev_ind.
    + apply app_inj_tail in Hsplit as [<- <-]. rewrite lookup_insert_eq in Hf. injection Hf as <-.
      rewrite Hdep in Hd'. by apply Helem, Hrec.
    + rewrite app_comm_cons, app_assoc in Hsplit. apply app_inj_tail in Hsplit as [-> <-].
      rewrite lookup_insert_ne in Hf; [by eapply Hbefore|].
      intros <-. apply Hnew, elem_of_app. right. by left.
Qed.

(** Adding a feature keeps the set in order. *)
Lemma add_feature_ok bf s pf s' : pfs_ok s -> add_feature bf s = Ok (pf, s') -> pfs_ok s'.
Proof.
  intros [Hk Hb Hd [order Ho]] Ha. pose proof (add_feature_inv _ _ _ _ Ha)
    as (sp & Hsp & Hnew & Hrec & Hdeps & Hnone & Hfd & Hpd & Hpb & Hr & Hl). split.
  - intros d f Hf. rewrite Hr in Hf. apply lookup_insert_Some in Hf as [[<- <-]|[Hne Hf]].
    + split; [done|]. exists (_codename bf). split; [done|]. rewrite Hl.
      destruct (builtins_insert (_recognized_builtin_protocol_features s) (feature_index (_codename bf))
        (feature_digest_of bf) (feature_index (_codename bf))) as [[? _]|[? _]]; done.
    + destruct (Hk d f Hf) as (? & b & Hfb & Hlb). split; [done|]. exists b. split; [done|]. rewrite Hl.
      destruct (builtins_insert (_recognized_builtin_protocol_features s) (feature_index (_codename bf))
        (feature_digest_of bf) (feature_index b)) as [[_ Heq]|[_ Hi]]; [|by apply Hi].
      rewrite <- Heq in Hlb. by apply Hnew in Hlb.
  - intros i d Hi. rewrite Hl in Hi. rewrite Hr.
    destruct (builtins_insert (_recognized_builtin_protocol_features s) (feature_index (_codename bf))
        (feature_digest_of bf) i) as [[He <-]|[Hne Hiff]].
    + rewrite He in Hi. injection Hi as <-. rewrite lookup_insert_eq. eauto.
    + apply Hiff, Hb in Hi as (f & b & Hf & Hfb & <-). rewrite lookup_insert_ne by congruence. eauto.
  - intros d f b sp' Hf Hfb Hsp' b' Hb'. rewrite Hr in Hf. apply lookup_insert_Some in Hf as [[<- <-]|[Hne Hf]].
    + rewrite Hpb in Hfb. injection Hfb as <-. rewrite Hsp in Hsp'. injection Hsp' as <-.
      destruct (Hdeps b' Hb') as (d' & H1 & H2). exists d'. rewrite Hpd. eauto using codename_mono.
    + destruct (Hd d f b sp' Hf Hfb Hsp' b' Hb') as (d' & H1 & H2). eauto using codename_mono.
  - eexists. eapply add_feature_order; eassumption.
Qed.
End SetSpec.

(** ** The manager implements a list of activations *)

Abbreviation activations := (list (digest * Z)).

Section ManagerSpec.
Implicit Types (s : protocol_feature_set) (d : digest) (acts : activations) (m : protocol_feature_manager).

Definition slots s : nat := length (_recognized_builtin_protocol_features s).
Definition slot_of s (a : digest * Z) : option nat := feature_index <$> codename_of s a.1.

(** The threaded list after the activations. *)
Definition thread s (st : list builtin_protocol_feature_entry * Z) (a : digest * Z)
    : list builtin_protocol_feature_entry * Z :=
  match slot_of s a with
  | Some i => (<[i := mk_bentry st.2 a.2]> st.1, Z.of_nat i)
  | None => st
  end.
Definition threaded s acts : list builtin_protocol_feature_entry * Z :=
  foldl (thread s) (replicate (slots s) default_entry, no_previous) acts.

Definition manager_of s acts : protocol_feature_manager :=
  mk_pfm s ((fun a => mk_entry a.1 a.2) <$> acts) (threaded s acts).1 (threaded s acts).2 true.

Record acts_ok s acts : Prop := {
  acts_known : Forall (fun a => exists i, slot_of s a = Some i) acts;
  acts_distinct : NoDup acts.*1;
  acts_sorted : StronglySorted (fun a b => a.2 <= b.2) acts;
  acts_nums : Forall (fun a => 0 <= a.2 < not_active) acts }.

(** The abstract operations. *)
Definition spec_activate s d (n : Z) acts : option activations :=
  if bool_decide (is_Some (_recognized_protocol_features s !! d)) &&
     bool_decide (d ∉ acts.*1) &&
     match last acts with Some a => a.2 <=? n | None => true end
  then Some (acts ++ [(d, n)]) else None.
Definition spec_pop (n : Z) acts : activations := filter (fun a => a.2 <= n) acts.
Definition spec_active s acts (f : builtin_protocol_feature_t) (n : Z) : Prop :=
  exists d k, (d, k) ∈ acts /\ codename_of s d = Some f /\ k <= n.

Context s (Hs : pfs_ok s).

Lemma slot_range a i : slot_of s a = Some i -> (i < slots s)%nat.
Proof.
  intros (b & Hb & ->)%fmap_Some. apply bind_Some in Hb as (f & Hf & Hb).
  destruct (pfs_keys s Hs _ f Hf) as (_ & b' & Hb' & Hl). rewrite Hb in Hb'. injection Hb' as <-.
  by apply lookup_lt_Some in Hl.
Qed.

Lemma slot_inj a b i : slot_of s a = Some i -> slot_of s b = Some i -> a.1 = b.1.
Proof.
  intros (x & Hx & ->)%fmap_Some (y & Hy & Hxy)%fmap_Some. apply (inj feature_index) in Hxy as <-.
  by eapply codename_inj.
Qed.

Lemma slot_known d n f : _recognized_protocol_features s !! d = Some f ->
  exists b, builtin_feature f = Some b /\ slot_of s (d, n) = Some (feature_index b).
Proof.
  intros Hf. destruct (pfs_keys s Hs d f Hf) as (_ & b & Hb & _). exists b. split; [done|].
  unfold slot_of, codename_of. simpl. by rewrite Hf; simpl; rewrite Hb.
Qed.

Lemma threaded_snoc acts a : threaded s (acts ++ [a]) = thread s (threaded s acts) a.
Proof. unfold threaded. by rewrite foldl_app. Qed.

Lemma threaded_length acts : length (threaded s acts).1 = slots s.
Proof.
  induction acts as [|a acts IH] using rev_ind; [apply length_replicate|].
  rewrite threaded_snoc. unfold thread. destruct (slot_of s a); [by rewrite <- IH; apply length_insert | done].
Qed.

(** A slot holds the number of its activation, or the default. *)
Lemma threaded_free acts i : (i < slots s)%nat -> (forall a, a ∈ acts -> slot_of s a <> Some i) ->
  (threaded s acts).1 !! i = Some default_entry.
Proof.
  intros Hi. induction acts as [|a acts IH] using rev_ind; intros Hfree.
  - by apply lookup_replicate.
  - rewrite threaded_snoc. unfold thread. destruct (slot_of s a) as [j|] eqn:E; simpl.
    + rewrite list_lookup_insert_ne; [apply IH; intros b Hb; apply Hfree, elem_of_app; by left|].
      intros ->. eapply (Hfree a); [apply elem_of_app; right; by left | done].
    + apply IH. intros b Hb. apply Hfree, elem_of_app. by left.
Qed.

Lemma threaded_used acts d n i : NoDup acts.*1 -> (d, n) ∈ acts -> slot_of s (d, n) = Some i ->
  exists p, (threaded s acts).1 !! i = Some (mk_bentry p n).
Proof.
  intros Hd Hin Hi. pose proof (slot_range _ _ Hi) as Hlt. revert Hd Hin.
  induction acts as [|a acts IH] using rev_ind; intros Hd Hin; [by apply not_elem_of_nil in Hin|].
  rewrite threaded_snoc. unfold thread. rewrite fmap_app in Hd. apply NoDup_app in Hd as (Hd & Hx & _).
  apply elem_of_app in Hin as [Hin|<-%list_elem_of_singleton].
  - destruct (IH Hd Hin) as [p Hp]. destruct (slot_of s a) as [j|] eqn:E; simpl; [|eauto].
    rewrite list_lookup_insert_ne; [eauto|]. intros ->. assert (d = a.1) as -> by (by eapply (slot_inj (d, n) a)).
    eapply (Hx a.1); [apply list_elem_of_fmap; by exists (a.1, n) | by left].
  - rewrite Hi. simpl. eexists. rewrite list_lookup_insert_eq; [done|]. by rewrite threaded_length.
Qed.

Lemma acts_prefix acts acts' : acts_ok s (acts ++ acts') -> acts_ok s acts.
Proof.
  intros [H1 H2 H3 H4]. apply Forall_app in H1 as [? _], H4 as [? _]. rewrite fmap_app in H2.
  apply NoDup_app in H2 as (? & _). split; [done..| |done]. by apply StronglySorted_app in H3 as (_ & ? & _).
Qed.

Lemma acts_bound acts : acts_ok s acts -> (length acts <= slots s)%nat.
Proof.
  intros [H1 H2 _ _]. rewrite <- (length_fmap fst), <- (length_seq (slots s) 0).
  set (idx d := default 0%nat (slot_of s (d, 0))). rewrite <- (length_fmap idx).
  assert (Hslot : forall d, d ∈ acts.*1 -> slot_of s (d, 0) = Some (idx d)).
  { intros d ([d' n] & -> & Hin)%list_elem_of_fmap. rewrite Forall_forall in H1.
    destruct (H1 _ Hin) as [i Hi]. unfold idx. simpl. unfold slot_of in *. simpl in *. by rewrite Hi. }
  apply submseteq_length, NoDup_submseteq.
  - apply NoDup_fmap_2_strong; [|done]. intros x y Hx Hy Hxy.
    apply Hslot in Hx, Hy. rewrite Hxy in Hx. by apply (slot_inj (x, 0) (y, 0) _ Hx Hy).
  - intros i (d & -> & Hd%Hslot)%list_elem_of_fmap. apply elem_of_seq. apply slot_range in Hd. lia.
Qed.

Lemma slot_small a i : slot_of s a = Some i -> (i < 11)%nat.
Proof. intros (b & _ & ->)%fmap_Some. destruct b; simpl; lia. Qed.

(** Every activation is at most the last. *)
Lemma acts_le_last acts a : StronglySorted (fun a b => a.2 <= b.2) (acts ++ [a]) ->
  forall b, b ∈ acts ++ [a] -> b.2 <= a.2.
Proof.
  intros (Hle & _ & _)%StronglySorted_app b [Hb|<-%list_elem_of_singleton]%elem_of_app; [|lia].
  apply Hle; [done | by left].
Qed.

Lemma acts_snoc acts d n : acts_ok s acts -> 0 <= n < not_active -> d ∉ acts.*1 ->
  is_Some (slot_of s (d, n)) -> (forall a, last acts = Some a -> a.2 <= n) -> acts_ok s (acts ++ [(d, n)]).
Proof.
  intros [H1 H2 H3 H4] Hn Hd [i Hi] Hlast. split.
  - apply Forall_app. split; [done|]. constructor; [by exists i | constructor].
  - rewrite fmap_app. apply NoDup_app. split_and!; [done| |apply NoDup_singleton].
    intros x Hx ->%list_elem_of_singleton. done.
  - apply StronglySorted_app. split_and!; [|done|repeat constructor].
    intros a b Ha ->%list_elem_of_singleton. simpl.
    destruct acts as [|z acts _] using rev_ind; [by apply not_elem_of_nil in Ha|].
    rewrite last_snoc in Hlast. specialize (Hlast z eq_refl). pose proof (acts_le_last _ _ H3 a Ha). lia.
  - apply Forall_app. split; [done|]. constructor; [done | constructor].
Qed.

(** A recognized feature is active exactly when its slot is taken. *)
Lemma slot_taken acts d n i : acts_ok s acts -> slot_of s (d, n) = Some i ->
  exists e, (threaded s acts).1 !! i = Some e /\
    (b_activation_block_num e =? not_active) = bool_decide (d ∉ acts.*1).
Proof.
  intros Hok Hi. destruct (decide (d ∈ acts.*1)) as [Hin|Hout].
  - rewrite bool_decide_eq_false_2 by tauto.
    apply list_elem_of_fmap in Hin as ([d' k] & -> & Hin). simpl in *.
    destruct (threaded_used acts d' k i) as [p Hp]; [apply Hok|done|exact Hi|].
    exists (mk_bentry p k). split; [done|]. pose proof (acts_nums s acts Hok) as Hk.
    rewrite Forall_forall in Hk. specialize (Hk _ Hin). simpl in *. lia.
  - rewrite bool_decide_eq_true_2 by done. exists default_entry. split; [|done].
    apply threaded_free; [by eapply slot_range|]. intros a Ha Hai.
    apply Hout, list_elem_of_fmap. exists a. split; [|done]. by apply (slot_inj (d, n) a i).
Qed.

(** [activate_feature] appends to the list, and fails where that is wrong. *)
Lemma activate_refines acts d n : acts_ok s acts -> 0 <= n < not_active ->
  match activate_feature d n (manager_of s acts), spec_activate s d n acts with
  | Ok m, Some acts' => m = manager_of s acts' /\ acts_ok s acts'
  | Err _, None => True
  | _, _ => False
  end.
Proof.
  intros Hok Hn. unfold activate_feature, spec_activate.
  cbn [_initialized manager_of check mbind result_bind
    _protocol_feature_set _activated_protocol_features _builtin_protocol_features _head_of_builtin_activation_list].
  destruct (_recognized_protocol_features s !! d) as [f|] eqn:Ef; cbn [of_option mbind result_bind].
  2: { rewrite bool_decide_eq_false_2; [done | by intros [? ?]]. }
  rewrite bool_decide_eq_true_2 by (by eexists). rewrite andb_true_l, fmap_last.
  destruct (slot_known d n f Ef) as (b & Hb & Hi). rewrite Hb.
  destruct (slot_taken acts d n _ Hok Hi) as (e & He & Htaken).
  destruct (bool_decide (d ∉ acts.*1)) eqn:Enew; rewrite ?andb_true_l, ?andb_false_l.
  2: { destruct (last acts) as [z|]; cbn [fmap option_fmap option_map activation_block_num].
       - destruct (z.2 <=? n); cbn [check mbind result_bind of_option]; [|done]. by rewrite He; cbn; rewrite Htaken.
       - cbn [mbind result_bind of_option]. by rewrite He; cbn; rewrite Htaken. }
  apply bool_decide_eq_true in Enew.
  assert (Hdone : (forall a, last acts = Some a -> a.2 <= n) ->
    (e0 ← of_option ((threaded s acts).1 !! feature_index b) "invariant failure while trying to activate feature: unsupported builtin_protocol_feature_t";
     check (b_activation_block_num e0 =? not_active) "cannot activate already activated builtin feature" ;;
     Ok (mk_pfm s (((fun a => mk_entry a.1 a.2) <$> acts) ++ [mk_entry d n])
        (<[feature_index b := mk_bentry (threaded s acts).2 n]> (threaded s acts).1)
        (Z.of_nat (feature_index b)) true)) = Ok (manager_of s (acts ++ [(d, n)])) /\
    acts_ok s (acts ++ [(d, n)])).
  { intros Hlast. split; [|apply acts_snoc; [done|done|done|by eexists|done]].
    rewrite He. cbn [of_option mbind result_bind]. rewrite Htaken. cbn [check mbind result_bind].
    unfold manager_of. rewrite threaded_snoc, fmap_app. unfold thread. by rewrite Hi. }
  destruct (last acts) as [z|]; cbn [fmap option_fmap option_map activation_block_num].
  - destruct (z.2 <=? n) eqn:Ez; cbn [check mbind result_bind of_option]; [|done].
    destruct Hdone as [Hrun Hok']; [intros a [= <-]; lia|]. by rewrite Hrun.
  - cbn [mbind result_bind of_option]. destruct Hdone as [Hrun Hok']; [done|]. by rewrite Hrun.
Qed.

Lemma filter_all {A} (P : A -> Prop) `{forall x, Decision (P x)} l : Forall P l -> filter P l = l.
Proof. induction 1 as [|x l Hx _ IH]; [done|]. by rewrite filter_cons_True, IH. Qed.

Lemma spec_pop_all n acts a : StronglySorted (fun a b => a.2 <= b.2) (acts ++ [a]) -> a.2 <= n ->
  spec_pop n (acts ++ [a]) = acts ++ [a].
Proof.
  intros Hsort Ha. unfold spec_pop. apply filter_all, Forall_forall. intros b Hb.
  pose proof (acts_le_last _ _ Hsort b Hb). lia.
Qed.

Lemma spec_pop_last n acts a : n < a.2 -> spec_pop n (acts ++ [a]) = spec_pop n acts.
Proof. intros Ha. unfold spec_pop. rewrite filter_app, filter_cons_False by lia. by rewrite app_nil_r. Qed.

Lemma pop_builtins_refines acts n fuel : acts_ok s acts -> (length acts <= fuel)%nat ->
  pop_builtins fuel n (threaded s acts).1 (threaded s acts).2 = Ok (threaded s (spec_pop n acts)).
Proof.
  revert fuel. induction acts as [|a acts IH] using rev_ind; intros fuel Hok Hfuel; [by destruct fuel|].
  pose proof (acts_known s _ Hok) as Hknown. apply Forall_app in Hknown as [_ Hi].
  apply Forall_cons in Hi as [[i Hi] _]. pose proof (slot_small a i Hi) as Hsmall.
  assert (Hfree : (threaded s acts).1 !! i = Some default_entry).
  { apply threaded_free; [by eapply slot_range|]. intros b Hb Hbi. pose proof (acts_distinct s _ Hok) as Hd.
    rewrite fmap_app in Hd. apply NoDup_app in Hd as (_ & Hd & _). apply (Hd b.1); [by apply list_elem_of_fmap_2|].
    rewrite (slot_inj b a i Hbi Hi). by left. }
  rewrite length_app in Hfuel. simpl in Hfuel. destruct fuel as [|fuel]; [lia|].
  rewrite threaded_snoc. unfold thread at 1 2. rewrite Hi. cbn [fst snd pop_builtins].
  replace (Z.of_nat i =? no_previous) with false by (symmetry; apply Z.eqb_neq; unfold no_previous; mach_lia).
  rewrite Nat2Z.id, list_lookup_insert_eq by (rewrite threaded_length; by eapply slot_range).
  cbn [of_option mbind result_bind b_activation_block_num previous].
  destruct (a.2 <=? n) eqn:Ea.
  - rewrite spec_pop_all by (apply Hok || lia). rewrite threaded_snoc. unfold thread. by rewrite Hi.
  - rewrite list_insert_insert_eq, list_insert_id by done.
    rewrite IH by (lia || by eapply acts_prefix). by rewrite spec_pop_last by lia.
Qed.

Lemma pop_entries_refines acts n : StronglySorted (fun a b => a.2 <= b.2) acts ->
  reverse (pop_entries n (reverse ((fun a => mk_entry a.1 a.2) <$> acts))) =
  (fun a => mk_entry a.1 a.2) <$> spec_pop n acts.
Proof.
  induction acts as [|a acts IH] using rev_ind; intros Hsort; [done|].
  rewrite fmap_app. cbn [fmap list_fmap]. rewrite reverse_snoc. cbn [pop_entries activation_block_num].
  destruct (n <? a.2) eqn:E.
  - rewrite spec_pop_last by lia. apply IH. by apply StronglySorted_app in Hsort as (_ & ? & _).
  - rewrite spec_pop_all by (done || lia). by rewrite reverse_cons, reverse_involutive, fmap_app.
Qed.

(** [popped_blocks_to] leaves the activations up to the block, in both
    representations; its loops end. *)
Lemma pop_refines acts n : acts_ok s acts ->
  popped_blocks_to n (manager_of s acts) = Ok (manager_of s (spec_pop n acts)) /\ acts_ok s (spec_pop n acts).
Proof.
  intros Hok. split.
  - unfold popped_blocks_to. cbn [manager_of _initialized check mbind result_bind _protocol_feature_set
      _activated_protocol_features _builtin_protocol_features _head_of_builtin_activation_list].
    rewrite threaded_length, pop_builtins_refines by (done || by apply acts_bound).
    cbn [mbind result_bind]. rewrite pop_entries_refines by apply Hok. unfold manager_of.
    by destruct (threaded s (spec_pop n acts)).
  - induction acts as [|a acts IH] using rev_ind; [done|]. destruct (decide (a.2 <= n)).
    + rewrite spec_pop_all by (apply Hok || done). done.
    + rewrite spec_pop_last by lia. apply IH. by eapply acts_prefix.
Qed.

(** [is_builtin_activated] at every block but the one whose number stands for
    "not active". *)
Lemma active_refines acts f n : acts_ok s acts -> n < not_active ->
  is_builtin_activated (manager_of s acts) f n = true <-> spec_active s acts f n.
Proof.
  intros Hok Hn. unfold is_builtin_activated. cbn [manager_of _builtin_protocol_features]. split.
  - destruct ((threaded s acts).1 !! feature_index f) as [e|] eqn:E; [|done]. intros He%Z.leb_le.
    destruct (decide (Exists (fun a => slot_of s a = Some (feature_index f)) acts)) as [Hex|Hno].
    + apply Exists_exists in Hex as ([d k] & Hin & Hi).
      destruct (threaded_used acts d k (feature_index f)) as [p Hp]; [apply Hok|done|done|].
      rewrite E in Hp. injection Hp as ->. exists d, k. split_and!; [done| |done].
      apply fmap_Some in Hi as (b & Hb & Hfb%(inj feature_index)). simpl in Hb. by subst.
    + assert ((threaded s acts).1 !! feature_index f = Some default_entry) as Hd.
      { apply threaded_free; [apply lookup_lt_Some in E; by rewrite threaded_length in E|].
        intros a Ha Hai. apply Hno, Exists_exists. eauto. }
      rewrite E in Hd. injection Hd as ->. simpl in He. lia.
  - intros (d & k & Hin & Hc & Hk). destruct (threaded_used acts d k (feature_index f)) as [p Hp]; [apply Hok|done| |].
    + unfold slot_of. simpl. by rewrite Hc.
    + rewrite Hp. simpl. lia.
Qed.
End ManagerSpec.

(** ** Iterators *)

Section Iterators.
Implicit Types (m : protocol_feature_manager).

Lemma at_position_in m i : (i < length (_activated_protocol_features m))%nat ->
  at_position m i = mk_iter true (Z.of_nat i).
Proof. intros Hi. unfold at_position. by rewrite (proj2 (Nat.leb_gt _ _) Hi). Qed.

Lemma at_position_end m i : (length (_activated_protocol_features m) <= i)%nat -> at_position m i = cend.
Proof. intros Hi. unfold at_position. by rewrite (proj2 (Nat.leb_le _ _) Hi). Qed.

(** Positions are walked in both directions; the end follows the last one. *)
Lemma iter_walk m i : (i < length (_activated_protocol_features m))%nat ->
  Z.of_nat (length (_activated_protocol_features m)) < end_index ->
  iter_next m (at_position m i) = Ok (at_position m (S i)) /\
  iter_prev m (at_position m (S i)) = Ok (at_position m i).
Proof.
  intros Hi Hlen. unfold end_index in *. rewrite (at_position_in m i) by done.
  assert (Z.of_nat i =? end_index = false) as Hne by (unfold end_index; mach_lia).
  unfold iter_next, iter_prev. cbn [_pfm _index check mbind result_bind]. rewrite Hne. cbn [negb check mbind result_bind].
  rewrite u64_small by mach_lia.
  destruct (decide (S i < length (_activated_protocol_features m))%nat) as [Hs|Hs].
  - rewrite at_position_in by done. cbn [_pfm _index]. split.
    + rewrite Z.geb_leb, (proj2 (Z.leb_gt _ _)) by lia. do 2 f_equal. lia.
    + cbn [check mbind result_bind]. rewrite (proj2 (Z.eqb_neq (Z.of_nat (S i)) end_index)) by (unfold end_index; mach_lia).
      rewrite (proj2 (Z.gtb_lt (Z.of_nat (S i)) 0)) by lia. cbn [check mbind result_bind]. do 2 f_equal. lia.
  - rewrite at_position_end by lia. cbn [_pfm _index cend]. split.
    + by rewrite Z.geb_leb, (proj2 (Z.leb_le _ _)) by lia.
    + cbn [check mbind result_bind]. rewrite Z.eqb_refl, (proj2 (Nat.ltb_lt _ _)) by lia.
      cbn [check mbind result_bind]. do 2 f_equal. lia.
Qed.

Lemma partition_point_spec {A} (p : A -> bool) (l : list A) :
  (forall i j x y, (i <= j)%nat -> l !! i = Some x -> l !! j = Some y -> p y = true -> p x = true) ->
  (partition_point p l <= length l)%nat /\
  forall i x, l !! i = Some x -> p x = true <-> (i < partition_point p l)%nat.
Proof.
  induction l as [|a l IH]; intros Hmono; cbn [partition_point length]; [split; [lia|]; intros i x; by rewrite lookup_nil|].
  destruct IH as [IH1 IH2]; [intros i j x y Hij Hx Hy; apply (Hmono (S i) (S j) x y); [lia|done|done]|].
  destruct (p a) eqn:Ea.
  - split; [lia|]. intros [|i] x Hx; [injection Hx as <-; split; [lia|done]|]. rewrite (IH2 i x Hx). lia.
  - split; [lia|]. intros i x Hx. split; [|lia]. intros Hp. exfalso.
    rewrite (Hmono 0%nat i a x) in Ea by (lia || done). done.
Qed.

Lemma sorted_lookup {A} (R : A -> A -> Prop) (l : list A) i j x y :
  StronglySorted R l -> (i < j)%nat -> l !! i = Some x -> l !! j = Some y -> R x y.
Proof.
  intros Hs. revert i j. induction Hs as [|a l _ IH Hall]; intros i j Hij Hx Hy; [by rewrite lookup_nil in Hx|].
  destruct i as [|i], j as [|j]; try lia; simpl in *.
  - injection Hx as ->. rewrite Forall_forall in Hall. apply Hall. by eapply list_elem_of_lookup_2.
  - apply (IH i j); [lia|done|done].
Qed.

(** [lower_bound] and [upper_bound] separate the activations before a block
    from those at or after it, and those up to it from the later ones. *)
Lemma bounds_spec s acts n : acts_ok s acts ->
  exists i j, pfm_lower_bound (manager_of s acts) n = at_position (manager_of s acts) i /\
    pfm_upper_bound (manager_of s acts) n = at_position (manager_of s acts) j /\
    (i <= length acts)%nat /\ (j <= length acts)%nat /\
    (forall k a, acts !! k = Some a -> (a.2 < n <-> (k < i)%nat) /\ (a.2 <= n <-> (k < j)%nat)).
Proof.
  intros [_ _ Hsort _]. set (entry := fun a : digest * Z => mk_entry a.1 a.2).
  assert (Hmono : forall i j x y, (i <= j)%nat -> (entry <$> acts) !! i = Some x -> (entry <$> acts) !! j = Some y ->
            activation_block_num x <= activation_block_num y).
  { intros i j x y Hij Hx Hy. rewrite list_lookup_fmap in Hx, Hy.
    apply fmap_Some in Hx as (a & Ha & ->), Hy as (b & Hb & ->). simpl.
    destruct (decide (i = j)) as [->|]; [rewrite Ha in Hb; injection Hb as ->; lia|].
    apply (sorted_lookup _ acts i j a b Hsort); [lia|done|done]. }
  destruct (partition_point_spec (fun e => activation_block_num e <? n) (entry <$> acts)) as [Hi Hil].
  { intros i j x y Hij Hx Hy Hp. specialize (Hmono i j x y Hij Hx Hy). lia. }
  destruct (partition_point_spec (fun e => negb (n <? activation_block_num e)) (entry <$> acts)) as [Hj Hjl].
  { intros i j x y Hij Hx Hy Hp. specialize (Hmono i j x y Hij Hx Hy). lia. }
  do 2 eexists. split; [done|]. split; [done|]. cbn [manager_of _activated_protocol_features]. fold entry.
  rewrite length_fmap in Hi, Hj. split_and!; [done|done|]. intros k a Hk.
  specialize (Hil k (entry a)). specialize (Hjl k (entry a)). rewrite list_lookup_fmap, Hk in Hil, Hjl.
  rewrite <- Hil, <- Hjl by done. simpl. lia.
Qed.
End Iterators.
