(* ===== verification/FeatureActivation.v ===== *)
(** * Activation of protocol features ([controller.cpp],
    [protocol_state_object.hpp], [protocol_state_object.cpp])

    Preactivation by a contract, the checks on the features a block activates,
    what [start_block] does with them, the handlers that run on activation, and
    what aborting, committing and popping blocks does to the manager. *)

From Stdlib Require Import ZArith Lia String Ascii.
From stdpp Require Import base numbers gmap strings countable list.
From S2P Require Import Prelude Boost Merkle BlockHeader BlockTimestamp Accumulator ResourceLimits Intrinsics Hex ProtocolFeatures.
Local Open Scope Z_scope.
Local Open Scope list_scope.

Record protocol_state_object := mk_pso {
  ps_activated : list (digest * Z); ps_preactivated : list digest;
  ps_whitelist : whitelisted_intrinsics_type; num_supported_key_types : Z }.

(** The part of the database that activation works on: the protocol state, the
    RAM corrections in the order of their ids, and the resource usage. *)
Record feature_db := mk_fdb {
  fd_pso : protocol_state_object; fd_corrections : list (Z * Z); fd_resources : rdb }.

Definition with_pso (db : feature_db) (p : protocol_state_object) : feature_db :=
  mk_fdb p (fd_corrections db) (fd_resources db).
Definition with_whitelist (p : protocol_state_object) (w : whitelisted_intrinsics_type) : protocol_state_object :=
  mk_pso (ps_activated p) (ps_preactivated p) w (num_supported_key_types p).
Definition with_preactivated (p : protocol_state_object) (l : list digest) : protocol_state_object :=
  mk_pso (ps_activated p) l (ps_whitelist p) (num_supported_key_types p).

(** ** RAM corrections *)

(** [controller::add_to_ram_correction] *)
Fixpoint add_to_ram_correction (account ram_bytes : Z) (l : list (Z * Z)) : list (Z * Z) :=
  match l with
  | [] => [(account, ram_bytes)]
  | (a, c) :: l =>
    if a =? account then (a, u64 (c + ram_bytes)) :: l else (a, c) :: add_to_ram_correction account ram_bytes l
  end.

(** One iteration of the loop of [on_activation<replace_deferred>]. *)
Definition correct_ram (res : rdb) (c : Z * Z) : result rdb :=
  current_ram_usage ← get_account_ram_usage res c.1;
  let ram_delta :=
    if c.2 >? u64 current_ram_usage then i64 (- current_ram_usage) else i64 (- i64 c.2) in
  add_pending_ram_usage c.1 ram_delta res.

Section Activation.
Context `{StringHash}.

(** ** Handlers *)

Definition whitelist_intrinsics (names : list string) (db : feature_db) : result feature_db :=
  w ← mfold add_intrinsic_to_whitelist names (ps_whitelist (fd_pso db));
  Ok (with_pso db (with_whitelist (fd_pso db) w)).

(** [trigger_activation_handler] with the handlers [controller_impl] sets. *)
Definition trigger_activation_handler (f : builtin_protocol_feature_t) (db : feature_db) : result feature_db :=
  match f with
  | preactivate_feature => whitelist_intrinsics ["preactivate_feature"; "is_feature_activated"]%string db
  | get_sender => whitelist_intrinsics ["get_sender"]%string db
  | replace_deferred =>
    res ← mfold correct_ram (fd_corrections db) (fd_resources db);
    Ok (mk_fdb (fd_pso db) [] res)
  | _ => Ok db
  end.

(** ** Checks *)

(** [controller_impl::check_protocol_features]; [before] are the new features
    already checked. *)
Fixpoint check_from (pfs : protocol_feature_set) (timestamp : Z) (cur : gset digest)
    (before news : list digest) : result unit :=
  match news with
  | [] => Ok tt
  | f :: news =>
    (match is_recognized pfs f (to_time_point timestamp) with
     | unrecognized => Err "protocol feature is unrecognized"
     | disabled => Err "protocol feature is disabled"
     | too_early => Err "too early for the earliest allowed activation time of the protocol feature"
     | ready => Ok tt
     end) ;;
    check (negb (bool_decide (f ∈ cur))) "protocol feature has already been activated" ;;
    check (validate_dependencies pfs f (fun d => bool_decide (d ∈ cur) || bool_decide (d ∈ before)))
      "not all dependencies of protocol feature have been activated" ;;
    check_from pfs timestamp cur (before ++ [f]) news
  end.
Definition check_protocol_features (pfs : protocol_feature_set) (timestamp : Z) (cur : gset digest)
    (news : list digest) : result unit := check_from pfs timestamp cur [] news.

(** ** Blocks *)

Record block_info := mk_binfo { bi_num : Z; bi_timestamp : Z; bi_activated : gset digest }.

(** [building_block], whether the state of the block was touched when it was
    started, and the database its session started from. *)
Record pending_block := mk_pending {
  pb_modified : bool; pb_timestamp : Z; _new_protocol_feature_activations : list digest;
  _num_new_protocol_features_that_have_activated : nat; pb_saved : feature_db }.

Record feature_ctl := mk_fctl {
  fc_pfm : protocol_feature_manager; fc_db : feature_db;
  fc_head : block_info; fc_previous : list (block_info * feature_db);
  fc_pending : option pending_block }.

Definition with_pfm (c : feature_ctl) (m : protocol_feature_manager) : feature_ctl :=
  mk_fctl m (fc_db c) (fc_head c) (fc_previous c) (fc_pending c).
Definition with_db (c : feature_ctl) (db : feature_db) : feature_ctl :=
  mk_fctl (fc_pfm c) db (fc_head c) (fc_previous c) (fc_pending c).

(** [controller::is_protocol_feature_activated] while a block is built, or
    without a pending block. *)
Definition is_protocol_feature_activated (c : feature_ctl) (d : digest) : bool :=
  match fc_pending c with
  | Some p =>
    bool_decide (d ∈ bi_activated (fc_head c)) ||
    (if Nat.eqb (_num_new_protocol_features_that_have_activated p) 0 then false
     else bool_decide (d ∈ take (_num_new_protocol_features_that_have_activated p)
                             (_new_protocol_feature_activations p)))
  | None => bool_decide (d ∈ bi_activated (fc_head c))
  end.

(** [controller::is_builtin_activated] *)
Definition ctl_is_builtin_activated (c : feature_ctl) (f : builtin_protocol_feature_t) : bool :=
  let current_block_num := bi_num (fc_head c) in
  let current_block_num := match fc_pending c with Some _ => u32 (current_block_num + 1) | None => current_block_num end in
  is_builtin_activated (fc_pfm c) f current_block_num.

(** [controller::preactivate_feature]: a failure of recognition ends the
    transaction of a producer and rejects the block of another. *)
Definition ctl_preactivate_feature (is_producing_block : bool) (d : digest) (c : feature_ctl)
    : result feature_ctl :=
  p ← of_option (fc_pending c) "no pending block";
  let pfs := _protocol_feature_set (fc_pfm c) in
  let subjective := if is_producing_block then "subjective_block_production_exception"%string
                    else "protocol_feature_bad_block_exception"%string in
  (match is_recognized pfs d (to_time_point (pb_timestamp p)) with
   | ready => Ok tt
   | unrecognized | disabled | too_early => Err subjective
   end) ;;
  check (negb (is_protocol_feature_activated c d)) "protocol feature is already activated" ;;
  let pso := fd_pso (fc_db c) in
  check (negb (bool_decide (d ∈ ps_preactivated pso))) "protocol feature is already pre-activated" ;;
  check (validate_dependencies pfs d
           (fun d => is_protocol_feature_activated c d || bool_decide (d ∈ ps_preactivated pso)))
    "not all dependencies of protocol feature have been activated or pre-activated" ;;
  Ok (with_db c (with_pso (fc_db c) (with_preactivated pso (ps_preactivated pso ++ [d])))).

(** ** Starting a block *)

(** The variables of the loop of [start_block]. *)
Record activation_state := mk_as {
  as_map : gmap digest bool; num_preactivated_features_that_have_activated : nat;
  as_db : feature_db; as_pfm : protocol_feature_manager; as_count : nat }.

Definition activate_one (block_num : Z) (d : digest) (st : activation_state) : result activation_state :=
  f ← get_protocol_feature (_protocol_feature_set (as_pfm st)) d;
  n ← (match as_map st !! d with
       | None =>
         check (negb (pf_preactivation_required f))
           "attempted to activate protocol feature without prior required preactivation" ;;
         Ok (num_preactivated_features_that_have_activated st)
       | Some activated =>
         check (negb activated) "attempted duplicate activation within a single block" ;;
         Ok (S (num_preactivated_features_that_have_activated st))
       end);
  db ← (match builtin_feature f with
        | Some b => trigger_activation_handler b (as_db st)
        | None => Ok (as_db st)
        end);
  m ← activate_feature d block_num (as_pfm st);
  Ok (mk_as (<[d := true]> (as_map st)) n db m (S (as_count st))).

(** The loop; what was changed before a failure is kept. *)
Fixpoint activation_loop (block_num : Z) (news : list digest) (st : activation_state)
    : activation_state * result unit :=
  match news with
  | [] => (st, Ok tt)
  | d :: news =>
    match activate_one block_num d st with
    | Ok st => activation_loop block_num news st
    | Err e => (st, Err e)
    end
  end.

(** The activation of features in [start_block]: the manager as it is left,
    and the database, if nothing failed. *)
Definition start_features (block_num : Z) (news : list digest) (db : feature_db)
    (m : protocol_feature_manager) : protocol_feature_manager * result feature_db :=
  let pso := fd_pso db in
  let num_preactivated := length (ps_preactivated pso) in
  if Nat.eqb (length news) 0 then
    (m, check (Nat.eqb num_preactivated 0)
          "There are pre-activated protocol features that were not activated at the start of this block" ;;
        Ok db)
  else
    let init := mk_as (list_to_map ((fun d => (d, false)) <$> ps_preactivated pso)) 0 db m 0 in
    let '(st, r) := activation_loop block_num news init in
    (as_pfm st,
     r ;;
     check (Nat.eqb num_preactivated 0 ||
            Nat.eqb (num_preactivated_features_that_have_activated st) num_preactivated)
       "There are pre-activated protocol features that were not activated at the start of this block" ;;
     let db := as_db st in
     let pso := fd_pso db in
     Ok (with_pso db (mk_pso (ps_activated pso ++ ((fun d => (d, block_num)) <$> news)) []
                        (ps_whitelist pso) (num_supported_key_types pso)))).

(** [start_block] as far as features are concerned.  [modify_state] tells that
    the read mode is speculative or the block is not incomplete.  When it
    fails, the session is undone and the manager popped back to the head. *)
Definition features_start_block (modify_state : bool) (when : Z) (news : list digest) (c : feature_ctl)
    : feature_ctl * result unit :=
  match fc_pending c with
  | Some _ => (c, Err "pending block already exists")
  | None =>
    let block_num := u32 (bi_num (fc_head c) + 1) in
    let pend n := Some (mk_pending modify_state when news n (fc_db c)) in
    if modify_state then
      match start_features block_num news (fc_db c) (fc_pfm c) with
      | (m, Ok db) => (mk_fctl m db (fc_head c) (fc_previous c) (pend (length news)), Ok tt)
      | (m, Err e) =>
        match popped_blocks_to (bi_num (fc_head c)) m with
        | Ok m => (with_pfm c m, Err e)
        | Err e' => (with_pfm c m, Err e')
        end
      end
    else (mk_fctl (fc_pfm c) (fc_db c) (fc_head c) (fc_previous c) (pend 0%nat), Ok tt)
  end.

(** [abort_block] *)
Definition features_abort_block (c : feature_ctl) : result feature_ctl :=
  match fc_pending c with
  | None => Ok c
  | Some p =>
    m ← popped_blocks_to (bi_num (fc_head c)) (fc_pfm c);
    Ok (mk_fctl m (pb_saved p) (fc_head c) (fc_previous c) None)
  end.

(** Finalizing, signing and committing the pending block: it becomes the head,
    its session stays on the undo stack. *)
Definition features_commit_block (c : feature_ctl) : result feature_ctl :=
  p ← of_option (fc_pending c) "it is not valid to finalize when there is no pending block";
  activated ← activation_set (bi_activated (fc_head c)) (_new_protocol_feature_activations p) true;
  Ok (mk_fctl (fc_pfm c) (fc_db c)
        (mk_binfo (u32 (bi_num (fc_head c) + 1)) (pb_timestamp p) activated)
        ((fc_head c, pb_saved p) :: fc_previous c) None).

(** [pop_block] *)
Definition features_pop_block (c : feature_ctl) : result feature_ctl :=
  match fc_previous c with
  | [] => Err "attempt to pop beyond last irreversible block"
  | (prev, db) :: rest =>
    m ← popped_blocks_to (bi_num prev) (fc_pfm c);
    Ok (mk_fctl m db prev rest (fc_pending c))
  end.

(** ** Genesis and snapshots *)

Definition genesis_pso : result protocol_state_object :=
  w ← genesis_whitelist; Ok (mk_pso [] [] w 2).

Record snapshot_protocol_state_object := mk_snapshot_pso {
  sn_activated : list (digest * Z); sn_preactivated : list digest;
  sn_whitelist : list string; sn_key_types : Z }.

Definition to_snapshot_row (value : protocol_state_object) : snapshot_protocol_state_object :=
  mk_snapshot_pso (ps_activated value) (ps_preactivated value)
    (convert_intrinsic_whitelist_to_set (ps_whitelist value)) (num_supported_key_types value).

Definition from_snapshot_row (row : snapshot_protocol_state_object) : protocol_state_object :=
  mk_pso (sn_activated row) (sn_preactivated row)
    (reset_intrinsic_whitelist (sn_whitelist row)) (sn_key_types row).
End Activation.
