(* ===== verification/FeatureActivationSpec.v ===== *)
(** * The invariant of feature activation

    What the manager records, what the protocol state records and what the
    head block records stay the same through starting, aborting, committing
    and popping blocks, also when starting a block fails. *)

From Stdlib Require Import ZArith Lia String Ascii.
From stdpp Require Import base numbers gmap strings countable sorting list relations.
From S2P Require Import Prelude Boost Merkle BlockHeader BlockTimestamp Accumulator ResourceLimits Intrinsics Hex ProtocolFeatures.
From S2P Require Import ProtocolFeaturesSpec FeatureActivation.
Local Open Scope Z_scope.
Local Open Scope list_scope.
#[local] Opaque genesis_intrinsics.

Section ActivationSpec.
Context `{StringHash}.
Implicit Types (s : protocol_feature_set) (d : digest) (acts : activations) (db : feature_db).
Implicit Types (m : protocol_feature_manager) (c : feature_ctl) (news : list digest).

Abbreviation whitelist_of db := (ps_whitelist (fd_pso db)).
Definition at_block (n : Z) news : activations := (fun d => (d, n)) <$> news.

(** The intrinsics that come with a feature. *)
Definition handler_names (f : builtin_protocol_feature_t) : gset string :=
  match f with
  | preactivate_feature => {[ "preactivate_feature"; "is_feature_activated" ]}%string
  | get_sender => {[ "get_sender" ]}%string
  | _ => ∅
  end.
Definition names_of s (a : digest * Z) : gset string :=
  from_option handler_names ∅ (codename_of s a.1).
Definition expected_names s acts : gset string :=
  list_to_set genesis_intrinsics ∪ ⋃ (names_of s <$> acts).

(** Every feature comes after its dependencies. *)
Definition acts_closed s acts : Prop :=
  forall before a after f, acts = before ++ a :: after ->
    _recognized_protocol_features s !! a.1 = Some f ->
    forall d, d ∈ pf_dependencies f -> d ∈ before.*1.

Record db_ok s acts db : Prop := {
  db_activated : ps_activated (fd_pso db) = acts;
  db_whitelist : whitelist_ok (whitelist_of db);
  db_names : intrinsic_names (whitelist_of db) = expected_names s acts }.

Record block_ok s acts (b : block_info) db : Prop := {
  blk_activated : bi_activated b = list_to_set acts.*1;
  blk_nums : Forall (fun a => a.2 <= bi_num b) acts;
  blk_range : 0 <= bi_num b < not_active;
  blk_db : db_ok s acts db;
  blk_pre : check_protocol_features s (bi_timestamp b) (bi_activated b) (ps_preactivated (fd_pso db)) = Ok tt;
  blk_pre_distinct : NoDup (ps_preactivated (fd_pso db)) }.

(** The head and the blocks below it on the undo stack. *)
Fixpoint chain_ok s acts (b : block_info) db (prevs : list (block_info * feature_db)) : Prop :=
  block_ok s acts b db /\
  match prevs with
  | [] => True
  | (b', db') :: prevs => bi_num b = bi_num b' + 1 /\ chain_ok s (spec_pop (bi_num b') acts) b' db' prevs
  end.

(** ** Handlers *)

Lemma whitelist_intrinsics_spec l db db' : whitelist_ok (whitelist_of db) ->
  whitelist_intrinsics l db = Ok db' ->
  exists w, db' = with_pso db (with_whitelist (fd_pso db) w) /\ whitelist_ok w /\
    intrinsic_names w = list_to_set l ∪ intrinsic_names (whitelist_of db).
Proof.
  unfold whitelist_intrinsics. intros Hok Hr. ok_bind Hr as w Hw. apply (proj1 (Ok_inj _ _)) in Hr as <-.
  exists w. split; [done|]. revert Hw Hok. generalize (whitelist_of db). induction l as [|n l IH]; intros w0 Hw Hok.
  - apply (proj1 (Ok_inj _ _)) in Hw as <-. split; [done | set_solver].
  - simpl in Hw. ok_bind Hw as w1 Hw1. pose proof (add_intrinsic_spec w0 n Hok) as Ha. rewrite Hw1 in Ha.
    destruct Ha as (_ & Hok1 & Hn1). destruct (IH w1 Hw Hok1) as [? Hn]. split; [done|].
    rewrite Hn, Hn1. set_solver.
Qed.

Lemma trigger_spec f db db' : whitelist_ok (whitelist_of db) -> trigger_activation_handler f db = Ok db' ->
  exists w, fd_pso db' = with_whitelist (fd_pso db) w /\ whitelist_ok w /\
    intrinsic_names w = handler_names f ∪ intrinsic_names (whitelist_of db).
Proof.
  intros Hok Hr.
  assert (Hid : fd_pso db = with_whitelist (fd_pso db) (whitelist_of db)) by (by destruct (fd_pso db)).
  destruct f; simpl in Hr;
    try (apply (proj1 (Ok_inj _ _)) in Hr as <-; exists (whitelist_of db);
         split; [exact Hid | split; [done|]; symmetry; apply union_empty_l_L]).
  - apply whitelist_intrinsics_spec in Hr as (w & -> & Hw & Hn); [|done]. exists w.
    split_and!; [done|done|]. rewrite Hn. simpl. set_solver.
  - ok_bind Hr as res Hres. apply (proj1 (Ok_inj _ _)) in Hr as <-. exists (whitelist_of db). simpl.
    split; [exact Hid | split; [done|]; symmetry; apply union_empty_l_L].
  - apply whitelist_intrinsics_spec in Hr as (w & -> & Hw & Hn); [|done]. exists w.
    split_and!; [done|done|]. rewrite Hn. simpl. set_solver.
Qed.

Lemma expected_names_snoc s acts a : expected_names s (acts ++ [a]) = names_of s a ∪ expected_names s acts.
Proof. unfold expected_names. rewrite fmap_app, union_list_app_L. simpl. set_solver. Qed.

(** ** The loop of [start_block] *)

(** The state of the loop when the manager stands at [acts]. *)
Record loop_ok s acts (pso0 : protocol_state_object) (st : activation_state) : Prop := {
  lp_pfm : as_pfm st = manager_of s acts;
  lp_acts : acts_ok s acts;
  lp_whitelist : whitelist_ok (whitelist_of (as_db st));
  lp_names : intrinsic_names (whitelist_of (as_db st)) = expected_names s acts;
  lp_pso : fd_pso (as_db st) = with_whitelist pso0 (whitelist_of (as_db st)) }.

Context s (Hs : pfs_ok s).

Lemma activate_one_spec acts pso0 n d st st' : loop_ok s acts pso0 st -> 0 <= n < not_active ->
  activate_one n d st = Ok st' -> loop_ok s (acts ++ [(d, n)]) pso0 st' /\ as_count st' = S (as_count st).
Proof.
  intros [Hm Ha Hw Hn Hp] Hrange Hr. unfold activate_one in Hr.
  ok_bind Hr as f Hf. apply of_option_ok in Hf. rewrite Hm in Hf. cbn [manager_of _protocol_feature_set] in Hf.
  ok_bind Hr as k Hk. ok_bind Hr as db Hdb. ok_bind Hr as m' Hact. apply (proj1 (Ok_inj _ _)) in Hr as <-.
  destruct (slot_known s Hs d n f Hf) as (b & Hb & _). rewrite Hb in Hdb.
  apply trigger_spec in Hdb as (w & Hpso & Hokw & Hnw); [|done].
  pose proof (activate_refines s Hs acts d n Ha Hrange) as Href. rewrite <- Hm, Hact in Href.
  destruct (spec_activate s d n acts) as [acts'|] eqn:Espec; [|done]. destruct Href as [-> Hok'].
  unfold spec_activate in Espec. destruct (_ && _) in Espec; [|done]. injection Espec as <-.
  split; [|done]. split; cbn [as_pfm as_db]; rewrite ?Hpso; cbn [ps_whitelist with_whitelist]; [done..| |].
  - rewrite Hnw, Hn, expected_names_snoc. unfold names_of, codename_of. simpl. by rewrite Hf; simpl; rewrite Hb.
  - rewrite Hp. done.
Qed.

Lemma activation_loop_spec n pso0 news acts st st' r : loop_ok s acts pso0 st -> 0 <= n < not_active ->
  activation_loop n news st = (st', r) ->
  exists done, done `prefix_of` news /\ loop_ok s (acts ++ at_block n done) pso0 st' /\
    as_count st' = (as_count st + length done)%nat /\ (r = Ok tt -> done = news).
Proof.
  intros Hok Hn. revert acts st Hok. induction news as [|d news IH]; intros acts st Hok Hr; simpl in Hr.
  - injection Hr as <- <-. exists []. split_and!; [done| |simpl; lia|done]. simpl. by rewrite app_nil_r.
  - destruct (activate_one n d st) as [st1|e] eqn:E.
    + destruct (activate_one_spec acts pso0 n d st st1 Hok Hn E) as [Hok1 Hc1].
      destruct (IH _ _ Hok1 Hr) as (l & Hl & Hok' & Hc & Hd). exists (d :: l). split_and!.
      * by apply prefix_cons.
      * simpl. by rewrite <- app_assoc in Hok'.
      * simpl. lia.
      * intros ->. by rewrite Hd.
    + injection Hr as <- <-. exists []. split_and!; [apply prefix_nil| |simpl; lia|done]. simpl. by rewrite app_nil_r.
Qed.

Lemma spec_pop_block n acts k news : Forall (fun a => a.2 <= n) acts -> n < k ->
  spec_pop n (acts ++ at_block k news) = acts.
Proof.
  intros Ha Hk. unfold spec_pop. rewrite filter_app, filter_all by done.
  assert (filter (fun a : digest * Z => a.2 <= n) (at_block k news) = []) as ->; [|apply app_nil_r].
  induction news as [|d news IH]; [done|]. simpl. rewrite filter_cons_False by (simpl; lia). done.
Qed.

Lemma at_block_fst k news : (at_block k news).*1 = news.
Proof. unfold at_block. rewrite <- list_fmap_compose. apply list_fmap_id. Qed.

(** Starting a block: what is left of the manager can be popped back; on
    success the new features are active everywhere. *)
Lemma start_features_spec n news acts db m r : acts_ok s acts -> db_ok s acts db -> 0 <= n < not_active ->
  start_features n news db (manager_of s acts) = (m, r) ->
  exists done, m = manager_of s (acts ++ at_block n done) /\ acts_ok s (acts ++ at_block n done) /\
    forall db', r = Ok db' -> done = news /\ db_ok s (acts ++ at_block n news) db' /\
      ps_preactivated (fd_pso db') = [].
Proof.
  intros Ha [Hd Hw Hn] Hrange. unfold start_features. destruct (Nat.eqb (length news) 0) eqn:E.
  - apply Nat.eqb_eq, nil_length_inv in E as ->. intros [= <- <-]. exists []. simpl. rewrite app_nil_r.
    split_and!; [done..|]. intros db' Hr. ok_bind Hr as u Hu. apply (proj1 (Ok_inj _ _)) in Hr as <-.
    ok_inv. apply Nat.eqb_eq, nil_length_inv in Hu. done.
  - destruct (activation_loop _ _ _) as [st r0] eqn:Eloop. intros [= <- <-].
    eapply (activation_loop_spec n (fd_pso db) news acts) in Eloop as (l & Hl & [Hm Hacts Hwl Hnl Hp] & _ & Hdone).
    + exists l. split_and!; [done..|]. intros db' Hr. ok_bind Hr as u Hu. destruct u. specialize (Hdone Hu) as ->.
      ok_bind Hr as u Hu2. apply (proj1 (Ok_inj _ _)) in Hr as <-.
      split_and!; [done| |done]. split; simpl; [|done|done]. rewrite Hp. simpl. by rewrite Hd.
    + split; simpl; [done..|]. by destruct (fd_pso db).
    + done.
Qed.

(** ** What the checks on new features establish *)

Lemma check_from_app ts cur before l1 l2 :
  check_from s ts cur before (l1 ++ l2) = (check_from s ts cur before l1 ;; check_from s ts cur (before ++ l1) l2).
Proof.
  revert before. induction l1 as [|d l1 IH]; intros before; simpl; [by rewrite app_nil_r|].
  destruct (is_recognized _ _ _); [done..|]. cbn [mbind result_bind].
  destruct (negb _); [|done]. cbn [check mbind result_bind]. destruct (validate_dependencies _ _ _); [|done].
  cbn [check mbind result_bind]. rewrite IH. by rewrite <- app_assoc.
Qed.

Lemma check_from_one ts cur before d :
  check_from s ts cur before [d] = Ok tt <->
  is_recognized s d (to_time_point ts) = ready /\ d ∉ cur /\
  exists f, _recognized_protocol_features s !! d = Some f /\
    forall d', d' ∈ pf_dependencies f -> d' ∈ cur \/ d' ∈ before.
Proof.
  simpl. unfold validate_dependencies. split.
  - intros Hr. ok_bind Hr as u Hready. ok_bind Hr as u2 Hcur. ok_bind Hr as u3 Hdep. ok_inv.
    destruct (is_recognized s d _); [done..|]. split_and!; [done|done|].
    destruct (_recognized_protocol_features s !! d) as [f|]; [|done]. exists f. split; [done|].
    intros d' Hd'. rewrite forallb_forall in Hdep. specialize (Hdep d').
    rewrite <- list_elem_of_In, elem_of_elements in Hdep. specialize (Hdep Hd').
    apply orb_true_iff in Hdep as [?%bool_decide_eq_true|?%bool_decide_eq_true]; tauto.
  - intros (-> & Hcur & f & -> & Hdeps). cbn [mbind result_bind]. rewrite bool_decide_eq_false_2 by done.
    cbn [negb check mbind result_bind].
    assert (forallb (fun d0 => bool_decide (d0 ∈ cur) || bool_decide (d0 ∈ before)) (elements (pf_dependencies f)) = true) as ->.
    { apply forallb_forall. intros d' Hd'. apply list_elem_of_In, elem_of_elements, Hdeps in Hd'.
      apply orb_true_iff. rewrite !bool_decide_eq_true. done. }
    done.
Qed.

Lemma check_from_split ts cur l1 d l2 : check_protocol_features s ts cur (l1 ++ d :: l2) = Ok tt ->
  check_from s ts cur l1 [d] = Ok tt.
Proof.
  unfold check_protocol_features. change (d :: l2) with ([d] ++ l2). rewrite !check_from_app. intros Hr.
  ok_bind Hr as u Hu. ok_bind Hr as u2 Hu2. by destruct u2.
Qed.

(** Features that passed the check come after their dependencies. *)
Lemma checked_closed ts acts k news : acts_closed s acts ->
  check_protocol_features s ts (list_to_set acts.*1) news = Ok tt -> acts_closed s (acts ++ at_block k news).
Proof.
  intros Hc Hr before a after f Hsplit Hf d Hd.
  apply app_eq_inv in Hsplit as [(l & -> & Hl)|(l & -> & Hl)].
  - destruct l as [|x l].
    + (* the feature is the first new one *)
      rewrite app_nil_r in *. simpl in Hl. destruct news as [|y news]; [done|]. injection Hl as Ha _. subst a.
      apply (check_from_split ts _ [] y news), check_from_one in Hr as (_ & _ & f' & Hf' & Hdep).
      simpl in Hf. rewrite Hf in Hf'. injection Hf' as <-. destruct (Hdep d Hd) as [?%elem_of_list_to_set|?%not_elem_of_nil]; done.
    + injection Hl as <- ->. by eapply Hc.
  - apply fmap_app_inv in Hl as (l1 & l2 & -> & Hl2 & ->).
    destruct l2 as [|y l2]; [done|]. injection Hl2 as Ha _. subst a.
    apply check_from_split, check_from_one in Hr as (_ & _ & f' & Hf' & Hdep).
    simpl in Hf. rewrite Hf in Hf'. injection Hf' as <-. rewrite fmap_app, elem_of_app.
    change ((fun d0 => (d0, k)) <$> l1) with (at_block k l1). rewrite at_block_fst.
    destruct (Hdep d Hd) as [?%elem_of_list_to_set|?]; tauto.
Qed.
End ActivationSpec.
