(* ===== verification/FeatureRuns.v ===== *)
(** * Protocol features along the chain

    The steps of a node that concern protocol features, the invariant they
    keep, and why what was preactivated can be activated. *)

From Stdlib Require Import ZArith Lia String Ascii.
From stdpp Require Import base numbers gmap strings countable sorting list relations.
From S2P Require Import Prelude Boost Merkle BlockHeader BlockTimestamp Accumulator ResourceLimits Intrinsics Hex ProtocolFeatures.
From S2P Require Import ProtocolFeaturesSpec FeatureActivation FeatureActivationSpec.
Local Open Scope Z_scope.
Local Open Scope list_scope.
#[local] Opaque genesis_intrinsics.

Section Runs.
Context `{StringHash}.
Implicit Types (s : protocol_feature_set) (d : digest) (acts : activations) (db : feature_db).
Implicit Types (m : protocol_feature_manager) (c : feature_ctl) (news : list digest).

Definition pfs_of c : protocol_feature_set := _protocol_feature_set (fc_pfm c).

(** What a node does.  A block is started after its features were checked, when
    producing against the time of the head, when validating against its own;
    transactions change usage and corrections; only a block that was started
    for real is committed. *)
Inductive feature_step : feature_ctl -> feature_ctl -> Prop :=
| step_start c modify when ts news :
    bi_num (fc_head c) + 1 < not_active ->
    check_protocol_features (pfs_of c) ts (bi_activated (fc_head c)) news = Ok tt ->
    feature_step c (features_start_block modify when news c).1
| step_preactivate c producing d c' :
    ctl_preactivate_feature producing d c = Ok c' -> feature_step c c'
| step_execute c corrections res p :
    fc_pending c = Some p ->
    feature_step c (with_db c (mk_fdb (fd_pso (fc_db c)) corrections res))
| step_abort c c' : features_abort_block c = Ok c' -> feature_step c c'
| step_commit c p c' :
    fc_pending c = Some p -> pb_modified p = true -> features_commit_block c = Ok c' -> feature_step c c'
| step_pop c c' : fc_pending c = None -> features_pop_block c = Ok c' -> feature_step c c'.

(** The activations before the pending block and in it. *)
Record ctl_ok s c acts new : Prop := {
  ok_pfm : fc_pfm c = manager_of s (acts ++ at_block (bi_num (fc_head c) + 1) new);
  ok_acts : acts_ok s (acts ++ at_block (bi_num (fc_head c) + 1) new);
  ok_closed : acts_closed s (acts ++ at_block (bi_num (fc_head c) + 1) new);
  ok_pending :
    match fc_pending c with
    | None => new = [] /\ chain_ok s acts (fc_head c) (fc_db c) (fc_previous c)
    | Some p =>
      chain_ok s acts (fc_head c) (pb_saved p) (fc_previous c) /\ bi_num (fc_head c) + 1 < not_active /\
      new = take (_num_new_protocol_features_that_have_activated p) (_new_protocol_feature_activations p) /\
      db_ok s (acts ++ at_block (bi_num (fc_head c) + 1) new) (fc_db c) /\
      (pb_modified p = true ->
         new = _new_protocol_feature_activations p /\
         check_protocol_features s (pb_timestamp p)
           (list_to_set (acts ++ at_block (bi_num (fc_head c) + 1) new).*1)
           (ps_preactivated (fd_pso (fc_db c))) = Ok tt /\
         NoDup (ps_preactivated (fd_pso (fc_db c))))
    end }.

Context s (Hs : pfs_ok s).

Lemma chain_head acts b db prevs : chain_ok s acts b db prevs -> block_ok s acts b db.
Proof. destruct prevs as [|[? ?] ?]; by intros [? _]. Qed.

Lemma ok_head c acts new : ctl_ok s c acts new ->
  Forall (fun a => a.2 <= bi_num (fc_head c)) acts /\
  bi_activated (fc_head c) = list_to_set acts.*1 /\ 0 <= bi_num (fc_head c) < not_active.
Proof.
  intros [_ _ _ Hp]. destruct (fc_pending c) as [p|].
  - destruct Hp as (Hb%chain_head & _). split_and!; apply Hb.
  - destruct Hp as (_ & Hb%chain_head). split_and!; apply Hb.
Qed.

Lemma ok_acts_head c acts new : ctl_ok s c acts new -> acts_ok s acts /\ acts_closed s acts.
Proof.
  intros [_ Ha Hc _]. split; [by eapply acts_prefix|].
  intros before a after f Hsplit. eapply (Hc before a (after ++ at_block _ new)).
  rewrite Hsplit. by rewrite <- app_assoc.
Qed.

(** [is_protocol_feature_activated] is membership in the activations. *)
Lemma activated_spec c acts new d : ctl_ok s c acts new ->
  is_protocol_feature_activated c d = bool_decide (d ∈ (acts ++ at_block (bi_num (fc_head c) + 1) new).*1).
Proof.
  intros Hok. pose proof (ok_head c acts new Hok) as (_ & Hact & _). pose proof (ok_pending s c acts new Hok) as Hp.
  unfold is_protocol_feature_activated. rewrite Hact, fmap_app, at_block_fst.
  assert (Hl : bool_decide (d ∈ (list_to_set acts.*1 : gset digest)) = bool_decide (d ∈ acts.*1))
    by (apply bool_decide_ext, elem_of_list_to_set).
  destruct (fc_pending c) as [p|].
  - destruct Hp as (_ & _ & -> & _). rewrite Hl, (bool_decide_ext (d ∈ _ ++ _) _ (elem_of_app _ _ _)), bool_decide_or.
    f_equal. destruct (Nat.eqb_spec (_num_new_protocol_features_that_have_activated p) 0) as [->|]; [|done].
    symmetry. apply bool_decide_eq_false, not_elem_of_nil.
  - destruct Hp as [-> _]. by rewrite Hl, app_nil_r.
Qed.

(** Popping the manager back to the head. *)
Lemma pop_to_head c acts new m : ctl_ok s c acts new -> 
  popped_blocks_to (bi_num (fc_head c)) (fc_pfm c) = Ok m -> m = manager_of s acts.
Proof.
  intros Hok Hm. pose proof (ok_head c acts new Hok) as (Hn & _). rewrite (ok_pfm s c acts new Hok) in Hm.
  destruct (pop_refines s Hs _ (bi_num (fc_head c)) (ok_acts s c acts new Hok)) as [Hr _].
  rewrite Hr in Hm. apply (proj1 (Ok_inj _ _)) in Hm as <-. by rewrite spec_pop_block by (done || lia).
Qed.

(** ** The steps *)

Lemma start_block_none c modify when news : fc_pending c = None ->
  features_start_block modify when news c =
    if modify then
      match start_features (u32 (bi_num (fc_head c) + 1)) news (fc_db c) (fc_pfm c) with
      | (m, Ok db) => (mk_fctl m db (fc_head c) (fc_previous c)
                         (Some (mk_pending modify when news (length news) (fc_db c))), Ok tt)
      | (m, Err e) =>
        match popped_blocks_to (bi_num (fc_head c)) m with
        | Ok m => (with_pfm c m, Err e)
        | Err e' => (with_pfm c m, Err e')
        end
      end
    else (mk_fctl (fc_pfm c) (fc_db c) (fc_head c) (fc_previous c)
            (Some (mk_pending modify when news 0 (fc_db c))), Ok tt).
Proof. intros Hp. unfold features_start_block. rewrite Hp. by destruct modify. Qed.

(** A block that could not be started leaves the node as it was. *)
Lemma start_fails c acts new modify when news e : ctl_ok s c acts new ->
  bi_num (fc_head c) + 1 < not_active ->
  (features_start_block modify when news c).2 = Err e -> (features_start_block modify when news c).1 = c.
Proof.
  intros Hok Hnum. destruct (fc_pending c) as [p|] eqn:Hp; [by unfold features_start_block; rewrite Hp|].
  rewrite start_block_none by done. destruct modify; [|done].
  pose proof (ok_head c acts new Hok) as (Hn & _ & Hrange). pose proof (ok_pending s c acts new Hok) as Hpend.
  rewrite Hp in Hpend. destruct Hpend as [-> Hb%chain_head]. pose proof (ok_pfm s c acts [] Hok) as Hm.
  simpl in Hm. rewrite app_nil_r in Hm.
  rewrite u32_small by (unfold not_active in *; mach_lia). rewrite Hm.
  destruct (start_features _ _ _ _) as [m r] eqn:Estart.
  eapply start_features_spec in Estart as (l & -> & Hl & _);
    [|done|by apply (ok_acts_head c acts [])|apply Hb|lia].
  destruct r as [db|e']; [done|].
  destruct (pop_refines s Hs _ (bi_num (fc_head c)) Hl) as [-> _]. intros _. cbn [fst].
  rewrite spec_pop_block, <- Hm by (done || lia). by destruct c.
Qed.

Lemma start_ok c acts new modify when ts news : ctl_ok s c acts new -> fc_pending c = None ->
  bi_num (fc_head c) + 1 < not_active ->
  check_protocol_features s ts (bi_activated (fc_head c)) news = Ok tt ->
  (features_start_block modify when news c).2 = Ok tt ->
  ctl_ok s (features_start_block modify when news c).1 acts (if modify then news else []).
Proof.
  intros Hok Hp Hnum Hcheck. rewrite start_block_none by done.
  pose proof (ok_head c acts new Hok) as (Hn & Hact & Hrange). pose proof (ok_pending s c acts new Hok) as Hpend.
  rewrite Hp in Hpend. destruct Hpend as [-> Hchain]. pose proof (chain_head _ _ _ _ Hchain) as Hb.
  pose proof (ok_acts_head c acts [] Hok) as [Hacts Hclosed].
  pose proof (ok_pfm s c acts [] Hok) as Hm. simpl in Hm. rewrite app_nil_r in Hm.
  destruct modify.
  - rewrite u32_small by (unfold not_active in *; mach_lia). rewrite Hm.
    destruct (start_features _ _ _ _) as [m r] eqn:Estart.
    eapply start_features_spec in Estart as (l & -> & Hl & Hdone); [|done|done|apply Hb|lia].
    destruct r as [db|e]; [|by destruct (popped_blocks_to _ _)]. intros _.
    destruct (Hdone db eq_refl) as (-> & Hdb & Hpre). split; simpl; [done|done| |].
    + rewrite Hact in Hcheck. by eapply checked_closed.
    + split_and!; [done|done|by rewrite firstn_all|done|]. intros _. rewrite Hpre.
      split_and!; [done|done|constructor].
  - intros _. split; simpl; rewrite ?app_nil_r; [done..|].
    split_and!; [done|done|done|apply Hb|done].
Qed.

Lemma preactivate_ok c acts new producing d c' : ctl_ok s c acts new ->
  ctl_preactivate_feature producing d c = Ok c' -> ctl_ok s c' acts new.
Proof.
  intros Hok Hr. pose proof (activated_spec c acts new) as Hact. unfold ctl_preactivate_feature in Hr.
  ok_bind Hr as p Hp. apply of_option_ok in Hp. ok_bind Hr as u Hrec. ok_bind Hr as u2 Hnew.
  ok_bind Hr as u3 Hnpre. ok_bind Hr as u4 Hdep. apply (proj1 (Ok_inj _ _)) in Hr as <-. ok_inv.
  pose proof (ok_pfm s c acts new Hok) as Hm. rewrite Hm in Hrec, Hdep. cbn [manager_of _protocol_feature_set] in *.
  destruct Hok as [_ Ha Hc Hpend]. split; simpl; [done..|]. rewrite Hp in *.
  destruct Hpend as (H1 & H2 & H3 & [Hd Hw Hn] & Hmod). split_and!; [done|done|done|by split|].
  intros Hmodified. destruct (Hmod Hmodified) as (Hnews & Hcheck & Hnd). split_and!; [done| |].
  - unfold check_protocol_features in *. rewrite check_from_app, Hcheck. cbn [mbind result_bind].
    apply check_from_one. rewrite Hact in Hnew by (split; [done..|by rewrite Hp]).
    apply bool_decide_eq_false in Hnew. destruct (is_recognized s d _); [done..|].
    split_and!; [done|by rewrite elem_of_list_to_set|]. unfold validate_dependencies in Hdep.
    destruct (_recognized_protocol_features s !! d) as [f|]; [|done]. exists f. split; [done|]. intros d' Hd'.
    rewrite forallb_forall in Hdep. specialize (Hdep d' ltac:(by apply list_elem_of_In, elem_of_elements)).
    rewrite Hact in Hdep by (split; [done..|by rewrite Hp]). rewrite elem_of_list_to_set.
    by apply orb_true_iff in Hdep as [?%bool_decide_eq_true|?%bool_decide_eq_true]; [left|right].
  - apply NoDup_app. split_and!; [done| |apply NoDup_singleton].
    intros x Hx ->%list_elem_of_singleton. done.
Qed.

Lemma abort_spec c acts new p c' : ctl_ok s c acts new -> fc_pending c = Some p ->
  features_abort_block c = Ok c' ->
  c' = mk_fctl (manager_of s acts) (pb_saved p) (fc_head c) (fc_previous c) None.
Proof.
  intros Hok Hp Hr. unfold features_abort_block in Hr. rewrite Hp in Hr. ok_bind Hr as m Hm.
  apply (pop_to_head c acts new) in Hm as ->; [|done]. by apply (proj1 (Ok_inj _ _)) in Hr as <-.
Qed.

Lemma abort_ok c acts new c' : ctl_ok s c acts new -> features_abort_block c = Ok c' ->
  exists acts' new', ctl_ok s c' acts' new'.
Proof.
  intros Hok Hr. destruct (fc_pending c) as [p|] eqn:Hp.
  - rewrite (abort_spec c acts new p c' Hok Hp Hr). exists acts, [].
    pose proof (ok_pending s c acts new Hok) as Hpend. rewrite Hp in Hpend. destruct Hpend as (Hchain & _).
    destruct (ok_acts_head c acts new Hok). split; simpl; rewrite ?app_nil_r; done.
  - unfold features_abort_block in Hr. rewrite Hp in Hr. apply (proj1 (Ok_inj _ _)) in Hr as <-. eauto.
Qed.

Lemma commit_ok c acts new p c' : ctl_ok s c acts new -> fc_pending c = Some p -> pb_modified p = true ->
  features_commit_block c = Ok c' -> ctl_ok s c' (acts ++ at_block (bi_num (fc_head c) + 1) new) [].
Proof.
  intros Hok Hp Hmod Hr. unfold features_commit_block in Hr. rewrite Hp in Hr. cbn [of_option mbind result_bind] in Hr.
  ok_bind Hr as act Hact. apply (proj1 (Ok_inj _ _)) in Hr as <-.
  pose proof (ok_head c acts new Hok) as (Hn & Hh & Hrange).
  destruct Hok as [Hm Ha Hc Hpend]. rewrite Hp in Hpend. destruct Hpend as (Hchain & Hnum & _ & Hdb & Hpre).
  destruct (Hpre Hmod) as (Hnews & Hcheck & Hnd). unfold activation_set in Hact. ok_bind Hact as u Hu.
  apply (proj1 (Ok_inj _ _)) in Hact as <-. rewrite Hh, <- Hnews.
  assert (Hunion : (list_to_set acts.*1 ∪ list_to_set new : gset digest) =
            list_to_set (acts ++ at_block (bi_num (fc_head c) + 1) new).*1)
    by (by rewrite fmap_app, at_block_fst, list_to_set_app_L).
  split; simpl; rewrite ?app_nil_r; [done..|]. split; [done|].
  rewrite u32_small by (unfold not_active in *; mach_lia). split.
  - split; simpl; [exact Hunion| |lia|done|by rewrite Hunion|done].
    apply Forall_app. split; [eapply Forall_impl; [exact Hn|]; simpl; lia|].
    apply Forall_forall. intros a (x & -> & _)%list_elem_of_fmap. simpl. lia.
  - split; [done|]. by rewrite spec_pop_block by (done || lia).
Qed.

Lemma features_pop_ok c acts new c' : ctl_ok s c acts new -> fc_pending c = None -> features_pop_block c = Ok c' ->
  exists acts', ctl_ok s c' acts' [].
Proof.
  intros Hok Hp Hr. pose proof (ok_acts_head c acts new Hok) as [Ha Hc].
  pose proof (ok_pfm s c acts new Hok) as Hm. pose proof (ok_pending s c acts new Hok) as Hpend.
  rewrite Hp in Hpend. destruct Hpend as [-> Hchain]. simpl in Hm. rewrite app_nil_r in Hm.
  unfold features_pop_block in Hr. destruct (fc_previous c) as [|[b db] rest]; [done|].
  destruct Hchain as [_ [_ Hchain]]. destruct (pop_refines s Hs acts (bi_num b) Ha) as [Hpop Ha'].
  rewrite Hm, Hpop in Hr. cbn [mbind result_bind] in Hr. apply (proj1 (Ok_inj _ _)) in Hr as <-.
  exists (spec_pop (bi_num b) acts). split; simpl; rewrite ?app_nil_r; [done|done| |by rewrite Hp].
  intros before a after f Hsplit. assert (exists tail, acts = spec_pop (bi_num b) acts ++ tail) as [tail Htail].
  { clear -Ha. destruct Ha as [_ _ Hsort _]. induction acts as [|x l IH] using rev_ind; [by exists []|].
    destruct (decide (x.2 <= bi_num b)); [exists []; by rewrite spec_pop_all, app_nil_r by done|].
    destruct IH as [t Ht]; [by apply StronglySorted_app in Hsort as (_ & ? & _)|].
    exists (t ++ [x]). rewrite spec_pop_last by lia. by rewrite app_assoc, <- Ht. }
  eapply (Hc before a (after ++ tail)). rewrite Htail, Hsplit. by rewrite <- app_assoc.
Qed.

(** Every step keeps the invariant. *)
Lemma step_ok c acts new c' : ctl_ok s c acts new -> feature_step c c' -> exists acts' new', ctl_ok s c' acts' new'.
Proof.
  intros Hok Hstep. pose proof (ok_pfm s c acts new Hok) as Hm. destruct Hstep.
  - unfold pfs_of in *. rewrite Hm in *. cbn [manager_of _protocol_feature_set] in *.
    destruct ((features_start_block modify when news c).2) as [[]|e] eqn:E.
    + destruct (fc_pending c) as [p|] eqn:Hp; [by unfold features_start_block in E; rewrite Hp in E|].
      do 2 eexists. by eapply (start_ok c acts new modify when ts news).
    + rewrite (start_fails c acts new modify when news e) by done. eauto.
  - do 2 eexists. by eapply preactivate_ok.
  - exists acts, new. destruct Hok as [_ Ha Hc Hpend]. split; simpl; [done..|].
    match goal with Hp : fc_pending c = Some _ |- _ => rewrite Hp in * end.
    destruct Hpend as (H1 & H2 & H3 & [Hd Hw Hn] & Hmod). split_and!; [done|done|done|by split|done].
  - by eapply abort_ok.
  - do 2 eexists. by eapply commit_ok.
  - destruct (features_pop_ok c acts new c') as [acts' ?]; [done..|]. eauto.
Qed.

Lemma steps_ok c acts new c' : ctl_ok s c acts new -> rtc feature_step c c' -> exists acts' new', ctl_ok s c' acts' new'.
Proof.
  intros Hok Hsteps. revert acts new Hok. induction Hsteps as [|c c1 c' Hstep _ IH]; intros acts new Hok; [eauto|].
  destruct (step_ok c acts new c1 Hok Hstep) as (? & ? & ?). eauto.
Qed.

(** ** What was preactivated can be activated *)

(** The accounts with a correction have their usage recorded. *)
Definition usage_known (res : rdb) (a : Z) : Prop :=
  exists u, usages res !! a = Some u /\ 0 <= ram_usage u < 2 ^ 63.
Definition corrections_ok db : Prop :=
  Forall (fun x => is_u64 x.2 /\ usage_known (fd_resources db) x.1) (fd_corrections db).

Lemma correct_ram_ok res (c : Z * Z) : is_u64 c.2 -> usage_known res c.1 ->
  exists res', correct_ram res c = Ok res' /\ forall a, usage_known res a -> usage_known res' a.
Proof.
  intros Hc (u & Hu & Hr). unfold correct_ram, get_account_ram_usage, get_usage. rewrite Hu. cbn [of_option mbind result_bind].
  rewrite i64_small, u64_small by mach_lia.
  set (k := if c.2 >? ram_usage u then ram_usage u else c.2).
  assert ((if c.2 >? ram_usage u then i64 (- ram_usage u) else i64 (- i64 c.2)) = - k /\ 0 <= k <= ram_usage u) as [-> Hk].
  { subst k. rewrite Z.gtb_ltb. destruct (ram_usage u <? c.2) eqn:E.
    - rewrite i64_small by mach_lia. lia.
    - rewrite (i64_small c.2), i64_small by mach_lia. mach_lia. }
  unfold add_pending_ram_usage. destruct (- k =? 0) eqn:E0; [by exists res|]. unfold get_usage. rewrite Hu.
  cbn [of_option mbind result_bind]. replace (- k <=? 0) with true by lia.
  cbn [orb check mbind result_bind].
  replace (u64 (i64 (- - k))) with k by (rewrite Z.opp_involutive, i64_small, u64_small by mach_lia; done).
  rewrite (proj2 (Z.geb_le (ram_usage u) k)), orb_true_r by lia. cbn [check mbind result_bind]. eexists. split; [done|].
  intros a (v & Hv & Hvr). unfold usage_known. cbn [set_usages usages]. destruct (decide (a = c.1)) as [->|].
  - rewrite lookup_insert_eq. eexists. split; [done|]. cbn [ram_usage]. rewrite u64_small by mach_lia. lia.
  - rewrite lookup_insert_ne by done. eauto.
Qed.

Lemma correct_all_ok l res : Forall (fun x => is_u64 x.2 /\ usage_known res x.1) l ->
  exists res', mfold correct_ram l res = Ok res'.
Proof.
  revert res. induction l as [|x l IH]; intros res Hl; [by eexists|]. apply Forall_cons in Hl as [[Hc Hu] Hl].
  destruct (correct_ram_ok res x Hc Hu) as (res1 & Hr & Hkeep). simpl. rewrite Hr. cbn [mbind result_bind].
  apply IH. eapply Forall_impl; [exact Hl|]. intros y [Hy ?]. split; [done | by apply Hkeep].
Qed.

Lemma whitelist_intrinsics_ok l db : whitelist_ok (ps_whitelist (fd_pso db)) -> NoDup l ->
  (forall n, n ∈ l -> n ∉ intrinsic_names (ps_whitelist (fd_pso db))) ->
  exists db', whitelist_intrinsics l db = Ok db' /\
    fd_corrections db' = fd_corrections db /\ fd_resources db' = fd_resources db.
Proof.
  intros Hok Hd Hn. destruct (add_all_spec l _ Hok Hd Hn) as (w & Hw & _). unfold whitelist_intrinsics.
  rewrite Hw. cbn [mbind result_bind]. eexists. done.
Qed.

Lemma trigger_live f db : whitelist_ok (ps_whitelist (fd_pso db)) -> corrections_ok db ->
  (forall n, n ∈ handler_names f -> n ∉ intrinsic_names (ps_whitelist (fd_pso db))) ->
  exists db', trigger_activation_handler f db = Ok db' /\ corrections_ok db'.
Proof.
  intros Hok Hc Hn. unfold corrections_ok in *.
  destruct f; try (exists db; split; [reflexivity | done]); cbn [trigger_activation_handler handler_names] in *.
  - destruct (whitelist_intrinsics_ok ["preactivate_feature"; "is_feature_activated"]%string db) as (db' & Hr & H1 & H2);
      [done| | |exists db'; split; [done|]; by rewrite H1, H2].
    + apply (bool_decide_unpack _). vm_cast_no_check I.
    + intros n Hin. apply Hn. set_solver.
  - destruct (correct_all_ok _ _ Hc) as [res Hr]. rewrite Hr. cbn [mbind result_bind]. eexists. split; [done|]. constructor.
  - destruct (whitelist_intrinsics_ok ["get_sender"]%string db) as (db' & Hr & H1 & H2);
      [done| | |exists db'; split; [done|]; by rewrite H1, H2].
    + apply NoDup_singleton.
    + intros n Hin. apply Hn. set_solver.
Qed.

(** The names a feature brings are neither in the genesis list nor brought by
    another feature. *)
Lemma handler_names_cases f n : n ∈ handler_names f ->
  f = preactivate_feature /\ (n = "preactivate_feature" \/ n = "is_feature_activated")%string \/
  f = get_sender /\ n = "get_sender"%string.
Proof.
  destruct f; cbn [handler_names]; try (by intros ?%not_elem_of_empty); rewrite ?elem_of_union, !elem_of_singleton; tauto.
Qed.

Lemma handler_names_new f n : n ∈ handler_names f -> n ∉ (list_to_set genesis_intrinsics : gset string).
Proof.
  intros [[_ [->| ->]]|[_ ->]]%handler_names_cases; apply (bool_decide_unpack _); vm_cast_no_check I.
Qed.

Lemma handler_names_disjoint f g n : n ∈ handler_names f -> n ∈ handler_names g -> f = g.
Proof.
  intros [[-> Hn]|[-> Hn]]%handler_names_cases [[-> Hm]|[-> Hm]]%handler_names_cases;
    try reflexivity; subst n; exfalso; by destruct_or!.
Qed.

Lemma names_free acts d f : codename_of s d = Some f -> d ∉ acts.*1 ->
  forall n, n ∈ handler_names f -> n ∉ expected_names s acts.
Proof.
  intros Hf Hd n Hn. unfold expected_names. rewrite not_elem_of_union. split; [by eapply handler_names_new|].
  intros (X & HX & HnX)%elem_of_union_list. apply list_elem_of_fmap in HX as (a & -> & Ha).
  unfold names_of in HnX. destruct (codename_of s a.1) as [g|] eqn:Eg; [|set_solver].
  assert (f = g) as <- by (by eapply handler_names_disjoint).
  apply Hd, list_elem_of_fmap. exists a. split; [|done]. by eapply codename_inj.
Qed.

Lemma activate_one_live acts pso0 n d st : loop_ok s acts pso0 st -> corrections_ok (as_db st) ->
  0 <= n < not_active -> Forall (fun a => a.2 <= n) acts -> is_Some (_recognized_protocol_features s !! d) ->
  d ∉ acts.*1 -> as_map st !! d = Some false ->
  exists st', activate_one n d st = Ok st' /\ corrections_ok (as_db st') /\
    as_map st' = <[d := true]> (as_map st) /\
    num_preactivated_features_that_have_activated st' = S (num_preactivated_features_that_have_activated st).
Proof.
  intros [Hm Ha Hw Hn Hp] Hc Hrange Hnums [f Hf] Hd Hmap. unfold activate_one, get_protocol_feature.
  rewrite Hm. cbn [manager_of _protocol_feature_set]. rewrite Hf. cbn [of_option mbind result_bind].
  rewrite Hmap. cbn [negb check mbind result_bind]. destruct (pfs_keys s Hs d f Hf) as (_ & b & Hb & _). rewrite Hb.
  destruct (trigger_live b (as_db st) Hw Hc) as (db' & Hdb & Hc').
  { intros k Hk. rewrite Hn. eapply names_free; [|done|done]. unfold codename_of. by rewrite Hf. }
  rewrite Hdb. cbn [mbind result_bind]. pose proof (activate_refines s Hs acts d n Ha Hrange) as Href.
  unfold manager_of in Href |- *.
  destruct (spec_activate s d n acts) as [acts'|] eqn:Es.
  - destruct (activate_feature _ _ _) as [m'|e]; [|done]. cbn [mbind result_bind]. eexists. split; [done|]. done.
  - exfalso. unfold spec_activate in Es. rewrite !bool_decide_eq_true_2 in Es by (done || by eexists).
    destruct (last acts) as [z|] eqn:Ez; [|done]. rewrite Forall_forall in Hnums.
    specialize (Hnums z ltac:(by eapply last_Some_elem_of)). cbn [andb] in Es.
    rewrite (proj2 (Z.leb_le _ _) Hnums) in Es. done.
Qed.

Lemma activation_loop_live n pso0 news acts st : loop_ok s acts pso0 st -> corrections_ok (as_db st) ->
  0 <= n < not_active -> Forall (fun a => a.2 <= n) acts -> NoDup news ->
  (forall d, d ∈ news -> is_Some (_recognized_protocol_features s !! d) /\ d ∉ acts.*1 /\ as_map st !! d = Some false) ->
  exists st', activation_loop n news st = (st', Ok tt) /\
    num_preactivated_features_that_have_activated st' =
      (num_preactivated_features_that_have_activated st + length news)%nat.
Proof.
  intros Hok Hc Hrange. revert acts st Hok Hc. induction news as [|d news IH]; intros acts st Hok Hc Hnums Hnd Hall; simpl.
  - exists st. split; [done | lia].
  - apply NoDup_cons in Hnd as [Hdn Hnd]. destruct (Hall d ltac:(by left)) as (Hrec & Hd & Hmap).
    destruct (activate_one_live acts pso0 n d st) as (st1 & Hr & Hc1 & Hmap1 & Hn1); [done..|]. rewrite Hr.
    destruct (activate_one_spec s Hs acts pso0 n d st st1 Hok Hrange Hr) as [Hok1 _].
    destruct (IH _ _ Hok1 Hc1) as (st' & Hr' & Hn').
    + apply Forall_app. split; [done|]. constructor; [simpl; lia | constructor].
    + done.
    + intros x Hx. destruct (Hall x ltac:(by right)) as (Hx1 & Hx2 & Hx3).
      rewrite fmap_app, Hmap1. simpl. split_and!; [done| |rewrite lookup_insert_ne; [done | congruence]].
      rewrite not_elem_of_app, list_elem_of_singleton. split; [done | congruence].
    + exists st'. split; [done|]. lia.
Qed.

Lemma start_features_live n acts db : acts_ok s acts -> db_ok s acts db -> corrections_ok db ->
  0 <= n < not_active -> Forall (fun a => a.2 <= n) acts -> NoDup (ps_preactivated (fd_pso db)) ->
  (forall d, d ∈ ps_preactivated (fd_pso db) -> is_Some (_recognized_protocol_features s !! d) /\ d ∉ acts.*1) ->
  exists m db', start_features n (ps_preactivated (fd_pso db)) db (manager_of s acts) = (m, Ok db').
Proof.
  intros Ha [Hd Hw Hn] Hc Hrange Hnums Hnd Hall. unfold start_features.
  destruct (Nat.eqb (length (ps_preactivated (fd_pso db))) 0) eqn:E; [by do 2 eexists|].
  set (st := mk_as _ 0 db (manager_of s acts) 0).
  destruct (activation_loop_live n (fd_pso db) (ps_preactivated (fd_pso db)) acts st) as (st' & Hr & Hcount).
  - split; cbn [as_pfm as_db st]; [done..|]. by destruct (fd_pso db).
  - done.
  - done.
  - done.
  - done.
  - intros d Hin. destruct (Hall d Hin). split_and!; [done|done|]. cbn [as_map st].
    apply elem_of_list_to_map_1; [|by apply list_elem_of_fmap; exists d].
    by rewrite <- list_fmap_compose, (list_fmap_id _).
  - rewrite Hr. cbn [mbind result_bind]. rewrite Hcount. cbn [st num_preactivated_features_that_have_activated Nat.add].
    rewrite Nat.eqb_refl, orb_true_r. cbn [check mbind result_bind]. do 2 eexists. done.
Qed.

(** ** Starting up *)

Lemma make_manager_init : set_initialized true (make_manager s) = manager_of s [].
Proof. reflexivity. Qed.

(** [init] with the activations of the database, after a restart, gives the
    manager that had recorded them. *)
Lemma init_restores acts : acts_ok s acts -> init acts (make_manager s) = (manager_of s acts, Ok tt).
Proof.
  intros Hok. unfold init. cbn [make_manager _initialized]. change (mk_pfm s [] _ no_previous false) with (make_manager s).
  rewrite make_manager_init.
  assert (forall l before, acts_ok s (before ++ l) -> activate_all l (manager_of s before) = (manager_of s (before ++ l), Ok tt)) as Hall.
  2: { by rewrite (Hall acts []). }
  induction l as [|[d n] l IH]; intros before Hok'; simpl; [by rewrite app_nil_r|].
  assert (acts_ok s (before ++ [(d, n)])) as Hok1.
  { change (before ++ (d, n) :: l) with (before ++ [(d, n)] ++ l) in Hok'. rewrite app_assoc in Hok'. by eapply acts_prefix. }
  destruct Hok1 as [H1 H2 H3 H4]. apply Forall_app in H1 as [_ Hslot], H4 as [_ Hnum].
  apply Forall_cons in Hslot as [[i Hslot] _], Hnum as [Hnum _].
  pose proof (activate_refines s Hs before d n (acts_prefix s before ((d, n) :: l) Hok') Hnum) as Href.
  assert (spec_activate s d n before = Some (before ++ [(d, n)])) as Hspec.
  { unfold spec_activate. rewrite fmap_app in H2. apply NoDup_app in H2 as (_ & Hnew & _).
    rewrite !bool_decide_eq_true_2; [| |].
    - cbn [andb]. destruct (last before) as [z|] eqn:Ez; [|done].
      apply StronglySorted_app in H3 as (Hle & _). specialize (Hle z (d, n) ltac:(by eapply last_Some_elem_of) ltac:(by left)).
      simpl in Hle. by rewrite (proj2 (Z.leb_le _ _) Hle).
    - intros Hin. apply (Hnew d Hin). by left.
    - unfold slot_of, codename_of in Hslot. simpl in Hslot. destruct (_recognized_protocol_features s !! d); [by eexists | done]. }
  rewrite Hspec in Href. destruct (activate_feature d n (manager_of s before)) as [m|e]; [|done].
  destruct Href as [-> _]. rewrite IH; by rewrite <- app_assoc.
Qed.

(** A node at genesis: the genesis block is block 1. *)
Definition genesis_ctl (db : feature_db) (ts : Z) : feature_ctl :=
  mk_fctl (init (ps_activated (fd_pso db)) (make_manager s)).1 db (mk_binfo 1 ts ∅) [] None.

Lemma genesis_ctl_ok db ts : genesis_pso = Ok (fd_pso db) -> ctl_ok s (genesis_ctl db ts) [] [].
Proof.
  intros Hpso. destruct genesis_whitelist_ok as (w & Hw & Hok & Hn).
  unfold genesis_pso in Hpso. rewrite Hw in Hpso. cbn [mbind result_bind] in Hpso.
  apply (proj1 (Ok_inj _ _)) in Hpso. assert (acts_ok s []) as Ha by (split; constructor).
  split; simpl.
  - rewrite <- Hpso. cbn [ps_activated]. by rewrite init_restores.
  - done.
  - intros [] ? ? ? ?; discriminate.
  - split; [done|]. split; [|done]. split; cbn [bi_activated bi_num bi_timestamp];
      [done|constructor|unfold not_active; mach_lia| |by rewrite <- Hpso|rewrite <- Hpso; constructor].
    split; rewrite <- Hpso; simpl; [done|done|]. rewrite Hn. unfold expected_names. simpl. by rewrite union_empty_r_L.
Qed.
End Runs.
