(* ===== verification/FeatureTheorems.v ===== *)
(** * Theorems on protocol features

    Manager, protocol state and head agree in every reachable state; an aborted
    block leaves no trace; what was preactivated is activated by the next
    block; the manager implements the list of activations; the whitelist is a
    set and survives a snapshot. *)

From Stdlib Require Import ZArith Lia String Ascii.
From stdpp Require Import base numbers gmap strings countable sorting list relations.
From S2P Require Import Prelude Boost Merkle BlockHeader BlockTimestamp Accumulator ResourceLimits Intrinsics Hex ProtocolFeatures.
From S2P Require Import ProtocolFeaturesSpec FeatureActivation FeatureActivationSpec FeatureRuns.
Local Open Scope Z_scope.
Local Open Scope list_scope.
#[local] Opaque genesis_intrinsics.

Section Theorems.
Context `{StringHash} `{FeatureHash}.

(** The set of features a node recognizes, added one by one. *)
Definition build_set (l : list builtin_protocol_feature) : result protocol_feature_set :=
  mfold (fun s f => '(_, s) ← add_feature f s; Ok s) l pfs_empty.

Lemma build_set_ok l s : build_set l = Ok s -> pfs_ok s.
Proof.
  apply (mfold_inv pfs_ok); [|apply pfs_empty_ok]. intros s1 f s2 _ Hok Hr. ok_bind Hr as x Hadd. destruct x as [pf s'].
  apply (proj1 (Ok_inj _ _)) in Hr as <-. by eapply add_feature_ok.
Qed.

Lemma reachable_ok l s db ts c : build_set l = Ok s -> genesis_pso = Ok (fd_pso db) ->
  rtc feature_step (genesis_ctl s db ts) c -> exists acts new, ctl_ok s c acts new.
Proof.
  intros Hl Hpso Hsteps. apply build_set_ok in Hl. eapply steps_ok; [done| |exact Hsteps]. by apply genesis_ctl_ok.
Qed.

(** The activations of a node in a reachable state. *)
Lemma current_acts s c acts new : pfs_ok s -> ctl_ok s c acts new ->
  db_ok s (acts ++ at_block (bi_num (fc_head c) + 1) new) (fc_db c).
Proof.
  intros Hs Hok. pose proof (ok_pending s c acts new Hok) as Hp. destruct (fc_pending c) as [p|].
  - by destruct Hp as (_ & _ & _ & ? & _).
  - destruct Hp as [-> Hb%chain_head]. simpl. rewrite app_nil_r. apply Hb.
Qed.

(** The builtin test and the test by digest agree. *)
Lemma builtin_agrees s c acts new f d : pfs_ok s -> ctl_ok s c acts new -> get_builtin_digest s f = Some d ->
  ctl_is_builtin_activated c f = is_protocol_feature_activated c d.
Proof.
  intros Hs Hok Hd. rewrite (activated_spec s c acts new d Hok).
  pose proof (ok_head s c acts new Hok) as (Hn & _ & Hrange).
  assert (Hcode : codename_of s d = Some f).
  { unfold get_builtin_digest in Hd. destruct (_ !! feature_index f) as [[d'|]|] eqn:E; [|done..].
    destruct (pfs_builtins s Hs _ _ E) as (pf & b & Hpf & Hb & Hi%(inj feature_index)). subst b.
    rewrite Hpf in Hd. simpl in Hd. injection Hd as <-. destruct (pfs_keys s Hs d' pf Hpf) as [-> _].
    unfold codename_of. by rewrite Hpf. }
  unfold ctl_is_builtin_activated. pose proof (ok_acts s c acts new Hok) as Ha.
  rewrite (ok_pfm s c acts new Hok). apply eq_true_iff_eq. rewrite bool_decide_eq_true.
  assert (exists n, match fc_pending c with Some _ => u32 (bi_num (fc_head c) + 1) | None => bi_num (fc_head c) end = n /\
    n < not_active /\ Forall (fun a => a.2 <= n) (acts ++ at_block (bi_num (fc_head c) + 1) new)) as (n & -> & Hlt & Hnums).
  { pose proof (ok_pending s c acts new Hok) as Hp. destruct (fc_pending c) as [p|].
    - destruct Hp as (_ & Hlt & _). eexists. split; [done|]. rewrite u32_small by (unfold not_active in *; mach_lia).
      split; [done|]. apply Forall_app. split; [eapply Forall_impl; [exact Hn|]; simpl; lia|].
      apply Forall_forall. intros a (x & -> & _)%list_elem_of_fmap. simpl. lia.
    - destruct Hp as [-> _]. simpl. rewrite app_nil_r. eexists. split; [done|]. split; [lia | done]. }
  rewrite active_refines by done. unfold spec_active. rewrite Forall_forall in Hnums. split.
  - intros (d' & k & Hin & Hf & _). assert (d = d') as -> by (by eapply codename_inj).
    apply list_elem_of_fmap. by exists (d', k).
  - intros ([d' k] & -> & Hin)%list_elem_of_fmap. exists d', k. split_and!; [done|done|]. apply (Hnums _ Hin).
Qed.

(** In every state a node can reach from genesis: the test of a builtin
    feature and the test by its digest agree; the manager's list and the one in
    the protocol state are the same; every active feature has its dependencies
    active; the whitelisted intrinsics are those of genesis and those of the
    active features. (C8) *)
Theorem features_in_step l s db ts c :
  build_set l = Ok s -> genesis_pso = Ok (fd_pso db) -> rtc feature_step (genesis_ctl s db ts) c ->
  (forall f d, get_builtin_digest s f = Some d ->
     ctl_is_builtin_activated c f = is_protocol_feature_activated c d) /\
  (fun e => (iterator_to_protocol_feature e, activation_block_num e)) <$> _activated_protocol_features (fc_pfm c)
    = ps_activated (fd_pso (fc_db c)) /\
  (forall d f d', is_protocol_feature_activated c d = true ->
     _recognized_protocol_features s !! d = Some f -> d' ∈ pf_dependencies f ->
     is_protocol_feature_activated c d' = true) /\
  (forall n, is_intrinsic_whitelisted (ps_whitelist (fd_pso (fc_db c))) n = true <->
     n ∈ genesis_intrinsics \/
     exists d f, is_protocol_feature_activated c d = true /\ codename_of s d = Some f /\ n ∈ handler_names f).
Proof.
  intros Hl Hpso Hsteps. destruct (reachable_ok l s db ts c Hl Hpso Hsteps) as (acts & new & Hok).
  pose proof (build_set_ok l s Hl) as Hs. pose proof (current_acts s c acts new Hs Hok) as [Hd Hw Hn].
  pose proof (fun d => activated_spec s c acts new d Hok) as Hact. split; [|split; [|split]].
  - intros f d. by apply (builtin_agrees s c acts new).
  - rewrite Hd, (ok_pfm s c acts new Hok). cbn [manager_of _activated_protocol_features].
    rewrite <- list_fmap_compose. rewrite <- list_fmap_id. apply list_fmap_ext. by intros ? [] _.
  - intros d f d' Hdact Hf Hdep. rewrite Hact in *. rewrite bool_decide_eq_true in *.
    apply list_elem_of_fmap in Hdact as ([x k] & -> & Hin). apply list_elem_of_split in Hin as (l1 & l2 & Hsplit).
    rewrite Hsplit, fmap_app, elem_of_app. left. by apply (ok_closed s c acts new Hok l1 (x, k) l2 f Hsplit Hf d').
  - intros n. rewrite is_whitelisted_spec, bool_decide_eq_true, Hn by done. unfold expected_names.
    rewrite elem_of_union, elem_of_list_to_set, elem_of_union_list. apply or_iff_compat_l. split.
    + intros (X & (a & -> & Ha)%list_elem_of_fmap & HX). unfold names_of in HX.
      destruct (codename_of s a.1) as [f|] eqn:Ef; [|by apply not_elem_of_empty in HX].
      exists a.1, f. rewrite Hact, bool_decide_eq_true. split_and!; [by apply list_elem_of_fmap_2|done|done].
    + intros (d & f & Hd' & Hf & Hin). rewrite Hact, bool_decide_eq_true in Hd'.
      apply list_elem_of_fmap in Hd' as (a & -> & Ha). exists (names_of s a).
      split; [by apply list_elem_of_fmap_2|]. unfold names_of. by rewrite Hf.
Qed.

(** What happens while a block is pending. *)
Inductive in_block_step : feature_ctl -> feature_ctl -> Prop :=
| in_preactivate c producing d c' : ctl_preactivate_feature producing d c = Ok c' -> in_block_step c c'
| in_execute c corrections res : in_block_step c (with_db c (mk_fdb (fd_pso (fc_db c)) corrections res)).

Lemma in_block_ok s c acts new p c' : pfs_ok s -> ctl_ok s c acts new -> fc_pending c = Some p ->
  rtc in_block_step c c' ->
  ctl_ok s c' acts new /\ fc_pending c' = Some p /\ fc_head c' = fc_head c /\ fc_previous c' = fc_previous c.
Proof.
  intros Hs Hok Hp Hsteps. induction Hsteps as [c|c c1 c' Hstep _ IH]; [done|].
  enough (ctl_ok s c1 acts new /\ fc_pending c1 = Some p /\ fc_head c1 = fc_head c /\ fc_previous c1 = fc_previous c)
    as (H1 & H2 & H3 & H4) by (rewrite <- H3, <- H4; by apply IH).
  destruct Hstep as [c producing d c1 Hr|c corrections res].
  - split; [by eapply preactivate_ok|]. unfold ctl_preactivate_feature in Hr.
    do 5 (let x := fresh in let Hx := fresh in ok_bind Hr as x Hx). apply (proj1 (Ok_inj _ _)) in Hr as <-. done.
  - split; [|done]. destruct Hok as [Hm Ha Hc Hpend]. split; simpl; [done..|]. rewrite Hp in *.
    destruct Hpend as (H1 & H2 & H3 & [Hd Hw Hn] & Hmod). split_and!; [done|done|done|by split|done].
Qed.

(** Starting a block is all or nothing, and so is building it: a block that
    cannot be started changes nothing, and one that was started, whatever was
    preactivated and executed in it, can be aborted and leaves the node exactly
    as it was. *)
Theorem blocks_leave_no_trace l s db ts c modify when ts' news :
  build_set l = Ok s -> genesis_pso = Ok (fd_pso db) -> rtc feature_step (genesis_ctl s db ts) c ->
  fc_pending c = None -> bi_num (fc_head c) + 1 < not_active ->
  check_protocol_features s ts' (bi_activated (fc_head c)) news = Ok tt ->
  match features_start_block modify when news c with
  | (c', Err _) => c' = c
  | (c', Ok _) => forall c'', rtc in_block_step c' c'' -> features_abort_block c'' = Ok c
  end.
Proof.
  intros Hl Hpso Hsteps Hp Hnum Hcheck. destruct (reachable_ok l s db ts c Hl Hpso Hsteps) as (acts & new & Hok).
  pose proof (build_set_ok l s Hl) as Hs. destruct (features_start_block modify when news c) as [c' [[]|e]] eqn:E.
  2: { pose proof (start_fails s Hs c acts new modify when news e Hok Hnum) as Hf. rewrite E in Hf. by apply Hf. }
  intros c'' Hin. pose proof (start_ok s Hs c acts new modify when ts' news Hok Hp Hnum Hcheck) as Hok'.
  rewrite E in Hok'. specialize (Hok' eq_refl). cbn [fst] in Hok'.
  assert (exists p, fc_pending c' = Some p /\ pb_saved p = fc_db c /\ fc_head c' = fc_head c /\ fc_previous c' = fc_previous c)
    as (p & Hp' & Hsaved & Hh & Hprev).
  { rewrite start_block_none in E by done. destruct modify; [|injection E as <-; by eexists].
    destruct (start_features _ _ _ _) as [m [db'|e]]; [injection E as <-; by eexists|].
    by destruct (popped_blocks_to _ _). }
  destruct (in_block_ok s c' acts _ p c'' Hs Hok' Hp' Hin) as (Hok'' & Hp'' & Hh'' & Hprev'').
  destruct (features_abort_block c'') as [c3|e] eqn:Eabort.
  - rewrite (abort_spec s Hs c'' acts _ p c3 Hok'' Hp'' Eabort), Hsaved, Hh'', Hprev'', Hh, Hprev.
    pose proof (ok_pfm s c acts new Hok) as Hm. pose proof (ok_pending s c acts new Hok) as Hpend.
    rewrite Hp in Hpend. destruct Hpend as [-> _]. simpl in Hm. rewrite app_nil_r in Hm. rewrite <- Hm, <- Hp.
    by destruct c.
  - exfalso. unfold features_abort_block in Eabort. rewrite Hp'', (ok_pfm s _ _ _ Hok'') in Eabort.
    by rewrite (proj1 (pop_refines s Hs _ _ (ok_acts s _ _ _ Hok''))) in Eabort.
Qed.

(** What was preactivated is activated by the next block: in every reachable
    state without a pending block, the preactivated features pass the checks at
    the time of the head, the next block can be started with them, they are
    active in it, and nothing is left preactivated. (C31) *)
Theorem preactivated_features_start l s db ts c when :
  build_set l = Ok s -> genesis_pso = Ok (fd_pso db) -> rtc feature_step (genesis_ctl s db ts) c ->
  fc_pending c = None -> bi_num (fc_head c) + 1 < not_active -> corrections_ok (fc_db c) ->
  let news := ps_preactivated (fd_pso (fc_db c)) in
  check_protocol_features s (bi_timestamp (fc_head c)) (bi_activated (fc_head c)) news = Ok tt /\
  exists c', features_start_block true when news c = (c', Ok tt) /\
    (forall d, d ∈ news -> is_protocol_feature_activated c' d = true) /\
    ps_preactivated (fd_pso (fc_db c')) = [].
Proof.
  intros Hl Hpso Hsteps Hp Hnum Hcorr news. destruct (reachable_ok l s db ts c Hl Hpso Hsteps) as (acts & new & Hok).
  pose proof (build_set_ok l s Hl) as Hs. pose proof (ok_pending s c acts new Hok) as Hpend. rewrite Hp in Hpend.
  destruct Hpend as [-> Hchain]. pose proof (chain_head s acts _ _ _ Hchain) as Hb.
  pose proof (ok_acts_head s c acts [] Hok) as [Ha _].
  pose proof (blk_pre s acts _ _ Hb) as Hcheck. split; [done|].
  pose proof (ok_head s c acts [] Hok) as (Hn & Hact & Hrange).
  pose proof (ok_pfm s c acts [] Hok) as Hm. simpl in Hm. rewrite app_nil_r in Hm.
  destruct (start_features_live s Hs (bi_num (fc_head c) + 1) acts (fc_db c)) as (m & db' & Hstart).
  - done.
  - apply Hb.
  - done.
  - lia.
  - eapply Forall_impl; [exact Hn|]. simpl. lia.
  - apply Hb.
  - intros d (l1 & l2 & Hsplit)%list_elem_of_split. rewrite Hsplit in Hcheck.
    apply check_from_split, check_from_one in Hcheck as (_ & Hd & f & Hf & _).
    split; [by eexists|]. by rewrite Hact, elem_of_list_to_set in Hd.
  - eexists. assert (features_start_block true when news c = (mk_fctl m db' (fc_head c) (fc_previous c)
      (Some (mk_pending true when news (length news) (fc_db c))), Ok tt)) as Hrun.
    { rewrite start_block_none by done. rewrite u32_small by (unfold not_active in *; mach_lia).
      rewrite Hm. subst news. by rewrite Hstart. }
    split; [exact Hrun|]. split.
    + intros d Hd. unfold is_protocol_feature_activated. cbn [fc_pending _num_new_protocol_features_that_have_activated
        _new_protocol_feature_activations fc_head]. rewrite firstn_all. apply orb_true_iff. right.
      destruct (Nat.eqb_spec (length news) 0) as [E|_]; [apply nil_length_inv in E; rewrite E in Hd; by apply not_elem_of_nil in Hd|].
      by apply bool_decide_eq_true.
    + eapply start_features_spec in Hstart as (l0 & _ & _ & Hdone); [|done|done|apply Hb|lia].
      by destruct (Hdone db' eq_refl) as (_ & _ & ?).
Qed.

(** ** The manager *)

Inductive pfm_op := op_activate (d : digest) (n : Z) | op_pop (n : Z).

(** A failing operation changes nothing. *)
Definition run_op (m : protocol_feature_manager) (o : pfm_op) : protocol_feature_manager :=
  match o with
  | op_activate d n => from_ok m (activate_feature d n m)
  | op_pop n => from_ok m (popped_blocks_to n m)
  end.
Definition spec_op (s : protocol_feature_set) (acts : activations) (o : pfm_op) : activations :=
  match o with
  | op_activate d n => default acts (spec_activate s d n acts)
  | op_pop n => spec_pop n acts
  end.
Definition op_range (o : pfm_op) : Prop :=
  match o with op_activate _ n => 0 <= n < not_active | op_pop _ => True end.

Lemma run_ops_ok s acts ops : pfs_ok s -> acts_ok s acts -> Forall op_range ops ->
  foldl run_op (manager_of s acts) ops = manager_of s (foldl (spec_op s) acts ops) /\
  acts_ok s (foldl (spec_op s) acts ops).
Proof.
  intros Hs Hok Hr. revert acts Hok. induction Hr as [|o ops Ho _ IH]; intros acts Hok; simpl; [done|].
  destruct o as [d n|n]; cbn [run_op spec_op op_range] in *.
  - pose proof (activate_refines s Hs acts d n Hok Ho) as Href.
    destruct (activate_feature d n (manager_of s acts)), (spec_activate s d n acts); cbn [from_ok default]; try done;
      [destruct Href as [-> ?]|]; by apply IH.
  - destruct (pop_refines s Hs acts n Hok) as [-> Hok']. cbn [from_ok]. by apply IH.
Qed.

(** The manager implements the list of activations: from an initialized
    manager, after any activations and pops, with block numbers below the
    sentinel for "not active", its vector is the list that the abstract
    operations give, an activation fails exactly when the feature is not
    recognized, already active or in the past, popping succeeds, and a builtin
    feature is active at a block exactly when the list has it at or below. *)
Theorem manager_implements_list l s ops :
  build_set l = Ok s -> Forall op_range ops ->
  let m := foldl run_op (set_initialized true (make_manager s)) ops in
  let acts := foldl (spec_op s) [] ops in
  (fun e => (iterator_to_protocol_feature e, activation_block_num e)) <$> _activated_protocol_features m = acts /\
  (forall d n, 0 <= n < not_active ->
     is_ok (activate_feature d n m) = bool_decide (is_Some (spec_activate s d n acts))) /\
  (forall n, is_ok (popped_blocks_to n m) = true) /\
  (forall f n, n < not_active -> is_builtin_activated m f n = true <-> spec_active s acts f n).
Proof.
  intros Hl Hr m acts. pose proof (build_set_ok l s Hl) as Hs.
  destruct (run_ops_ok s [] ops Hs) as [Hm Hok]; [split; constructor|done|]. fold acts in Hm, Hok.
  subst m. rewrite make_manager_init, Hm. split; [|split; [|split]].
  - cbn [manager_of _activated_protocol_features]. rewrite <- list_fmap_compose, <- list_fmap_id.
    apply list_fmap_ext. by intros ? [] _.
  - intros d n Hn. pose proof (activate_refines s Hs acts d n Hok Hn) as Href. symmetry.
    destruct (activate_feature d n (manager_of s acts)), (spec_activate s d n acts); by cbn [is_ok].
  - intros n. by destruct (pop_refines s Hs acts n Hok) as [-> _].
  - intros f n Hn. by apply active_refines.
Qed.

(** ** The whitelist *)

Inductive whitelist_op := wl_add (n : string) | wl_remove (n : string) | wl_reset (s : list string).
Definition run_whitelist (w : whitelisted_intrinsics_type) (o : whitelist_op) : result whitelisted_intrinsics_type :=
  match o with
  | wl_add n => add_intrinsic_to_whitelist w n
  | wl_remove n => remove_intrinsic_from_whitelist w n
  | wl_reset s => Ok (reset_intrinsic_whitelist s)
  end.
Definition spec_whitelist (X : gset string) (o : whitelist_op) : option (gset string) :=
  match o with
  | wl_add n => if decide (n ∈ X) then None else Some ({[ n ]} ∪ X)
  | wl_remove n => if decide (n ∈ X) then Some (X ∖ {[ n ]}) else None
  | wl_reset s => Some (list_to_set s)
  end.
(** The argument of a reset is a set. *)
Definition wl_valid (o : whitelist_op) : Prop :=
  match o with wl_reset s => StronglySorted string_lt s | _ => True end.

Lemma run_whitelist_step w o : whitelist_ok w -> wl_valid o ->
  match run_whitelist w o with
  | Ok w' => whitelist_ok w' /\ spec_whitelist (intrinsic_names w) o = Some (intrinsic_names w')
  | Err _ => spec_whitelist (intrinsic_names w) o = None
  end.
Proof.
  intros Hok Hv. destruct o as [n|n|x]; cbn [run_whitelist spec_whitelist].
  - pose proof (add_intrinsic_spec w n Hok) as Ha. destruct (add_intrinsic_to_whitelist w n) as [w'|e].
    + destruct Ha as (Hn & Hok' & Heq). rewrite decide_False by done. by rewrite Heq.
    + by rewrite decide_True.
  - pose proof (remove_intrinsic_spec w n Hok) as Ha. destruct (remove_intrinsic_from_whitelist w n) as [w'|e].
    + destruct Ha as (Hn & Hok' & Heq). rewrite decide_True by done. by rewrite Heq.
    + by rewrite decide_False.
  - destruct (reset_spec x (sorted_nodup x Hv)) as [Hok' Heq]. split; [done|]. by rewrite Heq.
Qed.

(** The whitelist of intrinsics is a set of names, whatever the hash function
    and its collisions: a sequence of operations succeeds on the multimap
    exactly when it does on the set, a name is found exactly when it is in the
    set, and the conversion lists exactly the set. *)
Theorem whitelist_is_set ops :
  Forall wl_valid ops ->
  match mfold run_whitelist ops [], foldl (fun o op => X ← o; spec_whitelist X op) (Some ∅) ops with
  | Ok w, Some X =>
    (forall n, is_intrinsic_whitelisted w n = bool_decide (n ∈ X)) /\
    list_to_set (convert_intrinsic_whitelist_to_set w) = X
  | Err _, None => True
  | _, _ => False
  end.
Proof.
  assert (Hnone : forall ops, foldl (fun o op => X ← o; spec_whitelist X op) None ops = None)
    by (induction ops0; done).
  change (Some ∅) with (Some (intrinsic_names [])). assert (whitelist_ok []) as Hok by (split; constructor).
  revert Hok. generalize (@nil (Z * string)). intros w Hok Hv. revert w Hok.
  induction Hv as [|o ops Ho _ IH]; intros w Hok.
  - simpl. split; [intros n; by apply is_whitelisted_spec | apply convert_spec].
  - cbn [mfold foldl]. pose proof (run_whitelist_step w o Hok Ho) as Hstep.
    destruct (run_whitelist w o) as [w'|e]; cbn [mbind result_bind option_bind].
    + destruct Hstep as [Hok' ->]. by apply IH.
    + rewrite Hstep, Hnone. done.
Qed.

(** A snapshot row of the protocol state survives reading and writing, and a
    state that is written and read keeps its features and the whitelist as a
    set. *)
Theorem protocol_state_snapshot row pso :
  StronglySorted string_lt (sn_whitelist row) -> whitelist_ok (ps_whitelist pso) ->
  to_snapshot_row (from_snapshot_row row) = row /\
  let pso' := from_snapshot_row (to_snapshot_row pso) in
  ps_activated pso' = ps_activated pso /\ ps_preactivated pso' = ps_preactivated pso /\
  num_supported_key_types pso' = num_supported_key_types pso /\
  forall n, is_intrinsic_whitelisted (ps_whitelist pso') n = is_intrinsic_whitelisted (ps_whitelist pso) n.
Proof.
  intros Hrow Hok. split.
  - destruct row as [a pre w k]. unfold to_snapshot_row, from_snapshot_row. simpl in *. by rewrite convert_reset.
  - intros pso'. split_and!; [done..|]. intros n. destruct (convert_spec (ps_whitelist pso)) as [Hsort Hset].
    destruct (reset_spec (convert_intrinsic_whitelist_to_set (ps_whitelist pso)) (sorted_nodup _ Hsort)) as [Hok' Hn'].
    subst pso'. unfold from_snapshot_row, to_snapshot_row. cbn [ps_whitelist sn_whitelist].
    rewrite !is_whitelisted_spec by done. by rewrite Hn', Hset.
Qed.
End Theorems.

(** ** A concrete node *)

Module FeatureExample.
#[local] Instance length_hash : StringHash := fun s => Z.of_nat (String.length s) mod 5.
#[local] Instance index_hash : FeatureHash := fun _ _ deps f =>
  mk_digest (Z.of_nat (feature_index f)) (Z.of_nat (size deps)) 0 0.

Definition no_feature : builtin_protocol_feature :=
  mk_builtin "" digest_zero ∅ default_restrictions builtin "" preactivate_feature.
Definition default_feature (f : builtin_protocol_feature_t) : builtin_protocol_feature :=
  from_ok no_feature (make_default_builtin_protocol_feature f
    (fun g => Ok (mk_digest (Z.of_nat (feature_index g)) 0 0 0))).
Definition features : list builtin_protocol_feature :=
  [default_feature preactivate_feature; default_feature replace_deferred; default_feature no_duplicate_deferred_id].
Definition the_set : protocol_feature_set := from_ok pfs_empty (build_set features).

Definition pre_digest := mk_digest 0 0 0 0.
Definition replace_digest := mk_digest 2 0 0 0.
Definition nodup_digest := mk_digest 3 1 0 0.

(** An account uses 60 bytes, less than it was to be corrected by. *)
Definition no_usage : usage_accumulator := mk_acc 0 0 0.
Definition db0 : feature_db :=
  mk_fdb (from_ok (mk_pso [] [] [] 0) genesis_pso) [(5, 100)]
    (mk_rdb ∅ {[ 5 := mk_usage 5 no_usage no_usage 60 ]} None None).
Definition node0 : feature_ctl := genesis_ctl the_set db0 1000.

(** Block 2 activates PREACTIVATE_FEATURE, and two more features are
    preactivated in it. *)
Definition node1 : feature_ctl := (features_start_block true 1001 [pre_digest] node0).1.
Definition node2 : feature_ctl := from_ok node1 (ctl_preactivate_feature true replace_digest node1).
Definition node3 : feature_ctl := from_ok node2 (ctl_preactivate_feature true nodup_digest node2).
Definition node4 : feature_ctl := from_ok node3 (features_commit_block node3).

Definition no_block : pending_block := mk_pending false 0 [] 0 db0.
Lemma some_default {A} (a : A) o : match o with Some _ => true | None => false end = true -> o = Some (default a o).
Proof. by destruct o. Qed.

Lemma features_built : build_set features = Ok the_set.
Proof. run_ok. Qed.
Lemma genesis_built : genesis_pso = Ok (fd_pso db0).
Proof. run_ok. Qed.

Lemma node1_reached : rtc feature_step node0 node1.
Proof.
  apply rtc_once, (step_start node0 true 1001 1000); [vm_compute; reflexivity|]. vm_cast_no_check (@eq_refl (result unit) (Ok tt)).
Qed.
Lemma node4_reached : rtc feature_step node0 node4.
Proof.
  transitivity node1; [exact node1_reached|].
  eapply rtc_l; [apply (step_preactivate node1 true replace_digest node2); run_ok|].
  eapply rtc_l; [apply (step_preactivate node2 true nodup_digest node3); run_ok|].
  apply rtc_once, (step_commit node3 (default no_block (fc_pending node3))).
  - apply some_default. vm_cast_no_check (eq_refl true).
  - vm_cast_no_check (eq_refl true).
  - run_ok.
Qed.
Lemma node4_corrections : corrections_ok (fc_db node4).
Proof.
  unfold corrections_ok.
  assert (fd_corrections (fc_db node4) = [(5, 100)]) as ->
    by (vm_cast_no_check (@eq_refl (list (Z * Z)) [(5, 100)])).
  constructor; [|constructor]. split; [cbn; mach_lia|]. exists (mk_usage 5 no_usage no_usage 60). split; [|cbn; lia].
  vm_cast_no_check (@eq_refl (option resource_usage_object) (Some (mk_usage 5 no_usage no_usage 60))).
Qed.

(** After block 2, the builtin test and the digest test agree on
    PREACTIVATE_FEATURE, and its intrinsics are whitelisted. *)
Lemma features_in_step_witness :
  ctl_is_builtin_activated node4 preactivate_feature = is_protocol_feature_activated node4 pre_digest /\
  (is_intrinsic_whitelisted (ps_whitelist (fd_pso (fc_db node4))) "get_sender"%string = true <->
   "get_sender"%string ∈ genesis_intrinsics \/
   exists d f, is_protocol_feature_activated node4 d = true /\ codename_of the_set d = Some f /\
     "get_sender"%string ∈ handler_names f).
Proof.
  destruct (features_in_step features the_set db0 1000 node4 features_built genesis_built node4_reached)
    as (H1 & _ & _ & H4).
  split; [apply H1; vm_compute; reflexivity | apply H4].
Defined.

(** Block 3 is started with the two features; aborting it gives back the node. *)
Lemma blocks_leave_no_trace_witness :
  match features_start_block true 1002 [replace_digest; nodup_digest] node4 with
  | (c', Err _) => c' = node4
  | (c', Ok _) => forall c'', rtc in_block_step c' c'' -> features_abort_block c'' = Ok node4
  end.
Proof.
  apply (blocks_leave_no_trace features the_set db0 1000 node4 true 1002 1001 [replace_digest; nodup_digest]
           features_built genesis_built node4_reached).
  - vm_cast_no_check (@eq_refl (option pending_block) None).
  - vm_cast_no_check (@eq_refl comparison Lt).
  - vm_cast_no_check (@eq_refl (result unit) (Ok tt)).
Defined.

(** The two preactivated features start with block 3. *)
Lemma preactivated_features_start_witness :
  exists c', features_start_block true 1002 [replace_digest; nodup_digest] node4 = (c', Ok tt) /\
    is_protocol_feature_activated c' nodup_digest = true.
Proof.
  destruct (preactivated_features_start features the_set db0 1000 node4 1002
              features_built genesis_built node4_reached) as [_ (c' & Hc & Hact & _)].
  - vm_cast_no_check (@eq_refl (option pending_block) None).
  - vm_cast_no_check (@eq_refl comparison Lt).
  - exact node4_corrections.
  - exists c'. split; [exact Hc|]. apply Hact. vm_compute. right. left.
Defined.

(** Two activations, of which one is popped. *)
Lemma manager_implements_list_witness :
  let m := foldl run_op (set_initialized true (make_manager the_set))
             [op_activate pre_digest 2; op_activate replace_digest 5; op_pop 4] in
  is_builtin_activated m preactivate_feature 3 = true /\ is_ok (activate_feature replace_digest 4 m) = true.
Proof.
  destruct (manager_implements_list features the_set [op_activate pre_digest 2; op_activate replace_digest 5; op_pop 4]
              features_built) as (_ & Hact & _ & Hb).
  - repeat constructor; unfold not_active; mach_lia.
  - split.
    + apply Hb; [reflexivity|]. exists pre_digest, 2. split; [vm_compute; left | split; [reflexivity | lia]].
    + rewrite Hact; [reflexivity | split; [lia | reflexivity]].
Defined.

(** With a hash under which the names collide. *)
Lemma whitelist_is_set_witness :
  exists w, mfold run_whitelist [wl_reset ["abcde"; "fghij"]%string; wl_add "a"%string; wl_remove "fghij"%string] [] = Ok w /\
    is_intrinsic_whitelisted w "abcde"%string = true /\ is_intrinsic_whitelisted w "fghij"%string = false.
Proof.
  pose proof (whitelist_is_set [wl_reset ["abcde"; "fghij"]%string; wl_add "a"%string; wl_remove "fghij"%string]) as Hw.
  destruct (mfold run_whitelist _ _) as [w|e] eqn:E; [|discriminate E]. exists w. split; [done|].
  destruct (foldl _ _ _) as [X|] eqn:EX; [|discriminate EX]. destruct Hw as [Hw _].
  - repeat constructor.
  - rewrite !Hw. vm_compute in EX. injection EX as <-. split; reflexivity.
Defined.

Lemma protocol_state_snapshot_witness :
  let row := mk_snapshot_pso [(pre_digest, 2)] [] ["abort"; "memset"]%string 2 in
  to_snapshot_row (from_snapshot_row row) = row.
Proof.
  apply (protocol_state_snapshot (mk_snapshot_pso [(pre_digest, 2)] [] ["abort"; "memset"]%string 2) (mk_pso [] [] [] 2)).
  - repeat constructor.
  - split; constructor.
Defined.
End FeatureExample.
