(* ===== verification/ChainConfig.v ===== *)
(** * The chain configuration ([chain_config.hpp], [chain_config.cpp],
    [genesis_state.hpp], [config.hpp])

    The parameters the producers vote on, their validation, and what a valid
    configuration guarantees to the code that uses it. *)

From stdpp Require Import base numbers list gmap strings.
From Stdlib Require Import ZArith Lia.
From S2P Require Import Prelude Accumulator ResourceLimits.
Local Open Scope Z_scope.

Record chain_config := mk_chain_config {
  max_block_net_usage : Z; target_block_net_usage_pct : Z; max_transaction_net_usage : Z;
  base_per_transaction_net_usage : Z; net_usage_leeway : Z;
  context_free_discount_net_usage_num : Z; context_free_discount_net_usage_den : Z;
  max_block_cpu_usage : Z; target_block_cpu_usage_pct : Z; max_transaction_cpu_usage : Z;
  min_transaction_cpu_usage : Z; max_transaction_lifetime : Z; deferred_trx_expiration_window : Z;
  max_transaction_delay : Z; max_inline_action_size : Z; max_inline_action_depth : Z;
  max_authority_depth : Z }.

(** [operator ==], with the fields it compares. *)
Definition config_eqb (lhs rhs : chain_config) : bool :=
  (max_block_net_usage lhs =? max_block_net_usage rhs) &&
  (target_block_net_usage_pct lhs =? target_block_net_usage_pct rhs) &&
  (max_transaction_net_usage lhs =? max_transaction_net_usage rhs) &&
  (base_per_transaction_net_usage lhs =? base_per_transaction_net_usage rhs) &&
  (net_usage_leeway lhs =? net_usage_leeway rhs) &&
  (context_free_discount_net_usage_num lhs =? context_free_discount_net_usage_num rhs) &&
  (context_free_discount_net_usage_den lhs =? context_free_discount_net_usage_den rhs) &&
  (max_block_cpu_usage lhs =? max_block_cpu_usage rhs) &&
  (target_block_cpu_usage_pct lhs =? target_block_cpu_usage_pct rhs) &&
  (max_transaction_cpu_usage lhs =? max_transaction_cpu_usage rhs) &&
  (max_transaction_cpu_usage lhs =? max_transaction_cpu_usage rhs) &&
  (max_transaction_lifetime lhs =? max_transaction_lifetime rhs) &&
  (deferred_trx_expiration_window lhs =? deferred_trx_expiration_window rhs) &&
  (max_transaction_delay lhs =? max_transaction_delay rhs) &&
  (max_inline_action_size lhs =? max_inline_action_size rhs) &&
  (max_inline_action_depth lhs =? max_inline_action_depth rhs) &&
  (max_authority_depth lhs =? max_authority_depth rhs).

Definition min_net_usage_delta_between_base_and_max_for_trx : Z := 10 * 1024.
Definition transaction_id_net_usage : Z := 32.
Definition maximum_elastic_resource_multiplier : Z := 1000.

(** [chain_config::validate]; differences of unsigned numbers wrap. *)
Definition config_validate (c : chain_config) : result unit :=
  check (target_block_net_usage_pct c <=? percent_100) "target block net usage percentage cannot exceed 100%" ;;
  check (target_block_net_usage_pct c >=? percent_1 / 10) "target block net usage percentage must be at least 0.1%" ;;
  check (target_block_cpu_usage_pct c <=? percent_100) "target block cpu usage percentage cannot exceed 100%" ;;
  check (target_block_cpu_usage_pct c >=? percent_1 / 10) "target block cpu usage percentage must be at least 0.1%" ;;
  check (max_transaction_net_usage c <? max_block_net_usage c)
    "max transaction net usage must be less than max block net usage" ;;
  check (max_transaction_cpu_usage c <? max_block_cpu_usage c)
    "max transaction cpu usage must be less than max block cpu usage" ;;
  check (base_per_transaction_net_usage c <? max_transaction_net_usage c)
    "base net usage per transaction must be less than the max transaction net usage" ;;
  check (u32 (max_transaction_net_usage c - base_per_transaction_net_usage c) >=?
           min_net_usage_delta_between_base_and_max_for_trx)
    "max transaction net usage must be larger than base net usage per transaction" ;;
  check (context_free_discount_net_usage_den c >? 0)
    "net usage discount ratio for context free data cannot have a 0 denominator" ;;
  check (context_free_discount_net_usage_num c <=? context_free_discount_net_usage_den c)
    "net usage discount ratio for context free data cannot exceed 1" ;;
  check (min_transaction_cpu_usage c <=? max_transaction_cpu_usage c)
    "min transaction cpu usage cannot exceed max transaction cpu usage" ;;
  check (max_transaction_cpu_usage c <? u32 (max_block_cpu_usage c - min_transaction_cpu_usage c))
    "max transaction cpu usage must be less than the difference between max block and min transaction cpu usage" ;;
  check (1 <=? max_authority_depth c) "max authority depth should be at least 1".

(** The configuration of [genesis_state]. *)
Definition genesis_config : chain_config :=
  mk_chain_config (1024 * 1024) (10 * percent_1) (1024 * 1024 / 2) 12 500 20 100
    200000 (10 * percent_1) (3 * 200000 / 4) 100 (60 * 60) (10 * 60) (45 * 24 * 3600) (4 * 1024) 4 6.

(** The parameters that [finalize_block] hands to the resource limits manager. *)
Definition elastic_of (max_usage pct window_ms : Z) : elastic_limit_parameters :=
  mk_elastic (EOS_PERCENT max_usage pct) max_usage (window_ms / block_interval_ms)
    maximum_elastic_resource_multiplier (mk_ratio 99 100) (mk_ratio 1000 999).
Definition cpu_parameters (c : chain_config) : elastic_limit_parameters :=
  elastic_of (max_block_cpu_usage c) (target_block_cpu_usage_pct c) (60 * 1000).
Definition net_parameters (c : chain_config) : elastic_limit_parameters :=
  elastic_of (max_block_net_usage c) (target_block_net_usage_pct c) (60 * 1000).

(** The ranges of the fields. *)
Definition config_range (c : chain_config) : Prop :=
  is_u64 (max_block_net_usage c) /\ is_u32 (target_block_net_usage_pct c) /\
  is_u32 (max_transaction_net_usage c) /\ is_u32 (base_per_transaction_net_usage c) /\
  is_u32 (net_usage_leeway c) /\ is_u32 (context_free_discount_net_usage_num c) /\
  is_u32 (context_free_discount_net_usage_den c) /\ is_u32 (max_block_cpu_usage c) /\
  is_u32 (target_block_cpu_usage_pct c) /\ is_u32 (max_transaction_cpu_usage c) /\
  is_u32 (min_transaction_cpu_usage c) /\ is_u16 (max_inline_action_depth c) /\ is_u16 (max_authority_depth c).

(** What validation is meant to establish, in plain arithmetic. *)
Definition config_sound (c : chain_config) : Prop :=
  10 <= target_block_net_usage_pct c <= 10000 /\ 10 <= target_block_cpu_usage_pct c <= 10000 /\
  base_per_transaction_net_usage c + 10240 <= max_transaction_net_usage c < max_block_net_usage c /\
  min_transaction_cpu_usage c <= max_transaction_cpu_usage c /\
  max_transaction_cpu_usage c + min_transaction_cpu_usage c < max_block_cpu_usage c /\
  context_free_discount_net_usage_num c <= context_free_discount_net_usage_den c /\
  0 < context_free_discount_net_usage_den c /\ 1 <= max_authority_depth c.

Section Config.
Implicit Types c : chain_config.

Lemma validate_sound c : config_range c -> config_validate c = Ok tt -> config_sound c.
Proof.
  intros Hr H. unfold config_validate in H. do 12 (ok_bind H as [] ?). ok_inv.
  unfold config_range, config_sound, percent_100, percent_1, min_net_usage_delta_between_base_and_max_for_trx in *.
  destruct_and!. rewrite u32_small in * by (unfold is_u32 in *; lia).
  repeat match goal with Hle : (_ <=? _) = true |- _ => apply Z.leb_le in Hle
                       | Hlt : (_ <? _) = true |- _ => apply Z.ltb_lt in Hlt end.
  change (100 / 10) with 10 in *. unfold is_u32 in *. split_and!; lia.
Qed.

Lemma sound_validate c : config_range c -> config_sound c -> config_validate c = Ok tt.
Proof.
  intros Hr (H1 & H2 & H3 & H4 & H5 & H6 & H7 & H8). unfold config_range in Hr. destruct_and!. unfold config_validate.
  unfold percent_100, percent_1, min_net_usage_delta_between_base_and_max_for_trx, is_u32 in *. change (100 / 10) with 10.
  rewrite !u32_small by (unfold is_u32; lia). rewrite !Z.geb_leb, !Z.gtb_ltb.
  repeat (match goal with |- context [check ?b _] => replace b with true by lia end; cbn [check mbind result_bind]).
  done.
Qed.

(** Validation accepts exactly the configurations that are sound in plain
    arithmetic: no difference wraps around unnoticed.  A valid configuration
    leaves room in a block for a largest and a smallest transaction, and the
    elastic parameters made of it are accepted by the resource limits manager. *)
Theorem config_validate_exact c : config_range c ->
  (config_validate c = Ok tt <-> config_sound c) /\
  (config_validate c = Ok tt ->
     ResourceLimits.validate (cpu_parameters c) = Ok tt /\ ResourceLimits.validate (net_parameters c) = Ok tt /\
     0 < max (cpu_parameters c) /\ 0 < max (net_parameters c) /\
     target (cpu_parameters c) <= max (cpu_parameters c)).
Proof.
  intros Hr. split; [split; [by apply validate_sound | by apply sound_validate]|].
  intros Hv%validate_sound; [|done]. unfold config_range, config_sound in *. destruct_and!.
  split_and!; [reflexivity|reflexivity|cbn; unfold is_u32 in *; lia|cbn; unfold is_u32 in *; lia|].
  cbn [cpu_parameters elastic_of target max]. unfold EOS_PERCENT, percent_100.
  rewrite u64_small by (unfold is_u64, is_u32 in *; nia). apply Z.div_le_upper_bound; [lia|].
  unfold is_u32 in *. nia.
Qed.

(** Two configurations that differ in the minimal CPU usage of a transaction
    compare as equal. *)
Theorem config_equality_misses_minimum :
  exists c1 c2, config_validate c1 = Ok tt /\ config_validate c2 = Ok tt /\
    min_transaction_cpu_usage c1 <> min_transaction_cpu_usage c2 /\ config_eqb c1 c2 = true.
Proof.
  exists genesis_config, (mk_chain_config (1024 * 1024) (10 * percent_1) (1024 * 1024 / 2) 12 500 20 100
    200000 (10 * percent_1) (3 * 200000 / 4) 0 (60 * 60) (10 * 60) (45 * 24 * 3600) (4 * 1024) 4 6).
  split_and!; [reflexivity|reflexivity|discriminate|reflexivity].
Qed.

Lemma config_validate_exact_witness : config_sound genesis_config.
Proof. apply (config_validate_exact genesis_config); [repeat split; discriminate | reflexivity]. Defined.
End Config.
