(* ===== verification/RawChain.v ===== *)
(** * Serialised chain types ([block.hpp], [block_header.hpp], [transaction.hpp],
    [transaction.cpp], [action.hpp], [genesis_state.hpp])

    The bytes of transactions, packed transactions, receipts, blocks and the
    genesis state, in the order their members are reflected, and the packed
    transaction with its compression.  Every codec is lawful for the values
    that fit the types of their members. *)

From Stdlib Require Import ZArith Lia Ascii String.
From stdpp Require Import base numbers strings list.
From S2P Require Import Prelude Boost Merkle Hex BlockHeader Accumulator ResourceLimits ChainConfig Raw.
Local Open Scope Z_scope.

(** [fc::crypto::public_key], [fc::crypto::signature]: one of two curves *)
Abbreviation public_key := (bytes + bytes)%type.
Abbreviation signature := (bytes + bytes)%type.
Definition c_public_key : codec public_key := c_variant (c_array 33) (c_array 33).
Definition c_signature : codec signature := c_variant (c_array 65) (c_array 65).

(** [extensions_type] *)
Definition c_extensions : codec (list (Z * chars)) := c_vector (c_pair (c_uint 2) c_chars).

(** ** Transactions *)

Record raw_action := mk_raw_action { ra_account : Z; ra_name : Z; ra_authorization : list (Z * Z); ra_data : bytes }.
Record raw_transaction := mk_raw_transaction {
  rt_expiration : Z; rt_ref_block_num : Z; rt_ref_block_prefix : Z; rt_max_net_usage_words : Z;
  rt_max_cpu_usage_ms : Z; rt_delay_sec : Z; rt_context_free_actions : list raw_action;
  rt_actions : list raw_action; rt_extensions : list (Z * chars) }.
Record signed_transaction := mk_signed_transaction {
  st_trx : raw_transaction; st_signatures : list signature; st_context_free_data : list bytes }.

Definition c_permission_level : codec (Z * Z) := c_pair (c_uint 8) (c_uint 8).
Definition c_action : codec raw_action :=
  c_iso (fun '(a, (n, (auth, d))) => mk_raw_action a n auth d)
    (fun x => (ra_account x, (ra_name x, (ra_authorization x, ra_data x))))
    (c_pair (c_uint 8) (c_pair (c_uint 8) (c_pair (c_vector c_permission_level) c_bytes))).
Definition c_transaction : codec raw_transaction :=
  c_iso (fun '(e, (n, (p, (w, (m, (d, (cfa, (acts, exts)))))))) => mk_raw_transaction e n p w m d cfa acts exts)
    (fun t => (rt_expiration t, (rt_ref_block_num t, (rt_ref_block_prefix t, (rt_max_net_usage_words t,
      (rt_max_cpu_usage_ms t, (rt_delay_sec t, (rt_context_free_actions t, (rt_actions t, rt_extensions t)))))))))
    (c_pair (c_uint 4) (c_pair (c_uint 2) (c_pair (c_uint 4) (c_pair c_varint (c_pair (c_uint 1) (c_pair c_varint
      (c_pair (c_vector c_action) (c_pair (c_vector c_action) c_extensions)))))))).

(** ** Packed transactions; [compression] is the value of the enumeration,
    which can be any byte *)

Record packed_transaction := mk_packed {
  pt_signatures : list signature; pt_compression : Z; pt_context_free_data : bytes; pt_trx : bytes }.
Definition none : Z := 0.
Definition zlib : Z := 1.

(** What is used of zlib through Boost: compressing gives something, at least
    a header, that decompresses to the same. *)
Class Zlib := {
  compress : bytes -> bytes;
  decompress : bytes -> option bytes;
  compress_nonempty : forall b, compress b <> [];
  decompress_compress : forall b, decompress (compress b) = Some b }.

Section Packed.
Context `{Zlib}.

(** [zlib_decompress], limited by [read_limiter]. *)
Definition zlib_decompress (data : bytes) : result bytes :=
  out ← of_option (decompress data) "internal decompression error";
  check (Z.of_nat (length out) <=? 1 * 1024 * 1024) "Exceeded maximum decompressed transaction size" ;;
  Ok out.

Definition unpack_context_free_data (data : bytes) : result (list bytes) :=
  if Nat.eqb (length data) 0 then Ok [] else unpack_vector (unpack (c_vector c_bytes)) data.
Definition unpack_transaction (data : bytes) : result raw_transaction := unpack_vector (unpack c_transaction) data.
Definition zlib_decompress_context_free_data (data : bytes) : result (list bytes) :=
  if Nat.eqb (length data) 0 then Ok [] else out ← zlib_decompress data; unpack_context_free_data out.
Definition zlib_decompress_transaction (data : bytes) : result raw_transaction :=
  out ← zlib_decompress data; unpack_transaction out.

Definition pack_transaction (t : raw_transaction) : result bytes := pack c_transaction t.
Definition pack_context_free_data (cfd : list bytes) : result bytes :=
  if Nat.eqb (length cfd) 0 then Ok [] else pack (c_vector c_bytes) cfd.
Definition zlib_compress_context_free_data (cfd : list bytes) : result bytes :=
  if Nat.eqb (length cfd) 0 then Ok [] else inp ← pack_context_free_data cfd; Ok (compress inp).
Definition zlib_compress_transaction (t : raw_transaction) : result bytes :=
  inp ← pack_transaction t; Ok (compress inp).

Definition by_compression {A} (compression : Z) (x y : result A) : result A :=
  if compression =? none then x else if compression =? zlib then y
  else Err "Unknown transaction compression algorithm".

(** [packed_transaction( signed_transaction, compression )], with
    [local_pack_transaction] and [local_pack_context_free_data] *)
Definition packed_of (t : signed_transaction) (compression : Z) : result packed_transaction :=
  trx ← by_compression compression (pack_transaction (st_trx t)) (zlib_compress_transaction (st_trx t));
  cfd ← by_compression compression (pack_context_free_data (st_context_free_data t))
          (zlib_compress_context_free_data (st_context_free_data t));
  Ok (mk_packed (st_signatures t) compression cfd trx).

(** [reflector_init]: [local_unpack_transaction] and
    [local_unpack_context_free_data] give [unpacked_trx]. *)
Definition unpacked_trx (p : packed_transaction) : result signed_transaction :=
  t ← by_compression (pt_compression p) (unpack_transaction (pt_trx p)) (zlib_decompress_transaction (pt_trx p));
  cfd ← by_compression (pt_compression p) (unpack_context_free_data (pt_context_free_data p))
          (zlib_decompress_context_free_data (pt_context_free_data p));
  Ok (mk_signed_transaction t (pt_signatures p) cfd).
Definition packed_reflector_init (p : packed_transaction) : result unit := unpacked_trx p ;; Ok tt.

Definition c_packed_transaction : codec packed_transaction :=
  c_init packed_reflector_init
    (c_iso (fun '(s, (c, (f, t))) => mk_packed s c f t)
      (fun p => (pt_signatures p, (pt_compression p, (pt_context_free_data p, pt_trx p))))
      (c_pair (c_vector c_signature) (c_pair (c_uint 1) (c_pair c_bytes c_bytes)))).

(** [get_raw_transaction] and the sizes that are billed *)
Definition get_raw_transaction (p : packed_transaction) : result bytes :=
  by_compression (pt_compression p) (Ok (pt_trx p)) (zlib_decompress (pt_trx p)).
Definition fixed_net_overhead_of_packed_trx : Z := 16.
Definition get_unprunable_size (p : packed_transaction) : result Z :=
  let size := u64 (fixed_net_overhead_of_packed_trx + Z.of_nat (length (pt_trx p))) in
  check (size <=? UINT32_MAX) "packed_transaction is too big" ;; Ok (u32 size).
Definition get_prunable_size (p : packed_transaction) : result Z :=
  s ← pack (c_vector c_signature) (pt_signatures p);
  let size := u64 (Z.of_nat (length s) + Z.of_nat (length (pt_context_free_data p))) in
  check (size <=? UINT32_MAX) "packed_transaction is too big" ;; Ok (u32 size).

(** ** Receipts and blocks; [status] is the value of the enumeration *)

Record raw_receipt := mk_receipt {
  tr_status : Z; tr_cpu_usage_us : Z; tr_net_usage_words : Z; tr_trx : digest + packed_transaction }.
Record raw_block := mk_block {
  b_header : signed_block_header public_key signature;
  b_transactions : list raw_receipt; b_extensions : list (Z * chars) }.

Definition c_producer_key : codec (producer_key public_key) :=
  c_iso (fun '(n, k) => mk_producer n k) (fun p => (producer_name p, producer_block_signing_key p)) (c_pair (c_uint 8) c_public_key).
Definition c_schedule : codec (producer_schedule public_key) :=
  c_iso (fun '(v, l) => mk_schedule v l) (fun s => (version s, producers s)) (c_pair (c_uint 4) (c_vector c_producer_key)).
Definition c_header : codec (block_header public_key) :=
  c_iso (fun '(t, (p, (c, (prev, (tm, (am, (v, (np, e)))))))) => mk_header t p c prev tm am v np e)
    (fun h => (h_timestamp h, (h_producer h, (h_confirmed h, (h_previous h, (h_transaction_mroot h, (h_action_mroot h,
      (h_schedule_version h, (h_new_producers h, h_extensions h)))))))))
    (c_pair (c_uint 4) (c_pair (c_uint 8) (c_pair (c_uint 2) (c_pair c_digest (c_pair c_digest (c_pair c_digest
      (c_pair (c_uint 4) (c_pair (c_option c_schedule) c_extensions)))))))).
Definition c_signed_header : codec (signed_block_header public_key signature) :=
  c_iso (fun '(h, s) => mk_signed h s) (fun b => (sb_header b, producer_signature b)) (c_pair c_header c_signature).
Definition c_receipt : codec raw_receipt :=
  c_iso (fun '(s, (c, (n, t))) => mk_receipt s c n t)
    (fun r => (tr_status r, (tr_cpu_usage_us r, (tr_net_usage_words r, tr_trx r))))
    (c_pair (c_uint 1) (c_pair (c_uint 4) (c_pair c_varint (c_variant c_digest c_packed_transaction)))).
Definition c_signed_block : codec raw_block :=
  c_iso (fun '(h, (t, e)) => mk_block h t e) (fun b => (b_header b, (b_transactions b, b_extensions b)))
    (c_pair c_signed_header (c_pair (c_vector c_receipt) c_extensions)).
Definition block_number (b : raw_block) : Z := block_num_of (sb_header (b_header b)).
End Packed.

(** ** The genesis state *)

Record raw_genesis := mk_genesis {
  initial_timestamp : Z; initial_key : public_key; initial_configuration : chain_config }.

Definition c_config : codec chain_config :=
  c_iso (fun '(a, (b, (c, (d, (e, (f, (g, (h, (i, (j, (k, (l, (m, (n, (o, (p, q)))))))))))))))) =>
      mk_chain_config a b c d e f g h i j k l m n o p q)
    (fun c => (max_block_net_usage c, (target_block_net_usage_pct c, (max_transaction_net_usage c,
      (base_per_transaction_net_usage c, (net_usage_leeway c, (context_free_discount_net_usage_num c,
      (context_free_discount_net_usage_den c, (max_block_cpu_usage c, (target_block_cpu_usage_pct c,
      (max_transaction_cpu_usage c, (min_transaction_cpu_usage c, (max_transaction_lifetime c,
      (deferred_trx_expiration_window c, (max_transaction_delay c, (max_inline_action_size c,
      (max_inline_action_depth c, max_authority_depth c)))))))))))))))))
    (c_pair (c_uint 8) (c_pair (c_uint 4) (c_pair (c_uint 4) (c_pair (c_uint 4) (c_pair (c_uint 4) (c_pair (c_uint 4)
      (c_pair (c_uint 4) (c_pair (c_uint 4) (c_pair (c_uint 4) (c_pair (c_uint 4) (c_pair (c_uint 4) (c_pair (c_uint 4)
      (c_pair (c_uint 4) (c_pair (c_uint 4) (c_pair (c_uint 4) (c_pair (c_uint 2) (c_uint 2))))))))))))))))).
Definition c_genesis : codec raw_genesis :=
  c_iso (fun '(t, (k, c)) => mk_genesis t k c) (fun g => (initial_timestamp g, (initial_key g, initial_configuration g)))
    (c_pair c_int64 (c_pair c_public_key c_config)).

(** ** Values that fit the types of their members *)

Definition key_fits (n : nat) (k : bytes + bytes) : Prop := match k with inl b | inr b => length b = n end.
Definition exts_fit (l : list (Z * chars)) : Prop := Forall (fun e => is_u16 e.1) l.
Definition level_fits (l : Z * Z) : Prop := is_u64 l.1 /\ is_u64 l.2.
Definition action_fits (a : raw_action) : Prop := is_u64 (ra_account a) /\ is_u64 (ra_name a) /\ Forall level_fits (ra_authorization a).
Definition transaction_fits (t : raw_transaction) : Prop :=
  is_u32 (rt_expiration t) /\ is_u16 (rt_ref_block_num t) /\ is_u32 (rt_ref_block_prefix t) /\ is_u32 (rt_max_net_usage_words t) /\
  is_byte (rt_max_cpu_usage_ms t) /\ is_u32 (rt_delay_sec t) /\ Forall action_fits (rt_context_free_actions t) /\
  Forall action_fits (rt_actions t) /\ exts_fit (rt_extensions t).
Definition producer_fits (p : producer_key public_key) : Prop := is_u64 (producer_name p) /\ key_fits 33 (producer_block_signing_key p).
Definition schedule_fits (s : producer_schedule public_key) : Prop := is_u32 (version s) /\ Forall producer_fits (producers s).
Definition header_fits (h : block_header public_key) : Prop :=
  is_u32 (h_timestamp h) /\ is_u64 (h_producer h) /\ is_u16 (h_confirmed h) /\ digest_wf (h_previous h) /\
  digest_wf (h_transaction_mroot h) /\ digest_wf (h_action_mroot h) /\ is_u32 (h_schedule_version h) /\
  (forall s, h_new_producers h = Some s -> schedule_fits s) /\ exts_fit (h_extensions h).
Definition config_fits (c : chain_config) : Prop :=
  is_u64 (max_block_net_usage c) /\ is_u32 (target_block_net_usage_pct c) /\ is_u32 (max_transaction_net_usage c) /\
  is_u32 (base_per_transaction_net_usage c) /\ is_u32 (net_usage_leeway c) /\ is_u32 (context_free_discount_net_usage_num c) /\
  is_u32 (context_free_discount_net_usage_den c) /\ is_u32 (max_block_cpu_usage c) /\ is_u32 (target_block_cpu_usage_pct c) /\
  is_u32 (max_transaction_cpu_usage c) /\ is_u32 (min_transaction_cpu_usage c) /\ is_u32 (max_transaction_lifetime c) /\
  is_u32 (deferred_trx_expiration_window c) /\ is_u32 (max_transaction_delay c) /\ is_u32 (max_inline_action_size c) /\
  is_u16 (max_inline_action_depth c) /\ is_u16 (max_authority_depth c).
Definition genesis_fits (g : raw_genesis) : Prop :=
  is_i64 (initial_timestamp g) /\ key_fits 33 (initial_key g) /\ config_fits (initial_configuration g).

(** A record: its members fit, and it is what its members make. *)
Ltac record_lawful := eapply c_iso_lawful; [eauto 20 with raw|]; intros []; cbn [fst snd]; intros Hr; split; [|reflexivity].

Lemma lawful_weaken {A} (c : codec A) (P Q : A -> Prop) : lawful c P -> (forall a, Q a -> P a) -> lawful c Q.
Proof. intros Hc Hw a bs Qa E. by apply Hc, E; apply Hw. Qed.

Section Laws.
Lemma c_public_key_lawful : lawful c_public_key (key_fits 33).
Proof. eapply lawful_weaken; [apply c_variant_lawful; apply c_array_lawful|]. by intros []. Qed.
Lemma c_signature_lawful : lawful c_signature (key_fits 65).
Proof. eapply lawful_weaken; [apply c_variant_lawful; apply c_array_lawful|]. by intros []. Qed.
Lemma c_extensions_lawful : lawful c_extensions exts_fit.
Proof.
  eapply lawful_weaken; [apply c_vector_lawful, c_pair_lawful; auto with raw|]. intros l Hl. eapply Forall_impl; [exact Hl|].
  intros [i d] Hi. split; [exact Hi|done].
Qed.
Lemma c_permission_level_lawful : lawful c_permission_level level_fits.
Proof. eapply lawful_weaken; [apply c_pair_lawful; auto with raw|]. intros l Hl. exact Hl. Qed.
#[local] Hint Resolve c_public_key_lawful c_signature_lawful c_extensions_lawful c_permission_level_lawful : raw.

Lemma c_action_lawful : lawful c_action action_fits.
Proof. record_lawful. destruct Hr as (H1 & H2 & H3). exact (conj H1 (conj H2 (conj H3 I))). Qed.
#[local] Hint Resolve c_action_lawful : raw.
Lemma c_transaction_lawful : lawful c_transaction transaction_fits.
Proof. record_lawful. exact Hr. Qed.
Lemma c_producer_key_lawful : lawful c_producer_key producer_fits.
Proof. record_lawful. exact Hr. Qed.
#[local] Hint Resolve c_producer_key_lawful : raw.
Lemma c_schedule_lawful : lawful c_schedule schedule_fits.
Proof. record_lawful. exact Hr. Qed.
#[local] Hint Resolve c_schedule_lawful : raw.
Lemma c_header_lawful : lawful c_header header_fits.
Proof. record_lawful. exact Hr. Qed.
Lemma c_config_lawful : lawful c_config config_fits.
Proof. record_lawful. exact Hr. Qed.
#[local] Hint Resolve c_config_lawful : raw.
Lemma c_genesis_lawful : lawful c_genesis genesis_fits.
Proof. record_lawful. exact Hr. Qed.
End Laws.
#[export] Hint Resolve c_public_key_lawful c_signature_lawful c_extensions_lawful c_transaction_lawful c_header_lawful c_genesis_lawful : raw.

(** ** Packed transactions and blocks *)

Section PackedLaws.
Context `{Zlib}.

Definition packed_fits (p : packed_transaction) : Prop :=
  (Forall (key_fits 65) (pt_signatures p) /\ is_byte (pt_compression p) /\ True /\ True) /\ packed_reflector_init p = Ok tt.
Definition receipt_fits (r : raw_receipt) : Prop :=
  is_byte (tr_status r) /\ is_u32 (tr_cpu_usage_us r) /\ is_u32 (tr_net_usage_words r) /\
  match tr_trx r with inl id => digest_wf id | inr p => packed_fits p end.
Definition block_fits (b : raw_block) : Prop :=
  (header_fits (sb_header (b_header b)) /\ key_fits 65 (producer_signature (b_header b))) /\
  Forall receipt_fits (b_transactions b) /\ exts_fit (b_extensions b).

Lemma c_packed_transaction_lawful : lawful c_packed_transaction packed_fits.
Proof. apply (c_init_lawful _ (fun p => _)). record_lawful. exact Hr. Qed.
#[local] Hint Resolve c_packed_transaction_lawful : raw.
Lemma c_receipt_lawful : lawful c_receipt receipt_fits.
Proof. record_lawful. exact Hr. Qed.
#[local] Hint Resolve c_receipt_lawful : raw.
Lemma c_signed_header_lawful : lawful c_signed_header (fun h => header_fits (sb_header h) /\ key_fits 65 (producer_signature h)).
Proof. record_lawful. exact Hr. Qed.
#[local] Hint Resolve c_signed_header_lawful : raw.
Lemma c_signed_block_lawful : lawful c_signed_block block_fits.
Proof. record_lawful. exact Hr. Qed.

(** What is decompressed is limited to 1 MiB. *)
Definition small (b : result bytes) : Prop := forall bs, b = Ok bs -> Z.of_nat (length bs) <= 1024 * 1024.

Lemma zlib_decompress_compress bs : Z.of_nat (length bs) <= 1024 * 1024 -> zlib_decompress (compress bs) = Ok bs.
Proof.
  intros Hl. unfold zlib_decompress. rewrite decompress_compress. cbn [of_option mbind result_bind].
  by rewrite (proj2 (Z.leb_le _ _)) by lia.
Qed.

Lemma pack_transaction_trip t bs : transaction_fits t -> pack_transaction t = Ok bs -> unpack_transaction bs = Ok t.
Proof. apply unpack_vector_pack, c_transaction_lawful. Qed.

Lemma pack_vector_nonempty {A} (c : codec A) l bs : pack (c_vector c) l = Ok bs -> bs <> [].
Proof. cbn [c_vector pack]. intros E. ok_bind E as [] _. ok_bind E as x Hx. ok_bind E as y _. intros ->. apply (proj1 (Ok_inj _ _)) in E, Hx. by subst x. Qed.

Lemma pack_cfd_trip cfd bs : pack_context_free_data cfd = Ok bs -> unpack_context_free_data bs = Ok cfd /\ (cfd <> [] -> bs <> []).
Proof.
  unfold pack_context_free_data, unpack_context_free_data. destruct cfd as [|b cfd]; cbn [length Nat.eqb].
  - intros E. by apply (proj1 (Ok_inj _ _)) in E as <-.
  - intros E. pose proof (pack_vector_nonempty _ _ _ E) as Hn. split; [|done]. destruct bs as [|x bs]; [done|]. cbn [length Nat.eqb].
    eapply unpack_vector_pack; [apply c_vector_lawful, c_bytes_lawful| |exact E]. by apply Forall_true.
Qed.

(** A transaction that was packed, with or without compression, is unpacked
    from it, unless it is compressed and longer than the decompressor allows. *)
Lemma packed_trip t compression p : transaction_fits (st_trx t) ->
  (compression = zlib -> small (pack_transaction (st_trx t)) /\ small (pack_context_free_data (st_context_free_data t))) ->
  packed_of t compression = Ok p -> unpacked_trx p = Ok t.
Proof.
  intros Ft Hs E. unfold packed_of in E. ok_bind E as trx Ht. ok_bind E as cfd Hc. apply (proj1 (Ok_inj _ _)) in E as <-.
  unfold unpacked_trx, by_compression in *. cbn [pt_compression pt_trx pt_context_free_data pt_signatures].
  destruct (Z.eqb_spec compression none) as [->|_].
  - rewrite (pack_transaction_trip _ _ Ft Ht), (proj1 (pack_cfd_trip _ _ Hc)). by destruct t.
  - destruct (Z.eqb_spec compression zlib) as [->|]; [|done]. destruct (Hs eq_refl) as [S1 S2].
    unfold zlib_compress_transaction, zlib_compress_context_free_data, zlib_decompress_transaction, zlib_decompress_context_free_data in *.
    ok_bind Ht as bs Hb. apply (proj1 (Ok_inj _ _)) in Ht as <-. rewrite zlib_decompress_compress by (by apply S1).
    cbn [mbind result_bind]. rewrite (pack_transaction_trip _ _ Ft Hb). cbn [mbind result_bind].
    destruct t as [t sigs [|c cs]]; cbn [st_context_free_data length Nat.eqb] in *; [by apply (proj1 (Ok_inj _ _)) in Hc as <-|].
    ok_bind Hc as fs Hf. apply (proj1 (Ok_inj _ _)) in Hc as <-. destruct (pack_cfd_trip _ _ Hf) as [Ef _].
    pose proof (compress_nonempty fs). destruct (compress fs) eqn:Ec; [done|]. cbn [length Nat.eqb]. rewrite <- Ec.
    rewrite zlib_decompress_compress by (by apply S2). cbn [mbind result_bind]. by rewrite Ef.
Qed.

(** A signed transaction that is packed, sent and received, is what was signed:
    transaction, signatures and context-free data; and the bytes that are
    hashed for its id are those of the transaction that was packed.  If it is
    compressed, transaction and context-free data take at most 1 MiB each: what
    decompresses to more is refused by the receiver. (C19) *)
Theorem transaction_transmitted t compression p bs rest :
  transaction_fits (st_trx t) -> Forall (key_fits 65) (st_signatures t) ->
  (compression = zlib -> small (pack_transaction (st_trx t)) /\ small (pack_context_free_data (st_context_free_data t))) ->
  packed_of t compression = Ok p -> pack c_packed_transaction p = Ok bs ->
  unpack c_packed_transaction (bs ++ rest) = Got p rest /\ unpacked_trx p = Ok t /\
  get_raw_transaction p = pack_transaction (st_trx t).
Proof.
  intros Ft Fs Hs Hp Hb. pose proof (packed_trip t compression p Ft Hs Hp) as Hu.
  assert (Hc : compression = none \/ compression = zlib).
  { unfold packed_of, by_compression in Hp. destruct (Z.eqb_spec compression none); [by left|]. destruct (Z.eqb_spec compression zlib); [by right|done]. }
  assert (Hf : packed_fits p).
  { unfold packed_fits, packed_reflector_init. rewrite Hu. split; [|done]. unfold packed_of in Hp. ok_bind Hp as trx Ht. ok_bind Hp as cfd Hcf.
    apply (proj1 (Ok_inj _ _)) in Hp as <-. cbn. split_and!; [done|destruct Hc as [->| ->]; unfold is_byte, none, zlib; lia..|done|done]. }
  split; [by apply c_packed_transaction_lawful|]. split; [done|].
  unfold packed_of, by_compression in Hp. unfold get_raw_transaction, by_compression. destruct Hc as [->| ->].
  - ok_bind Hp as trx Ht. ok_bind Hp as cfd Hcf. apply (proj1 (Ok_inj _ _)) in Hp as <-. change (pack_transaction (st_trx t) = Ok trx) in Ht. by rewrite Ht.
  - ok_bind Hp as trx Ht. ok_bind Hp as cfd Hcf. apply (proj1 (Ok_inj _ _)) in Hp as <-. cbn [Z.eqb zlib none] in *.
    unfold zlib_compress_transaction in Ht. ok_bind Ht as raw Hr. apply (proj1 (Ok_inj _ _)) in Ht as <-. change (zlib_decompress (compress raw) = pack_transaction (st_trx t)). rewrite Hr.
    apply zlib_decompress_compress. by apply (proj1 (Hs eq_refl)).
Qed.

(** A block that fits is read back from its bytes, whatever follows them, and
    nothing is read from less than its bytes. (C18) *)
Theorem block_transmitted b bs rest : block_fits b -> pack c_signed_block b = Ok bs ->
  unpack c_signed_block (bs ++ rest) = Got b rest /\
  forall p q, bs = p ++ q -> q <> [] -> unpack c_signed_block p = Ended.
Proof. intros Hb E. destruct (c_signed_block_lawful b bs Hb E) as [G N]. split; [apply G|exact N]. Qed.
End PackedLaws.

(** ** Recovering the signing keys

    The hash function and the recovery of keys are parameters; the clock is an
    argument, two readings per signature. *)

Section SignatureKeys.
Context (hash : bytes -> digest) (recover : signature -> digest -> result public_key).

Record cached_pub_key := mk_cached { ck_trx_id : digest; ck_pub_key : public_key; ck_sig : signature; ck_cpu_usage : Z }.
Definition recovery_cache_size : nat := 10000.

Definition transaction_id (t : raw_transaction) : result digest := b ← pack c_transaction t; Ok (hash b).
Definition trx_sig_digest (chain_id : digest) (t : raw_transaction) (cfd : list bytes) : result digest :=
  c ← pack c_digest chain_id;
  b ← pack c_transaction t;
  d ← (if negb (Nat.eqb (length cfd) 0) then x ← pack (c_vector c_bytes) cfd; pack c_digest (hash x)
       else pack c_digest (mk_digest 0 0 0 0));
  Ok (hash (c ++ b ++ d)).

Definition find_sig (sig : signature) (cache : list cached_pub_key) : option cached_pub_key :=
  snd <$> list_find (fun e => ck_sig e = sig) cache.

(** [recovery_cache]: in the order of insertion, one entry per signature *)
Definition emplace_back (e : cached_pub_key) (cache : list cached_pub_key) : list cached_pub_key :=
  match find_sig (ck_sig e) cache with Some _ => cache | None => cache ++ [e] end.

(** The key of one signature *)
Definition recover_one (tid digest : digest) (sig_start now : Z) (sig : signature) (cache : list cached_pub_key)
    : result (public_key * Z * list cached_pub_key) :=
  match find_sig sig cache with
  | Some e =>
    if bool_decide (ck_trx_id e <> tid) then
      recov ← recover sig digest;
      let cpu_usage := now - sig_start in
      Ok (recov, cpu_usage, emplace_back (mk_cached tid recov sig cpu_usage) cache)
    else Ok (ck_pub_key e, ck_cpu_usage e, cache)
  | None =>
    recov ← recover sig digest;
    let cpu_usage := now - sig_start in
    Ok (recov, cpu_usage, emplace_back (mk_cached tid recov sig cpu_usage) cache)
  end.

(** The loop over the signatures; [clock] gives the start of each and the time
    after its recovery. *)
Fixpoint recover_all (tid digest : digest) (deadline : Z) (allow_duplicate_keys : bool) (sigs : list signature)
    (clock : list (Z * Z)) (keys : list public_key) (usage : Z) (cache : list cached_pub_key)
    : result (list public_key * Z * list cached_pub_key) :=
  match sigs with
  | [] => Ok (keys, usage, cache)
  | sig :: sigs =>
    let '(sig_start, now) := default (0, 0) (head clock) in
    check (sig_start <? deadline) "transaction signature verification executed for too long" ;;
    '(recov, cpu, cache) ← recover_one tid digest sig_start now sig cache;
    let fresh := bool_decide (recov ∉ keys) in
    check (allow_duplicate_keys || fresh)
      "transaction includes more than one signature signed using the same key" ;;
    recover_all tid digest deadline allow_duplicate_keys sigs (tail clock) (if fresh then keys ++ [recov] else keys)
      (usage + cpu) cache
  end.

Definition get_signature_keys (t : raw_transaction) (sigs : list signature) (chain_id : digest) (deadline : Z) (cfd : list bytes)
    (allow_duplicate_keys : bool) (digest_time : Z) (clock : list (Z * Z)) (cache : list cached_pub_key)
    : result (list public_key * Z * list cached_pub_key) :=
  digest ← trx_sig_digest chain_id t cfd;
  tid ← transaction_id t;
  '(keys, usage, cache) ← recover_all tid digest deadline allow_duplicate_keys sigs clock [] 0 cache;
  Ok (keys, usage + digest_time, drop (length cache - recovery_cache_size) cache).

(** The entries of the cache are what recovery gives: [D] is the digest that
    was signed, by the id of the transaction. *)
Definition cache_true (D : digest -> digest) (cache : list cached_pub_key) : Prop :=
  forall e, e ∈ cache -> recover (ck_sig e) (D (ck_trx_id e)) = Ok (ck_pub_key e).

Lemma find_sig_some sig cache e : find_sig sig cache = Some e -> e ∈ cache /\ ck_sig e = sig.
Proof.
  unfold find_sig. intros E. apply fmap_Some in E as ([i e'] & E & ->). apply list_find_Some in E as (E & Hs & _).
  split; [by eapply list_elem_of_lookup_2|done].
Qed.

Lemma recover_one_true D tid s now sig cache k u cache' : cache_true D cache ->
  recover_one tid (D tid) s now sig cache = Ok (k, u, cache') -> recover sig (D tid) = Ok k /\ cache_true D cache'.
Proof.
  intros C E. unfold recover_one in E. assert (New : forall r, recover sig (D tid) = Ok r ->
    cache_true D (emplace_back (mk_cached tid r sig (now - s)) cache)).
  { intros r Hr. unfold emplace_back. destruct (find_sig _ cache); [done|]. intros e He. apply elem_of_app in He as [He|He]; [by apply C|].
    by apply list_elem_of_singleton in He as ->. }
  destruct (find_sig sig cache) as [e|] eqn:Ef.
  - apply find_sig_some in Ef as [He Hs]. case_bool_decide as Hd.
    + ok_bind E as r Hr. apply (proj1 (Ok_inj _ _)) in E. simplify_eq. eauto.
    + apply (proj1 (Ok_inj _ _)) in E. injection E as <- <- <-. subst tid sig. split; [by apply C|done].
  - ok_bind E as r Hr. apply (proj1 (Ok_inj _ _)) in E. simplify_eq. eauto.
Qed.

Lemma recover_all_true D tid deadline allow sigs clock keys u cache keys' u' cache' : cache_true D cache ->
  recover_all tid (D tid) deadline allow sigs clock keys u cache = Ok (keys', u', cache') ->
  cache_true D cache' /\ forall k, k ∈ keys' <-> k ∈ keys \/ exists sig, sig ∈ sigs /\ recover sig (D tid) = Ok k.
Proof.
  revert clock keys u cache. induction sigs as [|sig sigs IH]; intros clock keys u cache C E; cbn [recover_all] in E.
  - apply (proj1 (Ok_inj _ _)) in E. simplify_eq. split; [done|]. intros k. split; [by left|]. intros [?|(s & Hs & _)]; [done|]. by apply not_elem_of_nil in Hs.
  - destruct (default (0, 0) (head clock)) as [s now]. ok_bind E as [] _. ok_bind E as [[r c] cache1] Hr. ok_bind E as [] _.
    apply (recover_one_true D) in Hr as [Hr C1]; [|done]. apply IH in E as [C' K]; [|done]. split; [done|]. intros k. rewrite K. clear K.
    assert (Kk : k ∈ (if bool_decide (r ∉ keys) then keys ++ [r] else keys) <-> k ∈ keys \/ k = r).
    { case_bool_decide as Hin; [by rewrite elem_of_app, list_elem_of_singleton|]. split; [by left|]. by intros [?| ->]. }
    rewrite Kk. split.
    + intros [[?| ->]|(s' & Hs & ?)]; [by left|right; exists sig; by split; [left|]|right; exists s'; by split; [right|]].
    + intros [?|(s' & Hs & Hk)]; [by left; left|]. apply elem_of_cons in Hs as [->|Hs]; [left; right; congruence|right; by exists s'].
Qed.

(** As long as every transaction is signed over one digest, the keys that are
    found with the help of the cache are those that the signatures recover to,
    and the cache stays true. *)
Theorem cached_keys_true D t sigs chain_id deadline cfd allow dt clock cache keys u cache' :
  cache_true D cache -> (forall tid, transaction_id t = Ok tid -> trx_sig_digest chain_id t cfd = Ok (D tid)) ->
  get_signature_keys t sigs chain_id deadline cfd allow dt clock cache = Ok (keys, u, cache') ->
  cache_true D cache' /\ exists d, trx_sig_digest chain_id t cfd = Ok d /\
    forall k, k ∈ keys <-> exists sig, sig ∈ sigs /\ recover sig d = Ok k.
Proof.
  intros C HD E. unfold get_signature_keys in E. ok_bind E as d Hd. ok_bind E as tid Ht. ok_bind E as [[ks us] c1] Hr.
  apply (proj1 (Ok_inj _ _)) in E. simplify_eq. pose proof (HD tid Ht) as Hd'. rewrite Hd in Hd'. apply (proj1 (Ok_inj _ _)) in Hd' as ->.
  apply (recover_all_true D) in Hr as [C1 K]; [|done]. split.
  - intros e He. apply C1. rewrite <- (take_drop (length c1 - recovery_cache_size) c1). apply elem_of_app. by right.
  - exists (D tid). split; [done|]. intros k. rewrite K. split; [intros [Hk|?]; [by apply not_elem_of_nil in Hk|done]|by right].
Qed.

(** ** What the cache answers *)

Lemma find_sig_app sig c1 c2 : find_sig sig (c1 ++ c2) = match find_sig sig c1 with Some e => Some e | None => find_sig sig c2 end.
Proof.
  unfold find_sig. induction c1 as [|e c1 IH]; cbn [app list_find]; [done|]. destruct (decide (ck_sig e = sig)); [done|].
  destruct (list_find _ (c1 ++ c2)) as [[i1 e1]|], (list_find _ c1) as [[i2 e2]|]; cbn in *; done.
Qed.

Lemma find_sig_one sig e : find_sig sig [e] = if decide (ck_sig e = sig) then Some e else None.
Proof. unfold find_sig. cbn. by destruct (decide (ck_sig e = sig)). Qed.

(** An entry that is found stays. *)
Lemma emplace_keeps sig e e' cache : find_sig sig cache = Some e -> find_sig sig (emplace_back e' cache) = Some e.
Proof. unfold emplace_back. destruct (find_sig (ck_sig e') cache); [done|]. rewrite find_sig_app. by intros ->. Qed.

Lemma recover_one_keeps tid d s now sig' cache k u cache' sig e : recover_one tid d s now sig' cache = Ok (k, u, cache') ->
  find_sig sig cache = Some e -> find_sig sig cache' = Some e.
Proof.
  unfold recover_one. intros E Hf. destruct (find_sig sig' cache) as [e'|]; [case_bool_decide|].
  - ok_bind E as r _. apply (proj1 (Ok_inj _ _)) in E. simplify_eq. by apply emplace_keeps.
  - apply (proj1 (Ok_inj _ _)) in E. by simplify_eq.
  - ok_bind E as r _. apply (proj1 (Ok_inj _ _)) in E. simplify_eq. by apply emplace_keeps.
Qed.

Lemma recover_all_keeps tid d deadline allow sigs clock keys u cache keys' u' cache' sig e :
  recover_all tid d deadline allow sigs clock keys u cache = Ok (keys', u', cache') ->
  find_sig sig cache = Some e -> find_sig sig cache' = Some e.
Proof.
  revert clock keys u cache. induction sigs as [|s1 sigs IH]; intros clock keys u cache E Hf; cbn [recover_all] in E.
  - apply (proj1 (Ok_inj _ _)) in E. by simplify_eq.
  - destruct (default (0, 0) (head clock)) as [s now]. ok_bind E as [] _. ok_bind E as [[r c] c1] Hr. ok_bind E as [] _.
    eapply IH; [exact E|]. by eapply recover_one_keeps.
Qed.

(** No signature is known under another id. *)
Definition unclaimed (tid : digest) (sigs : list signature) (cache : list cached_pub_key) : Prop :=
  forall sig e, sig ∈ sigs -> find_sig sig cache = Some e -> ck_trx_id e = tid.

(** The key that is found is in the cache afterwards. *)
Lemma recover_one_cached tid d s now sig cache k u cache' : unclaimed tid [sig] cache ->
  recover_one tid d s now sig cache = Ok (k, u, cache') -> find_sig sig cache' = Some (mk_cached tid k sig u).
Proof.
  unfold recover_one. intros Hu E. destruct (find_sig sig cache) as [e|] eqn:Ef.
  - pose proof (Hu sig e (list_elem_of_here _ _) Ef) as Ht. rewrite bool_decide_eq_false_2 in E by tauto.
    apply (proj1 (Ok_inj _ _)) in E. injection E as <- <- <-. apply find_sig_some in Ef as Hs. destruct Hs as [_ Hs].
    rewrite Ef. destruct e. cbn in *. by subst.
  - ok_bind E as r _. apply (proj1 (Ok_inj _ _)) in E. injection E as <- <- <-. unfold emplace_back. cbn [ck_sig]. rewrite Ef.
    rewrite find_sig_app, Ef, find_sig_one. by rewrite decide_True.
Qed.

Lemma recover_one_unclaimed tid d s now sig sigs cache k u cache' : unclaimed tid sigs cache ->
  recover_one tid d s now sig cache = Ok (k, u, cache') -> unclaimed tid sigs cache'.
Proof.
  unfold recover_one. intros Hu E. assert (Hn : forall r, unclaimed tid sigs (emplace_back (mk_cached tid r sig (now - s)) cache)).
  { intros r sig' e Hin. unfold emplace_back. destruct (find_sig _ cache); [by apply Hu|]. rewrite find_sig_app.
    destruct (find_sig sig' cache) as [e1|] eqn:E1; [intros [= <-]; by eapply Hu|]. rewrite find_sig_one. case_decide; [|done]. by intros [= <-]. }
  destruct (find_sig sig cache); [case_bool_decide|].
  - ok_bind E as r _. apply (proj1 (Ok_inj _ _)) in E. by simplify_eq.
  - apply (proj1 (Ok_inj _ _)) in E. by simplify_eq.
  - ok_bind E as r _. apply (proj1 (Ok_inj _ _)) in E. by simplify_eq.
Qed.

(** A second round over signatures whose entries are still there. *)
Lemma recover_all_again tid d deadline allow sigs clock keys u cache keys' u' cache' d' deadline' clock' cache2 :
  recover_all tid d deadline allow sigs clock keys u cache = Ok (keys', u', cache') -> unclaimed tid sigs cache ->
  (forall sig e, sig ∈ sigs -> find_sig sig cache' = Some e -> find_sig sig cache2 = Some e) ->
  length clock' = length sigs -> Forall (fun p => p.1 < deadline') clock' ->
  recover_all tid d' deadline' allow sigs clock' keys u cache2 = Ok (keys', u', cache2).
Proof.
  revert clock clock' keys u cache. induction sigs as [|sig sigs IH]; intros clock clock' keys u cache E Hu Hs Hl Ht; cbn [recover_all] in *.
  { apply (proj1 (Ok_inj _ _)) in E. by simplify_eq. }
  destruct clock' as [|[s' now'] clock']; [done|]. apply Forall_cons in Ht as [Ht1 Ht]. change (default (0, 0) (head ((s', now') :: clock'))) with (s', now'). cbn [tail].
  destruct (default (0, 0) (head clock)) as [s now]. ok_bind E as [] _. ok_bind E as [[r c] c1] Hr. ok_bind E as [] Hk.
  cbn [fst] in Ht1. rewrite (proj2 (Z.ltb_lt _ _)) by lia. cbn [check mbind result_bind].
  assert (Hc1 : find_sig sig c1 = Some (mk_cached tid r sig c)).
  { eapply recover_one_cached; [|exact Hr]. intros sg e ->%list_elem_of_singleton. apply Hu, list_elem_of_here. }
  assert (H2 : find_sig sig cache2 = Some (mk_cached tid r sig c)).
  { apply Hs; [apply list_elem_of_here|]. by eapply recover_all_keeps. }
  unfold recover_one at 1. rewrite H2. cbn [ck_trx_id]. rewrite bool_decide_eq_false_2 by tauto. cbn [mbind result_bind ck_pub_key ck_cpu_usage].
  rewrite Hk. cbn [mbind result_bind]. eapply IH; [exact E| | |by injection Hl|done].
  - eapply recover_one_unclaimed; [|exact Hr]. intros sg e Hin. apply Hu. by right.
  - intros sg e Hin. apply Hs. by right.
Qed.

(** The index is unique. *)
Lemma emplace_unique e cache : NoDup (ck_sig <$> cache) -> NoDup (ck_sig <$> emplace_back e cache).
Proof.
  intros Hn. unfold emplace_back. destruct (find_sig (ck_sig e) cache) eqn:Ef; [done|]. rewrite fmap_app. apply NoDup_app.
  split_and!; [done| |apply NoDup_singleton]. intros sg Hin ->%list_elem_of_singleton.
  apply list_elem_of_fmap in Hin as (e' & Hs & Hin). unfold find_sig in Ef. apply fmap_None, list_find_None in Ef.
  eapply Forall_forall in Ef; [|exact Hin]. by rewrite Hs in Ef.
Qed.

Lemma recover_all_unique tid d deadline allow sigs clock keys u cache keys' u' cache' :
  recover_all tid d deadline allow sigs clock keys u cache = Ok (keys', u', cache') -> NoDup (ck_sig <$> cache) -> NoDup (ck_sig <$> cache').
Proof.
  revert clock keys u cache. induction sigs as [|sig sigs IH]; intros clock keys u cache E Hn; cbn [recover_all] in E.
  { apply (proj1 (Ok_inj _ _)) in E. by simplify_eq. }
  destruct (default (0, 0) (head clock)) as [s now]. ok_bind E as [] _. ok_bind E as [[r c] c1] Hr. ok_bind E as [] _.
  eapply IH; [exact E|]. unfold recover_one in Hr. destruct (find_sig sig cache) as [e|]; [destruct (bool_decide (ck_trx_id e <> tid))|].
  - ok_bind Hr as r' _. apply (proj1 (Ok_inj _ _)) in Hr. simplify_eq. by apply emplace_unique.
  - apply (proj1 (Ok_inj _ _)) in Hr. by simplify_eq.
  - ok_bind Hr as r' _. apply (proj1 (Ok_inj _ _)) in Hr. simplify_eq. by apply emplace_unique.
Qed.

(** What is left after dropping the oldest entries is what was found before. *)
Lemma find_sig_drop n sig cache e : NoDup (ck_sig <$> cache) -> find_sig sig (drop n cache) = Some e -> find_sig sig cache = Some e.
Proof.
  intros Hn Hf. rewrite <- (take_drop n cache) in Hn |- *. rewrite find_sig_app.
  destruct (find_sig sig (take n cache)) as [e'|] eqn:Et; [|done]. exfalso. rewrite fmap_app in Hn. apply NoDup_app in Hn as (_ & Hd & _).
  apply find_sig_some in Et as [Hin' Hs']. apply find_sig_some in Hf as [Hin Hs]. apply (Hd sig).
  - rewrite <- Hs'. by apply list_elem_of_fmap_2.
  - rewrite <- Hs. by apply list_elem_of_fmap_2.
Qed.

(** The cache is asked for the signature and the id, and the id does not cover
    the context-free data: once the signatures of a transaction were accepted
    with some context-free data, and as long as their entries are in the
    cache, they are accepted for the same transaction with any other
    context-free data, with the same keys, whatever their recovery would give.
    (The cache has one entry per signature, none of those of the transaction
    under another id; [cache2] is any cache that still has the entries.) (C20) *)
Theorem cache_ignores_context_free_data t sigs chain_id deadline cfd allow dt clock cache keys u cache1 cfd' d' deadline' dt' clock' cache2 :
  get_signature_keys t sigs chain_id deadline cfd allow dt clock cache = Ok (keys, u, cache1) ->
  NoDup (ck_sig <$> cache) -> (forall tid, transaction_id t = Ok tid -> unclaimed tid sigs cache) ->
  (forall sig, sig ∈ sigs -> exists e, find_sig sig cache1 = Some e /\ find_sig sig cache2 = Some e) ->
  trx_sig_digest chain_id t cfd' = Ok d' -> length clock' = length sigs -> Forall (fun p => p.1 < deadline') clock' ->
  get_signature_keys t sigs chain_id deadline' cfd' allow dt' clock' cache2 =
    Ok (keys, u - dt + dt', drop (length cache2 - recovery_cache_size) cache2).
Proof.
  intros E Hn Hu Hs Hd' Hl Hc. unfold get_signature_keys in *. ok_bind E as d Hd. ok_bind E as tid Ht. ok_bind E as [[ks us] c1] Hr.
  apply (proj1 (Ok_inj _ _)) in E. injection E as <- <- <-. rewrite Hd', Ht. cbn [mbind result_bind].
  pose proof (recover_all_unique _ _ _ _ _ _ _ _ _ _ _ _ Hr Hn) as Hn1.
  rewrite (recover_all_again _ _ _ _ _ _ _ _ _ _ _ _ d' deadline' clock' cache2 Hr (Hu tid Ht)); [|..|exact Hl|exact Hc].
  - cbn [mbind result_bind]. do 3 f_equal. lia.
  - intros sig e Hin He. destruct (Hs sig Hin) as (e1 & H1 & H2). apply find_sig_drop in H1; [|done]. congruence.
Qed.
End SignatureKeys.

(** ** Concrete values *)

Module RawRuns.
#[export] Instance toy_zlib : Zlib.
Proof.
  refine {| compress := fun b => 120 :: b; decompress := fun b => match b with 120 :: b => Some b | _ => None end |}; done.
Defined.

Definition pay : raw_action := mk_raw_action 6138663577826885632 14829575313431724032 [(100, 200)] [1; 2; 3].
Definition trx : raw_transaction := mk_raw_transaction 1600000000 7 300000000 200 5 0 [] [pay] [].
Definition sig_of (b : Z) : signature := inl (b :: replicate 64 0).
Definition signed_trx : signed_transaction := mk_signed_transaction trx [sig_of 31] [[9; 9]].
Definition packed_trx : packed_transaction := from_ok (mk_packed [] 0 [] []) (packed_of signed_trx zlib).

(** Sizes and the integers of variable length: an encoding need not be the
    shortest, and the fifth byte is the last. *)
Example trx_size : (length <$> pack_transaction trx) = Ok 54%nat.
Proof. vm_compute. reflexivity. Qed.
Example varint_bytes : pack_varint_loop 5 300 = [172; 2] /\ unpack c_varint [172; 2; 77] = Got 300 [77] /\
  unpack c_varint [172] = Ended /\ unpack c_varint [128; 0] = Got 0 [] /\
  unpack c_varint [255; 255; 255; 255; 255; 1] = Got UINT32_MAX [1].
Proof. vm_compute. repeat split. Qed.

Lemma trx_fits : transaction_fits trx.
Proof. unfold transaction_fits, exts_fit. cbn. repeat split; try (unfold is_byte; mach_lia || lia); repeat constructor; cbn; mach_lia. Qed.
Lemma sig_fits b : Forall (key_fits 65) [sig_of b].
Proof. by repeat constructor. Qed.

Lemma transaction_transmitted_witness : exists bs, pack c_packed_transaction packed_trx = Ok bs /\
  unpack c_packed_transaction (bs ++ [1]) = Got packed_trx [1] /\ unpacked_trx packed_trx = Ok signed_trx /\
  get_raw_transaction packed_trx = pack_transaction (st_trx signed_trx).
Proof.
  eexists. split; [vm_compute; reflexivity|]. apply (transaction_transmitted signed_trx zlib).
  - exact trx_fits.
  - apply sig_fits.
  - intros _. split; intros bs E; vm_compute in E; apply (proj1 (Ok_inj _ _)) in E as <-; cbn; lia.
  - vm_compute. reflexivity.
  - vm_compute. reflexivity.
Defined.

Definition zero : digest := mk_digest 0 0 0 0.
Definition header : block_header public_key :=
  mk_header 1000 5 0 (mk_digest 16777216 7 8 9) zero zero 1 (Some (mk_schedule 1 [mk_producer 5 (inl (replicate 33 2))])) [(0, [])].
Definition block : raw_block :=
  mk_block (mk_signed header (sig_of 32)) [mk_receipt 0 700 20 (inr packed_trx); mk_receipt 4 0 0 (inl zero)] [].

Lemma block_fits_block : block_fits block.
Proof.
  split; [split; [|by cbn]|split; [|constructor]].
  - unfold header_fits, digest_wf, exts_fit. cbn. split_and!; try mach_lia; [|repeat constructor; cbn; mach_lia].
    intros s [= <-]. split; [cbn; mach_lia|]. repeat constructor; cbn; mach_lia.
  - constructor; [|constructor; [|constructor]]; unfold receipt_fits; cbn [tr_status tr_cpu_usage_us tr_net_usage_words tr_trx].
    + split_and!; [unfold is_byte; lia|mach_lia|mach_lia|]. split; [|vm_compute; reflexivity].
      split; [exact (sig_fits 31)|]. split; [split; vm_compute; congruence|done].
    + unfold digest_wf. cbn. split_and!; unfold is_byte; mach_lia.
Qed.

Lemma block_transmitted_witness : exists bs, pack c_signed_block block = Ok bs /\
  unpack c_signed_block (bs ++ [7]) = Got block [7] /\ forall p q, bs = p ++ q -> q <> [] -> unpack c_signed_block p = Ended.
Proof. eexists. split; [vm_compute; reflexivity|]. apply block_transmitted; [exact block_fits_block|vm_compute; reflexivity]. Defined.

(** Signatures that recover to a key only under the digest that was signed. *)
Definition hash (b : bytes) : digest := mk_digest (foldl Z.add 0 b) (Z.of_nat (length b)) 0 0.
Definition recover (s : signature) (d : digest) : result public_key :=
  match s with
  | inl (b :: _) => if hash0 d mod 256 =? b then Ok (inl (replicate 33 b)) else Err "unable to reconstruct public key from signature"
  | _ => Err "invalid signature"
  end.
Definition my_digest : digest := from_ok zero (trx_sig_digest hash zero trx []).
Definition my_sig : signature := sig_of (hash0 my_digest mod 256).
Definition my_key : public_key := inl (replicate 33 (hash0 my_digest mod 256)).
Definition run_keys (cfd : list bytes) cache :=
  get_signature_keys hash recover trx [my_sig] zero 1000 cfd false 3 [(10, 60)] cache.

Lemma cached_keys_true_witness : exists keys u cache, run_keys [] [] = Ok (keys, u, cache) /\ cache_true recover (fun _ => my_digest) cache /\
  exists d, trx_sig_digest hash zero trx [] = Ok d /\ forall k, k ∈ keys <-> exists sig, sig ∈ [my_sig] /\ recover sig d = Ok k.
Proof.
  do 3 eexists. split; [vm_compute; reflexivity|].
  eapply (cached_keys_true hash recover (fun _ => my_digest) trx [my_sig] zero 1000 [] false 3 [(10, 60)] []).
  - intros e He. by apply not_elem_of_nil in He.
  - intros tid _. vm_compute. reflexivity.
  - vm_compute. reflexivity.
Defined.

(** Other context-free data, under whose digest the signature does not
    recover, is refused with an empty cache and accepted with this one, also
    after another entry was added. *)
Definition my_cache : list cached_pub_key := (from_ok ([], 0, []) (run_keys [] [])).2.
Definition grown_cache : list cached_pub_key := my_cache ++ [mk_cached zero my_key (sig_of 5) 1].

Lemma cache_ignores_context_free_data_witness :
  run_keys [[1]] [] = Err "unable to reconstruct public key from signature" /\
  run_keys [[1]] grown_cache = Ok ([my_key], 53, grown_cache).
Proof.
  split; [vm_compute; reflexivity|].
  refine (cache_ignores_context_free_data hash recover trx [my_sig] zero 1000 [] false 3 [(10, 60)] []
    [my_key] 53 my_cache [[1]] (from_ok zero (trx_sig_digest hash zero trx [[1]])) 1000 3 [(10, 60)] grown_cache _ _ _ _ _ _ _).
  - vm_compute. reflexivity.
  - constructor.
  - intros tid _ sig e _ Hf. discriminate Hf.
  - intros sig ->%list_elem_of_singleton. eexists. split; vm_compute; reflexivity.
  - vm_compute. reflexivity.
  - reflexivity.
  - repeat constructor; cbn; lia.
Defined.
End RawRuns.
