(* ===== verification/ActorList.v ===== *)
(** * White and black lists ([controller.cpp])

    The lists a producer may configure: which actors, contracts and actions
    it accepts in the blocks it produces.  The sets are sorted vectors, which
    the checks on actors walk side by side. *)

From stdpp Require Import base numbers list gmap strings sorting.
From Stdlib Require Import ZArith Lia.
From S2P Require Import Prelude.
Local Open Scope Z_scope.

Record list_config := mk_lists {
  actor_whitelist : list Z; actor_blacklist : list Z;
  contract_whitelist : list Z; contract_blacklist : list Z;
  action_blacklist : list (Z * Z); sender_bypass_whiteblacklist : list Z }.

(** [std::lower_bound]: the rest of the list from the first element that is
    not less. *)
Fixpoint lower_bound (l : list Z) (a : Z) : list Z :=
  match l with
  | [] => []
  | b :: l' => if b <? a then lower_bound l' a else l
  end.

Definition front (l : list Z) : Z := List.hd 0 l.
Definition back (l : list Z) : Z := List.last l 0.

(** The loop over the actors against the whitelist; [w] is the rest of the
    list from the position that was reached. *)
Fixpoint subset_loop (w actors : list Z) : bool :=
  match actors with
  | [] => true
  | a :: actors =>
    match lower_bound w a with
    | [] => false
    | b :: w' => if b =? a then subset_loop w' actors else false
    end
  end.

(** The loop over the actors against the blacklist. *)
Fixpoint intersects_loop (w actors : list Z) : bool :=
  match actors with
  | [] => false
  | a :: actors =>
    match lower_bound w a with
    | [] => false
    | b :: w' => if b =? a then true else intersects_loop (b :: w') actors
    end
  end.

Definition check_actor_list (c : list_config) (actors : list Z) : result unit :=
  match actors with
  | [] => Ok tt
  | _ =>
    match actor_whitelist c with
    | _ :: _ =>
      check ((front actors >=? front (actor_whitelist c)) && (back actors <=? back (actor_whitelist c)) &&
             subset_loop (actor_whitelist c) actors) "actor_whitelist_exception"
    | [] =>
      match actor_blacklist c with
      | _ :: _ =>
        check (negb ((front actors <=? back (actor_blacklist c)) && (back actors >=? front (actor_blacklist c)) &&
               intersects_loop (actor_blacklist c) actors)) "actor_blacklist_exception"
      | [] => Ok tt
      end
    end
  end.

Definition check_contract_list (c : list_config) (code : Z) : result unit :=
  match contract_whitelist c with
  | _ :: _ => check (bool_decide (code ∈ contract_whitelist c)) "contract_whitelist_exception"
  | [] =>
    match contract_blacklist c with
    | _ :: _ => check (negb (bool_decide (code ∈ contract_blacklist c))) "contract_blacklist_exception"
    | [] => Ok tt
    end
  end.

Definition check_action_list (c : list_config) (code action : Z) : result unit :=
  match action_blacklist c with
  | _ :: _ => check (negb (bool_decide ((code, action) ∈ action_blacklist c))) "action_blacklist_exception"
  | [] => Ok tt
  end.

Definition sender_avoids_whitelist_blacklist_enforcement (c : list_config) (sender : Z) : bool :=
  bool_decide (sender ∈ sender_bypass_whiteblacklist c).

(** ** The loops decide inclusion and intersection *)

#[local] Abbreviation sorted := (StronglySorted Z.lt).

Lemma lower_bound_suffix l a x : sorted l -> x ∈ lower_bound l a <-> x ∈ l /\ a <= x.
Proof.
  induction 1 as [|b l Hl IH Hb]; simpl; [set_solver|]. rewrite Forall_forall in Hb. destruct (b <? a) eqn:E.
  - rewrite IH. split; [intros []; split; [by right|done]|]. intros [[->|Hx]%elem_of_cons Hle]; [lia|done].
  - split; [|tauto]. intros Hx. split; [done|]. apply elem_of_cons in Hx as [->|Hx]; [lia|]. specialize (Hb x Hx). lia.
Qed.

Lemma lower_bound_sorted l a : sorted l -> sorted (lower_bound l a).
Proof. induction 1 as [|b l Hl IH Hb]; simpl; [constructor|]. destruct (b <? a); [done|by constructor]. Qed.

(** The element found is the least that is not below [a]. *)
Lemma lower_bound_head l a b l' : sorted l -> lower_bound l a = b :: l' ->
  b ∈ l /\ a <= b /\ sorted l' /\ (forall x, x ∈ l' <-> x ∈ l /\ b < x) /\ (a ∈ l <-> b = a).
Proof.
  intros Hl E. pose proof (lower_bound_sorted l a Hl) as Hs. pose proof (fun x => lower_bound_suffix l a x Hl) as Hin.
  rewrite E in Hs, Hin. apply StronglySorted_inv in Hs as [Hs Hb]. rewrite Forall_forall in Hb.
  destruct (proj1 (Hin b) ltac:(by left)) as [B1 B2]. split_and!; [done|done|done| |].
  - intros x. split.
    + intros Hx. split; [by apply Hin; right|by apply Hb].
    + intros [Hx Hlt]. assert (x ∈ b :: l') as [->|]%elem_of_cons by (apply Hin; split; [done|lia]); [lia|done].
  - split; [|by intros <-]. intros Ha. assert (a ∈ b :: l') as [->|Hx]%elem_of_cons by (apply Hin; split; [done|lia]); [done|].
    specialize (Hb a Hx). lia.
Qed.

Lemma subset_loop_spec w actors : sorted w -> sorted actors -> subset_loop w actors = true <-> actors ⊆ w.
Proof.
  intros Hw Ha. revert w Hw. induction Ha as [|a actors Ha IH Hb]; intros w Hw; simpl; [set_solver|].
  rewrite Forall_forall in Hb. destruct (lower_bound w a) as [|b w'] eqn:E.
  - split; [done|]. intros Hs. pose proof (proj2 (lower_bound_suffix w a a Hw)) as Hin. rewrite E in Hin.
    specialize (Hin ltac:(split; [set_solver|lia])). by apply not_elem_of_nil in Hin.
  - apply lower_bound_head in E as (B1 & B2 & Hs & Hin & Hiff); [|done]. destruct (b =? a) eqn:Eb.
    + apply Z.eqb_eq in Eb as ->. rewrite (IH w' Hs). split; intros Hsub x Hx.
      * apply elem_of_cons in Hx as [->|Hx]; [done|]. by apply Hin, Hsub.
      * apply Hin. split; [apply Hsub; by right|by apply Hb].
    + split; [done|]. intros Hsub. exfalso. apply Z.eqb_neq in Eb. apply Eb, Hiff, Hsub. by left.
Qed.

Lemma intersects_loop_spec w actors : sorted w -> sorted actors ->
  intersects_loop w actors = true <-> exists x, x ∈ actors /\ x ∈ w.
Proof.
  intros Hw Ha. revert w Hw. induction Ha as [|a actors Ha IH Hb]; intros w Hw; simpl; [set_solver|].
  rewrite Forall_forall in Hb. destruct (lower_bound w a) as [|b w'] eqn:E.
  - split; [done|]. intros (x & Hx & Hxw). pose proof (proj2 (lower_bound_suffix w a x Hw)) as Hin. rewrite E in Hin.
    assert (a <= x) by (apply elem_of_cons in Hx as [->|Hx]; [lia|specialize (Hb x Hx); lia]).
    specialize (Hin (conj Hxw H)). by apply not_elem_of_nil in Hin.
  - pose proof (lower_bound_sorted w a Hw) as Hs. pose proof (fun x => lower_bound_suffix w a x Hw) as Hin.
    apply lower_bound_head in E as E'; [|done]. destruct E' as (B1 & B2 & _ & _ & Hiff). rewrite E in Hs, Hin.
    destruct (b =? a) eqn:Eb.
    + apply Z.eqb_eq in Eb as ->. split; [|done]. intros _. exists a. split; [by left|done].
    + apply Z.eqb_neq in Eb. rewrite (IH _ Hs). split; intros (x & Hx & Hxw); exists x.
      * split; [by right|]. by apply Hin.
      * apply elem_of_cons in Hx as [->|Hx]; [by destruct Eb; apply Hiff|]. split; [done|]. apply Hin.
        split; [done|]. specialize (Hb x Hx). lia.
Qed.

(** *** The extents *)

Lemma sorted_front l x : sorted l -> x ∈ l -> front l <= x.
Proof.
  destruct 1 as [|b l Hl Hb]; [by intros ?%not_elem_of_nil|]. rewrite Forall_forall in Hb. unfold front. simpl.
  intros [->|Hx]%elem_of_cons; [lia|]. specialize (Hb x Hx). lia.
Qed.
Lemma sorted_back l x : sorted l -> x ∈ l -> x <= back l.
Proof.
  intros Hs. revert x. induction Hs as [|b l Hl IH Hb]; intros x; [by intros ?%not_elem_of_nil|].
  rewrite Forall_forall in Hb. unfold back in *. destruct l as [|c l]; [intros ->%list_elem_of_singleton; simpl; lia|].
  change (List.last (b :: c :: l) 0) with (List.last (c :: l) 0).
  intros [->|Hx]%elem_of_cons; [|by apply IH]. specialize (Hb c ltac:(by left)). specialize (IH c ltac:(by left)). lia.
Qed.
Lemma front_elem l : l <> [] -> front l ∈ l.
Proof. destruct l; [done|]. by left. Qed.
Lemma back_elem l : l <> [] -> back l ∈ l.
Proof.
  induction l as [|b l IH]; [done|]. intros _. unfold back in *. destruct l as [|c l]; [by left|]. right. by apply IH.
Qed.

(** The check of the actors, with its test of the extents and its side by
    side walk, decides exactly this: every actor is on the whitelist, or there
    is none and no actor is on the blacklist. *)
Theorem check_actor_list_exact c actors :
  sorted actors -> sorted (actor_whitelist c) -> sorted (actor_blacklist c) ->
  check_actor_list c actors = Ok tt <->
  (actor_whitelist c <> [] -> actors ⊆ actor_whitelist c) /\
  (actor_whitelist c = [] -> forall a, a ∈ actors -> a ∉ actor_blacklist c).
Proof.
  intros Ha Hw Hb. unfold check_actor_list. destruct actors as [|a0 l] eqn:El; [set_solver|]. rewrite <- El in *.
  assert (Hne : actors <> []) by (by rewrite El). clear El.
  destruct (actor_whitelist c) as [|w0 w] eqn:Ew.
  - destruct (actor_blacklist c) as [|b0 b] eqn:Eb; [set_solver|]. rewrite <- Eb in *. rewrite check_ok, negb_true_iff.
    assert (Hbne : actor_blacklist c <> []) by (by rewrite Eb). split.
    + intros Hi. split; [done|]. intros _ x Hx Hxb. apply not_true_iff_false in Hi. apply Hi.
      rewrite !andb_true_iff. split_and!.
      * apply Z.leb_le. etrans; [by apply (sorted_front actors x)|by apply sorted_back].
      * apply Z.geb_le. etrans; [by apply (sorted_front (actor_blacklist c) x)|by apply sorted_back].
      * apply intersects_loop_spec; [done..|]. by exists x.
    + intros [_ Hd]. apply not_true_iff_false. rewrite !andb_true_iff. intros [_ Hl].
      apply intersects_loop_spec in Hl as (x & Hx & Hxb); [|done..]. by apply (Hd eq_refl x).
  - rewrite <- Ew in *. assert (Hwne : actor_whitelist c <> []) by (by rewrite Ew). rewrite check_ok, !andb_true_iff.
    rewrite subset_loop_spec by done. split.
    + intros [_ Hs]. split; [done|]. intros E. done.
    + intros [Hs _]. specialize (Hs Hwne). split_and!; [|  |done].
      * apply Z.geb_le, sorted_front; [done|]. by apply Hs, front_elem.
      * apply Z.leb_le, sorted_back; [done|]. by apply Hs, back_elem.
Qed.

Definition some_lists : list_config := mk_lists [2; 5; 9] [7] [] [] [] [].

Lemma check_actor_list_exact_witness : check_actor_list some_lists [2; 9] = Ok tt /\ [2; 9] ⊆ [2; 5; 9].
Proof.
  assert (Ha : sorted [2; 9]) by (repeat (constructor; try lia)).
  assert (Hw : sorted (actor_whitelist some_lists)) by (simpl; repeat (constructor; try lia)).
  assert (Hb : sorted (actor_blacklist some_lists)) by (simpl; repeat (constructor; try lia)).
  split; [reflexivity|]. apply (check_actor_list_exact some_lists [2; 9] Ha Hw Hb); [reflexivity|discriminate].
Defined.
