(* ===== verification/TransactionContext.v ===== *)
(** * The transaction context: limits and billing ([transaction_context.hpp],
    [transaction_context.cpp])

    What a transaction may use and what it is billed for.  The clock enters as
    the time of the call; whether the deadline timer has fired is an input, as
    it is set by a signal. *)

From stdpp Require Import base numbers gmap strings countable list.
From Stdlib Require Import ZArith Lia.
From S2P Require Import Prelude Boost Names Accumulator ResourceLimits ChainConfig Authority Authorization.
Local Open Scope Z_scope.

Section Context.
Context {key : Type} `{PublicKey key}.
#[local] Abbreviation adb := (adb (key := key)).
#[local] Abbreviation chain_action := (chain_action (key := key)).

(** The codes of the exceptions that a deadline can stand for. *)
Inductive deadline_code :=
| block_cpu_usage_exceeded | tx_cpu_usage_exceeded | leeway_deadline_exception | deadline_exception.

(** [transaction_header] and [transaction]; an expiration is in seconds. *)
Record transaction := mk_transaction {
  trx_expiration : Z; ref_block_num : Z; ref_block_prefix : Z;
  max_net_usage_words : Z; max_cpu_usage_ms : Z; delay_sec : Z;
  trx_context_free_actions : list chain_action; trx_actions : list chain_action;
  transaction_extensions : list (Z * list Z) }.

(** [transaction::first_authorizer]; the default name is 0. *)
Definition first_authorizer (t : transaction) : Z :=
  match (t : transaction).(trx_actions) ≫= act_authorization with
  | [] => 0
  | a :: _ => a.1
  end.

(** What the context reads of the controller, and how it was set up. *)
Record trx_env := mk_trx_env {
  te_cfg : chain_config; skip_trx_checks : bool; is_producing_block : bool;
  only_bill_first_authorizer_active : bool; greylist_limit : Z; resource_greylist : gset Z;
  te_pending_block_time : Z; te_block_slot : Z;
  te_start : Z; te_deadline : Z; te_leeway : Z; explicit_billed_cpu_time : bool;
  te_timer : Z -> bool (** whether the timer started for a deadline has fired *) }.

Record net_state := mk_net {
  net_limit : Z; net_limit_due_to_block : bool; net_limit_due_to_greylist : bool;
  eager_net_limit : Z; ts_net_usage : Z }.
Record cpu_state := mk_cpu {
  objective_duration_limit : Z; billing_timer_exception_code : deadline_code;
  cpu_limit_due_to_greylist : bool; _deadline : Z; deadline_exception_code : deadline_code;
  billing_timer_duration_limit : Z; pseudo_start : Z; billed_time : Z; timer_expired : bool;
  billed_cpu_time_us : Z }.

Record transaction_context := mk_tc {
  tc_trx : transaction; tc_net : net_state; tc_cpu : cpu_state;
  bill_to_accounts : list Z; tc_validate_ram : list Z;
  is_initialized : bool; is_input : bool; tc_res : rdb; tc_auth : adb }.

Definition with_net (c : transaction_context) (n : net_state) : transaction_context :=
  mk_tc (tc_trx c) n (tc_cpu c) (bill_to_accounts c) (tc_validate_ram c) (is_initialized c) (is_input c)
    (tc_res c) (tc_auth c).
Definition with_cpu (c : transaction_context) (x : cpu_state) : transaction_context :=
  mk_tc (tc_trx c) (tc_net c) x (bill_to_accounts c) (tc_validate_ram c) (is_initialized c) (is_input c)
    (tc_res c) (tc_auth c).
Definition with_res (c : transaction_context) (r : rdb) : transaction_context :=
  mk_tc (tc_trx c) (tc_net c) (tc_cpu c) (bill_to_accounts c) (tc_validate_ram c) (is_initialized c)
    (is_input c) r (tc_auth c).

(** A [flat_set] of accounts, in ascending order. *)
Fixpoint account_insert (a : Z) (l : list Z) : list Z :=
  match l with
  | [] => [a]
  | b :: l' => if a <? b then a :: l else if a =? b then l else b :: account_insert a l'
  end.

(** ** Net usage *)

Definition check_net_usage (e : trx_env) (n : net_state) : result unit :=
  if skip_trx_checks e then Ok tt
  else if ts_net_usage n >? eager_net_limit n then
    if net_limit_due_to_block n then Err "block_net_usage_exceeded"
    else if net_limit_due_to_greylist n then Err "greylist_net_usage_exceeded"
    else Err "tx_net_usage_exceeded"
  else Ok tt.

Definition add_net_usage (e : trx_env) (u : Z) (n : net_state) : result net_state :=
  let n := mk_net (net_limit n) (net_limit_due_to_block n) (net_limit_due_to_greylist n)
             (eager_net_limit n) (u64 (ts_net_usage n + u)) in
  check_net_usage e n ;; Ok n.

(** ** Time *)

Definition checktime (e : trx_env) (now : Z) (c : cpu_state) : result unit :=
  if negb (timer_expired c) then Ok tt
  else if now >? _deadline c then
    if explicit_billed_cpu_time e then Err "deadline_exception"
    else match deadline_exception_code c with
         | deadline_exception => Err "deadline_exception"
         | block_cpu_usage_exceeded => Err "block_cpu_usage_exceeded"
         | tx_cpu_usage_exceeded =>
           if cpu_limit_due_to_greylist c then Err "greylist_cpu_usage_exceeded" else Err "tx_cpu_usage_exceeded"
         | leeway_deadline_exception => Err "leeway_deadline_exception"
         end
  else Ok tt.

(** [pause_billing_timer]; the default time point is 0. *)
Definition pause_billing_timer (e : trx_env) (now : Z) (c : cpu_state) : cpu_state :=
  if explicit_billed_cpu_time e || (pseudo_start c =? 0) then c
  else mk_cpu (objective_duration_limit c) (billing_timer_exception_code c) (cpu_limit_due_to_greylist c)
         (_deadline c) deadline_exception (billing_timer_duration_limit c) 0 (now - pseudo_start c)
         (timer_expired c) (billed_cpu_time_us c).

Definition resume_billing_timer (e : trx_env) (now : Z) (c : cpu_state) : cpu_state :=
  if explicit_billed_cpu_time e || negb (pseudo_start c =? 0) then c
  else
    let ps := now - billed_time c in
    let '(d, code) :=
      if ps + billing_timer_duration_limit c <=? te_deadline e
      then (ps + billing_timer_duration_limit c, billing_timer_exception_code c)
      else (te_deadline e, deadline_exception) in
    mk_cpu (objective_duration_limit c) (billing_timer_exception_code c) (cpu_limit_due_to_greylist c)
      d code (billing_timer_duration_limit c) ps (billed_time c) (te_timer e d) (billed_cpu_time_us c).

Definition validate_cpu_usage_to_bill (e : trx_env) (billed_us : Z) (check_minimum : bool) (c : cpu_state)
    : result unit :=
  if skip_trx_checks e then Ok tt
  else
    (if check_minimum then
       check (billed_us >=? min_transaction_cpu_usage (te_cfg e)) "cannot bill CPU time less than the minimum"
     else Ok tt) ;;
    check (billed_us <=? objective_duration_limit c)
      (match billing_timer_exception_code c with
       | block_cpu_usage_exceeded => "block_cpu_usage_exceeded"
       | _ => if cpu_limit_due_to_greylist c then "greylist_cpu_usage_exceeded" else "tx_cpu_usage_exceeded"
       end).

Definition update_billed_cpu_time (e : trx_env) (now : Z) (c : cpu_state) : cpu_state :=
  if explicit_billed_cpu_time e then c
  else mk_cpu (objective_duration_limit c) (billing_timer_exception_code c) (cpu_limit_due_to_greylist c)
         (_deadline c) (deadline_exception_code c) (billing_timer_duration_limit c) (pseudo_start c)
         (billed_time c) (timer_expired c)
         (Z.max (now - pseudo_start c) (min_transaction_cpu_usage (te_cfg e))).

(** ** What the billed accounts can pay *)

Definition large_number_no_overflow : Z := INT64_MAX / 2.

Record bandwidth := mk_bandwidth {
  account_net_limit : Z; account_cpu_limit : Z; greylisted_net : bool; greylisted_cpu : bool }.

Definition account_greylist_limit (e : trx_env) (force_elastic_limits : bool) (a : Z) : Z :=
  if negb force_elastic_limits && is_producing_block e then
    if bool_decide (a ∈ resource_greylist e) then 1 else greylist_limit e
  else maximum_elastic_resource_multiplier.

Definition account_bandwidth (e : trx_env) (force_elastic_limits : bool) (db : rdb) (b : bandwidth) (a : Z)
    : result bandwidth :=
  let gl := account_greylist_limit e force_elastic_limits a in
  '(net, net_was_greylisted) ← get_account_net_limit db a gl;
  let b := if net >=? 0 then
             mk_bandwidth (Z.min (account_net_limit b) net) (account_cpu_limit b)
               (greylisted_net b || net_was_greylisted) (greylisted_cpu b)
           else b in
  '(cpu, cpu_was_greylisted) ← get_account_cpu_limit db a gl;
  Ok (if cpu >=? 0 then
        mk_bandwidth (account_net_limit b) (Z.min (account_cpu_limit b) cpu)
          (greylisted_net b) (greylisted_cpu b || cpu_was_greylisted)
      else b).

Definition max_bandwidth_billed_accounts_can_pay (e : trx_env) (force_elastic_limits : bool)
    (accounts : list Z) (db : rdb) : result bandwidth :=
  mfold (account_bandwidth e force_elastic_limits db) accounts
    (mk_bandwidth large_number_no_overflow large_number_no_overflow false false).

(** ** [init] *)

(** The limits on net usage before the accounts are looked at. *)
Definition initial_net_limit (cfg : chain_config) (t : transaction) (block_net_limit : Z) : Z * bool :=
  let '(l, due_to_block) :=
    if max_transaction_net_usage cfg <=? block_net_limit
    then (max_transaction_net_usage cfg, false) else (block_net_limit, true) in
  let specified := u64 (max_net_usage_words t * 8) in
  if (specified >? 0) && (specified <=? l) then (specified, false) else (l, due_to_block).

(** The limit on the billed time, and the exception it stands for. *)
Definition initial_cpu_limit (cfg : chain_config) (t : transaction) (block_cpu_limit : Z) : Z * deadline_code :=
  let l := i64 block_cpu_limit in
  let '(l, code) :=
    if max_transaction_cpu_usage cfg <=? l
    then (max_transaction_cpu_usage cfg, tx_cpu_usage_exceeded) else (l, block_cpu_usage_exceeded) in
  if max_cpu_usage_ms t >? 0 then
    let specified := max_cpu_usage_ms t * 1000 in
    if specified <=? l then (specified, tx_cpu_usage_exceeded) else (l, code)
  else (l, code).

Definition accounts_to_bill (e : trx_env) (t : transaction) : list Z :=
  if only_bill_first_authorizer_active e then account_insert (first_authorizer t) []
  else foldl (fun l (a : permission_level) => account_insert a.1 l) [] (trx_actions t ≫= act_authorization).

Definition init_context (e : trx_env) (now initial_net_usage : Z) (c : transaction_context)
    : result transaction_context :=
  check (negb (is_initialized c)) "cannot initialize twice" ;;
  let cfg := te_cfg e in
  block_net_limit ← get_block_net_limit (tc_res c);
  block_cpu_limit ← get_block_cpu_limit (tc_res c);
  let '(l, due_to_block) := initial_net_limit cfg (tc_trx c) block_net_limit in
  let '(objective, code) := initial_cpu_limit cfg (tc_trx c) block_cpu_limit in
  let billed := billed_cpu_time_us (tc_cpu c) in
  let cpu0 := mk_cpu objective code false (te_start e + objective) block_cpu_usage_exceeded 0
                (pseudo_start (tc_cpu c)) (billed_time (tc_cpu c)) (timer_expired (tc_cpu c)) billed in
  (if billed >? 0 then validate_cpu_usage_to_bill e billed false cpu0 else Ok tt) ;;
  let accounts := accounts_to_bill e (tc_trx c) in
  res ← update_account_usage accounts (te_block_slot e) (tc_res c);
  b ← max_bandwidth_billed_accounts_can_pay e false accounts res;
  let new_eager := Z.min l (u64 (account_net_limit b + net_usage_leeway cfg)) in
  let '(eager, due_to_block) := if new_eager <? l then (new_eager, false) else (l, due_to_block) in
  let '(d, code) :=
    if account_cpu_limit b + te_leeway e <=? objective
    then (te_start e + account_cpu_limit b + te_leeway e, leeway_deadline_exception)
    else (te_start e + objective, code) in
  let duration := d - te_start e in
  let '(d, dcode) :=
    if explicit_billed_cpu_time e || (te_deadline e <? d) then (te_deadline e, deadline_exception) else (d, code) in
  let cpu := mk_cpu objective code (greylisted_cpu b) d dcode duration (pseudo_start (tc_cpu c))
               (billed_time (tc_cpu c)) (timer_expired (tc_cpu c)) billed in
  let n := mk_net l due_to_block (greylisted_net b) (eager / 8 * 8) (ts_net_usage (tc_net c)) in
  n ← (if initial_net_usage >? 0 then add_net_usage e initial_net_usage n else Ok n);
  checktime e now cpu ;;
  let cpu := mk_cpu objective code (greylisted_cpu b) d dcode duration (pseudo_start (tc_cpu c))
               (billed_time (tc_cpu c)) (if skip_trx_checks e then false else te_timer e d) billed in
  Ok (mk_tc (tc_trx c) n cpu accounts (tc_validate_ram c) true (is_input c) res (tc_auth c)).

(** The net usage an input transaction starts with. *)
Definition input_net_usage (cfg : chain_config) (t : transaction) (unprunable prunable : Z) : Z :=
  let discounted :=
    if (context_free_discount_net_usage_den cfg >? 0) &&
       (context_free_discount_net_usage_num cfg <? context_free_discount_net_usage_den cfg)
    then u64 (u64 (prunable * context_free_discount_net_usage_num cfg) +
              context_free_discount_net_usage_den cfg - 1) / context_free_discount_net_usage_den cfg
    else prunable in
  let initial := u64 (base_per_transaction_net_usage cfg + unprunable + discounted) in
  if delay_sec t >? 0
  then u64 (initial + base_per_transaction_net_usage cfg + transaction_id_net_usage) else initial.

(** ** [finalize] *)

Definition record_permission_usage (e : trx_env) (c : transaction_context) : result adb :=
  if is_input c then
    mfold (fun db a => p ← get_permission db a; update_permission_usage (te_pending_block_time e) p db)
      (trx_actions (tc_trx c) ≫= act_authorization) (tc_auth c)
  else Ok (tc_auth c).

(** Everything of [finalize] before the usage is charged. *)
Definition settle (e : trx_env) (now : Z) (c : transaction_context) : result transaction_context :=
  check (is_initialized c) "must first initialize" ;;
  auth ← record_permission_usage e c;
  mfold (fun _ a => verify_account_ram_usage (tc_res c) a) (tc_validate_ram c) tt ;;
  b ← max_bandwidth_billed_accounts_can_pay e false (bill_to_accounts c) (tc_res c);
  let n := tc_net c in
  let '(l, due_to_block) :=
    if u64 (account_net_limit b) <=? net_limit n then (u64 (account_net_limit b), false)
    else (net_limit n, net_limit_due_to_block n) in
  let x := tc_cpu c in
  let '(objective, code) :=
    if account_cpu_limit b <=? objective_duration_limit x then (account_cpu_limit b, tx_cpu_usage_exceeded)
    else (objective_duration_limit x, billing_timer_exception_code x) in
  let n := mk_net l due_to_block (net_limit_due_to_greylist n || greylisted_net b) l
             (u64 (u64 (ts_net_usage n + 7) / 8 * 8)) in
  check_net_usage e n ;;
  let x := update_billed_cpu_time e now
             (mk_cpu objective code (cpu_limit_due_to_greylist x || greylisted_cpu b) (_deadline x)
                (deadline_exception_code x) (billing_timer_duration_limit x) (pseudo_start x) (billed_time x)
                (timer_expired x) (billed_cpu_time_us x)) in
  validate_cpu_usage_to_bill e (billed_cpu_time_us x) true x ;;
  Ok (mk_tc (tc_trx c) n x (bill_to_accounts c) (tc_validate_ram c) true (is_input c) (tc_res c) auth).

Definition charge (e : trx_env) (c : transaction_context) : result rdb :=
  add_transaction_usage (bill_to_accounts c) (u64 (billed_cpu_time_us (tc_cpu c))) (ts_net_usage (tc_net c))
    (te_block_slot e) (tc_res c).

Definition finalize (e : trx_env) (now : Z) (c : transaction_context) : result transaction_context :=
  c ← settle e now c;
  res ← charge e c;
  Ok (with_res c res).

(** [transaction_context::add_ram_usage] *)
Definition tc_add_ram_usage (account ram_delta : Z) (c : transaction_context) : result transaction_context :=
  res ← add_pending_ram_usage account ram_delta (tc_res c);
  Ok (mk_tc (tc_trx c) (tc_net c) (tc_cpu c) (bill_to_accounts c)
        (if ram_delta >? 0 then account_insert account (tc_validate_ram c) else tc_validate_ram c)
        (is_initialized c) (is_input c) res (tc_auth c)).
End Context.
