(* ===== verification/TransactionContextSpec.v ===== *)
(** * What the billing of transactions promises

    A transaction that is finalized stays within every limit that applies to
    it, and charging what was checked does not fail. *)

From stdpp Require Import base numbers gmap strings countable sorting list.
From Stdlib Require Import ZArith Lia.
From S2P Require Import Prelude Boost Names Accumulator ResourceLimits ResourceLimitsSpec ChainConfig Authority Authorization.
From S2P Require Import TransactionContext.
Local Open Scope Z_scope.

Section Billing.
Context {key : Type} `{PublicKey key}.
#[local] Abbreviation transaction_context := (transaction_context (key := key)).
#[local] Abbreviation transaction := (transaction (key := key)).
Implicit Types (e : trx_env) (c : transaction_context) (t : transaction) (b : bandwidth) (db : rdb).

(** ** Initial limits *)

Lemma initial_net_limit_spec cfg t block l due :
  initial_net_limit cfg t block = (l, due) -> is_u32 (max_net_usage_words t) ->
  l <= block /\ l <= max_transaction_net_usage cfg /\
  (0 < max_net_usage_words t -> l <= max_net_usage_words t * 8).
Proof.
  unfold initial_net_limit. intros Hl Hw. rewrite u64_small in Hl by mach_lia.
  destruct (max_transaction_net_usage cfg <=? block) eqn:E1;
    destruct ((max_net_usage_words t * 8 >? 0) && _) eqn:E2; injection Hl as <- <-; lia.
Qed.

Lemma initial_cpu_limit_spec cfg t block l code :
  initial_cpu_limit cfg t block = (l, code) ->
  l <= i64 block /\ l <= max_transaction_cpu_usage cfg /\
  (0 < max_cpu_usage_ms t -> l <= max_cpu_usage_ms t * 1000).
Proof.
  unfold initial_cpu_limit. intros Hl.
  destruct (max_transaction_cpu_usage cfg <=? i64 block) eqn:E1;
    destruct (max_cpu_usage_ms t >? 0) eqn:E2;
    try (destruct (max_cpu_usage_ms t * 1000 <=? _) eqn:E3); injection Hl as <- <-; lia.
Qed.

(** ** What the accounts can pay *)

(** The limits in [b] cover the account. *)
Definition pays e db b (a : Z) : Prop :=
  exists net gn cpu gc,
    get_account_net_limit db a (account_greylist_limit e false a) = Ok (net, gn) /\
    get_account_cpu_limit db a (account_greylist_limit e false a) = Ok (cpu, gc) /\
    (0 <= net -> account_net_limit b <= net /\ (gn = true -> greylisted_net b = true)) /\
    (0 <= cpu -> account_cpu_limit b <= cpu /\ (gc = true -> greylisted_cpu b = true)).

Lemma account_bandwidth_spec e db b a b' : account_bandwidth e false db b a = Ok b' ->
  pays e db b' a /\ account_net_limit b' <= account_net_limit b /\ account_cpu_limit b' <= account_cpu_limit b /\
  (greylisted_net b = true -> greylisted_net b' = true) /\ (greylisted_cpu b = true -> greylisted_cpu b' = true) /\
  (0 <= account_net_limit b -> 0 <= account_net_limit b') /\ (0 <= account_cpu_limit b -> 0 <= account_cpu_limit b').
Proof.
  unfold account_bandwidth. intros Hr. ok_bind Hr as [net gn] Hn. ok_bind Hr as [cpu gc] Hc.
  apply (proj1 (Ok_inj _ _)) in Hr as <-. split.
  - exists net, gn, cpu, gc. split_and!; [done|done| |]; intros Hle.
    + destruct (net >=? 0) eqn:E; [|lia]. destruct (cpu >=? 0); simpl; (split; [lia|]); intros ->; apply orb_true_r.
    + destruct (cpu >=? 0) eqn:E; [|lia]. simpl. split; [lia|]. intros ->. apply orb_true_r.
  - destruct (net >=? 0) eqn:E1, (cpu >=? 0) eqn:E2; simpl; split_and!; try lia; try done; intros ->; done.
Qed.

Lemma pays_mono e db b b' a : pays e db b a -> account_net_limit b' <= account_net_limit b ->
  account_cpu_limit b' <= account_cpu_limit b -> (greylisted_net b = true -> greylisted_net b' = true) ->
  (greylisted_cpu b = true -> greylisted_cpu b' = true) -> pays e db b' a.
Proof.
  intros (net & gn & cpu & gc & Hn & Hc & H1 & H2) L1 L2 G1 G2. exists net, gn, cpu, gc.
  split_and!; [done|done| |].
  - intros Hle. destruct (H1 Hle). split; [lia | auto].
  - intros Hle. destruct (H2 Hle). split; [lia | auto].
Qed.

Lemma bandwidth_spec e db accounts b : max_bandwidth_billed_accounts_can_pay e false accounts db = Ok b ->
  0 <= account_net_limit b <= large_number_no_overflow /\ 0 <= account_cpu_limit b <= large_number_no_overflow /\
  forall a, a ∈ accounts -> pays e db b a.
Proof.
  unfold max_bandwidth_billed_accounts_can_pay. intros Hr.
  assert (0 <= large_number_no_overflow) as Hlarge by (unfold large_number_no_overflow; vm_compute; discriminate).
  apply (mfold_each
    (fun b => 0 <= account_net_limit b <= large_number_no_overflow /\ 0 <= account_cpu_limit b <= large_number_no_overflow)
    (fun a b => pays e db b a)) in Hr as [[H1 H2] H3]; [done| | |simpl; lia].
  - intros b1 a b2 _ [H1 H2] Hb. apply account_bandwidth_spec in Hb as (? & ? & ? & ? & ? & ? & ?).
    split; [lia | done].
  - intros b1 a a' b2 _ Hb Hp. apply account_bandwidth_spec in Hb as (? & ? & ? & ? & ? & ? & ?).
    by eapply pays_mono.
Qed.

(** ** The parts of a settlement *)

Lemma settle_inv e now c c' : settle e now c = Ok c' -> skip_trx_checks e = false ->
  exists b, max_bandwidth_billed_accounts_can_pay e false (bill_to_accounts c) (tc_res c) = Ok b /\
    bill_to_accounts c' = bill_to_accounts c /\ tc_res c' = tc_res c /\
    ts_net_usage (tc_net c') = u64 (u64 (ts_net_usage (tc_net c) + 7) / 8 * 8) /\
    ts_net_usage (tc_net c') <= net_limit (tc_net c) /\ ts_net_usage (tc_net c') <= u64 (account_net_limit b) /\
    billed_cpu_time_us (tc_cpu c') <= objective_duration_limit (tc_cpu c) /\
    billed_cpu_time_us (tc_cpu c') <= account_cpu_limit b /\
    min_transaction_cpu_usage (te_cfg e) <= billed_cpu_time_us (tc_cpu c').
Proof.
  unfold settle. intros Hr Hskip. ok_bind Hr as [] _. ok_bind Hr as auth _. ok_bind Hr as [] _. ok_bind Hr as b Hb.
  exists b. split; [done|].
  destruct (if u64 (account_net_limit b) <=? net_limit (tc_net c) then _ else _) as [l due] eqn:El.
  destruct (if account_cpu_limit b <=? objective_duration_limit (tc_cpu c) then _ else _) as [obj code] eqn:Eo.
  ok_bind Hr as [] Hnet. ok_bind Hr as [] Hcpu. apply (proj1 (Ok_inj _ _)) in Hr as <-.
  cbn [bill_to_accounts tc_res tc_net tc_cpu ts_net_usage]. split; [done|]. split; [done|]. split; [done|].
  unfold check_net_usage in Hnet. rewrite Hskip in Hnet. 
  cbn [ts_net_usage eager_net_limit net_limit_due_to_block net_limit_due_to_greylist] in Hnet.
  match type of Hnet with (if ?g then _ else _) = _ => destruct g eqn:Egt end.
  { destruct due; [done|]. by destruct (net_limit_due_to_greylist (tc_net c) || greylisted_net b). }
  unfold validate_cpu_usage_to_bill in Hcpu. rewrite Hskip in Hcpu. ok_bind Hcpu as [] Hmin. ok_inv.
  assert (l <= net_limit (tc_net c) /\ l <= u64 (account_net_limit b)) as [Hl1 Hl2].
  { destruct (u64 _ <=? _) eqn:E in El; injection El as <- _; lia. }
  assert (obj <= objective_duration_limit (tc_cpu c) /\ obj <= account_cpu_limit b) as [Ho1 Ho2].
  { destruct (account_cpu_limit b <=? _) eqn:E in Eo; injection Eo as <- _; lia. }
  assert (Hobj : forall x, objective_duration_limit (update_billed_cpu_time e now x) = objective_duration_limit x)
    by (intros; unfold update_billed_cpu_time; by destruct (explicit_billed_cpu_time e)).
  rewrite Hobj in Hcpu. cbn [objective_duration_limit] in Hcpu. lia.
Qed.

(** ** From initialization to settlement *)

(** What execution leaves alone between the two. *)
Record kept c1 c2 : Prop := {
  kept_net : net_limit (tc_net c2) = net_limit (tc_net c1);
  kept_cpu : objective_duration_limit (tc_cpu c2) = objective_duration_limit (tc_cpu c1);
  kept_accounts : bill_to_accounts c2 = bill_to_accounts c1;
  kept_config : config (tc_res c2) = config (tc_res c1);
  kept_state : rstate (tc_res c2) = rstate (tc_res c1);
  kept_usage : forall a u1, usages (tc_res c1) !! a = Some u1 -> exists u2, usages (tc_res c2) !! a = Some u2 /\
    net_usage u2 = net_usage u1 /\ cpu_usage u2 = cpu_usage u1 }.

Lemma kept_refl c : kept c c.
Proof. split; [done..|]. intros a u Hu. by exists u. Qed.

Lemma update_usage_books accounts slot db db' : update_account_usage accounts slot db = Ok db' ->
  config db' = config db /\ rstate db' = rstate db /\ limits db' = limits db.
Proof.
  unfold update_account_usage. intros Hr. ok_bind Hr as cfg _. revert Hr.
  apply (mfold_inv (fun x => config x = config db /\ rstate x = rstate db /\ limits x = limits db)); [|done].
  intros x a y _ Hx Hs. ok_bind Hs as u _. ok_bind Hs as n _. ok_bind Hs as w _. by apply (proj1 (Ok_inj _ _)) in Hs as <-.
Qed.

(** The account's averages have been brought to [slot]. *)
Definition at_slot (slot : Z) db (a : Z) : Prop :=
  exists u, usages db !! a = Some u /\ last_ordinal (net_usage u) = slot /\ last_ordinal (cpu_usage u) = slot.

Lemma acc_add_ordinal a units ordinal w a' : acc_add a units ordinal w = Ok a' -> last_ordinal a' = ordinal.
Proof.
  unfold acc_add. intros Hr. do 4 ok_bind Hr as ? _. ok_bind Hr as a1 H1. apply (proj1 (Ok_inj _ _)) in Hr as <-.
  cbn [last_ordinal]. destruct (last_ordinal a =? ordinal) eqn:E.
  - apply (proj1 (Ok_inj _ _)) in H1 as <-. lia.
  - do 2 ok_bind H1 as ? _. by apply (proj1 (Ok_inj _ _)) in H1 as <-.
Qed.

Lemma update_usage_at_slot accounts slot db db' : update_account_usage accounts slot db = Ok db' ->
  forall a, a ∈ accounts -> at_slot slot db' a.
Proof.
  unfold update_account_usage. intros Hr. ok_bind Hr as cfg _. revert Hr. intros Hr.
  apply (mfold_each (fun _ => True) (fun a x => at_slot slot x a)) in Hr as [_ HR]; [done| | |done].
  - intros x a y _ _ Hs. ok_bind Hs as u _. ok_bind Hs as n Hn. ok_bind Hs as w Hw.
    apply (proj1 (Ok_inj _ _)) in Hs as <-. split; [done|]. eexists. cbn [usages set_usages].
    rewrite lookup_insert_eq. split; [done|]. by apply acc_add_ordinal in Hn, Hw.
  - intros x a b y _ Hs (u & Hu & H1 & H2). ok_bind Hs as u' Hu'. ok_bind Hs as n Hn. ok_bind Hs as w Hw.
    apply (proj1 (Ok_inj _ _)) in Hs as <-. unfold at_slot. cbn [usages set_usages].
    destruct (decide (a = b)) as [->|Hne].
    + eexists. rewrite lookup_insert_eq. split; [done|]. by apply acc_add_ordinal in Hn, Hw.
    + exists u. by rewrite lookup_insert_ne.
Qed.

Lemma init_inv e now u c c' : init_context e now u c = Ok c' -> is_u32 (max_net_usage_words (tc_trx c)) ->
  exists bn bc,
    get_block_net_limit (tc_res c) = Ok bn /\ get_block_cpu_limit (tc_res c) = Ok bc /\
    config (tc_res c') = config (tc_res c) /\ rstate (tc_res c') = rstate (tc_res c) /\
    (forall a, a ∈ accounts_to_bill e (tc_trx c) -> at_slot (te_block_slot e) (tc_res c') a) /\
    bill_to_accounts c' = accounts_to_bill e (tc_trx c) /\
    (net_limit (tc_net c') <= bn /\ net_limit (tc_net c') <= max_transaction_net_usage (te_cfg e) /\
     (0 < max_net_usage_words (tc_trx c) -> net_limit (tc_net c') <= max_net_usage_words (tc_trx c) * 8)) /\
    (objective_duration_limit (tc_cpu c') <= i64 bc /\
     objective_duration_limit (tc_cpu c') <= max_transaction_cpu_usage (te_cfg e) /\
     (0 < max_cpu_usage_ms (tc_trx c) -> objective_duration_limit (tc_cpu c') <= max_cpu_usage_ms (tc_trx c) * 1000)).
Proof.
  unfold init_context. intros Hr Hw. ok_bind Hr as [] _. ok_bind Hr as bn Hbn. ok_bind Hr as bc Hbc. exists bn, bc.
  destruct (initial_net_limit _ _ bn) as [l due] eqn:El. destruct (initial_cpu_limit _ _ bc) as [obj code] eqn:Eo.
  ok_bind Hr as [] _. ok_bind Hr as res Hres. ok_bind Hr as b Hb.
  destruct (if Z.min l _ <? l then _ else _) as [eager due'].
  destruct (if account_cpu_limit b + te_leeway e <=? obj then _ else _) as [d code'].
  destruct (if explicit_billed_cpu_time e || _ then _ else _) as [d' dcode].
  ok_bind Hr as n Hn. ok_bind Hr as [] _. apply (proj1 (Ok_inj _ _)) in Hr as <-.
  assert (net_limit n = l) as Hnl.
  { destruct (u >? 0); [|by apply (proj1 (Ok_inj _ _)) in Hn as <-].
    unfold add_net_usage in Hn. ok_bind Hn as [] _. by apply (proj1 (Ok_inj _ _)) in Hn as <-. }
  cbn [tc_res tc_net tc_cpu bill_to_accounts objective_duration_limit]. rewrite Hnl.
  pose proof (update_usage_at_slot _ _ _ _ Hres). apply update_usage_books in Hres as (Hc & Hst & _). split_and!; try done.
  - by eapply initial_net_limit_spec in El as (? & ? & ?).
  - by eapply initial_net_limit_spec in El as (? & ? & ?).
  - by eapply initial_net_limit_spec in El as (? & ? & ?).
  - by eapply initial_cpu_limit_spec in Eo as (? & ? & ?).
  - by eapply initial_cpu_limit_spec in Eo as (? & ? & ?).
  - by eapply initial_cpu_limit_spec in Eo as (? & ? & ?).
Qed.

Lemma round_up_8 n : is_u64 n ->
  let r := u64 (u64 (n + 7) / 8 * 8) in (8 | r) /\ (n + 7 <= UINT64_MAX -> n <= r).
Proof.
  intros Hn r. subst r. pose proof (u64_range (n + 7)) as Hr. unfold is_u64, UINT64_MAX in *.
  pose proof (Z.div_mod (u64 (n + 7)) 8). pose proof (Z.mod_pos_bound (u64 (n + 7)) 8).
  rewrite (u64_small (_ / 8 * 8)) by (unfold is_u64; lia). split; [by eexists|].
  intros Hle. rewrite (u64_small (n + 7)) in * by (unfold is_u64; lia). lia.
Qed.

Lemma billing_limits e now0 now u c0 c1 c2 c3 :
  skip_trx_checks e = false -> is_u32 (max_net_usage_words (tc_trx c0)) -> is_u64 (ts_net_usage (tc_net c2)) ->
  init_context e now0 u c0 = Ok c1 -> kept c1 c2 -> settle e now c2 = Ok c3 ->
  let net := ts_net_usage (tc_net c3) in
  let cpu := billed_cpu_time_us (tc_cpu c3) in
  ((8 | net) /\ (ts_net_usage (tc_net c2) + 7 <= UINT64_MAX -> ts_net_usage (tc_net c2) <= net) /\
   (exists block, get_block_net_limit (tc_res c0) = Ok block /\ net <= block) /\
   net <= max_transaction_net_usage (te_cfg e) /\
   (0 < max_net_usage_words (tc_trx c0) -> net <= max_net_usage_words (tc_trx c0) * 8)) /\
  (min_transaction_cpu_usage (te_cfg e) <= cpu /\
   (exists block, get_block_cpu_limit (tc_res c0) = Ok block /\ cpu <= i64 block) /\
   cpu <= max_transaction_cpu_usage (te_cfg e) /\
   (0 < max_cpu_usage_ms (tc_trx c0) -> cpu <= max_cpu_usage_ms (tc_trx c0) * 1000)) /\
  (forall a, a ∈ accounts_to_bill e (tc_trx c0) -> exists anet gn acpu gc,
     get_account_net_limit (tc_res c2) a (account_greylist_limit e false a) = Ok (anet, gn) /\
     get_account_cpu_limit (tc_res c2) a (account_greylist_limit e false a) = Ok (acpu, gc) /\
     (0 <= anet -> net <= anet) /\ (0 <= acpu -> cpu <= acpu)).
Proof.
  intros Hskip Hw Hu Hinit [Kn Kc Ka _ _ _] Hset net cpu.
  destruct (init_inv e now0 u c0 c1 Hinit Hw) as (bn & bc & Hbn & Hbc & _ & _ & _ & Hacc & (N1 & N2 & N3) & (C1 & C2 & C3)).
  destruct (settle_inv e now c2 c3 Hset Hskip) as (b & Hb & _ & _ & Hnet & L1 & L2 & L3 & L4 & L5).
  apply bandwidth_spec in Hb as ([B1 B1'] & [B2 B2'] & Hpays). fold net in Hnet, L1, L2. fold cpu in L3, L4, L5.
  rewrite u64_small in L2 by (unfold large_number_no_overflow in *; change (INT64_MAX / 2) with 4611686018427387903 in *; mach_lia).
  rewrite Kn in L1. rewrite Kc in L3. destruct (round_up_8 _ Hu) as [R1 R2]. rewrite <- Hnet in R1, R2.
  split; [|split].
  - split_and!; [done|done|exists bn; split; [done|lia]|lia|intros Hp; specialize (N3 Hp); lia].
  - split_and!; [done|exists bc; split; [done|lia]|lia|intros Hp; specialize (C3 Hp); lia].
  - intros a Ha. rewrite <- Hacc, <- Ka in Ha. destruct (Hpays a Ha) as (anet & gn & acpu & gc & Hn & Hc & P1 & P2).
    exists anet, gn, acpu, gc. split_and!; [done|done| |]; intros Hp.
    + destruct (P1 Hp). lia.
    + destruct (P2 Hp). lia.
Qed.

(** A transaction that reaches the end of [finalize] stays within every limit:
    its net usage, a multiple of 8 not below what was counted, is at most what
    was left in the block, the maximum for a transaction, what its header
    allows and what every billed account can pay; its billed time is at least
    the minimum and at most what was left in the block, the maximum, what its
    header allows and what every billed account can pay. *)
Theorem billing_respects_limits e now0 now u c0 c1 c2 c3 :
  skip_trx_checks e = false -> is_u32 (max_net_usage_words (tc_trx c0)) -> is_u64 (ts_net_usage (tc_net c2)) ->
  init_context e now0 u c0 = Ok c1 -> kept c1 c2 -> settle e now c2 = Ok c3 ->
  let net := ts_net_usage (tc_net c3) in
  let cpu := billed_cpu_time_us (tc_cpu c3) in
  ((8 | net) /\ (ts_net_usage (tc_net c2) + 7 <= UINT64_MAX -> ts_net_usage (tc_net c2) <= net) /\
   (exists block, get_block_net_limit (tc_res c0) = Ok block /\ net <= block) /\
   net <= max_transaction_net_usage (te_cfg e) /\
   (0 < max_net_usage_words (tc_trx c0) -> net <= max_net_usage_words (tc_trx c0) * 8)) /\
  (min_transaction_cpu_usage (te_cfg e) <= cpu /\
   (exists block, get_block_cpu_limit (tc_res c0) = Ok block /\ cpu <= i64 block) /\
   cpu <= max_transaction_cpu_usage (te_cfg e) /\
   (0 < max_cpu_usage_ms (tc_trx c0) -> cpu <= max_cpu_usage_ms (tc_trx c0) * 1000)) /\
  (forall a, a ∈ accounts_to_bill e (tc_trx c0) -> exists anet gn acpu gc,
     get_account_net_limit (tc_res c2) a (account_greylist_limit e false a) = Ok (anet, gn) /\
     get_account_cpu_limit (tc_res c2) a (account_greylist_limit e false a) = Ok (acpu, gc) /\
     (0 <= anet -> net <= anet) /\ (0 <= acpu -> cpu <= acpu)).
Proof. apply billing_limits. Qed.

(** ** Charging what was checked *)

(** The account can be charged: its averages are at the slot and far from
    their numerical limits, and its limits cover the demand. *)
Definition chargeable (cfg : resource_limits_config_object) (slot cpu net : Z) db (a : Z) : Prop :=
  exists u acpu anet gl, get_usage db a = Ok u /\
    acc_current slot (cpu_usage u) cpu (account_cpu_usage_average_window cfg) /\
    acc_current slot (net_usage u) net (account_net_usage_average_window cfg) /\
    get_account_cpu_limit db a gl = Ok (acpu, false) /\ get_account_net_limit db a gl = Ok (anet, false) /\
    demand_met acpu cpu /\ demand_met anet net.

Lemma chargeable_ext cfg slot cpu net db db' a : limits db' = limits db -> config db' = config db ->
  rstate db' = rstate db -> usages db' !! a = usages db !! a -> chargeable cfg slot cpu net db a ->
  chargeable cfg slot cpu net db' a.
Proof.
  unfold chargeable, get_account_cpu_limit, get_account_net_limit, get_account_cpu_limit_ex,
    get_account_net_limit_ex, get_account_limits, get_limits, get_usage, get_config, get_state.
  by intros -> -> -> ->.
Qed.

Lemma charge_all_total cfg s cpu net slot l db : get_config db = Ok cfg -> get_state db = Ok s -> is_u32 slot ->
  0 < account_cpu_usage_average_window cfg <= Precision -> 0 < account_net_usage_average_window cfg <= Precision ->
  0 <= total_cpu_weight s -> 0 <= total_net_weight s -> NoDup l ->
  (forall a, a ∈ l -> chargeable cfg slot cpu net db a) ->
  exists db', mfold (charge_account cfg s cpu net slot) l db = Ok db'.
Proof.
  intros Hcfg Hs Ht Wc Wn Tc Tn. revert db Hcfg Hs.
  induction l as [|a l IH]; intros db Hcfg Hs Hnd Hl; [by eexists|].
  apply NoDup_cons in Hnd as [Hna Hnd]. cbn [mfold].
  destruct (Hl a ltac:(by left)) as (u & acpu & anet & gl & Hu & Ac & An & Hc & Hn & Dc & Dn).
  destruct (reported_limit_suffices db a cfg s u cpu net slot acpu anet gl) as [db1 E1]; try done.
  rewrite E1. cbn [mbind result_bind].
  destruct (charge_account_books _ _ _ _ _ _ _ _ E1) as (B1 & B2 & B3).
  destruct (charge_account_spec _ _ _ _ _ _ _ _ E1) as (u1 & B4 & _).
  apply IH; [unfold get_config in *; congruence|unfold get_state in *; congruence|done|].
  intros x Hx. eapply chargeable_ext; [done..| |apply Hl; by right].
  rewrite B4, lookup_insert_ne; [done|]. intros ->. done.
Qed.

(** *** The billed accounts are distinct *)

Lemma account_insert_elem x a (l : list Z) : x ∈ account_insert a l <-> x = a \/ x ∈ l.
Proof.
  induction l as [|b l IH]; simpl; [set_solver|]. destruct (a <? b) eqn:E; [set_solver|].
  destruct (a =? b) eqn:E2; [|set_solver]. apply Z.eqb_eq in E2 as ->. set_solver.
Qed.

Lemma account_insert_sorted a (l : list Z) : StronglySorted Z.lt l -> StronglySorted Z.lt (account_insert a l).
Proof.
  induction 1 as [|b l Hl IH Hb]; simpl; [repeat constructor|]. rewrite Forall_forall in Hb.
  destruct (a <? b) eqn:E.
  - repeat constructor; [done|by apply Forall_forall|lia|]. apply Forall_forall. intros x Hx. specialize (Hb x Hx). lia.
  - destruct (a =? b) eqn:E2; [constructor; [done|by apply Forall_forall]|]. constructor; [done|].
    apply Forall_forall. intros x [->|Hx]%account_insert_elem; [lia|by apply Hb].
Qed.

Lemma strictly_sorted_NoDup (l : list Z) : StronglySorted Z.lt l -> NoDup l.
Proof.
  induction 1 as [|b l Hl IH Hb]; constructor; [|done]. rewrite Forall_forall in Hb.
  intros Hin. specialize (Hb b Hin). lia.
Qed.

Lemma accounts_to_bill_NoDup e t : NoDup (accounts_to_bill e t).
Proof.
  apply strictly_sorted_NoDup. unfold accounts_to_bill.
  destruct (only_bill_first_authorizer_active e); [repeat constructor|].
  assert (forall (l : list permission_level) acc, StronglySorted Z.lt acc ->
    StronglySorted Z.lt (foldl (fun l (a : permission_level) => account_insert a.1 l) acc l)) as Hf.
  { induction l as [|x l IH]; intros acc Hacc; [done|]. simpl. apply IH. by apply account_insert_sorted. }
  apply Hf. constructor.
Qed.

(** The demand that was checked is met by what is reported. *)
Lemma demand_of_limit reported units : reported = -1 \/ 0 <= reported -> (0 <= reported -> units <= reported) ->
  0 < units -> demand_met reported units.
Proof. unfold demand_met. lia. Qed.

Lemma limit_ex_available params_max vl w v weight total gl arl g :
  limit_ex params_max vl w v weight total gl = Ok (arl, g) -> available arl = -1 \/ 0 <= available arl.
Proof.
  unfold limit_ex. intros Hr. destruct (_ || _); [apply (proj1 (Ok_inj _ _)) in Hr; injection Hr as <- _; by left|].
  right. ok_bind Hr as x Hx. do 2 ok_bind Hr as ? _. apply (proj1 (Ok_inj _ _)) in Hr. injection Hr as <- _. simpl.
  destruct (_ <=? _); [by apply (proj1 (Ok_inj _ _)) in Hx as <-|]. apply (proj1 (downgrade_cast_ok _ _ _)) in Hx. lia.
Qed.

Lemma account_net_limit_available db a gl net g : get_account_net_limit db a gl = Ok (net, g) -> net = -1 \/ 0 <= net.
Proof.
  unfold get_account_net_limit, get_account_net_limit_ex. intros Hr. ok_bind Hr as [arl g'] Hx.
  apply (proj1 (Ok_inj _ _)) in Hr. injection Hr as <- _. do 3 ok_bind Hx as ? _. ok_bind Hx as [[? ?] ?] _.
  by eapply limit_ex_available.
Qed.
Lemma account_cpu_limit_available db a gl cpu g : get_account_cpu_limit db a gl = Ok (cpu, g) -> cpu = -1 \/ 0 <= cpu.
Proof.
  unfold get_account_cpu_limit, get_account_cpu_limit_ex. intros Hr. ok_bind Hr as [arl g'] Hx.
  apply (proj1 (Ok_inj _ _)) in Hr. injection Hr as <- _. do 3 ok_bind Hx as ? _. ok_bind Hx as [[? ?] ?] _.
  by eapply limit_ex_available.
Qed.

(** No limit of a billed account is the greylist's. *)
Definition not_greylisted e db (a : Z) : Prop := forall l g,
  get_account_net_limit db a (account_greylist_limit e false a) = Ok (l, g) \/
  get_account_cpu_limit db a (account_greylist_limit e false a) = Ok (l, g) -> g = false.

(** The averages of the account are far from their numerical limits. *)
Definition acc_room (a : usage_accumulator) (units w : Z) : Prop :=
  acc_ok a /\ units <= max_raw_value /\ consumed a + units <= UINT64_MAX /\ value_ex a + contrib units w <= UINT64_MAX.

(** A sane manager: windows are positive, and the block's usage is within the
    block's limits. *)
Record manager_sane (cfg : resource_limits_config_object) (s : resource_limits_state_object) : Prop := {
  ms_cpu_window : 0 < account_cpu_usage_average_window cfg <= Precision;
  ms_net_window : 0 < account_net_usage_average_window cfg <= Precision;
  ms_cpu_weight : 0 <= total_cpu_weight s; ms_net_weight : 0 <= total_net_weight s;
  ms_cpu : 0 <= pending_cpu_usage s <= max (cpu_limit_parameters cfg);
  ms_net : 0 <= pending_net_usage s <= max (net_limit_parameters cfg);
  ms_cpu_max : max (cpu_limit_parameters cfg) <= INT64_MAX;
  ms_net_max : max (net_limit_parameters cfg) <= UINT64_MAX }.

Lemma settled_chargeable e now c2 c3 cfg b a :
  max_bandwidth_billed_accounts_can_pay e false (bill_to_accounts c2) (tc_res c2) = Ok b ->
  a ∈ bill_to_accounts c2 -> at_slot (te_block_slot e) (tc_res c2) a -> not_greylisted e (tc_res c2) a ->
  settle e now c2 = Ok c3 -> skip_trx_checks e = false ->
  let net := ts_net_usage (tc_net c3) in
  let cpu := billed_cpu_time_us (tc_cpu c3) in
  (forall u, usages (tc_res c2) !! a = Some u ->
     acc_room (cpu_usage u) cpu (account_cpu_usage_average_window cfg) /\
     acc_room (net_usage u) net (account_net_usage_average_window cfg)) ->
  0 < net -> 0 < cpu -> chargeable cfg (te_block_slot e) cpu net (tc_res c2) a.
Proof.
  intros Hb Ha (u & Hu & Un & Uc) Hg Hset Hskip net cpu Hroom Hn Hc.
  destruct (settle_inv e now c2 c3 Hset Hskip) as (b' & Hb' & _ & _ & _ & _ & L2 & _ & L4 & _).
  rewrite Hb in Hb'. apply (proj1 (Ok_inj _ _)) in Hb' as <-. fold net in L2. fold cpu in L4.
  apply bandwidth_spec in Hb as ([B1 B1'] & [B2 B2'] & Hpays).
  rewrite u64_small in L2 by (unfold large_number_no_overflow in *; change (INT64_MAX / 2) with 4611686018427387903 in *; mach_lia).
  destruct (Hpays a Ha) as (anet & gn & acpu & gc & Gn & Gc & P1 & P2).
  assert (gn = false) as -> by (eapply Hg; by left). assert (gc = false) as -> by (eapply Hg; by right).
  destruct (Hroom u Hu) as [(R1 & R2 & R3 & R4) (S1 & S2 & S3 & S4)].
  exists u, acpu, anet, (account_greylist_limit e false a). unfold get_usage. rewrite Hu. cbn [of_option].
  split_and!; [done| | |done|done| |].
  - unfold acc_current. split_and!; try done; lia.
  - unfold acc_current. split_and!; try done; lia.
  - apply demand_of_limit; [by eapply account_cpu_limit_available| |done]. intros Hp. destruct (P2 Hp). lia.
  - apply demand_of_limit; [by eapply account_net_limit_available| |done]. intros Hp. destruct (P1 Hp). lia.
Qed.

(** The last statement of [finalize] never fails, as its comment says: a
    transaction that was settled and used bandwidth of both kinds can be
    charged to the accounts it bills and fits the block. *)
Theorem charge_never_fails e now0 now u c0 c1 c2 c3 cfg s :
  skip_trx_checks e = false -> is_u32 (max_net_usage_words (tc_trx c0)) -> is_u32 (te_block_slot e) ->
  init_context e now0 u c0 = Ok c1 -> kept c1 c2 -> settle e now c2 = Ok c3 ->
  get_config (tc_res c0) = Ok cfg -> get_state (tc_res c0) = Ok s -> manager_sane cfg s ->
  let net := ts_net_usage (tc_net c3) in
  let cpu := billed_cpu_time_us (tc_cpu c3) in
  0 < net -> 0 < min_transaction_cpu_usage (te_cfg e) ->
  (forall a, a ∈ accounts_to_bill e (tc_trx c0) -> not_greylisted e (tc_res c2) a) ->
  (forall a u, a ∈ accounts_to_bill e (tc_trx c0) -> usages (tc_res c2) !! a = Some u ->
     acc_room (cpu_usage u) cpu (account_cpu_usage_average_window cfg) /\
     acc_room (net_usage u) net (account_net_usage_average_window cfg)) ->
  exists db, charge e c3 = Ok db.
Proof.
  intros Hskip Hw Hslot Hinit [Kn Kc Ka Kcfg Kst Ku] Hset Hcfg Hs [W1 W2 T1 T2 P1 P2 M1 M2] net cpu Hnet Hmin Hg Hroom.
  destruct (init_inv e now0 u c0 c1 Hinit Hw) as (bn & bc & Hbn & Hbc & Icfg & Ist & Hat & Hacc & (N1 & _) & (C1 & _)).
  destruct (settle_inv e now c2 c3 Hset Hskip) as (b & Hb & A1 & A2 & _ & L1 & _ & L3 & _ & L5).
  fold net in L1. fold cpu in L3, L5. unfold get_block_net_limit in Hbn. unfold get_block_cpu_limit in Hbc.
  rewrite Hs in Hbn, Hbc. cbn [mbind result_bind] in Hbn, Hbc. rewrite Hcfg in Hbn, Hbc. cbn [mbind result_bind] in Hbn, Hbc.
  apply (proj1 (Ok_inj _ _)) in Hbn as <-. apply (proj1 (Ok_inj _ _)) in Hbc as <-.
  rewrite u64_small in N1 by mach_lia. rewrite u64_small in C1 by mach_lia. rewrite i64_small in C1 by mach_lia.
  assert (Hcfg2 : get_config (tc_res c2) = Ok cfg) by (unfold get_config in *; congruence).
  assert (Hs2 : get_state (tc_res c2) = Ok s) by (unfold get_state in *; congruence).
  unfold charge. fold net cpu. rewrite A1, A2, Ka, Hacc. rewrite u64_small by mach_lia.
  unfold add_transaction_usage. rewrite Hs2. cbn [mbind result_bind]. rewrite Hcfg2. cbn [mbind result_bind].
  destruct (charge_all_total cfg s cpu net (te_block_slot e) (accounts_to_bill e (tc_trx c0)) (tc_res c2))
    as [db E]; try done; [apply accounts_to_bill_NoDup| |].
  { intros a Ha. destruct (Hat a Ha) as (u1 & Hu1 & O1 & O2). destruct (Ku a u1 Hu1) as (u2 & Hu2 & Q1 & Q2).
    eapply settled_chargeable; try done; [by rewrite Ka, Hacc| |by apply Hg| |fold cpu; lia].
    - exists u2. split; [done|]. by rewrite Q1, Q2.
    - intros v Hv. by apply (Hroom a). }
  rewrite E. cbn [mbind result_bind]. unfold add_pending. cbn [pending_cpu_usage pending_net_usage].
  rewrite !u64_small by mach_lia.
  replace (pending_cpu_usage s + cpu <=? _) with true by lia. cbn [check mbind result_bind].
  replace (pending_net_usage s + net <=? _) with true by lia. by eexists.
Qed.
End Billing.
