(* ===== verification/Transactions.v ===== *)
(** * Transaction headers and extensions ([transaction.hpp], [transaction.cpp])

    The reference to a recent block that ties a transaction to a fork, and the
    extension that ties a deferred transaction to what generated it. *)

From stdpp Require Import base numbers gmap strings countable list.
From Stdlib Require Import ZArith Lia.
From S2P Require Import Prelude Boost Merkle BlockHeader Hex Accumulator ResourceLimits ChainConfig Authority Authorization TransactionContext.
Local Open Scope Z_scope.

Section Transactions.
Context {key : Type} `{PublicKey key}.
#[local] Abbreviation transaction := (transaction (key := key)).
Implicit Type t : transaction.

(** ** The reference block *)

Definition with_reference t (num prefix : Z) : transaction :=
  mk_transaction (trx_expiration t) num prefix (max_net_usage_words t) (max_cpu_usage_ms t) (delay_sec t)
    (trx_context_free_actions t) (trx_actions t) (transaction_extensions t).

(** [set_reference_block]: both fields are narrower than what is assigned. *)
Definition set_reference_block (reference_block : digest) t : transaction :=
  with_reference t (u16 (endian_reverse_u32 (u32 (hash0 reference_block)))) (u32 (hash1 reference_block)).

Definition verify_reference_block (reference_block : digest) t : bool :=
  (ref_block_num t =? u16 (endian_reverse_u32 (u32 (hash0 reference_block)))) &&
  (ref_block_prefix t =? u32 (hash1 reference_block)).

(** [transaction_header::validate] *)
Definition header_validate t : result unit :=
  check (max_net_usage_words t <? UINT32_MAX / 8)
    "declared max_net_usage_words overflows when expanded to max net usage".

Definition get_ref_blocknum (head_blocknum : Z) t : Z :=
  u32 (u32 (head_blocknum / 65535 * 65535) + head_blocknum mod 65535).

(** ** The generation context of deferred transactions *)

(** [deferred_transaction_generation_context]; an id is a number of 256 bits. *)
Record generation_context := mk_generation { sender_trx_id : Z; dg_sender_id : Z; dg_sender : Z }.

Definition pack_generation (g : generation_context) : list Z :=
  bytes_of_word 32 (sender_trx_id g) ++ bytes_of_word 16 (dg_sender_id g) ++ bytes_of_word 8 (dg_sender g).

(** [fc::raw::unpack] with [reflector_init]; what follows is not read. *)
Definition unpack_generation (data : list Z) : result generation_context :=
  check (Nat.leb 56 (length data)) "unpack" ;;
  let g := mk_generation (word_of_bytes (take 32 data)) (word_of_bytes (take 16 (drop 32 data)))
             (word_of_bytes (take 8 (drop 48 data))) in
  check (negb (dg_sender g =? 0))
    "Deferred transaction generation context extension must have a non-empty sender account" ;;
  Ok g.

(** The loop of [validate_and_extract_extensions]; the one supported
    extension, id 0, is unique. *)
Fixpoint extract_extensions (first : bool) (id_type_lower_bound : Z) (exts : list (Z * list Z))
    : result (list generation_context) :=
  match exts with
  | [] => Ok []
  | (id, data) :: exts =>
    check (id >=? id_type_lower_bound) "Transaction extensions are not in the correct order" ;;
    g ← (if id =? 0 then unpack_generation data else Err "Transaction extension is not supported");
    check (first || (id >? id_type_lower_bound)) "Transaction extension is not allowed to repeat" ;;
    rest ← extract_extensions false id exts;
    Ok (g :: rest)
  end.
Definition validate_and_extract_extensions t : result (list generation_context) :=
  extract_extensions true 0 (transaction_extensions t).

(** [transaction_id_to_sender_id]: the upper two words of the id. *)
Definition transaction_id_to_sender_id (id : Z) : Z := id / 2 ^ 128.

(** ** Properties *)

Lemma reference_roundtrip t d : verify_reference_block d (set_reference_block d t) = true.
Proof. unfold verify_reference_block. cbn. by rewrite !Z.eqb_refl. Qed.

Definition generation_range (g : generation_context) : Prop :=
  0 <= sender_trx_id g < 2 ^ 256 /\ is_u128 (dg_sender_id g) /\ is_u64 (dg_sender g).

(** A generation context survives packing, and the extension that carries it
    is the only one that is extracted. *)
Theorem generation_roundtrip t (g : generation_context) :
  generation_range g -> dg_sender g <> 0 -> transaction_extensions t = [(0, pack_generation g)] ->
  validate_and_extract_extensions t = Ok [g].
Proof.
  intros (R1 & R2 & R3) Hs Ht. unfold validate_and_extract_extensions. rewrite Ht. cbn [extract_extensions].
  change (0 >=? 0) with true. change (0 =? 0) with true. cbn [check mbind result_bind].
  unfold unpack_generation, pack_generation.
  assert (L : forall n z, length (bytes_of_word n z) = n) by apply bytes_of_word_length.
  rewrite !length_app, !L. change (Nat.leb 56 (32 + (16 + 8))) with true. cbn [check mbind result_bind].
  rewrite take_app_length' by (symmetry; apply L). rewrite drop_app_length' by (symmetry; apply L). rewrite take_app_length' by (symmetry; apply L).
  rewrite (app_assoc (bytes_of_word 32 _)), drop_app_length' by (rewrite length_app, !L; reflexivity).
  rewrite (firstn_all2 (n := 8)) by (by rewrite L).
  rewrite !word_bytes; [|unfold is_u64 in *; lia|unfold is_u128 in *; lia|lia].
  cbn [dg_sender]. replace (dg_sender g =? 0) with false by lia. by destruct g.
Qed.

(** At most one generation context can be extracted. *)
Lemma extract_at_most_one t l : validate_and_extract_extensions t = Ok l -> (length l <= 1)%nat.
Proof.
  unfold validate_and_extract_extensions. destruct (transaction_extensions t) as [|[id d] [|[id' d'] exts]].
  - cbn. intros E. apply (proj1 (Ok_inj _ _)) in E as <-. cbn. lia.
  - cbn [extract_extensions]. intros E. ok_bind E as [] _. ok_bind E as g _. ok_bind E as [] _. ok_bind E as r Hr.
    apply (proj1 (Ok_inj _ _)) in Hr as <-. apply (proj1 (Ok_inj _ _)) in E as <-. simpl. lia.
  - cbn [extract_extensions]. intros E. exfalso. ok_bind E as [] _. ok_bind E as g Hg. ok_bind E as [] _.
    destruct (id =? 0) eqn:E0; [|done]. ok_bind E as r Hr. ok_bind Hr as [] _. ok_bind Hr as g' Hg'.
    destruct (id' =? 0) eqn:E1; [|done]. ok_bind Hr as [] Hc. apply (proj1 (check_ok _ _ _)) in Hc. cbn in Hc. lia.
Qed.

(** The block number that is said to be that of [ref_block_num] does not
    depend on it: it is always the head block number. *)
Theorem ref_blocknum_is_head head t : is_u32 head -> get_ref_blocknum head t = head.
Proof.
  intros Hh. unfold get_ref_blocknum. pose proof (Z.div_mod head 65535 ltac:(lia)) as E.
  pose proof (Z.mod_pos_bound head 65535 ltac:(lia)). assert (0 <= head / 65535) by (apply Z.div_pos; mach_lia).
  rewrite (u32_small (_ * _)) by mach_lia. rewrite u32_small by mach_lia. lia.
Qed.
End Transactions.
