(* ===== verification/Execution.v ===== *)
(** * Execution of actions: state and host calls ([apply_context.hpp],
    [apply_context.cpp], [wasm_interface.cpp], [trace.hpp])

    The state of the transaction that is executed, the context of the action
    that is applied, and the calls with which a contract notifies accounts,
    sends actions and asks about authorizations.  Tables of contracts are
    the type [W], whose operations are modelled in [ApplyContext]. *)

From stdpp Require Import base numbers gmap strings countable list.
From Stdlib Require Import ZArith Lia.
From S2P Require Import Prelude Boost Names Merkle Accumulator ResourceLimits ProtocolFeatures ChainConfig Authority Authorization.
From S2P Require Import EosioContract EosioContractSpec ActorList TransactionContext Transactions.
Local Open Scope Z_scope.

Section Execution.
Context {boost : Boost} {key : Type} `{PublicKey key} {W : Type}.
#[local] Abbreviation chain_action := (chain_action (key := key)).
#[local] Abbreviation transaction := (transaction (key := key)).
#[local] Abbreviation chain_db := (chain_db (key := key)).

(** ** Data *)

Record action_receipt := mk_receipt {
  r_receiver : Z; r_act_digest : Z; r_global_sequence : Z; r_recv_sequence : Z;
  r_auth_sequence : gmap Z Z; r_code_sequence : Z; r_abi_sequence : Z }.

(** [action_trace], without times, console and exception.  Ordinals count from
    1; a [uint32_t] is not exhausted by what fits into memory. *)
Record action_trace := mk_trace {
  at_ordinal : nat; at_creator : nat; at_ancestor : nat; at_receipt : option action_receipt;
  at_receiver : Z; at_act : chain_action; at_context_free : bool; at_ram_deltas : gmap Z Z }.

(** [generated_transaction_object]; times are in microseconds. *)
Record generated_transaction_object := mk_generated {
  g_trx_id : Z; g_sender : Z; g_sender_id : Z; g_payer : Z;
  g_delay_until : Z; g_expiration : Z; g_published : Z; g_packed : transaction }.

(** What execution changes: the database, and the transaction's trace, net
    usage and accounts to check. *)
Record xstate := mk_x {
  x_db : chain_db; x_generated : list generated_transaction_object; x_corrections : list (Z * Z);
  x_global : Z; x_tables : W; x_traces : list action_trace; x_executed : list action_receipt;
  x_net : net_state; x_validate_ram : list Z }.

(** [apply_context] *)
Record actx := mk_actx {
  first_receiver_action_ordinal : nat; action_ordinal : nat; a_receiver : Z; a_act : chain_action;
  a_context_free : bool; a_privileged : bool; _notified : list (Z * nat);
  _inline_actions : list nat; _cfa_inline_actions : list nat; a_ram_deltas : gmap Z Z }.

(** ** Contracts *)

(** The code of a contract, as the host sees it: a tree of host calls.  What
    it computes in between, and what it does to its tables, is in the
    continuations.  Running out of time is an exception.  The privileged calls
    that change the configuration of the chain, the proposed schedule and the
    preactivated features ([set_blockchain_parameters_packed],
    [set_proposed_producers], [preactivate_feature]) are not among the calls:
    what they change is not part of the state of a transaction here, but of
    ChainConfig, ProducerSchedule and FeatureActivation, so that a contract of
    this model leaves the configuration, the schedule and the features as they
    are. *)
Inductive program :=
| PReturn
| PThrow (msg : string)
| PTables (f : W -> W) (k : W -> program)
| PRequireRecipient (recipient : Z) (k : program)
| PRequireAuth (account : Z) (k : program)
| PRequireAuth2 (account permission : Z) (k : program)
| PHasAuth (account : Z) (k : bool -> program)
| PIsAccount (account : Z) (k : bool -> program)
| PGetSender (k : Z -> program)
| PSendInline (size : Z) (a : chain_action) (k : program)
| PSendContextFreeInline (size : Z) (a : chain_action) (k : program)
| PSendDeferred (sender_id payer : Z) (t : transaction) (replace_existing : bool) (k : program)
| PCancelDeferred (sender_id : Z) (k : bool -> program)
| PUpdateDbUsage (payer delta : Z) (k : program)
| PSetResourceLimits (account ram_bytes net_weight cpu_weight : Z) (k : program)
| PSetPrivileged (account : Z) (is_priv : bool) (k : program).

(** What execution reads of the controller and of the transaction, and the
    code it relies on: the contracts, the decoding of native actions, hashes
    and the size of packed transactions. *)
Record xenv := mk_xenv {
  xe_trx : trx_env; is_builtin_activated : builtin_protocol_feature_t -> bool;
  enforce_whiteblacklist : bool; skip_auth_check : bool; xe_lists : list_config;
  ram_billing_in_notify_allowed : bool; all_subjective_mitigations_disabled : bool;
  xe_published : Z; xe_id : Z; xe_head_block_id : digest;
  xe_native_context : list permission_level -> context (key := key);
  contract : Z -> Z -> Z -> Z -> chain_action -> bool -> program;
  unpack_native : chain_action -> result (native_action (key := key));
  action_digest : chain_action -> Z; trx_hash : transaction -> Z; trx_pack_size : transaction -> Z }.

Definition x_config (e : xenv) : chain_config := te_cfg (xe_trx e).
Definition producing (e : xenv) : bool := is_producing_block (xe_trx e).

(** ** Updates *)

Definition set_db (x : xstate) (db : chain_db) : xstate :=
  mk_x db (x_generated x) (x_corrections x) (x_global x) (x_tables x) (x_traces x) (x_executed x) (x_net x)
    (x_validate_ram x).
Definition set_res (x : xstate) (r : rdb) : xstate :=
  set_db x (mk_chain_db (accts (x_db x)) (metas (x_db x)) (codes (x_db x)) (auth_db (x_db x)) r).
Definition set_generated (x : xstate) (l : list generated_transaction_object) : xstate :=
  mk_x (x_db x) l (x_corrections x) (x_global x) (x_tables x) (x_traces x) (x_executed x) (x_net x) (x_validate_ram x).
Definition set_corrections (x : xstate) (l : list (Z * Z)) : xstate :=
  mk_x (x_db x) (x_generated x) l (x_global x) (x_tables x) (x_traces x) (x_executed x) (x_net x) (x_validate_ram x).
Definition set_tables (x : xstate) (w : W) : xstate :=
  mk_x (x_db x) (x_generated x) (x_corrections x) (x_global x) w (x_traces x) (x_executed x) (x_net x) (x_validate_ram x).
Definition set_traces (x : xstate) (l : list action_trace) : xstate :=
  mk_x (x_db x) (x_generated x) (x_corrections x) (x_global x) (x_tables x) l (x_executed x) (x_net x) (x_validate_ram x).
Definition set_net (x : xstate) (n : net_state) : xstate :=
  mk_x (x_db x) (x_generated x) (x_corrections x) (x_global x) (x_tables x) (x_traces x) (x_executed x) n
    (x_validate_ram x).
Definition add_validate_ram (a : Z) (x : xstate) : xstate :=
  mk_x (x_db x) (x_generated x) (x_corrections x) (x_global x) (x_tables x) (x_traces x) (x_executed x) (x_net x)
    (account_insert a (x_validate_ram x)).

Definition set_act_deltas (c : actx) (d : gmap Z Z) : actx :=
  mk_actx (first_receiver_action_ordinal c) (action_ordinal c) (a_receiver c) (a_act c) (a_context_free c)
    (a_privileged c) (_notified c) (_inline_actions c) (_cfa_inline_actions c) d.
Definition set_privilege (c : actx) (p : bool) : actx :=
  mk_actx (first_receiver_action_ordinal c) (action_ordinal c) (a_receiver c) (a_act c) (a_context_free c)
    p (_notified c) (_inline_actions c) (_cfa_inline_actions c) (a_ram_deltas c).
Definition add_notified (c : actx) (r : Z) (o : nat) : actx :=
  mk_actx (first_receiver_action_ordinal c) (action_ordinal c) (a_receiver c) (a_act c) (a_context_free c)
    (a_privileged c) (_notified c ++ [(r, o)]) (_inline_actions c) (_cfa_inline_actions c) (a_ram_deltas c).
Definition add_inline (c : actx) (o : nat) : actx :=
  mk_actx (first_receiver_action_ordinal c) (action_ordinal c) (a_receiver c) (a_act c) (a_context_free c)
    (a_privileged c) (_notified c) (_inline_actions c ++ [o]) (_cfa_inline_actions c) (a_ram_deltas c).
Definition add_cfa_inline (c : actx) (o : nat) : actx :=
  mk_actx (first_receiver_action_ordinal c) (action_ordinal c) (a_receiver c) (a_act c) (a_context_free c)
    (a_privileged c) (_notified c) (_inline_actions c) (_cfa_inline_actions c ++ [o]) (a_ram_deltas c).
Definition set_notified_receiver (c : actx) (r : Z) (o : nat) : actx :=
  mk_actx (first_receiver_action_ordinal c) o r (a_act c) (a_context_free c)
    (a_privileged c) (_notified c) (_inline_actions c) (_cfa_inline_actions c) (a_ram_deltas c).

(** ** Traces ([transaction_context]) *)

Definition get_action_trace (x : xstate) (ordinal : nat) : result action_trace :=
  match ordinal with
  | O => Err "action_ordinal is outside allowed range"
  | S i => of_option (x_traces x !! i) "action_ordinal is outside allowed range"
  end.

(** [transaction_context::schedule_action]: the ordinal of the new trace. *)
Definition schedule_action (a : chain_action) (receiver : Z) (context_free : bool) (creator ancestor : nat)
    (x : xstate) : nat * xstate :=
  let o := S (length (x_traces x)) in
  (o, set_traces x (x_traces x ++ [mk_trace o creator ancestor None receiver a context_free ∅])).

(** [apply_context::schedule_action] with an action of its own. *)
Definition ctx_schedule (c : actx) (a : chain_action) (receiver : Z) (context_free : bool) (x : xstate)
    : nat * xstate :=
  schedule_action a receiver context_free (action_ordinal c) (first_receiver_action_ordinal c) x.

(** [apply_context::schedule_action] with the action of a trace. *)
Definition ctx_schedule_ordinal (c : actx) (ordinal : nat) (receiver : Z) (context_free : bool) (x : xstate)
    : result (nat * xstate) :=
  provided_action ← get_action_trace x ordinal;
  Ok (ctx_schedule c (at_act provided_action) receiver context_free x).

(** ** Authorizations and recipients *)

Definition has_authorization (c : actx) (account : Z) : bool :=
  existsb (fun auth : permission_level => auth.1 =? account) (act_authorization (a_act c)).
Definition require_authorization (c : actx) (account : Z) : result unit :=
  check (has_authorization c account) "missing authority".
Definition require_authorization2 (c : actx) (account permission : Z) : result unit :=
  check (existsb (fun auth : permission_level => (auth.1 =? account) && (auth.2 =? permission))
           (act_authorization (a_act c))) "missing authority".

Definition has_recipient (c : actx) (code : Z) : bool :=
  existsb (fun p : Z * nat => p.1 =? code) (_notified c).

Definition require_recipient (recipient : Z) (c : actx) (x : xstate) : result (actx * xstate) :=
  if has_recipient c recipient then Ok (c, x)
  else
    '(o, x) ← ctx_schedule_ordinal c (action_ordinal c) recipient false x;
    Ok (add_notified c recipient o, x).

Definition is_account (x : xstate) (account : Z) : bool := bool_decide (is_Some (accts (x_db x) !! account)).

Definition get_sender (c : actx) (x : xstate) : result Z :=
  trace ← get_action_trace x (action_ordinal c);
  if Nat.ltb 0 (at_creator trace) then
    creator_trace ← get_action_trace x (at_creator trace);
    Ok (at_receiver creator_trace)
  else Ok 0.

(** ** RAM *)

(** [_account_ram_deltas.emplace], or the addition to the entry there is. *)
Definition note_ram_delta (account ram_delta : Z) (c : actx) : actx :=
  set_act_deltas c
    (<[account := match a_ram_deltas c !! account with
                  | None => ram_delta
                  | Some delta => i64 (delta + ram_delta)
                  end]> (a_ram_deltas c)).

(** [apply_context::add_ram_usage], with that of the transaction context. *)
Definition x_add_ram_usage (account ram_delta : Z) (c : actx) (x : xstate) : result (actx * xstate) :=
  r ← add_pending_ram_usage account ram_delta (res_db (x_db x));
  let x := set_res x r in
  let x := if ram_delta >? 0 then add_validate_ram account x else x in
  Ok (note_ram_delta account ram_delta c, x).

Definition x_update_db_usage (e : xenv) (payer delta : Z) (c : actx) (x : xstate) : result (actx * xstate) :=
  (if (delta >? 0) &&
      negb (a_privileged c || (payer =? a_receiver c) || is_builtin_activated e ProtocolFeatures.ram_restrictions)
   then
     check (ram_billing_in_notify_allowed e || (a_receiver c =? act_account (a_act c)))
       "subjective_block_production_exception" ;;
     require_authorization c payer
   else Ok tt) ;;
  x_add_ram_usage payer delta c x.

(** ** Inline actions *)

(** What the authorization manager asks for: the deferred transactions by id. *)
Definition auth_control (e : xenv) (x : xstate) : control :=
  mk_control (ChainConfig.max_transaction_delay (x_config e)) (Z.to_nat (ChainConfig.max_authority_depth (x_config e)))
    (is_builtin_activated e ProtocolFeatures.fix_linkauth_restriction)
    (list_to_map (map (fun g => (g_trx_id g, mk_gto (g_sender g) (g_delay_until g) (g_published g)
                                  (map act_authorization (trx_actions (g_packed g))))) (x_generated x))).

(** The accounts and the permissions an action names exist. *)
Definition check_auths_exist (x : xstate) (auths : list permission_level) : result unit :=
  mfold (fun _ auth =>
    of_option (accts (x_db x) !! auth.1) "authorizing actor does not exist" ;;
    p ← find_permission (auth_db (x_db x)) auth;
    of_option p "authorizations include a non-existent permission" ;; Ok tt) auths tt.

Definition actors_of (auths : list permission_level) : list Z :=
  foldl (fun l (a : permission_level) => account_insert a.1 l) [] auths.

(** An authorization failure of actions to oneself was once ignored; it still
    is where the feature that forbids it is not active, except by producers. *)
Definition self_bypass (e : xenv) (only_to_self : bool) (r : result unit) : result unit :=
  match r with
  | Ok _ => Ok tt
  | Err msg =>
    if is_builtin_activated e ProtocolFeatures.restrict_action_to_self || negb only_to_self then Err msg
    else if producing e then Err "subjective_block_production_exception" else Ok tt
  end.

(** The authorizations of the parent that an action to oneself inherits. *)
Definition inherited_authorizations (e : xenv) (a : chain_action) (c : actx) : list permission_level :=
  if negb (is_builtin_activated e ProtocolFeatures.restrict_action_to_self) && (act_account a =? a_receiver c) &&
     (a_receiver c =? act_account (a_act c)) && producing e
  then filter (fun p => p ∈ act_authorization (a_act c)) (act_authorization a) else [].

Definition execute_inline (e : xenv) (a : chain_action) (c : actx) (x : xstate) : result (actx * xstate) :=
  of_option (accts (x_db x) !! act_account a) "inline action's code account does not exist" ;;
  check_auths_exist x (act_authorization a) ;;
  (if enforce_whiteblacklist e && producing e
   then check_actor_list (xe_lists e) (actors_of (act_authorization a)) else Ok tt) ;;
  (if negb (skip_auth_check e) && negb (a_privileged c) then
     self_bypass e (act_account a =? a_receiver c)
       (check_authorization (auth_control e x) (auth_db (x_db x)) [a] [] [(a_receiver c, eosio_code_name)]
          (te_pending_block_time (xe_trx e) - xe_published e) false (inherited_authorizations e a c))
   else Ok tt) ;;
  let '(o, x) := ctx_schedule c a (act_account a) false x in
  Ok (add_inline c o, x).

Definition execute_context_free_inline (a : chain_action) (c : actx) (x : xstate) : result (actx * xstate) :=
  of_option (accts (x_db x) !! act_account a) "inline action's code account does not exist" ;;
  check (Nat.eqb (length (act_authorization a)) 0) "context-free actions cannot have authorizations" ;;
  let '(o, x) := ctx_schedule c a (act_account a) true x in
  Ok (add_cfa_inline c o, x).

(** ** Privileged calls *)

Definition set_resource_limits (account ram net cpu : Z) (c : actx) (x : xstate) : result (actx * xstate) :=
  check (ram >=? -1) "invalid value for ram resource limit" ;;
  check (net >=? -1) "invalid value for net resource weight" ;;
  check (cpu >=? -1) "invalid value for cpu resource weight" ;;
  '(decreased, r) ← set_account_limits account ram net cpu (res_db (x_db x));
  let x := set_res x r in
  Ok (c, if (decreased : bool) then add_validate_ram account x else x).

Definition set_privileged (n : Z) (is_priv : bool) (c : actx) (x : xstate) : result (actx * xstate) :=
  m ← of_option (metas (x_db x) !! n) "unable to find account_metadata_object";
  let m := mk_meta (recv_sequence m) (auth_sequence m) (code_sequence m) (abi_sequence m) (code_hash m)
             (last_code_update m) (if is_priv then Z.lor (flags m) 1 else Z.land (flags m) (Z.lnot 1))
             (vm_type m) (vm_version m) in
  Ok (c, set_db x (with_metas (x_db x) (<[n := m]> (metas (x_db x))))).
End Execution.
