(* ===== verification/Deferred.v ===== *)
(** * Deferred transactions ([apply_context.cpp], [transaction_context.cpp],
    [generated_transaction_object.hpp], [eosio_contract.cpp])

    Contracts schedule, replace and cancel deferred transactions; a delayed
    input transaction becomes one.  Their RAM is billed to a payer. *)

From stdpp Require Import base numbers gmap strings countable list.
From Stdlib Require Import ZArith Lia.
From S2P Require Import Prelude Boost Names Merkle Accumulator ResourceLimits Intrinsics Hex ProtocolFeatures FeatureActivation.
From S2P Require Import ChainConfig Authority Authorization EosioContract EosioContractSpec ActorList.
From S2P Require Import TransactionContext Transactions Execution.
Local Open Scope Z_scope.

Definition billable_generated_transaction_object : Z :=
  billable_size_v (96 + 4 + overhead_per_row_per_index_ram_bytes * 5).

Section Deferred.
Context {boost : Boost} {key : Type} `{PublicKey key} {W : Type}.
#[local] Abbreviation chain_action := (chain_action (key := key)).
#[local] Abbreviation transaction := (transaction (key := key)).
#[local] Abbreviation gto := (generated_transaction_object (key := key)).
#[local] Abbreviation xenv := (xenv (key := key) (W := W)).
#[local] Abbreviation xstate := (xstate (key := key) (W := W)).
#[local] Abbreviation actx := (actx (key := key)).

(** ** The table *)

Definition find_by_sender_id (sender sender_id : Z) (l : list gto) : option gto :=
  List.find (fun g => (g_sender g =? sender) && (g_sender_id g =? sender_id)) l.
Definition find_by_trx_id (id : Z) (l : list gto) : option gto :=
  List.find (fun g => g_trx_id g =? id) l.
Definition remove_generated (g : gto) (l : list gto) : list gto :=
  filter (fun h => g_trx_id h <> g_trx_id g) l.

(** [db.create]: ids, and senders with their sender ids, are unique. *)
Definition create_generated (g : gto) (l : list gto) : result (list gto) :=
  check (bool_decide (find_by_trx_id (g_trx_id g) l = None)) "could not insert object" ;;
  check (bool_decide (find_by_sender_id (g_sender g) (g_sender_id g) l = None)) "could not insert object" ;;
  Ok (l ++ [g]).

(** A packed transaction is shorter than 2^32 bytes. *)
Definition packed_size (e : xenv) (g : gto) : Z := u32 (trx_pack_size e (g_packed g)).
(** What the payer is billed for. *)
Definition billed_bytes (e : xenv) (g : gto) : Z := billable_generated_transaction_object + packed_size e g.

(** ** Checks on the accounts ([transaction_context::validate_referenced_accounts]) *)

Definition validate_referenced_accounts (e : xenv) (t : transaction) (enforce_actor_whitelist_blacklist : bool)
    (x : xstate) : result unit :=
  mfold (fun _ a =>
    of_option (accts (x_db x) !! act_account a) "action's code account does not exist" ;;
    check (Nat.eqb (length (act_authorization a)) 0) "context-free actions cannot have authorizations")
    (trx_context_free_actions t) tt ;;
  mfold (fun _ a =>
    of_option (accts (x_db x) !! act_account a) "action's code account does not exist" ;;
    check_auths_exist x (act_authorization a)) (trx_actions t) tt ;;
  check (existsb (fun a => Nat.ltb 0 (length (act_authorization a))) (trx_actions t))
    "transaction must have at least one authorization" ;;
  if enforce_actor_whitelist_blacklist
  then check_actor_list (xe_lists e) (actors_of (trx_actions t ≫= act_authorization)) else Ok tt.

(** ** Scheduling *)

Definition with_header (t : transaction) (expiration num prefix : Z) (exts : list (Z * list Z)) : transaction :=
  mk_transaction expiration num prefix (max_net_usage_words t) (max_cpu_usage_ms t) (delay_sec t)
    (trx_context_free_actions t) (trx_actions t) exts.

(** The extension and the header of a generated transaction. *)
Definition generated_header (e : xenv) (sender_id receiver : Z) (t : transaction) : result transaction :=
  if is_builtin_activated e ProtocolFeatures.no_duplicate_deferred_id then
    exts ← validate_and_extract_extensions t;
    exts ← (match exts with
            | [] =>
              check (Nat.eqb (length (transaction_extensions t)) 0) "invariant failure" ;;
              Ok [(0, pack_generation (mk_generation (xe_id e) sender_id receiver))]
            | [g] =>
              check (dg_sender g =? receiver) "deferred transaction generaction context contains mismatching sender" ;;
              check (dg_sender_id g =? sender_id)
                "deferred transaction generaction context contains mismatching sender_id" ;;
              check (sender_trx_id g =? xe_id e)
                "deferred transaction generaction context contains mismatching sender_trx_id" ;;
              Ok (transaction_extensions t)
            | _ => Err "only one extension is currently supported for deferred transactions"
            end);
    Ok (with_header t 0 0 0 exts)
  else
    Ok (set_reference_block (xe_head_block_id e)
          (with_header t (u32 ((te_pending_block_time (xe_trx e) + 999999) / 1000000)) (ref_block_num t)
             (ref_block_prefix t) (transaction_extensions t))).

Definition is_sending_only_to_self (self : Z) (t : transaction) : bool :=
  forallb (fun a => act_account a =? self) (trx_actions t).

(** The checks on the payer and on the authorizations. *)
Definition check_deferred_authorization (e : xenv) (payer : Z) (t : transaction) (c : actx) (x : xstate)
    : result unit :=
  if negb (skip_auth_check e) && negb (a_privileged c) then
    (if payer =? a_receiver c then Ok tt
     else if is_builtin_activated e ProtocolFeatures.ram_restrictions then
       check (a_receiver c =? act_account (a_act c))
         "cannot bill RAM usage of deferred transactions to another account within notify context" ;;
       check (Execution.has_authorization c payer)
         "cannot bill RAM usage of deferred transaction to another account that has not authorized the action"
     else Execution.require_authorization c payer) ;;
    self_bypass e (is_sending_only_to_self (a_receiver c) t)
      (check_authorization (auth_control e x) (auth_db (x_db x)) (trx_actions t) [] [(a_receiver c, eosio_code_name)]
         (delay_sec t * 1000000) false [])
  else Ok tt.

Definition new_generated (e : xenv) (id sender sender_id payer : Z) (t : transaction) : gto :=
  let published := te_pending_block_time (xe_trx e) in
  let delay_until := published + delay_sec t * 1000000 in
  mk_generated id sender sender_id payer delay_until
    (delay_until + deferred_trx_expiration_window (x_config e) * 1000000) published t.

(** The replacement of, or the first, transaction with that sender id. *)
Definition store_generated (e : xenv) (sender_id payer : Z) (t : transaction) (replace_existing : bool)
    (c : actx) (x : xstate) : result (gto * actx * xstate) :=
  match find_by_sender_id (a_receiver c) sender_id (x_generated x) with
  | Some ptr =>
    check replace_existing "deferred transaction with the same sender_id and payer already exists" ;;
    let replace_deferred_activated := is_builtin_activated e ProtocolFeatures.replace_deferred in
    check (replace_deferred_activated || negb (producing e) || all_subjective_mitigations_disabled e)
      "subjective_block_production_exception" ;;
    let orig_trx_ram_bytes := billed_bytes e ptr in
    '(c, x) ← (if replace_deferred_activated then x_add_ram_usage (g_payer ptr) (- orig_trx_ram_bytes) c x
               else Ok (c, set_corrections x (add_to_ram_correction (g_payer ptr) orig_trx_ram_bytes (x_corrections x))));
    let id := if replace_deferred_activated then trx_hash e t else g_trx_id ptr in
    let g := new_generated e id (a_receiver c) sender_id payer t in
    l ← create_generated g (remove_generated ptr (x_generated x));
    Ok (g, c, set_generated x l)
  | None =>
    let g := new_generated e (trx_hash e t) (a_receiver c) sender_id payer t in
    l ← create_generated g (x_generated x);
    Ok (g, c, set_generated x l)
  end.

Definition schedule_deferred_transaction (e : xenv) (sender_id payer : Z) (t : transaction) (replace_existing : bool)
    (c : actx) (x : xstate) : result (actx * xstate) :=
  check (Nat.eqb (length (trx_context_free_actions t)) 0)
    "context free actions are not currently allowed in generated transactions" ;;
  validate_referenced_accounts e t
    (enforce_whiteblacklist e && producing e &&
     negb (sender_avoids_whitelist_blacklist_enforcement (xe_lists e) (a_receiver c))) x ;;
  t ← generated_header e sender_id (a_receiver c) t;
  n ← add_net_usage (xe_trx e) (base_per_transaction_net_usage (x_config e) + transaction_id_net_usage) (x_net x);
  let x := set_net x n in
  check_deferred_authorization e payer t c x ;;
  '(g, c, x) ← store_generated e sender_id payer t replace_existing c x;
  check (is_builtin_activated e ProtocolFeatures.ram_restrictions || ram_billing_in_notify_allowed e ||
         (a_receiver c =? act_account (a_act c)) || (a_receiver c =? payer) || a_privileged c)
    "subjective_block_production_exception" ;;
  x_add_ram_usage payer (billed_bytes e g) c x.

Definition cancel_deferred_transaction (e : xenv) (sender_id sender : Z) (c : actx) (x : xstate)
    : result (bool * actx * xstate) :=
  match find_by_sender_id sender sender_id (x_generated x) with
  | Some g =>
    '(c, x) ← x_add_ram_usage (g_payer g) (i64 (u64 (- billed_bytes e g))) c x;
    Ok (true, c, set_generated x (remove_generated g (x_generated x)))
  | None => Ok (false, c, x)
  end.

Definition apply_eosio_canceldelay (e : xenv) (cancel : canceldelay) (c : actx) (x : xstate) : result (actx * xstate) :=
  Execution.require_authorization c (cd_canceling_auth cancel).1 ;;
  '(_, c, x) ← cancel_deferred_transaction e (transaction_id_to_sender_id (cd_trx_id cancel)) 0 c x;
  Ok (c, x).

(** ** Delayed input transactions ([transaction_context::schedule_transaction]) *)

Definition schedule_transaction (e : xenv) (t : transaction) (delay : Z) (x : xstate) : result xstate :=
  x ← (if delay_sec t =? 0 then
         n ← add_net_usage (xe_trx e) (base_per_transaction_net_usage (x_config e) + transaction_id_net_usage) (x_net x);
         Ok (set_net x n)
       else Ok x);
  let published := te_pending_block_time (xe_trx e) in
  let g := mk_generated (xe_id e) 0 (transaction_id_to_sender_id (xe_id e)) (first_authorizer t) (published + delay)
             (published + delay + deferred_trx_expiration_window (x_config e) * 1000000) published t in
  l ← create_generated g (x_generated x);
  let x := set_generated x l in
  let ram_delta := billed_bytes e g in
  r ← add_pending_ram_usage (g_payer g) ram_delta (res_db (x_db x));
  let x := set_res x r in
  Ok (if ram_delta >? 0 then add_validate_ram (g_payer g) x else x).

(** ** Retiring ([controller_impl::remove_scheduled_transaction]) *)

Definition remove_scheduled_transaction (e : xenv) (g : gto) (x : xstate) : result (Z * xstate) :=
  let ram_delta := i64 (u64 (- billed_bytes e g)) in
  r ← add_pending_ram_usage (g_payer g) ram_delta (res_db (x_db x));
  Ok (ram_delta, set_generated (set_res x r) (remove_generated g (x_generated x))).
End Deferred.
