(* ===== verification/Actions.v ===== *)
(** * Executing actions ([apply_context.cpp], [transaction_context.cpp])

    A contract runs its program against the host; an action is applied to its
    receiver and to every account that is notified, and then the actions it
    sent are executed in turn.  Depth bounds the recursion; the number of
    accounts bounds the notifications. *)

From stdpp Require Import base numbers gmap strings countable list sorting.
From Stdlib Require Import ZArith Lia.
From S2P Require Import Prelude Boost Names Merkle Accumulator ResourceLimits ProtocolFeatures ChainConfig Authority Authorization.
From S2P Require Import EosioContract EosioContractSpec ActorList TransactionContext Transactions Execution Deferred.
Local Open Scope Z_scope.

Section Actions.
Context {boost : Boost} {key : Type} `{PublicKey key} {W : Type}.
#[local] Abbreviation chain_action := (chain_action (key := key)).
#[local] Abbreviation transaction := (transaction (key := key)).
#[local] Abbreviation xenv := (xenv (key := key) (W := W)).
#[local] Abbreviation xstate := (xstate (key := key) (W := W)).
#[local] Abbreviation actx := (actx (key := key)).
#[local] Abbreviation program := (program (key := key) (W := W)).

(** ** Programs *)

(** [context_aware_api]: what is not context free is closed to context-free
    actions. *)
Definition context_aware (c : actx) : result unit :=
  check (negb (a_context_free c)) "only context free api's can be used in this context".
Definition privileged_api (c : actx) : result unit :=
  context_aware c ;; check (a_privileged c) "does not have permission to call this API".

Fixpoint run (e : xenv) (p : program) (c : actx) (x : xstate) : result (actx * xstate) :=
  match p with
  | PReturn => Ok (c, x)
  | PThrow msg => Err msg
  | PTables f k => context_aware c ;; run e (k (x_tables x)) c (set_tables x (f (x_tables x)))
  | PRequireRecipient r k =>
    context_aware c ;; '(c, x) ← require_recipient r c x; run e k c x
  | PRequireAuth a k => context_aware c ;; Execution.require_authorization c a ;; run e k c x
  | PRequireAuth2 a q k => context_aware c ;; require_authorization2 c a q ;; run e k c x
  | PHasAuth a k => context_aware c ;; run e (k (Execution.has_authorization c a)) c x
  | PIsAccount a k => context_aware c ;; run e (k (is_account x a)) c x
  | PGetSender k => context_aware c ;; s ← Execution.get_sender c x; run e (k s) c x
  | PSendInline size a k =>
    context_aware c ;;
    check (size <? max_inline_action_size (x_config e)) "inline action too big" ;;
    '(c, x) ← execute_inline e a c x; run e k c x
  | PSendContextFreeInline size a k =>
    context_aware c ;;
    check (size <? max_inline_action_size (x_config e)) "inline action too big" ;;
    '(c, x) ← execute_context_free_inline a c x; run e k c x
  | PSendDeferred sender_id payer t replace k =>
    context_aware c ;;
    '(c, x) ← schedule_deferred_transaction e sender_id payer t replace c x; run e k c x
  | PCancelDeferred sender_id k =>
    context_aware c ;;
    '(b, c, x) ← cancel_deferred_transaction e sender_id (a_receiver c) c x; run e (k b) c x
  | PUpdateDbUsage payer delta k =>
    context_aware c ;; '(c, x) ← x_update_db_usage e payer (i64 delta) c x; run e k c x
  | PSetResourceLimits a ram net cpu k =>
    privileged_api c ;; '(c, x) ← set_resource_limits a ram net cpu c x; run e k c x
  | PSetPrivileged a b k =>
    privileged_api c ;; '(c, x) ← set_privileged a b c x; run e k c x
  end.

(** ** Native handlers *)

(** [find_apply_handler] with the handlers the controller sets. *)
Definition is_native_action (receiver account name : Z) : bool :=
  (receiver =? system_account_name) && (account =? system_account_name) &&
  existsb (fun n => name =? n)
    [N_ "newaccount"; N_ "setcode"; N_ "setabi"; N_ "updateauth"; N_ "deleteauth"; N_ "linkauth"; N_ "unlinkauth";
     N_ "canceldelay"].

(** What a native handler has charged: the RAM that changed, by account. *)
Definition ram_changes (r r' : rdb) : list (Z * Z) :=
  omap (fun a =>
      let before := match usages r !! a with Some u => ram_usage u | None => 0 end in
      let after := match usages r' !! a with Some u => ram_usage u | None => 0 end in
      if after =? before then None else Some (a, after - before))
    (merge_sort Z.le (map_to_list (usages r')).*1).

Definition note_changes (l : list (Z * Z)) (c : actx) (x : xstate) : actx * xstate :=
  foldl (fun '(c, x) '(a, d) => (note_ram_delta a d c, if d >? 0 then add_validate_ram a x else x)) (c, x) l.

Definition apply_native (e : xenv) (c : actx) (x : xstate) : result (actx * xstate) :=
  let act := a_act c in
  if act_name act =? N_ "canceldelay" then
    match act_data act with
    | Canceldelay cancel => apply_eosio_canceldelay e cancel c x
    | _ => Err "unpack"
    end
  else
    n ← unpack_native e act;
    db ← native_apply (xe_native_context e (act_authorization act)) n (x_db x);
    Ok (note_changes (ram_changes (res_db (x_db x)) (res_db db)) c (set_db x db)).

(** The lists of a producer. *)
Definition check_lists (e : xenv) (c : actx) : result unit :=
  if enforce_whiteblacklist e && producing e then
    check_contract_list (xe_lists e) (a_receiver c) ;;
    check_action_list (xe_lists e) (act_account (a_act c)) (act_name (a_act c))
  else Ok tt.

(** ** One receiver *)

(** Whether the code of the receiver is run. *)
Definition runs_code (e : xenv) (c : actx) (m : account_metadata_object) : bool :=
  negb (code_hash m =? 0) &&
  (negb ((act_account (a_act c) =? system_account_name) && (act_name (a_act c) =? N_ "setcode") &&
         (a_receiver c =? system_account_name))
   || is_builtin_activated e ProtocolFeatures.forward_setcode).

(** The check of the RAM a contract has charged. *)
Definition check_ram_deltas (e : xenv) (c : actx) : result unit :=
  if negb (a_privileged c) && is_builtin_activated e ProtocolFeatures.ram_restrictions then
    mfold (fun _ '(a, d) =>
      if (d >? 0) && negb (a =? a_receiver c) then
        check (a_receiver c =? act_account (a_act c))
          "unprivileged contract cannot increase RAM usage of another account within a notify context" ;;
        check (Execution.has_authorization c a)
          "unprivileged contract cannot increase RAM usage of another account that has not authorized the action"
      else Ok tt) (map_to_list (a_ram_deltas c)) tt
  else Ok tt.

(** The part of [exec_one] in which the action takes effect. *)
Definition apply_action (e : xenv) (c : actx) (x : xstate) : result (actx * xstate) :=
  m ← of_option (metas (x_db x) !! a_receiver c) "unable to find account_metadata_object";
  let c := set_privilege c (is_privileged m) in
  '(c, x) ← (if is_native_action (a_receiver c) (act_account (a_act c)) (act_name (a_act c))
             then check_lists e c ;; apply_native e c x else Ok (c, x));
  m ← of_option (metas (x_db x) !! a_receiver c) "unable to find account_metadata_object";
  '(c, x) ← (if runs_code e c m then
               check_lists e c ;;
               run e (contract e (code_hash m) (vm_type m) (vm_version m) (a_receiver c) (a_act c) (a_context_free c)) c x
             else Ok (c, x));
  check_ram_deltas e c ;;
  Ok (c, x).

(** ** Sequence numbers *)

Definition set_meta (a : Z) (m : account_metadata_object) (x : xstate) : xstate :=
  set_db x (with_metas (x_db x) (<[a := m]> (metas (x_db x)))).
Definition with_recv (m : account_metadata_object) (n : Z) : account_metadata_object :=
  mk_meta n (auth_sequence m) (code_sequence m) (abi_sequence m) (code_hash m) (last_code_update m) (flags m)
    (vm_type m) (vm_version m).
Definition with_auth_sequence (m : account_metadata_object) (n : Z) : account_metadata_object :=
  mk_meta (recv_sequence m) n (code_sequence m) (abi_sequence m) (code_hash m) (last_code_update m) (flags m)
    (vm_type m) (vm_version m).
Definition set_global (x : xstate) (g : Z) : xstate :=
  mk_x (x_db x) (x_generated x) (x_corrections x) g (x_tables x) (x_traces x) (x_executed x) (x_net x) (x_validate_ram x).

Definition next_global_sequence (x : xstate) : Z * xstate :=
  let g := u64 (x_global x + 1) in (g, set_global x g).

Definition next_recv_sequence (receiver : Z) (x : xstate) : result (Z * xstate) :=
  m ← of_option (metas (x_db x) !! receiver) "unable to find account_metadata_object";
  let n := u64 (recv_sequence m + 1) in
  Ok (n, set_meta receiver (with_recv m n) x).

Definition next_auth_sequence (actor : Z) (x : xstate) : result (Z * xstate) :=
  m ← of_option (metas (x_db x) !! actor) "unable to find account_metadata_object";
  let n := u64 (auth_sequence m + 1) in
  Ok (n, set_meta actor (with_auth_sequence m n) x).

(** [r.auth_sequence] *)
Definition auth_sequences (auths : list permission_level) (x : xstate) : result (gmap Z Z * xstate) :=
  mfold (fun '(s, x) (auth : permission_level) =>
    '(n, x) ← next_auth_sequence auth.1 x; Ok (<[auth.1 := n]> s, x)) auths (∅, x).

Definition put_trace (o : nat) (t : action_trace (key := key)) (x : xstate) : xstate :=
  set_traces x (<[pred o := t]> (x_traces x)).
Definition add_executed (r : action_receipt) (x : xstate) : xstate :=
  mk_x (x_db x) (x_generated x) (x_corrections x) (x_global x) (x_tables x) (x_traces x) (x_executed x ++ [r]) (x_net x)
    (x_validate_ram x).

(** The receipt of the action, from the sequence numbers. *)
Definition make_receipt (e : xenv) (c : actx) (x : xstate) : result (action_receipt * xstate) :=
  let '(g, x) := next_global_sequence x in
  '(n, x) ← next_recv_sequence (a_receiver c) x;
  first ← of_option (metas (x_db x) !! act_account (a_act c)) "unable to find account_metadata_object";
  '(s, x) ← auth_sequences (act_authorization (a_act c)) x;
  Ok (mk_receipt (a_receiver c) (action_digest e (a_act c)) g n s (u32 (code_sequence first)) (u32 (abi_sequence first)), x).

(** The receipt goes into the trace, with the deltas, which are reset. *)
Definition finalize_trace (r : action_receipt) (c : actx) (x : xstate) : result (actx * xstate) :=
  t ← get_action_trace x (action_ordinal c);
  let t := mk_trace (at_ordinal t) (at_creator t) (at_ancestor t) (Some r) (at_receiver t) (at_act t)
             (at_context_free t) (a_ram_deltas c) in
  Ok (set_act_deltas c ∅, add_executed r (put_trace (action_ordinal c) t x)).

Definition exec_one (e : xenv) (c : actx) (x : xstate) : result (actx * xstate) :=
  '(c, x) ← apply_action e c x;
  '(r, x) ← make_receipt e c x;
  finalize_trace r c x.

(** ** All receivers, and what they sent *)

Fixpoint exec_notified (fuel : nat) (e : xenv) (i : nat) (c : actx) (x : xstate) : result (actx * xstate) :=
  match _notified c !! i with
  | None => Ok (c, x)
  | Some (r, o) =>
    match fuel with
    | O => Err "out of fuel"
    | S fuel =>
      '(c, x) ← exec_one e (set_notified_receiver c r o) x;
      exec_notified fuel e (S i) c x
    end
  end.

(** The constructor of the context and the first statement of [exec]. *)
Definition new_context (ordinal : nat) (x : xstate) : result actx :=
  t ← get_action_trace x ordinal;
  Ok (mk_actx ordinal ordinal (at_receiver t) (at_act t) (at_context_free t) false [(at_receiver t, ordinal)] [] [] ∅).

(** [execute_action] and [exec]; [levels] is [max_inline_action_depth] less
    [recurse_depth]. *)
Fixpoint execute_action (levels : nat) (e : xenv) (ordinal : nat) (x : xstate) : result xstate :=
  c ← new_context ordinal x;
  '(c, x) ← exec_one e c x;
  '(c, x) ← exec_notified (S (size (metas (x_db x)))) e 1 c x;
  match _cfa_inline_actions c ++ _inline_actions c with
  | [] => Ok x
  | sent =>
    match levels with
    | O => Err "max inline action depth per transaction reached"
    | S levels => mfold (fun x o => execute_action levels e o x) sent x
    end
  end.

(** [transaction_context::exec]; [delay] is zero or the delay of the
    transaction. *)
Definition schedule_all (context_free : bool) (l : list chain_action) (x : xstate) : xstate :=
  foldl (fun x a => (schedule_action a (act_account a) context_free 0 0 x).2) x l.

Definition exec_transaction (e : xenv) (t : transaction) (apply_context_free : bool) (delay : Z) (x : xstate)
    : result xstate :=
  let x := if apply_context_free then schedule_all true (trx_context_free_actions t) x else x in
  let x := if delay =? 0 then schedule_all false (trx_actions t) x else x in
  x ← mfold (fun x o => execute_action (Z.to_nat (max_inline_action_depth (x_config e))) e o x)
        (seq 1 (length (x_traces x))) x;
  if delay =? 0 then Ok x else schedule_transaction e t delay x.
End Actions.
