(* ===== verification/ActionsSpec.v ===== *)
(** * What executing actions promises

    Host calls only append traces; every trace is executed exactly once, in
    an order that the global sequence numbers record; the notifications of an
    action end. *)

From stdpp Require Import base numbers gmap strings countable list sorting.
From Stdlib Require Import ZArith Lia.
From S2P Require Import Prelude Boost Names Merkle Accumulator ResourceLimits ProtocolFeatures ChainConfig Authority Authorization.
From S2P Require Import EosioContract EosioContractSpec ActorList TransactionContext Transactions Execution Deferred Actions.
Local Open Scope Z_scope.
Section Spec.
Context {boost : Boost} {key : Type} `{PublicKey key} {W : Type}.
#[local] Abbreviation chain_action := (chain_action (key := key)).
#[local] Abbreviation transaction := (transaction (key := key)).
#[local] Abbreviation trace := (action_trace (key := key)).
#[local] Abbreviation xenv := (xenv (key := key) (W := W)).
#[local] Abbreviation xstate := (xstate (key := key) (W := W)).
#[local] Abbreviation actx := (actx (key := key)).
#[local] Abbreviation program := (program (key := key) (W := W)).
Implicit Types (e : xenv) (x y z : xstate) (c d : actx) (t : trace).

(** ** What host calls leave alone, and what they add *)

Record same_frame c d : Prop := {
  sf_first : first_receiver_action_ordinal d = first_receiver_action_ordinal c;
  sf_ordinal : action_ordinal d = action_ordinal c;
  sf_receiver : a_receiver d = a_receiver c; sf_act : a_act d = a_act c;
  sf_free : a_context_free d = a_context_free c; sf_privileged : a_privileged d = a_privileged c }.

#[export] Instance same_frame_preorder : PreOrder same_frame.
Proof. split; [by split|]. intros a b c [] []. split; congruence. Qed.

(** The number of the last action an account received; 0 for no account. *)
Definition recv_count x (a : Z) : Z := default 0 (recv_sequence <$> metas (x_db x) !! a).

Record quiet x y : Prop := {
  q_traces : x_traces y = x_traces x; q_global : x_global y = x_global x;
  q_executed : x_executed y = x_executed x;
  q_dom : dom (metas (x_db y)) = dom (metas (x_db x));
  q_recv : forall a, recv_count y a = recv_count x a }.

#[export] Instance quiet_preorder : PreOrder quiet.
Proof. split; [by split|]. intros a b c [] []. split; congruence. Qed.

(** A native handler is found for the action. *)
Definition ctx_native c : bool := is_native_action (a_receiver c) (act_account (a_act c)) (act_name (a_act c)).

(** The state and the context after some host calls: [new] are the traces that
    were added, with the ordinals that are queued. *)
Record sent c x d y : Prop := {
  s_frame : same_frame c d;
  s_global : x_global y = x_global x; s_executed : x_executed y = x_executed x;
  s_dom : ctx_native c = false -> dom (metas (x_db y)) = dom (metas (x_db x));
  s_le : dom (metas (x_db x)) ⊆ dom (metas (x_db y));
  s_queue : exists ns inl cfa new,
    _notified d = _notified c ++ ns /\ _inline_actions d = _inline_actions c ++ inl /\
    _cfa_inline_actions d = _cfa_inline_actions c ++ cfa /\ x_traces y = x_traces x ++ new /\
    ns.*2 ++ cfa ++ inl ≡ₚ seq (S (length (x_traces x))) (length new) /\
    (forall i t, new !! i = Some t -> at_ordinal t = (S (length (x_traces x) + i))%nat /\ at_receipt t = None /\
       at_creator t = action_ordinal c /\ at_ancestor t = first_receiver_action_ordinal c) /\
    (forall o, o ∈ cfa ++ inl -> exists t, x_traces y !! pred o = Some t /\ at_receiver t = act_account (at_act t));
  s_recipients : NoDup (_notified c).*1 -> NoDup (_notified d).*1;
  s_recv : forall a, recv_count y a = recv_count x a }.

Lemma sent_quiet c x d y : same_frame c d -> quiet x y -> _notified d = _notified c ->
  _inline_actions d = _inline_actions c -> _cfa_inline_actions d = _cfa_inline_actions c -> sent c x d y.
Proof.
  intros F [Q1 Q2 Q3 Q4 Q5] E1 E2 E3. split; [done|done|done|done|by rewrite Q4| |by rewrite E1|done].
  exists [], [], [], []. rewrite !app_nil_r. split_and!; try done.
  intros o Ho. simpl in Ho. by apply not_elem_of_nil in Ho.
Qed.

Lemma sent_refl c x : sent c x c x.
Proof. by apply sent_quiet. Qed.

Lemma sent_trans c x c1 x1 c2 x2 : sent c x c1 x1 -> sent c1 x1 c2 x2 -> sent c x c2 x2.
Proof.
  intros [F G E D L (ns & il & cf & new & A1 & A2 & A3 & A4 & P & N & R) ND V]
         [F' G' E' D' L' (ns' & il' & cf' & new' & B1 & B2 & B3 & B4 & P' & N' & R') ND' V'].
  split; [by etrans|congruence|congruence| |by etrans| |tauto|congruence].
  { intros Hn. rewrite D', D; [done|done|]. unfold ctx_native. destruct F as [_ _ -> -> _ _]. done. }
  exists (ns ++ ns'), (il ++ il'), (cf ++ cf'), (new ++ new').
  rewrite B1, B2, B3, B4, A1, A2, A3, A4, <- !app_assoc. split_and!; [done..| | |].
  - rewrite length_app, seq_app, <- P. rewrite A4, length_app in P'.
    rewrite Nat.add_succ_l, <- P', fmap_app. solve_Permutation.
  - intros i t [Ht|[Hi Ht]]%lookup_app_Some; [by apply N|]. destruct (N' _ _ Ht) as (O1 & O2 & O3 & O4).
    rewrite A4, length_app in O1. destruct F as [F1 F2 _ _ _ _]. split_and!; [lia|done|congruence|congruence].
  - intros o Ho. assert (o ∈ cf ++ il \/ o ∈ cf' ++ il') as [Ho'|Ho'] by set_solver.
    + destruct (R o Ho') as (t & Ht & Hr). exists t. split; [|done]. rewrite A4 in Ht.
      rewrite app_assoc. by apply lookup_app_l_Some.
    + destruct (R' o Ho') as (t & Ht & Hr). exists t. split; [|done]. by rewrite B4, A4, <- app_assoc in Ht.
Qed.

(** ** Host calls *)

(** One trace is scheduled. *)
Lemma sent_one c x (a : chain_action) r cf d :
  same_frame c d ->
  (_notified d = _notified c ++ [(r, S (length (x_traces x)))] /\ _inline_actions d = _inline_actions c /\
   _cfa_inline_actions d = _cfa_inline_actions c /\ r ∉ (_notified c).*1 \/
   _notified d = _notified c /\ r = act_account a /\
   (_inline_actions d = _inline_actions c ++ [S (length (x_traces x))] /\ _cfa_inline_actions d = _cfa_inline_actions c \/
    _inline_actions d = _inline_actions c /\ _cfa_inline_actions d = _cfa_inline_actions c ++ [S (length (x_traces x))])) ->
  sent c x d (ctx_schedule c a r cf x).2.
Proof.
  intros F Q. unfold ctx_schedule, schedule_action. set (t := mk_trace _ _ _ _ _ _ _ _).
  assert (N : forall i t', [t] !! i = Some t' -> at_ordinal t' = (S (length (x_traces x) + i))%nat /\ at_receipt t' = None /\
       at_creator t' = action_ordinal c /\ at_ancestor t' = first_receiver_action_ordinal c).
  { intros [|i] t' Ht; [|done]. injection Ht as <-. cbn. split_and!; try done; lia. }
  assert (R : (x_traces x ++ [t]) !! length (x_traces x) = Some t) by (rewrite lookup_app_r, Nat.sub_diag by lia; done).
  destruct Q as [(Q1 & Q2 & Q3 & Q4)|(Q1 & Q2 & [[Q3 Q4]|[Q3 Q4]])]; (split; [done|done|done|done|done| | |done]).
  - exists [(r, S (length (x_traces x)))], [], [], [t]. rewrite Q1, Q2, Q3, !app_nil_r. split_and!; try done.
    intros o Ho. by apply not_elem_of_nil in Ho.
  - intros Hnd. rewrite Q1, fmap_app. apply NoDup_app. split_and!; [done| |apply NoDup_singleton].
    intros y Hy Hy'. apply list_elem_of_singleton in Hy' as ->. done.
  - exists [], [S (length (x_traces x))], [], [t]. rewrite Q1, Q3, Q4, !app_nil_r. split_and!; try done.
    intros o ->%list_elem_of_singleton. exists t. by split.
  - by rewrite Q1.
  - exists [], [], [S (length (x_traces x))], [t]. rewrite Q1, Q3, Q4, !app_nil_r. split_and!; try done.
    intros o ->%list_elem_of_singleton. exists t. by split.
  - by rewrite Q1.
Qed.

Lemma require_recipient_sent r c x d y : require_recipient r c x = Ok (d, y) -> sent c x d y.
Proof.
  unfold require_recipient. destruct (has_recipient c r) eqn:Er; intros Hr.
  - apply (proj1 (Ok_inj _ _)) in Hr. injection Hr as <- <-. apply sent_refl.
  - ok_bind Hr as [o x1] Ho. apply (proj1 (Ok_inj _ _)) in Hr. injection Hr as <- <-.
    unfold ctx_schedule_ordinal in Ho. ok_bind Ho as t Ht. apply (proj1 (Ok_inj _ _)) in Ho.
    replace x1 with (ctx_schedule c (at_act t) r false x).2 by (by rewrite Ho).
    replace o with (ctx_schedule c (at_act t) r false x).1 by (by rewrite Ho).
    apply sent_one; [by split|]. left. split_and!; try done.
    intros Hin. apply list_elem_of_fmap in Hin as ([r' o'] & -> & Hin).
    apply not_true_iff_false in Er. apply Er. apply existsb_exists. exists (r', o'). cbn. split; [by apply list_elem_of_In|lia].
Qed.

Lemma execute_inline_sent e a c x d y : execute_inline e a c x = Ok (d, y) -> sent c x d y.
Proof.
  unfold execute_inline. intros Hr. do 4 ok_bind Hr as ? _. change (let '(o, x0) := ctx_schedule c a (act_account a) false x in _)
    with (Ok (add_inline c (ctx_schedule c a (act_account a) false x).1, (ctx_schedule c a (act_account a) false x).2)) in Hr.
  apply (proj1 (Ok_inj _ _)) in Hr. injection Hr as <- <-. apply sent_one; [by split|]. right. split_and!; try done. by left.
Qed.

Lemma execute_context_free_inline_sent (a : chain_action) c x d y :
  execute_context_free_inline a c x = Ok (d, y) -> sent c x d y.
Proof.
  unfold execute_context_free_inline. intros Hr. do 2 ok_bind Hr as ? _.
  change (let '(o, x0) := ctx_schedule c a (act_account a) true x in _)
    with (Ok (add_cfa_inline c (ctx_schedule c a (act_account a) true x).1, (ctx_schedule c a (act_account a) true x).2)) in Hr.
  apply (proj1 (Ok_inj _ _)) in Hr. injection Hr as <- <-. apply sent_one; [by split|]. right. split_and!; try done. by right.
Qed.

Lemma add_ram_sent a n c x d y : x_add_ram_usage a n c x = Ok (d, y) -> sent c x d y.
Proof.
  unfold x_add_ram_usage. intros Hr. ok_bind Hr as r _. apply (proj1 (Ok_inj _ _)) in Hr. injection Hr as <- <-.
  apply sent_quiet; [by split|by destruct (n >? 0)|done..].
Qed.

Lemma update_db_usage_sent e a n c x d y : x_update_db_usage e a n c x = Ok (d, y) -> sent c x d y.
Proof. unfold x_update_db_usage. intros Hr. ok_bind Hr as [] _. by eapply add_ram_sent. Qed.

Lemma store_generated_sent e i p trx b c x g d y : store_generated e i p trx b c x = Ok (g, d, y) -> sent c x d y.
Proof.
  unfold store_generated. intros Hr. destruct (find_by_sender_id _ _ _) as [ptr|].
  - do 2 ok_bind Hr as [] _. ok_bind Hr as [c1 x1] H1. ok_bind Hr as l _. apply (proj1 (Ok_inj _ _)) in Hr.
    injection Hr as _ <- <-. apply (sent_trans _ _ c1 x1); [|by apply sent_quiet].
    destruct (is_builtin_activated e _); [by eapply add_ram_sent|].
    apply (proj1 (Ok_inj _ _)) in H1. injection H1 as <- <-. by apply sent_quiet.
  - ok_bind Hr as l _. apply (proj1 (Ok_inj _ _)) in Hr. injection Hr as _ <- <-. by apply sent_quiet.
Qed.

Lemma schedule_deferred_sent e i p trx b c x d y : schedule_deferred_transaction e i p trx b c x = Ok (d, y) -> sent c x d y.
Proof.
  unfold schedule_deferred_transaction. intros Hr. do 2 ok_bind Hr as [] _. ok_bind Hr as t' _. ok_bind Hr as n _.
  ok_bind Hr as [] _. ok_bind Hr as [[g c1] x1] H1. ok_bind Hr as [] _. apply (sent_trans _ _ c (set_net x n)); [by apply sent_quiet|].
  apply (sent_trans _ _ c1 x1); [by eapply store_generated_sent|by eapply add_ram_sent].
Qed.

Lemma cancel_deferred_sent e i s c x b d y : cancel_deferred_transaction e i s c x = Ok (b, d, y) -> sent c x d y.
Proof.
  unfold cancel_deferred_transaction. intros Hr. destruct (find_by_sender_id _ _ _) as [g|].
  - ok_bind Hr as [c1 x1] H1. apply (proj1 (Ok_inj _ _)) in Hr. injection Hr as _ <- <-.
    apply (sent_trans _ _ c1 x1); [by eapply add_ram_sent|by apply sent_quiet].
  - apply (proj1 (Ok_inj _ _)) in Hr. injection Hr as _ <- <-. apply sent_refl.
Qed.

Lemma dom_insert_known {A} (m : gmap Z A) i v v' : m !! i = Some v -> dom (<[i := v']> m) = dom m.
Proof. intros Hi. apply leibniz_equiv. rewrite dom_insert. apply elem_of_dom_2 in Hi. set_solver. Qed.

(** A row that is changed keeps the number. *)
Lemma recv_insert x y a (m m' : account_metadata_object) a' : metas (x_db x) !! a = Some m -> recv_sequence m' = recv_sequence m ->
  metas (x_db y) = <[a := m']> (metas (x_db x)) -> recv_count y a' = recv_count x a'.
Proof.
  intros Hm E Hy. unfold recv_count. rewrite Hy. destruct (decide (a' = a)) as [->|]; [|by rewrite lookup_insert_ne].
  rewrite lookup_insert_eq, Hm. cbn. done.
Qed.

Lemma set_resource_limits_sent a r n u c x d y : set_resource_limits a r n u c x = Ok (d, y) -> sent c x d y.
Proof.
  unfold set_resource_limits. intros Hr. do 3 ok_bind Hr as [] _. ok_bind Hr as [b r'] _.
  apply (proj1 (Ok_inj _ _)) in Hr. injection Hr as <- <-. apply sent_quiet; [done|by destruct b|done..].
Qed.

Lemma set_privileged_sent a b c x d y : set_privileged a b c x = Ok (d, y) -> sent c x d y.
Proof.
  unfold set_privileged. intros Hr. ok_bind Hr as m Hm. apply (proj1 (Ok_inj _ _)) in Hr. injection Hr as <- <-.
  unfold of_option in Hm. destruct (metas (x_db x) !! a) as [m0|] eqn:E; [|done]. injection Hm as ->.
  apply sent_quiet; [done| |done..]. split; try done; [cbn; by eapply dom_insert_known|].
  intros a'. eapply recv_insert; [exact E| |reflexivity]. done.
Qed.

#[local] Create HintDb sent.
#[local] Hint Resolve sent_refl require_recipient_sent execute_inline_sent execute_context_free_inline_sent
  update_db_usage_sent schedule_deferred_sent cancel_deferred_sent set_resource_limits_sent set_privileged_sent : sent.

(** A contract can do nothing but this. *)
Lemma run_sent e (p : program) c x d y : run e p c x = Ok (d, y) -> sent c x d y.
Proof.
  revert c x. induction p as [|msg|f k IH|r k IH|a k IH|a q k IH|a k IH|a k IH|k IH|size a k IH|size a k IH|i pa t b k IH|i k IH
    |pa n k IH|a r n u k IH|a b k IH]; intros c x Hr; cbn [run] in Hr; try done.
  1: { apply (proj1 (Ok_inj _ _)) in Hr. injection Hr as <- <-. apply sent_refl. }
  1: { ok_bind Hr as [] _. apply (sent_trans _ _ c (set_tables x (f (x_tables x)))); [by apply sent_quiet|eauto]. }
  2,3: do 2 ok_bind Hr as [] _; eauto.
  2,3: ok_bind Hr as [] _; eauto.
  2: ok_bind Hr as [] _; ok_bind Hr as s _; eauto.
  all: ok_bind Hr as [] _.
  2,3: ok_bind Hr as [] _.
  5: ok_bind Hr as [[bb c1] x1] H1.
  5: apply (sent_trans _ _ c1 x1); [by eapply cancel_deferred_sent|eauto].
  all: ok_bind Hr as [c1 x1] H1.
  all: apply (sent_trans _ _ c1 x1); [eauto with sent|eauto].
Qed.

(** ** Accounts are never removed *)

Definition metas_kept (m m' : gmap Z account_metadata_object) : Prop :=
  dom m ⊆ dom m' /\ forall a, default 0 (recv_sequence <$> m' !! a) = default 0 (recv_sequence <$> m !! a).

Lemma metas_kept_insert m i v : default 0 (recv_sequence <$> m !! i) = recv_sequence v -> metas_kept m (<[i := v]> m).
Proof.
  intros E. split; [rewrite dom_insert; set_solver|]. intros a. destruct (decide (a = i)) as [->|]; [|by rewrite lookup_insert_ne].
  by rewrite lookup_insert_eq, E.
Qed.

Lemma native_metas cx (n : native_action (key := key)) db db' : native_apply cx n db = Ok db' ->
  metas_kept (metas db) (metas db').
Proof.
  destruct n as [a|a|a|a|a|a|a]; cbn [native_apply]; intros Hr.
  - unfold apply_eosio_newaccount in Hr. do 5 ok_bind Hr as [] _. ok_bind Hr as cr _. do 2 ok_bind Hr as [] _.
    ok_bind Hr as [] Hn. apply (proj1 (check_ok _ _ _)) in Hn. cbn in Hn. apply bool_decide_eq_true_1 in Hn. do 2 ok_bind Hr as [] _. ok_bind Hr as [p1 a1] _. ok_bind Hr as [p2 a2] _. ok_bind Hr as r _.
    apply add_ram_usage_frame in Hr as (_ & -> & _). apply metas_kept_insert. cbn. by rewrite Hn.
  - unfold apply_eosio_setcode in Hr. do 3 ok_bind Hr as [] _. ok_bind Hr as h _. ok_bind Hr as m Hm. ok_bind Hr as [] _.
    ok_bind Hr as [os db1] H1. apply bill_frame in Hr as (_ & -> & _).
    assert (metas db1 = metas db) as E.
    { destruct (negb _); [|apply (proj1 (Ok_inj _ _)) in H1; by injection H1 as _ <-].
      ok_bind H1 as en _. ok_bind H1 as [] _. apply (proj1 (Ok_inj _ _)) in H1. by injection H1 as _ <-. }
    destruct (_ >? 0); cbn; rewrite E; apply metas_kept_insert; apply of_option_ok in Hm; by rewrite Hm.
  - unfold apply_eosio_setabi in Hr. ok_bind Hr as [] _. ok_bind Hr as ac _. ok_bind Hr as m Hm.
    apply bill_frame in Hr as (_ & -> & _). apply metas_kept_insert. apply of_option_ok in Hm. cbn in Hm |- *. by rewrite Hm.
  - unfold apply_eosio_updateauth in Hr. do 4 ok_bind Hr as [] _. ok_bind Hr as ac _. do 5 ok_bind Hr as [] _.
    ok_bind Hr as p _. ok_bind Hr as i _. destruct p as [p|].
    + ok_bind Hr as [] _. by apply add_ram_usage_frame in Hr as (_ & -> & _).
    + ok_bind Hr as [p a1] _. by apply add_ram_usage_frame in Hr as (_ & -> & _).
  - unfold apply_eosio_deleteauth in Hr. do 4 ok_bind Hr as [] _. ok_bind Hr as p _. ok_bind Hr as a1 _.
    by apply add_ram_usage_frame in Hr as (_ & -> & _).
  - unfold apply_eosio_linkauth in Hr. do 2 ok_bind Hr as [] _. do 2 ok_bind Hr as ? _. ok_bind Hr as [] _.
    destruct (links _ !! _).
    + ok_bind Hr as [] _. by apply (proj1 (Ok_inj _ _)) in Hr as <-.
    + by apply add_ram_usage_frame in Hr as (_ & -> & _).
  - unfold apply_eosio_unlinkauth in Hr. ok_bind Hr as [] _. ok_bind Hr as l _. ok_bind Hr as db1 H1.
    apply (proj1 (Ok_inj _ _)) in Hr as <-. by apply add_ram_usage_frame in H1 as (_ & <- & _).
Qed.

(** ** One receiver *)

Lemma note_changes_frame l c x : let '(d, y) := note_changes l c x in
  same_frame c d /\ _notified d = _notified c /\ _inline_actions d = _inline_actions c /\
  _cfa_inline_actions d = _cfa_inline_actions c /\ quiet x y /\ x_db y = x_db x.
Proof.
  unfold note_changes. revert c x. induction l as [|[a n] l IH]; intros c x; simpl; [by split_and!|].
  specialize (IH (note_ram_delta a n c) (if n >? 0 then add_validate_ram a x else x)).
  destruct (foldl _ _ l) as [d y]. destruct IH as (F & N1 & N2 & N3 & Q & D).
  split_and!; [etrans; [|exact F]; by split|by rewrite N1|by rewrite N2|by rewrite N3| |].
  - etrans; [|exact Q]. by destruct (n >? 0).
  - rewrite D. by destruct (n >? 0).
Qed.

Lemma apply_native_sent e c x d y : ctx_native c = true -> apply_native e c x = Ok (d, y) -> sent c x d y.
Proof.
  unfold apply_native. intros Hn Hr. destruct (act_name (a_act c) =? N_ "canceldelay").
  - destruct (act_data (a_act c)); try done. unfold apply_eosio_canceldelay in Hr. ok_bind Hr as [] _.
    ok_bind Hr as [[b c1] x1] H1. apply (proj1 (Ok_inj _ _)) in Hr. injection Hr as <- <-. by eapply cancel_deferred_sent.
  - ok_bind Hr as n _. ok_bind Hr as db Hdb. apply (proj1 (Ok_inj _ _)) in Hr.
    pose proof (note_changes_frame (ram_changes (res_db (x_db x)) (res_db db)) c (set_db x db)) as Hf.
    rewrite Hr in Hf. destruct Hf as (F & N1 & N2 & N3 & [Q1 Q2 Q3 _ _] & D).
    split; [done|done|done|congruence|rewrite D; by eapply native_metas| |by rewrite N1|].
    2: { intros a. unfold recv_count. rewrite D. by eapply native_metas. }
    exists [], [], [], []. rewrite !app_nil_r. split_and!; try done. intros o Ho. by apply not_elem_of_nil in Ho.
Qed.

Lemma apply_action_sent e c x d y : apply_action e c x = Ok (d, y) ->
  exists m, metas (x_db x) !! a_receiver c = Some m /\ sent (set_privilege c (is_privileged m)) x d y.
Proof.
  unfold apply_action. intros Hr. ok_bind Hr as m Hm. exists m. split.
  { unfold of_option in Hm. by destruct (_ !! _); [apply (proj1 (Ok_inj _ _)) in Hm as ->|]. }
  ok_bind Hr as [c1 x1] H1. ok_bind Hr as m1 Hm1. ok_bind Hr as [c2 x2] H2. ok_bind Hr as [] _.
  apply (proj1 (Ok_inj _ _)) in Hr. injection Hr as <- <-. apply (sent_trans _ _ c1 x1).
  - destruct (is_native_action _ _ _) eqn:En.
    + ok_bind H1 as [] _. by eapply apply_native_sent.
    + apply (proj1 (Ok_inj _ _)) in H1. injection H1 as <- <-. apply sent_refl.
  - destruct (runs_code e c1 m1).
    + ok_bind H2 as [] _. by eapply run_sent.
    + apply (proj1 (Ok_inj _ _)) in H2. injection H2 as <- <-. apply sent_refl.
Qed.

Lemma set_meta_quiet a (m m' : account_metadata_object) x : metas (x_db x) !! a = Some m -> recv_sequence m' = recv_sequence m ->
  quiet x (set_meta a m' x).
Proof. intros Hm E. split; try done; [cbn; by eapply dom_insert_known|]. intros a'. by apply (recv_insert _ _ a m m'). Qed.

Lemma option_found {A} (o : option A) msg (v : A) : of_option o msg = Ok v -> o = Some v.
Proof. apply of_option_ok. Qed.

Lemma auth_sequences_quiet l x s y : auth_sequences l x = Ok (s, y) -> quiet x y.
Proof.
  unfold auth_sequences. intros Hr. change y with (s, y).2. revert Hr.
  apply (mfold_inv (fun p => quiet x p.2)); [|done].
  intros [s1 x1] a [s2 x2] _ Q Hs. ok_bind Hs as [n x3] Hn. apply (proj1 (Ok_inj _ _)) in Hs. injection Hs as <- <-.
  unfold next_auth_sequence in Hn. ok_bind Hn as m Hm. apply (proj1 (Ok_inj _ _)) in Hn. injection Hn as <- <-.
  etrans; [exact Q|]. eapply set_meta_quiet; [by eapply option_found|done].
Qed.

Lemma make_receipt_spec e c x r y : make_receipt e c x = Ok (r, y) ->
  x_global y = u64 (x_global x + 1) /\ r_global_sequence r = u64 (x_global x + 1) /\ r_receiver r = a_receiver c /\
  x_traces y = x_traces x /\ x_executed y = x_executed x /\ dom (metas (x_db y)) = dom (metas (x_db x)) /\
  r_recv_sequence r = u64 (recv_count x (a_receiver c) + 1) /\
  (forall a, recv_count y a = if decide (a = a_receiver c) then r_recv_sequence r else recv_count x a).
Proof.
  unfold make_receipt, next_global_sequence. intros Hr. ok_bind Hr as [n x1] H1. ok_bind Hr as f _. ok_bind Hr as [s x2] H2.
  apply (proj1 (Ok_inj _ _)) in Hr. injection Hr as <- <-. apply auth_sequences_quiet in H2 as [Q1 Q2 Q3 Q4 Q5].
  unfold next_recv_sequence in H1. ok_bind H1 as m Hm. apply (proj1 (Ok_inj _ _)) in H1. injection H1 as <- <-.
  apply option_found in Hm. cbn [x_db set_global] in Hm. rewrite Q1, Q2, Q3, Q4. cbn [r_recv_sequence].
  assert (E : recv_count x (a_receiver c) = recv_sequence m) by (unfold recv_count; by rewrite Hm).
  split_and!; try done; [cbn; by eapply dom_insert_known|by rewrite E|]. intros a. rewrite Q5. unfold recv_count. cbn.
  destruct (decide (a = a_receiver c)) as [->|]; [by rewrite lookup_insert_eq|by rewrite lookup_insert_ne].
Qed.

(** The trace with its receipt. *)
Definition executed_trace t (r : action_receipt) (deltas : gmap Z Z) : trace :=
  mk_trace (at_ordinal t) (at_creator t) (at_ancestor t) (Some r) (at_receiver t) (at_act t) (at_context_free t) deltas.

Lemma exec_one_spec e c x d y : exec_one e c x = Ok (d, y) ->
  exists m c1 x1 r t,
    metas (x_db x) !! a_receiver c = Some m /\ sent (set_privilege c (is_privileged m)) x c1 x1 /\
    d = set_act_deltas c1 ∅ /\ (1 <= action_ordinal c)%nat /\ x_traces x1 !! pred (action_ordinal c) = Some t /\
    x_traces y = <[pred (action_ordinal c) := executed_trace t r (a_ram_deltas c1)]> (x_traces x1) /\
    x_executed y = x_executed x ++ [r] /\ r_global_sequence r = u64 (x_global x + 1) /\
    x_global y = u64 (x_global x + 1) /\ r_receiver r = a_receiver c /\
    (ctx_native c = false -> dom (metas (x_db y)) = dom (metas (x_db x))) /\
    dom (metas (x_db x)) ⊆ dom (metas (x_db y)) /\
    r_recv_sequence r = u64 (recv_count x (a_receiver c) + 1) /\
    (forall a, recv_count y a = if decide (a = a_receiver c) then r_recv_sequence r else recv_count x a).
Proof.
  unfold exec_one. intros Hr. ok_bind Hr as [c1 x1] H1. ok_bind Hr as [r x2] H2. unfold finalize_trace in Hr.
  ok_bind Hr as t Ht. apply (proj1 (Ok_inj _ _)) in Hr. injection Hr as <- <-.
  apply apply_action_sent in H1 as (m & Hm & Hs). apply make_receipt_spec in H2 as (G & R & V & T & E & D & N & K).
  pose proof Hs as [F G1 E1 D1 L1 _ _ K1]. destruct F as [_ F1 F2 _ _ _]. cbn in F1, F2. unfold get_action_trace in Ht. rewrite F1, T in *.
  exists m, c1, x1, r, t. destruct (action_ordinal c) as [|o] eqn:Eo; [done|]. apply option_found in Ht. cbn [pred].
  split_and!; try done; [lia|..].
  - cbn. by rewrite T.
  - cbn. by rewrite E, E1.
  - by rewrite R, G1.
  - cbn. by rewrite G, G1.
  - by rewrite V, F2.
  - intros Hn. cbn. rewrite D. by apply D1.
  - cbn. by rewrite D.
  - by rewrite N, K1, F2.
  - intros a. change (recv_count _ a) with (recv_count x2 a) at 1. rewrite K, F2, K1. done.
Qed.

(** ** Executing traces *)

(** What is fixed when a trace is created. *)
Definition core t := (at_ordinal t, at_creator t, at_ancestor t, at_receiver t, at_act t, at_context_free t).

(** The traces with the ordinals [os] are executed, in this order: each gets
    its receipt, and the receipts get consecutive sequence numbers, both
    globally and for each receiver. *)
Definition times_received (a : Z) (rs : list action_receipt) : Z := Z.of_nat (length (filter (fun r => r_receiver r = a) rs)).

Record executes (os : list nat) x y : Prop := {
  ex_len : (length (x_traces x) <= length (x_traces y))%nat;
  ex_range : forall o, o ∈ os -> (1 <= o <= length (x_traces y))%nat;
  ex_old : forall i, (i < length (x_traces x))%nat -> S i ∉ os -> x_traces y !! i = x_traces x !! i;
  ex_core : forall i t, x_traces x !! i = Some t -> exists t', x_traces y !! i = Some t' /\ core t' = core t;
  ex_receipts : exists rs, x_executed y = x_executed x ++ rs /\
    Forall2 (fun o r => exists t, x_traces y !! pred o = Some t /\ at_receipt t = Some r) os rs /\
    (forall i r, rs !! i = Some r -> r_global_sequence r = u64 (x_global x + 1 + Z.of_nat i)) /\
    (forall i r, rs !! i = Some r ->
       r_recv_sequence r = u64 (recv_count x (r_receiver r) + 1 + times_received (r_receiver r) (take i rs))) /\
    (forall a, u64 (recv_count y a) = u64 (recv_count x a + times_received a rs));
  ex_global : x_global y = u64 (x_global x + Z.of_nat (length os)) }.

Lemma executes_nil x : is_u64 (x_global x) -> executes [] x x.
Proof.
  intros Hg. split; [lia|by intros o ?%not_elem_of_nil|done|eauto| |].
  - exists []. rewrite app_nil_r. split_and!; [done|constructor|done|done|]. intros a. cbn. by rewrite Z.add_0_r.
  - cbn. by rewrite Z.add_0_r, u64_small.
Qed.

Lemma u64_add a b : u64 (u64 a + b) = u64 (a + b).
Proof. unfold u64. by rewrite Z.add_mod_idemp_l. Qed.

Lemma times_received_app a l1 l2 : times_received a (l1 ++ l2) = times_received a l1 + times_received a l2.
Proof. unfold times_received. rewrite filter_app, length_app. lia. Qed.

Lemma executes_app os1 os2 x y z : executes os1 x y -> executes os2 y z -> (forall o, o ∈ os1 -> o ∉ os2) ->
  executes (os1 ++ os2) x z.
Proof.
  intros [L1 R1 O1 C1 (rs1 & E1 & F1 & S1 & V1 & Q1) G1] [L2 R2 O2 C2 (rs2 & E2 & F2 & S2 & V2 & Q2) G2] Hd. split.
  - lia.
  - intros o [Ho|Ho]%elem_of_app; [specialize (R1 o Ho); lia|by apply R2].
  - intros i Hi Hn. rewrite O2; [|lia|set_solver]. apply O1; [done|set_solver].
  - intros i t Ht. destruct (C1 i t Ht) as (t1 & Ht1 & K1). destruct (C2 i t1 Ht1) as (t2 & Ht2 & K2).
    exists t2. split; [done|congruence].
  - exists (rs1 ++ rs2). split_and!.
    + by rewrite E2, E1, app_assoc.
    + apply Forall2_app; [|done]. apply Forall2_same_length_lookup. split; [by eapply Forall2_length|].
      intros i o r Ho Hr. destruct (Forall2_lookup_lr _ _ _ _ _ _ F1 Ho Hr) as (t & Ht & Hrt). exists t. split; [|done].
      apply list_elem_of_lookup_2 in Ho. specialize (R1 o Ho). rewrite O2; [done|lia|]. replace (S (pred o)) with o by lia. by apply Hd.
    + intros i r [Hr|[Hi Hr]]%lookup_app_Some; [by apply S1|]. rewrite (S2 _ _ Hr), G1.
      rewrite <- Z.add_assoc, u64_add. f_equal. apply Forall2_length in F1. lia.
    + intros i r [Hr|[Hi Hr]]%lookup_app_Some.
      * rewrite take_app_le; [by apply V1|]. apply lookup_lt_Some in Hr. lia.
      * rewrite (V2 _ _ Hr), take_app_ge, times_received_app, <- Z.add_assoc, <- u64_add, Q1, u64_add by lia. f_equal. lia.
    + intros a. rewrite Q2, <- u64_add, Q1, u64_add, times_received_app. f_equal. lia.
  - rewrite G2, G1, u64_add, length_app. f_equal. lia.
Qed.

(** ** From context to context *)

(** The ordinals of the traces that are in [y] and not in [x]. *)
Definition fresh_ordinals x y : list nat := seq (S (length (x_traces x))) (length (x_traces y) - length (x_traces x)).

Lemma fresh_trans x y z : (length (x_traces x) <= length (x_traces y))%nat -> (length (x_traces y) <= length (x_traces z))%nat ->
  fresh_ordinals x z = fresh_ordinals x y ++ fresh_ordinals y z.
Proof.
  intros H1 H2. unfold fresh_ordinals.
  replace (length (x_traces z) - length (x_traces x))%nat with
    ((length (x_traces y) - length (x_traces x)) + (length (x_traces z) - length (x_traces y)))%nat by lia.
  rewrite seq_app. do 2 f_equal. lia.
Qed.

Lemma elem_of_fresh x y o : o ∈ fresh_ordinals x y ->
  (length (x_traces x) < o)%nat /\ (o <= length (x_traces y))%nat.
Proof. unfold fresh_ordinals. rewrite elem_of_seq. lia. Qed.

(** From context [c] the ordinals [os] are executed, and what is queued on the
    way is fresh. *)
Record stepped (os : list nat) c x d y : Prop := {
  st_exec : executes os x y;
  st_act : a_act d = a_act c;
  st_queue : exists ns inl cfa,
    _notified d = _notified c ++ ns /\ _inline_actions d = _inline_actions c ++ inl /\
    _cfa_inline_actions d = _cfa_inline_actions c ++ cfa /\ ns.*2 ++ cfa ++ inl ≡ₚ fresh_ordinals x y /\
    (forall o, o ∈ cfa ++ inl -> exists t, x_traces y !! pred o = Some t /\ at_receiver t = act_account (at_act t));
  st_recipients : NoDup (_notified c).*1 -> NoDup (_notified d).*1 }.

Lemma core_receiver t t' : core t' = core t -> at_receiver t = act_account (at_act t) -> at_receiver t' = act_account (at_act t').
Proof. unfold core. intros [= ? ? ? -> -> ?]. done. Qed.

Lemma stepped_trans os1 os2 c x c1 x1 c2 x2 : stepped os1 c x c1 x1 -> stepped os2 c1 x1 c2 x2 ->
  (forall o, o ∈ os1 -> o ∉ os2) -> stepped (os1 ++ os2) c x c2 x2.
Proof.
  intros [X1 A1 (ns & il & cf & N1 & I1 & C1 & P1 & R1) D1] [X2 A2 (ns' & il' & cf' & N2 & I2 & C2 & P2 & R2) D2] Hd.
  split; [by eapply executes_app|congruence| |tauto].
  exists (ns ++ ns'), (il ++ il'), (cf ++ cf'). rewrite N2, N1, I2, I1, C2, C1, <- !app_assoc. split_and!; [done..| |].
  - rewrite (fresh_trans x x1 x2) by (apply X1 || apply X2). rewrite <- P1, <- P2, fmap_app. solve_Permutation.
  - intros o Ho. assert (o ∈ cf ++ il \/ o ∈ cf' ++ il') as [Ho'|Ho'] by set_solver; [|by apply R2].
    destruct (R1 o Ho') as (t & Ht & Hr). destruct (ex_core _ _ _ X2 _ _ Ht) as (t' & Ht' & K).
    exists t'. split; [done|]. by eapply core_receiver.
Qed.

Lemma exec_one_stepped e c x d y : exec_one e c x = Ok (d, y) -> (action_ordinal c <= length (x_traces x))%nat ->
  stepped [action_ordinal c] c x d y.
Proof.
  intros Hx Ho. apply exec_one_spec in Hx as (m & c1 & x1 & r & t & Hm & Hs & -> & Ho1 & Ht & Tr & Ex & Rg & Gl & Rr & _ & _ & Rv & Rk).
  destruct Hs as [F _ _ _ _ (ns & il & cf & new & A1 & A2 & A3 & A4 & P & N & R) ND _]. cbn in A1, A2, A3, ND.
  assert (Len : length (x_traces y) = (length (x_traces x) + length new)%nat) by (by rewrite Tr, length_insert, A4, length_app).
  split.
  - split.
    + lia.
    + intros o ->%list_elem_of_singleton. lia.
    + intros i Hi Hn. rewrite Tr, list_lookup_insert_ne, A4, lookup_app_l; [done|done|]. intros <-. apply Hn.
      apply list_elem_of_singleton. lia.
    + intros i t0 Ht0. rewrite Tr. destruct (decide (i = pred (action_ordinal c))) as [->|Hne].
      * rewrite list_lookup_insert_eq by (rewrite A4, length_app; lia). eexists. split; [done|].
        rewrite A4, lookup_app_l, Ht0 in Ht by lia. injection Ht as ->. done.
      * rewrite list_lookup_insert_ne by done. exists t0. split; [|done]. rewrite A4. by apply lookup_app_l_Some.
    + exists [r]. split; [done|]. split; [|split; [|split]].
      * apply Forall2_cons. split; [|constructor]. eexists. rewrite Tr.
        split; [by rewrite list_lookup_insert_eq by (rewrite A4, length_app; lia)|done].
      * intros [|i] r' Hr; [|done]. injection Hr as <-. rewrite Rg. f_equal. lia.
      * intros [|i] r' Hr; [|done]. injection Hr as <-. rewrite Rv, Rr. f_equal. unfold times_received. cbn [take]. rewrite filter_nil. cbn. lia.
      * intros a. rewrite Rk. unfold times_received. rewrite filter_cons, Rr. destruct (decide (a = a_receiver c)) as [->|Hne].
        -- rewrite decide_True, Rv by done. cbn. rewrite u64_small by apply u64_range. done.
        -- rewrite decide_False by congruence. cbn. by rewrite Z.add_0_r.
    + rewrite Gl. f_equal.
  - apply F.
  - exists ns, il, cf. cbn. split_and!; [done..| |].
    + rewrite P. unfold fresh_ordinals. by replace (length (x_traces y) - length (x_traces x))%nat with (length new) by lia.
    + intros o Ho'. destruct (R o Ho') as (t1 & Ht1 & K). rewrite Tr.
      destruct (decide (pred o = pred (action_ordinal c))) as [E|Hne].
      * rewrite E. rewrite list_lookup_insert_eq by (rewrite A4, length_app; lia). eexists. split; [done|].
        rewrite E, Ht in Ht1. by injection Ht1 as ->.
      * rewrite list_lookup_insert_ne by done. by exists t1.
  - exact ND.
Qed.

(** ** The notifications *)

(** The ordinals of the notified are distinct and exist. *)
Definition notified_ok c x : Prop :=
  NoDup (_notified c).*2 /\ forall o, o ∈ (_notified c).*2 -> (1 <= o <= length (x_traces x))%nat.

Lemma notified_ok_step os c x d y : stepped os c x d y -> notified_ok c x -> notified_ok d y.
Proof.
  intros [X _ (ns & il & cf & N & _ & _ & P & _) _] [Hnd Hr]. unfold notified_ok. rewrite N, fmap_app.
  assert (Hin : forall o, o ∈ ns.*2 -> (length (x_traces x) < o)%nat /\ (o <= length (x_traces y))%nat).
  { intros o Ho. apply elem_of_fresh. rewrite <- P. set_solver. }
  assert (NoDup ns.*2) as Hns.
  { assert (NoDup (ns.*2 ++ cf ++ il)) as [Hn _]%NoDup_app by (rewrite P; apply NoDup_seq). done. }
  pose proof (ex_len _ _ _ X). split.
  - apply NoDup_app. split_and!; [done| |done]. intros o Ho Ho'. specialize (Hr o Ho). specialize (Hin o Ho'). lia.
  - intros o [Ho|Ho]%elem_of_app; [specialize (Hr o Ho); lia|specialize (Hin o Ho); lia].
Qed.

Lemma exec_notified_stepped fuel e i c x d y :
  exec_notified fuel e i c x = Ok (d, y) -> is_u64 (x_global x) -> notified_ok c x ->
  stepped (drop i (_notified d)).*2 c x d y.
Proof.
  revert i c x. induction fuel as [|fuel IH]; intros i c x Hx Hg Hn; cbn [exec_notified] in Hx;
    destruct (_notified c !! i) as [[r o]|] eqn:Ei; try done.
  1,3: apply (proj1 (Ok_inj _ _)) in Hx; injection Hx as <- <-; rewrite drop_ge by (by apply lookup_ge_None);
    split; [by apply executes_nil|done| |done]; exists [], [], []; rewrite !app_nil_r; split_and!; try done;
    [unfold fresh_ordinals; by rewrite Nat.sub_diag|by intros o' ?%not_elem_of_nil].
  ok_bind Hx as [c1 x1] H1.
  assert (Ho : (1 <= o <= length (x_traces x))%nat).
  { apply Hn. apply list_elem_of_fmap. exists (r, o). split; [done|]. by eapply list_elem_of_lookup_2. }
  apply exec_one_stepped in H1; [|cbn; lia]. cbn [action_ordinal set_notified_receiver] in H1.
  assert (H1' : stepped [o] c x c1 x1) by (destruct H1 as [? ? ? ?]; by split).
  apply IH in Hx; [|rewrite (ex_global _ _ _ (st_exec _ _ _ _ _ H1')); apply u64_range|by eapply notified_ok_step].
  pose proof (notified_ok_step _ _ _ _ _ H1' Hn) as Hn1. pose proof (notified_ok_step _ _ _ _ _ Hx Hn1) as [Hnd _].
  destruct (st_queue _ _ _ _ _ H1') as (ns & _ & _ & N1 & _). destruct (st_queue _ _ _ _ _ Hx) as (ns' & _ & _ & N2 & _).
  assert (Ed : _notified d !! i = Some (r, o)).
  { rewrite N2, N1, <- app_assoc. by apply lookup_app_l_Some. }
  apply drop_S in Ed as Ed'. rewrite Ed', fmap_cons. change ((r, o).2 :: ?l) with ([o] ++ l).
  apply (stepped_trans _ _ _ _ c1 x1); [done|done|]. intros o' ->%list_elem_of_singleton Hin.
  rewrite <- (take_drop i (_notified d)), Ed', fmap_app, fmap_cons in Hnd. apply NoDup_app in Hnd as (_ & _ & Hnd).
  apply NoDup_cons in Hnd as [Hnd _]. done.
Qed.

(** ** Actions and what they send *)

(** [step] executes its trace and every trace it adds. *)
Definition complete (step : xstate -> nat -> result xstate) : Prop := forall o x y,
  step x o = Ok y -> is_u64 (x_global x) -> exists os, executes os x y /\ os ≡ₚ o :: fresh_ordinals x y.

Lemma complete_mfold step l x y : complete step -> mfold step l x = Ok y -> is_u64 (x_global x) -> NoDup l ->
  (forall o, o ∈ l -> (o <= length (x_traces x))%nat) ->
  exists os, executes os x y /\ os ≡ₚ l ++ fresh_ordinals x y.
Proof.
  intros Hs. revert x. induction l as [|o l IH]; intros x Hx Hg Hnd Hl; cbn [mfold] in Hx.
  - apply (proj1 (Ok_inj _ _)) in Hx as <-. exists []. split; [by apply executes_nil|].
    unfold fresh_ordinals. by rewrite Nat.sub_diag.
  - ok_bind Hx as x1 H1. apply NoDup_cons in Hnd as [Hno Hnd]. destruct (Hs _ _ _ H1 Hg) as (os1 & X1 & P1).
    pose proof (ex_len _ _ _ X1) as Len1.
    destruct (IH x1 Hx) as (os2 & X2 & P2); [rewrite (ex_global _ _ _ X1); apply u64_range|done| |].
    { intros p Hp. etrans; [apply Hl; by right|done]. }
    exists (os1 ++ os2). split.
    + eapply executes_app; [exact X1|exact X2|]. intros p Hp Hp'. rewrite P1 in Hp. rewrite P2 in Hp'.
      pose proof (Hl o ltac:(by left)). pose proof (ex_range _ _ _ X1 o ltac:(rewrite P1; by left)).
      apply elem_of_app in Hp' as [Hp'|Hp']; [pose proof (Hl p ltac:(by right))|apply elem_of_fresh in Hp'];
        (apply elem_of_cons in Hp as [->|Hp]; [(by destruct Hno) || lia|apply elem_of_fresh in Hp; lia]).
    + rewrite P1, P2, (fresh_trans x x1 y) by (apply X1 || apply X2). solve_Permutation.
Qed.

Lemma new_context_ok ordinal x c : new_context ordinal x = Ok c ->
  exists t, (1 <= ordinal)%nat /\ x_traces x !! pred ordinal = Some t /\ _notified c = [(at_receiver t, ordinal)] /\
    _inline_actions c = [] /\ _cfa_inline_actions c = [] /\ action_ordinal c = ordinal /\
    a_receiver c = at_receiver t /\ a_act c = at_act t.
Proof.
  unfold new_context, get_action_trace. intros Hr. ok_bind Hr as t Ht. apply (proj1 (Ok_inj _ _)) in Hr as <-.
  destruct ordinal as [|o]; [done|]. apply option_found in Ht. exists t. split_and!; try done. lia.
Qed.

(** The context after the action and its notifications, and what is queued. *)
Lemma exec_receivers_stepped e ordinal x c c1 x1 c2 x2 fuel :
  new_context ordinal x = Ok c -> exec_one e c x = Ok (c1, x1) -> exec_notified fuel e 1 c1 x1 = Ok (c2, x2) ->
  is_u64 (x_global x) ->
  exists ns, executes (ordinal :: ns) x x2 /\ ns ++ _cfa_inline_actions c2 ++ _inline_actions c2 ≡ₚ fresh_ordinals x x2 /\
    (forall o, o ∈ _cfa_inline_actions c2 ++ _inline_actions c2 ->
       exists t, x_traces x2 !! pred o = Some t /\ at_receiver t = act_account (at_act t)).
Proof.
  intros Hc H1 H2 Hg. apply new_context_ok in Hc as (t & Ho & Ht & N0 & I0 & C0 & E0 & _).
  apply lookup_lt_Some in Ht as Hlt. apply exec_one_stepped in H1; [|rewrite E0; lia]. rewrite E0 in H1.
  assert (Hok : notified_ok c x).
  { unfold notified_ok. rewrite N0. split; [apply NoDup_singleton|]. intros o ->%list_elem_of_singleton. cbn. lia. }
  pose proof (notified_ok_step _ _ _ _ _ H1 Hok) as Hok1.
  apply exec_notified_stepped in H2; [|rewrite (ex_global _ _ _ (st_exec _ _ _ _ _ H1)); apply u64_range|done].
  pose proof (notified_ok_step _ _ _ _ _ H2 Hok1) as [Hnd _].
  destruct (st_queue _ _ _ _ _ H1) as (ns1 & _ & _ & N1 & _). destruct (st_queue _ _ _ _ _ H2) as (ns2 & _ & _ & N2 & _).
  assert (Ed : _notified c2 = (at_receiver t, ordinal) :: drop 1 (_notified c2)).
  { rewrite N2, N1, N0. done. }
  assert (H3 : stepped ([ordinal] ++ (drop 1 (_notified c2)).*2) c x c2 x2).
  { eapply stepped_trans; [exact H1|exact H2|]. intros o ->%list_elem_of_singleton. rewrite Ed, fmap_cons in Hnd.
    apply NoDup_cons in Hnd as [Hnd _]. done. }
  destruct H3 as [X3 _ (ns & il & cf & N3 & I3 & C3 & P3 & R3) _]. rewrite I0 in I3. rewrite C0 in C3. cbn in I3, C3.
  exists (drop 1 (_notified c2)).*2. split; [done|]. rewrite I3, C3. split; [|done].
  rewrite <- P3. rewrite N3, N0. done.
Qed.

Lemma execute_action_complete levels e : complete (fun x o => execute_action levels e o x).
Proof.
  induction levels as [|levels IH]; intros o x y Hx Hg; cbn [execute_action] in Hx;
    ok_bind Hx as c Hc; ok_bind Hx as [c1 x1] H1; ok_bind Hx as [c2 x2] H2;
    destruct (exec_receivers_stepped _ _ _ _ _ _ _ _ _ Hc H1 H2 Hg) as (ns & X & P & _).
  - destruct (_cfa_inline_actions c2 ++ _inline_actions c2); [|done]. apply (proj1 (Ok_inj _ _)) in Hx as <-.
    exists (o :: ns). split; [done|]. by rewrite <- P, app_nil_r.
  - assert (exists os, executes os x2 y /\ os ≡ₚ (_cfa_inline_actions c2 ++ _inline_actions c2) ++ fresh_ordinals x2 y)
      as (os & X2 & P2).
    { assert (Hr : forall p, p ∈ _cfa_inline_actions c2 ++ _inline_actions c2 -> (p <= length (x_traces x2))%nat).
      { intros p Hp. assert (Hf : p ∈ fresh_ordinals x x2) by (rewrite <- P; set_solver). apply elem_of_fresh in Hf. lia. }
      assert (Hnd : NoDup (_cfa_inline_actions c2 ++ _inline_actions c2)).
      { assert (NoDup (ns ++ _cfa_inline_actions c2 ++ _inline_actions c2)) as (_ & _ & Hn)%NoDup_app
          by (rewrite P; apply NoDup_seq). done. }
      apply (complete_mfold (fun x o => execute_action levels e o x)); [exact IH| |rewrite (ex_global _ _ _ X); apply u64_range|done|done].
      destruct (_cfa_inline_actions c2 ++ _inline_actions c2); [|done]. done. }
    exists ((o :: ns) ++ os). split.
    + eapply executes_app; [exact X|exact X2|]. intros p Hp Hp'. pose proof (ex_range _ _ _ X p Hp) as Hle.
      rewrite P2 in Hp'. apply elem_of_app in Hp' as [Hp'|Hp'].
      * assert (Hf : p ∈ fresh_ordinals x x2) by (rewrite <- P; set_solver). apply elem_of_fresh in Hf as [Hf _].
        apply new_context_ok in Hc as (t & _ & Ht & _). apply lookup_lt_Some in Ht.
        apply elem_of_cons in Hp as [->|Hp]; [lia|].
        assert (NoDup (ns ++ _cfa_inline_actions c2 ++ _inline_actions c2)) as (_ & Hn & _)%NoDup_app
          by (rewrite P; apply NoDup_seq). by apply (Hn p).
      * apply elem_of_fresh in Hp'. lia.
    + rewrite P2, (fresh_trans x x2 y), <- P by (apply X || apply X2). solve_Permutation.
Qed.

(** ** Transactions *)

Lemma schedule_all_spec cf (l : list chain_action) x : let y := schedule_all cf l x in
  length (x_traces y) = (length (x_traces x) + length l)%nat /\ x_global y = x_global x /\ x_executed y = x_executed x /\
  x_db y = x_db x /\ (forall i a, l !! i = Some a -> x_traces y !! (length (x_traces x) + i)%nat =
     Some (mk_trace (S (length (x_traces x) + i)) 0 0 None (act_account a) a cf ∅)) /\
  (forall i, (i < length (x_traces x))%nat -> x_traces y !! i = x_traces x !! i).
Proof.
  unfold schedule_all. revert x. induction l as [|a l IH]; intros x; simpl.
  { split_and!; try done; lia. }
  destruct (IH (schedule_action a (act_account a) cf 0 0 x).2) as (L & G & E & D & T & O).
  unfold schedule_action in *. cbn [snd x_traces set_traces x_global x_executed x_db] in *. rewrite length_app in *. cbn [length] in *.
  split_and!; [rewrite L; lia|done|done|done| |].
  - intros [|i] b Hb; cbn in Hb.
    + injection Hb as <-. rewrite Nat.add_0_r, O by lia. rewrite lookup_app_r, Nat.sub_diag by lia. done.
    + specialize (T i b Hb). replace (length (x_traces x) + S i)%nat with (length (x_traces x) + 1 + i)%nat by lia. done.
  - intros i Hi. rewrite O, lookup_app_l by lia. done.
Qed.

Lemma schedule_transaction_quiet e (t : transaction) delay x y : schedule_transaction e t delay x = Ok y -> quiet x y.
Proof.
  unfold schedule_transaction. intros Hr. ok_bind Hr as x1 H1. ok_bind Hr as l _. ok_bind Hr as r _.
  apply (proj1 (Ok_inj _ _)) in Hr as <-. transitivity x1.
  - destruct (delay_sec t =? 0); [|by apply (proj1 (Ok_inj _ _)) in H1 as <-].
    ok_bind H1 as n _. by apply (proj1 (Ok_inj _ _)) in H1 as <-.
  - by destruct (_ >? 0).
Qed.

(** Every action of a transaction that goes through is executed exactly once:
    those it contains, those that were sent inline, however deep, and the
    notifications.  The receipts are those of the traces, in the order of
    execution, and carry consecutive sequence numbers, globally and for each
    account that received actions, going on from those of the state. (C5) *)
Theorem every_action_executes_once e (t : transaction) apply_context_free delay x y :
  exec_transaction e t apply_context_free delay x = Ok y -> x_traces x = [] -> is_u64 (x_global x) ->
  exists os rs, os ≡ₚ seq 1 (length (x_traces y)) /\ x_executed y = x_executed x ++ rs /\
    Forall2 (fun o r => exists t, x_traces y !! pred o = Some t /\ at_receipt t = Some r) os rs /\
    (forall i r, rs !! i = Some r -> r_global_sequence r = u64 (x_global x + 1 + Z.of_nat i)) /\
    x_global y = u64 (x_global x + Z.of_nat (length rs)) /\
    (forall i r, rs !! i = Some r ->
       r_recv_sequence r = u64 (recv_count x (r_receiver r) + 1 + times_received (r_receiver r) (take i rs))) /\
    (forall a, u64 (recv_count y a) = u64 (recv_count x a + times_received a rs)).
Proof.
  unfold exec_transaction. intros Hx Hnil Hg.
  set (x1 := if apply_context_free then schedule_all true (trx_context_free_actions t) x else x) in *.
  set (x2 := if delay =? 0 then schedule_all false (trx_actions t) x1 else x1) in *.
  assert (H1 : x_global x1 = x_global x /\ x_executed x1 = x_executed x /\ x_db x1 = x_db x).
  { unfold x1. destruct apply_context_free; [|done].
    by destruct (schedule_all_spec true (trx_context_free_actions t) x) as (_ & ? & ? & ? & _). }
  assert (x_global x2 = x_global x /\ x_executed x2 = x_executed x /\ x_db x2 = x_db x) as (G2 & E2 & D2).
  { unfold x2. destruct H1 as (<- & <- & <-). destruct (delay =? 0); [|done].
    by destruct (schedule_all_spec false (trx_actions t) x1) as (_ & ? & ? & ? & _). }
  assert (V2 : forall a, recv_count x2 a = recv_count x a) by (intros a; unfold recv_count; by rewrite D2).
  ok_bind Hx as x3 H3.
  assert (Hq : quiet x3 y).
  { destruct (delay =? 0); [by apply (proj1 (Ok_inj _ _)) in Hx as <-|by eapply schedule_transaction_quiet]. }
  apply (complete_mfold (fun x o => execute_action _ e o x)) in H3 as (os & X & P).
  - destruct X as [L _ _ _ (rs & Ex & F & S & V & K) Gl]. destruct Hq as [Q1 Q2 Q3 _ Q5].
    exists os, rs. rewrite Q1, Q2, Q3, Ex, E2. rewrite <- G2. split_and!; try done.
    + rewrite P. unfold fresh_ordinals. rewrite <- seq_app. by rewrite Nat.add_comm, Nat.sub_add by lia.
    + rewrite Gl. do 2 f_equal. f_equal. by eapply Forall2_length.
    + intros i r Hr. rewrite <- V2. by apply V.
    + intros a. rewrite Q5, <- V2. apply K.
  - apply execute_action_complete.
  - by rewrite G2.
  - apply NoDup_seq.
  - intros o Ho. apply elem_of_seq in Ho. lia.
Qed.
End Spec.

(** ** The loop over the notified accounts ends *)

Section Fuel.
Context {boost : Boost} {key : Type} `{PublicKey key} {W : Type}.
#[local] Abbreviation xenv := (xenv (key := key) (W := W)).
#[local] Abbreviation xstate := (xstate (key := key) (W := W)).
#[local] Abbreviation actx := (actx (key := key)).
Implicit Types (e : xenv) (x y : xstate) (c d : actx).

(** The first [i] of the notified have executed the action, the first of them
    as its own account. *)
Record notifying (i : nat) c x : Prop := {
  nf_distinct : NoDup (_notified c).*1;
  nf_first : exists o, _notified c !! 0%nat = Some (act_account (a_act c), o);
  nf_done : forall r, r ∈ take i (_notified c).*1 -> r ∈ dom (metas (x_db x));
  nf_pos : (1 <= i <= length (_notified c))%nat }.

Lemma distinct_bound (l : list Z) (m : gmap Z account_metadata_object) : NoDup l -> (forall r, r ∈ l -> r ∈ dom m) ->
  (length l <= size m)%nat.
Proof.
  intros Hnd Hin. rewrite <- size_dom, <- (size_list_to_set (C := gset Z) l) by done. apply subseteq_size. set_solver.
Qed.

Lemma notifying_bound i c x : notifying i c x -> (i <= size (metas (x_db x)))%nat.
Proof.
  intros [Hnd _ Hin Hp]. replace i with (length (take i (_notified c).*1)) at 1
    by (rewrite length_take, length_fmap; lia).
  apply distinct_bound; [|done]. rewrite <- (take_drop i) in Hnd. by apply NoDup_app in Hnd as [? _].
Qed.

(** A notified account is not the account of the action. *)
Lemma notified_not_native i c x r o : notifying i c x -> _notified c !! i = Some (r, o) ->
  ctx_native (set_notified_receiver c r o) = false.
Proof.
  intros [Hnd (o0 & H0) _ Hp] Hi. apply not_true_iff_false. unfold ctx_native, is_native_action. cbn.
  rewrite !andb_true_iff, !Z.eqb_eq. intros [[-> E] _].
  assert (0%nat = i); [|lia].
  apply (NoDup_lookup (_notified c).*1 0 i (act_account (a_act c))); [done| |]; rewrite list_lookup_fmap.
  - by rewrite H0.
  - rewrite Hi. cbn. by rewrite E.
Qed.

Lemma notifying_step e i c x r o d y : notifying i c x -> _notified c !! i = Some (r, o) ->
  exec_one e (set_notified_receiver c r o) x = Ok (d, y) ->
  notifying (S i) d y /\ dom (metas (x_db y)) = dom (metas (x_db x)).
Proof.
  intros Hn Hi Hx. pose proof (notified_not_native _ _ _ _ _ Hn Hi) as Hnn.
  apply exec_one_spec in Hx as (m & c1 & x1 & rc & t & Hm & Hs & -> & _ & _ & _ & _ & _ & _ & _ & D & _). specialize (D Hnn).
  destruct Hs as [F _ _ _ _ (ns & il & cf & new & A1 & _) ND _]. destruct Hn as [Hnd (o0 & H0) Hin Hp]. cbn in A1, ND, Hm.
  apply lookup_lt_Some in Hi as Hlt. split; [|done]. split; cbn.
  - by apply ND.
  - exists o0. rewrite A1, (sf_act _ _ F). cbn. by apply lookup_app_l_Some.
  - intros r'. rewrite A1, fmap_app, take_app_le by (rewrite length_fmap; lia). rewrite D.
    rewrite (take_S_r _ _ r) by (by rewrite list_lookup_fmap, Hi). intros [Hr|Hr]%elem_of_app; [by apply Hin|].
    apply list_elem_of_singleton in Hr as ->. by apply elem_of_dom_2 in Hm.
  - rewrite A1, length_app. lia.
Qed.

(** The loop as it is written, without fuel: from round [i] on it takes [n]
    rounds, and ends because nobody is left, or with an exception. *)
Inductive rounds e : nat -> nat -> actx -> xstate -> result (actx * xstate) -> Prop :=
| rounds_end i c x : _notified c !! i = None -> rounds e 0 i c x (Ok (c, x))
| rounds_throw i c x r o msg : _notified c !! i = Some (r, o) ->
    exec_one e (set_notified_receiver c r o) x = Err msg -> rounds e 1 i c x (Err msg)
| rounds_next n i c x r o d y res : _notified c !! i = Some (r, o) ->
    exec_one e (set_notified_receiver c r o) x = Ok (d, y) -> rounds e n (S i) d y res -> rounds e (S n) i c x res.

Lemma rounds_exist f e i c x : notifying i c x -> (size (metas (x_db x)) < f + i)%nat ->
  exists n res, rounds e n i c x res /\ (n + i <= S (size (metas (x_db x))))%nat /\
    forall fuel, (size (metas (x_db x)) < fuel + i)%nat -> exec_notified fuel e i c x = res.
Proof.
  revert i c x. induction f as [|f IH]; intros i c x Hn Hf; pose proof (notifying_bound _ _ _ Hn) as Hb; [lia|].
  destruct (_notified c !! i) as [[r o]|] eqn:Ei.
  2: { exists 0%nat, (Ok (c, x)). split_and!; [by constructor|lia|]. intros [|fuel] _; cbn [exec_notified]; by rewrite Ei. }
  destruct (exec_one e (set_notified_receiver c r o) x) as [[d y]|msg] eqn:Ex.
  2: { exists 1%nat, (Err msg). split_and!; [by eapply rounds_throw|lia|]. intros [|fuel] Hl; [lia|]. cbn [exec_notified]. by rewrite Ei, Ex. }
  destruct (notifying_step _ _ _ _ _ _ _ _ Hn Ei Ex) as [Hn' D].
  assert (size (metas (x_db y)) = size (metas (x_db x))) as E by (rewrite <- !(size_dom (D := gset Z)); by rewrite D).
  destruct (IH (S i) d y Hn') as (n & res & Hr & Hl & Hfuel); [lia|]. exists (S n), res.
  split_and!; [by eapply rounds_next|lia|]. intros [|fuel] Hlt; [lia|]. cbn [exec_notified]. rewrite Ei, Ex.
  cbn [mbind result_bind]. apply Hfuel. lia.
Qed.

Lemma first_notifying e o x c t d y : new_context o x = Ok c -> x_traces x !! pred o = Some t ->
  at_receiver t = act_account (at_act t) -> exec_one e c x = Ok (d, y) -> notifying 1 d y.
Proof.
  intros Hc Ht Hr Hx. apply new_context_ok in Hc as (t' & _ & Ht' & N & _ & _ & _ & Er & Ea). rewrite Ht in Ht'. injection Ht' as <-.
  apply exec_one_spec in Hx as (m & c1 & x1 & rc & t1 & Hm & Hs & -> & _ & _ & _ & _ & _ & _ & _ & _ & Hsub & _).
  destruct Hs as [F _ _ _ _ (ns & il & cf & new & A1 & _) ND _]. cbn in A1, ND. rewrite N in A1, ND. split; cbn.
  - apply ND, NoDup_singleton.
  - exists o. rewrite A1, (sf_act _ _ F). cbn. by rewrite Ea, Hr.
  - intros r. rewrite A1. cbn. intros ->%list_elem_of_singleton. apply Hsub. rewrite <- Er. by apply elem_of_dom_2 in Hm.
  - rewrite A1. cbn. lia.
Qed.

(** The notifications of an action that is executed for its own account end:
    the loop over the notified accounts, which may grow while it runs, comes to
    its end or to an exception of a receiver in at most as many rounds as there
    are accounts; with that much fuel or more the model gives its result. (C29) *)
Theorem notifications_end e o x c t c1 x1 :
  new_context o x = Ok c -> x_traces x !! pred o = Some t -> at_receiver t = act_account (at_act t) ->
  exec_one e c x = Ok (c1, x1) ->
  exists n res, rounds e n 1 c1 x1 res /\ (n <= size (metas (x_db x1)))%nat /\
    forall fuel, (size (metas (x_db x1)) <= fuel)%nat -> exec_notified fuel e 1 c1 x1 = res.
Proof.
  intros Hc Ht Hr Hx. pose proof (first_notifying e o x c t c1 x1 Hc Ht Hr Hx) as Hn.
  destruct (rounds_exist (size (metas (x_db x1))) e 1 c1 x1 Hn) as (n & res & H1 & H2 & H3); [lia|].
  exists n, res. split_and!; [done|lia|]. intros fuel Hf. apply H3. lia.
Qed.
End Fuel.
