(* ===== verification/ExecutionRam.v ===== *)
(** * RAM needs consent

    Every charge of a contract is noted next to it, so that the check at the
    end of an action sees what the action did to the RAM of each account. *)

From stdpp Require Import base numbers gmap strings countable list sorting.
From Stdlib Require Import ZArith Lia.
From S2P Require Import Prelude Boost Names Merkle Accumulator ResourceLimits ResourceLimitsSpec ProtocolFeatures ChainConfig Authority Authorization.
From S2P Require Import EosioContract EosioContractSpec ActorList TransactionContext Transactions Execution Deferred Actions ActionsSpec.
Local Open Scope Z_scope.

Section Ram.
Context {boost : Boost} {key : Type} `{PublicKey key} {W : Type}.
#[local] Abbreviation xenv := (xenv (key := key) (W := W)).
#[local] Abbreviation xstate := (xstate (key := key) (W := W)).
#[local] Abbreviation actx := (actx (key := key)).
#[local] Abbreviation program := (program (key := key) (W := W)).
Implicit Types (e : xenv) (x y : xstate) (c d : actx).

Definition ram_of (r : rdb) (a : Z) : Z := match usages r !! a with Some u => ram_usage u | None => 0 end.
Definition ram x (a : Z) : Z := ram_of (res_db (x_db x)) a.
Definition delta c (a : Z) : Z := default 0 (a_ram_deltas c !! a).

(** Counters and notes are in their ranges. *)
Definition ram_range x : Prop := forall a, is_u64 (ram x a).
Definition delta_range c : Prop := forall a, is_i64 (delta c a).

Lemma add_pending_exact a n r r' : is_i64 n -> (forall b, is_u64 (ram_of r b)) ->
  add_pending_ram_usage a n r = Ok r' ->
  (forall b, ram_of r' b = ram_of r b + (if b =? a then n else 0)) /\ (forall b, is_u64 (ram_of r' b)).
Proof.
  intros Hn Hr Hx. destruct (usages r !! a) as [u|] eqn:Eu.
  - specialize (Hr a) as Ha. unfold ram_of in Ha. rewrite Eu in Ha.
    destruct (ram_usage_exact_lemma a n r u Hn Eu Ha) as [Hiff Hex].
    pose proof (proj1 Hiff (ex_intro _ r' Hx)) as Hnew. destruct (Hex r' Hx) as ((u' & Eu' & Ru') & Ho).
    assert (E : forall b, ram_of r' b = ram_of r b + (if b =? a then n else 0)).
    { intros b. unfold ram_of. destruct (b =? a) eqn:Eb.
      - apply Z.eqb_eq in Eb as ->. rewrite Eu, Eu'. lia.
      - rewrite Ho by lia. lia. }
    split; [done|]. intros b. rewrite E. destruct (b =? a) eqn:Eb; [|rewrite Z.add_0_r; apply Hr].
    apply Z.eqb_eq in Eb as ->. unfold ram_of. by rewrite Eu.
  - unfold add_pending_ram_usage, get_usage in Hx. rewrite Eu in Hx. destruct (n =? 0) eqn:En; [|done].
    apply (proj1 (Ok_inj _ _)) in Hx as <-. split; [|done]. intros b. destruct (b =? a); lia.
Qed.

(** The change of every counter is, modulo the width of the notes, the change
    of the note. *)
Record tracked c x d y : Prop := {
  tr_ram : ram_range y; tr_delta : delta_range d;
  tr_change : forall a, u64 (ram y a - ram x a) = u64 (delta d a - delta c a) }.

Definition ready c x : Prop := ram_range x /\ delta_range c.

Lemma tracked_same c x d y : ready c x -> (forall a, ram y a = ram x a) -> a_ram_deltas d = a_ram_deltas c -> tracked c x d y.
Proof.
  intros [R D] E1 E2. split.
  - intros a. rewrite E1. apply R.
  - intros a. unfold delta. rewrite E2. apply D.
  - intros a. unfold delta. rewrite E1, E2. f_equal. lia.
Qed.

Lemma tracked_trans c x c1 x1 c2 x2 : tracked c x c1 x1 -> tracked c1 x1 c2 x2 -> tracked c x c2 x2.
Proof.
  intros [R1 D1 C1] [R2 D2 C2]. split; [done..|]. intros a. specialize (C1 a). specialize (C2 a). unfold u64 in *.
  replace (ram x2 a - ram x a) with ((ram x2 a - ram x1 a) + (ram x1 a - ram x a)) by lia.
  replace (delta c2 a - delta c a) with ((delta c2 a - delta c1 a) + (delta c1 a - delta c a)) by lia.
  rewrite Z.add_mod, C1, C2, <- Z.add_mod by lia. done.
Qed.

Lemma tracked_ready c x d y : tracked c x d y -> ready d y.
Proof. by intros []. Qed.

Lemma i64_cong z : u64 (i64 z) = u64 z.
Proof.
  unfold i64, u64. rewrite Zminus_mod_idemp_l. f_equal. lia.
Qed.

Lemma add_ram_tracked a n c x d y : is_i64 n -> ready c x -> x_add_ram_usage a n c x = Ok (d, y) -> tracked c x d y.
Proof.
  intros Hn [R D] Hx. unfold x_add_ram_usage in Hx. ok_bind Hx as r Hr. apply (proj1 (Ok_inj _ _)) in Hx. injection Hx as <- <-.
  destruct (add_pending_exact a n _ r Hn R Hr) as [E R'].
  assert (Er : forall b, ram (if n >? 0 then add_validate_ram a (set_res x r) else set_res x r) b = ram_of r b)
    by (by destruct (n >? 0)).
  split.
  - intros b. rewrite Er. apply R'.
  - intros b. unfold delta, note_ram_delta. cbn. destruct (decide (a = b)) as [->|Hne].
    + rewrite lookup_insert_eq. cbn. destruct (a_ram_deltas c !! b); [apply i64_range|done].
    + rewrite lookup_insert_ne by done. apply D.
  - intros b. rewrite Er, E. unfold ram at 1. unfold delta, note_ram_delta. cbn. destruct (b =? a) eqn:Eb.
    + apply Z.eqb_eq in Eb as ->. rewrite lookup_insert_eq. cbn.
      replace (ram_of (res_db (x_db x)) a + n - ram_of (res_db (x_db x)) a) with n by lia.
      destruct (a_ram_deltas c !! a) as [v|]; cbn; [|f_equal; lia].
      unfold u64. rewrite <- Zminus_mod_idemp_l. change (i64 (v + n) mod 2 ^ 64) with (u64 (i64 (v + n))).
      rewrite i64_cong. unfold u64. rewrite Zminus_mod_idemp_l. f_equal. lia.
    + rewrite lookup_insert_ne by lia. f_equal. lia.
Qed.

(** ** Host calls *)

Lemma billable_generated_value : billable_generated_transaction_object = 272.
Proof. reflexivity. Qed.

Lemma billed_bytes_range e (g : generated_transaction_object (key := key)) : 272 <= billed_bytes e g < 2 ^ 33.
Proof. unfold billed_bytes. rewrite billable_generated_value. pose proof (u32_range (trx_pack_size e (g_packed g))). unfold packed_size. mach_lia. Qed.

Lemma billed_negated e (g : generated_transaction_object (key := key)) : i64 (u64 (- billed_bytes e g)) = - billed_bytes e g.
Proof.
  pose proof (billed_bytes_range e g) as Hb. unfold u64, i64. rewrite Zplus_mod_idemp_l.
  rewrite Z.mod_small by lia. lia.
Qed.

Lemma store_generated_tracked e i p trx b c x g d y : ready c x -> store_generated e i p trx b c x = Ok (g, d, y) -> tracked c x d y.
Proof.
  unfold store_generated. intros Hrd Hr. destruct (find_by_sender_id _ _ _) as [ptr|].
  - do 2 ok_bind Hr as [] _. ok_bind Hr as [c1 x1] H1. ok_bind Hr as l _. apply (proj1 (Ok_inj _ _)) in Hr.
    injection Hr as _ <- <-.
    assert (T : tracked c x c1 x1).
    { destruct (is_builtin_activated e _).
      - eapply add_ram_tracked; [|done|done]. pose proof (billed_bytes_range e ptr). mach_lia.
      - apply (proj1 (Ok_inj _ _)) in H1. injection H1 as <- <-. by apply tracked_same. }
    apply (tracked_trans _ _ c1 x1); [done|]. apply tracked_same; [by eapply tracked_ready|done|done].
  - ok_bind Hr as l _. apply (proj1 (Ok_inj _ _)) in Hr. injection Hr as _ <- <-. by apply tracked_same.
Qed.

Lemma schedule_deferred_tracked e i p trx b c x d y : ready c x ->
  schedule_deferred_transaction e i p trx b c x = Ok (d, y) -> tracked c x d y.
Proof.
  unfold schedule_deferred_transaction. intros Hrd Hr. do 2 ok_bind Hr as [] _. ok_bind Hr as t' _. ok_bind Hr as n _.
  ok_bind Hr as [] _. ok_bind Hr as [[g c1] x1] H1. ok_bind Hr as [] _.
  assert (T : tracked c x c (set_net x n)) by (by apply tracked_same).
  apply (tracked_trans _ _ c (set_net x n)); [done|].
  pose proof (store_generated_tracked _ _ _ _ _ _ _ _ _ _ (tracked_ready _ _ _ _ T) H1) as T1.
  apply (tracked_trans _ _ c1 x1); [done|]. eapply add_ram_tracked; [|by eapply tracked_ready|done].
  pose proof (billed_bytes_range e g). mach_lia.
Qed.

Lemma cancel_deferred_tracked e i s c x b d y : ready c x -> cancel_deferred_transaction e i s c x = Ok (b, d, y) -> tracked c x d y.
Proof.
  unfold cancel_deferred_transaction. intros Hrd Hr. destruct (find_by_sender_id _ _ _) as [g|].
  - ok_bind Hr as [c1 x1] H1. apply (proj1 (Ok_inj _ _)) in Hr. injection Hr as _ <- <-.
    assert (T : tracked c x c1 x1) by (eapply add_ram_tracked; [apply i64_range|done|done]).
    apply (tracked_trans _ _ c1 x1); [done|]. apply tracked_same; [by eapply tracked_ready|done|done].
  - apply (proj1 (Ok_inj _ _)) in Hr. injection Hr as _ <- <-. by apply tracked_same.
Qed.

(** The calls that do not concern RAM. *)
Lemma recipient_tracked r c x d y : ready c x -> require_recipient r c x = Ok (d, y) -> tracked c x d y.
Proof.
  unfold require_recipient. intros Hrd Hr. destruct (has_recipient c r); [|ok_bind Hr as [o x1] Ho];
    apply (proj1 (Ok_inj _ _)) in Hr; injection Hr as <- <-; apply tracked_same; try done.
  unfold ctx_schedule_ordinal in Ho. ok_bind Ho as t _. apply (proj1 (Ok_inj _ _)) in Ho. by injection Ho as _ <-.
Qed.
Lemma inline_tracked e a c x d y : ready c x -> execute_inline e a c x = Ok (d, y) -> tracked c x d y.
Proof.
  unfold execute_inline. intros Hrd Hr. do 4 ok_bind Hr as ? _. apply (proj1 (Ok_inj _ _)) in Hr. injection Hr as <- <-. by apply tracked_same.
Qed.
Lemma cfa_inline_tracked (a : chain_action (key := key)) c x d y : ready c x -> execute_context_free_inline a c x = Ok (d, y) -> tracked c x d y.
Proof.
  unfold execute_context_free_inline. intros Hrd Hr. do 2 ok_bind Hr as ? _. apply (proj1 (Ok_inj _ _)) in Hr. injection Hr as <- <-. by apply tracked_same.
Qed.
Lemma db_usage_tracked e a n c x d y : ready c x -> x_update_db_usage e a (i64 n) c x = Ok (d, y) -> tracked c x d y.
Proof. unfold x_update_db_usage. intros Hrd Hr. ok_bind Hr as [] _. eapply add_ram_tracked; [apply i64_range|done|done]. Qed.
Lemma set_limits_tracked a r n u c x d y : ready c x -> set_resource_limits a r n u c x = Ok (d, y) -> tracked c x d y.
Proof.
  unfold set_resource_limits. intros Hrd Hr. do 3 ok_bind Hr as [] _. ok_bind Hr as [b r'] Hs.
  apply (proj1 (Ok_inj _ _)) in Hr. injection Hr as <- <-. apply tracked_same; [done| |done].
  unfold set_account_limits in Hs. ok_bind Hs as lim _. apply (proj1 (Ok_inj _ _)) in Hs. injection Hs as _ <-. by destruct b.
Qed.
Lemma set_privileged_tracked a b c x d y : ready c x -> set_privileged a b c x = Ok (d, y) -> tracked c x d y.
Proof.
  unfold set_privileged. intros Hrd Hr. ok_bind Hr as m _. apply (proj1 (Ok_inj _ _)) in Hr. injection Hr as <- <-. by apply tracked_same.
Qed.

#[local] Create HintDb tracked.
#[local] Hint Resolve recipient_tracked inline_tracked cfa_inline_tracked db_usage_tracked schedule_deferred_tracked
  set_limits_tracked set_privileged_tracked : tracked.

Lemma run_tracked e (p : program) c x d y : ready c x -> run e p c x = Ok (d, y) -> tracked c x d y.
Proof.
  revert c x. induction p as [|msg|f k IH|r k IH|a k IH|a q k IH|a k IH|a k IH|k IH|size a k IH|size a k IH|i pa t b k IH|i k IH
    |pa n k IH|a r n u k IH|a b k IH]; intros c x Hrd Hr; cbn [run] in Hr; try done.
  1: { apply (proj1 (Ok_inj _ _)) in Hr. injection Hr as <- <-. by apply tracked_same. }
  1: { ok_bind Hr as [] _. assert (T : tracked c x c (set_tables x (f (x_tables x)))) by (by apply tracked_same).
       apply (tracked_trans _ _ c (set_tables x (f (x_tables x)))); [done|]. eapply IH; [by eapply tracked_ready|done]. }
  2,3: do 2 ok_bind Hr as [] _; eauto.
  2,3: ok_bind Hr as [] _; eauto.
  2: ok_bind Hr as [] _; ok_bind Hr as s _; eauto.
  all: ok_bind Hr as [] _.
  2,3: ok_bind Hr as [] _.
  5: ok_bind Hr as [[bb c1] x1] H1; apply (cancel_deferred_tracked _ _ _ _ _ _ _ _ Hrd) in H1.
  5: apply (tracked_trans _ _ c1 x1); [done|]; eapply IH; [by eapply tracked_ready|done].
  all: ok_bind Hr as [c1 x1] H1; assert (T : tracked c x c1 x1) by eauto with tracked.
  all: apply (tracked_trans _ _ c1 x1); [done|]; eapply IH; [by eapply tracked_ready|done].
Qed.

(** ** The check at the end *)

Lemma deltas_consented e c a v : check_ram_deltas e c = Ok tt -> a_privileged c = false ->
  is_builtin_activated e ProtocolFeatures.ram_restrictions = true -> a_ram_deltas c !! a = Some v -> 0 < v ->
  a = a_receiver c \/ a_receiver c = act_account (a_act c) /\ Execution.has_authorization c a = true.
Proof.
  unfold check_ram_deltas. intros Hr Hp Hb Ha Hv. rewrite Hp, Hb in Hr. cbn [negb andb] in Hr.
  apply (mfold_each (fun _ => True) (fun (p : Z * Z) _ => 0 < p.2 -> p.1 = a_receiver c \/
    a_receiver c = act_account (a_act c) /\ Execution.has_authorization c p.1 = true)) in Hr as [_ Hr].
  - apply (Hr (a, v)); [by apply elem_of_map_to_list|done].
  - intros [] [b w] [] _ _ Hs. split; [done|]. cbn. intros Hw. destruct (b =? a_receiver c) eqn:E; [left; lia|]. right.
    replace (w >? 0) with true in Hs by lia. cbn [negb andb] in Hs. ok_bind Hs as [] H1. ok_inv. split; [lia|done].
  - done.
  - done.
Qed.

Lemma usages_kept e c x r y a : make_receipt e c x = Ok (r, y) -> ram y a = ram x a.
Proof.
  unfold make_receipt, next_global_sequence. intros Hr. ok_bind Hr as [n x1] H1. ok_bind Hr as f _. ok_bind Hr as [s x2] H2.
  apply (proj1 (Ok_inj _ _)) in Hr. injection Hr as _ <-.
  assert (res_db (x_db x2) = res_db (x_db x1)) as E2.
  { unfold auth_sequences in H2. change x2 with (s, x2).2. revert H2. apply (mfold_inv (fun p => res_db (x_db p.2) = res_db (x_db x1))); [|done].
    intros [s1 z1] b [s2 z2] _ Q Hs. ok_bind Hs as [m z3] Hn. apply (proj1 (Ok_inj _ _)) in Hs. injection Hs as <- <-.
    unfold next_auth_sequence in Hn. ok_bind Hn as m' Hm. apply (proj1 (Ok_inj _ _)) in Hn. by injection Hn as <- <-. }
  unfold next_recv_sequence in H1. ok_bind H1 as m Hm. apply (proj1 (Ok_inj _ _)) in H1. injection H1 as <- <-.
  unfold ram. by rewrite E2.
Qed.

(** With the restrictions on RAM in force, an unprivileged contract increases
    the RAM usage only of its own account, or of an account that authorized
    the action, and of the latter not in a notification. (C28) *)
Theorem action_ram_needs_consent e c x d y m a :
  exec_one e c x = Ok (d, y) -> ctx_native c = false -> a_ram_deltas c = ∅ ->
  is_builtin_activated e ProtocolFeatures.ram_restrictions = true ->
  metas (x_db x) !! a_receiver c = Some m -> is_privileged m = false ->
  ram_range x -> ram x a <= INT64_MAX -> ram y a <= INT64_MAX -> ram x a < ram y a ->
  a = a_receiver c \/ a_receiver c = act_account (a_act c) /\ Execution.has_authorization c a = true.
Proof.
  unfold exec_one, apply_action. intros Hr Hn Hd Hb Hm Hp Hrx B1 B2 Hlt.
  ok_bind Hr as [c2 x2] H1. ok_bind Hr as [r x3] H2. rewrite Hm in H1. cbn [of_option mbind result_bind] in H1. rewrite Hp in H1.
  change (is_native_action _ _ _) with (ctx_native c) in H1. rewrite Hn in H1. cbn [mbind result_bind] in H1.
  ok_bind H1 as m' _. ok_bind H1 as [c1 x1] Hrun. ok_bind H1 as [] Hchk. apply (proj1 (Ok_inj _ _)) in H1. injection H1 as -> ->.
  assert (T : tracked (set_privilege c false) x c2 x2 /\ same_frame (set_privilege c false) c2).
  { assert (Hrd : ready (set_privilege c false) x).
    { split; [done|]. intros b. unfold delta. cbn. rewrite Hd. split; vm_compute; congruence. }
    destruct (runs_code e _ m').
    - ok_bind Hrun as [] _. split; [by eapply run_tracked|exact (s_frame _ _ _ _ (run_sent _ _ _ _ _ _ Hrun))].
    - apply (proj1 (Ok_inj _ _)) in Hrun. injection Hrun as <- <-. split; [by apply tracked_same|done]. }
  destruct T as [[R2 D2 C2] [_ _ F3 F4 _ F6]]. cbn in F3, F4, F6.
  assert (Ey : ram y a = ram x2 a).
  { unfold finalize_trace in Hr. ok_bind Hr as t _. apply (proj1 (Ok_inj _ _)) in Hr. injection Hr as _ <-. exact (usages_kept _ _ _ _ _ a H2). }
  specialize (C2 a). specialize (D2 a). specialize (Hrx a). specialize (R2 a). rewrite Ey in *.
  unfold delta at 2 in C2. cbn in C2. rewrite Hd in C2. cbn in C2. rewrite Z.sub_0_r in C2.
  rewrite u64_small in C2 by mach_lia.
  assert (0 < delta c2 a) as Hpos.
  { destruct (decide (0 <= delta c2 a)) as [Hle|Hneg]; [rewrite u64_small in C2 by mach_lia; lia|].
    exfalso. unfold u64 in C2. rewrite <- (Z.mod_unique (delta c2 a) (2 ^ 64) (-1) (delta c2 a + 2 ^ 64)) in C2; mach_lia. }
  unfold delta in Hpos. destruct (a_ram_deltas c2 !! a) as [v|] eqn:Ev; cbn in Hpos; [|lia].
  unfold Execution.has_authorization. rewrite <- F3, <- F4. eapply deltas_consented; [exact Hchk|by rewrite F6|done|done|done].
Qed.
End Ram.
