(* ===== verification/DeferredSpec.v ===== *)
(** * The RAM of deferred transactions

    What the payers of deferred transactions are billed for is what is stored,
    and what was not given back when one was replaced before REPLACE_DEFERRED
    is the correction that its activation applies. *)

From stdpp Require Import base numbers gmap strings countable list sorting relations.
From Stdlib Require Import ZArith Lia.
From S2P Require Import Prelude Boost Names Merkle Accumulator ResourceLimits ResourceLimitsSpec Intrinsics Hex ProtocolFeatures FeatureActivation.
From S2P Require Import ChainConfig Authority Authorization EosioContract EosioContractSpec ActorList TransactionContext Transactions.
From S2P Require Import Execution Deferred Actions ActionsSpec ExecutionRam.
Local Open Scope Z_scope.

Section Ledger.
Context {boost : Boost} {key : Type} `{PublicKey key} {W : Type}.
#[local] Abbreviation transaction := (transaction (key := key)).
#[local] Abbreviation gto := (generated_transaction_object (key := key)).
#[local] Abbreviation xenv := (xenv (key := key) (W := W)).
#[local] Abbreviation xstate := (xstate (key := key) (W := W)).
#[local] Abbreviation actx := (actx (key := key)).
Implicit Types (e : xenv) (x y : xstate) (c d : actx) (g : gto).

(** The size of a packed transaction is the same for all. *)
Variable size : transaction -> Z.

Definition bytes g : Z := billable_generated_transaction_object + u32 (size (g_packed g)).
Definition stored (l : list gto) (a : Z) : Z :=
  foldr (fun g acc => (if g_payer g =? a then bytes g else 0) + acc) 0 l.
Definition correction (l : list (Z * Z)) (a : Z) : Z :=
  foldr (fun p acc => (if p.1 =? a then p.2 else 0) + acc) 0 l.

Definition share g (a : Z) : Z := if g_payer g =? a then bytes g else 0.

Lemma bytes_pos g : 272 <= bytes g < 2 ^ 33.
Proof. unfold bytes. rewrite billable_generated_value. pose proof (u32_range (size (g_packed g))). mach_lia. Qed.
Lemma share_range g a : 0 <= share g a.
Proof. unfold share. pose proof (bytes_pos g). destruct (_ =? _); lia. Qed.
Lemma stored_nonneg l a : 0 <= stored l a.
Proof. induction l as [|g l IH]; simpl; [lia|]. pose proof (share_range g a). unfold share in *. lia. Qed.
Lemma stored_app l l' a : stored (l ++ l') a = stored l a + stored l' a.
Proof. induction l as [|g l IH]; simpl; lia. Qed.
Lemma stored_one g a : stored [g] a = share g a.
Proof. simpl. unfold share. lia. Qed.

Lemma remove_absent g l : g_trx_id g ∉ g_trx_id <$> l -> remove_generated g l = l.
Proof.
  unfold remove_generated. intros Hn. induction l as [|h l IH]; [done|]. rewrite fmap_cons, not_elem_of_cons in Hn.
  destruct Hn as [Hne Hn]. rewrite filter_cons_True by congruence. f_equal. by apply IH.
Qed.
Lemma stored_remove g l a : NoDup (g_trx_id <$> l) -> g ∈ l -> stored (remove_generated g l) a = stored l a - share g a.
Proof.
  induction l as [|h l IH]; intros Hnd Hin; [by apply not_elem_of_nil in Hin|]. rewrite fmap_cons in Hnd.
  apply NoDup_cons in Hnd as [Hn Hnd]. unfold remove_generated in *. apply elem_of_cons in Hin as [->|Hin].
  - rewrite filter_cons_False by tauto. change (filter _ l) with (remove_generated h l). rewrite remove_absent by done.
    simpl. unfold share. lia.
  - rewrite filter_cons_True; [simpl; rewrite IH by done; lia|]. intros E. apply Hn. rewrite E. by apply list_elem_of_fmap_2.
Qed.
Lemma ids_remove g l : NoDup (g_trx_id <$> l) -> NoDup (g_trx_id <$> remove_generated g l).
Proof. intros Hnd. eapply sublist_NoDup; [exact Hnd|]. apply fmap_sublist, sublist_filter. Qed.

Lemma find_elem (f : gto -> bool) l g : List.find f l = Some g -> g ∈ l.
Proof. intros Hf. apply List.find_some in Hf as [Hf _]. by apply list_elem_of_In. Qed.

Lemma create_ids g l l' : create_generated g l = Ok l' -> NoDup (g_trx_id <$> l) ->
  l' = l ++ [g] /\ NoDup (g_trx_id <$> l').
Proof.
  unfold create_generated. intros Hr Hnd. ok_bind Hr as [] H1. ok_bind Hr as [] _. apply (proj1 (Ok_inj _ _)) in Hr as <-. split; [done|].
  apply (proj1 (check_ok _ _ _)) in H1. apply bool_decide_eq_true_1 in H1.
  rewrite fmap_app. apply NoDup_app. split_and!; [done| |apply NoDup_singleton]. intros i Hi ->%list_elem_of_singleton.
  apply list_elem_of_fmap in Hi as (h & E & Hh). pose proof (List.find_none _ _ H1 h) as Hf. rewrite list_elem_of_In in Hh.
  specialize (Hf Hh). cbn in Hf. lia.
Qed.

(** ** Corrections *)

Lemma correction_nonneg l a : Forall (fun p : Z * Z => 0 <= p.2) l -> 0 <= correction l a.
Proof. induction 1 as [|[b n] l Hn Hl IH]; simpl in *; [lia|]. destruct (b =? a); lia. Qed.

Lemma correction_add a n l b : 0 <= n -> Forall (fun p : Z * Z => 0 <= p.2) l -> correction l a + n <= UINT64_MAX ->
  correction (add_to_ram_correction a n l) b = correction l b + (if a =? b then n else 0) /\
  Forall (fun p : Z * Z => 0 <= p.2) (add_to_ram_correction a n l).
Proof.
  intros Hn. induction 1 as [|[k v] l Hv Hl IH]; simpl; intros Hle.
  { split; [destruct (a =? b); lia|]. by repeat constructor. }
  simpl in Hv. destruct (k =? a) eqn:E; simpl.
  - pose proof (correction_nonneg l a Hl). rewrite u64_small by mach_lia. split; [|by constructor; [simpl; lia|]].
    apply Z.eqb_eq in E as ->. destruct (a =? b); lia.
  - destruct IH as [E1 E2]; [pose proof (correction_nonneg l a Hl); lia|]. split; [|by constructor].
    rewrite E1. lia.
Qed.

Lemma correct_ram_spec (B : Z -> Z) a n l r r' : (forall b, ram_of r b = B b + correction ((a, n) :: l) b) ->
  (forall b, 0 <= B b) -> 0 <= n -> Forall (fun p : Z * Z => 0 <= p.2) l -> (forall b, 0 <= ram_of r b <= INT64_MAX) ->
  correct_ram r (a, n) = Ok r' ->
  (forall b, ram_of r' b = B b + correction l b) /\ (forall b, 0 <= ram_of r' b <= INT64_MAX).
Proof.
  intros E HB Hn Hl Hr Hx. unfold correct_ram in Hx. ok_bind Hx as cur Hc. cbn [fst snd] in Hx, Hc.
  unfold get_account_ram_usage in Hc. ok_bind Hc as u Hu. apply (proj1 (Ok_inj _ _)) in Hc as <-.
  unfold get_usage in Hu. apply option_found in Hu. pose proof (Hr a) as Ha. pose proof (E a) as Ea.
  unfold ram_of in Ha, Ea. rewrite Hu in Ha, Ea. rewrite i64_small in Hx by mach_lia. rewrite u64_small in Hx by mach_lia.
  simpl in Ea. rewrite Z.eqb_refl in Ea. pose proof (correction_nonneg l a Hl). pose proof (HB a).
  replace (n >? ram_usage u) with false in Hx by lia. rewrite (i64_small n) in Hx by mach_lia. rewrite i64_small in Hx by mach_lia.
  apply add_pending_exact in Hx as [Ex _]; [|mach_lia|intros b; specialize (Hr b); mach_lia].
  assert (Eb : forall b, ram_of r' b = B b + correction l b).
  { intros b. rewrite Ex, E. simpl. rewrite (Z.eqb_sym b a). destruct (a =? b); lia. }
  split; [done|]. intros b. rewrite Ex. specialize (Hr b). pose proof (Eb b) as Eb'. rewrite Ex in Eb'.
  pose proof (correction_nonneg l b Hl). pose proof (HB b). destruct (b =? a); lia.
Qed.

Lemma corrections_applied (B : Z -> Z) l r r' : (forall b, ram_of r b = B b + correction l b) -> (forall b, 0 <= B b) ->
  Forall (fun p : Z * Z => 0 <= p.2) l -> (forall b, 0 <= ram_of r b <= INT64_MAX) -> mfold correct_ram l r = Ok r' ->
  forall b, ram_of r' b = B b.
Proof.
  intros E HB Hl. revert r E. induction Hl as [|[a n] l Hn Hl IH]; intros r E Hr Hx; cbn [mfold] in Hx.
  - apply (proj1 (Ok_inj _ _)) in Hx as <-. intros b. rewrite E. simpl. lia.
  - ok_bind Hx as r1 H1. destruct (correct_ram_spec B a n l r r1) as [E1 R1]; try done. by apply (IH r1).
Qed.

(** ** The ledger *)

Definition owed x (a : Z) : Z := stored (x_generated x) a + correction (x_corrections x) a.

(** [base] is what each account uses for other things. *)
Record ledger (base : Z -> Z) x : Prop := {
  lg_ids : NoDup (g_trx_id <$> x_generated x);
  lg_corrections : Forall (fun p : Z * Z => 0 <= p.2) (x_corrections x);
  lg_base : forall a, 0 <= base a;
  lg_ram : forall a, ram x a = base a + owed x a;
  lg_range : ram_range x }.

Inductive deferred_step : xstate -> xstate -> Prop :=
| ds_schedule e sender_id payer t replace c x d y : trx_pack_size e = size ->
    schedule_deferred_transaction e sender_id payer t replace c x = Ok (d, y) -> deferred_step x y
| ds_cancel e sender_id sender c x b d y : trx_pack_size e = size ->
    cancel_deferred_transaction e sender_id sender c x = Ok (b, d, y) -> deferred_step x y
| ds_delayed e t delay x y : trx_pack_size e = size -> schedule_transaction e t delay x = Ok y -> deferred_step x y
| ds_retire e g x n y : trx_pack_size e = size -> g ∈ x_generated x ->
    remove_scheduled_transaction e g x = Ok (n, y) -> deferred_step x y
| ds_activate x r : (forall a, ram x a <= INT64_MAX) -> mfold correct_ram (x_corrections x) (res_db (x_db x)) = Ok r ->
    deferred_step x (set_corrections (set_res x r) []).

Lemma billed_is_bytes e g : trx_pack_size e = size -> billed_bytes e g = bytes g.
Proof. unfold billed_bytes, packed_size, bytes. by intros ->. Qed.

(** A charge of [n] to [p], with the change of what is owed. *)
Lemma ledger_charge base x y p n : ledger base x -> is_i64 n ->
  NoDup (g_trx_id <$> x_generated y) -> Forall (fun q : Z * Z => 0 <= q.2) (x_corrections y) ->
  add_pending_ram_usage p n (res_db (x_db x)) = Ok (res_db (x_db y)) ->
  (forall a, owed y a = owed x a + (if a =? p then n else 0)) -> ledger base y.
Proof.
  intros [L1 L2 L3 L4 L5] Hn Hid Hc Hx Ho. apply add_pending_exact in Hx as [E R]; [|done|done].
  split; [done..| |exact R]. intros a. unfold ram at 1. rewrite E, Ho. specialize (L4 a). unfold ram in L4. lia.
Qed.

Lemma add_ram_result a n c x d y : x_add_ram_usage a n c x = Ok (d, y) ->
  add_pending_ram_usage a n (res_db (x_db x)) = Ok (res_db (x_db y)) /\ x_generated y = x_generated x /\
  x_corrections y = x_corrections x.
Proof.
  unfold x_add_ram_usage. intros Hr. ok_bind Hr as r Hx. apply (proj1 (Ok_inj _ _)) in Hr. injection Hr as <- <-.
  rewrite Hx. by destruct (n >? 0).
Qed.

(** What is owed when a transaction is replaced or added, before its payer is
    charged. *)
Lemma store_generated_ledger base e i p t b c x g d y : trx_pack_size e = size -> ledger base x ->
  store_generated e i p t b c x = Ok (g, d, y) -> g_payer g = p /\ NoDup (g_trx_id <$> x_generated y) /\
  exists z, ledger base z /\ res_db (x_db y) = res_db (x_db z) /\ x_corrections y = x_corrections z /\
    forall a, owed y a = owed z a + share g a.
Proof.
  intros Hsz L Hr. unfold store_generated in Hr. destruct (find_by_sender_id _ _ _) as [ptr|] eqn:Ef.
  - apply find_elem in Ef. do 2 ok_bind Hr as [] _. ok_bind Hr as [c1 x1] H1. ok_bind Hr as l Hl.
    apply (proj1 (Ok_inj _ _)) in Hr. injection Hr as <- <- <-.
    assert (Hg1 : x_generated x1 = x_generated x).
    { destruct (is_builtin_activated e _); [by apply add_ram_result in H1 as (_ & ? & _)|].
      apply (proj1 (Ok_inj _ _)) in H1. by injection H1 as _ <-. }
    rewrite Hg1 in Hl. apply create_ids in Hl as [El Hid]; [|apply ids_remove, L].
    split; [done|]. split; [done|]. exists (set_generated x1 (remove_generated ptr (x_generated x))).
    assert (Hst : forall a, stored (remove_generated ptr (x_generated x)) a = stored (x_generated x) a - share ptr a)
      by (intros; apply stored_remove; [apply L|done]).
    split_and!; [|done|done|].
    + destruct (is_builtin_activated e _).
      * apply add_ram_result in H1 as (Hx & _ & Hc). apply (ledger_charge base x _ (g_payer ptr) (- billed_bytes e ptr)); try done.
        -- pose proof (billed_bytes_range e ptr). mach_lia.
        -- cbn. apply ids_remove, L.
        -- cbn. rewrite Hc. apply L.
        -- intros a. unfold owed. cbn [x_generated x_corrections set_generated set_corrections set_res set_db]. rewrite Hst, Hc, (billed_is_bytes e) by done. unfold share. rewrite (Z.eqb_sym a).
           destruct (_ =? a); lia.
      * apply (proj1 (Ok_inj _ _)) in H1. injection H1 as _ <-. pose proof L as [L1 L2 L3 L4 L5].
        assert (Hnw : correction (x_corrections x) (g_payer ptr) + billed_bytes e ptr <= UINT64_MAX).
        { specialize (L3 (g_payer ptr)). specialize (L4 (g_payer ptr)). specialize (L5 (g_payer ptr)).
          pose proof (stored_nonneg (remove_generated ptr (x_generated x)) (g_payer ptr)) as Hs. rewrite Hst in Hs. unfold owed in L4.
          unfold share in Hs. rewrite Z.eqb_refl in Hs. rewrite (billed_is_bytes e) by done. mach_lia. }
        pose proof (fun a => correction_add (g_payer ptr) (billed_bytes e ptr) (x_corrections x) a
          ltac:(pose proof (billed_bytes_range e ptr); lia) L2 Hnw) as Hc.
        split; cbn; [apply ids_remove, L|apply (Hc 0)|done| |done].
        intros a. change (ram x a = base a + owed (set_generated (set_corrections x (add_to_ram_correction (g_payer ptr)
           (billed_bytes e ptr) (x_corrections x))) (remove_generated ptr (x_generated x))) a).
        rewrite L4. unfold owed. cbn [x_generated x_corrections set_generated set_corrections set_res set_db]. rewrite Hst, (proj1 (Hc a)), (billed_is_bytes e) by done. unfold share.
        destruct (_ =? a); lia.
    + intros a. unfold owed. cbn [x_generated x_corrections set_generated set_corrections set_res set_db]. rewrite El, stored_app, stored_one. lia.
  - ok_bind Hr as l Hl. apply (proj1 (Ok_inj _ _)) in Hr. injection Hr as <- <- <-.
    apply create_ids in Hl as [El Hid]; [|apply L]. split; [done|]. split; [done|]. exists x. split_and!; try done.
    intros a. unfold owed. cbn [x_generated x_corrections set_generated set_corrections set_res set_db]. rewrite El, stored_app, stored_one. lia.
Qed.

Lemma ledger_net base x n : ledger base x -> ledger base (set_net x n).
Proof. intros [L1 L2 L3 L4 L5]. by split. Qed.

(** The charge of the payer that follows a new transaction. *)
Lemma ledger_new base y z w g n : ledger base z -> res_db (x_db y) = res_db (x_db z) -> x_corrections y = x_corrections z ->
  (forall a, owed y a = owed z a + share g a) -> NoDup (g_trx_id <$> x_generated y) -> n = bytes g ->
  add_pending_ram_usage (g_payer g) n (res_db (x_db y)) = Ok (res_db (x_db w)) -> x_generated w = x_generated y ->
  x_corrections w = x_corrections y -> ledger base w.
Proof.
  intros L Er Ec Ho Hid -> Hx Eg Ec'. rewrite Er in Hx. apply (ledger_charge base z w (g_payer g) (bytes g)); try done.
  - pose proof (bytes_pos g). mach_lia.
  - by rewrite Eg.
  - rewrite Ec', Ec. apply L.
  - intros a. unfold owed. rewrite Eg, Ec'. change (owed y a = owed z a + (if a =? g_payer g then bytes g else 0)).
    rewrite Ho. unfold share. by rewrite Z.eqb_sym.
Qed.

(** The refund of a transaction that is removed. *)
Lemma ledger_removed base e x y g : trx_pack_size e = size -> ledger base x -> g ∈ x_generated x ->
  add_pending_ram_usage (g_payer g) (i64 (u64 (- billed_bytes e g))) (res_db (x_db x)) = Ok (res_db (x_db y)) ->
  x_generated y = remove_generated g (x_generated x) -> x_corrections y = x_corrections x -> ledger base y.
Proof.
  intros Hsz L Hg Hx Eg Ec. rewrite billed_negated, (billed_is_bytes e) in Hx by done.
  apply (ledger_charge base x y (g_payer g) (- bytes g)); try done.
  - pose proof (bytes_pos g). mach_lia.
  - rewrite Eg. apply ids_remove, L.
  - rewrite Ec. apply L.
  - intros a. unfold owed. rewrite Eg, Ec, stored_remove by (done || apply L). unfold share. rewrite (Z.eqb_sym a).
    destruct (_ =? a); lia.
Qed.

Lemma deferred_step_ledger base x y : deferred_step x y -> ledger base x -> ledger base y.
Proof.
  intros Hs L. destruct Hs as [e i p t b c x d y Hsz Hr|e i s c x b d y Hsz Hr|e t dl x y Hsz Hr|e g x n y Hsz Hg Hr|x r Hmax Hr].
  - unfold schedule_deferred_transaction in Hr. do 2 ok_bind Hr as [] _. ok_bind Hr as t' _. ok_bind Hr as n _.
    ok_bind Hr as [] _. ok_bind Hr as [[g c1] x1] H1. ok_bind Hr as [] _.
    apply (store_generated_ledger base) in H1 as (<- & Hid & z & Lz & Er & Ec & Ho); [|done|by apply ledger_net].
    apply add_ram_result in Hr as (Hx & Eg & Ec'). apply (ledger_new base x1 z y g (billed_bytes e g)); try done. by apply billed_is_bytes.
  - unfold cancel_deferred_transaction in Hr. destruct (find_by_sender_id _ _ _) as [g|] eqn:Ef.
    + apply find_elem in Ef. ok_bind Hr as [c1 x1] H1. apply (proj1 (Ok_inj _ _)) in Hr. injection Hr as _ _ <-.
      apply add_ram_result in H1 as (Hx & Eg & Ec). eapply (ledger_removed base e x _ g); try done. cbn. by rewrite Eg.
    + apply (proj1 (Ok_inj _ _)) in Hr. by injection Hr as _ _ <-.
  - unfold schedule_transaction in Hr. ok_bind Hr as x1 H1. ok_bind Hr as l Hl. ok_bind Hr as r Hx.
    apply (proj1 (Ok_inj _ _)) in Hr. set (g := mk_generated _ _ _ _ _ _ _ _) in *.
    assert (L1 : ledger base x1).
    { destruct (delay_sec t =? 0); [|by apply (proj1 (Ok_inj _ _)) in H1 as <-]. ok_bind H1 as n _.
      apply (proj1 (Ok_inj _ _)) in H1 as <-. by apply ledger_net. }
    apply create_ids in Hl as [-> Hid]; [|apply L1].
    apply (ledger_new base (set_generated x1 (x_generated x1 ++ [g])) x1 y g (billed_bytes e g)); try done.
    + intros a. unfold owed. cbn [x_generated x_corrections set_generated]. rewrite stored_app, stored_one. lia.
    + by apply billed_is_bytes.
    + rewrite <- Hr. cbn [x_db set_generated] in Hx |- *. rewrite Hx. by destruct (_ >? 0).
    + rewrite <- Hr. by destruct (_ >? 0).
    + rewrite <- Hr. by destruct (_ >? 0).
  - unfold remove_scheduled_transaction in Hr. ok_bind Hr as r Hx. apply (proj1 (Ok_inj _ _)) in Hr. injection Hr as _ <-.
    by eapply (ledger_removed base e x _ g).
  - destruct L as [L1 L2 L3 L4 L5]. pose proof (corrections_applied (fun a => base a + stored (x_generated x) a) _ _ _
      (fun b => eq_trans (L4 b) (Z.add_assoc _ _ _)) ltac:(intros b; pose proof (stored_nonneg (x_generated x) b); specialize (L3 b); lia) L2
      ltac:(intros b; specialize (Hmax b); specialize (L5 b); unfold ram in *; mach_lia) Hr) as E.
    split; [done|constructor|done| |].
    + intros a. change (ram_of r a = base a + owed (set_corrections (set_res x r) []) a). rewrite E. unfold owed.
      cbn [x_generated x_corrections set_corrections set_res set_db correction foldr]. lia.
    + intros a. change (is_u64 (ram_of r a)). rewrite E. specialize (L4 a). specialize (L5 a). specialize (L3 a). unfold owed in L4.
      pose proof (correction_nonneg (x_corrections x) a L2). pose proof (stored_nonneg (x_generated x) a). mach_lia.
Qed.

(** Over any history of scheduling, replacing, cancelling, delaying and
    retiring transactions, and of the activation of REPLACE_DEFERRED, the RAM
    of every account is what it uses otherwise, the bytes of the deferred
    transactions it pays for that are stored, and the correction on record. (C7) *)
Theorem deferred_ram_ledger base x y : rtc deferred_step x y -> ledger base x -> ledger base y.
Proof. induction 1 as [|x z y Hs _ IH]; [done|]. intros L. apply IH. by eapply deferred_step_ledger. Qed.
End Ledger.
