(* ===== verification/Push.v ===== *)
(** * Pushing transactions ([controller.cpp], [transaction_context.cpp])

    An input or implicit transaction, and a deferred transaction with its
    failure handling, from the state of the pending block to the next.  There
    are database sessions, and an exception undoes that of the transaction;
    what the clock shows is an argument. *)

From stdpp Require Import base numbers gmap strings countable list sorting.
From Stdlib Require Import ZArith Lia.
From S2P Require Import Prelude Boost Names Merkle Accumulator ResourceLimits ProtocolFeatures ChainConfig Authority Authorization.
From S2P Require Import EosioContract EosioContractSpec ActorList TransactionContext Transactions Execution Deferred Actions.
Local Open Scope Z_scope.

Section Push.
Context {boost : Boost} {key : Type} `{PublicKey key} {W : Type}.
#[local] Abbreviation chain_action := (chain_action (key := key)).
#[local] Abbreviation transaction := (transaction (key := key)).
#[local] Abbreviation gto := (generated_transaction_object (key := key)).
#[local] Abbreviation xenv := (xenv (key := key) (W := W)).
#[local] Abbreviation xstate := (xstate (key := key) (W := W)).
#[local] Abbreviation tcontext := (transaction_context (key := key)).

(** ** Data *)

Inductive status_enum := executed | soft_fail | hard_fail | delayed | expired.
#[global] Instance status_eq_dec : EqDecision status_enum.
Proof. solve_decision. Defined.

(** [transaction_receipt]; of the transaction only the id. *)
Record transaction_receipt := mk_trx_receipt {
  tr_id : Z; tr_status : status_enum; tr_cpu_usage_us : Z; tr_net_usage_words : Z }.

(** The pending block: the state, the deduplication list ([transaction_object]s
    with their expirations in seconds), the receipts and the executed actions. *)
Record building := mk_building {
  b_x : xstate; b_recorded : gmap Z Z;
  b_receipts : list transaction_receipt; b_actions : list action_receipt }.

(** [transaction_metadata], with the keys recovered from the signatures. *)
Record transaction_metadata := mk_metadata {
  tm_trx : transaction; tm_id : Z; tm_implicit : bool; unprunable_size : Z; prunable_size : Z;
  recovered_keys : list key; sig_cpu_usage : Z }.

(** The arguments of a push: deadline, time to bill, and what the clock shows
    at the start, when initialized, and at the end, and the last two for the
    error handler. *)
Record push_args := mk_args {
  pa_deadline : Z; pa_billed_cpu_time_us : Z; pa_explicit : bool; pa_leeway : Z;
  now_start : Z; now_init : Z; now_end : Z; now_error_init : Z; now_error_end : Z; sig_cpu_bill_pct : Z; skip_recording : bool; keep_session : bool;
  tapos : Z -> option digest }.

Inductive outcome := Retired (s : status_enum) (cpu net_words : Z) | Failed (msg : string).

(** Exceptions that make the block bad are not caught. *)
Definition bad_block (msg : string) : bool :=
  bool_decide (msg ∈ ["disallowed_transaction_extensions_bad_block_exception"; "protocol_feature_bad_block_exception"]%string).

Definition failure_is_subjective (msg : string) : bool :=
  bool_decide (msg ∈ ["subjective_block_production_exception"; "block_net_usage_exceeded"; "greylist_net_usage_exceeded";
    "block_cpu_usage_exceeded"; "greylist_cpu_usage_exceeded"; "deadline_exception"; "leeway_deadline_exception";
    "actor_whitelist_exception"; "actor_blacklist_exception"; "contract_whitelist_exception";
    "contract_blacklist_exception"; "action_blacklist_exception"; "key_blacklist_exception"]%string).
Definition scheduled_failure_is_subjective (msg : string) : bool :=
  bool_decide (msg = "tx_cpu_usage_exceeded"%string) || failure_is_subjective msg.

(** ** The transaction context around execution *)

(** The environment of one transaction. *)
Definition for_transaction (e : xenv) (start deadline leeway : Z) (is_explicit enforce : bool) (id published : Z) : xenv :=
  let te := xe_trx e in
  mk_xenv (mk_trx_env (te_cfg te) (skip_trx_checks te) (is_producing_block te) (only_bill_first_authorizer_active te)
             (greylist_limit te) (resource_greylist te) (te_pending_block_time te) (te_block_slot te)
             start deadline leeway is_explicit (te_timer te))
    (is_builtin_activated e) enforce (skip_auth_check e) (xe_lists e) (ram_billing_in_notify_allowed e)
    (all_subjective_mitigations_disabled e) published id (xe_head_block_id e) (xe_native_context e) (contract e)
    (unpack_native e) (action_digest e) (trx_hash e) (trx_pack_size e).

(** The environment in which checks are skipped or not. *)
Definition with_skips (skip_trx skip_auth : bool) (e : xenv) : xenv :=
  let te := xe_trx e in
  mk_xenv (mk_trx_env (te_cfg te) skip_trx (is_producing_block te) (only_bill_first_authorizer_active te)
             (greylist_limit te) (resource_greylist te) (te_pending_block_time te) (te_block_slot te)
             (te_start te) (te_deadline te) (te_leeway te) (explicit_billed_cpu_time te) (te_timer te))
    (is_builtin_activated e) (enforce_whiteblacklist e) skip_auth (xe_lists e) (ram_billing_in_notify_allowed e)
    (all_subjective_mitigations_disabled e) (xe_published e) (xe_id e) (xe_head_block_id e) (xe_native_context e)
    (contract e) (unpack_native e) (action_digest e) (trx_hash e) (trx_pack_size e).

(** While [in_trx_requiring_checks] is set, [light_validation_allowed] is false,
    whatever the status of the block and the configuration: no check is skipped. *)
Definition requiring_checks (e : xenv) : xenv := with_skips false false e.

(** The constructor; the fields have their initial values. *)
Definition new_transaction_context (e : xenv) (t : transaction) (billed : Z) (input : bool) (x : xstate) : tcontext :=
  mk_tc t (mk_net 0 true false 0 0)
    (mk_cpu 0 block_cpu_usage_exceeded false INT64_MAX block_cpu_usage_exceeded 0 (te_start (xe_trx e)) 0 false billed)
    [] [] false input (res_db (x_db x)) (auth_db (x_db x)).

(** The state with which execution starts, and what finalization is given. *)
Definition load (c : tcontext) (x : xstate) : xstate :=
  mk_x (mk_chain_db (accts (x_db x)) (metas (x_db x)) (codes (x_db x)) (tc_auth c) (tc_res c))
    (x_generated x) (x_corrections x) (x_global x) (x_tables x) [] [] (tc_net c) (tc_validate_ram c).
Definition unload (c : tcontext) (x : xstate) : tcontext :=
  mk_tc (tc_trx c) (x_net x) (tc_cpu c) (bill_to_accounts c) (x_validate_ram x) (is_initialized c) (is_input c)
    (res_db (x_db x)) (auth_db (x_db x)).
Definition store (c : tcontext) (x : xstate) : xstate :=
  set_db x (mk_chain_db (accts (x_db x)) (metas (x_db x)) (codes (x_db x)) (tc_auth c) (tc_res c)).

Definition disallow_transaction_extensions (e : xenv) (t : transaction) : result unit :=
  match transaction_extensions t with
  | [] => Ok tt
  | _ => Err (if producing e then "subjective_block_production_exception"
              else "disallowed_transaction_extensions_bad_block_exception")
  end.

(** [exec] and [finalize]. *)
Definition exec_and_finalize (e : xenv) (a : push_args) (t : transaction) (apply_context_free : bool) (delay : Z)
    (c : tcontext) (x : xstate) : result (tcontext * xstate) :=
  x ← exec_transaction e t apply_context_free delay x;
  c ← finalize (xe_trx e) (now_end a) (unload c x);
  Ok (c, store c x).

(** ** Receipts *)

Definition push_receipt (id : Z) (s : status_enum) (cpu_usage_us net_usage : Z) (b : building) : result building :=
  let net_usage_words := net_usage / 8 in
  check (u64 (net_usage_words * 8) =? net_usage) "net_usage is not divisible by 8" ;;
  Ok (mk_building (b_x b) (b_recorded b)
        (b_receipts b ++ [mk_trx_receipt id s (u32 cpu_usage_us) (u32 net_usage_words)]) (b_actions b)).

Definition with_x (b : building) (x : xstate) : building := mk_building x (b_recorded b) (b_receipts b) (b_actions b).
Definition add_actions (b : building) (l : list action_receipt) : building :=
  mk_building (b_x b) (b_recorded b) (b_receipts b) (b_actions b ++ l).
Definition record (b : building) (id expiration : Z) : building :=
  mk_building (b_x b) (<[id := expiration]> (b_recorded b)) (b_receipts b) (b_actions b).

(** ** Input transactions *)

Definition validate_expiration (e : xenv) (t : transaction) : result unit :=
  check (trx_expiration t * 1000000 >=? te_pending_block_time (xe_trx e)) "transaction has expired" ;;
  check (trx_expiration t * 1000000 <=?
           te_pending_block_time (xe_trx e) + max_transaction_lifetime (x_config e) * 1000000)
    "Transaction expiration is too far in the future".

Definition validate_tapos (a : push_args) (t : transaction) : result unit :=
  summary ← of_option (tapos a (u16 (ref_block_num t))) "unable to find block_summary_object";
  check (verify_reference_block summary t) "Transaction's reference block did not match".

(** [init_for_input_trx] *)
Definition init_for_input_trx (e : xenv) (a : push_args) (m : transaction_metadata) (b : building)
    : result (tcontext * building) :=
  let t := tm_trx m in
  disallow_transaction_extensions e t ;;
  (if skip_trx_checks (xe_trx e) then Ok tt
   else
     validate_expiration e t ;; validate_tapos a t ;;
     validate_referenced_accounts e t (enforce_whiteblacklist e && producing e) (b_x b)) ;;
  c ← init_context (xe_trx e) (now_init a) (input_net_usage (x_config e) t (unprunable_size m) (prunable_size m))
        (new_transaction_context e t (pa_billed_cpu_time_us a) true (b_x b));
  (if skip_recording a then Ok (c, b)
   else
     check (bool_decide (b_recorded b !! tm_id m = None)) "duplicate transaction" ;;
     Ok (c, record b (tm_id m) (trx_expiration t))).

Definition init_for_implicit_trx (e : xenv) (a : push_args) (t : transaction) (b : building) : result tcontext :=
  disallow_transaction_extensions e t ;;
  init_context (xe_trx e) (now_init a) 0 (new_transaction_context e t (pa_billed_cpu_time_us a) false (b_x b)).

(** The try block of [push_transaction]. *)
Definition try_transaction (e : xenv) (a : push_args) (m : transaction_metadata) (b : building)
    : result (outcome * building) :=
  let t := tm_trx m in
  let delay := delay_sec t * 1000000 in
  '(c, b) ← (if tm_implicit m then c ← init_for_implicit_trx e a t b; Ok (c, b) else init_for_input_trx e a m b);
  let x := load c (b_x b) in
  (if negb (skip_auth_check e) && negb (tm_implicit m) then
     check_authorization (auth_control e x) (auth_db (x_db x)) (trx_actions t) (recovered_keys m) [] delay false []
   else Ok tt) ;;
  '(c, x) ← exec_and_finalize e a t true delay c x;
  let cpu := billed_cpu_time_us (tc_cpu c) in
  let net := ts_net_usage (tc_net c) in
  let status := if delay =? 0 then executed else delayed in
  let b := with_x b x in
  b ← (if tm_implicit m then Ok b else push_receipt (tm_id m) status cpu net b);
  Ok (Retired (if tm_implicit m then executed else status) (u32 cpu) (u32 (net / 8)), add_actions b (x_executed x)).

(** The start of billing, moved back by the part of the time for signatures
    that is billed. *)
Definition billing_start (a : push_args) (m : transaction_metadata) (check_auth : bool) : Z :=
  if pa_explicit a then now_start a
  else
    let consumed := EOS_PERCENT (if check_auth then sig_cpu_usage m else 0) (sig_cpu_bill_pct a) in
    if now_start a <? consumed then 0 else now_start a - consumed.

Definition push_transaction (e : xenv) (a : push_args) (m : transaction_metadata) (b : building)
    : result (outcome * building) :=
  check (negb (pa_deadline a =? 0)) "deadline cannot be uninitialized" ;;
  let start := billing_start a m (negb (skip_auth_check e) && negb (tm_implicit m)) in
  let e := for_transaction e start (pa_deadline a) (pa_leeway a) (pa_explicit a)
             (negb (tm_implicit m)) (tm_id m) (te_pending_block_time (xe_trx e)) in
  match try_transaction e a m b with
  | Ok (o, b') => Ok (o, if keep_session a then b' else b)
  | Err msg => if bad_block msg then Err msg else Ok (Failed msg, b)
  end.

(** ** Deferred transactions *)

(** [init_for_deferred_trx] *)
Definition init_for_deferred_trx (e : xenv) (a : push_args) (t : transaction) (b : building) : result tcontext :=
  (if trx_expiration t =? 0 then Ok tt else disallow_transaction_extensions e t) ;;
  init_context (xe_trx e) (now_init a) 0 (new_transaction_context e t (pa_billed_cpu_time_us a) false (b_x b)).

Definition try_deferred (e : xenv) (a : push_args) (g : gto) (b : building) : result (outcome * building) :=
  let t := g_packed g in
  c ← init_for_deferred_trx e a t b;
  (if enforce_whiteblacklist e && producing e
   then check_actor_list (xe_lists e) (actors_of (trx_actions t ≫= act_authorization)) else Ok tt) ;;
  '(c, x) ← exec_and_finalize e a t false 0 c (load c (b_x b));
  let cpu := billed_cpu_time_us (tc_cpu c) in
  let net := ts_net_usage (tc_net c) in
  b ← push_receipt (g_trx_id g) executed cpu net (with_x b x);
  Ok (Retired executed (u32 cpu) (u32 (net / 8)), add_actions b (x_executed x)).

(** The action that is sent to the sender of a failed transaction. *)
Definition onerror_transaction (e : xenv) (g : gto) (data : chars) : transaction :=
  let act := mk_action system_account_name (N_ "onerror") [(g_sender g, active_name)] (OtherData data) in
  let t := mk_transaction 0 0 0 0 0 0 [] [act] [] in
  if is_builtin_activated e ProtocolFeatures.no_duplicate_deferred_id then t
  else set_reference_block (xe_head_block_id e)
         (with_header t (u32 ((te_pending_block_time (xe_trx e) + 999999) / 1000000)) 0 0 []).

(** [apply_onerror]; [data] is the packed onerror. *)
Definition default_subjective_cpu_leeway_us : Z := 31000.
Definition apply_onerror (e : xenv) (a : push_args) (g : gto) (data : chars) (b : building)
    : result (outcome * building) :=
  let t := onerror_transaction e g data in
  let e := for_transaction e (te_start (xe_trx e)) (pa_deadline a) default_subjective_cpu_leeway_us (pa_explicit a)
             (enforce_whiteblacklist e) (trx_hash e t) (g_published g) in
  c ← init_for_implicit_trx e a t b;
  let x := load c (b_x b) in
  match trx_actions t with
  | [act] =>
    let '(o, x) := schedule_action act (g_sender g) false 0 0 x in
    x ← execute_action (Z.to_nat (max_inline_action_depth (x_config e))) e o x;
    c ← finalize (xe_trx e) (now_end a) (unload c x);
    let x := store c x in
    let cpu := billed_cpu_time_us (tc_cpu c) in
    let net := ts_net_usage (tc_net c) in
    b ← push_receipt (g_trx_id g) soft_fail cpu net (with_x b x);
    Ok (Retired soft_fail (u32 cpu) (u32 (net / 8)), add_actions b (x_executed x))
  | _ => Err "unreachable"
  end.

(** The accounts that [init] has recorded when it, or what follows, fails:
    none if it fails before that. *)
Definition recorded_accounts (e : xenv) (a : push_args) (t : transaction) (b : building) : list Z :=
  let c := new_transaction_context e t (pa_billed_cpu_time_us a) false (b_x b) in
  match (if trx_expiration t =? 0 then Ok tt else disallow_transaction_extensions e t), get_block_net_limit (tc_res c),
        get_block_cpu_limit (tc_res c) with
  | Ok _, Ok _, Ok block_cpu_limit =>
    let '(objective, code) := initial_cpu_limit (x_config e) t block_cpu_limit in
    let billed := pa_billed_cpu_time_us a in
    match (if billed >? 0 then
             validate_cpu_usage_to_bill (xe_trx e) billed false
               (mk_cpu objective code false 0 block_cpu_usage_exceeded 0 0 0 false billed)
           else Ok tt) with
    | Ok _ => accounts_to_bill (xe_trx e) t
    | Err _ => []
    end
  | _, _, _ => []
  end.

(** The objective limit [init] started with; 0 if it had not come to it. *)
Definition initial_objective_duration_limit (e : xenv) (t : transaction) (b : building) : Z :=
  match get_block_cpu_limit (res_db (x_db (b_x b))) with
  | Ok l => (initial_cpu_limit (x_config e) t l).1
  | Err _ => 0
  end.

(** A hard failure: the accounts pay for the time, the transaction is retired. *)
Definition hard_failure (e : xenv) (a : push_args) (g : gto) (accounts : list Z) (cpu : Z) (b : building)
    : result (outcome * building) :=
  let res := res_db (x_db (b_x b)) in
  let slot := te_block_slot (xe_trx e) in
  '(cpu, res) ← (if pa_explicit a then Ok (cpu, res)
                 else
                   res ← update_account_usage accounts slot res;
                   bw ← max_bandwidth_billed_accounts_can_pay (xe_trx e) true accounts res;
                   Ok (u32 (Z.min (Z.min cpu (account_cpu_limit bw))
                              (initial_objective_duration_limit e (g_packed g) b)), res));
  res ← add_transaction_usage accounts cpu 0 slot res;
  let b := with_x b (set_res (b_x b) res) in
  b ← push_receipt (g_trx_id g) hard_fail cpu 0 b;
  Ok (Retired hard_fail (u32 cpu) 0, b).

(** The time billed for a failure: [update_billed_cpu_time] after it. *)
Definition failed_cpu_time (e : xenv) (a : push_args) : Z :=
  u32 (if pa_explicit a then pa_billed_cpu_time_us a
       else Z.max (now_end a - te_start (xe_trx e)) (min_transaction_cpu_usage (x_config e))).

(** The clock while the error handler runs. *)
Definition error_clock (a : push_args) : push_args :=
  mk_args (pa_deadline a) (pa_billed_cpu_time_us a) (pa_explicit a) (pa_leeway a) (now_start a)
    (now_error_init a) (now_error_end a) (now_error_init a) (now_error_end a) (sig_cpu_bill_pct a) (skip_recording a)
    (keep_session a) (tapos a).

Definition push_scheduled_transaction (e : xenv) (a : push_args) (g : gto) (onerror_data : chars) (b : building)
    : result (outcome * building) :=
  '(_, x) ← remove_scheduled_transaction e g (b_x b);
  let b1 := with_x b x in
  check (g_delay_until g <=? te_pending_block_time (xe_trx e)) "this transaction isn't ready" ;;
  if g_expiration g <? te_pending_block_time (xe_trx e) then
    b ← push_receipt (g_trx_id g) expired (pa_billed_cpu_time_us a) 0 b1;
    Ok (Retired expired (u32 (pa_billed_cpu_time_us a)) 0, b)
  else
    let enforce := if g_sender g =? 0 then true
                   else negb (sender_avoids_whitelist_blacklist_enforcement (xe_lists e) (g_sender g)) in
    let e := for_transaction (requiring_checks e) (now_start a) (pa_deadline a) 0 (pa_explicit a) enforce (g_trx_id g) (g_published g) in
    match try_deferred e a g b1 with
    | Ok r => Ok r
    | Err msg =>
      if bad_block msg then Err msg
      else
        r ← (if negb (g_sender g =? 0) && negb (failure_is_subjective msg) then
               match apply_onerror e (error_clock a) g onerror_data b1 with
               | Ok r => Ok (inl r)
               | Err msg => if bad_block msg then Err msg else Ok (inr (msg, failed_cpu_time e (error_clock a)))
               end
             else Ok (inr (msg, failed_cpu_time e a)));
        match r with
        | inl r => Ok r
        | inr (msg, cpu) =>
          let subjective := if pa_explicit a then failure_is_subjective msg else scheduled_failure_is_subjective msg in
          if subjective then Ok (Failed msg, b)
          else hard_failure e a g (recorded_accounts e a (g_packed g) b1) cpu b1
        end
    end.

(** ** The deduplication list ([clear_expired_input_transactions]) *)

Definition clear_expired_input_transactions (e : xenv) (b : building) : building :=
  mk_building (b_x b) (filter (fun p => te_pending_block_time (xe_trx e) <= p.2 * 1000000) (b_recorded b))
    (b_receipts b) (b_actions b).
End Push.
