(* ===== verification/PushSpec.v ===== *)
(** * What pushing transactions promises

    A deferred transaction is retired with one receipt or nothing happens; an
    input transaction does not get into the chain twice. *)

From stdpp Require Import base numbers gmap strings countable list sorting relations.
From Stdlib Require Import ZArith Lia.
From S2P Require Import Prelude Boost Names Accumulator ResourceLimits ResourceLimitsSpec Authority Authorization EosioContract EosioContractSpec.
From S2P Require Import Merkle ProtocolFeatures ChainConfig ActorList TransactionContext TransactionContextSpec Transactions Execution Deferred Actions.
From S2P Require Import ActionsSpec Push.
Local Open Scope Z_scope.

Section Spec.
Context {boost : Boost} {key : Type} `{PublicKey key} {W : Type}.
#[local] Abbreviation transaction := (transaction (key := key)).
#[local] Abbreviation gto := (generated_transaction_object (key := key)).
#[local] Abbreviation xenv := (xenv (key := key) (W := W)).
#[local] Abbreviation xstate := (xstate (key := key) (W := W)).
#[local] Abbreviation building := (building (key := key) (W := W)).
#[local] Abbreviation metadata := (transaction_metadata (key := key)).
Implicit Types (e : xenv) (a : push_args) (g : gto) (b : building) (m : metadata) (o : outcome).

(** ** Receipts *)

Lemma push_receipt_ok id s cpu net b b' : push_receipt id s cpu net b = Ok b' ->
  b_receipts b' = b_receipts b ++ [mk_trx_receipt id s (u32 cpu) (u32 (net / 8))] /\
  b_x b' = b_x b /\ b_recorded b' = b_recorded b /\ b_actions b' = b_actions b.
Proof. unfold push_receipt. intros Hr. ok_bind Hr as [] _. by apply (proj1 (Ok_inj _ _)) in Hr as <-. Qed.

(** The result of an attempt: one receipt for [id]. *)
Definition one_receipt (id : Z) o b b' : Prop :=
  exists s cpu words, o = Retired s cpu words /\ b_recorded b' = b_recorded b /\
    b_receipts b' = b_receipts b ++ [mk_trx_receipt id s cpu words].

Lemma try_deferred_ok e a g b o b' : try_deferred e a g b = Ok (o, b') ->
  one_receipt (g_trx_id g) o b b' /\ exists cpu words, o = Retired executed cpu words.
Proof.
  unfold try_deferred. intros Hr. ok_bind Hr as c _. ok_bind Hr as [] _. ok_bind Hr as [c1 x] _. ok_bind Hr as b1 H1.
  apply (proj1 (Ok_inj _ _)) in Hr. injection Hr as <- <-. apply push_receipt_ok in H1 as (R & _ & D & _). cbn in R, D.
  split; [|by eexists _, _]. eexists _, _, _. split; [done|]. by split.
Qed.

Lemma apply_onerror_ok e a g data b o b' : apply_onerror e a g data b = Ok (o, b') ->
  one_receipt (g_trx_id g) o b b' /\ exists cpu words, o = Retired soft_fail cpu words.
Proof.
  unfold apply_onerror. intros Hr. ok_bind Hr as c _. destruct (trx_actions _) as [|act [|]]; [done| |done].
  ok_bind Hr as x _. ok_bind Hr as c1 _. ok_bind Hr as b1 H1.
  apply (proj1 (Ok_inj _ _)) in Hr. injection Hr as <- <-. apply push_receipt_ok in H1 as (R & _ & D & _). cbn in R, D.
  split; [|by eexists _, _]. eexists _, _, _. split; [done|]. by split.
Qed.

(** The state but for resource usage. *)
Definition same_but_resources (x y : xstate) : Prop :=
  exists r, y = set_res x r.

Lemma hard_failure_ok e a g accounts cpu b o b' : hard_failure e a g accounts cpu b = Ok (o, b') ->
  one_receipt (g_trx_id g) o b b' /\ (exists cpu words, o = Retired hard_fail cpu words) /\
  same_but_resources (b_x b) (b_x b') /\ b_actions b' = b_actions b.
Proof.
  unfold hard_failure. intros Hr. ok_bind Hr as [cpu1 res] _. ok_bind Hr as res1 _. ok_bind Hr as b1 H1.
  apply (proj1 (Ok_inj _ _)) in Hr. injection Hr as <- <-. apply push_receipt_ok in H1 as (R & X & D & A). cbn in R, X, D, A.
  split_and!; [|by eexists _, _|by exists res1|done]. eexists _, _, _. split; [done|]. by split.
Qed.

Lemma remove_scheduled_ok e g x n y : remove_scheduled_transaction e g x = Ok (n, y) ->
  same_but_resources (set_generated x (remove_generated g (x_generated x))) y.
Proof.
  unfold remove_scheduled_transaction. intros Hr. ok_bind Hr as r _. apply (proj1 (Ok_inj _ _)) in Hr. injection Hr as _ <-.
  by exists r.
Qed.

Lemma scheduled_cases e a g data b o b' :
  push_scheduled_transaction e a g data b = Ok (o, b') ->
  (exists msg, o = Failed msg /\ b' = b) \/
  (one_receipt (g_trx_id g) o b b' /\
   forall s cpu words, o = Retired s cpu words -> s <> delayed /\
     (s = hard_fail \/ s = expired -> b_actions b' = b_actions b /\
        same_but_resources (set_generated (b_x b) (remove_generated g (x_generated (b_x b)))) (b_x b'))).
Proof.
  unfold push_scheduled_transaction. intros Hr. ok_bind Hr as [n x] Hrm. apply remove_scheduled_ok in Hrm as [r0 ->]. ok_bind Hr as [] _.
  destruct (g_expiration g <? _).
  { ok_bind Hr as b1 H1. apply (proj1 (Ok_inj _ _)) in Hr. injection Hr as <- <-.
    apply push_receipt_ok in H1 as (R & X & D & A). cbn in R, X, D, A. right. split; [eexists _, _, _; split; [done|by split]|].
    intros s cpu words [= <- <- <-]. split; [done|]. intros _. split; [done|]. exists r0. by rewrite X. }
  set (b1 := with_x b _) in Hr. set (e1 := for_transaction _ _ _ _ _ _ _ _) in Hr.
  destruct (try_deferred e1 a g b1) as [[o1 b2]|msg] eqn:E1.
  { apply (proj1 (Ok_inj _ _)) in Hr. injection Hr as <- <-. apply try_deferred_ok in E1 as [H1 (cpu & words & ->)]. right.
    split; [done|]. intros s cpu' words' [= <- <- <-]. split; [done|]. by intros []. }
  destruct (bad_block msg); [done|]. ok_bind Hr as r Hon. destruct r as [[o1 b2]|[msg1 cpu1]].
  { apply (proj1 (Ok_inj _ _)) in Hr. injection Hr as <- <-. right.
    destruct (_ && _); [|done]. destruct (apply_onerror e1 _ g data b1) as [[o2 b3]|] eqn:E2; [|by destruct (bad_block _)].
    apply (proj1 (Ok_inj _ _)) in Hon. injection Hon as -> ->. apply apply_onerror_ok in E2 as [H1 (cpu & words & ->)].
    split; [done|]. intros s cpu' words' [= <- <- <-]. split; [done|]. by intros []. }
  destruct (if pa_explicit a then _ else _).
  { apply (proj1 (Ok_inj _ _)) in Hr. injection Hr as <- <-. left. by exists msg1. }
  right. apply hard_failure_ok in Hr as (H1 & (cpu & words & ->) & [r1 X] & A). split; [done|].
  intros s cpu' words' [= <- <- <-]. split; [done|]. intros _. split; [done|]. exists r1. by rewrite X.
Qed.

(** A deferred transaction that is pushed either stays where it is, with
    nothing else changed, or is retired with exactly one receipt under its id.
    When it is retired without having been executed, neither by itself nor by
    an error handler, nothing but resource usage changes: no action is
    recorded, and the transaction is all that leaves the state. (C25) *)
Theorem scheduled_retired_once e a g data b o b' :
  push_scheduled_transaction e a g data b = Ok (o, b') ->
  (exists msg, o = Failed msg /\ b' = b) \/
  (one_receipt (g_trx_id g) o b b' /\
   forall s cpu words, o = Retired s cpu words -> s <> delayed /\
     (s = hard_fail \/ s = expired -> b_actions b' = b_actions b /\
        same_but_resources (set_generated (b_x b) (remove_generated g (x_generated (b_x b)))) (b_x b'))).
Proof. apply scheduled_cases. Qed.

Lemma scheduled_recorded e a g data b o b' : push_scheduled_transaction e a g data b = Ok (o, b') ->
  b_recorded b' = b_recorded b.
Proof. intros Hp. apply scheduled_cases in Hp as [(msg & _ & ->)|[(s & cpu & words & _ & Hr & _) _]]; done. Qed.

(** ** No transaction twice *)

Lemma try_transaction_recorded e a m b o b' : try_transaction e a m b = Ok (o, b') ->
  if tm_implicit m then b_recorded b' = b_recorded b
  else (skip_recording a = false -> b_recorded b !! tm_id m = None /\
          b_recorded b' = <[tm_id m := trx_expiration (tm_trx m)]> (b_recorded b)) /\
       (skip_trx_checks (xe_trx e) = false ->
          te_pending_block_time (xe_trx e) <= trx_expiration (tm_trx m) * 1000000).
Proof.
  unfold try_transaction. intros Hr. ok_bind Hr as [c b1] H1. ok_bind Hr as [] _. ok_bind Hr as [c1 x] _. ok_bind Hr as b2 H2.
  apply (proj1 (Ok_inj _ _)) in Hr. injection Hr as _ <-. destruct (tm_implicit m).
  - ok_bind H1 as c2 _. apply (proj1 (Ok_inj _ _)) in H1. injection H1 as _ <-. by apply (proj1 (Ok_inj _ _)) in H2 as <-.
  - apply push_receipt_ok in H2 as (_ & _ & E2 & _). cbn [b_recorded with_x add_actions] in *. rewrite E2.
    unfold init_for_input_trx in H1. ok_bind H1 as [] _. ok_bind H1 as [] Hv. ok_bind H1 as c2 _. split.
    + intros Hs. rewrite Hs in H1. ok_bind H1 as [] Hd. apply (proj1 (Ok_inj _ _)) in H1. injection H1 as _ <-.
      apply (proj1 (check_ok _ _ _)) in Hd. by apply bool_decide_eq_true_1 in Hd.
    + intros Hs. rewrite Hs in Hv. ok_bind Hv as [] He. unfold validate_expiration in He. ok_bind He as [] H3.
      apply (proj1 (check_ok _ _ _)) in H3. lia.
Qed.

(** Expirations are part of what the id is the hash of. *)
Variable expiration_of : Z -> Z.

(** What happens to the chain: a new block starts no earlier than the one
    before and forgets expired transactions; transactions are pushed.  The
    ids of the input transactions that got in are logged. *)
Inductive chain_step : Z * building * list Z -> Z * building * list Z -> Prop :=
| cs_block e t b log receipts actions : t <= te_pending_block_time (xe_trx e) ->
    chain_step (t, b, log)
      (te_pending_block_time (xe_trx e),
       (let b := clear_expired_input_transactions e b in mk_building (b_x b) (b_recorded b) receipts actions), log)
| cs_push e a m b log o b' : trx_expiration (tm_trx m) = expiration_of (tm_id m) ->
    skip_trx_checks (xe_trx e) = false -> skip_recording a = false -> keep_session a = true ->
    push_transaction e a m b = Ok (o, b') ->
    chain_step (te_pending_block_time (xe_trx e), b, log)
      (te_pending_block_time (xe_trx e), b',
       match o with Retired _ _ _ => if tm_implicit m then log else log ++ [tm_id m] | Failed _ => log end)
| cs_scheduled e a g data b log o b' : push_scheduled_transaction e a g data b = Ok (o, b') ->
    chain_step (te_pending_block_time (xe_trx e), b, log) (te_pending_block_time (xe_trx e), b', log).

(** What got in is still recorded, or is past its expiration. *)
Definition remembered (s : Z * building * list Z) : Prop :=
  let '(t, b, log) := s in NoDup log /\ forall id, id ∈ log ->
    b_recorded b !! id = Some (expiration_of id) \/ expiration_of id * 1000000 < t.

Lemma chain_step_remembered s s' : chain_step s s' -> remembered s -> remembered s'.
Proof.
  intros Hs. destruct Hs as [e t b log rc ac Ht|e a m b log o b' Hexp Hsk Hrec Hkeep Hp|e a g data b log o b' Hp]; intros [Hnd Hl].
  - split; [done|]. intros id Hid. cbn. destruct (Hl id Hid) as [Hr|Hlt]; [|right; lia].
    destruct (decide (te_pending_block_time (xe_trx e) <= expiration_of id * 1000000)) as [Hle|]; [|right; lia].
    left. apply map_lookup_filter_Some. by split.
  - unfold push_transaction in Hp. ok_bind Hp as [] _. set (e1 := for_transaction _ _ _ _ _ _ _ _) in Hp.
    destruct (try_transaction e1 a m b) as [[o1 b1]|msg] eqn:Et.
    + apply (proj1 (Ok_inj _ _)) in Hp. rewrite Hkeep in Hp. injection Hp as <- <-.
      pose proof Et as Et'. apply try_transaction_recorded in Et. destruct (tm_implicit m) eqn:Ei.
      * assert (Hb : forall l, remembered (te_pending_block_time (xe_trx e), b1, l) <-> remembered (te_pending_block_time (xe_trx e), b, l))
          by (intros; unfold remembered; by rewrite Et). by destruct o1; apply Hb.
      * destruct Et as [Et1 Et2]. destruct (Et1 Hrec) as [Hn Hb]. specialize (Et2 Hsk). cbn in Et2. rewrite Hexp in *.
        assert (Hnew : tm_id m ∉ log) by (intros Hin; destruct (Hl _ Hin) as [|]; [congruence|lia]).
        assert (Hlog : forall id, id ∈ log -> b_recorded b1 !! id = Some (expiration_of id) \/ expiration_of id * 1000000 < te_pending_block_time (xe_trx e)).
        { intros id Hid. rewrite Hb. destruct (decide (id = tm_id m)) as [->|Hne]; [by rewrite lookup_insert_eq; left|].
          rewrite lookup_insert_ne by done. by apply Hl. }
        destruct o1; [|by split]. split.
        -- apply NoDup_app. split_and!; [done| |apply NoDup_singleton]. intros id Hid ->%list_elem_of_singleton. done.
        -- intros id [Hid| ->%list_elem_of_singleton]%elem_of_app; [by apply Hlog|]. left. by rewrite Hb, lookup_insert_eq.
    + destruct (bad_block msg); [done|]. apply (proj1 (Ok_inj _ _)) in Hp. injection Hp as <- <-. by split.
  - unfold remembered. split; [done|].
    assert (b_recorded b' = b_recorded b) as ->; [|done].
    by eapply scheduled_recorded.
Qed.

(** No input transaction gets into the chain twice: as long as blocks do not
    go back in time, one that is forgotten has expired.  The node does not skip
    the checks of transactions. (C6) *)
Theorem no_transaction_twice t b s : rtc chain_step (t, b, []) s -> NoDup s.2.
Proof.
  intros Hs. assert (Hr : remembered s).
  { assert (H0 : remembered (t, b, [])) by (split; [constructor|by intros id ?%not_elem_of_nil]).
    induction Hs as [|s1 s2 s3 H1 _ IH]; [done|]. by apply IH, (chain_step_remembered s1). }
  by destruct s as [[t' b'] log], Hr.
Qed.
End Spec.

(** ** A receipt respects the limits

    Execution changes neither the limits of the transaction nor the averages
    they are checked against, so that what is billed at the end is within the
    limits that were set at the beginning. *)

Section Limits.
Context {boost : Boost} {key : Type} `{PublicKey key} {W : Type}.
#[local] Abbreviation transaction := (transaction (key := key)).
#[local] Abbreviation xenv := (xenv (key := key) (W := W)).
#[local] Abbreviation xstate := (xstate (key := key) (W := W)).
#[local] Abbreviation actx := (actx (key := key)).
#[local] Abbreviation program := (program (key := key) (W := W)).
Implicit Types (e : xenv) (x y : xstate) (c d : actx) (r : rdb).

(** The configuration, the state and the averages of the accounts. *)
Record averages_kept r r' : Prop := {
  ak_config : config r' = config r; ak_state : rstate r' = rstate r;
  ak_usage : forall a u, usages r !! a = Some u -> exists u', usages r' !! a = Some u' /\
    net_usage u' = net_usage u /\ cpu_usage u' = cpu_usage u }.

#[export] Instance averages_preorder : PreOrder averages_kept.
Proof.
  split; [by split; eauto|]. intros r1 r2 r3 [A1 A2 A3] [B1 B2 B3]. split; [congruence|congruence|].
  intros a u Hu. destruct (A3 a u Hu) as (u2 & Hu2 & N2 & C2). destruct (B3 a u2 Hu2) as (u3 & Hu3 & N3 & C3).
  exists u3. split; [done|]. split; congruence.
Qed.

Lemma averages_insert r a u u' : usages r !! a = Some u -> net_usage u' = net_usage u -> cpu_usage u' = cpu_usage u ->
  averages_kept r (set_usages r (<[a := u']> (usages r))).
Proof.
  intros Hu Hn Hc. split; [done|done|]. intros b v Hv. cbn. destruct (decide (a = b)) as [->|Hne].
  - rewrite lookup_insert_eq. exists u'. split; [done|]. rewrite Hu in Hv. by injection Hv as <-.
  - rewrite lookup_insert_ne by done. by exists v.
Qed.

Lemma add_pending_averages a n r r' : add_pending_ram_usage a n r = Ok r' -> averages_kept r r'.
Proof.
  unfold add_pending_ram_usage. intros Hr. destruct (n =? 0); [by apply (proj1 (Ok_inj _ _)) in Hr as <-|].
  ok_bind Hr as u Hu. do 2 ok_bind Hr as [] _. apply (proj1 (Ok_inj _ _)) in Hr as <-. unfold get_usage in Hu.
  apply option_found in Hu. by eapply averages_insert.
Qed.
Lemma initialize_account_averages a r r' : initialize_account a r = Ok r' -> averages_kept r r'.
Proof.
  unfold initialize_account. intros Hr. ok_bind Hr as [] _. ok_bind Hr as [] Hn. apply (proj1 (Ok_inj _ _)) in Hr as <-.
  apply (proj1 (check_ok _ _ _)) in Hn. apply bool_decide_eq_true_1 in Hn. split; [done|done|].
  intros b v Hv. cbn. rewrite lookup_insert_ne by congruence. by exists v.
Qed.
Lemma set_limits_averages a ram net cpu r b r' : set_account_limits a ram net cpu r = Ok (b, r') -> averages_kept r r'.
Proof.
  unfold set_account_limits. intros Hr. ok_bind Hr as l _. apply (proj1 (Ok_inj _ _)) in Hr. injection Hr as _ <-. split; [done|done|eauto].
Qed.

(** ** Native handlers *)

#[local] Abbreviation chain_db := (chain_db (key := key)).
Definition db_kept (db db' : chain_db) : Prop := averages_kept (res_db db) (res_db db').

#[export] Instance db_kept_preorder : PreOrder db_kept.
Proof. split; [intros x; unfold db_kept; reflexivity|]. intros x y z. unfold db_kept. apply transitivity. Qed.

Lemma native_ram_kept a n (db db' : chain_db) : EosioContract.add_ram_usage a n db = Ok db' -> db_kept db db'.
Proof.
  unfold EosioContract.add_ram_usage. intros Hr. ok_bind Hr as r Hx. apply (proj1 (Ok_inj _ _)) in Hr as <-. by eapply add_pending_averages.
Qed.
Lemma native_bill_kept (b : bool) a n (db db' : chain_db) :
  (if b then Ok db else EosioContract.add_ram_usage a n db) = Ok db' -> db_kept db db'.
Proof. destruct b; [intros E; apply (proj1 (Ok_inj _ _)) in E as <-; reflexivity|apply native_ram_kept]. Qed.

Lemma native_kept cx (n : native_action (key := key)) (db db' : chain_db) : native_apply cx n db = Ok db' -> db_kept db db'.
Proof.
  destruct n as [a|a|a|a|a|a|a]; cbn [native_apply]; intros Hr.
  - unfold apply_eosio_newaccount in Hr. do 5 ok_bind Hr as [] _. ok_bind Hr as cr _. do 3 ok_bind Hr as [] _.
    do 2 ok_bind Hr as [] _. ok_bind Hr as [p1 a1] _. ok_bind Hr as [p2 a2] _. ok_bind Hr as r Hx.
    apply native_ram_kept in Hr. etrans; [|exact Hr]. exact (initialize_account_averages _ _ _ Hx).
  - unfold apply_eosio_setcode in Hr. do 3 ok_bind Hr as [] _. ok_bind Hr as h _. ok_bind Hr as m Hm. ok_bind Hr as [] _.
    ok_bind Hr as [os db1] H1. apply native_bill_kept in Hr.
    assert (res_db db1 = res_db db) as E.
    { destruct (negb _); [|apply (proj1 (Ok_inj _ _)) in H1; by injection H1 as _ <-].
      ok_bind H1 as en _. ok_bind H1 as [] _. apply (proj1 (Ok_inj _ _)) in H1. by injection H1 as _ <-. }
    etrans; [|exact Hr]. unfold db_kept. rewrite <- E. by destruct (_ >? 0).
  - unfold apply_eosio_setabi in Hr. ok_bind Hr as [] _. ok_bind Hr as ac _. ok_bind Hr as m Hm. by apply native_bill_kept in Hr.
  - unfold apply_eosio_updateauth in Hr. do 4 ok_bind Hr as [] _. ok_bind Hr as ac _. do 5 ok_bind Hr as [] _.
    ok_bind Hr as p _. ok_bind Hr as i _. destruct p as [p|].
    + ok_bind Hr as [] _. by apply native_ram_kept in Hr.
    + ok_bind Hr as [p a1] _. by apply native_ram_kept in Hr.
  - unfold apply_eosio_deleteauth in Hr. do 4 ok_bind Hr as [] _. ok_bind Hr as p _. ok_bind Hr as a1 _. by apply native_ram_kept in Hr.
  - unfold apply_eosio_linkauth in Hr. do 2 ok_bind Hr as [] _. do 2 ok_bind Hr as ? _. ok_bind Hr as [] _.
    destruct (links _ !! _).
    + ok_bind Hr as [] _. apply (proj1 (Ok_inj _ _)) in Hr as <-. unfold db_kept. reflexivity.
    + by apply native_ram_kept in Hr.
  - unfold apply_eosio_unlinkauth in Hr. ok_bind Hr as [] _. ok_bind Hr as l _. ok_bind Hr as db1 H1.
    apply (proj1 (Ok_inj _ _)) in Hr as <-. by apply native_ram_kept in H1.
Qed.

(** ** Host calls *)

Definition net_kept (n n' : net_state) : Prop :=
  net_limit n' = net_limit n /\ (is_u64 (ts_net_usage n) -> is_u64 (ts_net_usage n')).

Record resources_kept x y : Prop := {
  rk_averages : db_kept (x_db x) (x_db y); rk_net : net_kept (x_net x) (x_net y) }.

#[export] Instance resources_preorder : PreOrder resources_kept.
Proof.
  split; [by split|]. intros x1 x2 x3 [A1 [A2 A3]] [B1 [B2 B3]]. split; [by etrans|split; [congruence|tauto]].
Qed.

Lemma kept_same x y : res_db (x_db y) = res_db (x_db x) -> x_net y = x_net x -> resources_kept x y.
Proof. intros E1 E2. split; [unfold db_kept; by rewrite E1|unfold net_kept; by rewrite E2]. Qed.

Lemma x_add_ram_kept a n c x d y : x_add_ram_usage a n c x = Ok (d, y) -> resources_kept x y.
Proof.
  unfold x_add_ram_usage. intros Hr. ok_bind Hr as r Hx. apply (proj1 (Ok_inj _ _)) in Hr. injection Hr as _ <-.
  apply add_pending_averages in Hx. split; [|by destruct (n >? 0)]. unfold db_kept. by destruct (n >? 0).
Qed.
Lemma add_net_usage_kept te u n n' : add_net_usage te u n = Ok n' -> net_kept n n'.
Proof.
  unfold add_net_usage. intros Hr. ok_bind Hr as [] _. apply (proj1 (Ok_inj _ _)) in Hr as <-. split; [done|]. intros _. apply u64_range.
Qed.

Lemma store_generated_kept e i p trx b c x g d y : store_generated e i p trx b c x = Ok (g, d, y) -> resources_kept x y.
Proof.
  unfold store_generated. intros Hr. destruct (find_by_sender_id _ _ _) as [ptr|].
  - do 2 ok_bind Hr as [] _. ok_bind Hr as [c1 x1] H1. ok_bind Hr as l _. apply (proj1 (Ok_inj _ _)) in Hr.
    injection Hr as _ _ <-. transitivity x1; [|by apply kept_same]. destruct (is_builtin_activated e _); [by eapply x_add_ram_kept|].
    apply (proj1 (Ok_inj _ _)) in H1. injection H1 as _ <-. by apply kept_same.
  - ok_bind Hr as l _. apply (proj1 (Ok_inj _ _)) in Hr. injection Hr as _ _ <-. by apply kept_same.
Qed.
Lemma schedule_deferred_kept e i p trx b c x d y : schedule_deferred_transaction e i p trx b c x = Ok (d, y) -> resources_kept x y.
Proof.
  unfold schedule_deferred_transaction. intros Hr. do 2 ok_bind Hr as [] _. ok_bind Hr as t' _. ok_bind Hr as n Hn.
  ok_bind Hr as [] _. ok_bind Hr as [[g c1] x1] H1. ok_bind Hr as [] _. transitivity (set_net x n).
  - split; [done|]. by eapply add_net_usage_kept.
  - transitivity x1; [by eapply store_generated_kept|by eapply x_add_ram_kept].
Qed.
Lemma cancel_deferred_kept e i s c x b d y : cancel_deferred_transaction e i s c x = Ok (b, d, y) -> resources_kept x y.
Proof.
  unfold cancel_deferred_transaction. intros Hr. destruct (find_by_sender_id _ _ _) as [g|].
  - ok_bind Hr as [c1 x1] H1. apply (proj1 (Ok_inj _ _)) in Hr. injection Hr as _ _ <-.
    transitivity x1; [by eapply x_add_ram_kept|by apply kept_same].
  - apply (proj1 (Ok_inj _ _)) in Hr. by injection Hr as _ _ <-.
Qed.
Lemma recipient_kept q c x d y : require_recipient q c x = Ok (d, y) -> resources_kept x y.
Proof.
  unfold require_recipient. intros Hr. destruct (has_recipient c q); [|ok_bind Hr as [o x1] Ho];
    apply (proj1 (Ok_inj _ _)) in Hr; injection Hr as _ <-; [done|].
  unfold ctx_schedule_ordinal in Ho. ok_bind Ho as t _. apply (proj1 (Ok_inj _ _)) in Ho. injection Ho as _ <-. by apply kept_same.
Qed.
Lemma inline_kept e a c x d y : execute_inline e a c x = Ok (d, y) -> resources_kept x y.
Proof. unfold execute_inline. intros Hr. do 4 ok_bind Hr as ? _. apply (proj1 (Ok_inj _ _)) in Hr. injection Hr as _ <-. by apply kept_same. Qed.
Lemma cfa_inline_kept (a : chain_action (key := key)) c x d y : execute_context_free_inline a c x = Ok (d, y) -> resources_kept x y.
Proof. unfold execute_context_free_inline. intros Hr. do 2 ok_bind Hr as ? _. apply (proj1 (Ok_inj _ _)) in Hr. injection Hr as _ <-. by apply kept_same. Qed.
Lemma db_usage_kept e a n c x d y : x_update_db_usage e a n c x = Ok (d, y) -> resources_kept x y.
Proof. unfold x_update_db_usage. intros Hr. ok_bind Hr as [] _. by eapply x_add_ram_kept. Qed.
Lemma set_resource_limits_kept a q n u c x d y : set_resource_limits a q n u c x = Ok (d, y) -> resources_kept x y.
Proof.
  unfold set_resource_limits. intros Hr. do 3 ok_bind Hr as [] _. ok_bind Hr as [b r'] Hs. apply set_limits_averages in Hs.
  apply (proj1 (Ok_inj _ _)) in Hr. injection Hr as _ <-. split; [unfold db_kept; by destruct b|by destruct b].
Qed.
Lemma set_privileged_kept a b c x d y : set_privileged a b c x = Ok (d, y) -> resources_kept x y.
Proof. unfold set_privileged. intros Hr. ok_bind Hr as m _. apply (proj1 (Ok_inj _ _)) in Hr. injection Hr as _ <-. by apply kept_same. Qed.

#[local] Create HintDb kept.
#[local] Hint Resolve recipient_kept inline_kept cfa_inline_kept db_usage_kept schedule_deferred_kept
  set_resource_limits_kept set_privileged_kept : kept.

Lemma run_kept e (p : program) c x d y : run e p c x = Ok (d, y) -> resources_kept x y.
Proof.
  revert c x. induction p as [|msg|f k IH|r k IH|a k IH|a q k IH|a k IH|a k IH|k IH|size a k IH|size a k IH|i pa t b k IH|i k IH
    |pa n k IH|a r n u k IH|a b k IH]; intros c x Hr; cbn [run] in Hr; try done.
  1: { apply (proj1 (Ok_inj _ _)) in Hr. by injection Hr as _ <-. }
  1: { ok_bind Hr as [] _. transitivity (set_tables x (f (x_tables x))); [by apply kept_same|eauto]. }
  2,3: do 2 ok_bind Hr as [] _; eauto.
  2,3: ok_bind Hr as [] _; eauto.
  2: ok_bind Hr as [] _; ok_bind Hr as s _; eauto.
  all: ok_bind Hr as [] _.
  2,3: ok_bind Hr as [] _.
  5: ok_bind Hr as [[bb c1] x1] H1; transitivity x1; [by eapply cancel_deferred_kept|eauto].
  all: ok_bind Hr as [c1 x1] H1; transitivity x1; [eauto with kept|eauto].
Qed.

(** ** Execution *)

Lemma note_changes_kept l c x : resources_kept x (note_changes l c x).2.
Proof.
  unfold note_changes. revert c x. induction l as [|[a n] l IH]; intros c x; simpl; [done|].
  etrans; [|apply IH]. destruct (n >? 0); [by apply kept_same|done].
Qed.

Lemma apply_action_kept e c x d y : apply_action e c x = Ok (d, y) -> resources_kept x y.
Proof.
  unfold apply_action. intros Hr. ok_bind Hr as m _. ok_bind Hr as [c1 x1] H1. ok_bind Hr as m1 _. ok_bind Hr as [c2 x2] H2.
  ok_bind Hr as [] _. apply (proj1 (Ok_inj _ _)) in Hr. injection Hr as _ <-. transitivity x1.
  - destruct (is_native_action _ _ _); [|apply (proj1 (Ok_inj _ _)) in H1; by injection H1 as _ <-].
    ok_bind H1 as [] _. unfold apply_native in H1. destruct (_ =? N_ "canceldelay").
    + destruct (act_data _); try done. unfold apply_eosio_canceldelay in H1. ok_bind H1 as [] _.
      ok_bind H1 as [[b c3] x3] H3. apply (proj1 (Ok_inj _ _)) in H1. injection H1 as _ <-. by eapply cancel_deferred_kept.
    + ok_bind H1 as n _. ok_bind H1 as db Hdb. apply (proj1 (Ok_inj _ _)) in H1. apply native_kept in Hdb.
      assert (K : resources_kept x (set_db x db)) by (by split).
      etrans; [exact K|]. pose proof (note_changes_kept (ram_changes (res_db (x_db x)) (res_db db))
        (set_privilege c (is_privileged m)) (set_db x db)) as K'. by rewrite H1 in K'.
  - destruct (runs_code _ _ _); [|apply (proj1 (Ok_inj _ _)) in H2; by injection H2 as _ <-].
    ok_bind H2 as [] _. by eapply run_kept.
Qed.

Lemma make_receipt_kept e c x q y : make_receipt e c x = Ok (q, y) -> resources_kept x y.
Proof.
  unfold make_receipt, next_global_sequence. intros Hr. ok_bind Hr as [n x1] H1. ok_bind Hr as f _. ok_bind Hr as [s x2] H2.
  apply (proj1 (Ok_inj _ _)) in Hr. injection Hr as _ <-. transitivity x1.
  - unfold next_recv_sequence in H1. ok_bind H1 as m _. apply (proj1 (Ok_inj _ _)) in H1. injection H1 as _ <-. by apply kept_same.
  - unfold auth_sequences in H2. change x2 with (s, x2).2. revert H2. apply (mfold_inv (fun p => resources_kept x1 p.2)); [|done].
    intros [s1 z1] b [s2 z2] _ Q Hs. ok_bind Hs as [m z3] Hn. apply (proj1 (Ok_inj _ _)) in Hs. injection Hs as _ <-.
    unfold next_auth_sequence in Hn. ok_bind Hn as m' Hm. apply (proj1 (Ok_inj _ _)) in Hn. injection Hn as _ <-.
    etrans; [exact Q|]. by apply kept_same.
Qed.

Lemma exec_one_kept e c x d y : exec_one e c x = Ok (d, y) -> resources_kept x y.
Proof.
  unfold exec_one, finalize_trace. intros Hr. ok_bind Hr as [c1 x1] H1. ok_bind Hr as [r x2] H2. ok_bind Hr as t _.
  apply (proj1 (Ok_inj _ _)) in Hr. injection Hr as _ <-. transitivity x1; [by eapply apply_action_kept|].
  transitivity x2; [by eapply make_receipt_kept|by apply kept_same].
Qed.

Lemma exec_notified_kept fuel e i c x d y : exec_notified fuel e i c x = Ok (d, y) -> resources_kept x y.
Proof.
  revert i c x. induction fuel as [|fuel IH]; intros i c x Hr; cbn [exec_notified] in Hr;
    (destruct (_notified c !! i) as [[r o]|]; [|apply (proj1 (Ok_inj _ _)) in Hr; by injection Hr as _ <-]); [done|].
  ok_bind Hr as [c1 x1] H1. transitivity x1; [by eapply exec_one_kept|eauto].
Qed.

Lemma kept_mfold {A} (f : xstate -> A -> result xstate) l x y :
  (forall x a y, f x a = Ok y -> resources_kept x y) -> mfold f l x = Ok y -> resources_kept x y.
Proof.
  intros Hf. apply (mfold_inv (resources_kept x)); [|done]. intros x1 a x2 _ K H1. etrans; [exact K|eauto].
Qed.

Lemma execute_action_kept levels e o x y : execute_action levels e o x = Ok y -> resources_kept x y.
Proof.
  revert o x y. induction levels as [|levels IH]; intros o x y Hr; cbn [execute_action] in Hr;
    ok_bind Hr as c _; ok_bind Hr as [c1 x1] H1; ok_bind Hr as [c2 x2] H2;
    (transitivity x1; [by eapply exec_one_kept|]); (transitivity x2; [by eapply exec_notified_kept|]);
    destruct (_cfa_inline_actions c2 ++ _inline_actions c2) as [|o' l]; try done;
    try (by apply (proj1 (Ok_inj _ _)) in Hr as <-).
  eapply kept_mfold; [|exact Hr]. intros x3 a x4 H4. by apply (IH a).
Qed.

Lemma schedule_all_kept cf (l : list (chain_action (key := key))) x : resources_kept x (schedule_all cf l x).
Proof.
  unfold schedule_all. revert x. induction l as [|a l IH]; intros x; simpl; [done|]. etrans; [|apply IH]. by apply kept_same.
Qed.

Lemma exec_transaction_kept e (t : transaction) cf delay x y : exec_transaction e t cf delay x = Ok y -> resources_kept x y.
Proof.
  unfold exec_transaction. intros Hr. ok_bind Hr as x3 H3.
  set (x1 := if cf then schedule_all true (trx_context_free_actions t) x else x) in *.
  set (x2 := if delay =? 0 then schedule_all false (trx_actions t) x1 else x1) in *.
  transitivity x1; [unfold x1; destruct cf; [apply schedule_all_kept|done]|].
  transitivity x2; [unfold x2; destruct (delay =? 0); [apply schedule_all_kept|done]|].
  transitivity x3; [eapply kept_mfold; [|exact H3]; intros u o v Hv; exact (execute_action_kept _ _ _ _ _ Hv)|].
  destruct (delay =? 0); [by apply (proj1 (Ok_inj _ _)) in Hr as <-|].
  unfold schedule_transaction in Hr. ok_bind Hr as x4 H4. ok_bind Hr as l _. ok_bind Hr as r Hx. transitivity x4.
  - destruct (delay_sec t =? 0); [|by apply (proj1 (Ok_inj _ _)) in H4 as <-]. ok_bind H4 as n Hn.
    apply (proj1 (Ok_inj _ _)) in H4 as <-. split; [done|]. by eapply add_net_usage_kept.
  - apply (proj1 (Ok_inj _ _)) in Hr as <-. apply add_pending_averages in Hx.
    split; [|by destruct (_ >? 0)]. unfold db_kept. by destruct (_ >? 0).
Qed.

(** ** Receipts *)

Lemma init_net_range te now u (c0 c1 : transaction_context (key := key)) :
  init_context te now u c0 = Ok c1 -> is_u64 (ts_net_usage (tc_net c0)) ->
  is_u64 (ts_net_usage (tc_net c1)).
Proof.
  unfold init_context. intros Hr Hu. ok_bind Hr as [] _. ok_bind Hr as bn _. ok_bind Hr as bc _.
  destruct (initial_net_limit _ _ bn) as [l due]. destruct (initial_cpu_limit _ _ bc) as [obj code].
  ok_bind Hr as [] _. ok_bind Hr as res _. ok_bind Hr as b _. destruct (if Z.min l _ <? l then _ else _) as [eager due'].
  destruct (if account_cpu_limit b + te_leeway te <=? obj then _ else _) as [d code'].
  destruct (if explicit_billed_cpu_time te || _ then _ else _) as [d' dcode].
  ok_bind Hr as n Hn. ok_bind Hr as [] _. apply (proj1 (Ok_inj _ _)) in Hr as <-. cbn [tc_net].
  destruct (u >? 0); [|by apply (proj1 (Ok_inj _ _)) in Hn as <-]. by apply add_net_usage_kept in Hn as [_ Hn]; apply Hn.
Qed.

(** A transaction context that is executed keeps its limits. *)
Lemma executed_kept e (t : transaction) cf delay (c1 : transaction_context (key := key)) x y :
  exec_transaction e t cf delay (load c1 x) = Ok y -> kept c1 (unload c1 y).
Proof.
  intros Hx. apply exec_transaction_kept in Hx as [[K1 K2 K3] [K4 _]]. split; [done|done|done|exact K1|exact K2|exact K3].
Qed.

(** The receipt of an input transaction that gets into a block respects the
    limits: its net usage is at most what was left in the block, the maximum
    for a transaction and what its header allows; its CPU time is at least the
    minimum, and at most what was left, the maximum and what its header allows.
    The node does not skip the checks of transactions. (C26) *)
Theorem receipt_respects_limits e a m b s cpu words b' :
  push_transaction e a m b = Ok (Retired s cpu words, b') -> tm_implicit m = false ->
  skip_trx_checks (xe_trx e) = false -> is_u32 (max_net_usage_words (tm_trx m)) -> config_range (x_config e) ->
  (words * 8 <= max_transaction_net_usage (x_config e) /\
   (exists block, get_block_net_limit (res_db (x_db (b_x b))) = Ok block /\ words * 8 <= block) /\
   (0 < max_net_usage_words (tm_trx m) -> words <= max_net_usage_words (tm_trx m))) /\
  (min_transaction_cpu_usage (x_config e) <= cpu <= max_transaction_cpu_usage (x_config e) /\
   (exists block, get_block_cpu_limit (res_db (x_db (b_x b))) = Ok block /\ cpu <= i64 block) /\
   (0 < max_cpu_usage_ms (tm_trx m) -> cpu <= max_cpu_usage_ms (tm_trx m) * 1000)).
Proof.
  unfold push_transaction. intros Hr Hi Hsk Hw Hcfg. ok_bind Hr as [] _. set (e1 := for_transaction _ _ _ _ _ _ _ _) in Hr.
  destruct (try_transaction e1 a m b) as [[o b1]|msg] eqn:Et; [|by destruct (bad_block msg)].
  apply (proj1 (Ok_inj _ _)) in Hr. injection Hr as -> _. unfold try_transaction in Et. rewrite Hi in Et.
  ok_bind Et as [c1 b2] H1. ok_bind Et as [] _. ok_bind Et as [c4 y] H2. ok_bind Et as b3 _.
  apply (proj1 (Ok_inj _ _)) in Et. injection Et as _ <- <- _.
  unfold init_for_input_trx in H1. ok_bind H1 as [] _. ok_bind H1 as [] _. ok_bind H1 as c0 Hinit.
  assert (c0 = c1 /\ b_x b2 = b_x b) as [-> Eb].
  { destruct (skip_recording a); [|ok_bind H1 as [] _]; apply (proj1 (Ok_inj _ _)) in H1; by injection H1 as <- <-. }
  unfold exec_and_finalize in H2. ok_bind H2 as y1 Hexec. ok_bind H2 as c3 Hfin.
  apply (proj1 (Ok_inj _ _)) in H2. injection H2 as -> _. unfold finalize in Hfin. ok_bind Hfin as c5 Hset. ok_bind Hfin as res _.
  apply (proj1 (Ok_inj _ _)) in Hfin as <-. cbn [tc_cpu tc_net with_res].
  assert (Hu : is_u64 (ts_net_usage (tc_net (unload c1 y1)))).
  { apply exec_transaction_kept in Hexec as [_ [_ K]]. apply K. cbn. eapply init_net_range; [exact Hinit|]. split; vm_compute; congruence. }
  apply executed_kept in Hexec.
  destruct (billing_limits (xe_trx e1) _ _ _ (new_transaction_context e1 (tm_trx m) (pa_billed_cpu_time_us a) true (b_x b))
    _ _ c5 Hsk Hw Hu Hinit Hexec Hset) as
    ((Hdiv & _ & (bn & Hbn & Lbn) & Lmax & Lhdr) & (Lmin & (bc & Hbc & Lbc) & Lcmax & Lchdr) & _).
  set (net := ts_net_usage (tc_net c5)) in *. set (cpu := billed_cpu_time_us (tc_cpu c5)) in *.
  unfold config_range in Hcfg. destruct_and!. change (te_cfg (xe_trx e1)) with (x_config e) in *.
  assert (0 <= net) by (destruct (settle_inv _ _ _ _ Hset Hsk) as (bw & _ & _ & _ & En & _); unfold net; rewrite En; apply u64_range).
  destruct Hdiv as [q Hq]. replace (net / 8) with q by (rewrite Hq, Z.div_mul; lia).
  rewrite (u32_small q) by (unfold is_u32 in *; lia). rewrite (u32_small cpu) by (unfold is_u32 in *; lia).
  split.
  { split_and!; [lia|exists bn; split; [exact Hbn|lia]|]. intros Hp. specialize (Lhdr Hp). cbn in Lhdr. lia. }
  split_and!; [lia|lia|exists bc; split; [exact Hbc|lia]|exact Lchdr].
Qed.
End Limits.
