(* ===== verification/ExecutionRuns.v ===== *)
(** * A contract at work

    An account with a contract that notifies another account, uses RAM, sends
    an inline action and schedules a deferred transaction; the transaction
    that calls it, and the retirement of the deferred one. *)

From stdpp Require Import base numbers list gmap strings relations.
From Stdlib Require Import ZArith Lia.
From S2P Require Import Prelude Boost Names Accumulator ResourceLimits ResourceLimitsSpec Authority AuthoritySpec Authorization EosioContract.
From S2P Require Import EosioContractSpec Merkle Intrinsics Hex ProtocolFeatures FeatureActivation ChainConfig ActorList TransactionContext.
From S2P Require Import TransactionContextSpec Transactions Execution Deferred Actions ActionsSpec ExecutionRam DeferredSpec Push PushSpec.
Import GenesisRuns.
Local Open Scope Z_scope.

(** ** Transactions that are billed

    A transaction of an account with a stake, from its initialization to its
    bill, and a deferred transaction of an account that lost its stake. *)

Definition env (slot : Z) : trx_env :=
  mk_trx_env genesis_config false false false 1000 ∅ 2000000 slot 1000000 9000000 0 false (fun _ => false).

Definition staked : rdb :=
  from_ok rdb_empty (mfold rl_apply
    [ SetAccountLimits dave 10000 10 20; SetAccountLimits system_account_name (-1) 5 5;
      ProcessAccountLimitUpdates; ProcessBlockUsage 4 ] (res_db db1)).
Definition staked_state : resource_limits_state_object :=
  from_ok (mk_rstate acc_init acc_init 0 0 0 0 0 0 0) (get_state staked).
Definition staked_config : resource_limits_config_object := from_ok default_config (get_config staked).

Definition bid : transaction (key := Z) :=
  mk_transaction 3600 0 0 0 100 0 [] [mk_action system_account_name (N_ "bid") [(dave, trade)] (OtherData [])] [].

Definition fresh (res : rdb) (input : bool) : transaction_context (key := Z) :=
  mk_tc bid (mk_net 0 true false 0 0)
    (mk_cpu 0 block_cpu_usage_exceeded false 0 block_cpu_usage_exceeded 0 1000000 0 false 0)
    [] [] false input res (auth_db db1).

(** The net usage of an input transaction of 150 bytes; it starts at 1000000
    and ends 700 microseconds later. *)
Definition bid_net : Z := input_net_usage genesis_config bid 150 0.
Definition bid0 : transaction_context := fresh staked true.
Definition bid1 : transaction_context := from_ok bid0 (init_context (env 6) 1000100 bid_net bid0).
Definition bid2 : transaction_context := from_ok bid0 (settle (env 6) 1000700 bid1).

Lemma bid_inits : init_context (env 6) 1000100 bid_net bid0 = Ok bid1.
Proof. run_ok. Qed.
Lemma bid_settles : settle (env 6) 1000700 bid1 = Ok bid2.
Proof. run_ok. Qed.
Lemma bid_kept : kept bid1 bid1.
Proof. apply kept_refl. Qed.
Lemma bid_state : get_state (tc_res bid0) = Ok staked_state.
Proof. run_ok. Qed.
Lemma bid_config : get_config (tc_res bid0) = Ok staked_config.
Proof. run_ok. Qed.
Lemma bid_accounts : accounts_to_bill (env 6) bid = [dave].
Proof. compute_run. Qed.

Lemma billing_respects_limits_witness :
  ts_net_usage (tc_net bid2) = 168 /\ billed_cpu_time_us (tc_cpu bid2) = 700 /\ (8 | ts_net_usage (tc_net bid2)).
Proof.
  split; [compute_run|]. split; [compute_run|].
  apply (billing_respects_limits (env 6) 1000100 1000700 bid_net bid0 bid1 bid1 bid2 eq_refl).
  - split; reflexivity || discriminate.
  - split; vm_compute; congruence.
  - exact bid_inits.
  - exact bid_kept.
  - exact bid_settles.
Defined.

Lemma charge_never_fails_witness : exists db, charge (env 6) bid2 = Ok db.
Proof.
  apply (charge_never_fails (env 6) 1000100 1000700 bid_net bid0 bid1 bid1 bid2 staked_config staked_state eq_refl).
  - split; reflexivity || discriminate.
  - split; reflexivity || discriminate.
  - exact bid_inits.
  - exact bid_kept.
  - exact bid_settles.
  - exact bid_config.
  - exact bid_state.
  - split; vm_compute; (split || idtac); congruence.
  - reflexivity.
  - reflexivity.
  - change (tc_trx bid0) with bid. rewrite bid_accounts. intros a Ha. apply list_elem_of_singleton in Ha as ->.
    assert (Hn : get_account_net_limit (tc_res bid1) dave 1000 = Ok (120916800000, false)) by compute_run.
    assert (Hc : get_account_cpu_limit (tc_res bid1) dave 1000 = Ok (27675648000, false)) by compute_run.
    intros l g Hl. change (account_greylist_limit (env 6) false dave) with 1000 in Hl.
    rewrite Hn, Hc in Hl. by destruct Hl as [Hl|Hl]; apply (proj1 (Ok_inj _ _)) in Hl; injection Hl.
  - change (tc_trx bid0) with bid. rewrite bid_accounts. intros a u Ha Hu. apply list_elem_of_singleton in Ha as ->.
    assert (Hu' : usages (tc_res bid1) !! dave = Some (mk_usage dave (mk_acc 6 0 0) (mk_acc 6 0 0) 3246)) by compute_run.
    rewrite Hu' in Hu. injection Hu as <-. split; repeat split; vm_compute; congruence.
Defined.

(** ** A bill that is refused in the end *)

(** After a transaction of 100000 bytes the account gives up its stake. *)
Definition unstaked : rdb :=
  from_ok rdb_empty (mfold rl_apply
    [ AddTransactionUsage [dave] 500 100000 5; SetAccountLimits dave 10000 0 20;
      ProcessAccountLimitUpdates ] staked).
Definition late0 : transaction_context := fresh unstaked false.
Definition late1 : transaction_context := from_ok late0 (init_context (env 6) 1000100 0 late0).
Definition late2 : transaction_context := from_ok late0 (settle (env 6) 1000700 late1).

(** A deferred or an implicit transaction starts with no net usage.  One that
    bills an account which is over its NET limit passes every check of
    [finalize], and then the charge is refused, against the comment that it
    should never fail. *)
Theorem charge_fails_without_net_usage :
  init_context (env 6) 1000100 0 late0 = Ok late1 /\ settle (env 6) 1000700 late1 = Ok late2 /\
  ts_net_usage (tc_net late2) = 0 /\
  charge (env 6) late2 = Err "authorizing account has insufficient net resources for this transaction".
Proof. split; [run_ok|]. split; [run_ok|]. split; compute_run. Qed.

(** ** A contract at work *)

#[local] Abbreviation xenv := (xenv (key := Z) (W := Z)).
#[local] Abbreviation gto := (generated_transaction_object (key := Z)).
#[local] Abbreviation xstate := (xstate (key := Z) (W := Z)).

Definition pong : chain_action (key := Z) := mk_action dave (N_ "pong") [] (OtherData []).
Definition ping : chain_action (key := Z) := mk_action dave (N_ "ping") [(dave, active_name)] (OtherData []).
Definition later : transaction (key := Z) := mk_transaction 0 0 0 0 0 5 [] [mk_action dave (N_ "pong") [(dave, active_name)] (OtherData [])] [].

(** The contract of [dave]: on a ping it does everything, otherwise nothing. *)
Definition dave_contract (hash vm version receiver : Z) (act : chain_action (key := Z)) (context_free : bool)
    : program (key := Z) (W := Z) :=
  if (receiver =? dave) && (act_name act =? N_ "ping") then
    PRequireRecipient system_account_name
      (PUpdateDbUsage dave 100 (PSendInline 40 pong (PTables (Z.add 1) (fun _ => PReturn))))
  else PReturn.

Definition head_id : Merkle.digest := mk_digest 16777216 77 0 0.

Definition xe (skip : bool) : xenv :=
  mk_xenv (env 6) (fun _ => true) true skip (mk_lists [] [] [] [] [] []) true false 2000000 77 head_id ctx
    dave_contract (fun _ => Err "unpack") (fun _ => 1) (fun t => 1000 + delay_sec t) (fun _ => 120).

Definition xchain : chain_db (key := Z) := mk_chain_db (accts db1) (metas db1) (codes db1) (auth_db db1) staked.
Definition x0 : xstate := mk_x xchain [] [] 41 0 [] [] (mk_net 100000 false false 100000 0) [].

Definition call : transaction (key := Z) := mk_transaction 3 1 77 0 0 0 [] [ping] [].
Definition x1 : xstate := from_ok x0 (exec_transaction (xe false) call true 0 x0).

Lemma every_action_executes_once_witness :
  length (x_traces x1) = 3%nat /\ exists os rs, os ≡ₚ seq 1 3 /\ x_executed x1 = rs /\ length rs = 3%nat /\
    u64 (recv_count x1 dave) = u64 (recv_count x0 dave + times_received dave rs).
Proof.
  assert (Hx : exec_transaction (xe false) call true 0 x0 = Ok x1) by run_ok.
  assert (Hl : length (x_traces x1) = 3%nat) by compute_run. split; [exact Hl|].
  destruct (every_action_executes_once (xe false) call true 0 x0 x1 Hx eq_refl ltac:(split; vm_compute; congruence))
    as (os & rs & P & E & F & _ & _ & _ & K). rewrite Hl in P. exists os, rs. split; [exact P|]. split; [exact E|].
  split; [rewrite <- (Forall2_length _ _ _ F), P; reflexivity|exact (K dave)].
Defined.

(** ** The first receiver *)

Definition sched : xstate := schedule_all false [ping] x0.
Definition dummy_ctx : actx (key := Z) := mk_actx 0 0 0 ping false false [] [] [] ∅.
Definition ctx0 : actx := from_ok dummy_ctx (new_context 1 sched).
Definition after_one : actx * xstate := from_ok (dummy_ctx, x0) (exec_one (xe false) ctx0 sched).

Lemma after_one_eq : exec_one (xe false) ctx0 sched = Ok (after_one.1, after_one.2).
Proof. rewrite <- surjective_pairing. run_ok. Qed.

Lemma notifications_end_witness :
  exists n res, rounds (xe false) n 1 after_one.1 after_one.2 res /\ (n <= 4)%nat /\
    exec_notified 4 (xe false) 1 after_one.1 after_one.2 = res.
Proof.
  assert (E : size (metas (x_db after_one.2)) = 4%nat) by compute_run.
  assert (Hc : new_context 1 sched = Ok ctx0) by run_ok.
  destruct (notifications_end (xe false) 1 sched ctx0 (mk_trace 1 0 0 None dave ping false ∅) after_one.1 after_one.2 Hc eq_refl eq_refl
    after_one_eq) as (n & res & H1 & H2 & H3). exists n, res. rewrite E in H2, H3. exact (conj H1 (conj H2 (H3 4%nat (le_n 4)))).
Defined.

Lemma range_checked (r : rdb) :
  forallb (fun p : Z * resource_usage_object => (0 <=? ram_usage p.2) && (ram_usage p.2 <? 2 ^ 64)) (map_to_list (usages r)) = true ->
  forall a, is_u64 (ram_of r a).
Proof.
  intros F a. unfold ram_of. destruct (usages r !! a) as [u|] eqn:E; [|unfold is_u64; lia].
  rewrite forallb_forall in F. specialize (F (a, u)). rewrite <- list_elem_of_In, elem_of_map_to_list in F.
  specialize (F E). cbn in F. unfold is_u64. lia.
Qed.

Lemma staked_range : forall a, is_u64 (ram_of staked a).
Proof. apply range_checked. compute_run. Qed.

(** [dave] uses 100 bytes more, and it is his own contract that charges him. *)
Lemma action_ram_needs_consent_witness : ram sched dave < ram after_one.2 dave /\
  (dave = a_receiver ctx0 \/ a_receiver ctx0 = act_account (a_act ctx0) /\ Execution.has_authorization ctx0 dave = true).
Proof.
  assert (E0 : ram sched dave = 3246) by compute_run. assert (E1 : ram after_one.2 dave = 3346) by compute_run.
  assert (Hm : exists m, metas (x_db sched) !! a_receiver ctx0 = Some m /\ is_privileged m = false).
  { destruct (metas (x_db sched) !! a_receiver ctx0) as [m|] eqn:E; [|vm_compute in E; discriminate].
    exists m. split; [reflexivity|]. vm_compute in E. injection E as <-. reflexivity. }
  destruct Hm as (m & Hm & Hp).
  assert (Hlt : ram sched dave < ram after_one.2 dave) by (rewrite E0, E1; lia). split; [exact Hlt|].
  apply (action_ram_needs_consent (xe false) ctx0 sched after_one.1 after_one.2 m dave after_one_eq).
  - compute_run.
  - compute_run.
  - reflexivity.
  - exact Hm.
  - exact Hp.
  - exact staked_range.
  - rewrite E0. discriminate.
  - rewrite E1. discriminate.
  - exact Hlt.
Defined.

(** ** The ledger *)

Definition sized : transaction (key := Z) -> Z := fun _ => 120.
Definition deferring : actx := mk_actx 1 1 dave ping false false [(dave, 1%nat)] [] [] ∅.
Definition deferred_state : actx * xstate :=
  from_ok (dummy_ctx, x0) (schedule_deferred_transaction (xe true) 7 dave later false deferring sched).

Lemma deferred_ram_ledger_witness :
  ledger sized (ram sched) deferred_state.2 /\ ram deferred_state.2 dave = ram sched dave + 392.
Proof.
  assert (Hs : deferred_step sized sched deferred_state.2).
  { apply (ds_schedule sized (xe true) 7 dave later false deferring sched deferred_state.1 deferred_state.2 eq_refl).
    rewrite <- surjective_pairing. run_ok. }
  assert (L : ledger sized (ram sched) sched).
  { split; [constructor|constructor| | |exact staked_range].
    - intros a. apply (staked_range a).
    - intros a. change (ram sched a = ram sched a + 0). lia. }
  split; [|compute_run]. apply (deferred_ram_ledger sized (ram sched) sched deferred_state.2 (rtc_once _ _ Hs) L).
Defined.

(** ** Retirement *)

Definition args (end_ : Z) : push_args :=
  mk_args 9000000 0 false 0 1000000 1000100 end_ (end_ + 10) (end_ + 50) 0 false true (fun _ => Some head_id).
Definition waiting : gto := default (mk_generated 0 0 0 0 0 0 0 later) (List.head (x_generated deferred_state.2)).
Definition due : xenv :=
  let te := env 6 in
  mk_xenv (mk_trx_env (te_cfg te) false false false 1000 ∅ 8000000 6 1000000 9000000 0 false (fun _ => false))
    (fun _ => true) true true (mk_lists [] [] [] [] [] []) true false 2000000 77 head_id ctx
    dave_contract (fun _ => Err "unpack") (fun _ => 1) (fun t => 1000 + delay_sec t) (fun _ => 120).
Definition pending0 : building (key := Z) (W := Z) := mk_building deferred_state.2 ∅ [] [].
Definition retired : outcome * building :=
  from_ok (Failed "", pending0) (push_scheduled_transaction due (args 1000700) waiting [] pending0).

Lemma scheduled_retired_once_witness :
  exists cpu words, retired.1 = Retired executed cpu words /\ one_receipt (g_trx_id waiting) retired.1 pending0 retired.2.
Proof.
  assert (Hr : push_scheduled_transaction due (args 1000700) waiting [] pending0 = Ok (retired.1, retired.2))
    by (rewrite <- surjective_pairing; run_ok).
  assert (Eo : retired.1 = Retired executed 700 0) by compute_run.
  destruct (scheduled_retired_once due (args 1000700) waiting [] pending0 retired.1 retired.2 Hr) as [(msg & E & _)|[H1 _]].
  - rewrite Eo in E. discriminate.
  - exists 700, 0. split; [exact Eo|exact H1].
Defined.

(** ** An input transaction, pushed twice *)

Definition call_meta : transaction_metadata (key := Z) := mk_metadata call 501 false 150 70 [dave_key] 0.
Definition pending1 : building (key := Z) (W := Z) := mk_building x0 ∅ [] [].
Definition pushed : outcome * building :=
  from_ok (Failed "", pending1) (push_transaction (xe false) (args 1000700) call_meta pending1).
Definition again : outcome * building :=
  from_ok (Failed "", pending1) (push_transaction (xe false) (args 1000700) call_meta pushed.2).

Lemma push_outcomes : (exists cpu words, pushed.1 = Retired executed cpu words) /\ again.1 = Failed "duplicate transaction".
Proof. split; [exists 700, 22|]; compute_run. Qed.

Lemma no_transaction_twice_witness :
  rtc (chain_step (fun _ => 3)) (2000000, pending1, []) (2000000, again.2, [501]) /\ NoDup [501].
Proof.
  assert (H1 : push_transaction (xe false) (args 1000700) call_meta pending1 = Ok (pushed.1, pushed.2))
    by (rewrite <- surjective_pairing; run_ok).
  assert (H2 : push_transaction (xe false) (args 1000700) call_meta pushed.2 = Ok (again.1, again.2))
    by (rewrite <- surjective_pairing; run_ok).
  destruct push_outcomes as [(cpu & words & E1) E2].
  assert (Hs : rtc (chain_step (fun _ => 3)) (2000000, pending1, []) (2000000, again.2, [501])).
  { eapply rtc_l; [|eapply rtc_l; [|apply rtc_refl]].
    - pose proof (cs_push (fun _ => 3) (xe false) (args 1000700) call_meta pending1 [] pushed.1 pushed.2
        eq_refl eq_refl eq_refl eq_refl H1) as S1. rewrite E1 in S1. exact S1.
    - pose proof (cs_push (fun _ => 3) (xe false) (args 1000700) call_meta pushed.2 [501] again.1 again.2
        eq_refl eq_refl eq_refl eq_refl H2) as S2. rewrite E2 in S2. exact S2. }
  split; [exact Hs|]. exact (no_transaction_twice (fun _ => 3) 2000000 pending1 (2000000, again.2, [501]) Hs).
Defined.

Lemma receipt_respects_limits_witness :
  pushed.1 = Retired executed 700 22 /\ 22 * 8 <= max_transaction_net_usage genesis_config /\ 100 <= 700.
Proof.
  assert (H1 : push_transaction (xe false) (args 1000700) call_meta pending1 = Ok (Retired executed 700 22, pushed.2))
    by (assert (E : pushed.1 = Retired executed 700 22) by compute_run; rewrite <- E, <- surjective_pairing; run_ok).
  split; [compute_run|].
  destruct (receipt_respects_limits (xe false) (args 1000700) call_meta pending1 executed 700 22 pushed.2 H1 eq_refl eq_refl
    ltac:(split; vm_compute; congruence) ltac:(repeat split; vm_compute; congruence)) as [[H2 _] [[H3 _] _]].
  split; [exact H2|exact H3].
Defined.

(** ** Headers and extensions *)

Definition some_generation : generation_context := mk_generation 501 7 dave.
Lemma generation_roundtrip_witness :
  validate_and_extract_extensions (key := Z) (with_header later 0 0 0 [(0, pack_generation some_generation)]) = Ok [some_generation].
Proof.
  apply (generation_roundtrip (key := Z) (with_header later 0 0 0 [(0, pack_generation some_generation)]) some_generation).
  - repeat split; vm_compute; congruence.
  - vm_compute. congruence.
  - reflexivity.
Defined.

Lemma ref_blocknum_is_head_witness : get_ref_blocknum 70000 call = 70000 /\ ref_block_num call = 1.
Proof. split; [apply (ref_blocknum_is_head 70000 call); split; vm_compute; congruence|reflexivity]. Defined.
