(* ===== verification/Chainbase.v ===== *)
(** * The database with undo sessions ([chainbase.hpp], [chainbase.cpp])

    A [generic_index] is a table whose rows are identified by ids it hands
    out itself, with further unique keys, and a stack of undo states that
    records what the open sessions changed.  The stack of the code is a deque
    with the newest state at the back; here it is a list with the newest state
    at the head.  [std::abort] is an error of its own. *)

From stdpp Require Import base numbers list gmap strings sorting.
From Stdlib Require Import ZArith Lia.
From S2P Require Import Prelude.
Local Open Scope Z_scope.

(** Iteration over an ordered map: ascending ids. *)
Definition id_le {A} (x y : Z * A) : Prop := x.1 <= y.1.
#[global] Instance id_le_dec {A} : RelDecision (@id_le A).
Proof. intros x y. unfold id_le. apply _. Defined.
Definition ascending {A} (m : gmap Z A) : list (Z * A) := merge_sort id_le (map_to_list m).
Definition ascending_ids (s : gset Z) : list Z := merge_sort Z.le (elements s).

(** The unique keys of a row besides its id, one per unique index. *)
Class UniqueKeys (V : Type) := {
  ukey : Type;
  #[global] ukey_eq_dec :: EqDecision ukey;
  ukeys : V -> list ukey;
}.

Section Index.
Context {V : Type} `{UniqueKeys V}.

Record undo_state := mk_undo {
  old_values : gmap Z V; removed_values : gmap Z V; new_ids : gset Z;
  old_next_id : Z; u_revision : Z }.

Record generic_index := mk_index {
  _indices : gmap Z V; _next_id : Z; _stack : list undo_state; _revision : Z }.

Definition index_empty : generic_index := mk_index ∅ 0 [] 0.

(** ** The container: insertion and modification keep all indices unique *)

Definition conflict (v w : V) : bool :=
  existsb (fun p : ukey * ukey => bool_decide (p.1 = p.2)) (zip (ukeys v) (ukeys w)).

Definition unique_at (m : gmap Z V) (id : Z) (v : V) : bool :=
  forallb (fun p : Z * V => (p.1 =? id) || negb (conflict v p.2)) (map_to_list m).

(** [emplace]: [None] when the id or another unique key is taken. *)
Definition container_emplace (m : gmap Z V) (id : Z) (v : V) : option (gmap Z V) :=
  match m !! id with
  | Some _ => None
  | None => if unique_at m id v then Some (<[id := v]> m) else None
  end.

(** [modify] of an existing row: [None] when another row has its new keys. *)
Definition container_modify (m : gmap Z V) (id : Z) (v : V) : option (gmap Z V) :=
  if unique_at m id v then Some (<[id := v]> m) else None.

(** ** Recording changes in the newest undo state *)

Definition enabled (i : generic_index) : bool := negb (Nat.eqb (length (_stack i)) 0).

Definition with_head (i : generic_index) (f : undo_state -> undo_state) : generic_index :=
  match _stack i with
  | [] => i
  | head :: rest => mk_index (_indices i) (_next_id i) (f head :: rest) (_revision i)
  end.

Definition on_modify (id : Z) (v : V) (i : generic_index) : generic_index :=
  with_head i (fun head =>
    if bool_decide (id ∈ new_ids head) then head
    else match old_values head !! id with
         | Some _ => head
         | None => mk_undo (<[id := v]> (old_values head)) (removed_values head) (new_ids head)
                     (old_next_id head) (u_revision head)
         end).

Definition on_remove (id : Z) (v : V) (i : generic_index) : generic_index :=
  with_head i (fun head =>
    if bool_decide (id ∈ new_ids head) then
      mk_undo (old_values head) (removed_values head) (new_ids head ∖ {[ id ]}) (old_next_id head)
        (u_revision head)
    else
      match old_values head !! id with
      | Some old =>
        mk_undo (delete id (old_values head))
          (match removed_values head !! id with
           | Some _ => removed_values head | None => <[id := old]> (removed_values head) end)
          (new_ids head) (old_next_id head) (u_revision head)
      | None =>
        match removed_values head !! id with
        | Some _ => head
        | None => mk_undo (old_values head) (<[id := v]> (removed_values head)) (new_ids head)
                    (old_next_id head) (u_revision head)
        end
      end).

Definition on_create (id : Z) (i : generic_index) : generic_index :=
  with_head i (fun head =>
    mk_undo (old_values head) (removed_values head) ({[ id ]} ∪ new_ids head) (old_next_id head)
      (u_revision head)).

Definition with_rows (i : generic_index) (m : gmap Z V) : generic_index :=
  mk_index m (_next_id i) (_stack i) (_revision i).

(** ** Rows *)

(** [emplace]: the constructor may read the id it is given. *)
Definition emplace (c : Z -> V) (i : generic_index) : result (V * generic_index) :=
  let new_id := _next_id i in
  let v := c new_id in
  m ← of_option (container_emplace (_indices i) new_id v)
        "could not insert object, most likely a uniqueness constraint was violated";
  Ok (v, on_create new_id (mk_index m (new_id + 1) (_stack i) (_revision i))).

(** [modify] and [remove] take a reference to a row of the table. *)
Definition modify (id : Z) (f : V -> V) (i : generic_index) : result generic_index :=
  v ← of_option (_indices i !! id) "dangling reference";
  let i := on_modify id v i in
  m ← of_option (container_modify (_indices i) id (f v)) "abort: uniqueness violation";
  Ok (with_rows i m).

Definition remove (id : Z) (i : generic_index) : result generic_index :=
  v ← of_option (_indices i !! id) "dangling reference";
  let i := on_remove id v i in
  Ok (with_rows i (delete id (_indices i))).

Definition remove_object (id : Z) (i : generic_index) : result generic_index :=
  of_option (_indices i !! id) "out_of_range" ;;
  remove id i.

Definition find (id : Z) (i : generic_index) : option V := _indices i !! id.
Definition get (id : Z) (i : generic_index) : result V := of_option (find id i) "key not found".

(** ** Sessions *)

Definition start_undo_session (i : generic_index) : generic_index :=
  mk_index (_indices i) (_next_id i)
    (mk_undo ∅ ∅ ∅ (_next_id i) (_revision i + 1) :: _stack i) (_revision i + 1).

(** The three loops of [undo]. *)
Definition undo (i : generic_index) : result generic_index :=
  match _stack i with
  | [] => Ok i
  | head :: rest =>
    m ← mfold (fun m id =>
          of_option (m !! id) "erase of the end iterator" ;;
          Ok (delete id m)) (ascending_ids (new_ids head)) (_indices i);
    m ← mfold (fun m '(id, v) =>
          of_option (m !! id) "modify of the end iterator" ;;
          of_option (container_modify m id v) "abort: uniqueness violation")
        (ascending (old_values head)) m;
    m ← mfold (fun m '(id, v) =>
          of_option (container_emplace m id v) "abort: uniqueness violation")
        (ascending (removed_values head)) m;
    Ok (mk_index m (old_next_id head) rest (_revision i - 1))
  end.

(** The three loops of [squash], which change the older undo state. *)
Definition squash_old (p : undo_state) (x : Z * V) : undo_state :=
  let '(id, v) := x in
  if bool_decide (id ∈ new_ids p) then p
  else match old_values p !! id with
       | Some _ => p
       | None => mk_undo (<[id := v]> (old_values p)) (removed_values p) (new_ids p) (old_next_id p)
                   (u_revision p)
       end.

Definition squash_new (p : undo_state) (id : Z) : undo_state :=
  mk_undo (old_values p) (removed_values p) ({[ id ]} ∪ new_ids p) (old_next_id p) (u_revision p).

(** [map::emplace] does nothing when the id is present. *)
Definition map_emplace (m : gmap Z V) (id : Z) (v : V) : gmap Z V :=
  match m !! id with Some _ => m | None => <[id := v]> m end.

Definition squash_removed (p : undo_state) (x : Z * V) : undo_state :=
  let '(id, v) := x in
  if bool_decide (id ∈ new_ids p) then
    mk_undo (old_values p) (removed_values p) (new_ids p ∖ {[ id ]}) (old_next_id p) (u_revision p)
  else match old_values p !! id with
       | Some old => mk_undo (delete id (old_values p)) (map_emplace (removed_values p) id old) (new_ids p)
                       (old_next_id p) (u_revision p)
       | None => mk_undo (old_values p) (map_emplace (removed_values p) id v) (new_ids p)
                   (old_next_id p) (u_revision p)
       end.

Definition merge_states (prev_state state : undo_state) : undo_state :=
  foldl squash_removed
    (foldl squash_new (foldl squash_old prev_state (ascending (old_values state)))
       (ascending_ids (new_ids state)))
    (ascending (removed_values state)).

Definition squash (i : generic_index) : generic_index :=
  match _stack i with
  | [] => i
  | [_] => mk_index (_indices i) (_next_id i) [] (_revision i - 1)
  | state :: prev_state :: rest =>
    mk_index (_indices i) (_next_id i) (merge_states prev_state state :: rest) (_revision i - 1)
  end.

(** [commit]: the oldest states are dropped from the front of the deque. *)
Fixpoint pop_front_while (revision : Z) (deque : list undo_state) : list undo_state :=
  match deque with
  | [] => []
  | s :: rest => if u_revision s <=? revision then pop_front_while revision rest else deque
  end.
Definition commit (revision : Z) (i : generic_index) : generic_index :=
  mk_index (_indices i) (_next_id i) (reverse (pop_front_while revision (reverse (_stack i)))) (_revision i).

Fixpoint undo_all_loop (fuel : nat) (i : generic_index) : result generic_index :=
  if enabled i then
    match fuel with O => Err "out of fuel" | S fuel => i ← undo i; undo_all_loop fuel i end
  else Ok i.
Definition undo_all (i : generic_index) : result generic_index := undo_all_loop (length (_stack i)) i.

Definition set_revision (revision : Z) (i : generic_index) : result generic_index :=
  check (Nat.eqb (length (_stack i)) 0) "cannot set revision while there is an existing undo stack" ;;
  check (revision <=? INT64_MAX) "revision to set is too high" ;;
  Ok (mk_index (_indices i) (_next_id i) (_stack i) revision).

Definition undo_stack_revision_range (i : generic_index) : Z * Z :=
  match _stack i with
  | [] => (_revision i, _revision i)
  | newest :: _ => (u_revision (List.last (_stack i) newest) - 1, u_revision newest)
  end.

(** ** Session objects *)

(** [session]: whether it still has to be resolved, and its revision. *)
Record session := mk_session { _apply : bool; s_revision : Z }.

Definition open_session (on : bool) (i : generic_index) : session * generic_index :=
  if on then (mk_session true (_revision i + 1), start_undo_session i) else (mk_session false (-1), i).

(** The move constructor: the new object and what is left of the old one. *)
Definition session_move (mv : session) : session * session :=
  (mk_session (_apply mv) 0, mk_session false (s_revision mv)).

Definition session_push (s : session) (i : generic_index) : session * generic_index :=
  (mk_session false (s_revision s), i).
Definition session_squash (s : session) (i : generic_index) : session * generic_index :=
  (mk_session false (s_revision s), if _apply s then squash i else i).
Definition session_undo (s : session) (i : generic_index) : result (session * generic_index) :=
  i ← (if _apply s then undo i else Ok i);
  Ok (mk_session false (s_revision s), i).
(** Move assignment of a session of another variable: the new object, what is
    left of the old one, and the index. *)
Definition session_assign (s mv : session) (i : generic_index) : result (session * session * generic_index) :=
  i ← (if _apply s then undo i else Ok i);
  Ok (mk_session (_apply mv) (s_revision s), mk_session false (s_revision mv), i).
(** The destructor. *)
Definition session_destroy (s : session) (i : generic_index) : result generic_index :=
  if _apply s then undo i else Ok i.

(** ** The database: all indices move together *)

Definition db_start_undo_session (l : list generic_index) : list generic_index := start_undo_session <$> l.
Definition db_undo (l : list generic_index) : result (list generic_index) :=
  mfold (fun acc i => i ← undo i; Ok (acc ++ [i])) l [].
Definition db_squash (l : list generic_index) : list generic_index := squash <$> l.
Definition db_commit (revision : Z) (l : list generic_index) : list generic_index := commit revision <$> l.
Definition db_undo_all (l : list generic_index) : result (list generic_index) :=
  mfold (fun acc i => i ← undo_all i; Ok (acc ++ [i])) l [].
(** [database::session]: the session objects of all tables, each moved into
    its [session_impl]. *)
Record db_session := mk_db_session { _index_sessions : list session; ds_revision : Z }.
Definition db_open_session (on : bool) (l : list generic_index) : db_session * list generic_index :=
  if on then
    let subs := (fun i => (session_move (open_session true i).1).1) <$> l in
    (mk_db_session subs (match subs with s :: _ => s_revision s | [] => -1 end), db_start_undo_session l)
  else (mk_db_session [] (-1), l).
Definition db_session_push (s : db_session) (l : list generic_index) : db_session * list generic_index :=
  (mk_db_session [] (ds_revision s), zip_with (fun s i => (session_push s i).2) (_index_sessions s) l).
Definition db_session_squash (s : db_session) (l : list generic_index) : db_session * list generic_index :=
  (mk_db_session [] (ds_revision s), zip_with (fun s i => (session_squash s i).2) (_index_sessions s) l).
Definition db_session_undo (s : db_session) (l : list generic_index) : result (db_session * list generic_index) :=
  l ← mfold (fun acc x => '(_, i) ← session_undo x.1 x.2; Ok (acc ++ [i])) (zip (_index_sessions s) l) [];
  Ok (mk_db_session [] (ds_revision s), l).

Definition db_revision (l : list generic_index) : Z :=
  match l with [] => -1 | i :: _ => _revision i end.

(** [add_index] of a writable database: a table found in the file has to agree
    with the others; a new one is given empty undo states until it does. *)
Fixpoint catch_up (fuel : nat) (i : generic_index) : generic_index :=
  match fuel with O => i | S fuel => catch_up fuel (start_undo_session i) end.
Definition add_index (found : option generic_index) (l : list generic_index) : result (list generic_index) :=
  let i := default index_empty found in
  i ← (match l with
       | [] => Ok i
       | first :: _ =>
         let expected := undo_stack_revision_range first in
         if bool_decide (undo_stack_revision_range i = expected) then Ok i
         else
           check (bool_decide (found = None)) "corrupted database?" ;;
           i ← set_revision (u64 expected.1) i;
           Ok (catch_up (Z.to_nat (expected.2 - _revision i)) i)
       end);
  Ok (l ++ [i]).
End Index.
