(* ===== verification/ChainbaseSpec.v ===== *)
(** * Undo sessions restore what they should

    The abstract database keeps, for every open session, a full copy of the
    table as it was.  The undo states of [generic_index] hold only the
    differences; the theorems show that they stand for those copies through
    every operation, and that undoing never meets a uniqueness violation when
    modifiers leave the unique keys alone. *)

From stdpp Require Import base numbers list gmap strings sorting.
From Stdlib Require Import ZArith Lia.
From S2P Require Import Prelude Chainbase.
Local Open Scope Z_scope.

(** ** Ordered iteration *)

Lemma ascending_perm {A} (m : gmap Z A) : ascending m ≡ₚ map_to_list m.
Proof. apply merge_sort_Permutation. Qed.

Lemma ascending_elem {A} (m : gmap Z A) id v : (id, v) ∈ ascending m <-> m !! id = Some v.
Proof. by rewrite ascending_perm, elem_of_map_to_list. Qed.

Lemma ascending_nodup {A} (m : gmap Z A) : NoDup (ascending m).*1.
Proof. rewrite ascending_perm. apply NoDup_fst_map_to_list. Qed.

Lemma ascending_ids_elem s id : id ∈ ascending_ids s <-> id ∈ s.
Proof. unfold ascending_ids. by rewrite merge_sort_Permutation, elem_of_elements. Qed.

Lemma ascending_ids_nodup s : NoDup (ascending_ids s).
Proof. unfold ascending_ids. rewrite merge_sort_Permutation. apply NoDup_elements. Qed.

(** Deleting, inserting: what folds over lists do to a map. *)
Lemma fold_delete_lookup {A} (l : list Z) (m : gmap Z A) id :
  foldl (fun m id => delete id m) m l !! id = if bool_decide (id ∈ l) then None else m !! id.
Proof.
  revert m. induction l as [|x l IH]; intros m; [done|]. simpl. rewrite IH. clear IH.
  destruct (decide (x = id)) as [->|Hne].
  - rewrite (bool_decide_eq_true_2 (id ∈ id :: l)) by by left. rewrite lookup_delete_eq. by case_bool_decide.
  - rewrite lookup_delete_ne by done. erewrite bool_decide_ext; [done|].
    rewrite elem_of_cons. split; [by right | by intros [->|]].
Qed.

Lemma fold_insert_lookup {A} (l : list (Z * A)) (m : gmap Z A) id : NoDup l.*1 ->
  foldl (fun m x => <[x.1 := x.2]> m) m l !! id =
  match (list_to_map l : gmap Z A) !! id with Some v => Some v | None => m !! id end.
Proof.
  revert m. induction l as [|[x v] l IH]; intros m Hnd; [done|]. apply NoDup_cons in Hnd as [Hx Hnd].
  simpl. rewrite IH by done. destruct (decide (x = id)) as [->|].
  - rewrite (not_elem_of_list_to_map_1 l id) by done. by rewrite !lookup_insert_eq.
  - by rewrite !lookup_insert_ne by done.
Qed.

Lemma ascending_to_map {A} (m : gmap Z A) : list_to_map (ascending m) = m.
Proof.
  rewrite <- (list_to_map_to_list m) at 2. apply list_to_map_proper; [|apply ascending_perm].
  apply ascending_nodup.
Qed.

Section Spec.
Context {V : Type} `{UniqueKeys V}.
#[local] Abbreviation table := (gmap Z V).
#[local] Abbreviation undo_state := (undo_state (V := V)).
#[local] Abbreviation generic_index := (generic_index (V := V)).

(** ** What an undo state stands for *)

(** The table before the session, from the table after it. *)
Definition restore (u : undo_state) (R : table) : table :=
  removed_values u ∪ (old_values u ∪ (filter (fun kv => kv.1 ∉ new_ids u) R)).

Lemma restore_lookup u R id : restore u R !! id =
  match removed_values u !! id with
  | Some v => Some v
  | None => match old_values u !! id with
            | Some v => Some v
            | None => if decide (id ∈ new_ids u) then None else R !! id
            end
  end.
Proof.
  unfold restore. rewrite !lookup_union.
  destruct (removed_values u !! id), (old_values u !! id); simpl; try done;
    rewrite map_lookup_filter; destruct (R !! id) as [r|]; simpl; repeat case_guard; repeat case_decide; done.
Qed.

(** An undo state fits the table [R] with next id [n]. *)
Record fits (u : undo_state) (R : table) (n : Z) : Prop := {
  fits_new id : id ∈ new_ids u -> is_Some (R !! id) /\ old_next_id u <= id;
  fits_old id v : old_values u !! id = Some v -> is_Some (R !! id) /\ id < old_next_id u;
  fits_removed id v : removed_values u !! id = Some v -> R !! id = None /\ id < old_next_id u;
  fits_row id : is_Some (R !! id) -> id < n /\ (id ∉ new_ids u -> id < old_next_id u);
  fits_next : old_next_id u <= n }.

(** Rows with the same unique keys. *)
Definition same_keys (v w : V) : Prop := ukeys v = ukeys w.

(** No two rows share a unique key. *)
Definition unique_rows (R : table) : Prop :=
  forall i j v w, i <> j -> R !! i = Some v -> R !! j = Some w -> conflict v w = false.

(** Modified rows kept their unique keys. *)
Definition keys_kept (u : undo_state) (R : table) : Prop :=
  forall id v w, old_values u !! id = Some v -> R !! id = Some w -> same_keys v w.

Fixpoint wf_stack (R : table) (n rev : Z) (s : list undo_state) : Prop :=
  unique_rows R /\
  match s with
  | [] => forall id, is_Some (R !! id) -> id < n
  | u :: s => fits u R n /\ keys_kept u R /\ u_revision u = rev /\
              wf_stack (restore u R) (old_next_id u) (rev - 1) s
  end.

Definition wf (i : generic_index) : Prop := wf_stack (_indices i) (_next_id i) (_revision i) (_stack i).

(** ** The abstract database *)

(** The table, and for each open session the table it started from, newest
    first, with its next id and the revision of the session. *)
Record spec := mk_spec {
  cur : table; next : Z; saved : list (table * Z * Z); rev : Z }.

Fixpoint copies (R : table) (s : list undo_state) : list (table * Z * Z) :=
  match s with
  | [] => []
  | u :: s => (restore u R, old_next_id u, u_revision u) :: copies (restore u R) s
  end.

Definition abs (i : generic_index) : spec :=
  mk_spec (_indices i) (_next_id i) (copies (_indices i) (_stack i)) (_revision i).

Inductive op :=
| Emplace (c : Z -> V) | Modify (id : Z) (f : V -> V) | Remove (id : Z)
| Start | Undo | Squash | Commit (revision : Z) | SetRevision (revision : Z).

Definition exec (o : op) (i : generic_index) : result generic_index :=
  match o with
  | Emplace c => '(_, i) ← emplace c i; Ok i
  | Modify id f => modify id f i
  | Remove id => remove id i
  | Start => Ok (start_undo_session i)
  | Undo => undo i
  | Squash => Ok (squash i)
  | Commit r => Ok (commit r i)
  | SetRevision r => set_revision r i
  end.

Definition spec_exec (o : op) (s : spec) : result spec :=
  match o with
  | Emplace c =>
    m ← of_option (container_emplace (cur s) (next s) (c (next s)))
          "could not insert object, most likely a uniqueness constraint was violated";
    Ok (mk_spec m (next s + 1) (saved s) (rev s))
  | Modify id f =>
    v ← of_option (cur s !! id) "dangling reference";
    m ← of_option (container_modify (cur s) id (f v)) "abort: uniqueness violation";
    Ok (mk_spec m (next s) (saved s) (rev s))
  | Remove id =>
    of_option (cur s !! id) "dangling reference" ;;
    Ok (mk_spec (delete id (cur s)) (next s) (saved s) (rev s))
  | Start => Ok (mk_spec (cur s) (next s) ((cur s, next s, rev s + 1) :: saved s) (rev s + 1))
  | Undo =>
    match saved s with
    | [] => Ok s
    | (m, n, _) :: rest => Ok (mk_spec m n rest (rev s - 1))
    end
  | Squash =>
    match saved s with [] => Ok s | _ :: rest => Ok (mk_spec (cur s) (next s) rest (rev s - 1)) end
  | Commit r => Ok (mk_spec (cur s) (next s) (filter (fun x => r < x.2) (saved s)) (rev s))
  | SetRevision r =>
    check (Nat.eqb (length (saved s)) 0) "cannot set revision while there is an existing undo stack" ;;
    check (r <=? INT64_MAX) "revision to set is too high" ;;
    Ok (mk_spec (cur s) (next s) (saved s) r)
  end.

(** Modifiers leave the unique keys alone. *)
Definition op_ok (o : op) : Prop :=
  match o with Modify _ f => forall v, same_keys (f v) v | _ => True end.

(** ** Uniqueness *)

Lemma conflict_same v v' w w' : same_keys v v' -> same_keys w w' -> conflict v w = conflict v' w'.
Proof. unfold same_keys, conflict. by intros -> ->. Qed.

Lemma unique_at_ok m id v : unique_at m id v = true <->
  forall j w, m !! j = Some w -> j <> id -> conflict v w = false.
Proof.
  unfold unique_at. rewrite forallb_forall. split.
  - intros Hf j w Hj Hne. apply elem_of_map_to_list, list_elem_of_In in Hj.
    specialize (Hf _ Hj). simpl in Hf. apply orb_true_iff in Hf as [E|E]; [lia|]. by apply negb_true_iff in E.
  - intros Hf [j w] Hj. apply list_elem_of_In, elem_of_map_to_list in Hj. simpl.
    destruct (Z.eqb_spec j id); [done|]. simpl. by rewrite (Hf j w).
Qed.

Lemma conflict_sym v w : conflict v w = conflict w v.
Proof.
  unfold conflict. generalize (ukeys v) as l, (ukeys w) as k. induction l as [|x l IH]; intros [|y k]; try done.
  simpl. rewrite IH. f_equal. apply bool_decide_ext. split; congruence.
Qed.

(** [m] holds rows of [P], up to changes that keep the unique keys. *)
Definition keys_included (m P : table) : Prop :=
  forall id w, m !! id = Some w -> exists w', P !! id = Some w' /\ same_keys w w'.

Lemma unique_at_included m P id v : unique_rows P -> keys_included m P -> P !! id = Some v ->
  unique_at m id v = true.
Proof.
  intros HP Hm Hv. apply unique_at_ok. intros j w Hj Hne. destruct (Hm j w Hj) as (w' & Hw' & Hk).
  rewrite (conflict_same v v w w') by done. by eapply (HP id j).
Qed.

Lemma keys_included_insert m P id v : keys_included m P -> P !! id = Some v ->
  keys_included (<[id := v]> m) P.
Proof. intros Hm Hv j w [[<- <-]|[_ Hj]]%lookup_insert_Some; [by exists v | by apply Hm]. Qed.

Lemma unique_insert R id v : unique_rows R ->
  (forall j w, R !! j = Some w -> j <> id -> conflict v w = false) -> unique_rows (<[id := v]> R).
Proof.
  intros HR Hv i j x y Hne [[<- <-]|[Hi Hx]]%lookup_insert_Some [[<- <-]|[Hj Hy]]%lookup_insert_Some.
  - done.
  - by apply (Hv j).
  - rewrite conflict_sym. by apply (Hv i).
  - by eapply (HR i j).
Qed.

Lemma unique_delete R id : unique_rows R -> unique_rows (delete id R).
Proof. intros HR i j x y Hne [_ Hx]%lookup_delete_Some [_ Hy]%lookup_delete_Some. by eapply (HR i j). Qed.

(** ** Undo *)

Lemma undo_erase (l : list Z) (m : table) : NoDup l -> (forall id, id ∈ l -> is_Some (m !! id)) ->
  mfold (fun m id => of_option (m !! id) "erase of the end iterator" ;; Ok (delete id m)) l m
  = Ok (foldl (fun m id => delete id m) m l).
Proof.
  revert m. induction l as [|x l IH]; intros m Hnd Hin; [done|]. apply NoDup_cons in Hnd as [Hx Hnd].
  simpl. destruct (Hin x) as [v ->]; [by left|]. cbn [of_option mbind result_bind]. apply IH; [done|].
  intros id Hid. rewrite lookup_delete_ne; [apply Hin; by right|]. by intros ->.
Qed.

Lemma undo_restore_old (l : list (Z * V)) (m P : table) : unique_rows P -> keys_included m P ->
  (forall id v, (id, v) ∈ l -> is_Some (m !! id) /\ P !! id = Some v) ->
  mfold (fun m '(id, v) => of_option (m !! id) "modify of the end iterator" ;;
           of_option (container_modify m id v) "abort: uniqueness violation") l m
  = Ok (foldl (fun m x => <[x.1 := x.2]> m) m l) /\
  keys_included (foldl (fun m x => <[x.1 := x.2]> m) m l) P.
Proof.
  intros HP. revert m. induction l as [|[id v] l IH]; intros m Hm Hin; [done|]. simpl.
  destruct (Hin id v) as [[w ->] Hv]; [by left|]. cbn [of_option mbind result_bind].
  unfold container_modify. rewrite (unique_at_included m P id v) by done. cbn [of_option mbind result_bind].
  apply IH; [by apply keys_included_insert|]. intros j x Hj. destruct (Hin j x) as [Hs Hx]; [by right|].
  split; [|done]. destruct (decide (id = j)) as [->|]; [by rewrite lookup_insert_eq | by rewrite lookup_insert_ne].
Qed.

Lemma undo_restore_removed (l : list (Z * V)) (m P : table) : unique_rows P -> keys_included m P ->
  NoDup l.*1 -> (forall id v, (id, v) ∈ l -> m !! id = None /\ P !! id = Some v) ->
  mfold (fun m '(id, v) => of_option (container_emplace m id v) "abort: uniqueness violation") l m
  = Ok (foldl (fun m x => <[x.1 := x.2]> m) m l).
Proof.
  intros HP. revert m. induction l as [|[id v] l IH]; intros m Hm Hnd Hin; [done|].
  apply NoDup_cons in Hnd as [Hid Hnd]. simpl. destruct (Hin id v) as [Hnone Hv]; [by left|].
  unfold container_emplace at 2. rewrite Hnone, (unique_at_included m P id v) by done.
  cbn [of_option mbind result_bind]. apply IH; [by apply keys_included_insert | done|].
  intros j x Hj. destruct (Hin j x) as [Hn Hx]; [by right|]. split; [|done].
  rewrite lookup_insert_ne; [done|]. intros ->. apply Hid. by apply (list_elem_of_fmap_2 fst) in Hj.
Qed.

Lemma undo_ok i u s : wf i -> _stack i = u :: s ->
  undo i = Ok (mk_index (restore u (_indices i)) (old_next_id u) s (_revision i - 1)).
Proof.
  intros Hwf Hs. unfold wf in Hwf. rewrite Hs in Hwf. destruct Hwf as (HR & Hfit & Hkeys & _ & Hwf).
  assert (HP : unique_rows (restore u (_indices i))) by (by destruct s; destruct Hwf).
  unfold undo. rewrite Hs. set (R := _indices i) in *. set (P := restore u R) in *.
  rewrite undo_erase; [|apply ascending_ids_nodup|].
  2: { intros id Hid. apply ascending_ids_elem in Hid. by apply (fits_new _ _ _ Hfit). }
  cbn [mbind result_bind]. set (m1 := foldl _ R _).
  assert (Hm1 : forall id, m1 !! id = if bool_decide (id ∈ new_ids u) then None else R !! id).
  { intros id. unfold m1. rewrite fold_delete_lookup. erewrite bool_decide_ext; [done|]. apply ascending_ids_elem. }
  assert (Hinc : keys_included m1 P).
  { intros id w. rewrite Hm1. case_bool_decide as Hn; [done|]. intros Hw. unfold P. rewrite restore_lookup.
    destruct (removed_values u !! id) as [x|] eqn:Er.
    { destruct (fits_removed _ _ _ Hfit id x Er). congruence. }
    destruct (old_values u !! id) as [x|] eqn:Eo; [exists x; split; [done|]; symmetry; by eapply Hkeys|].
    rewrite decide_False by done. by exists w. }
  destruct (undo_restore_old (ascending (old_values u)) m1 P HP Hinc) as [Hm2 Hinc2].
  { intros id v Hid. apply ascending_elem in Hid. destruct (fits_old _ _ _ Hfit id v Hid) as [Hs1 Hlt]. split.
    - rewrite Hm1, bool_decide_eq_false_2; [done|]. intros Hn. destruct (fits_new _ _ _ Hfit id Hn). lia.
    - unfold P. rewrite restore_lookup. destruct (removed_values u !! id) as [x|] eqn:Er; [|by rewrite Hid].
      destruct (fits_removed _ _ _ Hfit id x Er) as [Hn _]. rewrite Hn in Hs1. by destruct Hs1. }
  rewrite Hm2. cbn [mbind result_bind]. set (m2 := foldl _ m1 _) in *.
  assert (Hm2l : forall id, m2 !! id = match old_values u !! id with Some v => Some v | None => m1 !! id end).
  { intros id. unfold m2. rewrite fold_insert_lookup by apply ascending_nodup. by rewrite ascending_to_map. }
  rewrite (undo_restore_removed _ m2 P HP Hinc2 (ascending_nodup _)).
  2: { intros id v Hid. apply ascending_elem in Hid. destruct (fits_removed _ _ _ Hfit id v Hid) as [Hn Hlt]. split.
       - rewrite Hm2l, Hm1. destruct (old_values u !! id) as [x|] eqn:Eo.
         + destruct (fits_old _ _ _ Hfit id x Eo) as [Hs1 _]. rewrite Hn in Hs1. by destruct Hs1.
         + by case_bool_decide.
       - unfold P. by rewrite restore_lookup, Hid. }
  cbn [mbind result_bind]. do 2 f_equal. apply map_eq. intros id.
  rewrite fold_insert_lookup, ascending_to_map by apply ascending_nodup.
  unfold P. rewrite restore_lookup, Hm2l, Hm1.
  destruct (removed_values u !! id), (old_values u !! id); try done.
  by case_bool_decide; case_decide.
Qed.

(** ** Row operations *)

(** The newest undo state and the table may change together as long as they
    stand for the same older table. *)
Lemma wf_change u u' (s : list undo_state) R R' n n' r : wf_stack R n r (u :: s) ->
  unique_rows R' -> fits u' R' n' -> keys_kept u' R' -> restore u' R' = restore u R ->
  old_next_id u' = old_next_id u -> u_revision u' = u_revision u ->
  wf_stack R' n' r (u' :: s) /\ copies R' (u' :: s) = copies R (u :: s).
Proof.
  intros (_ & _ & _ & Hr & Hwf) HR' Hf Hk Hres Hn Hrev.
  split; [|cbn [copies]; by rewrite Hres, Hn, Hrev].
  split_and!; [done..| congruence |]. by rewrite Hres, Hn.
Qed.

Lemma wf_unique i : wf i -> unique_rows (_indices i).
Proof. unfold wf. by destruct (_stack i); intros [HR _]. Qed.

Lemma wf_bound i id : wf i -> is_Some (_indices i !! id) -> id < _next_id i.
Proof.
  unfold wf. destruct (_stack i) as [|u s]; intros [_ Hw]; [apply Hw|].
  destruct Hw as [Hf _]. apply (fits_row _ _ _ Hf).
Qed.

Lemma emplace_new u R n v : fits u R n -> R !! n = None ->
  let u' := mk_undo (old_values u) (removed_values u) ({[ n ]} ∪ new_ids u) (old_next_id u) (u_revision u) in
  fits u' (<[n := v]> R) (n + 1) /\ restore u' (<[n := v]> R) = restore u R.
Proof.
  intros Hf Hn u'. pose proof (fits_next _ _ _ Hf) as Hle. split.
  - split; cbn [u' old_values removed_values new_ids old_next_id].
    + intros id [->%elem_of_singleton|Hid]%elem_of_union; [rewrite lookup_insert_eq; by eauto|].
      destruct (fits_new _ _ _ Hf id Hid) as [Hs Hl]. split; [|done]. apply lookup_insert_is_Some'. by right.
    + intros id w Hid. destruct (fits_old _ _ _ Hf id w Hid) as [Hs Hl]. split; [|done].
      apply lookup_insert_is_Some'. by right.
    + intros id w Hid. destruct (fits_removed _ _ _ Hf id w Hid) as [Hs Hl]. split; [|done].
      rewrite lookup_insert_ne; [done|lia].
    + intros id Hid. rewrite not_elem_of_union, not_elem_of_singleton.
      destruct (decide (id = n)) as [->|Hne]; [split; [lia|]; by intros []|].
      rewrite lookup_insert_ne in Hid by done. destruct (fits_row _ _ _ Hf id Hid) as [? Hl].
      split; [lia|]. intros [_ Hnew]. by apply Hl.
    + lia.
  - apply map_eq. intros id. rewrite !restore_lookup. cbn [u' old_values removed_values new_ids].
    destruct (removed_values u !! id) as [w|] eqn:Er; [done|].
    destruct (old_values u !! id) as [w|] eqn:Eo; [done|].
    destruct (decide (id = n)) as [->|Hne].
    + rewrite decide_True by set_solver. rewrite Hn. by case_decide.
    + rewrite lookup_insert_ne by done. clear -Hne.
      repeat case_decide; try done; exfalso; set_solver.
Qed.

Lemma emplace_refines c i : wf i ->
  match exec (Emplace c) i with
  | Ok i' => wf i' /\ spec_exec (Emplace c) (abs i) = Ok (abs i')
  | Err e => spec_exec (Emplace c) (abs i) = Err e
  end.
Proof.
  intros Hwf. cbn [exec spec_exec abs cur next saved rev]. unfold emplace.
  destruct (container_emplace (_indices i) (_next_id i) (c (_next_id i))) as [m|] eqn:Em; [|done].
  cbn [of_option mbind result_bind]. unfold container_emplace in Em.
  destruct (_indices i !! _next_id i) eqn:En; [done|]. destruct (unique_at _ _ _) eqn:Eu; [|done].
  injection Em as <-. rewrite unique_at_ok in Eu.
  pose proof (unique_insert _ _ _ (wf_unique _ Hwf) Eu) as HR'.
  unfold on_create, with_head. cbn [_stack _indices _next_id _revision]. unfold abs, wf in *.
  destruct (_stack i) as [|u s]; cbn [_stack _indices _next_id _revision].
  - split; [|done]. split; [done|]. destruct Hwf as [_ Hb]. intros id [v [[-> _]|[_ Hid]]%lookup_insert_Some]; [lia|].
    enough (id < _next_id i) by lia. apply Hb. by exists v.
  - destruct (emplace_new u (_indices i) (_next_id i) (c (_next_id i))) as [Hf Hres]; [apply Hwf | done|].
    destruct (wf_change _ _ _ _ _ _ _ _ Hwf HR' Hf) as [Hw Hc]; [|done..|].
    + destruct Hwf as (_ & Hfit & Hk & _). intros id v w Ho Hw. cbn [old_values] in Ho.
      destruct (fits_old _ _ _ Hfit id v Ho) as [Hs _].
      rewrite lookup_insert_ne in Hw; [by eapply Hk|]. intros <-. rewrite En in Hs. by destruct Hs.
    + split; [done|]. by rewrite Hc.
Qed.

(** What [on_modify] and [on_remove] make of the newest undo state. *)
Definition note_modify (id : Z) (v : V) (u : undo_state) : undo_state :=
  if bool_decide (id ∈ new_ids u) then u
  else match old_values u !! id with
       | Some _ => u
       | None => mk_undo (<[id := v]> (old_values u)) (removed_values u) (new_ids u) (old_next_id u) (u_revision u)
       end.

Lemma modify_note u R n id v v' : fits u R n -> keys_kept u R -> R !! id = Some v -> same_keys v' v ->
  let u' := note_modify id v u in
  fits u' (<[id := v']> R) n /\ keys_kept u' (<[id := v']> R) /\
  restore u' (<[id := v']> R) = restore u R /\ old_next_id u' = old_next_id u /\ u_revision u' = u_revision u.
Proof.
  intros Hf Hk Hv Hsame u'.
  assert (Hnr : removed_values u !! id = None).
  { destruct (removed_values u !! id) as [w|] eqn:Er; [|done].
    destruct (fits_removed _ _ _ Hf id w Er). congruence. }
  destruct (fits_row _ _ _ Hf id) as [Hidn Hold]; [by exists v|].
  assert (Hcases : (u' = u /\ (id ∈ new_ids u \/ is_Some (old_values u !! id))) \/
    ((id ∉ new_ids u) /\ old_values u !! id = None /\
     u' = mk_undo (<[id := v]> (old_values u)) (removed_values u) (new_ids u) (old_next_id u) (u_revision u))).
  { unfold u', note_modify. case_bool_decide as Hn; [by left; auto|].
    destruct (old_values u !! id) as [w|] eqn:Eo; [left; by eauto | by right]. }
  assert (Hsome : forall j, is_Some ((<[id := v']> R) !! j) <-> is_Some (R !! j)).
  { intros j. destruct (decide (id = j)) as [<-|]; [rewrite lookup_insert_eq, Hv; split; by eauto|].
    by rewrite lookup_insert_ne. }
  assert (Hnone : forall j, R !! j = None -> (<[id := v']> R) !! j = None).
  { intros j Hj. rewrite lookup_insert_ne; [done|]. congruence. }
  assert (Hold_id : forall w, old_values u !! id = Some w -> same_keys w v') .
  { intros w Hw. unfold same_keys in *. rewrite Hsame. by eapply Hk. }
  destruct Hcases as [[-> Hin]|(Hn & Ho & ->)].
  - split_and!; try done.
    + split; [intros j Hj; rewrite Hsome; by apply (fits_new _ _ _ Hf)
        | intros j w Hj; rewrite Hsome; by eapply (fits_old _ _ _ Hf)
        | intros j w Hj; destruct (fits_removed _ _ _ Hf j w Hj); split; [by apply Hnone | done]
        | intros j; rewrite Hsome; apply (fits_row _ _ _ Hf) | apply (fits_next _ _ _ Hf)].
    + intros j x y Hx [[<- <-]|[_ Hy]]%lookup_insert_Some; [by apply Hold_id | by eapply Hk].
    + apply map_eq. intros j. rewrite !restore_lookup. destruct (removed_values u !! j); [done|].
      destruct (old_values u !! j) eqn:Eo; [done|]. case_decide; [done|].
      rewrite lookup_insert_ne; [done|]. intros <-. destruct Hin as [?|[? ?]]; congruence.
  - split_and!; try done.
    + split; cbn [old_values removed_values new_ids old_next_id];
        [intros j Hj; rewrite Hsome; by apply (fits_new _ _ _ Hf)
        | intros j w [[<- <-]|[_ Hj]]%lookup_insert_Some; rewrite Hsome; [by eauto | by eapply (fits_old _ _ _ Hf)]
        | intros j w Hj; destruct (fits_removed _ _ _ Hf j w Hj); split; [by apply Hnone | done]
        | intros j; rewrite Hsome; apply (fits_row _ _ _ Hf) | apply (fits_next _ _ _ Hf)].
    + intros j x y Hx Hy. cbn [old_values] in Hx. apply lookup_insert_Some in Hx as [[<- <-]|[Hne Hx]].
      * rewrite lookup_insert_eq in Hy. by simplify_eq.
      * rewrite lookup_insert_ne in Hy by done. by eapply Hk.
    + apply map_eq. intros j. rewrite !restore_lookup. cbn [old_values removed_values new_ids].
      destruct (decide (id = j)) as [<-|Hne].
      * rewrite lookup_insert_eq, Hnr, Ho, decide_False by done. done.
      * by rewrite !lookup_insert_ne by done.
Qed.

Lemma modify_refines id f i : wf i -> (forall v, same_keys (f v) v) ->
  match exec (Modify id f) i with
  | Ok i' => wf i' /\ spec_exec (Modify id f) (abs i) = Ok (abs i')
  | Err e => spec_exec (Modify id f) (abs i) = Err e
  end.
Proof.
  intros Hwf Hf. cbn [exec spec_exec abs cur next saved rev]. unfold modify.
  destruct (_indices i !! id) as [v|] eqn:Ev; [|done]. cbn [of_option mbind result_bind].
  replace (_indices (on_modify id v i)) with (_indices i) by (unfold on_modify, with_head; by destruct (_stack i)).
  unfold container_modify. destruct (unique_at (_indices i) id (f v)) eqn:Eu; cbn [of_option mbind result_bind]; [|done].
  cbn [of_option mbind result_bind]. rewrite unique_at_ok in Eu.
  pose proof (unique_insert _ _ _ (wf_unique _ Hwf) Eu) as HR'.
  unfold on_modify, with_head, with_rows, abs, wf in *.
  destruct (_stack i) as [|u s] eqn:Es; cbn [_stack _indices _next_id _revision]; rewrite ?Es.
  - split; [|reflexivity]. split; [done|]. destruct Hwf as [_ Hb]. intros j [w [[<- _]|[_ Hj]]%lookup_insert_Some];
      apply Hb; by eauto.
  - destruct (modify_note u (_indices i) (_next_id i) id v (f v)) as (H1 & H2 & H3 & H4 & H5);
      [apply Hwf | apply Hwf | done | done|].
    destruct (wf_change _ _ _ _ _ _ _ _ Hwf HR' H1 H2 H3 H4 H5) as [Hw Hc]. split; [done|]. by rewrite <- Hc.
Qed.

Definition note_remove (id : Z) (v : V) (u : undo_state) : undo_state :=
  mk_undo (delete id (old_values u))
    (if bool_decide (id ∈ new_ids u) then removed_values u
     else <[id := default v (old_values u !! id)]> (removed_values u))
    (new_ids u ∖ {[ id ]}) (old_next_id u) (u_revision u).

Lemma fits_apart u R n id : fits u R n -> is_Some (R !! id) ->
  removed_values u !! id = None /\ (id ∈ new_ids u -> old_values u !! id = None).
Proof.
  intros Hf Hs. split.
  - destruct (removed_values u !! id) as [w|] eqn:Er; [|done].
    destruct (fits_removed _ _ _ Hf id w Er) as [Hn _]. rewrite Hn in Hs. by destruct Hs.
  - intros Hn. destruct (old_values u !! id) as [w|] eqn:Eo; [|done].
    destruct (fits_old _ _ _ Hf id w Eo) as [_ Hl]. destruct (fits_new _ _ _ Hf id Hn). lia.
Qed.

Lemma on_remove_note u R n id v : fits u R n -> R !! id = Some v ->
  (if bool_decide (id ∈ new_ids u) then
     mk_undo (old_values u) (removed_values u) (new_ids u ∖ {[ id ]}) (old_next_id u) (u_revision u)
   else
     match old_values u !! id with
     | Some old =>
       mk_undo (delete id (old_values u))
         (match removed_values u !! id with
          | Some _ => removed_values u | None => <[id := old]> (removed_values u) end)
         (new_ids u) (old_next_id u) (u_revision u)
     | None =>
       match removed_values u !! id with
       | Some _ => u
       | None => mk_undo (old_values u) (<[id := v]> (removed_values u)) (new_ids u)
                   (old_next_id u) (u_revision u)
       end
     end) = note_remove id v u.
Proof.
  intros Hf Hv. destruct (fits_apart u R n id Hf) as [Hr Ho]; [by exists v|]. unfold note_remove.
  case_bool_decide as Hn; [by rewrite delete_id by auto|]. rewrite Hr, difference_disjoint_L by set_solver.
  destruct (old_values u !! id) as [w|] eqn:Eo; [done|]. by rewrite delete_id.
Qed.

Lemma remove_note u R n id v : fits u R n -> keys_kept u R -> R !! id = Some v ->
  let u' := note_remove id v u in
  fits u' (delete id R) n /\ keys_kept u' (delete id R) /\ restore u' (delete id R) = restore u R.
Proof.
  intros Hf Hk Hv u'. destruct (fits_apart u R n id Hf) as [Hr Ho]; [by exists v|].
  destruct (fits_row _ _ _ Hf id) as [Hidn Hold]; [by exists v|]. split_and!.
  - split; cbn [u' note_remove old_values removed_values new_ids old_next_id].
    + intros j [Hj Hne%not_elem_of_singleton]%elem_of_difference. rewrite lookup_delete_ne by done.
      by apply (fits_new _ _ _ Hf).
    + intros j w [Hne Hj]%lookup_delete_Some. rewrite lookup_delete_ne by done. by eapply (fits_old _ _ _ Hf).
    + intros j w Hj. destruct (decide (id = j)) as [<-|Hne].
      * rewrite lookup_delete_eq. split; [done|]. case_bool_decide; [congruence | by apply Hold].
      * rewrite lookup_delete_ne by done. apply (fits_removed _ _ _ Hf j w).
        case_bool_decide; [done|]. by rewrite lookup_insert_ne in Hj.
    + intros j [w [Hne Hj]%lookup_delete_Some]. destruct (fits_row _ _ _ Hf j) as [Hlt Hl]; [by exists w|].
      split; [done|]. intros Hn. apply Hl. set_solver.
    + apply (fits_next _ _ _ Hf).
  - intros j x y Hx Hy. cbn [u' note_remove old_values] in Hx.
    apply lookup_delete_Some in Hx as [_ Hx], Hy as [_ Hy]. by eapply Hk.
  - apply map_eq. intros j. rewrite !restore_lookup. cbn [u' note_remove old_values removed_values new_ids].
    destruct (decide (id = j)) as [<-|Hne].
    + rewrite !lookup_delete_eq, Hr. case_bool_decide as Hn.
      * rewrite Hr, Ho by done. repeat case_decide; done.
      * rewrite lookup_insert_eq, Hv. destruct (old_values u !! id); [done|]. by rewrite decide_False.
    + rewrite !lookup_delete_ne by done.
      replace ((if bool_decide (id ∈ new_ids u) then removed_values u
                else <[id := default v (old_values u !! id)]> (removed_values u)) !! j)
        with (removed_values u !! j) by (case_bool_decide; by rewrite ?lookup_insert_ne).
      destruct (removed_values u !! j), (old_values u !! j); try done.
      clear -Hne. repeat case_decide; try done; exfalso; set_solver.
Qed.

Lemma remove_refines id i : wf i ->
  match exec (Remove id) i with
  | Ok i' => wf i' /\ spec_exec (Remove id) (abs i) = Ok (abs i')
  | Err e => spec_exec (Remove id) (abs i) = Err e
  end.
Proof.
  intros Hwf. cbn [exec spec_exec abs cur next saved rev]. unfold remove.
  destruct (_indices i !! id) as [v|] eqn:Ev; [|done]. cbn [of_option mbind result_bind].
  pose proof (unique_delete _ id (wf_unique _ Hwf)) as HR'.
  unfold on_remove, with_head, with_rows, abs, wf in *.
  destruct (_stack i) as [|u s] eqn:Es; cbn [_stack _indices _next_id _revision]; rewrite ?Es.
  - split; [|done]. split; [done|]. destruct Hwf as [_ Hb]. intros j [w [_ Hj]%lookup_delete_Some]. apply Hb. by eauto.
  - rewrite (on_remove_note u (_indices i) (_next_id i)) by (done || apply Hwf).
    destruct (remove_note u (_indices i) (_next_id i) id v) as (H1 & H2 & H3); [apply Hwf | apply Hwf | done |].
    destruct (wf_change _ _ _ _ _ _ _ _ Hwf HR' H1 H2 H3 eq_refl eq_refl) as [Hw Hc]. split; [done|]. by rewrite <- Hc.
Qed.

(** ** Sessions *)

Lemma start_refines i : wf i -> wf (start_undo_session i) /\
  spec_exec Start (abs i) = Ok (abs (start_undo_session i)).
Proof.
  intros Hwf. cbn [spec_exec abs cur next saved rev]. unfold abs, start_undo_session.
  cbn [_stack _indices _next_id _revision copies].
  assert (Hid : restore (mk_undo ∅ ∅ ∅ (_next_id i) (_revision i + 1)) (_indices i) = _indices i).
  { apply map_eq. intros j. rewrite restore_lookup. cbn [old_values removed_values new_ids].
    by rewrite !lookup_empty, decide_False. }
  rewrite Hid. split; [|done]. unfold wf. cbn [_stack _indices _next_id _revision wf_stack].
  rewrite Hid. cbn [old_next_id u_revision]. replace (_revision i + 1 - 1) with (_revision i) by lia.
  split_and!; [by apply wf_unique | | done | done | done].
  split; cbn [old_values removed_values new_ids old_next_id]; try done.
  intros j Hj. pose proof (wf_bound i j Hwf Hj). done.
Qed.

Lemma undo_refines i : wf i ->
  exists i', undo i = Ok i' /\ wf i' /\ spec_exec Undo (abs i) = Ok (abs i').
Proof.
  intros Hwf. destruct (_stack i) as [|u s] eqn:Es.
  - exists i. unfold undo. rewrite Es. split_and!; [done|done|]. cbn [spec_exec abs saved]. by rewrite Es.
  - rewrite (undo_ok i u s) by done. eexists. split_and!; [done| |].
    + unfold wf in *. rewrite Es in Hwf. destruct Hwf as (_ & _ & _ & _ & Hwf). done.
    + cbn [spec_exec abs saved]. rewrite Es. done.
Qed.

(** *** Squashing: everything happens id by id *)

(** What an undo state says about one id: new, old value, removed value. *)
Definition view (u : undo_state) (id : Z) : bool * option V * option V :=
  (bool_decide (id ∈ new_ids u), old_values u !! id, removed_values u !! id).

Definition restore_view (w : bool * option V * option V) (x : option V) : option V :=
  let '(n, o, r) := w in
  match r, o with Some v, _ => Some v | None, Some v => Some v | None, None => if n then None else x end.

Lemma restore_view_ok u R id : restore u R !! id = restore_view (view u id) (R !! id).
Proof.
  rewrite restore_lookup. unfold view, restore_view.
  destruct (removed_values u !! id), (old_values u !! id); try done. by case_decide; case_bool_decide.
Qed.

(** A loop whose body changes what is said about one id changes each id once. *)
Lemma fold_view {X} (key : X -> Z) (step : undo_state -> X -> undo_state)
    (g : X -> bool * option V * option V -> bool * option V * option V) (l : list X) (u : undo_state) :
  (forall u x id, view (step u x) id = if decide (id = key x) then g x (view u id) else view u id) ->
  NoDup (key <$> l) ->
  (forall id, id ∉ key <$> l -> view (foldl step u l) id = view u id) /\
  (forall x, x ∈ l -> view (foldl step u l) (key x) = g x (view u (key x))).
Proof.
  intros Hstep. revert u. induction l as [|y l IH]; intros u; [by split; [|intros x ?%not_elem_of_nil]|].
  rewrite fmap_cons. intros [Hy Hnd]%NoDup_cons. destruct (IH (step u y) Hnd) as [Hout Hin]. simpl. split.
  - intros id [Hne Hid]%not_elem_of_cons. rewrite Hout, Hstep by done. by rewrite decide_False.
  - intros x [->|Hx]%elem_of_cons.
    + rewrite Hout, Hstep by done. by rewrite decide_True.
    + rewrite Hin, Hstep by done. rewrite decide_False; [done|]. intros Heq. apply Hy. rewrite <- Heq.
      by apply list_elem_of_fmap_2.
Qed.

Lemma fold_view_map {A} (step : undo_state -> Z * A -> undo_state) g (m : gmap Z A) (u : undo_state) id :
  (forall u x id, view (step u x) id = if decide (id = x.1) then g x.2 (view u id) else view u id) ->
  view (foldl step u (ascending m)) id = match m !! id with Some v => g v (view u id) | None => view u id end.
Proof.
  intros Hstep. destruct (fold_view fst step (fun x => g x.2) (ascending m) u Hstep (ascending_nodup m)) as [Hout Hin].
  destruct (m !! id) as [v|] eqn:Em.
  - apply ascending_elem in Em. apply (Hin (id, v) Em).
  - apply Hout. intros ([j v] & -> & Hj)%list_elem_of_fmap. apply ascending_elem in Hj. simpl in Em. congruence.
Qed.

Definition view_old (v : V) (w : bool * option V * option V) :=
  let '(n, o, r) := w in if n : bool then w else match o with Some _ => w | None => (n, Some v, r) end.
Definition view_removed (v : V) (w : bool * option V * option V) : bool * option V * option V :=
  let '(n, o, r) := w in
  if n then (false, o, r)
  else (false, None, match r with Some x => Some x | None => Some (default v o) end).

Definition merge_view (a b : bool * option V * option V) : bool * option V * option V :=
  let '(nb, ob, rb) := b in
  let a := match ob with Some v => view_old v a | None => a end in
  let a := (if nb : bool then (true, a.1.2, a.2) else a) in
  match rb with Some v => view_removed v a | None => a end.

Lemma squash_old_view u x id :
  view (squash_old u x) id = if decide (id = x.1) then view_old x.2 (view u id) else view u id.
Proof.
  destruct x as [k v]. unfold squash_old, view, view_old. cbn [fst snd]. case_decide as Hk.
  - subst. destruct (bool_decide (k ∈ new_ids u)) eqn:Hn; [by rewrite Hn|].
    destruct (old_values u !! k) eqn:Eo; cbn [old_values removed_values new_ids];
      rewrite ?Eo, ?lookup_insert_eq, Hn; done.
  - destruct (bool_decide (k ∈ new_ids u)); [done|]. destruct (old_values u !! k); [done|].
    cbn [old_values removed_values new_ids]. by rewrite lookup_insert_ne by done.
Qed.

Lemma squash_removed_view u x id :
  view (squash_removed u x) id = if decide (id = x.1) then view_removed x.2 (view u id) else view u id.
Proof.
  destruct x as [k v]. unfold squash_removed, view, view_removed, map_emplace. cbn [fst snd]. case_decide as Hk.
  - subst. destruct (bool_decide (k ∈ new_ids u)) eqn:Hn; cbn [old_values removed_values new_ids].
    + by rewrite bool_decide_eq_false_2 by set_solver.
    + destruct (old_values u !! k) eqn:Eo, (removed_values u !! k) eqn:Er; cbn [old_values removed_values new_ids];
        by rewrite ?lookup_delete_eq, ?lookup_insert_eq, ?Eo, ?Er, Hn.
  - destruct (bool_decide (k ∈ new_ids u)) eqn:Hn; cbn [old_values removed_values new_ids].
    + do 2 f_equal. apply bool_decide_ext. set_solver.
    + destruct (old_values u !! k) eqn:Eo, (removed_values u !! k) eqn:Er; cbn [old_values removed_values new_ids];
        by rewrite ?lookup_delete_ne, ?lookup_insert_ne by done.
Qed.

Lemma squash_new_view l (u : undo_state) id :
  view (foldl squash_new u l) id = (if bool_decide (id ∈ l) then (true, (view u id).1.2, (view u id).2) else view u id).
Proof.
  revert u. induction l as [|k l IH]; intros u; [done|]. simpl. rewrite IH.
  unfold view, squash_new. cbn [old_values removed_values new_ids fst snd].
  destruct (decide (id ∈ l)) as [Hl|Hl]; [by rewrite !bool_decide_eq_true_2 by (done || by right)|].
  rewrite (bool_decide_eq_false_2 (id ∈ l)) by done. destruct (decide (id = k)) as [->|Hne].
  - rewrite !bool_decide_eq_true_2 by set_solver. done.
  - rewrite (bool_decide_eq_false_2 (id ∈ k :: l)) by set_solver. do 2 f_equal. apply bool_decide_ext. set_solver.
Qed.

Lemma merge_states_view a b id : view (merge_states a b) id = merge_view (view a id) (view b id).
Proof.
  unfold merge_states. rewrite (fold_view_map _ view_removed) by apply squash_removed_view.
  rewrite squash_new_view, (fold_view_map _ view_old) by apply squash_old_view.
  unfold merge_view, view at 4. erewrite (bool_decide_ext (id ∈ ascending_ids _)) by apply ascending_ids_elem. done.
Qed.

Lemma fold_rest {X} (step : undo_state -> X -> undo_state) l (u : undo_state) :
  (forall u x, old_next_id (step u x) = old_next_id u /\ u_revision (step u x) = u_revision u) ->
  old_next_id (foldl step u l) = old_next_id u /\ u_revision (foldl step u l) = u_revision u.
Proof.
  intros Hs. revert u. induction l as [|x l IH]; intros u; [done|]. simpl.
  destruct (IH (step u x)) as [-> ->]. apply Hs.
Qed.

Lemma merge_states_rest (a b : undo_state) :
  old_next_id (merge_states a b) = old_next_id a /\ u_revision (merge_states a b) = u_revision a.
Proof.
  unfold merge_states.
  edestruct (fold_rest squash_removed) as [-> ->].
  { intros u [k v]. unfold squash_removed. case_bool_decide; [done|]. by destruct (old_values u !! k). }
  edestruct (fold_rest squash_new) as [-> ->]; [done|].
  apply fold_rest. intros u [k v]. unfold squash_old. case_bool_decide; [done|]. by destruct (old_values u !! k).
Qed.

(** [fits], id by id. *)
Definition fits_view (id on n : Z) (w : bool * option V * option V) (x : option V) : Prop :=
  let '(new, o, r) := w in
  (new = true -> x <> None /\ on <= id) /\ (o <> None -> x <> None /\ id < on) /\
  (r <> None -> x = None /\ id < on) /\ (x <> None -> id < n /\ (new = false -> id < on)).

Lemma fits_views u R n : fits u R n <->
  (forall id, fits_view id (old_next_id u) n (view u id) (R !! id)) /\ old_next_id u <= n.
Proof.
  split.
  - intros Hf. split; [|apply (fits_next _ _ _ Hf)]. intros id. unfold fits_view, view. split_and!.
    + rewrite bool_decide_eq_true, not_eq_None_Some. apply (fits_new _ _ _ Hf).
    + rewrite not_eq_None_Some. intros [v Ho]. rewrite not_eq_None_Some. by eapply (fits_old _ _ _ Hf).
    + rewrite not_eq_None_Some. intros [v Ho]. by eapply (fits_removed _ _ _ Hf).
    + rewrite bool_decide_eq_false, not_eq_None_Some. apply (fits_row _ _ _ Hf).
  - intros [Hv Hn]. split; [..|done]; intros id; destruct (Hv id) as (H1 & H2 & H3 & H4); unfold view in *.
    + rewrite bool_decide_eq_true, not_eq_None_Some in H1. apply H1.
    + intros v Ho. rewrite Ho in H2. rewrite <- not_eq_None_Some. by apply H2.
    + intros v Ho. rewrite Ho in H3. by apply H3.
    + rewrite bool_decide_eq_false, not_eq_None_Some in H4. apply H4.
Qed.

Lemma merge_view_ok id on on' n a b x : on <= on' ->
  fits_view id on' n b x -> fits_view id on on' a (restore_view b x) ->
  fits_view id on n (merge_view a b) x /\
  restore_view (merge_view a b) x = restore_view a (restore_view b x).
Proof.
  intros Hle. destruct a as [[na oa] ra], b as [[nb ob] rb].
  unfold fits_view, merge_view, restore_view, view_old, view_removed.
  intros (B1 & B2 & B3 & B4) (A1 & A2 & A3 & A4).
  assert (Hsome : forall v : V, Some v <> None) by done.
  assert (Hrb : rb <> None -> nb = false /\ ob = None /\ x = None).
  { intros Hr. destruct (B3 Hr) as [-> _]. split_and!; [destruct nb; [by destruct B1|done] | | done].
    destruct ob; [by destruct B2 | done]. }
  assert (Hob : ob <> None -> nb = false /\ x <> None).
  { intros Ho. destruct (B2 Ho). split; [|done]. destruct nb; [|done]. destruct B1; [done|lia]. }
  destruct rb as [r|].
  - destruct (Hrb (Hsome r)) as (-> & -> & ->). destruct na, oa, ra; cbn in *; split; try done; naive_solver lia.
  - destruct ob as [o|].
    + destruct (Hob (Hsome o)) as [-> Hx]. destruct x as [y|]; [|done].
      destruct na, oa, ra; cbn in *; split; try done; naive_solver lia.
    + destruct nb, x as [y|], na, oa, ra; cbn in *; split; try done; naive_solver lia.
Qed.

Lemma merge_fits a b R n : fits b R n -> fits a (restore b R) (old_next_id b) ->
  fits (merge_states a b) R n /\ restore (merge_states a b) R = restore a (restore b R).
Proof.
  rewrite !fits_views. intros [Hb Hbn] [Ha Han]. destruct (merge_states_rest a b) as [Hon _].
  assert (Hok : forall id, fits_view id (old_next_id a) n (view (merge_states a b) id) (R !! id) /\
    restore (merge_states a b) R !! id = restore a (restore b R) !! id).
  { intros id. rewrite !restore_view_ok, merge_states_view. specialize (Ha id). rewrite restore_view_ok in Ha.
    by eapply merge_view_ok. }
  rewrite Hon. split_and!; [intros id; apply Hok | lia | apply map_eq; intros id; apply Hok].
Qed.

Lemma merge_keys a b R n : fits b R n -> fits a (restore b R) (old_next_id b) ->
  keys_kept b R -> keys_kept a (restore b R) -> keys_kept (merge_states a b) R.
Proof.
  rewrite !fits_views. intros [Hb _] [Ha _] Kb Ka id v w Hv Hw.
  specialize (Hb id). specialize (Ha id). specialize (Kb id). specialize (Ka id).
  rewrite restore_view_ok in Ha, Ka. pose proof (merge_states_view a b id) as Hm.
  change (old_values (merge_states a b) !! id) with ((view (merge_states a b) id).1.2) in Hv. rewrite Hm in Hv. clear Hm.
  change (old_values a !! id) with ((view a id).1.2) in Ka. change (old_values b !! id) with ((view b id).1.2) in Kb.
  rewrite Hw in *. destruct (view a id) as [[na oa] ra], (view b id) as [[nb ob] rb].
  unfold fits_view, merge_view, restore_view, view_old, view_removed in *. cbn [fst snd] in *.
  destruct Hb as (B1 & B2 & B3 & B4). destruct rb as [r|]; [exfalso; by destruct B3 as [? _]|].
  destruct ob as [o|]; cbn in *.
  - assert (Ho : same_keys o w) by by apply Kb. destruct na, oa as [x|], nb; cbn in *; simplify_eq; try done;
      unfold same_keys in *; rewrite <- Ho; by apply Ka.
  - destruct nb; cbn in *; simplify_eq; [|by apply Ka]. exfalso. destruct Ha as (_ & A2 & _). by destruct A2.
Qed.

Lemma squash_refines i : wf i -> wf (squash i) /\ spec_exec Squash (abs i) = Ok (abs (squash i)).
Proof.
  intros Hwf. unfold squash, abs, wf in *. cbn [spec_exec saved cur next rev].
  destruct (_stack i) as [|b [|a s]] eqn:Es; cbn [_stack _indices _next_id _revision copies]; rewrite ?Es; [done| |].
  - split; [|done]. destruct Hwf as (HR & Hf & _). split; [done|]. apply (fits_row _ _ _ Hf).
  - destruct Hwf as (HR & Hb & Kb & _ & HP & Ha & Ka & Hrev & Hwf).
    destruct (merge_fits a b _ _ Hb Ha) as [Hf Hres]. destruct (merge_states_rest a b) as [Hon Hr].
    split; [|by rewrite Hres, Hon, Hr]. cbn [wf_stack]. rewrite Hres, Hon, Hr.
    split_and!; [done | done | by eapply merge_keys | done | done].
Qed.

(** *** Committing *)

(** Revisions decrease by one from the newest state to the oldest. *)
Definition keep (r : Z) (s : list undo_state) : list undo_state := filter (fun u => r < u_revision u) s.

Lemma wf_revisions R n r s : wf_stack R n r s -> Forall (fun u => u_revision u <= r) s.
Proof.
  revert R n r. induction s as [|u s IH]; intros R n r Hw; [done|]. destruct Hw as (_ & _ & _ & Hr & Hw).
  constructor; [lia|]. apply IH in Hw. eapply Forall_impl; [exact Hw|]. simpl. lia.
Qed.

Lemma pop_front_app r l (x : undo_state) : Forall (fun u => u_revision u <= r) l ->
  pop_front_while r (l ++ [x]) = if u_revision x <=? r then [] else [x].
Proof. intros Hl. induction Hl as [|u l Hu Hl IH]; [done|]. simpl. by rewrite (proj2 (Z.leb_le _ _) Hu). Qed.

Lemma pop_front_keep r l (x : undo_state) : r < u_revision x ->
  pop_front_while r (l ++ [x]) = pop_front_while r l ++ [x].
Proof.
  intros Hx. induction l as [|u l IH]; simpl; [by rewrite (proj2 (Z.leb_gt _ _) Hx)|].
  rewrite IH. by destruct (u_revision u <=? r).
Qed.

Lemma keep_none r s : Forall (fun u => u_revision u <= r) s -> keep r s = [].
Proof.
  unfold keep. induction 1 as [|u s Hu Hs IH]; [done|]. rewrite filter_cons, decide_False; [done | lia].
Qed.

Lemma commit_keep R n r' s r : wf_stack R n r' s -> reverse (pop_front_while r (reverse s)) = keep r s.
Proof.
  revert R n r'. unfold keep. induction s as [|u s IH]; intros R n r' Hw; [done|].
  pose proof (wf_revisions _ _ _ _ Hw) as Hle. destruct Hw as (_ & _ & _ & Hr & Hw).
  rewrite reverse_cons, filter_cons. case_decide as Hd.
  - rewrite pop_front_keep, reverse_app by done. simpl. f_equal. by eapply IH.
  - apply Forall_cons in Hle as [_ Hle].
    assert (Hall : Forall (fun u => u_revision u <= r) s) by (eapply Forall_impl; [exact Hle|]; simpl; lia).
    rewrite pop_front_app by by apply Forall_reverse. rewrite (proj2 (Z.leb_le _ _)) by lia.
    symmetry. by apply keep_none.
Qed.

Lemma keep_wf R n r' s r : wf_stack R n r' s ->
  wf_stack R n r' (keep r s) /\ copies R (keep r s) = filter (fun x => r < x.2) (copies R s).
Proof.
  revert R n r'. unfold keep. induction s as [|u s IH]; intros R n r' Hw; [done|].
  pose proof (wf_revisions _ _ _ _ Hw) as Hle. destruct Hw as (HR & Hf & Hk & Hr & Hw).
  destruct (IH _ _ _ Hw) as [Hw' Hc]. cbn [copies]. rewrite !filter_cons. cbn [snd]. case_decide as Hd.
  - cbn [copies wf_stack]. by rewrite Hc.
  - assert (Hnil : filter (fun v => r < u_revision v) s = []).
    { apply keep_none. apply Forall_cons in Hle as [_ Hle]. eapply Forall_impl; [exact Hle|]. simpl. lia. }
    rewrite Hnil in *. cbn [copies] in *. rewrite <- Hc. split; [|done]. split; [done|]. apply (fits_row _ _ _ Hf).
Qed.

Lemma commit_refines r i : wf i -> wf (commit r i) /\ spec_exec (Commit r) (abs i) = Ok (abs (commit r i)).
Proof.
  intros Hwf. unfold commit, abs, wf in *. cbn [_stack _indices _next_id _revision spec_exec saved cur next rev].
  rewrite (commit_keep _ _ _ _ r Hwf). destruct (keep_wf _ _ _ _ r Hwf) as [Hw Hc]. by rewrite Hc.
Qed.

Lemma copies_length R s : length (copies R s) = length s.
Proof. revert R. induction s as [|u s IH]; intros R; [done|]. simpl. by rewrite IH. Qed.

Lemma set_revision_refines r i : wf i ->
  match set_revision r i with
  | Ok i' => wf i' /\ spec_exec (SetRevision r) (abs i) = Ok (abs i')
  | Err e => spec_exec (SetRevision r) (abs i) = Err e
  end.
Proof.
  intros Hwf. unfold set_revision, abs, wf in *. cbn [spec_exec saved cur next rev]. rewrite copies_length.
  destruct (_stack i) as [|u s]; [|done]. cbn. destruct (r <=? INT64_MAX); [|done]. by split.
Qed.

Lemma chainbase_step (o : op) (i : generic_index) : wf i -> op_ok o ->
  match exec o i with
  | Ok i' => wf i' /\ spec_exec o (abs i) = Ok (abs i')
  | Err e => spec_exec o (abs i) = Err e
  end.
Proof.
  intros Hwf Hok. destruct o as [c|id f|id| | | |r|r].
  - by apply emplace_refines.
  - by apply modify_refines.
  - by apply remove_refines.
  - by apply start_refines.
  - destruct (undo_refines i Hwf) as (i' & Hu & Hw). cbn [exec]. by rewrite Hu.
  - by apply squash_refines.
  - by apply commit_refines.
  - by apply set_revision_refines.
Qed.
End Spec.
