(* ===== verification/ChainbaseRuns.v ===== *)
(** * Sessions and the database as a whole

    Runs of operations inside a session, the tables of a database moving in
    step, and concrete runs. *)

From stdpp Require Import base numbers list gmap strings sorting.
From Stdlib Require Import ZArith Lia.
From S2P Require Import Prelude Chainbase ChainbaseSpec.
Local Open Scope Z_scope.

Section Runs.
Context {V : Type} `{UniqueKeys V}.
#[local] Abbreviation generic_index := (generic_index (V := V)).
#[local] Abbreviation op := (op (V := V)).

Definition run (ops : list op) (i : generic_index) : result generic_index :=
  mfold (fun i o => exec o i) ops i.

(** How deep in nested sessions a sequence of operations ends; [None] when it
    leaves the outermost one or commits. *)
Fixpoint nesting (d : nat) (ops : list op) : option nat :=
  match ops with
  | [] => Some d
  | o :: ops =>
    match o with
    | Emplace _ | Modify _ _ | Remove _ => nesting d ops
    | Start => nesting (S d) ops
    | Undo | Squash => match d with S (S d) => nesting (S d) ops | _ => None end
    | Commit _ | SetRevision _ => None
    end
  end.

(** Inside [d] sessions opened on the index [i]. *)
Record inside (i : generic_index) (d : nat) (j : generic_index) : Prop := {
  inside_wf : wf j;
  inside_base : exists top, _stack j = top ++ _stack i /\ length top = d;
  inside_copy : saved (abs j) !! pred d = Some (_indices i, _next_id i, _revision i + 1);
  inside_rev : _revision j = _revision i + Z.of_nat d }.

(** Operations on rows leave the older undo states alone. *)
Lemma with_head_base (i j : generic_index) f d top : (d > 0)%nat -> _stack j = top ++ _stack i -> length top = d ->
  exists top', _stack (with_head j f) = top' ++ _stack i /\ length top' = d.
Proof.
  intros Hd Hs Hl. destruct top as [|u top]; [simpl in Hl; lia|]. exists (f u :: top).
  unfold with_head. by rewrite Hs.
Qed.

Lemma with_head_rev (j : generic_index) f : _revision (with_head j f) = _revision j.
Proof. unfold with_head. by destruct (_stack j). Qed.

Lemma inside_rows i d j o j' : (d > 0)%nat -> inside i d j -> op_ok o -> exec o j = Ok j' ->
  match o with Emplace _ | Modify _ _ | Remove _ => True | _ => False end -> inside i d j'.
Proof.
  intros Hd [Hwf (top & Hs & Hl) Hc Hr] Hok He Ho.
  pose proof (chainbase_step o j Hwf Hok) as Hst. rewrite He in Hst. destruct Hst as [Hwf' Hsp].
  assert (Hshape : (exists top', _stack j' = top' ++ _stack i /\ length top' = d) /\ _revision j' = _revision j).
  { destruct o as [c|id f|id| | | | |]; try (by destruct Ho); cbn [exec] in He; clear Hsp Hwf'.
    - unfold emplace in He. destruct (container_emplace _ _ _); [|discriminate]. cbn in He. injection He as <-.
      split; [|apply (with_head_rev (mk_index _ _ _ _))]. by eapply (with_head_base i (mk_index _ _ _ _)).
    - unfold modify in He. destruct (_indices j !! id); [|discriminate]. cbn in He.
      destruct (container_modify _ _ _); [|discriminate]. cbn in He. injection He as <-.
      split; [|apply (with_head_rev j)]. by eapply (with_head_base i j).
    - unfold remove in He. destruct (_indices j !! id); [|discriminate]. cbn in He. injection He as <-.
      split; [|apply (with_head_rev j)]. by eapply (with_head_base i j). }
  destruct Hshape as [Hb Hrev]. split; [done|done| |lia].
  replace (saved (abs j')) with (saved (abs j)); [done|].
  destruct o as [c|id f|id| | | |r|r]; try (by destruct Ho); cbn [spec_exec] in Hsp.
  - destruct (container_emplace _ _ _); [|done]. cbn [of_option mbind result_bind] in Hsp.
    apply (proj1 (Ok_inj _ _)) in Hsp. by rewrite <- Hsp.
  - destruct (cur (abs j) !! id); [|done]. cbn [of_option mbind result_bind] in Hsp.
    destruct (container_modify _ _ _); [|done]. cbn [of_option mbind result_bind] in Hsp.
    apply (proj1 (Ok_inj _ _)) in Hsp. by rewrite <- Hsp.
  - destruct (cur (abs j) !! id); [|done]. cbn [of_option mbind result_bind] in Hsp.
    apply (proj1 (Ok_inj _ _)) in Hsp. by rewrite <- Hsp.
Qed.

(** Starting, undoing and squashing move between depths. *)
Lemma inside_start i d j : inside i (S d) j -> inside i (S (S d)) (start_undo_session j).
Proof.
  intros [Hwf (top & Hs & Hl) Hc Hr]. destruct (start_refines j Hwf) as [Hw Hsp].
  split; [done| | |cbn; lia].
  - exists (mk_undo ∅ ∅ ∅ (_next_id j) (_revision j + 1) :: top). cbn. by rewrite Hs, Hl.
  - cbn [spec_exec] in Hsp. apply (proj1 (Ok_inj _ _)) in Hsp. rewrite <- Hsp. exact Hc.
Qed.

Lemma inside_pop i d j j' : inside i (S (S d)) j -> wf j' -> _revision j' = _revision j - 1 ->
  saved (abs j') = tail (saved (abs j)) -> (exists u, _stack j' = u :: tail (tail (_stack j))) -> inside i (S d) j'.
Proof.
  intros [Hwf (top & Hs & Hl) Hc Hr] Hw Hrev Hsv [u Hst]. split; [done| | |lia].
  - destruct top as [|x [|y top]]; [discriminate Hl..|]. exists (u :: top). rewrite Hst, Hs. simpl in *. split; [done|lia].
  - rewrite Hsv. cbn [pred] in *. by rewrite lookup_tail.
Qed.

Lemma inside_undo i d j j' : inside i (S (S d)) j -> undo j = Ok j' -> inside i (S d) j'.
Proof.
  intros Hin Hu. destruct (undo_refines j (inside_wf _ _ _ Hin)) as (j2 & Hu2 & Hw & Hsp).
  rewrite Hu in Hu2. apply (proj1 (Ok_inj _ _)) in Hu2 as <-.
  destruct (inside_base _ _ _ Hin) as (top & Hs & Hl). destruct top as [|u [|u2 top]]; [discriminate Hl..|]. simpl in Hs.
  rewrite (undo_ok j u _ (inside_wf _ _ _ Hin) Hs) in Hu. apply (proj1 (Ok_inj _ _)) in Hu as <-.
  eapply inside_pop; [done | done | done | | exists u2; by rewrite Hs].
  cbn [spec_exec abs saved] in *. by rewrite Hs in *.
Qed.

Lemma inside_squash i d j : inside i (S (S d)) j -> inside i (S d) (squash j).
Proof.
  intros Hin. destruct (squash_refines j (inside_wf _ _ _ Hin)) as [Hw Hsp].
  destruct (inside_base _ _ _ Hin) as (top & Hs & Hl). destruct top as [|u [|u2 top]]; [discriminate Hl..|]. simpl in Hs.
  eapply inside_pop; [done | done | unfold squash; by rewrite Hs | | exists (merge_states u2 u); unfold squash; by rewrite Hs].
  cbn [spec_exec] in Hsp. destruct (saved (abs j)) as [|x l] eqn:Esv; [cbn in Esv; by rewrite Hs in Esv|].
  apply (proj1 (Ok_inj _ _)) in Hsp. by rewrite <- Hsp.
Qed.

Lemma inside_run i ops d j j' d' : inside i (S d) j -> Forall op_ok ops -> nesting (S d) ops = Some d' ->
  run ops j = Ok j' -> inside i d' j'.
Proof.
  revert d j. induction ops as [|o ops IH]; intros d j Hin Hok Hn Hrun.
  { cbn [nesting] in Hn. apply (proj1 (Ok_inj _ _)) in Hrun as <-. by injection Hn as <-. }
  apply Forall_cons in Hok as [Ho Hok]. unfold run in Hrun. cbn [mfold] in Hrun. apply bind_ok in Hrun as (j1 & He & Hrun).
  assert (Hrows : match o with Emplace _ | Modify _ _ | Remove _ => True | _ => False end -> inside i (S d) j1).
  { by apply (inside_rows i (S d) j o j1); [lia|..]. }
  destruct o as [c|id f|id| | | |r|r]; cbn [nesting] in Hn; try done; try (by eapply IH; [apply Hrows|..]).
  - cbn [exec] in He. injection He as <-. eapply (IH (S d)); [by apply inside_start | done..].
  - destruct d; [done|]. eapply (IH d); [by eapply inside_undo | done..].
  - destruct d; [done|]. cbn [exec] in He. injection He as <-. eapply (IH d); [by apply inside_squash | done..].
Qed.

Lemma inside_open i : wf i -> inside i 1 (start_undo_session i).
Proof.
  intros Hwf. destruct (start_refines i Hwf) as [Hw Hsp]. split; [done| | |cbn; lia].
  - by exists [mk_undo ∅ ∅ ∅ (_next_id i) (_revision i + 1)].
  - cbn [spec_exec] in Hsp. apply (proj1 (Ok_inj _ _)) in Hsp. by rewrite <- Hsp.
Qed.

Lemma inside_close i j : inside i 1 j -> undo j = Ok i.
Proof.
  intros [Hwf (top & Hs & Hl) Hc Hr]. destruct top as [|u [|]]; try discriminate Hl. simpl in Hs.
  rewrite (undo_ok j u _ Hwf Hs). f_equal. cbn [pred] in Hc. cbn [abs saved] in Hc. rewrite Hs in Hc. cbn in Hc.
  injection Hc as -> -> _. destruct i. cbn in *. f_equal. lia.
Qed.

(** An index with undo states is an index with full copies: from a well formed
    index every sequence of operations has the outcome, error or new state, that it has on
    the copies, and leaves the index well formed.  In particular undoing always
    succeeds and brings back the table, next id and revision of the newest
    copy, squashing two sessions forgets the copy between them, and committing
    forgets the copies up to the given revision, whatever was created, modified
    and removed in between; the only assumption is that modifiers leave the
    unique keys alone. (C4) *)
Theorem chainbase_refines (ops : list op) (i : generic_index) : wf i -> Forall op_ok ops ->
  match run ops i with
  | Ok i' => wf i' /\ mfold (fun s o => spec_exec o s) ops (abs i) = Ok (abs i')
  | Err e => mfold (fun s o => spec_exec o s) ops (abs i) = Err e
  end.
Proof.
  intros Hwf Hok. revert i Hwf. induction Hok as [|o ops Ho Hok IH]; intros i Hwf; [done|].
  unfold run in *. cbn [mfold]. pose proof (chainbase_step o i Hwf Ho) as Hs.
  destruct (exec o i) as [i'|e]; cbn [mbind result_bind]; [|by rewrite Hs].
  destruct Hs as [Hw ->]. by apply IH.
Qed.

(** A session is atomic: whatever rows are created, modified and removed after
    it was started, with inner sessions started and undone or squashed on the
    way, undoing it gives back exactly the index it was started on, older undo
    states, next id and revision included.  Modifications keep unique keys
    ([op_ok]): a change of unique keys can make undoing abort, as
    [swapped_names_abort] shows. (C27) *)
Theorem session_atomic (ops : list op) (i j : generic_index) : wf i -> Forall op_ok ops ->
  nesting 1 ops = Some 1%nat -> run ops (start_undo_session i) = Ok j -> undo j = Ok i.
Proof. intros Hwf Hok Hn Hrun. apply inside_close. eapply inside_run; [by apply inside_open | done..]. Qed.

(** ** The tables of a database *)

Inductive db_op :=
| DbStart | DbUndo | DbSquash | DbCommit (revision : Z) | DbUndoAll | DbAdd (found : option generic_index).

Definition db_exec (o : db_op) (l : list generic_index) : result (list generic_index) :=
  match o with
  | DbStart => Ok (db_start_undo_session l)
  | DbUndo => db_undo l
  | DbSquash => Ok (db_squash l)
  | DbCommit r => Ok (db_commit r l)
  | DbUndoAll => db_undo_all l
  | DbAdd found => add_index found l
  end.

(** Every table has undo states for the same revisions. *)
Definition in_step (l : list generic_index) : Prop :=
  exists range, Forall (fun i => undo_stack_revision_range i = range) l.

(** The revision and the number of undo states decide the range. *)
Definition at_depth (r : Z) (n : nat) (i : generic_index) : Prop :=
  wf i /\ _revision i = r /\ length (_stack i) = n.

Lemma last_revision R n r u s d : wf_stack R n r (u :: s) ->
  u_revision (List.last (u :: s) d) = r - Z.of_nat (length s).
Proof.
  revert R n r u. induction s as [|v s IH]; intros R n r u (_ & _ & _ & Hr & Hw).
  - simpl. lia.
  - change (List.last (u :: v :: s) d) with (List.last (v :: s) d). rewrite (IH _ _ _ _ Hw). simpl length. lia.
Qed.

Lemma range_shape i : wf i ->
  undo_stack_revision_range i = (_revision i - Z.of_nat (length (_stack i)), _revision i).
Proof.
  unfold wf, undo_stack_revision_range. destruct (_stack i) as [|u s]; intros Hw; [f_equal; simpl; lia|].
  rewrite (last_revision _ _ _ _ _ _ Hw). destruct Hw as (_ & _ & _ & -> & _). f_equal. simpl length. lia.
Qed.

Lemma in_step_depth l : Forall wf l -> in_step l <-> exists r n, Forall (at_depth r n) l.
Proof.
  intros Hwf. split.
  - intros [[lo hi] Hl]. exists hi, (Z.to_nat (hi - lo)). rewrite !Forall_forall in *. intros i Hi.
    specialize (Hwf i Hi). specialize (Hl i Hi). simpl in Hl. rewrite range_shape in Hl by done.
    injection Hl as <- <-. split_and!; [done | done | lia].
  - intros (r & n & Hl). exists (r - Z.of_nat n, r). eapply Forall_impl; [exact Hl|].
    intros i (Hw & Hr & Hn). by rewrite range_shape, Hr, Hn.
Qed.

Lemma in_step_intro r n l : Forall (at_depth r n) l -> Forall wf l /\ in_step l.
Proof.
  intros Hl. assert (Hw : Forall wf l) by (eapply Forall_impl; [exact Hl|]; by intros i [? _]).
  split; [done|]. apply in_step_depth; [done|]. by exists r, n.
Qed.

Lemma at_depth_start r n i : at_depth r n i -> at_depth (r + 1) (S n) (start_undo_session i).
Proof. intros (Hw & <- & <-). split_and!; [by apply start_refines | done | done]. Qed.

Lemma at_depth_undo r n i : at_depth r n i ->
  exists i', undo i = Ok i' /\ at_depth (if Nat.eqb n 0 then r else r - 1) (pred n) i'.
Proof.
  intros (Hw & <- & <-). destruct (undo_refines i Hw) as (i' & Hu & Hw' & _). exists i'. split; [done|]. split; [done|].
  destruct (_stack i) as [|u s] eqn:Es.
  - unfold undo in Hu. rewrite Es in Hu. apply (proj1 (Ok_inj _ _)) in Hu as <-. by rewrite Es.
  - rewrite (undo_ok i u s Hw Es) in Hu. apply (proj1 (Ok_inj _ _)) in Hu as <-. done.
Qed.

Lemma at_depth_squash r n i : at_depth r n i ->
  at_depth (if Nat.eqb n 0 then r else r - 1) (pred n) (squash i).
Proof.
  intros (Hw & <- & <-). split; [by apply squash_refines|]. unfold squash.
  by destruct (_stack i) as [|u [|v s]] eqn:Es; rewrite ?Es.
Qed.

Lemma keep_length R n r' s r : wf_stack R n r' s ->
  Z.of_nat (length (keep r s)) = Z.max 0 (Z.min (Z.of_nat (length s)) (r' - r)).
Proof.
  revert R n r'. induction s as [|u s IH]; intros R n r' Hw; [simpl; lia|].
  pose proof (wf_revisions _ _ _ _ Hw) as Hle. destruct Hw as (_ & _ & _ & Hr & Hw).
  destruct (decide (r < u_revision u)) as [Hd|Hd].
  - unfold keep. rewrite filter_cons, decide_True by done. cbn [length]. rewrite !Nat2Z.inj_succ.
    fold (keep r s). rewrite (IH _ _ _ Hw). lia.
  - rewrite keep_none; [simpl length; lia|]. eapply Forall_impl; [exact Hle|]. simpl. lia.
Qed.

Lemma at_depth_commit c r n i : at_depth r n i ->
  at_depth r (Z.to_nat (Z.max 0 (Z.min (Z.of_nat n) (r - c)))) (commit c i).
Proof.
  intros (Hw & <- & <-). split_and!; [by apply commit_refines | done|]. unfold commit. cbn [_stack].
  rewrite (commit_keep _ _ _ _ c Hw), <- (keep_length _ _ _ _ c Hw). lia.
Qed.

(** Undoing everything needs as many steps as there are undo states. *)
Lemma at_depth_undo_all r n i : at_depth r n i ->
  exists i', undo_all i = Ok i' /\ at_depth (r - Z.of_nat n) 0 i'.
Proof.
  intros Hi. assert (Hn : length (_stack i) = n) by apply Hi. unfold undo_all. rewrite Hn.
  revert r i Hi Hn. induction n as [|n IH]; intros r i Hi Hn.
  - exists i. cbn. unfold enabled. rewrite Hn. cbn. split; [done|]. by rewrite Z.sub_0_r.
  - cbn [undo_all_loop]. unfold enabled. rewrite Hn. cbn [Nat.eqb negb].
    destruct (at_depth_undo _ _ _ Hi) as (j & -> & Hj). cbn [mbind result_bind Nat.eqb pred] in *.
    destruct (IH (r - 1) j Hj) as (i' & -> & Hi'); [apply Hj|]. exists i'. split; [done|].
    by replace (r - Z.of_nat (S n)) with (r - 1 - Z.of_nat n) by lia.
Qed.

Lemma at_depth_catch_up k r n i : at_depth r n i -> at_depth (r + Z.of_nat k) (n + k) (catch_up k i).
Proof.
  revert r n i. induction k as [|k IH]; intros r n i Hi; cbn [catch_up].
  - by rewrite Z.add_0_r, Nat.add_0_r.
  - rewrite <- Nat.add_succ_comm. replace (r + Z.of_nat (S k)) with (r + 1 + Z.of_nat k) by lia.
    by apply IH, at_depth_start.
Qed.

Lemma each_ok (f : generic_index -> result generic_index) (P Q : generic_index -> Prop) l acc :
  (forall i, P i -> exists i', f i = Ok i' /\ Q i') -> Forall P l -> Forall Q acc ->
  exists l', mfold (fun acc i => i ← f i; Ok (acc ++ [i])) l acc = Ok l' /\ Forall Q l'.
Proof.
  intros Hf Hl. revert acc. induction Hl as [|i l Hi Hl IH]; intros acc Hacc; [by exists acc|].
  destruct (Hf i Hi) as (i' & Hi' & HQ). cbn [mfold]. rewrite Hi'. cbn [mbind result_bind].
  apply IH. apply Forall_app_2; [done | by constructor].
Qed.

Lemma index_empty_depth : at_depth 0 0 index_empty.
Proof. split; [|done]. split; [by intros i j v w _ Hi|]. by intros id [v Hv]. Qed.

(** Adding a table that is new brings it to the revisions of the others. *)
Lemma add_index_new r n first l : Forall (at_depth r n) (first :: l) -> 0 <= r - Z.of_nat n -> r <= INT64_MAX ->
  exists l', add_index None (first :: l) = Ok l' /\ Forall (at_depth r n) l'.
Proof.
  intros Hl H0 Hmax. assert (Hf : at_depth r n first) by (by apply Forall_cons in Hl as [? _]).
  unfold add_index. cbn [default]. rewrite (range_shape first) by apply Hf. destruct Hf as (_ & -> & ->).
  rewrite (range_shape index_empty) by apply index_empty_depth. case_bool_decide as Heq.
  - eexists. split; [done|]. apply Forall_app_2; [done|]. constructor; [|done]. cbn in Heq. injection Heq as Hlo Hr.
    assert (n = 0%nat) as -> by lia. subst r. apply index_empty_depth.
  - cbn [fst snd]. rewrite bool_decide_eq_true_2 by done. rewrite u64_small by (unfold is_u64, INT64_MAX in *; lia).
    unfold set_revision. cbn [_stack length Nat.eqb check index_empty mbind result_bind].
    replace (r - Z.of_nat n <=? INT64_MAX) with true by lia. cbn [check mbind result_bind _revision].
    eexists. split; [done|]. apply Forall_app_2; [done|]. constructor; [|done].
    replace (Z.to_nat (r - (r - Z.of_nat n))) with n by lia.
    replace r with (r - Z.of_nat n + Z.of_nat n) at 1 by lia.
    apply (at_depth_catch_up n _ 0). split_and!; [apply index_empty_depth | done | done].
Qed.

(** The tables of a database move in step: every database operation succeeds
    and leaves all tables well formed, with undo states for one and the same
    range of revisions, a table added to a running database included; only
    adding a table found in the file with another range is refused. *)
Theorem database_in_step (o : db_op) (l : list generic_index) : Forall wf l -> in_step l ->
  (forall i, l !! 0%nat = Some i -> 0 <= (undo_stack_revision_range i).1 /\ _revision i <= INT64_MAX) ->
  (forall j, o = DbAdd (Some j) -> wf j) ->
  match db_exec o l with
  | Ok l' => Forall wf l' /\ in_step l'
  | Err _ => exists j i, o = DbAdd (Some j) /\ l !! 0%nat = Some i /\
               undo_stack_revision_range j <> undo_stack_revision_range i
  end.
Proof.
  intros Hwf Hstep Hfirst Hfound. pose proof Hstep as (r & n & Hl)%in_step_depth; [|done].
  destruct o as [| | |c| |found]; cbn [db_exec].
  - apply (in_step_intro (r + 1) (S n)). apply Forall_fmap. eapply Forall_impl; [exact Hl | apply at_depth_start].
  - destruct (each_ok undo _ _ l [] (at_depth_undo r n) Hl) as (l' & Hu & Hl'); [done|].
    unfold db_undo. rewrite Hu. by eapply in_step_intro.
  - eapply in_step_intro, Forall_fmap, Forall_impl; [exact Hl | apply at_depth_squash].
  - eapply in_step_intro, Forall_fmap, Forall_impl; [exact Hl | apply at_depth_commit].
  - destruct (each_ok undo_all _ _ l [] (at_depth_undo_all r n) Hl) as (l' & Hu & Hl'); [done|].
    unfold db_undo_all. rewrite Hu. by eapply in_step_intro.
  - destruct l as [|first l].
    { assert (Hw : wf (default index_empty found)).
      { destruct found as [j|]; [by apply Hfound | apply index_empty_depth]. }
      set (i := default index_empty found) in *.
      apply (in_step_intro (_revision i) (length (_stack i)) [i]). constructor; [|done]. by split_and!. }
    destruct found as [j|].
    + unfold add_index. cbn [default]. case_bool_decide as Heq; cbn [mbind result_bind].
      * destruct Hstep as [x Hx]. split.
        -- apply Forall_app_2; [done|]. constructor; [by apply Hfound | done].
        -- exists x. apply Forall_app_2; [done|]. constructor; [|done]. rewrite Heq. by apply Forall_cons in Hx as [-> _].
      * rewrite bool_decide_eq_false_2 by done. cbn. by exists j, first.
    + destruct (Hfirst first eq_refl) as [Hlo Hhi].
      rewrite range_shape in Hlo by (by apply Forall_cons in Hwf as [? _]).
      pose proof Hl as [(_ & Hr & Hn) _]%Forall_cons. cbn [fst] in Hlo.
      destruct (add_index_new r n first l Hl) as (l' & -> & Hl'); [lia | lia|]. by eapply in_step_intro.
Qed.
End Runs.

(** ** Concrete runs *)

(** Rows with a unique name and a value. *)
#[local] Instance named_rows : UniqueKeys (Z * Z) := {| ukey := Z; ukeys := fun v => [v.1] |}.

Definition set_value (x : Z) (v : Z * Z) : Z * Z := (v.1, x).

(** One row; inside a session it is changed and removed, a row with the same
    name is created, and an inner session that changes that one is squashed. *)
Definition one_row : generic_index (V := Z * Z) := mk_index {[ 0 := (7, 10) ]} 1 [] 5.
Definition busy_session : list (op (V := Z * Z)) :=
  [Modify 0 (set_value 11); Remove 0; Emplace (fun _ => (7, 20)); Start; Modify 1 (set_value 21); Squash].

Lemma one_row_wf : wf one_row.
Proof.
  split.
  - intros i j v w Hij Hi Hj. cbn [one_row _indices] in Hi, Hj.
    apply lookup_singleton_Some in Hi as [<- _], Hj as [<- _]. done.
  - intros id [v Hv]. cbn [one_row _indices] in Hv. by apply lookup_singleton_Some in Hv as [<- _].
Qed.

Lemma busy_session_ok : Forall op_ok busy_session.
Proof. repeat constructor. Qed.

Lemma chainbase_refines_witness :
  match run (Start :: busy_session ++ [Undo]) one_row with
  | Ok i' => wf i' /\ mfold (fun s o => spec_exec o s) (Start :: busy_session ++ [Undo]) (abs one_row) = Ok (abs i')
  | Err e => mfold (fun s o => spec_exec o s) (Start :: busy_session ++ [Undo]) (abs one_row) = Err e
  end.
Proof.
  apply (chainbase_refines (Start :: busy_session ++ [Undo]) one_row one_row_wf). repeat constructor.
Defined.

Lemma session_atomic_witness :
  undo (from_ok one_row (run busy_session (start_undo_session one_row))) = Ok one_row.
Proof.
  apply (session_atomic busy_session); [apply one_row_wf | apply busy_session_ok | reflexivity | apply from_ok_eq; reflexivity].
Defined.

Lemma database_in_step_witness :
  match db_exec (DbAdd None) [start_undo_session one_row] with
  | Ok l' => Forall wf l' /\ in_step l'
  | Err _ => exists j i : generic_index (V := Z * Z), DbAdd None = DbAdd (Some j) /\ [start_undo_session one_row] !! 0%nat = Some i /\
               undo_stack_revision_range j <> undo_stack_revision_range i
  end.
Proof.
  apply (database_in_step (DbAdd None) [start_undo_session one_row]).
  - constructor; [apply start_refines, one_row_wf | done].
  - exists (5, 6). by constructor.
  - intros i Hi. injection Hi as <-. done.
  - done.
Defined.

(** Without the assumption on modifiers a session can abort on undo: two rows
    swap their names through a third one, and restoring the first old value
    meets the name the second row still has. *)
Definition two_rows : generic_index (V := Z * Z) := mk_index {[ 0 := (7, 0); 1 := (8, 0) ]} 2 [] 0.
Definition set_name (x : Z) (v : Z * Z) : Z * Z := (x, v.2).

Example swapped_names_abort :
  undo (from_ok two_rows (run [Start; Modify 0 (set_name 9); Modify 1 (set_name 7); Modify 0 (set_name 8)] two_rows))
  = Err "abort: uniqueness violation".
Proof. reflexivity. Qed.

(** Moving a session object loses its revision: the session of the database
    reports revision 0 while its tables are at revision 6. *)
Example moved_session_revision :
  s_revision (open_session true one_row).1 = 6 /\ ds_revision (db_open_session true [one_row]).1 = 0 /\
  db_revision (db_open_session true [one_row]).2 = 6.
Proof. done. Qed.
