(* ===== verification/ForkDatabase.v ===== *)
(** * The fork database ([fork_database.hpp], [fork_database.cpp],
    [block_state.hpp])

    The blocks above the last irreversible one, which form a tree, the root
    they hang from and the head, the best block that was validated.  Block
    states are shared objects of which only the flag [validated] changes; the
    index holds them by id, and the head is the id of one of them or of the
    root, so that every reader sees the same flag. *)

From stdpp Require Import base numbers list gmap strings sorting.
From Stdlib Require Import ZArith Lia.
From S2P Require Import Prelude Boost Merkle BlockHeader BlockHeaderState.
Local Open Scope Z_scope.

(** Lexicographic comparison, as [std::tie] and composite keys compare. *)
Fixpoint lex_leb (k l : list Z) : bool :=
  match k, l with
  | [], _ => true
  | _, [] => false
  | x :: k, y :: l => (x <? y) || ((x =? y) && lex_leb k l)
  end.

Section ForkDatabase.
Context {key sig receipt : Type} `{EqDecision key} `{crypto : HeaderCrypto key sig}.
#[local] Abbreviation bhs := (block_header_state key sig).
#[local] Abbreviation validator := (Z -> gset digest -> list digest -> result unit).

Record signed_block := mk_block {
  sb_signed : signed_block_header key sig; transactions : list receipt; block_extensions : list (Z * chars) }.

(** [block_state]; the root that [reset] makes has no block. *)
Record block_state := mk_bs { bs : bhs; bs_block : option signed_block; validated : bool }.

Definition bs_id (b : block_state) : digest := b_id (bs b).
Definition bs_num (b : block_state) : Z := block_num (b_common (bs b)).
Definition bs_lib (b : block_state) : Z := dpos_irreversible_blocknum (b_common (bs b)).
Definition bs_previous (b : block_state) : digest := h_previous (sb_header (b_header (bs b))).

(** The first constructor of [block_state]. *)
Definition new_block_state (prev : bhs) (b : signed_block) (v : validator) (skip_validate_signee : bool)
    : result block_state :=
  s ← next_header prev (sb_signed b) v skip_validate_signee;
  Ok (mk_bs s (Some b) false).

Record fork_database := mk_fork {
  index : gmap digest block_state; root : option block_state; head : option digest }.

Definition fork_empty : fork_database := mk_fork ∅ None None.

(** The key of [by_lib_block_num]: [std::greater] on the first three
    components, [sha256_less] on the id. *)
Definition by_lib_key (b : block_state) : list Z :=
  [if validated b then 0 else 1; - bs_lib b; - bs_num b;
   hash0 (bs_id b); hash1 (bs_id b); hash2 (bs_id b); hash3 (bs_id b)].
Definition lib_before (a b : block_state) : Prop := lex_leb (by_lib_key a) (by_lib_key b) = true.
#[global] Instance lib_before_dec : RelDecision lib_before.
Proof. intros a b. unfold lib_before. apply _. Defined.
Definition by_lib_block_num (idx : gmap digest block_state) : list block_state :=
  merge_sort lib_before (map_to_list idx).*2.

(** [std::tie(lib, num) > std::tie(lib, num)] *)
Definition first_preferred (lhs rhs : block_state) : bool :=
  (bs_lib lhs >? bs_lib rhs) || ((bs_lib lhs =? bs_lib rhs) && (bs_num lhs >? bs_num rhs)).

Definition get_block (db : fork_database) (id : digest) : option block_state := index db !! id.

(** Following the pointers [my->root] and [my->head]. *)
Definition the_root (db : fork_database) : result block_state := of_option (root db) "root is null".
Definition head_state (db : fork_database) : result block_state :=
  id ← of_option (head db) "head is null";
  r ← the_root db;
  if bool_decide (bs_id r = id) then Ok r else of_option (get_block db id) "head is null".

Definition get_block_header (db : fork_database) (id : digest) : result (option block_state) :=
  r ← the_root db;
  Ok (if bool_decide (bs_id r = id) then Some r else get_block db id).

Definition reset (root_bhs : bhs) : fork_database :=
  mk_fork ∅ (Some (mk_bs root_bhs None true)) (Some (b_id root_bhs)).

(** ** Adding *)

Definition fork_add (n : block_state) (ignore_duplicate validate : bool) (v : validator)
    (db : fork_database) : result fork_database :=
  of_option (root db) "root not yet set" ;;
  o ← get_block_header db (bs_previous n);
  prev_bh ← of_option o "unlinkable block";
  (if validate then
     match header_exts (bs n) with
     | new_protocol_features :: _ =>
       match v (h_timestamp (sb_header (b_header (bs n)))) (activated_protocol_features (bs prev_bh))
               new_protocol_features with
       | Ok _ => Ok tt
       | Err _ => Err "serialized fork database is incompatible with configured protocol features"
       end
     | [] => Ok tt
     end
   else Ok tt) ;;
  match index db !! bs_id n with
  | Some _ => if ignore_duplicate then Ok db else Err "duplicate block added"
  | None =>
    let idx := <[bs_id n := n]> (index db) in
    Ok (mk_fork idx (root db)
          (match by_lib_block_num idx with
           | candidate :: _ => if validated candidate then Some (bs_id candidate) else head db
           | [] => head db
           end))
  end.

Definition add (n : block_state) (ignore_duplicate : bool) (db : fork_database) : result fork_database :=
  fork_add n ignore_duplicate false (fun _ _ _ => Ok tt) db.

(** [create_block_state_future] of the controller: the state of a received
    block, built on the state of its predecessor; and adding it. *)
Definition create_block_state (v : validator) (b : signed_block) (db : fork_database) : result block_state :=
  check (match get_block db (id_of (sb_header (sb_signed b))) with Some _ => false | None => true end) "we already know about this block" ;;
  o ← get_block_header db (h_previous (sb_header (sb_signed b)));
  prev ← of_option o "unlinkable block";
  new_block_state (bs prev) b v false.

(** ** Validity *)

Definition with_validated (x : bool) (b : block_state) : block_state := mk_bs (bs b) (bs_block b) x.

Definition rollback_head_to_root (db : fork_database) : fork_database :=
  mk_fork (with_validated false <$> index db) (root db) (bs_id <$> root db).

Definition mark_valid (h : block_state) (db : fork_database) : result fork_database :=
  if validated h then Ok db
  else
    b ← of_option (index db !! bs_id h) "block state not in fork database; cannot mark as valid";
    let db := mk_fork (<[bs_id h := with_validated true b]> (index db)) (root db) (head db) in
    hd ← head_state db;
    Ok (match by_lib_block_num (index db) with
        | candidate :: _ =>
          if first_preferred candidate hd then mk_fork (index db) (root db) (Some (bs_id candidate)) else db
        | [] => db
        end).

Definition pending_head (db : fork_database) : result block_state :=
  hd ← head_state db;
  Ok (match filter (fun b => validated b = false) (by_lib_block_num (index db)) with
      | b :: _ => if first_preferred b hd then b else hd
      | [] => hd
      end).

(** ** Removing *)

(** The range of [by_prev] with the given key. *)
Definition children (idx : gmap digest block_state) (id : digest) : list digest :=
  (fun x : digest * block_state => bs_id x.2) <$>
    filter (fun x : digest * block_state => bs_previous x.2 = id) (map_to_list idx).

(** The queue of [remove]: what was visited, and what is still to visit. *)
Fixpoint remove_loop (fuel : nat) (idx : gmap digest block_state) (head_id : digest)
    (visited queue : list digest) : result (list digest) :=
  match queue with
  | [] => Ok visited
  | x :: queue =>
    match fuel with
    | O => Err "out of fuel"
    | S fuel =>
      check (negb (bool_decide (x = head_id)))
        "removing the block and its descendants would remove the current head block" ;;
      remove_loop fuel idx head_id (visited ++ [x]) (queue ++ children idx x)
    end
  end.

Definition remove (id : digest) (db : fork_database) : result fork_database :=
  head_id ← of_option (head db) "head is null";
  remove_queue ← remove_loop (S (size (index db))) (index db) head_id [] [id];
  Ok (mk_fork (foldl (fun idx block_id => delete block_id idx) (index db) remove_queue) (root db) (head db)).

(** ** Moving the root *)

(** [blocks_to_remove]: the ids of the proper ancestors down to the root. *)
Fixpoint ancestors_loop (fuel : nat) (idx : gmap digest block_state) (root_id : digest) (b : block_state)
    : result (list digest) :=
  match fuel with
  | O => Err "out of fuel"
  | S fuel =>
    match idx !! bs_previous b with
    | Some b' => rest ← ancestors_loop fuel idx root_id b'; Ok (bs_previous b :: rest)
    | None =>
      check (bool_decide (bs_previous b = root_id))
        "invariant violation: orphaned branch was present in forked database" ;;
      Ok [bs_previous b]
    end
  end.

(** The code takes the new root out of the index before it removes the other
    branches; if a removal throws, which needs a head that is not on the branch
    of the new root, that change stays in the code, while [Err] has none. *)
Definition advance_root (id : digest) (db : fork_database) : result fork_database :=
  r ← of_option (root db) "root not yet set";
  new_root ← of_option (get_block db id)
    "cannot advance root to a block that does not exist in the fork database";
  check (validated new_root) "cannot advance root to a block that has not yet been validated" ;;
  blocks_to_remove ← ancestors_loop (S (size (index db))) (index db) (bs_id r) new_root;
  db ← mfold (fun db block_id => remove block_id db) blocks_to_remove
         (mk_fork (delete id (index db)) (root db) (head db));
  Ok (mk_fork (index db) (Some new_root) (head db)).

(** ** Branches *)

Fixpoint branch_loop (fuel : nat) (idx : gmap digest block_state) (h : digest) : result (list block_state) :=
  match idx !! h with
  | None => Ok []
  | Some s =>
    match fuel with
    | O => Err "out of fuel"
    | S fuel => rest ← branch_loop fuel idx (bs_previous s); Ok (s :: rest)
    end
  end.

Definition fetch_branch (db : fork_database) (h : digest) (trim_after_block_num : Z) : result (list block_state) :=
  l ← branch_loop (size (index db)) (index db) h;
  Ok (filter (fun s => bs_num s <= trim_after_block_num) l).

Fixpoint search_loop (fuel : nat) (idx : gmap digest block_state) (h : digest) (num : Z)
    : result (option block_state) :=
  match idx !! h with
  | None => Ok None
  | Some s =>
    if bs_num s =? num then Ok (Some s)
    else match fuel with O => Err "out of fuel" | S fuel => search_loop fuel idx (bs_previous s) num end
  end.
Definition search_on_branch (db : fork_database) (h : digest) (num : Z) : result (option block_state) :=
  search_loop (size (index db)) (index db) h num.

Definition block_or_root (db : fork_database) (r : block_state) (id : digest) : result block_state :=
  of_option (if bool_decide (id = bs_id r) then Some r else get_block db id) "block does not exist".

(** The first two loops of [fetch_branch_from]: down to the number [num]. *)
Fixpoint lower_loop (fuel : nat) (db : fork_database) (r : block_state) (num : Z) (b : block_state)
    (acc : list block_state) : result (list block_state * block_state) :=
  if bs_num b >? num then
    match fuel with
    | O => Err "out of fuel"
    | S fuel => prev ← block_or_root db r (bs_previous b); lower_loop fuel db r num prev (acc ++ [b])
    end
  else Ok (acc, b).

(** The third loop: both branches go down together. *)
Fixpoint both_loop (fuel : nat) (db : fork_database) (a b : block_state) (accs : list block_state * list block_state)
    : result (list block_state * list block_state) :=
  if negb (bool_decide (bs_previous a = bs_previous b)) then
    match fuel with
    | O => Err "out of fuel"
    | S fuel =>
      a' ← of_option (get_block db (bs_previous a)) "block does not exist";
      b' ← of_option (get_block db (bs_previous b)) "block does not exist";
      both_loop fuel db a' b' (accs.1 ++ [a], accs.2 ++ [b])
    end
  else Ok (accs.1 ++ [a], accs.2 ++ [b]).

Definition fetch_branch_from (db : fork_database) (first second : digest)
    : result (list block_state * list block_state) :=
  r ← the_root db;
  let fuel := S (size (index db)) in
  first_branch ← block_or_root db r first;
  second_branch ← block_or_root db r second;
  '(l1, first_branch) ← lower_loop fuel db r (bs_num second_branch) first_branch [];
  '(l2, second_branch) ← lower_loop fuel db r (bs_num first_branch) second_branch [];
  if bool_decide (bs_id first_branch = bs_id second_branch) then Ok (l1, l2)
  else both_loop fuel db first_branch second_branch (l1, l2).

(** ** Saving and restoring *)

Definition magic_number : Z := 0x30510FDB.
Definition min_supported_version : Z := 1.
Definition max_supported_version : Z := 1.

(** The file, before it is serialised; [header_exts] is not part of what is
    written of a header state. *)
Record fork_file := mk_file {
  f_totem : Z; f_version : Z; f_root : bhs; f_blocks : list block_state; f_head : option digest }.

Definition with_exts (b : bhs) (exts : list (list digest)) : bhs :=
  mk_bhs (b_common b) (b_id b) (b_header b) (pending_schedule b) (activated_protocol_features b) exts.
Definition packed (b : block_state) : block_state := mk_bs (with_exts (bs b) []) (bs_block b) (validated b).

(** The loop of [close]: from the worst to the best block, validated and
    unvalidated ones merged. *)
Fixpoint write_order (vs : list block_state) : list block_state -> list block_state :=
  fix go us :=
    match vs, us with
    | [], us => us
    | vs, [] => vs
    | v :: vs', u :: us' => if first_preferred v u then u :: go us' else v :: write_order vs' us
    end.

Definition close (db : fork_database) : option fork_file :=
  match root db with
  | None => None
  | Some r =>
    let indx := by_lib_block_num (index db) in
    Some (mk_file magic_number max_supported_version (bs (packed r))
            (packed <$> write_order (reverse (filter (fun b => validated b = true) indx))
                          (reverse (filter (fun b => validated b = false) indx)))
            (head db))
  end.

(** [open] without a file leaves the database as it is. *)
Definition open (v : validator) (file : option fork_file) (db : fork_database) : result fork_database :=
  match file with
  | None => Ok db
  | Some f =>
    check (f_totem f =? magic_number) "unexpected magic number" ;;
    check ((min_supported_version <=? f_version f) && (f_version f <=? max_supported_version))
      "Unsupported version of fork database file" ;;
    db ← mfold (fun db s =>
           blk ← of_option (bs_block s) "block is null";
           exts ← validate_and_extract_header_extensions (sb_header (sb_signed blk));
           fork_add (mk_bs (with_exts (bs s) exts) (bs_block s) (validated s)) false true v db)
         (f_blocks f) (reset (f_root f));
    head_id ← of_option (f_head f) "unexpected end of file";
    r ← the_root db;
    (if bool_decide (bs_id r = head_id) then Ok tt
     else of_option (get_block db head_id) "could not find head while reconstructing fork database" ;; Ok tt) ;;
    let db := mk_fork (index db) (root db) (Some head_id) in
    hd ← head_state db;
    (match by_lib_block_num (index db) with
     | candidate :: _ =>
       if validated candidate then
         check (negb (first_preferred candidate hd)) "head not set to best available option available"
       else check (bool_decide (bs_id hd = bs_id r)) "head not set to root despite no better option available"
     | [] => check (bool_decide (bs_id hd = bs_id r)) "head not set to root despite no better option available"
     end) ;;
    Ok db
  end.
End ForkDatabase.
Arguments fork_database : clear implicits.
Arguments block_state : clear implicits.
Arguments signed_block : clear implicits.
