(* ===== verification/ForkDatabaseSpec.v ===== *)
(** * The fork database is a tree with its best validated block as head

    The invariant of the fork database and that every operation keeps it;
    removal takes away exactly a subtree, moving the root keeps exactly the
    descendants of the new one. *)

From stdpp Require Import base numbers list gmap strings sorting.
From Stdlib Require Import ZArith Lia.
From S2P Require Import Prelude Boost Merkle BlockHeader BlockHeaderState ForkDatabase.
Local Open Scope Z_scope.

(** ** The order of the index *)

Lemma lex_refl k : lex_leb k k = true.
Proof. induction k as [|x k IH]; [done|]. simpl. rewrite Z.eqb_refl, IH. by rewrite orb_true_r. Qed.

Lemma lex_total k l : lex_leb k l = true \/ lex_leb l k = true.
Proof.
  revert l. induction k as [|x k IH]; intros [|y l]; simpl; auto.
  destruct (Z.lt_trichotomy x y) as [?|[->|?]]; [left; lia | | right; lia].
  rewrite Z.eqb_refl, Z.ltb_irrefl. simpl. apply IH.
Qed.

Lemma lex_trans k l m : lex_leb k l = true -> lex_leb l m = true -> lex_leb k m = true.
Proof.
  revert l m. induction k as [|x k IH]; intros [|y l] [|z m]; simpl; try done.
  rewrite !orb_true_iff, !andb_true_iff, !Z.ltb_lt, !Z.eqb_eq.
  intros [?|[-> Hkl]] [?|[-> Hlm]]; [left; lia | by left | by left |]. right. split; [done|]. by eapply IH.
Qed.

Section ForkSpec.
Context {key sig receipt : Type} `{EqDecision key} `{crypto : HeaderCrypto key sig}.
#[local] Abbreviation bhs := (block_header_state key sig).
#[local] Abbreviation block_state := (block_state key sig receipt).
#[local] Abbreviation fork_database := (fork_database key sig receipt).
#[local] Abbreviation table := (gmap digest block_state).
Implicit Types (b : block_state) (idx : table) (db : fork_database).

#[local] Instance lib_before_total : Total (lib_before (key:=key) (sig:=sig) (receipt:=receipt)).
Proof. intros a b. apply lex_total. Qed.
#[local] Instance lib_before_trans : Transitive (lib_before (key:=key) (sig:=sig) (receipt:=receipt)).
Proof. intros a b c. apply lex_trans. Qed.

Lemma by_lib_elem idx b : b ∈ by_lib_block_num idx <-> exists k, idx !! k = Some b.
Proof.
  unfold by_lib_block_num. rewrite merge_sort_Permutation, list_elem_of_fmap. split.
  - intros ([k x] & -> & Hk). exists k. by apply elem_of_map_to_list.
  - intros [k Hk]. exists (k, b). split; [done|]. by apply elem_of_map_to_list.
Qed.

Lemma by_lib_sorted idx : StronglySorted lib_before (by_lib_block_num idx).
Proof. apply StronglySorted_merge_sort; apply _. Qed.

Lemma by_lib_first idx c l : by_lib_block_num idx = c :: l ->
  (exists k, idx !! k = Some c) /\ forall k b, idx !! k = Some b -> lib_before c b.
Proof.
  intros Hl. split; [apply by_lib_elem; rewrite Hl; by left|]. intros k b Hb.
  assert (Hin : b ∈ by_lib_block_num idx) by (apply by_lib_elem; by exists k).
  rewrite Hl in Hin. apply elem_of_cons in Hin as [->|Hin]; [apply lex_refl|].
  pose proof (by_lib_sorted idx) as Hs. rewrite Hl in Hs. apply StronglySorted_inv in Hs as [_ Hs].
  by eapply Forall_forall in Hs.
Qed.

Lemma by_lib_nil idx : by_lib_block_num idx = [] -> idx = ∅.
Proof.
  intros Hl. apply map_empty. intros k. destruct (idx !! k) as [b|] eqn:Eb; [|done].
  assert (Hin : b ∈ by_lib_block_num idx) by (apply by_lib_elem; by exists k). rewrite Hl in Hin. by apply elem_of_nil in Hin.
Qed.

(** What comes first is validated if anything is, and not worse than any block
    with the same flag. *)
Lemma lib_before_valid a b : lib_before a b -> validated b = true -> validated a = true.
Proof. unfold lib_before. simpl. by destruct (validated a), (validated b). Qed.

Lemma lib_before_best a b : lib_before a b -> validated a = validated b -> first_preferred b a = false.
Proof.
  unfold lib_before, first_preferred. cbn [lex_leb by_lib_key]. intros Hab Hv.
  rewrite Hv, Z.ltb_irrefl, Z.eqb_refl in Hab. cbn [orb andb] in Hab.
  rewrite !orb_true_iff, !andb_true_iff, !Z.ltb_lt, !Z.eqb_eq in Hab.
  apply orb_false_iff. rewrite andb_false_iff. lia.
Qed.

Lemma preferred_trans a b c : first_preferred a b = false -> first_preferred b c = false -> first_preferred a c = false.
Proof. unfold first_preferred. rewrite !orb_false_iff, !andb_false_iff. lia. Qed.

(** ** Subtrees *)

(** Ids and numbers agree, and a block is one above its predecessor. *)
Definition numbered (idx : table) : Prop := forall k b, idx !! k = Some b ->
  bs_id b = k /\ num_from_id k = bs_num b /\ num_from_id (bs_previous b) + 1 = bs_num b.

(** [x] is [a] or is built on it by blocks of the index. *)
Inductive descends (idx : table) (a : digest) : digest -> Prop :=
| descends_refl : descends idx a a
| descends_step x b : idx !! x = Some b -> descends idx a (bs_previous b) -> descends idx a x.

Lemma descends_num idx a x : numbered idx -> descends idx a x -> num_from_id a <= num_from_id x.
Proof.
  intros Hn. induction 1 as [|x b Hx Hd IH]; [lia|]. destruct (Hn x b Hx) as (_ & -> & <-). lia.
Qed.

Lemma descends_trans idx a x y : descends idx a x -> descends idx x y -> descends idx a y.
Proof. intros Hax. induction 1 as [|y b Hy Hd IH]; [done|]. by eapply descends_step. Qed.

Lemma children_elem idx id x : numbered idx ->
  x ∈ children idx id <-> exists b, idx !! x = Some b /\ bs_previous b = id.
Proof.
  intros Hn. unfold children. rewrite list_elem_of_fmap. split.
  - intros ([k b] & -> & Hk). apply list_elem_of_filter in Hk as [Hp Hk]. apply elem_of_map_to_list in Hk.
    cbn [snd] in *. destruct (Hn k b Hk) as [-> _]. by exists b.
  - intros (b & Hb & Hp). exists (x, b). split; [cbn; by destruct (Hn x b Hb) as [-> _]|].
    apply list_elem_of_filter. split; [done|]. by apply elem_of_map_to_list.
Qed.

Lemma children_nodup idx id : numbered idx -> NoDup (children idx id).
Proof.
  intros Hn. unfold children. apply NoDup_fmap_2_strong.
  - intros [k b] [k' b'] Hk Hk' Heq. cbn [snd] in Heq.
    apply list_elem_of_filter in Hk as [_ Hk%elem_of_map_to_list], Hk' as [_ Hk'%elem_of_map_to_list].
    destruct (Hn k b Hk) as [Hid _], (Hn k' b' Hk') as [Hid' _].
    assert (k = k') as <- by congruence. congruence.
  - apply NoDup_filter, NoDup_map_to_list.
Qed.

(** The state of the queue while the subtree of [a] is walked. *)
Record walking (idx : table) (a : digest) (visited queue : list digest) : Prop := {
  walk_nodup : NoDup (visited ++ queue);
  walk_start : a ∈ visited ++ queue;
  walk_desc x : x ∈ visited ++ queue -> descends idx a x;
  walk_in x : x ∈ visited ++ queue -> x = a \/ exists b, idx !! x = Some b /\ bs_previous b ∈ visited;
  walk_children x b : idx !! x = Some b -> bs_previous b ∈ visited -> x ∈ visited ++ queue }.

Lemma walking_start idx a : walking idx a [] [a].
Proof.
  split; simpl.
  - apply NoDup_singleton.
  - by left.
  - intros x ->%list_elem_of_singleton. constructor.
  - intros x ->%list_elem_of_singleton. by left.
  - by intros x b _ ?%not_elem_of_nil.
Qed.

Lemma walking_step idx a visited x queue : numbered idx -> walking idx a visited (x :: queue) ->
  walking idx a (visited ++ [x]) (queue ++ children idx x).
Proof.
  intros Hn [Hnd Hst Hde Hin Hch].
  assert (Hshape : (visited ++ [x]) ++ queue ++ children idx x = (visited ++ x :: queue) ++ children idx x).
  { by rewrite <- !app_assoc. }
  assert (Hxv : x ∉ visited).
  { apply NoDup_app in Hnd as (_ & Hd & _). intros Hv. apply (Hd x Hv). by left. }
  assert (Hdx : descends idx a x) by (apply Hde, elem_of_app; right; by left).
  assert (Hfresh : forall y, y ∈ children idx x -> y ∉ visited ++ x :: queue).
  { intros y (b & Hb & Hp)%children_elem Hy; [|done]. destruct (Hin y Hy) as [->|(b' & Hb' & Hp')].
    - destruct (Hn a b Hb) as (_ & Ha & Hpa). rewrite Hp in Hpa. pose proof (descends_num _ _ _ Hn Hdx). lia.
    - rewrite Hb in Hb'. injection Hb' as <-. by rewrite Hp in Hp'. }
  split; rewrite ?Hshape.
  - apply NoDup_app. split_and!; [done | | by apply children_nodup]. intros y Hy Hc. by apply (Hfresh y Hc).
  - apply elem_of_app. by left.
  - intros y [Hy|Hy]%elem_of_app; [by apply Hde|]. apply children_elem in Hy as (b & Hb & Hp); [|done].
    eapply descends_step; [done|]. by rewrite Hp.
  - intros y [Hy|Hy]%elem_of_app.
    + destruct (Hin y Hy) as [->|(b & Hb & Hp)]; [by left|]. right. exists b. split; [done|]. apply elem_of_app. by left.
    + apply children_elem in Hy as (b & Hb & Hp); [|done]. right. exists b. split; [done|].
      apply elem_of_app. right. rewrite Hp. by left.
  - intros y b Hb [Hp|Hp%list_elem_of_singleton]%elem_of_app; apply elem_of_app.
    + left. by eapply Hch.
    + right. apply children_elem; [done|]. by exists b.
Qed.

(** There are at most [size idx + 1] ids to visit. *)
Lemma walking_length idx a visited queue : walking idx a visited queue ->
  (length (visited ++ queue) <= S (size idx))%nat.
Proof.
  intros [Hnd _ _ Hin _].
  assert (Hsub : visited ++ queue ⊆ a :: elements (dom idx)).
  { intros x Hx. destruct (Hin x Hx) as [->|(b & Hb & _)]; [by left|]. right.
    apply elem_of_elements, elem_of_dom. by exists b. }
  apply NoDup_submseteq in Hsub; [|done]. apply submseteq_length in Hsub. simpl in Hsub.
  by rewrite <- size_dom.
Qed.

Lemma walking_done idx a visited : walking idx a visited [] -> forall x, x ∈ visited <-> descends idx a x.
Proof.
  intros [_ Hst Hde _ Hch] x. rewrite !app_nil_r in *. split.
  - by apply Hde.
  - induction 1 as [|x b Hx Hd IH]; [done|]. by apply (Hch x b).
Qed.

Lemma remove_loop_ok fuel idx a head_id visited queue : numbered idx -> walking idx a visited queue ->
  (S (size idx) <= fuel + length visited)%nat -> head_id ∉ visited ->
  match remove_loop fuel idx head_id visited queue with
  | Ok l => (forall x, x ∈ l <-> descends idx a x) /\ ~ descends idx a head_id
  | Err e => e <> "out of fuel" /\ descends idx a head_id
  end.
Proof.
  intros Hn. revert visited queue. induction fuel as [|fuel IH]; intros visited [|x queue] Hw Hf Hh;
    cbn [remove_loop].
  - pose proof (walking_done _ _ _ Hw) as Hd. split; [done|]. by rewrite <- Hd.
  - pose proof (walking_length _ _ _ _ Hw) as Hl. rewrite length_app in Hl. simpl in Hl. lia.
  - pose proof (walking_done _ _ _ Hw) as Hd. split; [done|]. by rewrite <- Hd.
  - case_bool_decide as Hx; cbn [negb check mbind result_bind].
    + split; [done|]. subst. apply (walk_desc _ _ _ _ Hw), elem_of_app. right. by left.
    + apply IH; [by apply walking_step | rewrite length_app; simpl; lia|].
      intros [?|?%list_elem_of_singleton]%elem_of_app; [done | by subst].
Qed.

Lemma fold_delete_index (l : list digest) idx x :
  foldl (fun idx k => delete k idx) idx l !! x = if decide (x ∈ l) then None else idx !! x.
Proof.
  revert idx. induction l as [|k l IH]; intros idx; [done|]. simpl. rewrite IH.
  destruct (decide (x ∈ l)); [by rewrite decide_True by by right|].
  destruct (decide (k = x)) as [->|].
  - rewrite decide_True by by left. apply lookup_delete_eq.
  - rewrite decide_False by (rewrite elem_of_cons; by intros [?|?]). by apply lookup_delete_ne.
Qed.

(** [remove] takes away the subtree, and refuses when the head is in it. *)
Lemma remove_ok a db head_id : numbered (index db) -> head db = Some head_id ->
  match remove a db with
  | Ok db' => root db' = root db /\ head db' = head db /\ ~ descends (index db) a head_id /\
      forall x b, index db' !! x = Some b <-> index db !! x = Some b /\ ~ descends (index db) a x
  | Err e => descends (index db) a head_id
  end.
Proof.
  intros Hn Hh. unfold remove. rewrite Hh. cbn [of_option mbind result_bind].
  pose proof (remove_loop_ok (S (size (index db))) (index db) a head_id [] [a] Hn (walking_start _ _)) as Hl.
  destruct (remove_loop _ _ _ _ _) as [l|e]; cbn [mbind result_bind].
  - destruct Hl as [Hl Hd]; [simpl; lia | by apply not_elem_of_nil|]. cbn [root head index]. split_and!; try done.
    intros x b. rewrite fold_delete_index, <- Hl. case_decide; naive_solver.
  - apply Hl; [simpl; lia | by apply not_elem_of_nil].
Qed.

Lemma numbered_sub idx idx' : numbered idx -> (forall x b, idx' !! x = Some b -> idx !! x = Some b) -> numbered idx'.
Proof. intros Hn Hsub x b Hx. by apply Hn, Hsub. Qed.

Lemma descends_sub idx idx' a x : (forall x b, idx' !! x = Some b -> idx !! x = Some b) ->
  descends idx' a x -> descends idx a x.
Proof. intros Hsub. induction 1; [constructor|]. eapply descends_step; [by apply Hsub | done]. Qed.

(** What survives a removal keeps its ancestors. *)
Lemma descends_survives idx idx' a0 a x :
  (forall x b, idx' !! x = Some b <-> idx !! x = Some b /\ ~ descends idx a0 x) ->
  ~ descends idx a0 x -> descends idx a x -> descends idx' a x.
Proof.
  intros Hidx Hx Hd. induction Hd as [|x b Hb Hd IH]; [constructor|].
  eapply descends_step; [by apply Hidx|]. apply IH. intros Hp. apply Hx. by eapply descends_step.
Qed.

(** Removing several subtrees one after the other. *)
Lemma removes_ok (L : list digest) db hid : numbered (index db) -> head db = Some hid ->
  match mfold (fun db block_id => remove block_id db) L db with
  | Ok db' => root db' = root db /\ head db' = head db /\ (forall a, a ∈ L -> ~ descends (index db) a hid) /\
      forall x b, index db' !! x = Some b <->
        index db !! x = Some b /\ forall a, a ∈ L -> ~ descends (index db) a x
  | Err e => exists a, a ∈ L /\ descends (index db) a hid
  end.
Proof.
  revert db. induction L as [|a0 L IH]; intros db Hn Hh; cbn [mfold].
  { split_and!; try done; [by intros a ?%not_elem_of_nil|]. intros x b. split; [|by intros [? _]].
    intros Hx. split; [done|]. by intros a ?%not_elem_of_nil. }
  pose proof (remove_ok a0 db hid Hn Hh) as Hr. destruct (remove a0 db) as [db1|e]; cbn [mbind result_bind].
  2: { exists a0. split; [by left | done]. }
  destruct Hr as (Hroot & Hhead & Hnd & Hidx).
  assert (Hsub : forall x b, index db1 !! x = Some b -> index db !! x = Some b) by (intros x b Hx; by apply Hidx).
  specialize (IH db1 (numbered_sub _ _ Hn Hsub) (eq_trans Hhead Hh)).
  destruct (mfold _ L db1) as [db2|e].
  - destruct IH as (Hroot2 & Hhead2 & Hnd2 & Hidx2). split_and!; [congruence | congruence | |].
    + intros a [->|Ha]%elem_of_cons; [done|]. intros Hd. apply (Hnd2 a Ha). by eapply descends_survives.
    + intros x b. rewrite Hidx2, Hidx. split.
      * intros [[Hx H0] Hall]. split; [done|]. intros a [->|Ha]%elem_of_cons; [done|]. intros Hd.
        apply (Hall a Ha). by eapply descends_survives.
      * intros [Hx Hall]. split; [split; [done|]; apply Hall; by left|]. intros a Ha Hd.
        apply (Hall a); [by right|]. by eapply descends_sub.
  - destruct IH as (a & Ha & Hd). exists a. split; [by right|]. by eapply descends_sub.
Qed.

(** ** The invariant *)

(** The blocks of the index hang from the root. *)
Record tree (r : block_state) (idx : table) : Prop := {
  tree_numbered : numbered idx;
  tree_root_num : num_from_id (bs_id r) = bs_num r;
  tree_linked k b : idx !! k = Some b -> bs_previous b = bs_id r \/ is_Some (idx !! bs_previous b);
  tree_above k b : idx !! k = Some b -> bs_num r < bs_num b }.

(** The head is the root or a validated block, and no validated block is
    preferred to it. *)
Record best (r h : block_state) (idx : table) : Prop := {
  best_head : h = r \/ (idx !! bs_id h = Some h /\ validated h = true);
  best_all k b : idx !! k = Some b -> validated b = true -> first_preferred b h = false }.

Record inv (r h : block_state) (db : fork_database) : Prop := {
  inv_root : root db = Some r;
  inv_head : head db = Some (bs_id h);
  inv_tree : tree r (index db);
  inv_best : best r h (index db) }.

Lemma root_not_inside r idx : tree r idx -> idx !! bs_id r = None.
Proof.
  intros Ht. destruct (idx !! bs_id r) as [b|] eqn:Eb; [|done].
  destruct (tree_numbered _ _ Ht _ _ Eb) as (_ & Hn & _). pose proof (tree_above _ _ Ht _ _ Eb).
  pose proof (tree_root_num _ _ Ht). lia.
Qed.

Lemma tree_ind r idx (P : digest -> Prop) : tree r idx -> P (bs_id r) ->
  (forall x b, idx !! x = Some b -> P (bs_previous b) -> P x) -> forall x b, idx !! x = Some b -> P x.
Proof.
  intros Ht Hr Hstep x b Hx.
  remember (Z.to_nat (bs_num b - bs_num r)) as n eqn:En. revert x b Hx En.
  induction n as [n IH] using lt_wf_ind. intros x b Hx ->. apply (Hstep x b Hx).
  destruct (tree_linked _ _ Ht x b Hx) as [->|[b' Hb']]; [done|].
  eapply (IH (Z.to_nat (bs_num b' - bs_num r))); [|exact Hb'|done].
  destruct (tree_numbered _ _ Ht _ _ Hx) as (_ & _ & Hp). destruct (tree_numbered _ _ Ht _ _ Hb') as (_ & Hn & _).
  pose proof (tree_above _ _ Ht _ _ Hb'). lia.
Qed.

Lemma tree_descends r idx x b : tree r idx -> idx !! x = Some b -> descends idx (bs_id r) x.
Proof.
  intros Ht. revert x b. apply (tree_ind r idx _ Ht); [constructor|]. intros x b Hx Hd. by eapply descends_step.
Qed.

Lemma head_state_inv r h db : inv r h db -> head_state db = Ok h.
Proof.
  intros [Hr Hh Ht Hb]. unfold head_state, the_root, get_block. rewrite Hh, Hr. cbn [of_option mbind result_bind].
  destruct (best_head _ _ _ Hb) as [->|[Hi _]]; [by rewrite bool_decide_eq_true_2|].
  case_bool_decide as Heq; [|by rewrite Hi]. rewrite <- Heq, (root_not_inside _ _ Ht) in Hi. done.
Qed.

(** The number of blocks below a given one bounds every walk downwards. *)
Definition below (idx : table) (n : Z) : nat := size (filter (fun kv : digest * block_state => bs_num kv.2 < n) idx).

Lemma below_size idx n : (below idx n <= size idx)%nat.
Proof. apply map_subseteq_size, map_filter_subseteq. Qed.

Lemma below_step idx k b n : idx !! k = Some b -> bs_num b < n -> (below idx (bs_num b) < below idx n)%nat.
Proof.
  intros Hk Hlt. apply map_subset_size, map_subset_alt. split.
  - apply map_filter_subseteq_ext. intros i x _. simpl. lia.
  - exists k. split.
    + apply map_lookup_filter_None. right. intros x Hx. simplify_eq. simpl. lia.
    + exists b. by apply map_lookup_filter_Some.
Qed.

(** ** Moving the root *)

Lemma tree_previous r idx k b : tree r idx -> idx !! k = Some b -> num_from_id (bs_previous b) = bs_num b - 1.
Proof. intros Ht Hk. destruct (tree_numbered _ _ Ht _ _ Hk) as (_ & _ & ?). lia. Qed.

Lemma ancestors_ok fuel r idx k b : tree r idx -> idx !! k = Some b -> (below idx (bs_num b) < fuel)%nat ->
  exists L, ancestors_loop fuel idx (bs_id r) b = Ok L /\ bs_id r ∈ L /\
    forall a, a ∈ L -> num_from_id a < bs_num b.
Proof.
  intros Ht. revert k b. induction fuel as [|fuel IH]; intros k b Hk Hf; [lia|]. cbn [ancestors_loop].
  pose proof (tree_previous _ _ _ _ Ht Hk) as Hp. destruct (idx !! bs_previous b) as [b'|] eqn:Eb.
  - destruct (tree_numbered _ _ Ht _ _ Eb) as (_ & Hn & _).
    destruct (IH _ b' Eb) as (L & -> & Hr & Hlt).
    { pose proof (below_step idx _ b' (bs_num b) Eb). lia. }
    cbn [mbind result_bind]. eexists. split_and!; [done | by right|].
    intros a [->|Ha]%elem_of_cons; [lia|]. specialize (Hlt a Ha). lia.
  - destruct (tree_linked _ _ Ht k b Hk) as [Hr|[x Hx]]; [|congruence].
    rewrite bool_decide_eq_true_2 by done. cbn [check mbind result_bind]. eexists. split_and!; [done | |].
    + rewrite Hr. by left.
    + intros a ->%list_elem_of_singleton. lia.
Qed.

(** Once [id] is out of the index, its descendants are what does not hang from
    its proper ancestors. *)
Lemma descends_cut idx id a y : numbered idx -> descends idx id y -> descends (delete id idx) a y ->
  num_from_id id <= num_from_id a.
Proof.
  intros Hn Hid Hd. induction Hd as [|y b Hb Hd IH]; [by eapply descends_num|].
  apply lookup_delete_Some in Hb as [Hne Hb]. apply IH. inversion Hid as [|? b' Hb']; simplify_eq. done.
Qed.

Lemma descends_either idx id a y : descends idx a y -> descends idx id y \/ descends (delete id idx) a y.
Proof.
  induction 1 as [|y b Hb Hd IH]; [right; constructor|].
  destruct (decide (id = y)) as [<-|Hne]; [left; constructor|]. destruct IH as [IH|IH].
  - left. by eapply descends_step.
  - right. eapply descends_step; [|done]. by rewrite lookup_delete_ne.
Qed.

Lemma head_descends r h db : inv r h db -> descends (index db) (bs_id r) (bs_id h).
Proof.
  intros Hi. destruct (best_head _ _ _ (inv_best _ _ _ Hi)) as [->|[Hh _]]; [constructor|].
  eapply tree_descends; [apply (inv_tree _ _ _ Hi) | done].
Qed.

Lemma advance_root_ok r h db id nr : inv r h db -> index db !! id = Some nr -> validated nr = true ->
  match advance_root id db with
  | Ok db' => root db' = Some nr /\ head db' = head db /\ descends (index db) id (bs_id h) /\
      forall x b, index db' !! x = Some b <-> index db !! x = Some b /\ x <> id /\ descends (index db) id x
  | Err e => ~ descends (index db) id (bs_id h)
  end.
Proof.
  intros Hi Hid Hv. pose proof (inv_tree _ _ _ Hi) as Ht. pose proof (tree_numbered _ _ Ht) as Hn.
  destruct (Hn _ _ Hid) as (_ & Hnum & _).
  unfold advance_root, get_block. rewrite (inv_root _ _ _ Hi), Hid. cbn [of_option mbind result_bind].
  rewrite Hv. cbn [check mbind result_bind].
  destruct (ancestors_ok (S (size (index db))) r (index db) id nr) as (L & -> & HrL & HL); [done | done | |].
  { pose proof (below_size (index db) (bs_num nr)). lia. }
  cbn [mbind result_bind].
  assert (Hcut : forall y, descends (index db) (bs_id r) y ->
    (forall a, a ∈ L -> ~ descends (delete id (index db)) a y) <-> descends (index db) id y).
  { intros y Hy. split.
    - intros Hall. destruct (descends_either _ id _ _ Hy) as [?|Hd]; [done|]. by destruct (Hall _ HrL).
    - intros Hd a Ha Hda. pose proof (descends_cut _ _ _ _ Hn Hd Hda). specialize (HL a Ha). lia. }
  pose proof (removes_ok L (mk_fork (delete id (index db)) (Some r) (head db)) (bs_id h)) as Hrem.
  cbn [index head root] in Hrem.
  assert (Hn1 : numbered (delete id (index db))).
  { apply (numbered_sub _ _ Hn). by intros x b [_ Hx]%lookup_delete_Some. }
  specialize (Hrem Hn1 (inv_head _ _ _ Hi)). pose proof (head_descends _ _ _ Hi) as Hhd.
  destruct (mfold _ L _) as [db1|e]; cbn [mbind result_bind].
  - destruct Hrem as (_ & Hhead & Hnd & Hidx). cbn [root head index]. split_and!; [done | done | by apply Hcut|].
    intros x b. rewrite Hidx, lookup_delete_Some. split.
    + intros [[Hne Hx] Hall]. split_and!; [done | done |]. apply Hcut; [by eapply tree_descends | done].
    + intros (Hx & Hne & Hd). split; [done|]. apply Hcut; [by eapply tree_descends | done].
  - destruct Hrem as (a & Ha & Hd). intros Hdid. by apply (proj2 (Hcut _ Hhd) Hdid a Ha).
Qed.

Lemma advance_root_inv r h db id nr db' : inv r h db -> index db !! id = Some nr -> validated nr = true ->
  advance_root id db = Ok db' -> inv nr h db'.
Proof.
  intros Hi Hid Hv Hadv. pose proof (advance_root_ok r h db id nr Hi Hid Hv) as Ha. rewrite Hadv in Ha.
  destruct Ha as (Hroot & Hhead & Hdh & Hidx). pose proof (inv_tree _ _ _ Hi) as Ht.
  pose proof (tree_numbered _ _ Ht) as Hn. destruct (Hn _ _ Hid) as (Hnid & Hnum & _).
  split; [done | by rewrite Hhead; apply (inv_head _ _ _ Hi) | |].
  - split.
    + apply (numbered_sub _ _ Hn). intros x b Hx. by apply Hidx.
    + by rewrite Hnid.
    + intros k b (Hk & Hne & Hd)%Hidx. inversion Hd as [|? b' Hb' Hp]; simplify_eq.
      inversion Hp as [|? b2 Hb2]; simplify_eq; [by left|].
      destruct (decide (bs_previous b = bs_id nr)) as [|Hne']; [by left|]. right. exists b2. apply Hidx.
      split_and!; [done | done |]. by eapply descends_step.
    + intros k b (Hk & Hne & Hd)%Hidx. inversion Hd as [|? b' Hb' Hp]; simplify_eq.
      apply (descends_num _ _ _ Hn) in Hp. destruct (Hn _ _ Hk) as (_ & _ & ?). lia.
  - split.
    + destruct (best_head _ _ _ (inv_best _ _ _ Hi)) as [->|[Hh Hvh]].
      { apply (descends_num _ _ _ Hn) in Hdh. pose proof (tree_root_num _ _ Ht).
        pose proof (tree_above _ _ Ht _ _ Hid). lia. }
      destruct (decide (bs_id h = id)) as [Heq|Hne]; [left; congruence|]. right. split; [|done]. by apply Hidx.
    + intros k b (Hk & _)%Hidx. by apply (best_all _ _ _ (inv_best _ _ _ Hi) k).
Qed.

(** ** The other operations *)

(** The number of a block is in its id and one above its predecessor's. *)
Definition linked (n : block_state) : Prop :=
  num_from_id (bs_id n) = bs_num n /\ num_from_id (bs_previous n) + 1 = bs_num n.

Lemma reset_inv (b : bhs) : num_from_id (b_id b) = block_num (b_common b) ->
  inv (mk_bs b None true) (mk_bs b None true) (reset b : fork_database).
Proof.
  intros Hn. split; [done | done | |]; split; try done.
  by left.
Qed.

(** The first block of the order is the best head there is. *)
Lemma first_is_best r c l idx : numbered idx -> by_lib_block_num idx = c :: l -> validated c = true -> best r c idx.
Proof.
  intros Hn Hl Hv. destruct (by_lib_first _ _ _ Hl) as [[k Hk] Hall]. destruct (Hn k c Hk) as [Hid _].
  split; [right; by rewrite Hid|]. intros j b Hj Hb. apply lib_before_best; [by eapply Hall | congruence].
Qed.

Lemma none_validated c l idx k b : by_lib_block_num idx = c :: l -> validated c = false -> idx !! k = Some b ->
  validated b = false.
Proof.
  intros Hl Hv Hk. destruct (by_lib_first _ _ _ Hl) as [_ Hall]. destruct (validated b) eqn:Hb; [|done].
  rewrite (lib_before_valid c b (Hall k b Hk) Hb) in Hv. done.
Qed.

Lemma tree_insert r idx n : tree r idx -> linked n -> idx !! bs_id n = None ->
  bs_previous n = bs_id r \/ is_Some (idx !! bs_previous n) -> tree r (<[bs_id n := n]> idx).
Proof.
  intros Ht [Hid Hp] Hnew Hprev. split.
  - intros k b [[<- <-]|[_ Hk]]%lookup_insert_Some; [done|]. by apply (tree_numbered _ _ Ht).
  - apply (tree_root_num _ _ Ht).
  - intros k b [[<- <-]|[_ Hk]]%lookup_insert_Some.
    + destruct Hprev as [?|?]; [by left|]. right. apply lookup_insert_is_Some'. by right.
    + destruct (tree_linked _ _ Ht k b Hk) as [?|?]; [by left|]. right. apply lookup_insert_is_Some'. by right.
  - intros k b [[<- <-]|[_ Hk]]%lookup_insert_Some; [|by eapply (tree_above _ _ Ht)].
    pose proof (tree_root_num _ _ Ht) as Hrn. destruct Hprev as [Heq|[b Hb]]; [rewrite Heq in Hp; lia|].
    pose proof (tree_above _ _ Ht _ _ Hb). destruct (tree_numbered _ _ Ht _ _ Hb) as (_ & ? & _). lia.
Qed.

Lemma fork_add_inv r h db n ign val v db' : inv r h db -> linked n -> fork_add n ign val v db = Ok db' ->
  exists h', inv r h' db'.
Proof.
  intros [Hroot Hhead Ht Hb] Hl. unfold fork_add, get_block_header, the_root, get_block. rewrite Hroot.
  cbn [of_option mbind result_bind]. intros Hadd. apply bind_ok in Hadd as (p & Hp & Hadd).
  apply of_option_ok in Hp. apply bind_ok in Hadd as ([] & _ & Hadd).
  destruct (index db !! bs_id n) as [x|] eqn:En.
  { destruct ign; [|done]. apply (proj1 (Ok_inj _ _)) in Hadd as <-. by exists h. }
  apply (proj1 (Ok_inj _ _)) in Hadd as <-.
  assert (Ht' : tree r (<[bs_id n := n]> (index db))).
  { apply tree_insert; try done. case_bool_decide as Heq; [by left|]. right. by exists p. }
  destruct (by_lib_block_num _) as [|c l] eqn:El.
  { apply by_lib_nil in El. by apply insert_non_empty in El. }
  destruct (validated c) eqn:Ev.
  - exists c. split; [done | done | done|]. by eapply first_is_best; [apply (tree_numbered _ _ Ht')|..].
  - exists h. split; [done | done | done|]. split.
    + destruct (best_head _ _ _ Hb) as [->|[Hh Hvh]]; [by left|]. exfalso.
      assert (Hh' : <[bs_id n := n]> (index db) !! bs_id h = Some h).
      { rewrite lookup_insert_ne; [done|]. congruence. }
      by rewrite (none_validated _ _ _ _ _ El Ev Hh') in Hvh.
    + intros k b Hk Hvb. by rewrite (none_validated _ _ _ _ _ El Ev Hk) in Hvb.
Qed.

(** The tree does not depend on the flags. *)
Lemma tree_flags r idx idx' : tree r idx ->
  (forall k b', idx' !! k = Some b' -> exists b, idx !! k = Some b /\ bs b' = bs b) ->
  (forall k, is_Some (idx !! k) -> is_Some (idx' !! k)) -> tree r idx'.
Proof.
  intros Ht Hback Hfwd. split.
  - intros k b' (b & Hk & Hbs)%Hback. unfold bs_id, bs_num, bs_previous. rewrite Hbs. by apply (tree_numbered _ _ Ht).
  - apply (tree_root_num _ _ Ht).
  - intros k b' (b & Hk & Hbs)%Hback. unfold bs_previous. rewrite Hbs.
    destruct (tree_linked _ _ Ht k b Hk); [by left | right; by apply Hfwd].
  - intros k b' (b & Hk & Hbs)%Hback. unfold bs_num at 2. rewrite Hbs. by apply (tree_above _ _ Ht k).
Qed.

Lemma rollback_inv r h db : inv r h db -> inv r r (rollback_head_to_root db).
Proof.
  intros [Hroot Hhead Ht Hb]. unfold rollback_head_to_root. rewrite Hroot. split; [done | done | |]; cbn [index].
  - apply (tree_flags r (index db)); [done | |].
    + intros k b'. rewrite lookup_fmap. destruct (index db !! k) as [b|]; [|done]. cbn. intros [= <-]. by exists b.
    + intros k [b Hk]. rewrite lookup_fmap, Hk. by eexists.
  - split; [by left|]. intros k b. rewrite lookup_fmap. destruct (index db !! k); [|done]. cbn. by intros [= <-].
Qed.

(** Marking a block: it becomes the head when it is preferred to it. *)
Definition marked_head (b h : block_state) : block_state :=
  if first_preferred b h then with_validated true b else h.

Lemma mark_valid_ok r h db x b : inv r h db -> validated x = false -> index db !! bs_id x = Some b ->
  let db' := mk_fork (<[bs_id x := with_validated true b]> (index db)) (root db) (Some (bs_id (marked_head b h))) in
  mark_valid x db = Ok db' /\ inv r (marked_head b h) db'.
Proof.
  intros Hi Hvx Ex db'. pose proof Hi as [Hroot Hhead Ht Hb]. unfold mark_valid. rewrite Hvx, Ex.
  cbn [of_option mbind result_bind index]. set (idx' := <[bs_id x := with_validated true b]> (index db)) in *.
  destruct (tree_numbered _ _ Ht _ _ Ex) as [Hidb _].
  assert (Ht' : tree r idx').
  { apply (tree_flags r (index db)); [done | |].
    - intros k b' [[<- <-]|[_ Hk]]%lookup_insert_Some; [by exists b | by exists b'].
    - intros k Hk. apply lookup_insert_is_Some'. by right. }
  assert (Hhd : h = r \/ (idx' !! bs_id h = Some h /\ validated h = true)).
  { destruct (best_head _ _ _ Hb) as [->|[Hh Hv]]; [by left | right]. split; [|done]. unfold idx'.
    destruct (decide (bs_id x = bs_id h)) as [Heq|]; [|by rewrite lookup_insert_ne].
    rewrite Heq, lookup_insert_eq. rewrite Heq, Hh in Ex. injection Ex as <-. f_equal. unfold with_validated.
    rewrite <- Hv. by destruct h. }
  assert (Hhs : head_state (mk_fork idx' (root db) (head db)) = Ok h).
  { unfold head_state, the_root, get_block. cbn [head root index]. rewrite Hroot, Hhead. cbn [of_option mbind result_bind].
    destruct Hhd as [->|[Hh _]]; [by rewrite bool_decide_eq_true_2|]. case_bool_decide as Heq; [|by rewrite Hh].
    rewrite <- Heq, (root_not_inside _ _ Ht') in Hh. done. }
  rewrite Hhs. cbn [mbind result_bind]. destruct (by_lib_block_num idx') as [|c l] eqn:El.
  { apply by_lib_nil in El. by apply insert_non_empty in El. }
  destruct (by_lib_first _ _ _ El) as [[kc Hkc] Hall].
  assert (Hbin : idx' !! bs_id x = Some (with_validated true b)) by apply lookup_insert_eq.
  assert (Hvc : validated c = true) by by apply (lib_before_valid c (with_validated true b)); [apply (Hall _ _ Hbin)|].
  pose proof (first_is_best r c l idx' (tree_numbered _ _ Ht') El Hvc) as Hbc.
  pose proof (best_all _ _ _ Hbc _ _ Hbin eq_refl) as Hbb. change (first_preferred b c = false) in Hbb.
  assert (Hc : c = with_validated true b \/ first_preferred c h = false).
  { apply lookup_insert_Some in Hkc as [[_ <-]|[_ Hkc]]; [by left | right]. by apply (best_all _ _ _ Hb kc). }
  assert (Hnew : best r (marked_head b h) idx' /\
    (if first_preferred c h then bs_id c else bs_id h) = bs_id (marked_head b h)).
  { unfold marked_head. destruct (first_preferred b h) eqn:Ep.
    - destruct Hc as [->|Hc].
      + change (first_preferred (with_validated true b) h) with (first_preferred b h). by rewrite Ep.
      + by rewrite (preferred_trans _ _ _ Hbb Hc) in Ep.
    - assert (Hch : first_preferred c h = false) by by destruct Hc as [->|Hc].
      rewrite Hch. split; [|done]. split; [done|]. intros k b' Hk Hv.
      eapply preferred_trans; [|exact Hch]. by apply (best_all _ _ _ Hbc k). }
  destruct Hnew as [Hbest Heq]. split; [|by split].
  unfold db'. rewrite <- Heq. destruct (first_preferred c h); [done|]. by rewrite <- Hhead.
Qed.

Lemma mark_valid_inv r h db x db' : inv r h db -> mark_valid x db = Ok db' -> exists h', inv r h' db'.
Proof.
  intros Hi Hok. destruct (validated x) eqn:Hv.
  { unfold mark_valid in Hok. rewrite Hv in Hok. apply (proj1 (Ok_inj _ _)) in Hok as <-. by exists h. }
  destruct (index db !! bs_id x) as [b|] eqn:Ex; [|unfold mark_valid in Hok; by rewrite Hv, Ex in Hok].
  destruct (mark_valid_ok r h db x b Hi Hv Ex) as [Hm Hi']. rewrite Hm in Hok.
  apply (proj1 (Ok_inj _ _)) in Hok as <-. by eexists.
Qed.

Lemma remove_inv r h db a db' : inv r h db -> remove a db = Ok db' -> inv r h db'.
Proof.
  intros Hi Hrem. pose proof Hi as [Hroot Hhead Ht Hb].
  pose proof (remove_ok a db (bs_id h) (tree_numbered _ _ Ht) Hhead) as Hr. rewrite Hrem in Hr.
  destruct Hr as (Hroot' & Hhead' & Hnd & Hidx).
  split; [congruence | congruence | |]; split.
  - apply (numbered_sub _ _ (tree_numbered _ _ Ht)). intros x b Hx. by apply Hidx.
  - apply (tree_root_num _ _ Ht).
  - intros k b [Hk Hkd]%Hidx. destruct (tree_linked _ _ Ht k b Hk) as [?|[b' Hb']]; [by left|]. right.
    exists b'. apply Hidx. split; [done|]. intros Hd. apply Hkd. by eapply descends_step.
  - intros k b [Hk _]%Hidx. by apply (tree_above _ _ Ht k).
  - destruct (best_head _ _ _ Hb) as [->|[Hh Hv]]; [by left|]. right. split; [|done]. by apply Hidx.
  - intros k b [Hk _]%Hidx. by apply (best_all _ _ _ Hb k).
Qed.

(** ** Runs *)

Inductive fork_op :=
| OpReset (b : bhs) | OpAdd (n : block_state) (ignore_duplicate : bool) | OpMarkValid (h : block_state)
| OpRemove (id : digest) | OpAdvanceRoot (id : digest) | OpRollback.

Definition fork_exec (db : fork_database) (o : fork_op) : result fork_database :=
  match o with
  | OpReset b => Ok (reset b)
  | OpAdd n ign => add n ign db
  | OpMarkValid h => mark_valid h db
  | OpRemove id => remove id db
  | OpAdvanceRoot id => advance_root id db
  | OpRollback => Ok (rollback_head_to_root db)
  end.

(** The numbers of blocks that come in agree with their ids. *)
Definition fork_op_ok (o : fork_op) : Prop :=
  match o with
  | OpReset b => num_from_id (b_id b) = block_num (b_common b)
  | OpAdd n _ => linked n
  | _ => True
  end.

Lemma fork_step_inv r h db o db' : inv r h db -> fork_op_ok o -> fork_exec db o = Ok db' ->
  exists r' h', inv r' h' db'.
Proof.
  intros Hi Hok He. destruct o as [b|n ign|x|id|id|]; cbn [fork_exec fork_op_ok] in *.
  - apply (proj1 (Ok_inj _ _)) in He as <-. do 2 eexists. by apply reset_inv.
  - exists r. by eapply fork_add_inv.
  - exists r. by eapply mark_valid_inv.
  - exists r, h. by eapply remove_inv.
  - assert (Hnr : exists nr, index db !! id = Some nr /\ validated nr = true).
    { unfold advance_root, get_block in He. apply bind_ok in He as (? & _ & He). apply bind_ok in He as (nr & Hnr & He).
      apply of_option_ok in Hnr. apply bind_ok in He as ([] & Hv & _). apply check_ok in Hv. by exists nr. }
    destruct Hnr as (nr & Hnr & Hv). exists nr, h. by eapply advance_root_inv.
  - apply (proj1 (Ok_inj _ _)) in He as <-. exists r, r. by eapply rollback_inv.
Qed.

Lemma fork_run_inv (ops : list fork_op) db r h db' : inv r h db -> Forall fork_op_ok ops ->
  mfold fork_exec ops db = Ok db' -> exists r' h', inv r' h' db'.
Proof.
  intros Hi Hok. revert db r h Hi. induction Hok as [|o ops Ho Hok IH]; intros db r h Hi Hrun.
  - apply (proj1 (Ok_inj _ _)) in Hrun as <-. by exists r, h.
  - cbn [mfold] in Hrun. apply bind_ok in Hrun as (db1 & He & Hrun).
    destruct (fork_step_inv r h db o db1 Hi Ho He) as (r1 & h1 & Hi1). by eapply IH.
Qed.

Lemma pending_best r h db : inv r h db ->
  exists p, pending_head db = Ok p /\ (p = h \/ index db !! bs_id p = Some p) /\
    forall k b, index db !! k = Some b -> first_preferred b p = false.
Proof.
  intros Hi. pose proof Hi as [Hroot Hhead Ht Hb]. unfold pending_head. rewrite (head_state_inv _ _ _ Hi).
  cbn [mbind result_bind]. eexists. split; [done|].
  assert (Hsort : StronglySorted lib_before (filter (fun b => validated b = false) (by_lib_block_num (index db)))).
  { pose proof (by_lib_sorted (index db)) as Hs. induction Hs as [|x l Hs IH Hx]; [constructor|].
    rewrite filter_cons. case_decide; [|done]. constructor; [done|]. apply Forall_forall. intros y Hy.
    apply list_elem_of_filter in Hy as [_ Hy]. by eapply Forall_forall in Hx. }
  assert (Hin : forall k b, index db !! k = Some b -> validated b = false ->
    b ∈ filter (fun b => validated b = false) (by_lib_block_num (index db))).
  { intros k b Hk Hv. apply list_elem_of_filter. split; [done|]. apply by_lib_elem. by exists k. }
  destruct (filter _ _) as [|c l] eqn:Ef.
  - split; [by left|]. intros k b Hk. destruct (validated b) eqn:Hv; [by apply (best_all _ _ _ Hb k)|].
    by apply (Hin k b Hk), elem_of_nil in Hv.
  - assert (Hc : c ∈ filter (fun b => validated b = false) (by_lib_block_num (index db))) by (rewrite Ef; by left).
    apply list_elem_of_filter in Hc as [Hvc [kc Hkc]%by_lib_elem].
    destruct (tree_numbered _ _ Ht _ _ Hkc) as [Hid _].
    assert (Hun : forall k b, index db !! k = Some b -> validated b = false -> first_preferred b c = false).
    { intros k b Hk Hv. apply lib_before_best; [|congruence]. apply (Hin k b Hk), elem_of_cons in Hv as [->|Hv]; [apply lex_refl|].
      apply StronglySorted_inv in Hsort as [_ Hall]. by eapply Forall_forall in Hall. }
    destruct (first_preferred c h) eqn:Ep.
    + split; [right; by rewrite Hid|]. intros k b Hk. destruct (validated b) eqn:Hv; [|by eapply Hun].
      eapply preferred_trans; [by apply (best_all _ _ _ Hb k)|].
      revert Ep. unfold first_preferred. rewrite !orb_true_iff, !andb_true_iff, orb_false_iff, andb_false_iff. lia.
    + split; [by left|]. intros k b Hk. destruct (validated b) eqn:Hv; [by apply (best_all _ _ _ Hb k)|].
      eapply preferred_trans; [by eapply Hun | done].
Qed.
End ForkSpec.
