(* ===== verification/ForkFile.v ===== *)
(** * Closing and reopening the fork database

    The blocks are written from the worst to the best; when the last
    irreversible block number never decreases along a branch a block comes
    after its predecessor, and reopening the file restores the database. *)

From stdpp Require Import base numbers list gmap strings sorting.
From Stdlib Require Import ZArith Lia.
From S2P Require Import Prelude Boost Merkle BlockHeader BlockHeaderState ForkDatabase ForkDatabaseSpec.
Local Open Scope Z_scope.

(** ** Branches of the fork database

    Walks towards the root end, and the two branches of a fork meet in the
    latest common ancestor. *)

Section Branches.
Context {key sig receipt : Type} `{EqDecision key} `{crypto : HeaderCrypto key sig}.
#[local] Abbreviation block_state := (block_state key sig receipt).
#[local] Abbreviation fork_database := (fork_database key sig receipt).
#[local] Abbreviation table := (gmap digest block_state).
Implicit Types (b r : block_state) (idx : table) (db : fork_database).

(** The blocks [l] lead from [x] down to [a], which is not among them. *)
Inductive path (idx : table) : digest -> list block_state -> digest -> Prop :=
| path_nil x : path idx x [] x
| path_cons x b l a : idx !! x = Some b -> path idx (bs_previous b) l a -> path idx x (b :: l) a.

Lemma path_app idx x l y m z : path idx x l y -> path idx y m z -> path idx x (l ++ m) z.
Proof. induction 1; [done|]. intros Hm. simpl. eapply path_cons; [done | auto]. Qed.

Lemma path_bound idx x l a b : numbered idx -> path idx x l a -> b ∈ l ->
  idx !! bs_id b = Some b /\ bs_num b <= num_from_id x.
Proof.
  intros Hn. induction 1 as [x|x c l a Hx Hp IH]; [by intros ?%elem_of_nil|].
  destruct (Hn x c Hx) as (Hid & Hnum & Hprev). intros [->|Hb]%elem_of_cons; [split; [congruence|lia]|].
  destruct (IH Hb). split; [done|lia].
Qed.

(** Root or block of the index. *)
Definition node r idx b : Prop := b = r \/ idx !! bs_id b = Some b.

Definition depth r b : nat := Z.to_nat (bs_num b - bs_num r).

Lemma node_num r idx b : tree r idx -> node r idx b -> num_from_id (bs_id b) = bs_num b /\ bs_num r <= bs_num b.
Proof.
  intros Ht [->|Hb]; [split; [apply (tree_root_num _ _ Ht) | lia]|].
  destruct (tree_numbered _ _ Ht _ _ Hb) as (_ & ? & _). pose proof (tree_above _ _ Ht _ _ Hb). lia.
Qed.

(** A block with as many blocks under it as its depth says. *)
Lemma depth_below r idx k b : tree r idx -> idx !! k = Some b -> (depth r b <= below idx (bs_num b + 1))%nat.
Proof.
  intros Ht Hk.
  refine (tree_ind r idx (fun k => forall b, idx !! k = Some b -> (depth r b <= below idx (bs_num b + 1))%nat)
            Ht _ _ k b Hk b Hk).
  - intros b'. by rewrite (root_not_inside _ _ Ht).
  - intros x b0 Hx IH b' Hb'. simplify_eq. pose proof (below_step idx x b0 (bs_num b0 + 1) Hx).
    pose proof (tree_previous _ _ _ _ Ht Hx) as Hp. unfold depth in *.
    destruct (tree_linked _ _ Ht x b0 Hx) as [Heq|[p Hpb]].
    + rewrite Heq, (tree_root_num _ _ Ht) in Hp. lia.
    + specialize (IH p Hpb). destruct (tree_numbered _ _ Ht _ _ Hpb) as (_ & Hn & _).
      replace (bs_num p + 1) with (bs_num b0) in IH by lia. lia.
Qed.

Lemma depth_size r idx b : tree r idx -> node r idx b -> (depth r b <= size idx)%nat.
Proof.
  intros Ht [->|Hb]; [unfold depth; lia|]. pose proof (depth_below _ _ _ _ Ht Hb).
  pose proof (below_size idx (bs_num b + 1)). lia.
Qed.

(** The predecessor of a block is a node, one level down. *)
Lemma previous_node r idx b : tree r idx -> idx !! bs_id b = Some b -> exists p,
  node r idx p /\ bs_id p = bs_previous b /\ bs_num p + 1 = bs_num b /\
  (if bool_decide (bs_previous b = bs_id r) then Some r else idx !! bs_previous b) = Some p.
Proof.
  intros Ht Hb. pose proof (tree_previous _ _ _ _ Ht Hb) as Hp. case_bool_decide as Heq.
  - exists r. split_and!; [by left | done | | done]. rewrite Heq, (tree_root_num _ _ Ht) in Hp. lia.
  - destruct (tree_linked _ _ Ht _ _ Hb) as [?|[p Hpb]]; [done|]. exists p.
    destruct (tree_numbered _ _ Ht _ _ Hpb) as (Hid & Hn & _).
    split_and!; [right; by rewrite Hid | done | lia | done].
Qed.

Lemma lower_ok fuel r db num b acc : tree r (index db) -> node r (index db) b -> (depth r b <= fuel)%nat ->
  bs_num r <= num ->
  exists l c, lower_loop fuel db r num b acc = Ok (acc ++ l, c) /\ node r (index db) c /\
    path (index db) (bs_id b) l (bs_id c) /\ bs_num c = Z.min (bs_num b) num /\ Forall (fun x => num < bs_num x) l.
Proof.
  intros Ht. revert b acc. induction fuel as [|fuel IH]; intros b acc Hb Hf Hr; cbn [lower_loop];
    destruct (bs_num b >? num) eqn:Egt; try (exists [], b; rewrite app_nil_r; split_and!; [done | done | constructor | lia | done]).
  - unfold depth in Hf. lia.
  - destruct Hb as [->|Hb]; [lia|]. destruct (previous_node r _ b Ht Hb) as (p & Hp & Hid & Hnum & Hget).
    unfold block_or_root, get_block. rewrite Hget. cbn [of_option mbind result_bind].
    destruct (IH p (acc ++ [b]) Hp) as (l & c & -> & Hc & Hpath & Hmin & Hall); [unfold depth in *; lia | done |].
    exists (b :: l), c. rewrite <- app_assoc. split_and!; [done | done | | lia | constructor; [lia | done]].
    eapply path_cons; [done|]. by rewrite <- Hid.
Qed.

Lemma both_ok fuel r db a b accs : tree r (index db) -> index db !! bs_id a = Some a -> index db !! bs_id b = Some b ->
  bs_num a = bs_num b -> bs_id a <> bs_id b -> (depth r a <= fuel)%nat ->
  exists l m x, both_loop fuel db a b accs = Ok (accs.1 ++ l, accs.2 ++ m) /\
    path (index db) (bs_id a) l x /\ path (index db) (bs_id b) m x /\
    forall u v, u ∈ l -> v ∈ m -> bs_id u <> bs_id v.
Proof.
  intros Ht. revert a b accs. induction fuel as [|fuel IH]; intros a b accs Ha Hb Hnum Hne Hf.
  { pose proof (tree_above _ _ Ht _ _ Ha). unfold depth in Hf. lia. }
  cbn [both_loop]. case_bool_decide as Heq; cbn [negb].
  { exists [a], [b], (bs_previous a). split_and!; [done | | |].
    - eapply path_cons; [done | constructor].
    - eapply path_cons; [done|]. rewrite Heq. constructor.
    - by intros u v ->%list_elem_of_singleton ->%list_elem_of_singleton. }
  pose proof (tree_previous _ _ _ _ Ht Ha) as Hpa. pose proof (tree_previous _ _ _ _ Ht Hb) as Hpb.
  pose proof (tree_root_num _ _ Ht) as Hrn.
  assert (Hdown : forall x y : block_state, index db !! bs_id x = Some x -> index db !! bs_id y = Some y ->
    bs_num x = bs_num y -> bs_previous x <> bs_previous y -> is_Some (index db !! bs_previous x)).
  { intros x y Hx Hy Hxy Hxne. destruct (tree_linked _ _ Ht _ _ Hx) as [Hr|?]; [|done].
    pose proof (tree_previous _ _ _ _ Ht Hx). pose proof (tree_previous _ _ _ _ Ht Hy).
    destruct (tree_linked _ _ Ht _ _ Hy) as [Hr'|[p Hp]]; [congruence|].
    destruct (tree_numbered _ _ Ht _ _ Hp) as (_ & ? & _). pose proof (tree_above _ _ Ht _ _ Hp). rewrite Hr in *. lia. }
  destruct (Hdown a b) as [a' Ea]; try done. destruct (Hdown b a) as [b' Eb]; try done.
  unfold get_block. rewrite Ea, Eb. cbn [of_option mbind result_bind].
  destruct (tree_numbered _ _ Ht _ _ Ea) as (Hida & Hna & _). destruct (tree_numbered _ _ Ht _ _ Eb) as (Hidb & Hnb & _).
  destruct (IH a' b' (accs.1 ++ [a], accs.2 ++ [b])) as (l & m & x & -> & Hl & Hm & Hdis);
    [congruence | congruence | lia | congruence | unfold depth in *; lia |].
  exists (a :: l), (b :: m), x. cbn [fst snd]. rewrite <- !app_assoc. split_and!; [done | | |].
  - eapply path_cons; [done|]. by rewrite <- Hida.
  - eapply path_cons; [done|]. by rewrite <- Hidb.
  - pose proof (tree_numbered _ _ Ht) as Hn. destruct (Hn _ _ Ha) as (_ & Hia & _), (Hn _ _ Hb) as (_ & Hib & _).
    intros u v [->|Hu]%elem_of_cons [->|Hv]%elem_of_cons; [done | | |by apply Hdis].
    + destruct (path_bound _ _ _ _ _ Hn Hm Hv) as [Hvi Hvn]. destruct (Hn _ _ Hvi) as (_ & ? & _).
      intros Heq'. rewrite Hidb in Hvn. rewrite Heq' in Hia. lia.
    + destruct (path_bound _ _ _ _ _ Hn Hl Hu) as [Hui Hun]. destruct (Hn _ _ Hui) as (_ & ? & _).
      intros Heq'. rewrite Hida in Hun. rewrite Heq' in *. lia.
Qed.

Lemma node_get r db x : tree r (index db) -> x = bs_id r \/ is_Some (index db !! x) ->
  exists b, block_or_root db r x = Ok b /\ node r (index db) b /\ bs_id b = x.
Proof.
  intros Ht Hx. unfold block_or_root, get_block. case_bool_decide as Heq; [exists r; split_and!; [done | by left | done]|].
  destruct Hx as [?|[b Hb]]; [done|]. exists b. rewrite Hb.
  destruct (tree_numbered _ _ Ht _ _ Hb) as [Hid _]. split_and!; [done | right; by rewrite Hid | done].
Qed.

Lemma branch_from_lemma r h db x y : inv r h db ->
  x = bs_id r \/ is_Some (index db !! x) -> y = bs_id r \/ is_Some (index db !! y) ->
  exists l m a, fetch_branch_from db x y = Ok (l, m) /\ path (index db) x l a /\ path (index db) y m a /\
    forall u v, u ∈ l -> v ∈ m -> bs_id u <> bs_id v.
Proof.
  intros Hi Hx Hy. pose proof (inv_tree _ _ _ Hi) as Ht. pose proof (tree_numbered _ _ Ht) as Hn.
  unfold fetch_branch_from, the_root. rewrite (inv_root _ _ _ Hi). cbn [of_option mbind result_bind].
  destruct (node_get r db x Ht Hx) as (bx & -> & Nx & Ex). destruct (node_get r db y Ht Hy) as (by_ & -> & Ny & Ey).
  cbn [mbind result_bind]. destruct (node_num _ _ _ Ht Nx) as [Hnx Hrx]. destruct (node_num _ _ _ Ht Ny) as [Hny Hry].
  pose proof (depth_size _ _ _ Ht Nx). pose proof (depth_size _ _ _ Ht Ny).
  destruct (lower_ok (S (size (index db))) r db (bs_num by_) bx [] Ht Nx) as (l1 & c & -> & Nc & Pc & Hc & Fc);
    [lia | done |]. cbn [mbind result_bind app].
  destruct (node_num _ _ _ Ht Nc) as [Hnc Hrc].
  destruct (lower_ok (S (size (index db))) r db (bs_num c) by_ [] Ht Ny) as (l2 & d & -> & Nd & Pd & Hd & Fd);
    [lia | done |]. cbn [mbind result_bind app]. destruct (node_num _ _ _ Ht Nd) as [Hnd _].
  rewrite Ex in Pc. rewrite Ey in Pd. rewrite Forall_forall in Fc, Fd.
  assert (Hfar : forall m a u v, path (index db) y m a -> u ∈ l1 -> v ∈ m -> bs_id u <> bs_id v).
  { intros m a u v Hm Hu Hv Heq. specialize (Fc u Hu). destruct (path_bound _ _ _ _ _ Hn Hm Hv) as [Hvi Hvn].
    destruct (path_bound _ _ _ _ _ Hn Pc Hu) as [Hui _]. rewrite Heq, Hvi in Hui. injection Hui as ->.
    rewrite <- Ey, Hny in Hvn. lia. }
  case_bool_decide as Hcd.
  - exists l1, l2, (bs_id c). split_and!; [done | done | by rewrite Hcd | by intros u v; apply (Hfar l2 (bs_id d))].
  - assert (Hcn : bs_num c = bs_num d) by lia.
    assert (Hin : index db !! bs_id c = Some c /\ index db !! bs_id d = Some d).
    { destruct Nc as [->|Hci], Nd as [->|Hdi]; [done | | |done].
      - pose proof (tree_above _ _ Ht _ _ Hdi). lia.
      - pose proof (tree_above _ _ Ht _ _ Hci). lia. }
    destruct (both_ok (S (size (index db))) r db c d (l1, l2)) as (m1 & m2 & a & -> & P1 & P2 & Hdis);
      [done | apply Hin | apply Hin | done | done | pose proof (depth_size _ _ _ Ht Nc); lia |].
    pose proof (path_app _ _ _ _ _ _ Pc P1) as Pl. pose proof (path_app _ _ _ _ _ _ Pd P2) as Pm.
    exists (l1 ++ m1), (l2 ++ m2), a. split_and!; [done | done | done |].
    intros u v [Hu|Hu]%elem_of_app; [by apply (Hfar (l2 ++ m2) a)|]. intros [Hv|Hv]%elem_of_app; [|by apply Hdis].
    specialize (Fd v Hv). destruct (path_bound _ _ _ _ _ Hn P1 Hu) as [Hui Hun].
    destruct (path_bound _ _ _ _ _ Hn Pd Hv) as [Hvi _]. intros Heq. rewrite Heq, Hvi in Hui. injection Hui as ->. lia.
Qed.

(** ** Walks to the root *)

Lemma branch_ok fuel r idx b : tree r idx -> idx !! bs_id b = Some b -> (depth r b <= fuel)%nat ->
  exists l, branch_loop fuel idx (bs_id b) = Ok l /\ path idx (bs_id b) l (bs_id r) /\
    forall num, search_loop fuel idx (bs_id b) num = Ok (List.find (fun s => bs_num s =? num) l).
Proof.
  intros Ht. revert b. induction fuel as [|fuel IH]; intros b Hb Hf.
  { pose proof (tree_above _ _ Ht _ _ Hb). unfold depth in Hf. lia. }
  cbn [branch_loop search_loop]. rewrite Hb. destruct (previous_node r idx b Ht Hb) as (p & Hp & Hid & Hnum & _).
  destruct Hp as [->|Hp].
  - rewrite <- Hid.
    assert (Hstop : branch_loop fuel idx (bs_id r) = Ok [] /\ forall num, search_loop fuel idx (bs_id r) num = Ok None).
    { destruct fuel; cbn [branch_loop search_loop]; by rewrite (root_not_inside _ _ Ht). }
    destruct Hstop as [-> Hs]. cbn [mbind result_bind]. exists [b]. split_and!; [done | |].
    + eapply path_cons; [done|]. rewrite <- Hid. constructor.
    + intros num. rewrite Hs. simpl. by destruct (bs_num b =? num).
  - rewrite <- Hid. destruct (IH p Hp) as (l & -> & Hl & Hs); [unfold depth in *; lia|]. cbn [mbind result_bind].
    exists (b :: l). split_and!; [done | |].
    + eapply path_cons; [done|]. by rewrite <- Hid.
    + intros num. rewrite Hs. simpl. by destruct (bs_num b =? num).
Qed.
End Branches.

(** ** Closing and reopening the fork database *)

Lemma StronglySorted_reverse {A} (R : A -> A -> Prop) l :
  StronglySorted (flip R) l -> StronglySorted R (reverse l).
Proof.
  induction 1 as [|x l Hs IH Hx]; [constructor|]. rewrite reverse_cons. apply StronglySorted_app_2; [| done |].
  - intros y z Hy ->%list_elem_of_singleton. rewrite elem_of_reverse in Hy. rewrite Forall_forall in Hx. exact (Hx y Hy).
  - repeat constructor.
Qed.

Lemma StronglySorted_filter_weaken {A} (P : A -> Prop) `{!forall x, Decision (P x)} (R S : A -> A -> Prop) l :
  (forall x y, P x -> P y -> R x y -> S x y) -> StronglySorted R l -> StronglySorted S (filter P l).
Proof.
  intros HRS. induction 1 as [|x l Hs IH Hx]; [constructor|]. rewrite filter_cons. case_decide; [|done].
  constructor; [done|]. apply Forall_forall. intros y Hy. apply list_elem_of_filter in Hy as [HP Hy].
  apply HRS; [done | done|]. rewrite Forall_forall in Hx. by apply Hx.
Qed.

Section File.
Context {key sig receipt : Type} `{EqDecision key} `{crypto : HeaderCrypto key sig}.
#[local] Abbreviation block_state := (block_state key sig receipt).
#[local] Abbreviation fork_database := (fork_database key sig receipt).
#[local] Abbreviation table := (gmap digest block_state).
#[local] Abbreviation validator := (Z -> gset digest -> list digest -> result unit).
Implicit Types (b p r : block_state) (idx : table) (db : fork_database).

(** ** The order of writing *)

Definition not_better (x y : block_state) : Prop := first_preferred x y = false.

Lemma preferred_asym (x y : block_state) : first_preferred x y = true -> not_better y x.
Proof.
  unfold not_better, first_preferred. rewrite !orb_true_iff, !andb_true_iff, orb_false_iff, andb_false_iff. lia.
Qed.

Lemma write_order_perm (vs us : list block_state) : write_order vs us ≡ₚ vs ++ us.
Proof.
  revert us. induction vs as [|v vs IHv]; intros us; [by destruct us|].
  induction us as [|u us IHu]; [by rewrite app_nil_r|]. cbn [write_order]. destruct (first_preferred v u).
  - change (u :: write_order (v :: vs) us ≡ₚ (v :: vs) ++ u :: us). rewrite IHu. apply Permutation_middle.
  - rewrite IHv. done.
Qed.

Lemma write_order_sorted (vs us : list block_state) : StronglySorted not_better vs -> StronglySorted not_better us ->
  StronglySorted not_better (write_order vs us).
Proof.
  revert us. induction vs as [|v vs IHv]; intros us Hv Hu; [by destruct us|].
  pose proof (StronglySorted_inv Hv) as [Hv' Hvall].
  induction us as [|u us IHu]; [done|]. pose proof (StronglySorted_inv Hu) as [Hu' Huall].
  cbn [write_order]. destruct (first_preferred v u) eqn:Ep.
  - change (StronglySorted not_better (u :: write_order (v :: vs) us)). constructor; [by apply IHu|].
    rewrite write_order_perm. apply Forall_app. split; [|done]. pose proof (preferred_asym _ _ Ep) as Huv.
    constructor; [done|]. eapply Forall_impl; [exact Hvall|]. intros x Hx. by eapply preferred_trans.
  - constructor; [by apply IHv|]. rewrite write_order_perm. apply Forall_app. split; [done|]. constructor; [done|].
    eapply Forall_impl; [exact Huall|]. intros x Hx. by eapply preferred_trans.
Qed.

(** The blocks in the order [close] writes them. *)
Definition written idx : list block_state :=
  write_order (reverse (filter (fun b => validated b = true) (by_lib_block_num idx)))
    (reverse (filter (fun b => validated b = false) (by_lib_block_num idx))).

Lemma written_sorted idx : StronglySorted not_better (written idx).
Proof.
  apply write_order_sorted; apply StronglySorted_reverse;
    (eapply StronglySorted_filter_weaken; [|apply by_lib_sorted]); intros x y Hx Hy Hxy;
    apply lib_before_best; [done | congruence | done | congruence].
Qed.

Lemma written_elem idx b : b ∈ written idx <-> exists k, idx !! k = Some b.
Proof.
  unfold written. rewrite write_order_perm, elem_of_app, !elem_of_reverse, !list_elem_of_filter, by_lib_elem.
  destruct (validated b); naive_solver.
Qed.

Lemma by_lib_nodup idx : numbered idx -> NoDup (by_lib_block_num idx).
Proof.
  intros Hn. unfold by_lib_block_num. rewrite merge_sort_Permutation.
  apply NoDup_fmap_2_strong; [|apply NoDup_map_to_list].
  intros [k b] [k' b'] Hk Hk' Heq. cbn [snd] in Heq. subst b'.
  apply elem_of_map_to_list in Hk, Hk'. destruct (Hn _ _ Hk) as [<- _], (Hn _ _ Hk') as [<- _]. done.
Qed.

Lemma written_nodup idx : numbered idx -> NoDup (written idx).
Proof.
  intros Hn. unfold written. rewrite write_order_perm, !reverse_Permutation.
  apply NoDup_app. split_and!; [by apply NoDup_filter, by_lib_nodup | | by apply NoDup_filter, by_lib_nodup].
  intros x [Hx _]%list_elem_of_filter [Hy _]%list_elem_of_filter. congruence.
Qed.

(** The last irreversible block number does not decrease towards the leaves. *)
Definition lib_grows idx : Prop :=
  forall k b p, idx !! k = Some b -> idx !! bs_previous b = Some p -> bs_lib p <= bs_lib b.

Lemma written_parents r idx pre b post : tree r idx -> lib_grows idx -> written idx = pre ++ b :: post ->
  bs_previous b = bs_id r \/ exists p, p ∈ pre /\ idx !! bs_previous b = Some p.
Proof.
  intros Ht Hlib Hw. assert (Hb : b ∈ written idx) by (rewrite Hw; apply elem_of_app; right; by left).
  apply written_elem in Hb as [k Hk]. destruct (tree_linked _ _ Ht k b Hk) as [?|[p Hp]]; [by left|]. right.
  exists p. split; [|done].
  assert (Hpw : p ∈ written idx) by (apply written_elem; by eexists).
  pose proof (tree_previous _ _ _ _ Ht Hk) as Hnum. destruct (tree_numbered _ _ Ht _ _ Hp) as (_ & Hnp & _).
  assert (Hpref : first_preferred b p = true).
  { specialize (Hlib _ _ _ Hk Hp). unfold first_preferred. rewrite orb_true_iff, andb_true_iff. lia. }
  rewrite Hw in Hpw. apply elem_of_app in Hpw as [?|[->|Hpost]%elem_of_cons]; [done | lia |].
  pose proof (written_sorted idx) as Hs. rewrite Hw in Hs. apply StronglySorted_app_1_r in Hs.
  apply StronglySorted_inv in Hs as [_ Hall]. eapply Forall_forall in Hall; [|exact Hpost].
  unfold not_better in Hall. congruence.
Qed.

(** ** Reading back *)

(** The header extensions of a block state are those of its block. *)
Definition exts_kept b : Prop := exists blk, bs_block b = Some blk /\
  validate_and_extract_header_extensions (sb_header (sb_signed blk)) = Ok (header_exts (bs b)).

(** The state a block with predecessor [x] is built on. *)
Definition node_of r idx (x : digest) p : Prop := (x = bs_id r /\ p = r) \/ idx !! x = Some p.

(** The validator accepts the features a block activates on its predecessor. *)
Definition features_accepted (v : validator) b p : Prop := forall fs rest, header_exts (bs b) = fs :: rest ->
  is_ok (v (h_timestamp (sb_header (b_header (bs b)))) (activated_protocol_features (bs p)) fs) = true.

(** The root as it is read back: without its block and header extensions. *)
Definition reopened_root r : block_state := mk_bs (with_exts (bs r) []) None true.

Definition reopen (v : validator) db (s : block_state) : result fork_database :=
  blk ← of_option (bs_block s) "block is null";
  exts ← validate_and_extract_header_extensions (sb_header (sb_signed blk));
  fork_add (mk_bs (with_exts (bs s) exts) (bs_block s) (validated s)) false true v db.

Lemma reopen_ok v r db b p : root db = Some (reopened_root r) -> exts_kept b -> features_accepted v b p ->
  (bs_previous b = bs_id r /\ p = r) \/ (bs_previous b <> bs_id r /\ index db !! bs_previous b = Some p) ->
  index db !! bs_id b = None ->
  exists db', reopen v db (packed b) = Ok db' /\ root db' = root db /\ index db' = <[bs_id b := b]> (index db).
Proof.
  intros Hroot (blk & Hblk & Hex) Hv Hp Hnew. unfold reopen. cbn [packed bs_block bs validated].
  rewrite Hblk. cbn [of_option mbind result_bind]. rewrite Hex. cbn [mbind result_bind].
  assert (Hb : mk_bs (with_exts (with_exts (bs b) []) (header_exts (bs b))) (Some blk) (validated b) = b).
  { rewrite <- Hblk. unfold with_exts. destruct b as [[] ? ?]. done. }
  rewrite Hb. unfold fork_add, get_block_header, the_root, get_block. rewrite Hroot. cbn [of_option mbind result_bind].
  assert (Hprev : exists q, (if bool_decide (bs_id (reopened_root r) = bs_previous b) then Some (reopened_root r)
                     else index db !! bs_previous b) = Some q /\
                   activated_protocol_features (bs q) = activated_protocol_features (bs p)).
  { destruct Hp as [[Heq ->]|[Hne Hp]].
    - exists (reopened_root r). rewrite bool_decide_eq_true_2 by (symmetry; exact Heq). done.
    - exists p. rewrite bool_decide_eq_false_2; [done|]. intros Heq. by apply Hne. }
  destruct Hprev as (q & -> & Hq). cbn [of_option mbind result_bind]. rewrite Hq.
  assert (Hval : match header_exts (bs b) with
    | fs :: _ => match v (h_timestamp (sb_header (b_header (bs b)))) (activated_protocol_features (bs p)) fs with
                 | Ok _ => Ok tt
                 | Err _ => Err "serialized fork database is incompatible with configured protocol features" end
    | [] => Ok tt end = Ok tt).
  { destruct (header_exts (bs b)) as [|fs rest] eqn:Ef; [done|]. specialize (Hv fs rest Ef).
    by destruct (v _ _ fs). }
  rewrite Hval. cbn [mbind result_bind]. rewrite Hnew. eexists. split_and!; [done | done | done].
Qed.

(** The index read back so far holds the blocks read so far. *)
Definition holds (l : list block_state) idx : Prop := forall k b, idx !! k = Some b <-> b ∈ l /\ bs_id b = k.

Lemma open_loop v r idx pre post db : tree r idx -> lib_grows idx -> written idx = pre ++ post ->
  (forall k b, idx !! k = Some b -> exts_kept b) ->
  (forall k b p, idx !! k = Some b -> node_of r idx (bs_previous b) p -> features_accepted v b p) ->
  root db = Some (reopened_root r) -> holds pre (index db) ->
  exists db', mfold (reopen v) (packed <$> post) db = Ok db' /\ root db' = root db /\ holds (pre ++ post) (index db').
Proof.
  intros Ht Hlib. revert pre db. induction post as [|b post IH]; intros pre db Hw Hex Hacc Hroot Hpre.
  { exists db. rewrite app_nil_r. done. }
  assert (Hb : exists k, idx !! k = Some b) by (apply written_elem; rewrite Hw; apply elem_of_app; right; by left).
  destruct Hb as [k Hk]. pose proof (written_nodup idx (tree_numbered _ _ Ht)) as Hnd.
  assert (Hid : forall x, x ∈ pre -> bs_id x <> bs_id b).
  { intros x Hx Heq. assert (Hxw : x ∈ written idx) by (rewrite Hw; apply elem_of_app; by left).
    apply written_elem in Hxw as [kx Hkx]. destruct (tree_numbered _ _ Ht _ _ Hkx) as [E1 _].
    destruct (tree_numbered _ _ Ht _ _ Hk) as [E2 _]. assert (x = b) as -> by congruence.
    rewrite Hw in Hnd. apply NoDup_app in Hnd as (_ & Hd & _). apply (Hd b Hx). by left. }
  assert (Hnone : index db !! bs_id b = None).
  { destruct (index db !! bs_id b) as [x|] eqn:Ex; [|done]. apply Hpre in Ex as [Hx Heq]. by destruct (Hid x Hx). }
  assert (Hp : exists p, node_of r idx (bs_previous b) p /\
    ((bs_previous b = bs_id r /\ p = r) \/ (bs_previous b <> bs_id r /\ index db !! bs_previous b = Some p))).
  { destruct (decide (bs_previous b = bs_id r)) as [Heq|Hne].
    - exists r. split; [by left | by left].
    - destruct (written_parents r idx pre b post Ht Hlib Hw) as [?|(p & Hp & Hpi)]; [done|].
      exists p. split; [by right|]. right. split; [done|]. apply Hpre. split; [done|].
      by destruct (tree_numbered _ _ Ht _ _ Hpi). }
  destruct Hp as (p & Hnode & Hp).
  destruct (reopen_ok v r db b p Hroot (Hex k b Hk) (Hacc k b p Hk Hnode) Hp Hnone) as (db1 & Hr & Hroot1 & Hidx1).
  rewrite fmap_cons. cbn [mfold]. rewrite Hr. cbn [mbind result_bind].
  destruct (IH (pre ++ [b]) db1) as (db' & Hf & Hroot' & Hh); [by rewrite <- app_assoc | done | done | congruence | |].
  { intros j x. rewrite Hidx1, lookup_insert_Some, elem_of_app, list_elem_of_singleton, (Hpre j x).
    split; [intros [[<- <-]|[Hne [Hx <-]]]; auto|]. intros [[Hx|Hx] <-]; [right | subst x; by left].
    split; [|done]. intros Heq. by apply (Hid x Hx). }
  exists db'. split_and!; [done | congruence|]. by rewrite <- app_assoc in Hh.
Qed.

Lemma holds_index r idx idx' : tree r idx -> holds (written idx) idx' -> idx' = idx.
Proof.
  intros Ht Hh. apply map_eq. intros k. apply option_eq. intros b. rewrite (Hh k b), written_elem. split.
  - intros [[j Hj] <-]. by destruct (tree_numbered _ _ Ht _ _ Hj) as [-> _].
  - intros Hk. split; [by exists k|]. apply (tree_numbered _ _ Ht _ _ Hk).
Qed.

Lemma roundtrip_lemma v r h db db0 : inv r h db -> lib_grows (index db) ->
  (forall k b, index db !! k = Some b -> exts_kept b) ->
  (forall k b p, index db !! k = Some b -> node_of r (index db) (bs_previous b) p -> features_accepted v b p) ->
  open v (close db) db0 = Ok (mk_fork (index db) (Some (reopened_root r)) (head db)).
Proof.
  intros Hi Hlib Hex Hacc. pose proof Hi as [Hroot Hhead Ht Hb]. unfold close. rewrite Hroot, Hhead.
  unfold open. cbn [f_totem f_version f_root f_blocks f_head]. rewrite Z.eqb_refl. cbn [check mbind result_bind].
  change (check ((min_supported_version <=? max_supported_version) && (max_supported_version <=? max_supported_version))
    "Unsupported version of fork database file") with (@Ok unit tt). cbn [mbind result_bind].
  destruct (open_loop v r (index db) [] (written (index db)) (reset (bs (packed r))) Ht Hlib eq_refl Hex Hacc eq_refl)
    as (db' & Hf & Hroot' & Hh).
  { intros k b. split; [done|]. by intros [?%not_elem_of_nil _]. }
  unfold reopen, written in Hf. rewrite Hf. clear Hf. cbn [mbind result_bind of_option]. cbn [app] in Hh.
  apply (holds_index r) in Hh; [|done]. unfold the_root. rewrite Hroot', Hh. cbn [reset root of_option mbind result_bind].
  change (mk_bs (bs (packed r)) None true) with (reopened_root r). change (bs_id (reopened_root r)) with (bs_id r).
  unfold get_block. rewrite Hh.
  assert (Hcases : (h = r) \/ (index db !! bs_id h = Some h /\ validated h = true /\ bs_id r <> bs_id h)).
  { destruct (best_head _ _ _ Hb) as [->|[Hhi Hv]]; [by left|]. right. split_and!; [done | done|].
    intros Heq. by rewrite <- Heq, (root_not_inside _ _ Ht) in Hhi. }
  unfold head_state, the_root, get_block. cbn [head root index of_option mbind result_bind].
  change (bs_id (reopened_root r)) with (bs_id r).
  assert (Hcand : forall c l, by_lib_block_num (index db) = c :: l ->
    (validated c = true /\ first_preferred c h = false) \/ (validated c = false /\ h = r)).
  { intros c l El. destruct (by_lib_first _ _ _ El) as [[k Hk] _]. destruct (validated c) eqn:Hv.
    - left. split; [done|]. by apply (best_all _ _ _ Hb k).
    - right. split; [done|]. destruct Hcases as [?|(Hhi & Hvh & _)]; [done|].
      by rewrite (none_validated _ _ _ _ _ El Hv Hhi) in Hvh. }
  destruct Hcases as [->|(Hhi & Hvh & Hne)].
  - rewrite bool_decide_eq_true_2 by done. cbn [mbind result_bind].
    destruct (by_lib_block_num (index db)) as [|c l]; [by rewrite bool_decide_eq_true_2|].
    destruct (Hcand c l eq_refl) as [[-> Hp]|[-> _]]; [|by rewrite bool_decide_eq_true_2].
    change (first_preferred c (reopened_root r)) with (first_preferred c r). by rewrite Hp.
  - rewrite bool_decide_eq_false_2 by done. rewrite Hhi. cbn [of_option mbind result_bind].
    destruct (by_lib_block_num (index db)) as [|c l] eqn:El; [apply by_lib_nil in El; by rewrite El in Hhi|].
    destruct (Hcand c l eq_refl) as [[-> Hp]|[Hv Heq]]; [by rewrite Hp|].
    subst h. done.
Qed.
End File.
