(* ===== verification/ForkRuns.v ===== *)
(** * The fork database in use

    Block states made by the header rules satisfy what the fork database
    relies on; the theorems about it; and concrete databases. *)

From stdpp Require Import base numbers list gmap strings sorting.
From Stdlib Require Import ZArith Lia.
From S2P Require Import Prelude Boost Merkle BlockHeader BlockHeaderState BlockHeaderSpec DposSpec DposRuns.
From S2P Require Import ForkDatabase ForkDatabaseSpec ForkFile.
Local Open Scope Z_scope.

Section Use.
Context {key sig receipt : Type} `{EqDecision key} `{crypto : HeaderCrypto key sig}.
#[local] Abbreviation bhs := (block_header_state key sig).
#[local] Abbreviation block_state := (block_state key sig receipt).
#[local] Abbreviation fork_database := (fork_database key sig receipt).
#[local] Abbreviation table := (gmap digest block_state).
#[local] Abbreviation validator := (Z -> gset digest -> list digest -> result unit).

(** ** Received blocks *)

Lemma finish_next_exts p h (v : validator) skip (b' : bhs) : finish_next p h v skip = Ok b' ->
  validate_and_extract_header_extensions (sb_header h) = Ok (header_exts b').
Proof.
  unfold finish_next, _finish_next. intros H. ok_bind H as b Hb.
  ok_bind Hb as ? Ht. ok_bind Hb as ? Hp. ok_bind Hb as ? Hc. ok_bind Hb as ? Hpr. ok_bind Hb as ? _.
  ok_bind Hb as ? Hnew. ok_bind Hb as exts He. ok_bind Hb as features _. ok_bind H as ? Hsig.
  apply (proj1 (Ok_inj _ _)) in Hb, H. subst b' b. done.
Qed.

Lemma num_from_id_range id : is_u32 (num_from_id id).
Proof. apply reverse_range. Qed.

Lemma new_block_linked (prev : bhs) blk (v : validator) skip (b : block_state) :
  num_from_id (b_id prev) = block_num (b_common prev) -> block_num (b_common prev) < UINT32_MAX ->
  new_block_state prev blk v skip = Ok b -> linked b /\ exts_kept b /\ bs_previous b = b_id prev.
Proof.
  intros Hn Hlt H. unfold new_block_state in H. ok_bind H as s Hs. apply (proj1 (Ok_inj _ _)) in H. subst b.
  unfold next_header in Hs. ok_bind Hs as p Hp. pose proof (finish_next_exts _ _ _ _ _ Hs) as He.
  apply next_inv in Hp as (prokey & merkle & cc & hit & _ & _ & _ & _ & _ & _ & Hp).
  apply finish_next_inv in Hs as (exts & features & _ & Hprev & _ & _ & _ & Hb & _).
  pose proof (num_from_id_range (b_id prev)) as Hr. unfold is_u32, UINT32_MAX in *.
  assert (Hpp : p_previous p = b_id prev) by by rewrite Hp.
  assert (Hpn : block_num (p_common p) = block_num (b_common prev) + 1).
  { rewrite Hp. cbn [p_common block_num]. apply u32_small. unfold is_u32. lia. }
  split_and!.
  - unfold linked, bs_id, bs_num, bs_previous. cbn [bs]. rewrite Hb. cbn [b_id b_common b_header].
    rewrite id_carries_num_lemma. unfold block_num_of. rewrite Hprev, Hpp, Hpn, Hn. split; [|done].
    apply u32_small. unfold is_u32. lia.
  - exists blk. cbn [bs_block bs]. done.
  - unfold bs_previous. cbn [bs]. rewrite Hb. cbn [b_header]. congruence.
Qed.

Lemma create_block_state_linked v blk (db : fork_database) r h b : inv r h db ->
  (forall k x, index db !! k = Some x -> bs_num x < UINT32_MAX) -> bs_num r < UINT32_MAX ->
  create_block_state v blk db = Ok b -> linked b /\ exts_kept b.
Proof.
  intros Hi Hlt Hr H. unfold create_block_state, get_block_header, the_root, get_block in H.
  rewrite (inv_root _ _ _ Hi) in H. ok_bind H as ? _. cbn [of_option mbind result_bind] in H. ok_bind H as prev Hp.
  apply of_option_ok in Hp. pose proof (inv_tree _ _ _ Hi) as Ht.
  assert (Hprev : num_from_id (bs_id prev) = bs_num prev /\ bs_num prev < UINT32_MAX).
  { case_bool_decide; [injection Hp as <-; split; [apply (tree_root_num _ _ Ht) | done]|].
    destruct (tree_numbered _ _ Ht _ _ Hp) as (-> & -> & _). split; [done | by eapply Hlt]. }
  destruct Hprev as [H1 H2]. destruct (new_block_linked _ _ _ _ _ H1 H2 H) as (? & ? & _). done.
Qed.

(** ** The theorems *)

(** The fork database stays a tree that hangs from its root, with ids and
    numbers in agreement, whose head is the root or a validated block to which
    no validated block is preferred, through every sequence of resets,
    additions, validations, removals, moves of the root and rollbacks. (C17) *)
Theorem fork_db_invariant (ops : list fork_op) (db db' : fork_database) (r h : block_state) : inv r h db ->
  Forall fork_op_ok ops -> mfold fork_exec ops db = Ok db' -> exists r' h', inv r' h' db'.
Proof. intros Hi Hok Hrun. by eapply fork_run_inv. Qed.

(** Moving the root to a validated block succeeds exactly when the head is
    built on that block, and then keeps exactly the blocks built on it: every
    other branch goes. *)
Theorem advance_root_prunes (db : fork_database) r h id nr : inv r h db -> index db !! id = Some nr ->
  validated nr = true ->
  match advance_root id db with
  | Ok db' => inv nr h db' /\ descends (index db) id (bs_id h) /\
      forall x b, index db' !! x = Some b <-> index db !! x = Some b /\ x <> id /\ descends (index db) id x
  | Err _ => ~ descends (index db) id (bs_id h)
  end.
Proof.
  intros Hi Hid Hv. pose proof (advance_root_ok r h db id nr Hi Hid Hv) as Ha.
  pose proof (advance_root_inv r h db id nr) as Hinv. destruct (advance_root id db) as [db'|e]; [|done].
  destruct Ha as (_ & _ & Hd & Hidx). split; [by apply Hinv | done].
Qed.

(** Removing a block takes it and everything built on it out of the index and
    nothing else, and is refused exactly when the head would go. *)
Theorem remove_subtree (db : fork_database) r h id : inv r h db ->
  match remove id db with
  | Ok db' => inv r h db' /\ ~ descends (index db) id (bs_id h) /\
      forall x b, index db' !! x = Some b <-> index db !! x = Some b /\ ~ descends (index db) id x
  | Err _ => descends (index db) id (bs_id h)
  end.
Proof.
  intros Hi. pose proof (remove_ok id db (bs_id h) (tree_numbered _ _ (inv_tree _ _ _ Hi)) (inv_head _ _ _ Hi)) as Hr.
  pose proof (remove_inv r h db id) as Hinv. destruct (remove id db) as [db'|e]; [|done].
  destruct Hr as (_ & _ & Hd & Hidx). split; [by apply Hinv | done].
Qed.

(** The two branches [fetch_branch_from] returns for blocks of the database
    lead from the two blocks to one and the same block, and share no block:
    they end right above the latest common ancestor. *)
Theorem branches_meet (db : fork_database) r h x y : inv r h db ->
  x = bs_id r \/ is_Some (index db !! x) -> y = bs_id r \/ is_Some (index db !! y) ->
  exists l m a, fetch_branch_from db x y = Ok (l, m) /\ path (index db) x l a /\ path (index db) y m a /\
    forall u v, u ∈ l -> v ∈ m -> bs_id u <> bs_id v.
Proof. apply branch_from_lemma. Qed.

(** [fetch_branch] of a block lists the blocks from it down to the root,
    without those above the limit, and [search_on_branch] finds the block with
    a given number among them; both always return. *)
Theorem branch_to_root (db : fork_database) r h b : inv r h db -> index db !! bs_id b = Some b ->
  exists l, path (index db) (bs_id b) l (bs_id r) /\
    (forall trim, fetch_branch db (bs_id b) trim = Ok (filter (fun s => bs_num s <= trim) l)) /\
    (forall num, search_on_branch db (bs_id b) num = Ok (List.find (fun s => bs_num s =? num) l)).
Proof.
  intros Hi Hb. pose proof (inv_tree _ _ _ Hi) as Ht.
  destruct (branch_ok (size (index db)) r (index db) b Ht Hb) as (l & Hl & Hp & Hs).
  { apply depth_size; [done | by right]. }
  exists l. split_and!; [done | | done]. intros trim. unfold fetch_branch. by rewrite Hl.
Qed.

(** The pending head is a block to which no block of the database, validated
    or not, is preferred. *)
Theorem pending_head_best (db : fork_database) r h : inv r h db ->
  exists p, pending_head db = Ok p /\ (p = h \/ index db !! bs_id p = Some p) /\
    forall k b, index db !! k = Some b -> first_preferred b p = false.
Proof. apply pending_best. Qed.

(** Closing the fork database and opening the file again restores index and
    head, and the root up to its block and header extensions, when the last
    irreversible block number does not decrease along branches and the
    validator accepts what the blocks activate. *)
Theorem fork_file_roundtrip v (db db0 : fork_database) r h : inv r h db -> lib_grows (index db) ->
  (forall k b, index db !! k = Some b -> exts_kept b) ->
  (forall k b p, index db !! k = Some b -> node_of r (index db) (bs_previous b) p -> features_accepted v b p) ->
  open v (close db) db0 = Ok (mk_fork (index db) (Some (reopened_root r)) (head db)).
Proof. apply roundtrip_lemma. Qed.
End Use.

(** ** Concrete databases *)

#[local] Existing Instance toy_crypto.
#[local] Abbreviation zstate := (block_state Z Z Z).

(** A block with number [num], last irreversible number [lib] and id [(num, tag)]. *)
Definition num_id (num tag : Z) : digest := mk_digest (endian_reverse_u32 num) tag 0 0.
Definition small_state (num lib : Z) (id prev : digest) : block_header_state Z Z :=
  mk_bhs (mk_common num 0 lib (mk_schedule 0 []) incremental_empty ∅ ∅ 0 []) id
    (mk_signed (mk_header num 0 0 prev digest_zero digest_zero 0 None []) 0)
    (mk_sinfo 0 digest_zero (mk_schedule 0 [])) ∅ [].
Definition small_block (num lib tag prev_tag : Z) (valid : bool) : zstate :=
  let s := small_state num lib (num_id num tag) (num_id (num - 1) prev_tag) in
  mk_bs s (Some (mk_block (b_header s) [] [])) valid.

(** Root 10; a branch 11, 12 that was validated and a branch 11, 12, 13 that
    was only received. *)
Definition demo_ops : list (fork_op (receipt := Z)) :=
  [OpAdd (small_block 11 5 1 0 false) false; OpMarkValid (small_block 11 5 1 0 false);
   OpAdd (small_block 12 6 1 1 false) false; OpMarkValid (small_block 12 6 1 1 false);
   OpAdd (small_block 11 5 2 0 false) false; OpAdd (small_block 12 5 2 2 false) false;
   OpAdd (small_block 13 5 2 2 false) false].
Definition demo_root : block_header_state Z Z := small_state 10 5 (num_id 10 0) digest_zero.
Definition demo_db : fork_database Z Z Z := from_ok fork_empty (mfold fork_exec demo_ops (reset demo_root)).

Definition demo_index : gmap digest zstate :=
  list_to_map ((fun b => (bs_id b, b)) <$>
    [small_block 11 5 1 0 true; small_block 12 6 1 1 true; small_block 11 5 2 0 false;
     small_block 12 5 2 2 false; small_block 13 5 2 2 false]).

Lemma demo_db_eq : demo_db = mk_fork demo_index (Some (mk_bs demo_root None true)) (Some (num_id 12 1)).
Proof. vm_compute. reflexivity. Qed.

Lemma demo_run : mfold fork_exec demo_ops (reset demo_root) = Ok demo_db.
Proof. apply from_ok_eq. vm_compute. reflexivity. Qed.

Lemma demo_ops_ok : Forall fork_op_ok demo_ops.
Proof. repeat constructor. Qed.

Lemma demo_start : inv (mk_bs demo_root None true) (mk_bs demo_root None true) (reset demo_root : fork_database Z Z Z).
Proof. apply reset_inv. reflexivity. Qed.

Definition demo_head : zstate := small_block 12 6 1 1 true.

Lemma demo_inv : inv (mk_bs demo_root None true) demo_head demo_db.
Proof.
  destruct (fork_run_inv _ _ _ _ _ demo_start demo_ops_ok demo_run) as (r & h & Hi).
  assert (Hr : r = mk_bs demo_root None true).
  { pose proof (inv_root _ _ _ Hi) as Hr. rewrite demo_db_eq in Hr. cbn [root] in Hr. by injection Hr as <-. }
  subst r. enough (h = demo_head) by by subst h.
  pose proof (inv_head _ _ _ Hi) as Hh. rewrite demo_db_eq in Hh. cbn [head] in Hh. injection Hh as Hh.
  destruct (best_head _ _ _ (inv_best _ _ _ Hi)) as [->|[Hb _]]; [discriminate Hh|].
  rewrite <- Hh, demo_db_eq in Hb. cbn [index] in Hb.
  assert (Hd : demo_index !! num_id 12 1 = Some demo_head) by (vm_compute; reflexivity). congruence.
Qed.

Lemma fork_db_invariant_witness : exists r' h', inv r' h' demo_db.
Proof.
  apply (fork_db_invariant demo_ops (reset demo_root) demo_db (mk_bs demo_root None true) (mk_bs demo_root None true));
    [apply demo_start | apply demo_ops_ok | apply demo_run].
Defined.

Lemma demo_lookup num lib tag prev_tag valid : demo_index !! num_id num tag = Some (small_block num lib tag prev_tag valid) ->
  index demo_db !! num_id num tag = Some (small_block num lib tag prev_tag valid).
Proof. by rewrite demo_db_eq. Qed.

Lemma advance_root_prunes_witness :
  match advance_root (num_id 11 1) demo_db with
  | Ok db' => inv (small_block 11 5 1 0 true) demo_head db' /\
      descends (index demo_db) (num_id 11 1) (bs_id demo_head) /\
      forall x b, index db' !! x = Some b <->
        index demo_db !! x = Some b /\ x <> num_id 11 1 /\ descends (index demo_db) (num_id 11 1) x
  | Err _ => ~ descends (index demo_db) (num_id 11 1) (bs_id demo_head)
  end.
Proof.
  apply (advance_root_prunes demo_db (mk_bs demo_root None true) demo_head);
    [apply demo_inv | apply demo_lookup; vm_compute; reflexivity | reflexivity].
Defined.

Lemma remove_subtree_witness :
  match remove (num_id 12 2) demo_db with
  | Ok db' => inv (mk_bs demo_root None true) demo_head db' /\
      ~ descends (index demo_db) (num_id 12 2) (bs_id demo_head) /\
      forall x b, index db' !! x = Some b <-> index demo_db !! x = Some b /\ ~ descends (index demo_db) (num_id 12 2) x
  | Err _ => descends (index demo_db) (num_id 12 2) (bs_id demo_head)
  end.
Proof. apply (remove_subtree demo_db (mk_bs demo_root None true) demo_head), demo_inv. Defined.

Lemma branches_meet_witness :
  exists l m a, fetch_branch_from demo_db (num_id 13 2) (num_id 12 1) = Ok (l, m) /\
    path (index demo_db) (num_id 13 2) l a /\ path (index demo_db) (num_id 12 1) m a /\
    forall u v, u ∈ l -> v ∈ m -> bs_id u <> bs_id v.
Proof.
  apply (branches_meet demo_db (mk_bs demo_root None true) demo_head); [apply demo_inv | right | right];
    eexists; apply demo_lookup; vm_compute; reflexivity.
Defined.

Lemma branch_to_root_witness :
  exists l, path (index demo_db) (bs_id demo_head) l (num_id 10 0) /\
    (forall trim, fetch_branch demo_db (bs_id demo_head) trim = Ok (filter (fun s => bs_num s <= trim) l)) /\
    (forall num, search_on_branch demo_db (bs_id demo_head) num = Ok (List.find (fun s => bs_num s =? num) l)).
Proof.
  apply (branch_to_root demo_db (mk_bs demo_root None true) demo_head); [apply demo_inv|].
  apply (demo_lookup 12 6 1 1 true). vm_compute. reflexivity.
Defined.

Lemma pending_head_best_witness :
  exists p, pending_head demo_db = Ok p /\ (p = demo_head \/ index demo_db !! bs_id p = Some p) /\
    forall k b, index demo_db !! k = Some b -> first_preferred b p = false.
Proof. apply (pending_head_best demo_db (mk_bs demo_root None true) demo_head), demo_inv. Defined.

Lemma demo_blocks k b : index demo_db !! k = Some b ->
  b ∈ [small_block 11 5 1 0 true; small_block 12 6 1 1 true; small_block 11 5 2 0 false;
       small_block 12 5 2 2 false; small_block 13 5 2 2 false] /\ k = bs_id b.
Proof.
  rewrite demo_db_eq. cbn [index]. intros Hk. apply elem_of_list_to_map_2, list_elem_of_fmap in Hk as (x & Hx & Hin).
  by injection Hx as -> ->.
Qed.

Lemma demo_lib : lib_grows (index demo_db).
Proof.
  intros k b p [Hb _]%demo_blocks Hp. apply demo_blocks in Hp as [Hp Hid].
  rewrite !elem_of_cons in Hb, Hp. destruct_or?; try (by apply elem_of_nil in Hb); try (by apply elem_of_nil in Hp);
    subst; try discriminate Hid; cbn; lia.
Qed.

Lemma fork_file_roundtrip_witness :
  open (fun _ _ _ => Ok tt) (close demo_db) fork_empty =
  Ok (mk_fork (index demo_db) (Some (reopened_root (mk_bs demo_root None true))) (head demo_db)).
Proof.
  apply (fork_file_roundtrip (fun _ _ _ => Ok tt) demo_db fork_empty (mk_bs demo_root None true) demo_head).
  - apply demo_inv.
  - apply demo_lib.
  - intros k b [Hb _]%demo_blocks. rewrite !elem_of_cons in Hb.
    destruct_or?; try (by apply elem_of_nil in Hb); subst; eexists; split; reflexivity.
  - intros k b p _ _ fs rest _. reflexivity.
Defined.

(** When the last irreversible block number of a block is below that of its
    predecessor, as in [lib_goes_back], the block does not become the head
    when it is marked valid, and the file that is written cannot be opened. *)
Example lib_back_stuck :
  let b19 := small_block 19 14 1 0 false in
  let b20 := small_block 20 3 1 1 false in
  let db := from_ok fork_empty (mfold fork_exec [OpAdd b19 false; OpMarkValid b19; OpAdd b20 false; OpMarkValid b20]
              (reset (small_state 18 13 (num_id 18 0) digest_zero))) in
  head db = Some (bs_id b19) /\ validated <$> index db !! bs_id b20 = Some true /\
  open (fun _ _ _ => Ok tt) (close db) fork_empty = Err "unlinkable block".
Proof. intros b19 b20 db. split_and!; vm_compute; reflexivity. Qed.
