(* ===== verification/Controller.v ===== *)
(** * Applying blocks and switching forks ([controller.cpp])

    The part of the controller that receives blocks: it keeps the head, the
    fork database, the chain database with one undo state per reversible block,
    the reversible blocks and the block log in step.  What executing a block
    does to the tables is an interface, which BlockExecution implements; a table
    with undo states stands for the tables of the past, as [chainbase_refines]
    shows, so the chain database is the current tables and the older ones. *)

From stdpp Require Import base numbers list gmap strings.
From Stdlib Require Import ZArith Lia.
From S2P Require Import Prelude Boost Merkle BlockHeader BlockHeaderState ForkDatabase.
Local Open Scope Z_scope.

Inductive block_status := irreversible | validated_status | complete | incomplete.
Inductive db_read_mode := SPECULATIVE | HEAD | READ_ONLY | IRREVERSIBLE.
#[global] Instance db_read_mode_eq_dec : EqDecision db_read_mode.
Proof. solve_decision. Defined.

(** ** The chain database *)

Section ChainDb.
Context {tables : Type}.
Record chain_db := mk_db { db_cur : tables; db_undo_stack : list tables; db_revision : Z }.

(** A session that is pushed. *)
Definition db_push (t : tables) (d : chain_db) : chain_db :=
  mk_db t (db_cur d :: db_undo_stack d) (db_revision d + 1).
Definition db_undo (d : chain_db) : chain_db :=
  match db_undo_stack d with
  | [] => d
  | t :: rest => mk_db t rest (db_revision d - 1)
  end.
(** The undo states of the revisions up to [r] are dropped. *)
Definition db_commit (r : Z) (d : chain_db) : chain_db :=
  mk_db (db_cur d) (take (Z.to_nat (db_revision d - r)) (db_undo_stack d)) (db_revision d).
End ChainDb.
Arguments chain_db : clear implicits.

(** ** Execution of blocks *)

(** The tables after executing a block, or an exception; a block that passes
    all checks gives the same result when it is executed again as one known to
    be valid, with fewer checks.  BlockExecution has the instance for the
    execution of transactions. *)
Class Execution (key sig receipt tables : Type) := {
  execute : block_status -> signed_block key sig receipt -> tables -> result tables;
  execute_again : forall b t t', execute complete b t = Ok t' -> execute validated_status b t = Ok t';
}.

Section Controller.
Context {key sig receipt tables : Type} `{EqDecision key} `{crypto : HeaderCrypto key sig}.
Context `{exec : Execution key sig receipt tables}.
#[local] Abbreviation block_state := (block_state key sig receipt).
#[local] Abbreviation signed_block := (signed_block key sig receipt).
#[local] Abbreviation fork_database := (fork_database key sig receipt).

Variable read_mode : db_read_mode.
Variable first_block_num : Z.

(** [head] is a pointer to a block state of the fork database or its root;
    the block log holds the newest block first. *)
Record controller := mk_ctl {
  c_head : block_state; c_fork : fork_database; c_db : chain_db tables;
  c_reversible : gmap Z signed_block; c_log : list signed_block }.

(** Exceptions leave the changes made before them. *)
Definition ctl (A : Type) : Type := controller -> controller * result A.
#[global] Instance ctl_ret : MRet ctl := fun A a c => (c, Ok a).
#[global] Instance ctl_bind : MBind ctl := fun A B f m c =>
  match m c with
  | (c, Ok a) => f a c
  | (c, Err e) => (c, Err e)
  end.
Definition get_ctl : ctl controller := fun c => (c, Ok c).
Definition put_ctl (c : controller) : ctl unit := fun _ => (c, Ok tt).
Definition lift {A} (r : result A) : ctl A := fun c => (c, r).
Definition throw {A} (e : string) : ctl A := fun c => (c, Err e).
(** [try]: the outcome as a value. *)
Definition try {A} (m : ctl A) : ctl (result A) := fun c => let '(c, r) := m c in (c, Ok r).

(** A call of the fork database. *)
Definition on_fork (f : fork_database -> result fork_database) : ctl unit := fun c =>
  match f (c_fork c) with
  | Ok d => (mk_ctl (c_head c) d (c_db c) (c_reversible c) (c_log c), Ok tt)
  | Err e => (c, Err e)
  end.

(** [head = b]: the object the pointer leads to. *)
Definition set_head (b : block_state) : ctl unit := fun c =>
  (mk_ctl (default b (get_block (c_fork c) (bs_id b))) (c_fork c) (c_db c) (c_reversible c) (c_log c), Ok tt).

Fixpoint times (n : nat) (m : ctl unit) : ctl unit :=
  match n with O => mret tt | S n => m ≫= fun _ => times n m end.

(** [apply_block], with [start_block] and [commit_block(false)]: a failure
    discards the session, so that nothing changes. *)
Definition apply_block (bsp : block_state) (s : block_status) : ctl unit :=
  c ← get_ctl;
  b ← lift (of_option (bs_block bsp) "null block");
  lift (check (Nat.eqb (length (block_extensions b)) 0) "no supported block extensions") ≫= fun _ =>
  lift (check (db_revision (c_db c) =? bs_num (c_head c)) "db revision is not on par with head block") ≫= fun _ =>
  t ← lift (execute s b (db_cur (c_db c)));
  rev ← (if bool_decide (read_mode = IRREVERSIBLE) then mret (c_reversible c)
         else match c_reversible c !! bs_num bsp with
              | Some _ => throw "could not insert object, most likely a uniqueness constraint was violated"
              | None => mret (<[bs_num bsp := b]> (c_reversible c))
              end);
  put_ctl (mk_ctl (c_head c) (c_fork c) (db_push t (c_db c)) rev (c_log c)).

Definition pop_block : ctl unit :=
  c ← get_ctl;
  let previous := bs_previous (c_head c) in
  prev ← (match get_block (c_fork c) previous with
          | Some prev => mret prev
          | None =>
            r ← lift (the_root (c_fork c));
            lift (check (bool_decide (bs_id r = previous)) "attempt to pop beyond last irreversible block") ≫= fun _ =>
            mret r
          end);
  let rev := delete (bs_num (c_head c)) (c_reversible c) in
  put_ctl (mk_ctl (c_head c) (c_fork c) (c_db c) rev (c_log c)) ≫= fun _ =>
  (if bool_decide (read_mode = SPECULATIVE) then
     lift (of_option (bs_block (c_head c)) "attempting to pop a block that was sparsely loaded from a snapshot") ≫= fun _ =>
     mret tt
   else mret tt) ≫= fun _ =>
  put_ctl (mk_ctl prev (c_fork c) (db_undo (c_db c)) rev (c_log c)).

(** ** Irreversible blocks *)

Definition signed_num (b : signed_block) : Z := block_num_of (sb_header (sb_signed b)).
Definition signed_id (b : signed_block) : digest := id_of (sb_header (sb_signed b)).

(** [block_log::append] *)
Definition log_append (b : signed_block) (log : list signed_block) : result (list signed_block) :=
  check (Z.of_nat (length log) =? signed_num b - first_block_num) "Append to index file occuring at wrong position." ;;
  Ok (b :: log).

(** The loop of [log_irreversible]: the id of the last block that became
    irreversible, and the exception that ended it. *)
Fixpoint irreversible_loop (l : list block_state) (root_id : digest) : ctl (digest * option string) :=
  match l with
  | [] => mret (root_id, None)
  | b :: l =>
    r ← try (if bool_decide (read_mode = IRREVERSIBLE) then
               apply_block b complete ≫= fun _ => set_head b ≫= fun _ => on_fork (mark_valid b) ≫= fun _ =>
               set_head b (* the same object, now validated *)
             else mret tt);
    match r with
    | Err e => mret (root_id, Some e)
    | Ok _ =>
      c ← get_ctl;
      put_ctl (mk_ctl (c_head c) (c_fork c) (db_commit (bs_num b) (c_db c)) (c_reversible c) (c_log c)) ≫= fun _ =>
      match (blk ← of_option (bs_block b) "null block"; log_append blk (c_log c)) with
      | Err e => mret (bs_id b, Some e)
      | Ok log =>
        let rev := filter (fun x : Z * signed_block => bs_num b < x.1) (c_reversible c) in
        put_ctl (mk_ctl (c_head c) (c_fork c) (db_commit (bs_num b) (c_db c)) rev log) ≫= fun _ =>
        irreversible_loop l (bs_id b)
      end
    end
  end.

Definition log_irreversible : ctl unit :=
  c ← get_ctl;
  r ← lift (of_option (root (c_fork c)) "fork database not properly initialized");
  let lib_num := match c_log c with b :: _ => signed_num b | [] => first_block_num - 1 end in
  (match c_log c with
   | b :: _ => lift (check (bool_decide (bs_id r = signed_id b)) "fork database root does not match block log head")
   | [] => lift (check (bs_num r =? lib_num)
             "empty block log expects the first appended block to build off a block that is not the fork database root")
   end) ≫= fun _ =>
  fork_head ← lift (if bool_decide (read_mode = IRREVERSIBLE) then pending_head (c_fork c) else head_state (c_fork c));
  if bs_lib fork_head <=? lib_num then mret tt
  else
    branch ← lift (fetch_branch (c_fork c) (bs_id fork_head) (bs_lib fork_head));
    x ← irreversible_loop (reverse branch) (bs_id r);
    (if bool_decide (x.1 = bs_id r) then mret tt else on_fork (advance_root x.1)) ≫= fun _ =>
    match x.2 with Some e => throw e | None => mret tt end.

(** ** Switching forks *)

(** The good blocks again, after a bad one on the other branch. *)
Fixpoint reapply (l : list block_state) : ctl unit :=
  match l with
  | [] => mret tt
  | b :: l => apply_block b validated_status ≫= fun _ => set_head b ≫= fun _ => reapply l
  end.

(** What happens when a block of the new branch throws [e]. *)
Definition switch_back (bad : block_state) (applied : nat) (second : list block_state) (e : string) : ctl unit :=
  on_fork (remove (bs_id bad)) ≫= fun _ =>
  times applied pop_block ≫= fun _ =>
  oldest ← lift (of_option (last second) "back() of an empty vector");
  c ← get_ctl;
  lift (check (bool_decide (bs_id (c_head c) = bs_previous oldest))
    "loss of sync between fork_db and chainbase during fork switch reversal") ≫= fun _ =>
  reapply (reverse second) ≫= fun _ =>
  throw e.

(** The blocks of the new branch, oldest first. *)
Fixpoint apply_branch (l : list block_state) (applied : nat) (second : list block_state) : ctl unit :=
  match l with
  | [] => mret tt
  | b :: l =>
    r ← try (apply_block b (if validated b then validated_status else complete) ≫= fun _ =>
             on_fork (mark_valid b) ≫= fun _ => set_head b);
    match r with
    | Ok _ => apply_branch l (S applied) second
    | Err e => switch_back b applied second e
    end
  end.

Definition switch_forks (new_head : block_state) : ctl unit :=
  c ← get_ctl;
  branches ← lift (fetch_branch_from (c_fork c) (bs_id new_head) (bs_id (c_head c)));
  (match last branches.2 with
   | None => mret tt
   | Some oldest =>
     times (length branches.2) pop_block ≫= fun _ =>
     c ← get_ctl;
     lift (check (bool_decide (bs_id (c_head c) = bs_previous oldest))
       "loss of sync between fork_db and chainbase during fork switch")
   end) ≫= fun _ =>
  apply_branch (reverse branches.1) 0 branches.2.

Definition maybe_switch_forks (new_head : block_state) (s : block_status) : ctl unit :=
  c ← get_ctl;
  if bool_decide (bs_previous new_head = bs_id (c_head c)) then
    r ← try (apply_block new_head s ≫= fun _ => on_fork (mark_valid new_head) ≫= fun _ => set_head new_head);
    match r with
    | Ok _ => log_irreversible
    | Err e => on_fork (remove (bs_id new_head)) ≫= fun _ => throw e
    end
  else if negb (bool_decide (bs_id new_head = bs_id (c_head c))) then
    switch_forks new_head ≫= fun _ => log_irreversible
  else mret tt.

Definition push_block (bsp : block_state) : ctl unit :=
  on_fork (add bsp false) ≫= fun _ =>
  c ← get_ctl;
  if bool_decide (read_mode = IRREVERSIBLE) then log_irreversible
  else
    p ← lift (pending_head (c_fork c));
    maybe_switch_forks p complete.

(** [commit_block(true)] of a block the node produced: [t] are the tables its
    pending session holds. *)
Definition commit_produced (bsp : block_state) (t : tables) : ctl unit :=
  on_fork (add bsp false) ≫= fun _ =>
  on_fork (mark_valid bsp) ≫= fun _ =>
  c ← get_ctl;
  h ← lift (head_state (c_fork c));
  put_ctl (mk_ctl h (c_fork c) (c_db c) (c_reversible c) (c_log c)) ≫= fun _ =>
  lift (check (bool_decide (bs_id bsp = bs_id h)) "committed block did not become the new head in fork database") ≫= fun _ =>
  b ← lift (of_option (bs_block bsp) "null block");
  rev ← (if bool_decide (read_mode = IRREVERSIBLE) then mret (c_reversible c)
         else match c_reversible c !! bs_num bsp with
              | Some _ => throw "could not insert object, most likely a uniqueness constraint was violated"
              | None => mret (<[bs_num bsp := b]> (c_reversible c))
              end);
  put_ctl (mk_ctl h (c_fork c) (db_push t (c_db c)) rev (c_log c)) ≫= fun _ =>
  r ← try log_irreversible;
  match r with
  | Ok _ => mret tt
  | Err e =>
    c ← get_ctl;
    put_ctl (mk_ctl (c_head c) (c_fork c) (db_undo (c_db c)) (c_reversible c) (c_log c)) ≫= fun _ => throw e
  end.
End Controller.
