(* ===== verification/ControllerSpec.v ===== *)
(** * The controller keeps its parts in step

    The chain database holds what executing the branch of the head gives,
    through fork switches that succeed and through those that fail. *)

From stdpp Require Import base numbers list gmap strings sorting.
From Stdlib Require Import ZArith Lia.
From S2P Require Import Prelude Boost Merkle BlockHeader BlockHeaderState ForkDatabase ForkDatabaseSpec ForkFile.
From S2P Require Import Controller.
Local Open Scope Z_scope.

Section Spec.
Context {key sig receipt tables : Type} `{EqDecision key} `{crypto : HeaderCrypto key sig}.
Context `{exec : Execution key sig receipt tables}.
#[local] Abbreviation block_state := (block_state key sig receipt).
#[local] Abbreviation signed_block := (signed_block key sig receipt).
#[local] Abbreviation fork_database := (fork_database key sig receipt).
#[local] Abbreviation controller := (controller (key:=key) (sig:=sig) (receipt:=receipt) (tables:=tables)).
#[local] Abbreviation table := (gmap digest block_state).
Implicit Types (b r h : block_state) (idx : table) (c : controller) (l : list block_state).
Variable read_mode : db_read_mode.
Variable first_block_num : Z.
Hypothesis not_irreversible : read_mode <> IRREVERSIBLE.

(** ** Replaying a branch *)

(** Executing the blocks [l], newest first, on the tables [t0]: the tables
    before each of them, newest first, and the tables at the end. *)
Inductive replayed (t0 : tables) : list block_state -> list tables -> tables -> Prop :=
| replayed_nil : replayed t0 [] [] t0
| replayed_cons b l st t t' blk : replayed t0 l st t -> bs_block b = Some blk -> block_extensions blk = [] ->
    execute complete blk t = Ok t' -> replayed t0 (b :: l) (t :: st) t'.

Lemma replayed_fun t0 l st t st' t' : replayed t0 l st t -> replayed t0 l st' t' -> st = st' /\ t = t'.
Proof.
  intros Hr. revert st' t'. induction Hr as [|b l st t u blk Hr IH Hb _ He]; intros st' t' Hr'; inversion Hr' as [|? ? st2 u2 ? blk2 Hr2 Hb2 _ He2]; subst; [done|].
  destruct (IH _ _ Hr2) as [-> ->]. rewrite Hb in Hb2. injection Hb2 as <-. rewrite He in He2. by injection He2 as <-.
Qed.

Lemma replayed_app t0 l m st t : replayed t0 (l ++ m) st t ->
  exists t1, replayed t0 m (drop (length l) st) t1 /\ replayed t1 l (take (length l) st) t.
Proof.
  revert st t. induction l as [|b l IH]; intros st t Hr; [exists t; split; [by rewrite drop_0 | constructor]|].
  inversion Hr as [|? ? st' u ? blk Hr' Hb Hx He]; subst. destruct (IH _ _ Hr') as (t1 & Hm & Hl).
  exists t1. split; [done|]. simpl. by econstructor.
Qed.

Lemma replayed_length t0 l st t : replayed t0 l st t -> length st = length l.
Proof. induction 1; simpl; congruence. Qed.

(** Flags do not matter. *)
Lemma replayed_blocks t0 l l' st t : replayed t0 l st t -> bs_block <$> l = bs_block <$> l' -> replayed t0 l' st t.
Proof.
  intros Hr. revert l'. induction Hr as [|b l st t u blk Hr IH Hb Hx He]; intros [|b' l'] Heq; try done; [constructor|].
  injection Heq as Hbb Hl. apply (replayed_cons _ _ _ _ _ _ blk); [by apply IH | congruence | done | done].
Qed.

(** ** Paths *)

Lemma path_cons_inv idx x b l a : path idx x (b :: l) a -> idx !! x = Some b /\ path idx (bs_previous b) l a.
Proof. intros Hp. by inversion Hp. Qed.

Lemma path_nil_inv idx x a : path idx x [] a -> x = a.
Proof. intros Hp. by inversion Hp. Qed.

Lemma replayed_cons_inv t0 b l st t : replayed t0 (b :: l) st t -> exists t1 st1 blk, st = t1 :: st1 /\
  replayed t0 l st1 t1 /\ bs_block b = Some blk /\ block_extensions blk = [] /\ execute complete blk t1 = Ok t.
Proof. intros Hr. inversion Hr as [|? ? st1 t1 ? blk]; subst. by exists t1, st1, blk. Qed.

Lemma path_fun idx x l m a (e : digest) : idx !! e = None -> path idx x l e -> path idx x m a ->
  exists l0, l = m ++ l0 /\ path idx a l0 e.
Proof.
  intros Hr Hl Hm. revert l Hl. induction Hm as [x|x b m a Hx Hm IH]; intros l Hl; [by exists l|].
  inversion Hl as [|? b' l' ? Hx' Hl']; simplify_eq. destruct (IH _ Hl') as (l0 & -> & H0). by exists l0.
Qed.

Lemma path_same idx x l m (e : digest) : idx !! e = None -> path idx x l e -> path idx x m e -> l = m.
Proof.
  intros Hr Hl Hm. destruct (path_fun _ _ _ _ _ _ Hr Hl Hm) as (l0 & -> & H0).
  inversion H0; simplify_eq. by rewrite app_nil_r.
Qed.

Lemma path_sub idx idx' x l a : path idx x l a -> (forall b, b ∈ l -> idx' !! bs_id b = Some b) -> numbered idx ->
  path idx' x l a.
Proof.
  intros Hp Hall Hn. induction Hp as [|x b l a Hx Hp IH]; [constructor|].
  destruct (Hn x b Hx) as [Hid _]. econstructor; [rewrite <- Hid; apply Hall; by left|].
  apply IH. intros b' Hb'. apply Hall. by right.
Qed.

(** The last block of a path is built on its end. *)
Lemma path_last idx x l a b : path idx x l a -> last l = Some b -> bs_previous b = a.
Proof.
  induction 1 as [|x c l a Hx Hp IH]; [done|]. destruct l as [|c' l]; simpl; [|apply IH].
  intros [= <-]. by inversion Hp.
Qed.

Lemma path_nums idx x l a : numbered idx -> path idx x l a ->
  StronglySorted (fun b b' => bs_num b' < bs_num b) l /\ Forall (fun b => num_from_id a < bs_num b) l.
Proof.
  intros Hn. induction 1 as [|x b l a Hx Hp [IH1 IH2]]; [by split; constructor|].
  destruct (Hn x b Hx) as (_ & Hnum & Hprev). split; constructor; try done.
  - apply Forall_forall. intros b' Hb'. destruct (path_bound _ _ _ _ _ Hn Hp Hb') as [_ ?]. lia.
  - clear -Hp IH2 Hprev Hn. destruct l as [|b' l]; inversion Hp; subst; [lia|].
    apply Forall_cons in IH2 as [? _]. destruct (Hn _ _ ltac:(eassumption)) as (_ & ? & _). lia.
Qed.

Lemma path_end idx x l a : path idx x l a -> descends idx a x.
Proof. induction 1 as [|x b l a Hx Hp IH]; [apply descends_refl | by apply (descends_step _ _ x b)]. Qed.

Lemma path_descends idx x l a b : path idx x l a -> b ∈ l -> numbered idx -> descends idx a (bs_id b).
Proof.
  intros Hp Hb Hn. induction Hp as [|x c l a Hx Hp IH]; [by apply elem_of_nil in Hb|].
  apply elem_of_cons in Hb as [->|Hb]; [|by apply IH]. destruct (Hn x c Hx) as [-> _].
  eapply descends_step; [done|]. by eapply path_end.
Qed.

(** ** The invariant *)

(** A block state has its block. *)
Definition whole (b : block_state) : Prop := exists blk, bs_block b = Some blk /\
  signed_id blk = bs_id b /\ signed_num blk = bs_num b.

(** What was validated is built on validated blocks, and was executed. *)
Definition executed r t0 idx : Prop := forall k b, idx !! k = Some b -> validated b = true ->
  exists m st t, path idx k m (bs_id r) /\ Forall (fun b => validated b = true) m /\ replayed t0 m st t.

Record fork_ok r h (t0 : tables) (d : fork_database) : Prop := {
  fo_inv : inv r h d;
  fo_whole k b : index d !! k = Some b -> whole b;
  fo_exec : executed r t0 (index d) }.

Definition reversible_of (l : list block_state) : gmap Z signed_block :=
  foldr (fun b m => match bs_block b with Some blk => <[bs_num b := blk]> m | None => m end) ∅ l.

(** The block log ends with the root. *)
Definition log_ok r (log : list signed_block) : Prop :=
  Z.of_nat (length log) = bs_num r + 1 - first_block_num /\
  match log with blk :: _ => signed_id blk = bs_id r /\ signed_num blk = bs_num r | [] => True end.

(** [l] is the branch from the root [r], whose tables are [t0], to the head. *)
Record synced r h (t0 : tables) (l : list block_state) (c : controller) : Prop := {
  sy_fork : fork_ok r h t0 (c_fork c);
  sy_head : c_head c = hd r l;
  sy_path : path (index (c_fork c)) (bs_id (c_head c)) l (bs_id r);
  sy_valid : Forall (fun b => validated b = true) l;
  sy_replay : replayed t0 l (db_undo_stack (c_db c)) (db_cur (c_db c));
  sy_rev : db_revision (c_db c) = bs_num (c_head c);
  sy_reversible : c_reversible c = reversible_of l;
  sy_log : log_ok r (c_log c) }.

Lemma fo_tree r h t0 d : fork_ok r h t0 d -> tree r (index d).
Proof. intros Hf. apply (inv_tree _ _ _ (fo_inv _ _ _ _ Hf)). Qed.

Lemma fo_numbered r h t0 d : fork_ok r h t0 d -> numbered (index d).
Proof. intros Hf. apply (tree_numbered _ _ (fo_tree _ _ _ _ Hf)). Qed.

Lemma reversible_below l n : Forall (fun b => bs_num b < n) l -> reversible_of l !! n = None.
Proof.
  induction 1 as [|b l Hb Hl IH]; [done|]. simpl. destruct (bs_block b); [|done]. rewrite lookup_insert_ne; [done|lia].
Qed.

(** The head of the branch. *)
Lemma path_head idx r l x : tree r idx -> path idx x l (bs_id r) -> bs_id (hd r l) = x.
Proof.
  intros Ht Hp. destruct l as [|b l]; inversion Hp as [|? b' ? ? Hx]; subst; [done|]. simpl.
  by destruct (tree_numbered _ _ Ht _ _ Hx).
Qed.

Lemma hd_num idx r b l : tree r idx -> path idx (bs_id b) (b :: l) (bs_id r) -> bs_num (hd r l) = bs_num b - 1.
Proof.
  intros Ht Hp. inversion Hp as [|? b' ? ? Hx Hp']; subst. pose proof (tree_previous _ _ _ _ Ht Hx) as Hn.
  pose proof (path_head idx r l _ Ht Hp') as Hh. destruct l as [|b2 l]; simpl in *.
  - rewrite <- Hh, (tree_root_num _ _ Ht) in Hn. done.
  - inversion Hp' as [|? b3 ? ? Hx2]; subst. destruct (tree_numbered _ _ Ht _ _ Hx2) as (_ & ? & _). lia.
Qed.

Lemma path_below r idx b l : tree r idx -> path idx (bs_id b) (b :: l) (bs_id r) -> Forall (fun x => bs_num x < bs_num b) l.
Proof.
  intros Ht Hp. destruct (path_nums _ _ _ _ (tree_numbered _ _ Ht) Hp) as [Hs _]. by apply StronglySorted_inv in Hs as [_ ?].
Qed.

(** ** Popping *)

Lemma pop_ok r h t0 b l c : synced r h t0 (b :: l) c ->
  exists c', pop_block read_mode c = (c', Ok tt) /\ synced r h t0 l c' /\ c_fork c' = c_fork c /\ c_log c' = c_log c.
Proof.
  intros [Hf Hh Hp Hv Hre Hrev Hrb Hlog]. simpl in Hh. pose proof (fo_tree _ _ _ _ Hf) as Ht.
  rewrite Hh in Hp. pose proof Hp as [Hx Hp']%path_cons_inv.
  destruct (fo_whole _ _ _ _ Hf _ _ Hx) as (blk & Hblk & _).
  assert (Hprev : (match get_block (c_fork c) (bs_previous b) with
      | Some prev => mret prev
      | None => r0 ← lift (the_root (c_fork c));
          lift (check (bool_decide (bs_id r0 = bs_previous b)) "attempt to pop beyond last irreversible block") ≫= fun _ => mret r0
      end : ctl block_state) c = (c, Ok (hd r l))).
  { unfold get_block. destruct l as [|b2 l]; [apply path_nil_inv in Hp' | apply path_cons_inv in Hp' as [Hx2 _]].
    - rewrite Hp', (root_not_inside _ _ Ht). unfold the_root.
      rewrite (inv_root _ _ _ (fo_inv _ _ _ _ Hf)).
      unfold lift, mbind, ctl_bind, mret, ctl_ret, of_option. by rewrite bool_decide_eq_true_2.
    - by rewrite Hx2. }
  unfold pop_block, mbind, ctl_bind, get_ctl. rewrite Hh.
  unfold mbind, ctl_bind in Hprev. rewrite Hprev. clear Hprev. rewrite Hblk.
  apply replayed_cons_inv in Hre as (t & st & blk2 & Hst & Hre & _). eexists. split.
  { unfold put_ctl, lift. case_bool_decide; reflexivity. }
  split_and!; [|done|done]. split; cbn [c_fork c_head c_db c_reversible c_log]; try done.
  - by rewrite (path_head _ _ _ _ Ht Hp').
  - by apply Forall_cons in Hv as [_ ?].
  - unfold db_undo. by rewrite Hst.
  - unfold db_undo. rewrite Hst. cbn [db_revision]. rewrite Hrev, Hh. symmetry. by apply (hd_num (index (c_fork c))).
  - rewrite Hrb. cbn [reversible_of foldr]. rewrite Hblk. apply delete_insert_id.
    apply reversible_below. by eapply path_below.
Qed.

Lemma pops_ok r h t0 m l c : synced r h t0 (m ++ l) c ->
  exists c', times (length m) (pop_block read_mode) c = (c', Ok tt) /\ synced r h t0 l c' /\
    c_fork c' = c_fork c /\ c_log c' = c_log c.
Proof.
  revert c. induction m as [|b m IH]; intros c Hs; [by exists c|].
  destruct (pop_ok _ _ _ _ _ _ Hs) as (c1 & Hp & Hs1 & Hf1 & Hl1). cbn [length times].
  destruct (IH c1 Hs1) as (c' & Ht & Hs' & Hf' & Hl'). exists c'. split_and!; [|done | congruence | congruence].
  unfold mbind, ctl_bind. by rewrite Hp.
Qed.

(** ** Applying *)

Lemma validated_eta b : validated b = true -> with_validated true b = b.
Proof. intros Hv. unfold with_validated. rewrite <- Hv. by destruct b. Qed.

Lemma synced_next r h t0 l c b : synced r h t0 l c -> index (c_fork c) !! bs_id b = Some b ->
  bs_previous b = bs_id (c_head c) -> path (index (c_fork c)) (bs_id b) (b :: l) (bs_id r).
Proof. intros Hs Hb Hp. eapply path_cons; [done|]. rewrite Hp. apply (sy_path _ _ _ _ _ Hs). Qed.

(** Blocks are executed with all checks until they are validated. *)
Definition fitting b (s : block_status) : Prop := s = complete \/ (s = validated_status /\ validated b = true).

Lemma apply_outcome r h t0 l c b s : synced r h t0 l c -> index (c_fork c) !! bs_id b = Some b ->
  bs_previous b = bs_id (c_head c) -> fitting b s ->
  (exists t', apply_block read_mode b s c =
     (mk_ctl (c_head c) (c_fork c) (db_push t' (c_db c)) (reversible_of (b :: l)) (c_log c), Ok tt) /\
     replayed t0 (b :: l) (db_cur (c_db c) :: db_undo_stack (c_db c)) t') \/
  ((exists e, apply_block read_mode b s c = (c, Err e)) /\ validated b = false).
Proof.
  intros Hs Hb Hprev Hfit. pose proof (synced_next _ _ _ _ _ _ Hs Hb Hprev) as Hp.
  pose proof Hs as [Hf Hh _ Hv Hre Hrev Hrb Hlog]. pose proof (fo_tree _ _ _ _ Hf) as Ht.
  destruct (fo_whole _ _ _ _ Hf _ _ Hb) as (blk & Hblk & _).
  assert (Hnone : c_reversible c !! bs_num b = None).
  { rewrite Hrb. apply reversible_below. by eapply path_below. }
  assert (Hagain : validated b = true -> block_extensions blk = [] /\
    exists t', execute complete blk (db_cur (c_db c)) = Ok t' /\ execute s blk (db_cur (c_db c)) = Ok t').
  { intros Hvb. destruct (fo_exec _ _ _ _ Hf _ _ Hb Hvb) as (m & st & t & Hm & _ & Hrm).
    pose proof (path_same _ _ _ _ _ (root_not_inside _ _ Ht) Hp Hm) as <-.
    apply replayed_cons_inv in Hrm as (t1 & st1 & blk1 & -> & Hr1 & Hb1 & Hx & He).
    destruct (replayed_fun _ _ _ _ _ _ Hre Hr1) as [_ <-]. rewrite Hblk in Hb1. injection Hb1 as <-.
    split; [done|]. exists t. split; [done|]. destruct Hfit as [->|[-> _]]; [done | by apply execute_again]. }
  unfold apply_block, mbind, ctl_bind, get_ctl, lift. rewrite Hblk. cbn [of_option].
  destruct (Nat.eqb_spec (length (block_extensions blk)) 0) as [Hx|Hx]; cbn [check].
  2: { right. split; [by eexists|]. destruct (validated b) eqn:Hvb; [|done]. destruct (Hagain eq_refl) as [Hx' _]. by rewrite Hx' in Hx. }
  rewrite Hrev, Z.eqb_refl. cbn [check].
  destruct (execute s blk (db_cur (c_db c))) as [t'|e] eqn:He.
  - left. exists t'. split.
    + rewrite bool_decide_eq_false_2 by done. rewrite Hnone. unfold mret, ctl_ret, put_ctl. rewrite Hrb.
      cbn [reversible_of foldr]. by rewrite Hblk.
    + econstructor; [done | done | by apply nil_length_inv |]. destruct Hfit as [->|[-> Hvb]]; [done|].
      destruct (Hagain Hvb) as [_ (t2 & Hc & Ht2)]. rewrite Hc. congruence.
  - right. split; [by eexists|]. destruct (validated b) eqn:Hvb; [|done]. destruct (Hagain eq_refl) as [_ (t' & _ & Ht')]. congruence.
Qed.

Lemma marked_keeps idx b x : idx !! bs_id b = Some b -> idx !! bs_id x = Some x -> validated x = true ->
  (<[bs_id b := with_validated true b]> idx) !! bs_id x = Some x.
Proof.
  intros Hb Hx Hv. destruct (decide (bs_id b = bs_id x)) as [Heq|]; [|by rewrite lookup_insert_ne].
  rewrite Heq, lookup_insert_eq. rewrite Heq, Hx in Hb. injection Hb as <-. by rewrite validated_eta.
Qed.

(** A path of validated blocks does not notice the mark. *)
Lemma marked_path idx b x m a : numbered idx -> idx !! bs_id b = Some b -> path idx x m a ->
  Forall (fun b => validated b = true) m -> path (<[bs_id b := with_validated true b]> idx) x m a.
Proof.
  intros Hn Hb Hp Hv. eapply path_sub; [done | |done]. intros y Hy.
  destruct (path_bound _ _ _ _ _ Hn Hp Hy) as [Hy' _]. rewrite Forall_forall in Hv. by apply marked_keeps; [| |apply Hv].
Qed.

Definition next_head b h : block_state := if validated b then h else marked_head b h.

Lemma mark_fork r h t0 d b l st t : fork_ok r h t0 d -> index d !! bs_id b = Some b ->
  path (index d) (bs_id b) (b :: l) (bs_id r) -> Forall (fun b => validated b = true) l ->
  replayed t0 (b :: l) st t ->
  exists d', mark_valid b d = Ok d' /\ fork_ok r (next_head b h) t0 d' /\
    index d' = <[bs_id b := with_validated true b]> (index d) /\
    path (index d') (bs_id b) (with_validated true b :: l) (bs_id r).
Proof.
  intros Hf Hb Hp Hv Hre. pose proof (fo_numbered _ _ _ _ Hf) as Hn. unfold next_head.
  destruct (validated b) eqn:Hvb.
  { exists d. unfold mark_valid. rewrite Hvb, validated_eta by done. by rewrite insert_id by done. }
  destruct (mark_valid_ok r h d b b (fo_inv _ _ _ _ Hf) Hvb Hb) as [-> Hi]. eexists. split; [done|].
  set (idx' := <[bs_id b := with_validated true b]> (index d)) in *.
  assert (Hp' : path idx' (bs_id b) (with_validated true b :: l) (bs_id r)).
  { apply path_cons_inv in Hp as [_ Hp]. eapply path_cons; [apply lookup_insert_eq|]. by apply marked_path. }
  split_and!; [|done|done]. split; cbn [index]; [done | |].
  - intros k x [[<- <-]|[_ Hk]]%lookup_insert_Some; [|by apply (fo_whole _ _ _ _ Hf k)].
    apply (fo_whole _ _ _ _ Hf _ _ Hb).
  - intros k x [[<- <-]|[_ Hk]]%lookup_insert_Some Hvx.
    + exists (with_validated true b :: l), st, t. split_and!; [done | by constructor|]. by eapply replayed_blocks.
    + destruct (fo_exec _ _ _ _ Hf _ _ Hk Hvx) as (m & st' & t' & Hm & Hvm & Hrm).
      exists m, st', t'. split_and!; [|done|done]. by apply marked_path.
Qed.

(** Applying a block on the head and making it the head. *)
Definition advance b s : ctl unit :=
  apply_block read_mode b s ≫= fun _ => on_fork (mark_valid b) ≫= fun _ => set_head b.

Lemma advance_ok r h t0 l c b s : synced r h t0 l c -> index (c_fork c) !! bs_id b = Some b ->
  bs_previous b = bs_id (c_head c) -> fitting b s ->
  match advance b s c with
  | (c', Ok _) => synced r (next_head b h) t0 (with_validated true b :: l) c' /\ c_log c' = c_log c /\
      index (c_fork c') = <[bs_id b := with_validated true b]> (index (c_fork c))
  | (c', Err _) => c' = c /\ validated b = false
  end.
Proof.
  intros Hs Hb Hprev Hfit. pose proof (synced_next _ _ _ _ _ _ Hs Hb Hprev) as Hp.
  pose proof Hs as [Hf Hh _ Hv Hre Hrev Hrb Hlog]. pose proof (fo_tree _ _ _ _ Hf) as Ht.
  unfold advance, mbind, ctl_bind.
  destruct (apply_outcome r h t0 l c b s Hs Hb Hprev Hfit) as [(t' & -> & Hr)|[[e ->] Hno]]; [|done].
  unfold on_fork, set_head, get_block. cbn [c_fork c_head c_db c_reversible c_log].
  destruct (mark_fork r h t0 (c_fork c) b l _ _ Hf Hb Hp Hv Hr) as (d' & -> & Hf' & Hidx & Hp').
  cbn [c_fork c_head c_db c_reversible c_log]. rewrite Hidx, lookup_insert_eq. cbn [default]. split_and!; [|done|done].
  assert (Hn1 : bs_num (c_head c) = bs_num b - 1) by (rewrite Hh; by eapply hd_num).
  split; cbn [c_fork c_head c_db c_reversible c_log]; try done.
  - by constructor.
  - unfold db_push. cbn [db_undo_stack db_cur]. by eapply replayed_blocks.
  - unfold db_push. cbn [db_revision]. unfold bs_num in *. cbn [with_validated bs id]. lia.
Qed.

(** ** Removing a bad block *)

Lemma descends_on_path idx x m b (e : digest) : idx !! e = None -> idx !! bs_id b = Some b -> path idx x m e ->
  descends idx (bs_id b) x -> b ∈ m.
Proof.
  intros He Hb Hp Hd. revert m Hp. induction Hd as [|x y Hy Hd IH]; intros [|z m] Hp.
  - apply path_nil_inv in Hp. congruence.
  - apply path_cons_inv in Hp as [Hz _]. rewrite Hb in Hz. injection Hz as <-. by left.
  - apply path_nil_inv in Hp. congruence.
  - apply path_cons_inv in Hp as [Hz Hp]. rewrite Hy in Hz. injection Hz as <-. right. by apply IH.
Qed.

Lemma valid_not_below r h t0 d b x : fork_ok r h t0 d -> index d !! bs_id b = Some b -> validated b = false ->
  index d !! bs_id x = Some x -> validated x = true -> ~ descends (index d) (bs_id b) (bs_id x).
Proof.
  intros Hf Hb Hvb Hx Hvx Hd. destruct (fo_exec _ _ _ _ Hf _ _ Hx Hvx) as (m & st & t & Hm & Hvm & _).
  pose proof (descends_on_path _ _ _ _ _ (root_not_inside _ _ (fo_tree _ _ _ _ Hf)) Hb Hm Hd) as Hin.
  rewrite Forall_forall in Hvm. specialize (Hvm _ Hin). simpl in Hvm. congruence.
Qed.

Lemma remove_fork r h t0 d b : fork_ok r h t0 d -> index d !! bs_id b = Some b -> validated b = false ->
  exists d', remove (bs_id b) d = Ok d' /\ fork_ok r h t0 d' /\
    (forall x, index d !! bs_id x = Some x -> validated x = true -> index d' !! bs_id x = Some x) /\
    (forall k, descends (index d) (bs_id b) k -> index d' !! k = None).
Proof.
  intros Hf Hb Hvb. pose proof (fo_inv _ _ _ _ Hf) as Hi. pose proof (fo_numbered _ _ _ _ Hf) as Hn.
  pose proof (fo_tree _ _ _ _ Hf) as Ht.
  pose proof (remove_ok (bs_id b) d (bs_id h) Hn (inv_head _ _ _ Hi)) as Hr.
  destruct (remove (bs_id b) d) as [d'|e] eqn:Hrem.
  2: { exfalso. destruct (best_head _ _ _ (inv_best _ _ _ Hi)) as [->|[Hh Hvh]].
       - pose proof (descends_on_path _ _ [] b _ (root_not_inside _ _ Ht) Hb (path_nil _ _) Hr) as Hin.
         by apply elem_of_nil in Hin.
       - by apply (valid_not_below r h t0 d b h). }
  destruct Hr as (_ & _ & _ & Hidx). exists d'. split; [done|].
  assert (Hkeep : forall x, index d !! bs_id x = Some x -> validated x = true -> index d' !! bs_id x = Some x).
  { intros x Hx Hvx. apply Hidx. split; [done|]. by eapply valid_not_below. }
  split; [|split; [done|intros k Hd; apply eq_None_not_Some; by intros [x [_ Hx]%Hidx]]]. split.
  - by eapply remove_inv.
  - intros k x [Hk _]%Hidx. by apply (fo_whole _ _ _ _ Hf k).
  - intros k x [Hk _]%Hidx Hvx. destruct (fo_exec _ _ _ _ Hf _ _ Hk Hvx) as (m & st & t & Hm & Hvm & Hrm).
    exists m, st, t. split_and!; [|done|done]. eapply path_sub; [done | |done].
    intros y Hy. destruct (path_bound _ _ _ _ _ Hn Hm Hy) as [Hy' _]. rewrite Forall_forall in Hvm. by apply Hkeep; [|apply Hvm].
Qed.

Lemma kept_path idx idx' x l a : numbered idx -> path idx x l a -> Forall (fun b => validated b = true) l ->
  (forall x, idx !! bs_id x = Some x -> validated x = true -> idx' !! bs_id x = Some x) -> path idx' x l a.
Proof.
  intros Hn Hp Hv Hk. eapply path_sub; [done | |done]. intros y Hy.
  destruct (path_bound _ _ _ _ _ Hn Hp Hy) as [Hy' _]. rewrite Forall_forall in Hv. by apply Hk; [|apply Hv].
Qed.

Lemma synced_remove r h t0 l c b : synced r h t0 l c -> index (c_fork c) !! bs_id b = Some b -> validated b = false ->
  exists c', on_fork (remove (bs_id b)) c = (c', Ok tt) /\ synced r h t0 l c' /\ c_log c' = c_log c /\
    (forall x, index (c_fork c) !! bs_id x = Some x -> validated x = true -> index (c_fork c') !! bs_id x = Some x) /\
    (forall k, descends (index (c_fork c)) (bs_id b) k -> index (c_fork c') !! k = None).
Proof.
  intros [Hf Hh Hp Hv Hre Hrev Hrb Hlog] Hb Hvb.
  destruct (remove_fork r h t0 (c_fork c) b Hf Hb Hvb) as (d' & Hr & Hf' & Hk & Hg). unfold on_fork. rewrite Hr.
  eexists. split; [done|]. cbn [c_fork c_log]. split_and!; [|done|done|done].
  split; cbn [c_fork c_head c_db c_reversible c_log]; try done.
  by eapply kept_path; [apply (fo_numbered _ _ _ _ Hf)|..].
Qed.

(** ** Applying good blocks again *)

Lemma path_app_inv idx x l m a : path idx x (l ++ m) a -> exists y, path idx x l y /\ path idx y m a.
Proof.
  revert x. induction l as [|b l IH]; intros x Hp; [exists x; split; [constructor | done]|].
  apply path_cons_inv in Hp as [Hx Hp]. destruct (IH _ Hp) as (y & Hl & Hm). exists y. split; [by econstructor | done].
Qed.

Lemma reapply_ok r h t0 m l c x : synced r h t0 l c ->
  path (index (c_fork c)) x (m ++ l) (bs_id r) -> Forall (fun b => validated b = true) m ->
  exists c', reapply read_mode (reverse m) c = (c', Ok tt) /\ synced r h t0 (m ++ l) c' /\
    c_fork c' = c_fork c /\ c_log c' = c_log c.
Proof.
  revert l c. induction m as [|b m IH] using rev_ind; intros l c Hs Hp Hv; [by exists c|].
  rewrite <- app_assoc in *. cbn [app] in *. rewrite reverse_app. cbn [reverse rev_append app reapply].
  pose proof (fo_tree _ _ _ _ (sy_fork _ _ _ _ _ Hs)) as Ht. pose proof (tree_numbered _ _ Ht) as Hn.
  apply Forall_app in Hv as [Hvm Hvb]. apply (proj1 (Forall_singleton _ _)) in Hvb.
  pose proof Hp as (y & Hpm & Hpb)%path_app_inv. pose proof Hpb as [Hyb Hpl]%path_cons_inv.
  destruct (Hn _ _ Hyb) as [<- _].
  assert (Hprev : bs_previous b = bs_id (c_head c)).
  { rewrite (sy_head _ _ _ _ _ Hs). symmetry. by eapply path_head. }
  destruct (apply_outcome r h t0 l c b validated_status Hs Hyb Hprev) as [(t' & Ha & Hr)|[_ Hno]]; [by right | | congruence].
  set (c1 := mk_ctl b (c_fork c) (db_push t' (c_db c)) (reversible_of (b :: l)) (c_log c)).
  assert (Hs1 : synced r h t0 (b :: l) c1).
  { pose proof Hs as [Hf Hh _ Hv Hre Hrev Hrb Hlog]. split; try done.
    - by constructor.
    - cbn [c1 c_db c_head db_push db_revision]. rewrite Hrev, Hh, (hd_num _ _ _ _ Ht Hpb). lia. }
  destruct (IH (b :: l) c1 Hs1 Hp Hvm) as (c' & Hre & Hs' & Hf' & Hl'). exists c'. split_and!; [|done|done|done].
  unfold mbind, ctl_bind. rewrite Ha. unfold set_head, get_block. cbn [c_fork c_head c_db c_reversible c_log].
  rewrite Hyb. cbn [default]. exact Hre.
Qed.

(** ** Switching back *)

Lemma switch_back_ok r h t0 A l c bad second x z e : synced r h t0 (A ++ l) c ->
  index (c_fork c) !! bs_id bad = Some bad -> validated bad = false ->
  path (index (c_fork c)) x (second ++ l) (bs_id r) -> Forall (fun b => validated b = true) (second ++ l) ->
  descends (index (c_fork c)) (bs_id bad) z ->
  match switch_back read_mode bad (length A) second e c with
  | (c', Ok _) => False
  | (c', Err e') => (second = [] /\ e' = "back() of an empty vector") \/
      (e' = e /\ synced r h t0 (second ++ l) c' /\ c_log c' = c_log c /\ index (c_fork c') !! z = None)
  end.
Proof.
  intros Hs Hb Hvb Hp Hv Hz. unfold switch_back, mbind, ctl_bind.
  destruct (synced_remove _ _ _ _ _ _ Hs Hb Hvb) as (c1 & -> & Hs1 & Hl1 & Hk & Hg).
  destruct (pops_ok _ _ _ _ _ _ Hs1) as (c2 & -> & Hs2 & Hf2 & Hl2). unfold lift.
  destruct (last second) as [oldest|] eqn:El; cbn [of_option].
  2: { left. apply last_None in El. done. }
  unfold get_ctl.
  pose proof (fo_tree _ _ _ _ (sy_fork _ _ _ _ _ Hs2)) as Ht.
  assert (Hp2 : path (index (c_fork c2)) x (second ++ l) (bs_id r)).
  { rewrite Hf2. eapply kept_path; [| exact Hp | done | exact Hk]. apply (fo_numbered _ _ _ _ (sy_fork _ _ _ _ _ Hs)). }
  pose proof Hp2 as (y & Hps & Hpl)%path_app_inv.
  assert (Hhd : bs_id (c_head c2) = bs_previous oldest).
  { rewrite (sy_head _ _ _ _ _ Hs2), (path_last _ _ _ _ _ Hps El). by eapply path_head. }
  rewrite bool_decide_eq_true_2 by done. cbn [check].
  apply Forall_app in Hv as [Hvs _].
  destruct (reapply_ok _ _ _ second _ _ x Hs2 Hp2 Hvs) as (c3 & -> & Hs3 & Hf3 & Hl3). unfold throw.
  right. split_and!; [done | done | congruence|]. rewrite Hf3, Hf2. by apply Hg.
Qed.

(** ** Switching forks *)

Lemma path_cut idx b (m : list block_state) x a : numbered idx -> idx !! bs_id b = Some b -> path idx x m a ->
  num_from_id a = bs_num b -> path (<[bs_id b := with_validated true b]> idx) x m a.
Proof.
  intros Hn Hb Hp Ha. eapply path_sub; [done | |done]. intros y Hy.
  destruct (path_bound _ _ _ _ _ Hn Hp Hy) as [Hy' _]. rewrite lookup_insert_ne; [done|]. intros Heq.
  destruct (path_nums _ _ _ _ Hn Hp) as [_ Hall]. rewrite Forall_forall in Hall. specialize (Hall y Hy).
  rewrite Heq, Hy' in Hb. injection Hb as ->. lia.
Qed.

Lemma apply_branch_ok todo : forall r h t0 A l c second x y, synced r h t0 (A ++ l) c ->
  path (index (c_fork c)) x (reverse todo) (bs_id (c_head c)) ->
  path (index (c_fork c)) y (second ++ l) (bs_id r) -> Forall (fun b => validated b = true) (second ++ l) ->
  match apply_branch read_mode todo (length A) second c with
  | (c', Ok _) => exists A', synced r (foldl (fun h b => next_head b h) h todo) t0 (A' ++ l) c' /\
      bs_id (c_head c') = x /\ c_log c' = c_log c /\
      (forall k, is_Some (index (c_fork c') !! k) <-> is_Some (index (c_fork c) !! k))
  | (c', Err e') => (second = [] /\ e' = "back() of an empty vector") \/
      (exists h', synced r h' t0 (second ++ l) c' /\ c_log c' = c_log c /\ index (c_fork c') !! x = None)
  end.
Proof.
  induction todo as [|b todo IH]; intros r h t0 A l c second x y Hs Hx Hy Hv.
  { cbn [apply_branch]. exists A. apply path_nil_inv in Hx. split_and!; try done. }
  rewrite reverse_cons in Hx. apply path_app_inv in Hx as (z & Hxz & Hz). apply path_cons_inv in Hz as [Hzb Hz].
  apply path_nil_inv in Hz. pose proof (fo_numbered _ _ _ _ (sy_fork _ _ _ _ _ Hs)) as Hn.
  destruct (Hn _ _ Hzb) as (<- & Hnum & _).
  cbn [apply_branch]. unfold try, mbind, ctl_bind at 1.
  pose proof (advance_ok r h t0 (A ++ l) c b (if validated b then validated_status else complete) Hs Hzb Hz) as Ha.
  assert (Hfit : fitting b (if validated b then validated_status else complete)).
  { destruct (validated b) eqn:Hvb; [by right | by left]. }
  specialize (Ha Hfit).
  unfold advance, mbind in Ha. destruct (ctl_bind _ _ _ _ c) as [c1 [u|e]].
  - destruct Ha as (Hs1 & Hl1 & Hidx).
    specialize (IH r (next_head b h) t0 (with_validated true b :: A) l c1 second x y Hs1).
    rewrite (sy_head _ _ _ _ _ Hs1), Hidx in IH. cbn [hd] in IH.
    assert (Hsome : forall k, is_Some (<[bs_id b := with_validated true b]> (index (c_fork c)) !! k) <-> is_Some (index (c_fork c) !! k)).
    { intros k. rewrite lookup_insert_is_Some'. split; [intros [<-|?]; [by eexists | done] | by right]. }
    destruct (apply_branch read_mode todo _ second c1) as [c' [u'|e']].
    + destruct IH as (A' & Hs' & Hid & Hl' & Hk').
      * by apply path_cut.
      * apply marked_path; done.
      * done.
      * exists A'. split_and!; [done | done | congruence|]. intros k. by rewrite Hk'.
    + destruct IH as [?|(h' & Hs' & Hl' & Hg')]; [by apply path_cut | by apply marked_path | done | by left |].
      right. exists h'. split_and!; [done | congruence | done].
  - destruct Ha as [-> Hvb].
    pose proof (switch_back_ok r h t0 A l c b second y x e Hs Hzb Hvb Hy Hv (path_end _ _ _ _ Hxz)) as Hb.
    destruct (switch_back read_mode b (length A) second e c) as [c' [u'|e']]; [done|].
    destruct Hb as [?|(_ & Hs' & Hl' & Hg)]; [by left|]. right. by exists h.
Qed.

Lemma switch_forks_ok r h t0 l c u : synced r h t0 l c -> index (c_fork c) !! bs_id u = Some u ->
  match switch_forks read_mode u c with
  | (c', Ok _) => exists l' m a, synced r (foldl (fun h b => next_head b h) h (reverse m)) t0 l' c' /\
      path (index (c_fork c)) (bs_id u) m a /\ (m = [] -> validated u = true) /\
      bs_id (c_head c') = bs_id u /\ c_log c' = c_log c /\
      (forall k, is_Some (index (c_fork c') !! k) <-> is_Some (index (c_fork c) !! k))
  | (c', Err e') => (exists m, path (index (c_fork c)) (bs_id u) m (bs_id (c_head c))) \/
      (exists h', synced r h' t0 l c' /\ c_log c' = c_log c /\ index (c_fork c') !! bs_id u = None)
  end.
Proof.
  intros Hs Hu. pose proof Hs as [Hf Hh Hp Hv Hre Hrev Hrb Hlog]. pose proof (fo_tree _ _ _ _ Hf) as Ht.
  destruct (branch_from_lemma r h (c_fork c) (bs_id u) (bs_id (c_head c)) (fo_inv _ _ _ _ Hf)) as
    (first & second & a & Hbr & Hfirst & Hsecond & _).
  { right. by eexists. }
  { rewrite Hh. destruct l as [|b l]; [by left|]. right. cbn [hd] in *. rewrite Hh in Hp.
    apply path_cons_inv in Hp as [Hb _]. by eexists. }
  destruct (path_fun _ _ _ _ _ _ (root_not_inside _ _ Ht) Hp Hsecond) as (l0 & -> & Hp0).
  unfold switch_forks, mbind, ctl_bind at 1, get_ctl at 1. unfold ctl_bind at 1, lift at 1. rewrite Hbr. cbn [fst snd].
  assert (Hpops : exists c1, (match last second with
     | None => mret tt
     | Some oldest => ctl_bind _ _ (fun _ => ctl_bind _ _ (fun c => lift (check (bool_decide (bs_id (c_head c) = bs_previous oldest))
         "loss of sync between fork_db and chainbase during fork switch")) get_ctl) (times (length second) (pop_block read_mode)) end) c = (c1, Ok tt) /\
     synced r h t0 l0 c1 /\ c_fork c1 = c_fork c /\ c_log c1 = c_log c).
  { destruct (last second) as [oldest|] eqn:El.
    - destruct (pops_ok _ _ _ _ _ _ Hs) as (c1 & Hpop & Hs1 & Hf1 & Hl1). exists c1. split_and!; try done.
      unfold ctl_bind, get_ctl, lift. rewrite Hpop.
      rewrite (path_last _ _ _ _ _ Hsecond El), (sy_head _ _ _ _ _ Hs1), (path_head _ _ _ _ Ht Hp0).
      by rewrite bool_decide_eq_true_2.
    - apply last_None in El. subst second. by exists c. }
  destruct Hpops as (c1 & Hc1 & Hs1 & Hf1 & Hl1). unfold ctl_bind at 1. rewrite Hc1.
  assert (Hhd1 : bs_id (c_head c1) = a) by (rewrite (sy_head _ _ _ _ _ Hs1); by eapply path_head).
  pose proof (apply_branch_ok (reverse first) r h t0 [] l0 c1 second (bs_id u) (bs_id (c_head c)) Hs1) as Hab.
  rewrite reverse_involutive, Hf1, Hhd1 in Hab. specialize (Hab Hfirst Hp Hv). cbn [length] in Hab.
  destruct (apply_branch read_mode (reverse first) 0 second c1) as [c' [u'|e']].
  - destruct Hab as (A' & Hs' & Hid & Hl' & Hk). exists (A' ++ l0), first, a. split_and!; try done; [|congruence].
    intros ->. apply path_nil_inv in Hfirst as <-. apply Forall_app in Hv as [_ Hv0]. destruct l0 as [|b l0].
    + apply path_nil_inv in Hp0. by rewrite Hp0, (root_not_inside _ _ Ht) in Hu.
    + apply path_cons_inv in Hp0 as [Hb _]. rewrite Hu in Hb. injection Hb as <-. by apply Forall_cons in Hv0 as [? _].
  - destruct Hab as [[-> _]|(h' & Hs' & Hl' & Hg')].
    + left. exists first. apply path_nil_inv in Hsecond. by rewrite Hsecond.
    + right. exists h'. split_and!; [done | congruence | done].
Qed.

(** ** Irreversible blocks *)

(** Blocks with consecutive numbers from [n]. *)
Fixpoint numbered_from (n : Z) (l : list block_state) : Prop :=
  match l with [] => True | b :: l => bs_num b = n /\ numbered_from (n + 1) l end.

Lemma numbered_from_snoc n l b : numbered_from n (l ++ [b]) <-> numbered_from n l /\ bs_num b = n + Z.of_nat (length l).
Proof.
  revert n. induction l as [|c l IH]; intros n; cbn [app numbered_from length]; [rewrite Z.add_0_r; naive_solver|].
  rewrite IH. rewrite Nat2Z.inj_succ. replace (n + 1 + Z.of_nat (length l)) with (n + Z.succ (Z.of_nat (length l))) by lia.
  naive_solver.
Qed.

Lemma path_length idx x l a : numbered idx -> path idx x l a -> num_from_id x = num_from_id a + Z.of_nat (length l).
Proof.
  intros Hn. induction 1 as [|x b l a Hx Hp IH]; [simpl; lia|]. destruct (Hn x b Hx) as (_ & ? & ?).
  cbn [length]. lia.
Qed.

Lemma path_numbered idx x l a : numbered idx -> path idx x l a -> numbered_from (num_from_id a + 1) (reverse l).
Proof.
  intros Hn. induction 1 as [|x b l a Hx Hp IH]; [done|]. rewrite reverse_cons. apply numbered_from_snoc. split; [done|].
  rewrite length_reverse. pose proof (path_length _ _ _ _ Hn Hp). destruct (Hn x b Hx) as (_ & ? & ?). lia.
Qed.

Lemma numbered_from_last n l d : numbered_from n l -> last l = Some d -> n <= bs_num d.
Proof.
  revert n. induction l as [|b l IH]; intros n Hn Hl; [done|]. destruct Hn as [Hb Hn]. destruct l as [|c l].
  - cbn in Hl. injection Hl as <-. lia.
  - rewrite last_cons_cons in Hl. specialize (IH _ Hn Hl). lia.
Qed.

(** The last block, or something else when there is none. *)
Definition or_last {A} (f : block_state -> A) (x : A) (l : list block_state) : A :=
  match last l with Some d => f d | None => x end.

Lemma or_last_cons {A} (f : block_state -> A) (x : A) b l : or_last f x (b :: l) = or_last f (f b) l.
Proof. unfold or_last. destruct l as [|c l]; [done|]. rewrite last_cons_cons. destruct (last (c :: l)) eqn:E; [done|]. by apply last_None in E. Qed.

Lemma commit_commit (d : chain_db tables) n m : n <= m -> db_commit m (db_commit n d) = db_commit m d.
Proof. intros Hle. unfold db_commit. cbn [db_cur db_undo_stack db_revision]. rewrite take_take. do 2 f_equal. lia. Qed.

Lemma irreversible_loop_ok asc : forall (c : controller) rid n, Forall whole asc -> numbered_from n asc ->
  Z.of_nat (length (c_log c)) = n - first_block_num ->
  exists c', irreversible_loop read_mode first_block_num asc rid c = (c', Ok (or_last bs_id rid asc, None)) /\
    c_head c' = c_head c /\ c_fork c' = c_fork c /\
    c_db c' = or_last (fun d => db_commit (bs_num d) (c_db c)) (c_db c) asc /\
    c_reversible c' = or_last (fun d => filter (fun x : Z * signed_block => bs_num d < x.1) (c_reversible c)) (c_reversible c) asc /\
    or_last (fun d => log_ok d (c_log c')) (c_log c' = c_log c) asc.
Proof.
  induction asc as [|b asc IH]; intros c rid n Hw Hn Hlog; [by exists c|].
  apply Forall_cons in Hw as [(blk & Hblk & Hid & Hnum) Hw]. destruct Hn as [Hb Hn].
  cbn [irreversible_loop]. unfold try, mbind, ctl_bind, mret, ctl_ret, get_ctl, put_ctl.
  rewrite bool_decide_eq_false_2 by done. rewrite Hblk. cbn [of_option]. unfold result_bind at 1. unfold log_append.
  replace (Z.of_nat (length (c_log c)) =? signed_num blk - first_block_num) with true by lia.
  cbn [check mbind result_bind].
  set (c1 := mk_ctl (c_head c) (c_fork c) (db_commit (bs_num b) (c_db c))
               (filter (fun x : Z * signed_block => bs_num b < x.1) (c_reversible c)) (blk :: c_log c)).
  destruct (IH c1 (bs_id b) (n + 1) Hw Hn) as (c' & Hl & Hh & Hf & Hd & Hr & Hlg).
  { cbn [c1 c_log length]. lia. }
  exists c'. rewrite !or_last_cons. split_and!; [exact Hl | done | done | | |].
  - rewrite Hd. cbn [c1 c_db]. unfold or_last. destruct (last asc) as [d|] eqn:El; [|done]. apply commit_commit.
    pose proof (numbered_from_last _ _ _ Hn El). lia.
  - rewrite Hr. cbn [c1 c_reversible]. unfold or_last. destruct (last asc) as [d|] eqn:El; [|done].
    pose proof (numbered_from_last _ _ _ Hn El). apply map_eq. intros k. apply option_eq. intros x.
    rewrite !map_lookup_filter_Some. cbn [fst]. split; [tauto|]. intros [? ?]. split_and!; [done | lia | done].
  - unfold or_last in *. destruct (last asc) as [d|]; [done|]. rewrite Hlg. cbn [c1 c_log]. split; [cbn [length]; lia | done].
Qed.

Lemma split_by_num l n : StronglySorted (fun b b' : block_state => bs_num b' < bs_num b) l ->
  l = filter (fun b => n < bs_num b) l ++ filter (fun b => bs_num b <= n) l.
Proof.
  induction 1 as [|b l Hs IH Hb]; [done|]. rewrite !filter_cons. destruct (decide (n < bs_num b)) as [Hlt|Hge].
  - rewrite decide_False by lia. cbn [app]. by f_equal.
  - rewrite decide_True by lia.
    assert (Hnil : filter (fun b => n < bs_num b) l = []).
    { clear -Hb Hge. induction Hb as [|x l Hx Hl IH]; [done|]. rewrite filter_cons, decide_False by lia. done. }
    rewrite Hnil in *. cbn [app] in *. by f_equal.
Qed.

Lemma reversible_keys l n blk : reversible_of l !! n = Some blk -> exists b, b ∈ l /\ bs_num b = n.
Proof.
  induction l as [|b l IH]; [done|]. cbn [reversible_of foldr]. fold (reversible_of l). intros Hn.
  assert (Hcase : bs_num b = n \/ reversible_of l !! n = Some blk).
  { destruct (bs_block b); [|by right]. apply lookup_insert_Some in Hn as [[-> _]|[_ Hn]]; [by left | by right]. }
  destruct Hcase as [Heq|Hin]; [exists b; split; [by left | done]|].
  destruct (IH Hin) as (x & Hx & Heq). exists x. split; [by right | done].
Qed.

Lemma reversible_filter up down n : Forall (fun b => n < bs_num b) up -> Forall (fun b => bs_num b <= n) down ->
  filter (fun x : Z * signed_block => n < x.1) (reversible_of (up ++ down)) = reversible_of up.
Proof.
  intros Hup Hdown. induction Hup as [|b up Hb Hup IH].
  - cbn [app]. apply map_empty. intros k. apply map_lookup_filter_None. right. intros x Hk. apply reversible_keys in Hk as (b & Hb & <-).
    rewrite Forall_forall in Hdown. specialize (Hdown b Hb). cbn [fst]. simpl in Hdown. lia.
  - cbn [app reversible_of foldr]. fold (reversible_of (up ++ down)). fold (reversible_of up). destruct (bs_block b) as [blk|]; [|done].
    rewrite map_filter_insert_True by done. by rewrite IH.
Qed.

(** Moving the root up the branch of the head. *)
Lemma advance_fork r h t0 d up nr down st t1 : fork_ok r h t0 d -> path (index d) (bs_id h) (up ++ nr :: down) (bs_id r) ->
  Forall (fun b => validated b = true) (up ++ nr :: down) -> replayed t0 (nr :: down) st t1 ->
  exists d', advance_root (bs_id nr) d = Ok d' /\ fork_ok nr h t1 d' /\ path (index d') (bs_id h) up (bs_id nr).
Proof.
  intros Hf Hp Hv Hr. pose proof (fo_inv _ _ _ _ Hf) as Hi. pose proof (fo_tree _ _ _ _ Hf) as Ht.
  pose proof (tree_numbered _ _ Ht) as Hn. pose proof (root_not_inside _ _ Ht) as Hroot.
  pose proof Hp as (y & Hup & Hdown)%path_app_inv. pose proof Hdown as [Hy _]%path_cons_inv.
  destruct (Hn _ _ Hy) as [<- _]. apply Forall_app in Hv as [_ Hv]. apply Forall_cons in Hv as [Hvn _].
  pose proof (advance_root_ok r h d (bs_id nr) nr Hi Hy Hvn) as Ha.
  destruct (advance_root (bs_id nr) d) as [d'|e] eqn:Hadv; [|by destruct Ha; eapply path_end].
  destruct Ha as (_ & _ & _ & Hidx). exists d'. split; [done|].
  assert (Hmove : forall x m, path (index d) x m (bs_id nr) -> path (index d') x m (bs_id nr)).
  { intros x m Hm. eapply path_sub; [done | |done]. intros b Hb.
    destruct (path_bound _ _ _ _ _ Hn Hm Hb) as [Hbi _]. apply Hidx. split_and!; [done | |by eapply path_descends].
    intros Heq. destruct (path_nums _ _ _ _ Hn Hm) as [_ Hall]. rewrite Forall_forall in Hall. specialize (Hall b Hb).
    simpl in Hall. destruct (Hn _ _ Hbi) as (_ & Hbn & _). rewrite Heq in Hbn. lia. }
  split; [|by apply Hmove]. split.
  - by eapply advance_root_inv.
  - intros k b (Hk & _)%Hidx. by apply (fo_whole _ _ _ _ Hf k).
  - intros k b (Hk & Hne & Hd)%Hidx Hvb. destruct (fo_exec _ _ _ _ Hf _ _ Hk Hvb) as (m & st' & t' & Hm & Hvm & Hrm).
    pose proof (descends_on_path _ _ _ _ _ Hroot Hy Hm Hd) as Hin. apply list_elem_of_split in Hin as (m1 & m2 & ->).
    pose proof Hm as (z & Hm1 & Hm2)%path_app_inv. pose proof Hm2 as [Hz _]%path_cons_inv. destruct (Hn _ _ Hz) as [<- _].
    pose proof (path_same _ _ _ _ _ Hroot Hdown Hm2) as Heq. injection Heq as <-.
    apply Forall_app in Hvm as [Hvm _]. destruct (replayed_app _ _ _ _ _ Hrm) as (t2 & Hr2 & Hr1).
    destruct (replayed_fun _ _ _ _ _ _ Hr Hr2) as [_ <-]. do 3 eexists. split_and!; [by apply Hmove | done | done].
Qed.

Lemma head_state_synced r h t0 l c : synced r h t0 l c -> c_head c = h ->
  fetch_branch (c_fork c) (bs_id h) (bs_lib h) = Ok (filter (fun b => bs_num b <= bs_lib h) l).
Proof.
  intros [Hf Hh Hp Hv Hre Hrev Hrb Hlog] Hch. pose proof (fo_tree _ _ _ _ Hf) as Ht. rewrite Hch in *.
  unfold fetch_branch. destruct l as [|b l].
  - apply path_nil_inv in Hp. destruct (size (index (c_fork c))); cbn [branch_loop];
      by rewrite Hp, (root_not_inside _ _ Ht).
  - cbn [hd] in Hh. subst b. pose proof Hp as [Hb _]%path_cons_inv.
    destruct (branch_ok (size (index (c_fork c))) r (index (c_fork c)) h Ht Hb) as (l' & -> & Hl' & _).
    { apply depth_size; [done | by right]. }
    by rewrite (path_same _ _ _ _ _ (root_not_inside _ _ Ht) Hp Hl').
Qed.

(** The blocks of the head's branch up to its last irreversible number go to
    the log, and the newest of them becomes the root. *)
Lemma log_irreversible_ok r h t0 l c : synced r h t0 l c -> c_head c = h ->
  let up := filter (fun b => bs_lib h < bs_num b) l in
  let down := filter (fun b => bs_num b <= bs_lib h) l in
  exists c' t1, log_irreversible read_mode first_block_num c = (c', Ok tt) /\ synced (hd r down) h t1 up c' /\
    c_head c' = h /\ db_cur (c_db c') = db_cur (c_db c).
Proof.
  intros Hs Hch up down. pose proof Hs as [Hf Hh Hp Hv Hre Hrev Hrb [Hlen Hlog]].
  pose proof (fo_inv _ _ _ _ Hf) as Hi. pose proof (fo_tree _ _ _ _ Hf) as Ht. pose proof (tree_numbered _ _ Ht) as Hn.
  destruct (path_nums _ _ _ _ Hn Hp) as [Hsort Habove].
  pose proof (split_by_num l (bs_lib h) Hsort) as Hsplit. fold up down in Hsplit.
  assert (Hlib : match c_log c with b :: _ => signed_num b | [] => first_block_num - 1 end = bs_num r).
  { destruct (c_log c) as [|blk log]; [simpl in Hlen; lia | apply Hlog]. }
  unfold log_irreversible, mbind, ctl_bind, get_ctl, lift. rewrite (inv_root _ _ _ Hi). cbn [of_option].
  rewrite Hlib.
  match goal with |- context [match ?m c with pair _ _ => _ end] => assert (Hchk : m c = (c, Ok tt)) end.
  { destruct (c_log c) as [|blk log]; [by rewrite Z.eqb_refl|]. destruct Hlog as [-> _]. by rewrite bool_decide_eq_true_2. }
  rewrite Hchk. clear Hchk. rewrite bool_decide_eq_false_2 by done. rewrite (head_state_inv _ _ _ Hi).
  destruct (Z.leb_spec (bs_lib h) (bs_num r)) as [Hle|Hgt].
  { assert (Hdown : down = []).
    { unfold down. pose proof (tree_root_num _ _ Ht) as Hrn. rewrite Hrn in Habove. clear -Habove Hle.
      induction Habove as [|b l Hb Hl IH]; [done|]. rewrite filter_cons, decide_False by lia. done. }
    exists c, t0. rewrite Hdown, app_nil_r in *. rewrite <- Hsplit. done. }
  rewrite (head_state_synced _ _ _ _ _ Hs Hch). fold down.
  pose proof Hp as Hp'. rewrite Hsplit in Hp'. apply path_app_inv in Hp' as (y & Hup & Hdn).
  assert (Hwd : Forall whole (reverse down)).
  { apply Forall_reverse, Forall_forall. intros b Hb. destruct (path_bound _ _ _ _ _ Hn Hdn Hb) as [Hbi _].
    apply (fo_whole _ _ _ _ Hf _ _ Hbi). }
  destruct (irreversible_loop_ok (reverse down) c (bs_id r) (bs_num r + 1) Hwd) as (c1 & -> & Hh1 & Hf1 & Hd1 & Hr1 & Hl1).
  { rewrite <- (tree_root_num _ _ Ht). by eapply path_numbered. }
  { lia. }
  cbn [fst snd]. unfold or_last in *. rewrite last_reverse in *. destruct down as [|nr down'] eqn:Ed; cbn [list.head] in *.
  - rewrite bool_decide_eq_true_2 by done. exists c1, t0. cbn [hd]. rewrite app_nil_r in Hsplit. rewrite <- Hsplit.
    split_and!; [done | | congruence | by rewrite Hd1]. split; try done; rewrite ?Hh1, ?Hf1, ?Hd1, ?Hr1, ?Hl1; done.
  - pose proof Hdn as [Hy _]%path_cons_inv. destruct (Hn _ _ Hy) as (<- & Hyn & _).
    rewrite bool_decide_eq_false_2; [|intros Heq; by rewrite Heq, (root_not_inside _ _ Ht) in Hy].
    unfold on_fork. rewrite Hf1. pose proof Hre as Hre'. rewrite Hsplit in Hre'.
    destruct (replayed_app _ _ _ _ _ Hre') as (t1 & Hrd & Hru).
    rewrite Hch, Hsplit in Hp. rewrite Hsplit in Hv.
    destruct (advance_fork r h t0 (c_fork c) up nr down' _ t1 Hf Hp Hv Hrd) as (d' & -> & Hf' & Hp1).
    eexists _, t1. split; [reflexivity|]. cbn [hd c_head c_db]. split; [|split; [congruence | by rewrite Hd1]].
    assert (Hlast : bs_num (c_head c) = bs_num nr + Z.of_nat (length up)).
    { rewrite Hch. pose proof (path_length _ _ _ _ Hn Hup) as Hpl. rewrite Hch in Hpl.
      destruct (best_head _ _ _ (inv_best _ _ _ Hi)) as [->|[Hhi _]].
      - rewrite (tree_root_num _ _ Ht) in Hpl. lia.
      - destruct (Hn _ _ Hhi) as (_ & ? & _). lia. }
    assert (Hnums : Forall (fun b => bs_num nr < bs_num b) up /\ Forall (fun b => bs_num b <= bs_num nr) (nr :: down')).
    { split.
      - destruct (path_nums _ _ _ _ Hn Hup) as [_ Hall]. eapply Forall_impl; [exact Hall|]. simpl. lia.
      - constructor; [lia|]. eapply Forall_impl; [by eapply (path_below r)|]. simpl. lia. }
    split; cbn [c_fork c_head c_db c_reversible c_log].
    + done.
    + rewrite Hh1, Hch. destruct up as [|b up']; cbn [hd].
      * apply path_nil_inv in Hp1. destruct (best_head _ _ _ (inv_best _ _ _ (fo_inv _ _ _ _ Hf'))) as [?|[Hhi _]]; [done|].
        by rewrite Hp1, (root_not_inside _ _ (fo_tree _ _ _ _ Hf')) in Hhi.
      * rewrite Hsplit in Hh. cbn [app hd] in Hh. congruence.
    + by rewrite Hh1, Hch.
    + apply Forall_app in Hv as [? _]. done.
    + rewrite Hd1. unfold db_commit. cbn [db_undo_stack db_cur].
      replace (Z.to_nat (db_revision (c_db c) - bs_num nr)) with (length up) by lia. done.
    + rewrite Hd1, Hh1. done.
    + rewrite Hr1, Hrb, Hsplit. apply reversible_filter; apply Hnums.
    + done.
Qed.

(** ** The new head *)

Lemma pending_cases r h d p : inv r h d -> pending_head d = Ok p ->
  p = h \/ (validated p = false /\ first_preferred p h = true /\ index d !! bs_id p = Some p).
Proof.
  intros Hi Hp. unfold pending_head in Hp. rewrite (head_state_inv _ _ _ Hi) in Hp. cbn [mbind result_bind] in Hp.
  apply (proj1 (Ok_inj _ _)) in Hp. subst p.
  destruct (filter _ _) as [|b l] eqn:Ef; [by left|]. destruct (first_preferred b h) eqn:Ep; [|by left]. right.
  assert (Hb : b ∈ filter (fun b => validated b = false) (by_lib_block_num (index d))) by (rewrite Ef; by left).
  apply list_elem_of_filter in Hb as [Hv [k Hk]%by_lib_elem].
  destruct (tree_numbered _ _ (inv_tree _ _ _ Hi) _ _ Hk) as [Hid _]. by rewrite Hid.
Qed.

(** The best block is the head of the fork database once its branch was marked. *)
Lemma next_heads r h t0 d u m a : fork_ok r h t0 d -> index d !! bs_id u = Some u -> path (index d) (bs_id u) m a ->
  (m = [] -> validated u = true) ->
  (forall k b, index d !! k = Some b -> first_preferred b u = false) ->
  u = h \/ (validated u = false /\ first_preferred u h = true) ->
  bs_id (foldl (fun h b => next_head b h) h (reverse m)) = bs_id u.
Proof.
  intros Hf Hu Hm Hnil Hbest Hcases. pose proof (fo_tree _ _ _ _ Hf) as Ht. pose proof (tree_numbered _ _ Ht) as Hn.
  destruct Hcases as [->|[Hvu Hpref]].
  - assert (Hvh : validated h = true).
    { destruct (best_head _ _ _ (inv_best _ _ _ (fo_inv _ _ _ _ Hf))) as [->|[_ ?]]; [|done].
      by rewrite (root_not_inside _ _ Ht) in Hu. }
    destruct (fo_exec _ _ _ _ Hf _ _ Hu Hvh) as (l & st & t & Hl & Hvl & _).
    destruct (path_fun _ _ _ _ _ _ (root_not_inside _ _ Ht) Hl Hm) as (l0 & -> & _). apply Forall_app in Hvl as [Hvm _].
    apply Forall_reverse in Hvm. clear -Hvm. induction Hvm as [|b l Hb Hl IH]; [done|]. cbn [foldl].
    unfold next_head at 2. by rewrite Hb.
  - destruct m as [|u' m]; [rewrite Hnil in Hvu; done|]. pose proof Hm as [Hu' Hm']%path_cons_inv.
    rewrite Hu in Hu'. injection Hu' as <-. rewrite reverse_cons, foldl_app. cbn [foldl].
    assert (Hstep : forall l h, (forall b, b ∈ l -> first_preferred u b = true) -> first_preferred u h = true ->
      first_preferred u (foldl (fun h b => next_head b h) h l) = true).
    { clear. induction l as [|b l IH]; intros h Hall Hh; [done|]. cbn [foldl]. apply IH; [intros x Hx; apply Hall; by right|].
      unfold next_head, marked_head. destruct (validated b); [done|]. destruct (first_preferred b h); [|done].
      apply (Hall b). by left. }
    unfold next_head at 1, marked_head. rewrite Hvu, Hstep; [done | | done].
    intros b Hb. rewrite elem_of_reverse in Hb. destruct (path_bound _ _ _ _ _ Hn Hm' Hb) as [Hbi Hbn].
    destruct (Hn _ _ Hu) as (_ & _ & Hprev). specialize (Hbest _ _ Hbi). clear -Hbn Hprev Hbest.
    unfold first_preferred in *. rewrite orb_false_iff, andb_false_iff in Hbest. rewrite orb_true_iff, andb_true_iff. lia.
Qed.

(** Two nodes with one id are one. *)
Lemma same_block r h t0 l c h' : synced r h t0 l c -> h' = h -> bs_id (c_head c) = bs_id h' -> c_head c = h'.
Proof.
  intros [Hf Hh Hp _ _ _ _ _] -> Hid. pose proof (fo_tree _ _ _ _ Hf) as Ht. rewrite Hh in *.
  destruct (best_head _ _ _ (inv_best _ _ _ (fo_inv _ _ _ _ Hf))) as [->|[Hhi _]]; destruct l as [|b l]; cbn [hd] in *; try done.
  - apply path_cons_inv in Hp as [Hb _]. by rewrite Hid, (root_not_inside _ _ Ht) in Hb.
  - by rewrite <- Hid, (root_not_inside _ _ Ht) in Hhi.
  - apply path_cons_inv in Hp as [Hb _]. rewrite Hid in Hb. congruence.
Qed.

(** ** Receiving a block *)

(** The controller is in sync and its head is the head of the fork database. *)
Definition settled (c : controller) : Prop := exists r h t0 l, synced r h t0 l c /\ c_head c = h.

Lemma maybe_switch_ok r h t0 l c u : synced r h t0 l c -> index (c_fork c) !! bs_id u = Some u ->
  pending_head (c_fork c) = Ok u ->
  match maybe_switch_forks read_mode first_block_num u complete c with
  | (c', Ok _) => settled c' /\ bs_id (c_head c') = bs_id u
  | (c', Err e') => (exists m, path (index (c_fork c)) (bs_id u) m (bs_id (c_head c)) /\ (2 <= length m)%nat) \/
      (exists h', synced r h' t0 l c' /\ c_log c' = c_log c /\ index (c_fork c') !! bs_id u = None)
  end.
Proof.
  intros Hs Hu Hpend. pose proof (sy_fork _ _ _ _ _ Hs) as Hf. pose proof (fo_inv _ _ _ _ Hf) as Hi.
  assert (Hbest : forall k b, index (c_fork c) !! k = Some b -> first_preferred b u = false).
  { destruct (pending_best r h (c_fork c) Hi) as (p & Hp & _ & Hall). rewrite Hpend in Hp. by injection Hp as <-. }
  assert (Hcases : u = h \/ (validated u = false /\ first_preferred u h = true)).
  { destruct (pending_cases _ _ _ _ Hi Hpend) as [->|(? & ? & _)]; [by left | by right]. }
  unfold maybe_switch_forks, mbind. unfold ctl_bind at 1, get_ctl at 1. case_bool_decide as Hprev.
  - unfold ctl_bind at 1, try.
    pose proof (advance_ok r h t0 l c u complete Hs Hu Hprev (or_introl eq_refl)) as Ha.
    unfold advance, mbind in Ha. destruct (ctl_bind _ _ _ _ c) as [c1 [x|e]].
    + destruct Ha as (Hs1 & Hl1 & Hidx).
      assert (Hid : bs_id (next_head u h) = bs_id u).
      { apply (next_heads r h t0 (c_fork c) u [u] (bs_previous u) Hf Hu); try done. eapply path_cons; [done | constructor]. }
      pose proof (sy_head _ _ _ _ _ Hs1) as Hhd. cbn [hd] in Hhd.
      assert (Hch : c_head c1 = next_head u h).
      { eapply same_block; [done | done|]. rewrite Hhd, Hid. done. }
      destruct (log_irreversible_ok _ _ _ _ _ Hs1 Hch) as (c2 & t1 & -> & Hs2 & Hh2 & _).
      split; [by do 4 eexists|]. by rewrite Hh2.
    + destruct Ha as [-> Hv]. destruct (synced_remove _ _ _ _ _ _ Hs Hu Hv) as (c2 & Hr & Hs2 & Hl2 & _ & Hg).
      unfold ctl_bind. rewrite Hr. unfold throw. right. exists h. split_and!; [done..|]. apply Hg, descends_refl.
  - case_bool_decide as Hid; cbn [negb].
    + unfold mret, ctl_ret. split; [|done]. exists r, h, t0, l. split; [done|].
      assert (u = c_head c) as Huc.
      { pose proof (fo_tree _ _ _ _ Hf) as Ht. rewrite (sy_head _ _ _ _ _ Hs) in *. pose proof (sy_path _ _ _ _ _ Hs) as Hp.
        rewrite (sy_head _ _ _ _ _ Hs) in Hp. destruct l as [|b l]; cbn [hd] in *.
        - by rewrite Hid, (root_not_inside _ _ Ht) in Hu.
        - apply path_cons_inv in Hp as [Hb _]. rewrite Hid in Hu. congruence. }
      destruct Hcases as [<-|[Hvu _]]; [done|]. exfalso. rewrite Huc in Hvu.
      pose proof (sy_valid _ _ _ _ _ Hs) as Hv. rewrite (sy_head _ _ _ _ _ Hs) in Hvu. destruct l as [|b l]; cbn [hd] in *.
      * rewrite Huc, (sy_head _ _ _ _ _ Hs) in Hu. cbn [hd] in Hu. by rewrite (root_not_inside _ _ (fo_tree _ _ _ _ Hf)) in Hu.
      * apply Forall_cons in Hv as [? _]. congruence.
    + pose proof (switch_forks_ok r h t0 l c u Hs Hu) as Hsw. unfold ctl_bind at 1.
      destruct (switch_forks read_mode u c) as [c1 [x|e]].
      2: { destruct Hsw as [[m Hm]|?]; [left|by right]. exists m. split; [done|]. pose proof (fo_numbered _ _ _ _ Hf) as Hn.
           destruct m as [|u' [|v m]]; [by apply path_nil_inv in Hm| |cbn; lia]. apply path_cons_inv in Hm as [Hu' Hm].
           apply path_nil_inv in Hm. rewrite Hu in Hu'. by injection Hu' as <-. }
      destruct Hsw as (l' & m & a & Hs1 & Hm & Hnil & Hhid & Hl1 & _).
      pose proof (next_heads r h t0 (c_fork c) u m a Hf Hu Hm Hnil Hbest Hcases) as Hfin.
      assert (Hch : c_head c1 = foldl (fun h b => next_head b h) h (reverse m)).
      { eapply same_block; [done | done|]. congruence. }
      destruct (log_irreversible_ok _ _ _ _ _ Hs1 Hch) as (c2 & t1 & -> & Hs2 & Hh2 & _).
      split; [by do 4 eexists|]. by rewrite Hh2.
Qed.
End Spec.
