(* ===== verification/ControllerRuns.v ===== *)
(** * Receiving and producing blocks

    The theorems about the controller, and concrete runs of it. *)

From stdpp Require Import base numbers list gmap strings sorting.
From Stdlib Require Import ZArith Lia.
From S2P Require Import Prelude Boost Merkle BlockHeader BlockHeaderState BlockHeaderSpec DposSpec DposRuns.
From S2P Require Import ForkDatabase ForkDatabaseSpec ForkFile Controller ControllerSpec.
Local Open Scope Z_scope.

Section Receive.
Context {key sig receipt tables : Type} `{EqDecision key} `{crypto : HeaderCrypto key sig}.
Context `{exec : Execution key sig receipt tables}.
#[local] Abbreviation block_state := (block_state key sig receipt).
#[local] Abbreviation fork_database := (fork_database key sig receipt).
#[local] Abbreviation controller := (controller (key:=key) (sig:=sig) (receipt:=receipt) (tables:=tables)).
Implicit Types (b r h : block_state) (c : controller) (l : list block_state) (d : fork_database).
Variable read_mode : db_read_mode.
Variable first_block_num : Z.
#[local] Abbreviation synced := (synced first_block_num).
#[local] Abbreviation settled := (settled first_block_num).

(** A block state as it is made for a received block. *)
Definition received (b : block_state) : Prop := linked b /\ whole b /\ validated b = false.

Lemma add_inserts b d d' : add b false d = Ok d' ->
  index d !! bs_id b = None /\ index d' = <[bs_id b := b]> (index d).
Proof.
  unfold add, fork_add. intros H. ok_bind H as ? _. ok_bind H as ? _. ok_bind H as ? _. ok_bind H as ? _.
  destruct (index d !! bs_id b); [done|]. apply (proj1 (Ok_inj _ _)) in H. by subst d'.
Qed.

Lemma add_fork r h (t0 : tables) d b d' : fork_ok r h t0 d -> received b -> add b false d = Ok d' ->
  exists h', fork_ok r h' t0 d' /\ (forall x m, path (index d) x m (bs_id r) -> path (index d') x m (bs_id r)).
Proof.
  intros Hf (Hl & Hw & Hv) Hadd. pose proof (add_inserts _ _ _ Hadd) as [Hnone Hidx].
  destruct (fork_add_inv r h d b false false (fun _ _ _ => Ok tt) d' (fo_inv _ _ _ _ Hf) Hl Hadd) as [h' Hi]. exists h'.
  pose proof (fo_numbered _ _ _ _ Hf) as Hn.
  assert (Hpath : forall x m, path (index d) x m (bs_id r) -> path (index d') x m (bs_id r)).
  { intros x m Hp. eapply path_sub; [done | |done]. intros y Hy. destruct (path_bound _ _ _ _ _ Hn Hp Hy) as [Hyi _].
    rewrite Hidx, lookup_insert_ne; [done|]. congruence. }
  split; [|done]. split; [done | |].
  - intros k x. rewrite Hidx. intros [[_ <-]|[_ Hk]]%lookup_insert_Some; [done | by apply (fo_whole _ _ _ _ Hf k)].
  - intros k x. rewrite Hidx. intros [[_ <-]|[_ Hk]]%lookup_insert_Some Hvx; [congruence|].
    destruct (fo_exec _ _ _ _ Hf _ _ Hk Hvx) as (m & st & t & Hm & Hvm & Hrm). exists m, st, t. split_and!; [|done|done].
    rewrite <- Hidx. by apply Hpath.
Qed.

Lemma add_synced r h t0 l c b : synced r h t0 l c -> received b ->
  match on_fork (add b false) c with
  | (c', Ok _) => exists d h', add b false (c_fork c) = Ok d /\ c_fork c' = d /\ synced r h' t0 l c' /\
      c_head c' = c_head c /\ c_log c' = c_log c
  | (c', Err _) => c' = c
  end.
Proof.
  intros [Hf Hh Hp Hv Hre Hrev Hrb Hlog] Hb. unfold on_fork. destruct (add b false (c_fork c)) as [d|e] eqn:Ha; [|done].
  destruct (add_fork _ _ _ _ _ _ Hf Hb Ha) as (h' & Hf' & Hpath). exists d, h'. split_and!; try done.
  split; cbn [c_fork c_head c_db c_reversible c_log]; try done. by apply Hpath.
Qed.

(** In sync at the same head, everything but the fork database is the same. *)
Lemma synced_same r h h' t0 l c c' : synced r h t0 l c -> synced r h' t0 l c' ->
  c_head c' = c_head c /\ c_db c' = c_db c /\ c_reversible c' = c_reversible c.
Proof.
  intros Hs Hs'. destruct (replayed_fun _ _ _ _ _ _ (sy_replay _ _ _ _ _ _ Hs) (sy_replay _ _ _ _ _ _ Hs')) as [Hst Hcur].
  assert (Hh : c_head c' = c_head c) by (by rewrite (sy_head _ _ _ _ _ _ Hs), (sy_head _ _ _ _ _ _ Hs')).
  split_and!; [done | | by rewrite (sy_reversible _ _ _ _ _ _ Hs), (sy_reversible _ _ _ _ _ _ Hs')].
  pose proof (sy_rev _ _ _ _ _ _ Hs) as Hr. pose proof (sy_rev _ _ _ _ _ _ Hs') as Hr'.
  destruct (c_db c), (c_db c'). cbn in *. congruence.
Qed.

(** ** The fork database only loses blocks *)

(** What is left was there, but for the mark of a validated block; and the
    root is the old one or one of the blocks. *)
Record shrunk d d' : Prop := {
  sk_index k x' : index d' !! k = Some x' -> exists x, index d !! k = Some x /\ bs x' = bs x;
  sk_root : root d' = root d \/ exists r' k x, root d' = Some r' /\ index d !! k = Some x /\ bs r' = bs x }.

#[local] Instance shrunk_preorder : PreOrder shrunk.
Proof.
  split; [intros d; split; [intros k x' Hx; by exists x'|by left]|]. intros d1 d2 d3 [I1 R1] [I2 R2]. split.
  - intros k x3 (x2 & Hx2 & E2)%I2. apply I1 in Hx2 as (x1 & Hx1 & E1). exists x1. split; [done|congruence].
  - destruct R2 as [->|(r' & k & x2 & Hr & Hx2 & E2)]; [done|]. right. apply I1 in Hx2 as (x1 & Hx1 & E1).
    exists r', k, x1. split_and!; [done|done|congruence].
Qed.

Lemma shrunk_same d d' : index d' = index d -> root d' = root d -> shrunk d d'.
Proof. intros Hi Hr. split; [intros k x'; rewrite Hi; intros Hx; by exists x'|by left]. Qed.

Lemma shrunk_subset d d' : (forall k x, index d' !! k = Some x -> index d !! k = Some x) -> root d' = root d -> shrunk d d'.
Proof. intros Hi Hr. split; [intros k x' Hx; exists x'; split; [by apply Hi|done]|by left]. Qed.

Lemma remove_shrunk i d d' : remove i d = Ok d' -> shrunk d d'.
Proof.
  unfold remove. intros Hr. ok_bind Hr as hd _. ok_bind Hr as q _. apply (proj1 (Ok_inj _ _)) in Hr as <-.
  apply shrunk_subset; [|done]. cbn [index]. intros k x. rewrite fold_delete_index. by destruct (decide _).
Qed.

Lemma mark_valid_shrunk b d d' : mark_valid b d = Ok d' -> shrunk d d'.
Proof.
  unfold mark_valid. destruct (validated b); [by intros [= ->]|]. intros Hr. ok_bind Hr as x Hx. ok_bind Hr as hd _.
  apply (proj1 (of_option_ok _ _ _)) in Hx.
  assert (index d' = <[bs_id b := with_validated true x]> (index d) /\ root d' = root d) as [Hi Hrt].
  { apply (proj1 (Ok_inj _ _)) in Hr as <-. cbn [index]. destruct (by_lib_block_num _); [done|]. by destruct (first_preferred _ _). }
  split; [|by left]. intros k x'. rewrite Hi. intros [[<- <-]|[_ Hk]]%lookup_insert_Some; [by exists x|by exists x'].
Qed.

Lemma advance_root_shrunk i d d' : advance_root i d = Ok d' -> shrunk d d'.
Proof.
  unfold advance_root, get_block. intros Hr. ok_bind Hr as r _. ok_bind Hr as nr Hn. ok_bind Hr as [] _. ok_bind Hr as l _.
  ok_bind Hr as d1 H1. apply (proj1 (Ok_inj _ _)) in Hr as <-. apply (proj1 (of_option_ok _ _ _)) in Hn.
  assert (Hm : forall (ks : list digest) d0 d1, mfold (fun db k => remove k db) ks d0 = Ok d1 -> shrunk d0 d1).
  { clear. induction ks as [|k ks IH]; intros d0 d1; cbn [mfold]; [by intros [= ->]|]. intros Hr. ok_bind Hr as d2 H2.
    apply remove_shrunk in H2. etrans; [done|by apply IH]. }
  apply Hm in H1. destruct H1 as [I1 _]. split; cbn [index root].
  - intros k x' (x & Hx & E)%I1. cbn [index] in Hx. apply lookup_delete_Some in Hx as [_ Hx]. by exists x.
  - right. by exists nr, i, nr.
Qed.

(** Calls of the controller, from a given state. *)
#[local] Abbreviation loses c m := (shrunk (c_fork c) (c_fork (fst (m c)))).

Lemma loses_bind {A B} (m : ctl A) (f : A -> ctl B) c :
  loses c m -> (forall a c1, m c = (c1, Ok a) -> loses c1 (f a)) -> loses c (m ≫= f).
Proof.
  intros Hm Hf. unfold mbind, ctl_bind. destruct (m c) as [c1 [a|e]] eqn:E; [|exact Hm]. etrans; [exact Hm|]. by apply Hf.
Qed.

Lemma loses_on_fork f c : (forall d d', f d = Ok d' -> shrunk d d') -> loses c (on_fork f).
Proof. intros Hf. unfold on_fork. destruct (f (c_fork c)) eqn:E; [by apply Hf|reflexivity]. Qed.

Lemma apply_block_fork b s c : c_fork (apply_block read_mode b s c).1 = c_fork c.
Proof.
  unfold apply_block, mbind, ctl_bind, get_ctl, lift, put_ctl, mret, ctl_ret, throw.
  repeat first [case_match|case_bool_decide]; simplify_eq; done.
Qed.

Lemma pop_block_fork c : c_fork (pop_block read_mode c).1 = c_fork c.
Proof.
  unfold pop_block, mbind, ctl_bind, get_ctl, lift, put_ctl, mret, ctl_ret, throw.
  repeat first [case_match|case_bool_decide]; simplify_eq; done.
Qed.

Lemma loses_pops n c : loses c (times n (pop_block read_mode)).
Proof.
  revert c. induction n as [|n IH]; intros c; [reflexivity|]. cbn [times]. apply loses_bind; [|intros _ c1 _; apply IH].
  apply shrunk_same; by rewrite pop_block_fork.
Qed.

Lemma loses_apply b s c : loses c (apply_block read_mode b s).
Proof. apply shrunk_same; by rewrite apply_block_fork. Qed.

Lemma loses_advance b s c : loses c (apply_block read_mode b s ≫= fun _ => on_fork (mark_valid b) ≫= fun _ => set_head b).
Proof.
  apply loses_bind; [apply loses_apply|]. intros _ c1 _. apply loses_bind; [apply loses_on_fork, mark_valid_shrunk|]. reflexivity.
Qed.

Lemma loses_reapply m c : loses c (reapply read_mode m).
Proof.
  revert c. induction m as [|b m IH]; intros c; [reflexivity|]. cbn [reapply]. apply loses_bind; [apply loses_apply|].
  intros _ c1 _. apply loses_bind; [reflexivity|]. intros _ c2 _. apply IH.
Qed.

Lemma loses_switch_back bad n second e c : loses c (switch_back read_mode bad n second e).
Proof.
  unfold switch_back. apply loses_bind; [apply loses_on_fork, remove_shrunk|]. intros _ c1 _.
  apply loses_bind; [apply loses_pops|]. intros _ c2 _. apply loses_bind; [reflexivity|]. intros o c3 _.
  apply loses_bind; [reflexivity|]. intros c4 c5 _. apply loses_bind; [reflexivity|]. intros _ c6 _.
  apply loses_bind; [apply loses_reapply|reflexivity].
Qed.

Lemma loses_try {A} (m : ctl A) c : loses c m -> loses c (try m).
Proof. unfold try. by destruct (m c). Qed.

Lemma loses_branch todo n second c : loses c (apply_branch read_mode todo n second).
Proof.
  revert n c. induction todo as [|b todo IH]; intros n c; [reflexivity|]. cbn [apply_branch].
  apply loses_bind; [apply loses_try, loses_advance|]. intros [u|e] c1 _; [apply IH|apply loses_switch_back].
Qed.

Lemma loses_switch u c : loses c (switch_forks read_mode u).
Proof.
  unfold switch_forks. apply loses_bind; [reflexivity|]. intros c0 c1 _. apply loses_bind; [reflexivity|]. intros bb c2 _.
  apply loses_bind; [|intros _ c3 _; apply loses_branch]. destruct (last bb.2); [|reflexivity].
  apply loses_bind; [apply loses_pops|]. intros _ c3 _. apply loses_bind; reflexivity.
Qed.

Lemma irreversible_loop_fork m i c : read_mode <> IRREVERSIBLE -> c_fork (irreversible_loop read_mode first_block_num m i c).1 = c_fork c.
Proof.
  intros Hm. revert i c. induction m as [|b m IH]; intros i c; [done|]. cbn [irreversible_loop]. rewrite bool_decide_eq_false_2 by done.
  unfold try, mbind, ctl_bind, get_ctl, lift, put_ctl, mret, ctl_ret. destruct (result_bind _ _ _ _) as [log|e]; [|done].
  by rewrite IH.
Qed.

Lemma loses_log c : read_mode <> IRREVERSIBLE -> loses c (log_irreversible read_mode first_block_num).
Proof.
  intros Hm. unfold log_irreversible. apply loses_bind; [reflexivity|]. intros c0 c1 _. apply loses_bind; [reflexivity|]. intros r c2 _.
  apply loses_bind; [by destruct (c_log c0)|]. intros _ c3 _. apply loses_bind; [reflexivity|]. intros hd c4 _.
  destruct (_ <=? _); [reflexivity|]. apply loses_bind; [reflexivity|]. intros br c5 _. apply loses_bind.
  { apply shrunk_same; by rewrite irreversible_loop_fork. }
  intros x c6 _. apply loses_bind; [|intros _ c7 _; by destruct x.2]. case_bool_decide; [reflexivity|].
  apply loses_on_fork, advance_root_shrunk.
Qed.

Lemma loses_maybe_switch u s c : read_mode <> IRREVERSIBLE -> loses c (maybe_switch_forks read_mode first_block_num u s).
Proof.
  intros Hm. unfold maybe_switch_forks. apply loses_bind; [reflexivity|]. intros c0 c1 _. case_bool_decide.
  - apply loses_bind; [apply loses_try, loses_advance|]. intros [x|e] c2 _; [by apply loses_log|].
    apply loses_bind; [apply loses_on_fork, remove_shrunk|reflexivity].
  - destruct (negb _); [|reflexivity]. apply loses_bind; [apply loses_switch|]. intros _ c2 _. by apply loses_log.
Qed.

(** ** The best block is the head *)

(** No known block is preferred to the head. *)
Definition at_best c : Prop := forall k x, index (c_fork c) !! k = Some x -> first_preferred x (c_head c) = false.

(** The block is not below the one it is built on. *)
Definition lib_above d b : Prop := forall p,
  index d !! bs_previous b = Some p \/ (root d = Some p /\ bs_id p = bs_previous b) -> bs_lib p <= bs_lib b.

Lemma same_bs (x y : block_state) : bs x = bs y -> bs_id x = bs_id y /\ bs_lib x = bs_lib y /\ bs_num x = bs_num y /\ bs_previous x = bs_previous y.
Proof. unfold bs_id, bs_lib, bs_num, bs_previous. by intros ->. Qed.

Lemma shrunk_grows d d' : numbered (index d) -> shrunk d d' -> (forall k x, index d !! k = Some x -> lib_above d x) ->
  forall k x, index d' !! k = Some x -> lib_above d' x.
Proof.
  intros Hn [Hi Hr] Hg k x' Hx p' Hp. apply Hi in Hx as (x & Hx & (_ & -> & _ & Ep)%same_bs). rewrite Ep in Hp.
  destruct Hp as [(p & Hp & (_ & -> & _)%same_bs)%Hi|[Hp Eid]]; [by apply (Hg k x Hx p); left|].
  destruct Hr as [Hr|(r' & j & y & Hr' & Hy & Ey)]; [apply (Hg k x Hx p'); right; by rewrite <- Hr|].
  rewrite Hp in Hr'. injection Hr' as <-. apply same_bs in Ey as (Ei & -> & _). destruct (Hn _ _ Hy) as [Ej _].
  apply (Hg k x Hx y). left. by rewrite <- Eid, Ei, Ej.
Qed.

Lemma preferred_above (x y : block_state) : bs_lib y <= bs_lib x -> bs_num y < bs_num x -> first_preferred x y = true.
Proof. unfold first_preferred. rewrite orb_true_iff, andb_true_iff. lia. Qed.

(** Along a branch, from [a] whose state is [p]. *)
Lemma path_lib d x m a p : numbered (index d) -> (forall k x, index d !! k = Some x -> lib_above d x) -> path (index d) x m a ->
  index d !! a = Some p \/ (root d = Some p /\ bs_id p = a) -> Forall (fun b => bs_lib p <= bs_lib b) m.
Proof.
  intros Hn Hg Hp Ha. induction Hp as [|x b m a Hx Hp IH]; [constructor|]. specialize (IH Ha). constructor; [|done].
  destruct m as [|b' m]; [apply path_nil_inv in Hp; subst a; by apply (Hg x b Hx p)|].
  apply path_cons_inv in Hp as [Hb' _]. apply Forall_cons in IH as [? _]. specialize (Hg x b Hx b' (or_introl Hb')). lia.
Qed.

(** In sync, at the best block known, on branches whose last irreversible
    number grows. *)
Definition current c : Prop :=
  (exists r h t0 l, synced r h t0 l c) /\ at_best c /\ forall k x, index (c_fork c) !! k = Some x -> lib_above (c_fork c) x.

Lemma head_known r h t0 l c : synced r h t0 l c ->
  index (c_fork c) !! bs_id (c_head c) = Some (c_head c) \/ root (c_fork c) = Some (c_head c).
Proof.
  intros Hs. pose proof (sy_path _ _ _ _ _ _ Hs) as Hp. rewrite (sy_head _ _ _ _ _ _ Hs) in *. destruct l as [|b l]; cbn [hd] in *.
  - right. apply (inv_root _ _ _ (fo_inv _ _ _ _ (sy_fork _ _ _ _ _ _ Hs))).
  - left. by apply path_cons_inv in Hp as [? _].
Qed.

Lemma add_grows r h t0 d b d' : fork_ok r h t0 d -> received b -> add b false d = Ok d' ->
  (forall k x, index d !! k = Some x -> lib_above d x) -> lib_above d b -> forall k x, index d' !! k = Some x -> lib_above d' x.
Proof.
  intros Hf Hb Ha Hg Hl. destruct (add_inserts _ _ _ Ha) as [Hnone Hi]. destruct (add_fork _ _ _ _ _ _ Hf Hb Ha) as (h' & Hf' & _).
  pose proof (inv_root _ _ _ (fo_inv _ _ _ _ Hf)) as Hr. pose proof (inv_root _ _ _ (fo_inv _ _ _ _ Hf')) as Hr'.
  assert (Hbr : bs_id b <> bs_id r).
  { intros E. pose proof (root_not_inside _ _ (fo_tree _ _ _ _ Hf')) as Hn. by rewrite Hi, E, lookup_insert_eq in Hn. }
  assert (Hx : forall x, lib_above d x -> bs_previous x <> bs_id b -> lib_above d' x).
  { intros x Hx Hne p Hp. apply Hx. rewrite Hi, lookup_insert_ne, Hr' in Hp by done. by rewrite Hr. }
  intros k x Hk. rewrite Hi in Hk. apply lookup_insert_Some in Hk as [[<- <-]|[Hne Hk]].
  - apply Hx; [done|]. destruct Hb as ((E1 & E2) & _). intros E. rewrite E in E2. lia.
  - apply Hx; [by apply (Hg k)|]. intros E. destruct (tree_linked _ _ (fo_tree _ _ _ _ Hf) _ _ Hk) as [E2|[y Hy]]; [congruence|].
    rewrite E, Hnone in Hy. done.
Qed.

(** A block that is built on the head by more than one block was known to be
    better before. *)
Lemma no_gap r h t0 l c b c1 m (p : block_state) : synced r h t0 l c -> at_best c -> received b -> on_fork (add b false) c = (c1, Ok tt) ->
  (forall k x, index (c_fork c1) !! k = Some x -> lib_above (c_fork c1) x) ->
  path (index (c_fork c1)) (bs_id p) m (bs_id (c_head c)) -> (length m < 2)%nat.
Proof.
  intros Hs Hbest Hb Ha Hg Hp. destruct m as [|p' [|q m]]; cbn [length]; [lia|lia|exfalso].
  pose proof (add_synced _ _ _ _ _ _ Hs Hb) as Hadd. rewrite Ha in Hadd. destruct Hadd as (d & h1 & Hadd & <- & Hs1 & Hh1 & _).
  destruct (add_inserts _ _ _ Hadd) as [Hnone Hi]. pose proof (fo_tree _ _ _ _ (sy_fork _ _ _ _ _ _ Hs1)) as Ht1.
  pose proof (tree_numbered _ _ Ht1) as Hn. apply path_cons_inv in Hp as [Hp' Hp]. pose proof Hp as [Hq _]%path_cons_inv.
  assert (index (c_fork c) !! bs_previous p' = Some q) as Hqc.
  { destruct (decide (bs_previous p' = bs_id b)) as [E|E]; [|by rewrite Hi, lookup_insert_ne in Hq]. exfalso.
    rewrite Hi in Hp'. apply lookup_insert_Some in Hp' as [[_ <-]|[_ Hp']].
    { destruct Hb as ((E1 & E2) & _). rewrite E in E2. lia. }
    destruct (tree_linked _ _ (fo_tree _ _ _ _ (sy_fork _ _ _ _ _ _ Hs)) _ _ Hp') as [E2|[y Hy]]; [|by rewrite E, Hnone in Hy].
    pose proof (root_not_inside _ _ Ht1) as Hr. rewrite <- E2, E, Hi, lookup_insert_eq in Hr. done. }
  specialize (Hbest _ _ Hqc). rewrite <- Hh1 in *.
  pose proof (path_lib (c_fork c1) _ _ _ (c_head c1) Hn Hg Hp) as Hlib.
  assert (Hk := head_known _ _ _ _ _ Hs1).
  assert (Hlq : bs_lib (c_head c1) <= bs_lib q) by (destruct Hk as [Hk|Hk]; (apply Forall_cons in Hlib as [? _]; [done|tauto])).
  destruct (path_nums _ _ _ _ Hn Hp) as [_ Habove]. apply Forall_cons in Habove as [Hnum _].
  assert (num_from_id (bs_id (c_head c1)) = bs_num (c_head c1)) as En.
  { destruct Hk as [Hk|Hk]; [by destruct (Hn _ _ Hk) as (_ & ? & _)|].
    rewrite (inv_root _ _ _ (fo_inv _ _ _ _ (sy_fork _ _ _ _ _ _ Hs1))) in Hk. injection Hk as <-. apply (tree_root_num _ _ Ht1). }
  rewrite preferred_above in Hbest; [done|done|lia].
Qed.

(** What is left after a push is not better than the head. *)
Lemma best_kept c c1 c' p b : at_best c -> add b false (c_fork c) = Ok (c_fork c1) ->
  (forall k x, index (c_fork c1) !! k = Some x -> first_preferred x p = false) -> index (c_fork c1) !! bs_id p = Some p ->
  shrunk (c_fork c1) (c_fork c') -> index (c_fork c') !! bs_id p = None -> c_head c' = c_head c -> at_best c'.
Proof.
  intros Hbest Hadd Hall Hp Hk Hgone Hh k x' Hx. rewrite Hh. destruct (add_inserts _ _ _ Hadd) as [Hnone Hi].
  pose proof (sk_index _ _ Hk _ _ Hx) as (x & Hx1 & (_ & El & En & _)%same_bs).
  unfold first_preferred. rewrite El, En. fold (first_preferred x (c_head c)). rewrite Hi in Hx1, Hp.
  apply lookup_insert_Some in Hx1 as [[<- <-]|[_ Hx1]]; [|by apply (Hbest k)].
  apply lookup_insert_Some in Hp as [[E _]|[_ Hp]]; [congruence|].
  specialize (Hbest _ _ Hp). specialize (Hall (bs_id b) b). rewrite Hi, lookup_insert_eq in Hall. specialize (Hall eq_refl).
  revert Hbest Hall. unfold first_preferred. rewrite !orb_false_iff, !andb_false_iff. lia.
Qed.

(** The head that was switched to is the best block. *)
Lemma best_reached c1 c' p : settled c' -> shrunk (c_fork c1) (c_fork c') -> numbered (index (c_fork c1)) ->
  (forall r, root (c_fork c1) = Some r -> index (c_fork c1) !! bs_id r = None) ->
  (forall k x, index (c_fork c1) !! k = Some x -> first_preferred x p = false) -> index (c_fork c1) !! bs_id p = Some p ->
  bs_id (c_head c') = bs_id p -> at_best c'.
Proof.
  intros (r & h & t0 & l & Hs & _) [Hi Hr] Hn Hout Hall Hp Hid k x' Hx.
  assert (bs (c_head c') = bs p) as (_ & Elh & Enh & _)%same_bs.
  { destruct (head_known _ _ _ _ _ Hs) as [(y & Hy & E)%Hi|Hroot]; [rewrite Hid in Hy; congruence|].
    destruct Hr as [E|(r' & j & y & Hr' & Hy & E)].
    - rewrite E in Hroot. specialize (Hout _ Hroot). congruence.
    - rewrite Hroot in Hr'. injection Hr' as <-. destruct (Hn _ _ Hy) as [<- _]. apply same_bs in E as Ei.
      destruct Ei as (Ei & _). rewrite <- Ei, Hid in Hy. congruence. }
  apply Hi in Hx as (x & Hx & (_ & El & En & _)%same_bs). specialize (Hall _ _ Hx).
  unfold first_preferred in *. by rewrite El, En, Elh, Enh.
Qed.

(** The best block after adding one is a block of the index. *)
Lemma pending_inside r h (t0 : tables) d b p : fork_ok r h t0 d -> index d !! bs_id b = Some b ->
  (forall k x, index d !! k = Some x -> lib_above d x) -> pending_head d = Ok p ->
  index d !! bs_id p = Some p /\ forall k x, index d !! k = Some x -> first_preferred x p = false.
Proof.
  intros Hf Hb Hg Hp. pose proof (fo_inv _ _ _ _ Hf) as Hi. pose proof (fo_tree _ _ _ _ Hf) as Ht.
  destruct (pending_best _ _ _ Hi) as (p' & Hp' & Hin & Hbest). rewrite Hp in Hp'. injection Hp' as <-. split; [|done].
  destruct Hin as [->|?]; [|done]. destruct (best_head _ _ _ (inv_best _ _ _ Hi)) as [->|[? _]]; [|done]. exfalso.
  destruct (branch_ok (size (index d)) r (index d) b Ht Hb) as (l & _ & Hl & _); [by apply depth_size; [|right]|].
  pose proof (path_lib d _ _ _ r (tree_numbered _ _ Ht) Hg Hl (or_intror (conj (inv_root _ _ _ Hi) eq_refl))) as Hlib.
  destruct l as [|b' l]; [apply path_nil_inv in Hl; by rewrite Hl, (root_not_inside _ _ Ht) in Hb|].
  apply path_cons_inv in Hl as [Hb' _]. rewrite Hb in Hb'. injection Hb' as <-. apply Forall_cons in Hlib as [Hlib _].
  specialize (Hbest _ _ Hb). pose proof (tree_above _ _ Ht _ _ Hb). by rewrite preferred_above in Hbest.
Qed.

Lemma push_block_lemma c b : read_mode <> IRREVERSIBLE -> current c -> received b -> lib_above (c_fork c) b ->
  match push_block read_mode first_block_num b c with
  | (c', Ok _) => current c' /\ settled c' /\ exists d p, add b false (c_fork c) = Ok d /\ pending_head d = Ok p /\
      bs_id (c_head c') = bs_id p
  | (c', Err e) => current c' /\ c_head c' = c_head c /\ c_db c' = c_db c /\ c_reversible c' = c_reversible c /\ c_log c' = c_log c
  end.
Proof.
  intros Hmode Hcur Hb Hlib. pose proof Hcur as ((r & h & t0 & l & Hs) & Hbest & Hg).
  pose proof (add_synced _ _ _ _ _ _ Hs Hb) as Ha. unfold push_block, mbind. unfold ctl_bind at 1.
  destruct (on_fork (add b false) c) as [c1 [[]|e]] eqn:Hon; [|by subst c1].
  destruct Ha as (d & h1 & Hadd & <- & Hs1 & Hh1 & Hl1). pose proof (sy_fork _ _ _ _ _ _ Hs1) as Hf1.
  pose proof (add_grows _ _ _ _ _ _ (sy_fork _ _ _ _ _ _ Hs) Hb Hadd Hg Hlib) as Hg1.
  unfold ctl_bind at 1, get_ctl. rewrite bool_decide_eq_false_2 by done. unfold ctl_bind at 1, lift.
  destruct (pending_best _ _ _ (fo_inv _ _ _ _ Hf1)) as (p & Hp & _). rewrite Hp.
  destruct (add_inserts _ _ _ Hadd) as [_ Hidx].
  destruct (pending_inside _ _ _ _ b p Hf1 ltac:(rewrite Hidx; apply lookup_insert_eq) Hg1 Hp) as [Hpi Hall].
  pose proof (maybe_switch_ok read_mode first_block_num Hmode r h1 t0 l c1 p Hs1 Hpi Hp) as Hsw.
  pose proof (loses_maybe_switch p complete c1 Hmode) as Hk. pose proof (fo_tree _ _ _ _ Hf1) as Ht1.
  destruct (maybe_switch_forks read_mode first_block_num p complete c1) as [c' [y|e]]; cbn [fst] in Hk;
    pose proof (shrunk_grows _ _ (tree_numbered _ _ Ht1) Hk Hg1) as Hg'.
  - destruct Hsw as [Hset Hid]. split_and!; [|done|by exists (c_fork c1), p]. split_and!; [|eapply best_reached|done]; try done.
    + destruct Hset as (r' & h' & t' & l' & Hs' & _). by exists r', h', t', l'.
    + apply (tree_numbered _ _ Ht1).
    + intros r0. rewrite (inv_root _ _ _ (fo_inv _ _ _ _ Hf1)). intros [= <-]. apply (root_not_inside _ _ Ht1).
  - destruct Hsw as [(m & Hm & Hlen)|(h' & Hs' & Hl' & Hgone)].
    { rewrite Hh1 in Hm. pose proof (no_gap _ _ _ _ _ _ _ _ _ Hs Hbest Hb Hon Hg1 Hm). lia. }
    destruct (synced_same _ _ _ _ _ _ _ Hs Hs') as (Hh & Hd & Hrv). split_and!; try done; [|congruence].
    split_and!; [by exists r, h', t0, l|by eapply best_kept|done].
Qed.

(** Receiving a block keeps the controller in sync, at the best block it knows:
    the tables are what executing the branch of the head on the tables of the
    root gives, with one undo state and one reversible block for each block of
    it, the database is at the number of the head, the block log ends with the
    root, and no block of the fork database is preferred to the head.  When the
    call succeeds the head is the best block after adding the received one;
    when it throws, whether the block does not link, or a block of a longer
    fork fails half way through the switch, head, tables, undo states,
    reversible blocks and log are what they were.  The node is not in the
    irreversible read mode, and last irreversible numbers do not go back along
    a branch, in the fork database and from its predecessor to the block. (C2) *)
Theorem push_block_sync c b : read_mode <> IRREVERSIBLE -> current c -> received b -> lib_above (c_fork c) b ->
  match push_block read_mode first_block_num b c with
  | (c', Ok _) => current c' /\ settled c' /\ exists d p, add b false (c_fork c) = Ok d /\ pending_head d = Ok p /\
      bs_id (c_head c') = bs_id p
  | (c', Err e) => current c' /\ c_head c' = c_head c /\ c_db c' = c_db c /\ c_reversible c' = c_reversible c /\ c_log c' = c_log c
  end.
Proof. apply push_block_lemma. Qed.

(** What becomes irreversible: the blocks of the head's branch up to its last
    irreversible number leave the undo states and the reversible blocks and go
    to the log, the newest of them becomes the root, and nothing else of the
    branch changes; the call does not throw. *)
Theorem irreversible_advance r h t0 l c : read_mode <> IRREVERSIBLE -> synced r h t0 l c -> c_head c = h ->
  let up := filter (fun b => bs_lib h < bs_num b) l in
  let down := filter (fun b => bs_num b <= bs_lib h) l in
  exists c' t1, log_irreversible read_mode first_block_num c = (c', Ok tt) /\ synced (hd r down) h t1 up c' /\
    c_head c' = h /\ db_cur (c_db c') = db_cur (c_db c).
Proof. intros Hm. apply (log_irreversible_ok read_mode first_block_num Hm). Qed.

(** ** Producing *)

Lemma preferred_over b h h1 : first_preferred b h = true -> first_preferred h1 h = false -> first_preferred b h1 = true.
Proof.
  unfold first_preferred. rewrite !orb_true_iff, !andb_true_iff, orb_false_iff, andb_false_iff. lia.
Qed.

(** Adding a block does not bring in a better validated one. *)
Lemma add_head_not_better r h h1 (t0 : tables) d b d' : fork_ok r h t0 d -> received b -> add b false d = Ok d' ->
  inv r h1 d' -> first_preferred h1 h = false.
Proof.
  intros Hf (_ & _ & Hvb) Hadd Hi1. pose proof (fo_inv _ _ _ _ Hf) as Hi. pose proof (add_inserts _ _ _ Hadd) as [Hnone Hidx].
  destruct (best_head _ _ _ (inv_best _ _ _ Hi1)) as [->|[Hin1 Hv1]].
  2: { rewrite Hidx in Hin1. apply lookup_insert_Some in Hin1 as [[_ <-]|[_ Hin1]]; [congruence|].
       by apply (best_all _ _ _ (inv_best _ _ _ Hi) _ _ Hin1). }
  destruct (best_head _ _ _ (inv_best _ _ _ Hi)) as [->|[Hhi Hvh]].
  { unfold first_preferred. rewrite orb_false_iff, andb_false_iff. lia. }
  assert (Hin : index d' !! bs_id h = Some h) by (rewrite Hidx, lookup_insert_ne; [done | congruence]).
  destruct (by_lib_block_num (index d')) as [|y ys] eqn:El; [apply by_lib_nil in El; by rewrite El in Hin|].
  exfalso. pose proof (inv_head _ _ _ Hi1) as Hhead.
  unfold add, fork_add in Hadd. ok_bind Hadd as ? _. ok_bind Hadd as ? _. ok_bind Hadd as ? _. ok_bind Hadd as ? _.
  rewrite Hnone in Hadd. apply (proj1 (Ok_inj _ _)) in Hadd. rewrite <- Hidx, El in Hadd.
  assert (Hvy : validated y = true).
  { destruct (validated y) eqn:E; [done|]. by rewrite (none_validated _ _ _ _ _ El E Hin) in Hvh. }
  rewrite Hvy in Hadd. rewrite <- Hadd in Hhead. cbn [head] in Hhead. injection Hhead as Hhead.
  destruct (by_lib_first _ _ _ El) as [[ky Hky] _]. destruct (tree_numbered _ _ (inv_tree _ _ _ Hi1) _ _ Hky) as [Hyid _].
  by rewrite <- Hyid, Hhead, (root_not_inside _ _ (inv_tree _ _ _ Hi1)) in Hky.
Qed.

(** The fork database after [add] and [mark_valid] of a block built on the head. *)
Lemma produced_fork r h t0 l c b t blk : synced r h t0 l c -> received b -> bs_previous b = bs_id (c_head c) ->
  index (c_fork c) !! bs_id b = None -> bs_block b = Some blk -> block_extensions blk = [] ->
  execute complete blk (db_cur (c_db c)) = Ok t -> first_preferred b h = true ->
  exists d d', add b false (c_fork c) = Ok d /\ mark_valid b d = Ok d' /\
    fork_ok r (with_validated true b) t0 d' /\ head_state d' = Ok (with_validated true b) /\
    path (index d') (bs_id b) (with_validated true b :: l) (bs_id r) /\
    replayed t0 (with_validated true b :: l) (db_cur (c_db c) :: db_undo_stack (c_db c)) t.
Proof.
  intros Hs Hb Hprev Hnone Hblk Hext Hex Hpref. pose proof Hs as [Hf Hh Hp Hv Hre Hrev Hrb Hlog].
  pose proof (fo_inv _ _ _ _ Hf) as Hi. pose proof (fo_tree _ _ _ _ Hf) as Ht.
  destruct (add b false (c_fork c)) as [d|e] eqn:Hadd.
  2: { exfalso. unfold add, fork_add, get_block_header, the_root, get_block in Hadd. rewrite (inv_root _ _ _ Hi) in Hadd.
       cbn [of_option mbind result_bind] in Hadd.
       assert (Hpi : exists p, (if bool_decide (bs_id r = bs_previous b) then Some r else index (c_fork c) !! bs_previous b) = Some p).
       { case_bool_decide as Heq; [by eexists|]. rewrite Hprev in *. rewrite Hh in *.
         destruct l as [|x l]; [done|]. cbn [hd] in *. apply path_cons_inv in Hp as [Hx _]. by exists x. }
       destruct Hpi as [p Hpi]. rewrite Hpi in Hadd. cbn [of_option mbind result_bind] in Hadd. by rewrite Hnone in Hadd. }
  destruct (add_fork _ _ _ _ _ _ Hf Hb Hadd) as (h1 & Hf1 & Hpath). pose proof (add_inserts _ _ _ Hadd) as [_ Hidx].
  destruct Hb as (Hl & Hw & Hvb). exists d.
  assert (Hbin : index d !! bs_id b = Some b) by (rewrite Hidx; apply lookup_insert_eq).
  assert (Hp1 : path (index d) (bs_id b) (b :: l) (bs_id r)).
  { eapply path_cons; [done|]. rewrite Hprev. by apply Hpath. }
  assert (Hr1 : replayed t0 (b :: l) (db_cur (c_db c) :: db_undo_stack (c_db c)) t) by (by econstructor).
  destruct (mark_fork r h1 t0 d b l _ _ Hf1 Hbin Hp1 Hv Hr1) as (d' & Hm & Hf2 & _ & Hp2). exists d'.
  pose proof (add_head_not_better _ _ _ _ _ _ _ Hf (conj Hl (conj Hw Hvb)) Hadd (fo_inv _ _ _ _ Hf1)) as Hh1.
  assert (Hn : next_head b h1 = with_validated true b).
  { unfold next_head, marked_head. rewrite Hvb, (preferred_over b h h1); done. }
  rewrite Hn in Hf2. split_and!; [done | done | done | by eapply head_state_inv, fo_inv | done | by eapply replayed_blocks].
Qed.

(** A block the node produced on its head becomes the head, with its tables,
    when it is preferred to the head of the fork database, in particular when
    its last irreversible number is not below that of the head. *)
Theorem produced_block_becomes_head r h t0 l c b t blk : read_mode <> IRREVERSIBLE -> synced r h t0 l c ->
  received b -> bs_previous b = bs_id (c_head c) -> index (c_fork c) !! bs_id b = None ->
  bs_block b = Some blk -> block_extensions blk = [] -> execute complete blk (db_cur (c_db c)) = Ok t ->
  first_preferred b h = true ->
  exists c', commit_produced read_mode first_block_num b t c = (c', Ok tt) /\ settled c' /\
    bs_id (c_head c') = bs_id b /\ db_cur (c_db c') = t.
Proof.
  intros Hmode Hs Hb Hprev Hnone Hblk Hext Hex Hpref.
  destruct (produced_fork r h t0 l c b t blk Hs Hb Hprev Hnone Hblk Hext Hex Hpref) as
    (d & d' & Hadd & Hmark & Hf & Hhs & Hp & Hr).
  pose proof Hs as [Hf0 Hh0 Hp0 Hv Hre Hrev Hrb Hlog].
  unfold commit_produced, mbind, ctl_bind, on_fork. rewrite Hadd. cbn [c_fork c_head c_db c_reversible c_log].
  rewrite Hmark. cbn [c_fork c_head c_db c_reversible c_log]. unfold get_ctl, lift, put_ctl.
  cbn [c_fork c_head c_db c_reversible c_log]. rewrite Hhs. rewrite bool_decide_eq_true_2 by done. cbn [check].
  rewrite Hblk. cbn [of_option]. rewrite bool_decide_eq_false_2 by done.
  pose proof (fo_tree _ _ _ _ Hf) as Ht. change (bs_id b) with (bs_id (with_validated true b)) in Hp.
  assert (Hrn : c_reversible c !! bs_num b = None).
  { rewrite Hrb. apply reversible_below. by apply (path_below _ _ _ _ Ht Hp). }
  rewrite Hrn. unfold mret, ctl_ret.
  set (c1 := mk_ctl (with_validated true b) d' (db_push t (c_db c)) (<[bs_num b := blk]> (c_reversible c)) (c_log c)).
  assert (Hs1 : synced r (with_validated true b) t0 (with_validated true b :: l) c1).
  { split; try done.
    - constructor; [done | exact Hv].
    - cbn [c1 c_db c_head db_push db_revision]. rewrite Hrev, Hh0, (hd_num _ _ _ _ Ht Hp). lia.
    - cbn [c1 c_reversible reversible_of foldr with_validated bs_block]. rewrite Hblk, Hrb. done. }
  destruct (log_irreversible_ok read_mode first_block_num Hmode _ _ _ _ _ Hs1 eq_refl) as (c2 & t1 & Hl & Hs2 & Hh2 & Hc2).
  unfold try. rewrite Hl. exists c2. split_and!; [done | by do 4 eexists | by rewrite Hh2 | by rewrite Hc2].
Qed.
End Receive.

(** ** Concrete runs *)

#[local] Existing Instance toy_crypto.

(** Executing a block adds its receipts to a counter; a receipt 0 is bad. *)
Definition toy_execute (_ : block_status) (b : signed_block Z Z Z) (t : Z) : result Z :=
  check (negb (existsb (fun x => x =? 0) (transactions b))) "bad receipt" ;;
  Ok (foldl Z.add t (transactions b)).
#[local] Instance toy_execution : Execution Z Z Z Z :=
  {| execute := toy_execute; execute_again := fun b t t' H => H |}.

#[local] Abbreviation zstate := (block_state Z Z Z).

(** A block on [prev] with the given receipts. *)
Definition demo_header (prev : digest) (tag : Z) : signed_block_header Z Z :=
  mk_signed (mk_header tag tag 0 prev digest_zero digest_zero 0 None []) 0.
Definition demo_block (prev : digest) (tag lib : Z) (txs : list Z) : zstate :=
  let h := demo_header prev tag in
  mk_bs (mk_bhs (mk_common (block_num_of (sb_header h)) 0 lib (mk_schedule 0 []) incremental_empty ∅ ∅ 0 [])
           (id_of (sb_header h)) h (mk_sinfo 0 digest_zero (mk_schedule 0 [])) ∅ [])
    (Some (mk_block h txs [])) false.

Definition root10 : zstate :=
  mk_bs (mk_bhs (mk_common 10 0 5 (mk_schedule 0 []) incremental_empty ∅ ∅ 0 []) (mk_digest (endian_reverse_u32 10) 0 0 0)
           (demo_header digest_zero 0) (mk_sinfo 0 digest_zero (mk_schedule 0 [])) ∅ []) None true.
Definition a11 : zstate := demo_block (bs_id root10) 1 5 [100].
Definition b11 : zstate := demo_block (bs_id root10) 2 5 [7].
Definition b12 (txs : list Z) : zstate := demo_block (bs_id b11) 2 5 txs.

Definition start : controller (key:=Z) (sig:=Z) (receipt:=Z) (tables:=Z) :=
  mk_ctl root10 (reset (bs root10)) (mk_db 1 [] 10) ∅ [].
Definition after (b : zstate) c := (push_block SPECULATIVE 11 b c).1.

(** The head is [a11], with [b11] received. *)
Definition at_a11 := after b11 (after a11 start).

Lemma start_synced : synced 11 root10 root10 1 [] start.
Proof.
  split; try done; [|constructor|constructor].
  split; [apply reset_inv; reflexivity | done | done].
Qed.

Lemma demo_received prev tag lib txs : num_from_id prev + 1 < 2 ^ 32 -> received (demo_block prev tag lib txs).
Proof.
  intros Hlt. split_and!; [|eexists; split_and!; [reflexivity.. |] |done].
  - unfold linked, demo_block, bs_id, bs_num, bs_previous. cbn [bs b_id b_common block_num b_header sb_header demo_header].
    rewrite id_carries_num_lemma. unfold block_num_of. cbn [h_previous]. split; [done|]. symmetry. apply u32_small.
    pose proof (reverse_range (u32 (hash0 prev))) as Hr. unfold is_u32, num_from_id in *. lia.
  - reflexivity.
Qed.

(** Nothing is known but the root. *)
Lemma start_current : current 11 start.
Proof. split_and!; [exists root10, root10, 1, []; exact start_synced|by intros k x Hx|by intros k x Hx]. Qed.

(** [lib_above], by computation. *)
Definition lib_aboveb (d : fork_database Z Z Z) (b : zstate) : bool :=
  match index d !! bs_previous b with Some p => bs_lib p <=? bs_lib b | None => true end &&
  match root d with Some p => negb (bool_decide (bs_id p = bs_previous b)) || (bs_lib p <=? bs_lib b) | None => true end.

Lemma lib_aboveb_ok d b : lib_aboveb d b = true -> lib_above d b.
Proof.
  unfold lib_aboveb. intros [H1 H2]%andb_true_iff p [Hp|[Hp Hid]]; [rewrite Hp in H1; lia|].
  rewrite Hp, bool_decide_true in H2 by done. cbn in H2. lia.
Qed.

(** From one state to the next. *)
Lemma current_after b c : current 11 c -> received b -> lib_aboveb (c_fork c) b = true -> current 11 (after b c).
Proof.
  intros Hc Hb Hl. assert (Hm : SPECULATIVE <> IRREVERSIBLE) by done.
  pose proof (push_block_lemma SPECULATIVE 11 c b Hm Hc Hb (lib_aboveb_ok _ _ Hl)) as Hp. unfold after.
  destruct (push_block SPECULATIVE 11 b c) as [c' [u|e]]; apply Hp.
Qed.

Lemma at_a11_current : current 11 at_a11.
Proof.
  apply current_after; [apply current_after; [exact start_current| |]| |];
    try (apply demo_received; vm_compute; reflexivity); vm_compute; reflexivity.
Qed.

Lemma at_a11_synced : exists h t0 l, synced 11 root10 h t0 l at_a11.
Proof.
  destruct at_a11_current as ((r & h & t0 & l & Hs) & _). exists h, t0, l.
  assert (Hr : root (c_fork at_a11) = Some root10) by (vm_compute; reflexivity).
  rewrite (inv_root _ _ _ (fo_inv _ _ _ _ (sy_fork _ _ _ _ _ _ Hs))) in Hr. injection Hr as ->. exact Hs.
Qed.

(** A longer fork whose second block is bad. *)
Lemma push_block_sync_witness :
  (push_block SPECULATIVE 11 (b12 [0]) at_a11).2 = Err "bad receipt" /\
  match push_block SPECULATIVE 11 (b12 [0]) at_a11 with
  | (c', Ok _) => current 11 c' /\ settled 11 c' /\ exists d p, add (b12 [0]) false (c_fork at_a11) = Ok d /\ pending_head d = Ok p /\
      bs_id (c_head c') = bs_id p
  | (c', Err e) => current 11 c' /\ c_head c' = c_head at_a11 /\ c_db c' = c_db at_a11 /\
      c_reversible c' = c_reversible at_a11 /\ c_log c' = c_log at_a11
  end.
Proof.
  split; [vm_compute; reflexivity|].
  apply (push_block_sync SPECULATIVE 11 at_a11 (b12 [0])); [discriminate | exact at_a11_current | | ].
  - apply demo_received. vm_compute. reflexivity.
  - apply lib_aboveb_ok. vm_compute. reflexivity.
Defined.

(** The same fork with a good block, and with the bad one. *)
Example fork_switch_runs :
  (bs_id (c_head at_a11) = bs_id a11 /\ db_cur (c_db at_a11) = 101) /\
  (let c := after (b12 [8]) at_a11 in
   bs_id (c_head c) = bs_id (b12 [8]) /\ db_cur (c_db c) = 16 /\ db_undo_stack (c_db c) = [8; 1]) /\
  (push_block SPECULATIVE 11 (b12 [0]) at_a11).2 = Err "bad receipt" /\
  (let c := after (b12 [0]) at_a11 in bs_id (c_head c) = bs_id a11 /\ db_cur (c_db c) = 101).
Proof. cbv zeta. split_and!; vm_compute; reflexivity. Qed.

Lemma irreversible_advance_witness :
  exists h l c' t1, c_head at_a11 = h /\ log_irreversible SPECULATIVE 11 at_a11 = (c', Ok tt) /\
    synced 11 (hd root10 (filter (fun b => bs_num b <= bs_lib h) l)) h t1 (filter (fun b => bs_lib h < bs_num b) l) c' /\
    c_head c' = h /\ db_cur (c_db c') = db_cur (c_db at_a11).
Proof.
  destruct at_a11_synced as (h & t0 & l & Hs).
  assert (Hh : c_head at_a11 = h).
  { eapply same_block; [exact Hs | reflexivity |]. pose proof (inv_head _ _ _ (fo_inv _ _ _ _ (sy_fork _ _ _ _ _ _ Hs))) as Hhd.
    assert (He : head (c_fork at_a11) = Some (bs_id (c_head at_a11))) by (vm_compute; reflexivity). congruence. }
  destruct (irreversible_advance SPECULATIVE 11 root10 h t0 l at_a11 (ltac:(discriminate)) Hs Hh) as (c' & t1 & H1 & H2 & H3).
  exists h, l, c', t1. exact (conj Hh (conj H1 (conj H2 H3))).
Defined.

Definition c12 : zstate := demo_block (bs_id a11) 1 5 [5].

Lemma produced_block_becomes_head_witness :
  exists c', commit_produced SPECULATIVE 11 c12 106 at_a11 = (c', Ok tt) /\ settled 11 c' /\
    bs_id (c_head c') = bs_id c12 /\ db_cur (c_db c') = 106.
Proof.
  destruct at_a11_synced as (h & t0 & l & Hs).
  assert (Hh : h = with_validated true a11).
  { pose proof (inv_head _ _ _ (fo_inv _ _ _ _ (sy_fork _ _ _ _ _ _ Hs))) as Hhd.
    assert (He : head_state (c_fork at_a11) = Ok (with_validated true a11)) by (vm_compute; reflexivity).
    rewrite (head_state_inv _ _ _ (fo_inv _ _ _ _ (sy_fork _ _ _ _ _ _ Hs))) in He. injection He as He. exact He. }
  apply (produced_block_becomes_head SPECULATIVE 11 root10 h t0 l at_a11 c12 106 (mk_block (demo_header (bs_id a11) 1) [5] []));
    [discriminate | exact Hs | apply demo_received; vm_compute; reflexivity | vm_compute; reflexivity | vm_compute; reflexivity
    | reflexivity | reflexivity | vm_compute; reflexivity | subst h; vm_compute; reflexivity].
Defined.

(** When the head is below the new branch, as after a restart in another read
    mode, there is no block to switch back to: the failure of a block of the
    branch reads the last element of an empty vector. *)
Example failed_catch_up :
  let d := from_ok fork_empty (mfold (fun d b => add b false d) [b11; b12 [0]] (reset (bs root10))) in
  let c := mk_ctl root10 d (mk_db 1 [] 10) ∅ [] in
  (maybe_switch_forks SPECULATIVE 11 (b12 [0]) complete c).2 = Err "back() of an empty vector".
Proof. vm_compute. reflexivity. Qed.

(** A produced block whose last irreversible number is below that of its
    predecessor, as in [lib_goes_back], cannot be committed. *)
Example lower_lib_not_committed :
  (commit_produced SPECULATIVE 11 (demo_block (bs_id a11) 1 4 [5]) 106 at_a11).2
  = Err "committed block did not become the new head in fork database".
Proof. vm_compute. reflexivity. Qed.
