(* ===== verification/ContractTables.v ===== *)
(** * The tables of contracts ([contract_table_objects.hpp], the iterator
    cache of [apply_context.hpp])

    Contracts keep rows in tables named by code, scope and table.  A table is
    an object of its own that counts its rows; rows with a value and rows with
    a secondary key hang from it by its id.  Contracts hold rows by integer
    iterators, which a cache translates to the objects of the database.

    The cache of the code holds pointers to objects.  Here a pointer is the id
    of the object; following it when the object is gone is [dangling]. *)

From stdpp Require Import base numbers list gmap strings sorting.
From Stdlib Require Import ZArith Lia.
From S2P Require Import Prelude Chainbase.
Local Open Scope Z_scope.

(** ** Objects *)

Record table_id_object := mk_table {
  tab_id : Z; tab_code : Z; tab_scope : Z; tab_table : Z; tab_payer : Z; tab_count : Z }.

(** Rows differ only in what they carry besides the keys. *)
Record object (X : Type) := mk_object {
  o_id : Z; o_t_id : Z; primary_key : Z; o_payer : Z; o_data : X }.
Arguments mk_object {X} _ _ _ _ _.
Arguments o_id {X} _.
Arguments o_t_id {X} _.
Arguments primary_key {X} _.
Arguments o_payer {X} _.
Arguments o_data {X} _.

(** [key_value_object::value] is a blob of bytes. *)
Definition key_value_object : Type := object (list Z).
(** [secondary_index::index_object]. *)
Definition index_object (sk : Type) : Type := object sk.

#[export] Instance table_eq_dec : EqDecision table_id_object.
Proof. solve_decision. Defined.
#[export] Instance object_eq_dec `{EqDecision X} : EqDecision (object X).
Proof. solve_decision. Defined.

(** Unique keys besides the id.  The index [by_secondary] holds the primary
    key too, so that what conflicts there conflicts in [by_primary]. *)
#[export] Instance table_keys : UniqueKeys table_id_object := {
  ukey := Z * Z * Z; ukeys t := [(tab_code t, tab_scope t, tab_table t)] }.
#[export] Instance object_keys X : UniqueKeys (object X) := {
  ukey := Z * Z; ukeys o := [(o_t_id o, primary_key o)] }.

(** ** Ordered indices *)

(** The five kinds of secondary index. *)
Inductive index_kind := idx64 | idx128 | idx256 | idx_double | idx_long_double.
#[export] Instance index_kind_eq_dec : EqDecision index_kind.
Proof. solve_decision. Defined.

(** Secondary keys and their comparison: integers, pairs of integers, and
    floating point numbers other than NaN, which the intrinsics reject. *)
Class SecondaryKeys (sk : Type) := {
  sk_less : index_kind -> sk -> sk -> bool;
  sk_less_irrefl k x : sk_less k x x = false;
  sk_less_trans k x y z : sk_less k x y = true -> sk_less k y z = true -> sk_less k x z = true;
  sk_less_weak k x y z : sk_less k x z = true -> sk_less k x y = true \/ sk_less k y z = true;
}.

(** [composite_key_compare] *)
Definition primary_less {X} (a b : object X) : bool :=
  (o_t_id a <? o_t_id b) || ((o_t_id a =? o_t_id b) && (primary_key a <? primary_key b)).
Definition secondary_less `{SecondaryKeys sk} (k : index_kind) (a b : object sk) : bool :=
  (o_t_id a <? o_t_id b) ||
  ((o_t_id a =? o_t_id b) &&
   (sk_less k (o_data a) (o_data b) ||
    (negb (sk_less k (o_data b) (o_data a)) && (primary_key a <? primary_key b)))).

Section Ordered.
Context {V : Type} (less : V -> V -> bool).

Definition not_after (a b : V) : Prop := less b a = false.
#[local] Instance not_after_dec : RelDecision not_after.
Proof. intros a b. unfold not_after. apply _. Defined.

(** The rows of an index from its begin to its end. *)
Definition ordered (rows : gmap Z V) : list V := merge_sort not_after (map_to_list rows).*2.

(** The first position whose row is not below, [None] for the end, and the
    position before it, [None] when it is the begin of the index. *)
Definition bound (below : V -> bool) (rows : gmap Z V) : option V :=
  List.find (fun v => negb (below v)) (ordered rows).
Definition before (below : V -> bool) (rows : gmap Z V) : option V :=
  last (filter (fun v => below v = true) (ordered rows)).

(** [++] and [--] on the position of a row. *)
Definition next_of (v : V) (rows : gmap Z V) : option V := bound (fun w => negb (less v w)) rows.
Definition previous_of (v : V) (rows : gmap Z V) : option V := before (fun w => less w v) rows.
End Ordered.

(** ** The iterator cache *)

Definition dangling : string := "dangling pointer".

Record iterator_cache := mk_cache {
  _table_cache : gmap Z (Z * Z);
  _end_iterator_to_table : list Z;
  _iterator_to_object : list (option Z);
  _object_to_iterator : gmap Z Z }.

Definition cache_empty : iterator_cache := mk_cache ∅ [] [] ∅.

Definition size {A} (l : list A) : Z := Z.of_nat (length l).
Definition end_iterator_to_index (ei : Z) : Z := u64 (i32 (i32 (- ei) - 2)).
Definition index_to_end_iterator (indx : Z) : Z := i32 (u64 (- (indx + 2))).

Definition cache_table (tobj : table_id_object) (c : iterator_cache) : Z * iterator_cache :=
  match _table_cache c !! tab_id tobj with
  | Some (_, ei) => (ei, c)
  | None =>
    let ei := index_to_end_iterator (size (_end_iterator_to_table c)) in
    (ei, mk_cache (<[tab_id tobj := (tab_id tobj, ei)]> (_table_cache c))
           (_end_iterator_to_table c ++ [tab_id tobj]) (_iterator_to_object c) (_object_to_iterator c))
  end.

(** The pointer [get_table] follows. *)
Definition get_table (i : Z) (c : iterator_cache) : result Z :=
  '(p, _) ← of_option (_table_cache c !! i) "an invariant was broken, table should be in cache";
  Ok p.

Definition get_end_iterator_by_table_id (i : Z) (c : iterator_cache) : result Z :=
  '(_, ei) ← of_option (_table_cache c !! i) "an invariant was broken, table should be in cache";
  Ok ei.

Definition find_table_by_end_iterator (ei : Z) (c : iterator_cache) : result (option Z) :=
  check (ei <? -1) "not an end iterator" ;;
  let indx := end_iterator_to_index ei in
  if indx >=? size (_end_iterator_to_table c) then Ok None
  else Ok (_end_iterator_to_table c !! Z.to_nat indx).

(** [iterator_cache::get], up to following the pointer. *)
Definition cache_get (iterator : Z) (c : iterator_cache) : result Z :=
  check (negb (iterator =? -1)) "invalid iterator" ;;
  check (iterator >=? 0) "dereference of end iterator" ;;
  check (iterator <? size (_iterator_to_object c)) "iterator out of range" ;;
  match _iterator_to_object c !! Z.to_nat iterator with
  | Some (Some p) => Ok p
  | _ => Err "dereference of deleted object"
  end.

Definition cache_remove (iterator : Z) (c : iterator_cache) : result iterator_cache :=
  check (negb (iterator =? -1)) "invalid iterator" ;;
  check (iterator >=? 0) "cannot call remove on end iterators" ;;
  check (iterator <? size (_iterator_to_object c)) "iterator out of range" ;;
  match _iterator_to_object c !! Z.to_nat iterator with
  | Some (Some obj_ptr) =>
    Ok (mk_cache (_table_cache c) (_end_iterator_to_table c)
          (<[Z.to_nat iterator := None]> (_iterator_to_object c)) (delete obj_ptr (_object_to_iterator c)))
  | _ => Ok c
  end.

Definition cache_add (obj_ptr : Z) (c : iterator_cache) : Z * iterator_cache :=
  match _object_to_iterator c !! obj_ptr with
  | Some i => (i, c)
  | None =>
    let iters := _iterator_to_object c ++ [Some obj_ptr] in
    let i := i32 (size iters - 1) in
    (i, mk_cache (_table_cache c) (_end_iterator_to_table c) iters
          (<[obj_ptr := i]> (_object_to_iterator c)))
  end.

(** ** Billing *)

Definition billable_table_id_object : Z := billable_size_v (44 + overhead_per_row_per_index_ram_bytes * 2).
Definition billable_key_value_object : Z := billable_size_v (32 + 8 + 4 + overhead_per_row_per_index_ram_bytes * 2).
Definition billable_index_object (k : index_kind) : Z :=
  billable_size_v (match k with
                   | idx64 => 24 + 8 | idx128 => 24 + 16 | idx256 => 24 + 32
                   | idx_double => 24 + 8 | idx_long_double => 24 + 16
                   end + overhead_per_row_per_index_ram_bytes * 3).
