(* ===== verification/ContractTablesSpec.v ===== *)
(** * Iterators and ordered indices

    The positions of an ordered index, and the invariant of the iterator
    cache: the two directions of the cache are inverse to each other, cached
    rows exist and their tables are cached. *)

From stdpp Require Import base numbers list gmap strings sorting.
From Stdlib Require Import ZArith Lia.
From S2P Require Import Prelude Chainbase ChainbaseSpec ContractTables.
Local Open Scope Z_scope.

(** ** The rows of a well-formed index *)

Section Rows.
Context {V : Type} `{UniqueKeys V}.
#[local] Abbreviation generic_index := (generic_index (V := V)).
Implicit Types i : generic_index.

Lemma emplace_rows c i v i' : wf i -> emplace c i = Ok (v, i') ->
  wf i' /\ v = c (_next_id i) /\ _indices i !! _next_id i = None /\
  _indices i' = <[_next_id i := v]> (_indices i) /\ _next_id i' = _next_id i + 1.
Proof.
  intros Hwf He. pose proof (emplace_refines c i Hwf) as Hr. cbn [exec] in Hr. rewrite He in Hr.
  cbn [mbind result_bind spec_exec] in Hr. destruct Hr as [Hwf' Hs].
  cbn [abs cur next saved rev] in Hs. unfold emplace in He.
  unfold container_emplace in *. destruct (_indices i !! _next_id i) eqn:En; [done|].
  destruct (unique_at _ _ _); [|done]. cbn [of_option mbind result_bind] in *.
  apply Ok_inj in He. injection He as Hv _. apply Ok_inj in Hs. injection Hs as H1 H2 _ _.
  split_and!; congruence.
Qed.

Lemma emplace_error c i e : emplace c i = Err e ->
  e = "could not insert object, most likely a uniqueness constraint was violated".
Proof. unfold emplace. destruct (container_emplace _ _ _); cbn; [done|]. by intros [= <-]. Qed.

Lemma modify_rows id f i v : wf i -> _indices i !! id = Some v -> (forall v, same_keys (f v) v) ->
  exists i', modify id f i = Ok i' /\ wf i' /\ _indices i' = <[id := f v]> (_indices i) /\ _next_id i' = _next_id i.
Proof.
  intros Hwf Hv Hf. pose proof (modify_refines id f i Hwf Hf) as Hr. cbn [exec spec_exec abs cur next saved rev] in Hr.
  rewrite Hv in Hr. cbn [of_option mbind result_bind] in Hr. unfold container_modify in Hr.
  replace (unique_at (_indices i) id (f v)) with true in Hr.
  - cbn [of_option mbind result_bind] in Hr. destruct (modify id f i) as [i'|e]; [|done].
    destruct Hr as [Hwf' Hs]. apply Ok_inj in Hs. injection Hs as H1 H2 _ _. by exists i'.
  - symmetry. apply unique_at_ok. intros j w Hj Hne. rewrite (conflict_same (f v) v w w) by done.
    by apply (wf_unique _ Hwf id j).
Qed.

Lemma remove_rows id i v : wf i -> _indices i !! id = Some v ->
  exists i', remove id i = Ok i' /\ wf i' /\ _indices i' = delete id (_indices i) /\ _next_id i' = _next_id i.
Proof.
  intros Hwf Hv. pose proof (remove_refines id i Hwf) as Hr. cbn [exec spec_exec abs cur next saved rev] in Hr.
  rewrite Hv in Hr. cbn [of_option mbind result_bind] in Hr. destruct (remove id i) as [i'|e]; [|done].
  destruct Hr as [Hwf' Hs]. apply Ok_inj in Hs. injection Hs as H1 H2 _ _. by exists i'.
Qed.
End Rows.

(** ** Positions of an ordered index *)

Section Ordered.
Context {V : Type} (less : V -> V -> bool).
Hypothesis less_irrefl : forall x, less x x = false.
Hypothesis less_trans : forall x y z, less x y = true -> less y z = true -> less x z = true.
Hypothesis less_weak : forall x y z, less x z = true -> less x y = true \/ less y z = true.
Implicit Types (rows : gmap Z V) (v w : V).

#[local] Existing Instance not_after_dec.

Lemma not_after_total : Total (not_after less).
Proof.
  intros x y. unfold not_after. destruct (less y x) eqn:E; [right | by left].
  destruct (less x y) eqn:E'; [|done]. pose proof (less_trans _ _ _ E E'). by rewrite less_irrefl in *.
Qed.

Lemma not_after_trans : Transitive (not_after less).
Proof.
  intros x y z Hxy Hyz. unfold not_after in *. destruct (less z x) eqn:E; [|done].
  destruct (less_weak z y x E); congruence.
Qed.

Lemma ordered_elem rows v : v ∈ ordered less rows <-> exists id, rows !! id = Some v.
Proof.
  unfold ordered. rewrite merge_sort_Permutation, list_elem_of_fmap. split.
  - intros ([id w] & -> & Hid). exists id. by apply elem_of_map_to_list.
  - intros (id & Hid). exists (id, v). split; [done|]. by apply elem_of_map_to_list.
Qed.

Lemma bound_row below rows v : bound less below rows = Some v -> exists id, rows !! id = Some v.
Proof. intros Hf. apply List.find_some in Hf as [Hin _]. by apply ordered_elem, list_elem_of_In. Qed.

Lemma before_row below rows v : before less below rows = Some v -> exists id, rows !! id = Some v.
Proof.
  intros Hl. apply last_Some_elem_of, list_elem_of_filter in Hl as [_ Hin]. by apply ordered_elem.
Qed.

Lemma ordered_sorted rows : StronglySorted (not_after less) (ordered less rows).
Proof.
  apply Sorted_StronglySorted; [apply not_after_trans|]. apply Sorted_merge_sort, not_after_total.
Qed.

Lemma find_first (P : V -> bool) l v : StronglySorted (not_after less) l -> List.find P l = Some v ->
  v ∈ l /\ P v = true /\ forall w, w ∈ l -> P w = true -> less w v = false.
Proof.
  induction 1 as [|x l Hs IH Hx]; [done|]. simpl. destruct (P x) eqn:E.
  - intros [= <-]. split_and!; [by left | done |]. intros w Hw Hp.
    apply elem_of_cons in Hw as [->|Hw]; [apply less_irrefl|]. rewrite Forall_forall in Hx. by apply Hx.
  - intros Hf. destruct (IH Hf) as (Hin & Hp & Hmin). split_and!; [by right | done|].
    intros w Hw Hpw. apply elem_of_cons in Hw as [->|Hw]; [congruence | by apply Hmin].
Qed.

(** [bound]: the first row that is not below. *)
Lemma bound_some below rows v : bound less below rows = Some v ->
  (exists id, rows !! id = Some v) /\ below v = false /\
  forall id w, rows !! id = Some w -> below w = false -> less w v = false.
Proof.
  unfold bound. intros Hf. apply find_first in Hf as (Hin & Hp & Hmin); [|apply ordered_sorted].
  apply ordered_elem in Hin. apply negb_true_iff in Hp. split_and!; [done..|].
  intros id w Hw Hb. apply Hmin; [apply ordered_elem; by exists id | by rewrite Hb].
Qed.

Lemma bound_none below rows : bound less below rows = None ->
  forall id w, rows !! id = Some w -> below w = true.
Proof.
  unfold bound. intros Hf id w Hw. assert (Hin : w ∈ ordered less rows) by (apply ordered_elem; by exists id).
  apply list_elem_of_In in Hin. pose proof (List.find_none _ _ Hf _ Hin) as Hn. by apply negb_false_iff in Hn.
Qed.

Lemma last_sorted l v : StronglySorted (not_after less) l -> last l = Some v ->
  v ∈ l /\ forall w, w ∈ l -> less v w = false.
Proof.
  induction 1 as [|x l Hs IH Hx]; [done|]. destruct l as [|y l].
  - intros [= <-]. split; [by left|]. intros w Hw. apply list_elem_of_singleton in Hw as ->. apply less_irrefl.
  - rewrite last_cons_cons. intros Hl. destruct (IH Hl) as [Hin Hmax]. split; [by right|].
    intros w Hw. apply elem_of_cons in Hw as [->|Hw]; [|by apply Hmax].
    rewrite Forall_forall in Hx. by apply Hx.
Qed.

Lemma sorted_filter (P : V -> Prop) `{!forall x, Decision (P x)} l :
  StronglySorted (not_after less) l -> StronglySorted (not_after less) (filter P l).
Proof.
  induction 1 as [|x l Hs IH Hx]; [constructor|]. rewrite filter_cons. case_decide; [|done].
  constructor; [done|]. rewrite Forall_forall in *. intros y [_ Hy]%list_elem_of_filter. by apply Hx.
Qed.

(** [before]: the last row that is below. *)
Lemma before_some below rows v : before less below rows = Some v ->
  (exists id, rows !! id = Some v) /\ below v = true /\
  forall id w, rows !! id = Some w -> below w = true -> less v w = false.
Proof.
  unfold before. intros Hf. apply last_sorted in Hf as [Hin Hmax]; [|apply sorted_filter, ordered_sorted].
  apply list_elem_of_filter in Hin as [Hb Hin]. apply ordered_elem in Hin. split_and!; [done..|].
  intros id w Hw Hbw. apply Hmax. apply list_elem_of_filter. split; [done|]. apply ordered_elem. by exists id.
Qed.

Lemma before_none below rows : before less below rows = None ->
  forall id w, rows !! id = Some w -> below w = false.
Proof.
  unfold before. intros Hl id w Hw. apply last_None in Hl. destruct (below w) eqn:E; [|done].
  assert (Hin : w ∈ filter (fun v => below v = true) (ordered less rows))
    by (apply list_elem_of_filter; split; [done|]; apply ordered_elem; by exists id).
  rewrite Hl in Hin. by apply not_elem_of_nil in Hin.
Qed.
End Ordered.

(** ** The orders of the rows *)

Lemma primary_less_lt {X} (a b : object X) : primary_less a b = true <->
  o_t_id a < o_t_id b \/ (o_t_id a = o_t_id b /\ primary_key a < primary_key b).
Proof. unfold primary_less. rewrite orb_true_iff, andb_true_iff. lia. Qed.

Lemma primary_less_laws {X} :
  (forall x : object X, primary_less x x = false) /\
  (forall x y z : object X, primary_less x y = true -> primary_less y z = true -> primary_less x z = true) /\
  (forall x y z : object X, primary_less x z = true -> primary_less x y = true \/ primary_less y z = true).
Proof.
  split_and!; intros *; rewrite ?primary_less_lt; [|lia|lia].
  apply not_true_iff_false. rewrite primary_less_lt. lia.
Qed.

Section Secondary.
Context {sk : Type} `{SecondaryKeys sk} (k : index_kind).

Lemma secondary_less_lt (a b : object sk) : secondary_less k a b = true <->
  o_t_id a < o_t_id b \/ (o_t_id a = o_t_id b /\
    (sk_less k (o_data a) (o_data b) = true \/
     (sk_less k (o_data b) (o_data a) = false /\ primary_key a < primary_key b))).
Proof.
  unfold secondary_less.
  rewrite orb_true_iff, andb_true_iff, orb_true_iff, andb_true_iff, negb_true_iff, Z.ltb_lt, Z.eqb_eq, Z.ltb_lt. tauto.
Qed.

Lemma sk_less_asym x y : sk_less k x y = true -> sk_less k y x = false.
Proof.
  intros Hxy. destruct (sk_less k y x) eqn:E; [|done]. rewrite <- (sk_less_irrefl k x).
  symmetry. by eapply sk_less_trans.
Qed.

Lemma secondary_less_laws :
  (forall x : object sk, secondary_less k x x = false) /\
  (forall x y z : object sk, secondary_less k x y = true -> secondary_less k y z = true -> secondary_less k x z = true) /\
  (forall x y z : object sk, secondary_less k x z = true -> secondary_less k x y = true \/ secondary_less k y z = true).
Proof.
  split_and!.
  - intros x. apply not_true_iff_false. rewrite secondary_less_lt, sk_less_irrefl. intuition (lia || done).
  - intros x y z. rewrite !secondary_less_lt. intros [Hx|[Ex Hx]] [Hy|[Ey Hy]]; [left; lia..|right].
    split; [lia|]. pose proof (sk_less_weak k (o_data z) (o_data y) (o_data x)) as W.
    destruct (sk_less k (o_data z) (o_data x)) eqn:Ezx.
    + exfalso. destruct (W eq_refl) as [Wz|Wz]; pose proof (sk_less_asym _ _ Wz); intuition congruence.
    + destruct Hx as [Hx|[Hx ?]]; [|destruct Hy as [Hy|[Hy ?]]].
      * left. destruct (sk_less_weak k (o_data x) (o_data z) (o_data y) Hx) as [?|E]; [done|].
        destruct Hy as [Hy|[Hy ?]]; [by eapply sk_less_trans | congruence].
      * left. destruct (sk_less_weak k (o_data y) (o_data x) (o_data z) Hy) as [?|?]; [congruence | done].
      * right. split; [done | lia].
  - intros x y z. rewrite !secondary_less_lt. intros Hxz.
    destruct (Z.lt_trichotomy (o_t_id x) (o_t_id y)) as [?|[Exy|?]]; [by left; left | | right; left; lia].
    destruct (Z.lt_trichotomy (o_t_id y) (o_t_id z)) as [?|[Eyz|?]]; [by right; left | | lia].
    destruct Hxz as [?|[_ Hxz]]; [lia|].
    destruct (sk_less k (o_data x) (o_data y)) eqn:Lxy; [left; right; split; [done | by left]|].
    destruct (sk_less k (o_data y) (o_data z)) eqn:Lyz; [right; right; split; [done | by left]|].
    destruct Hxz as [Hxz|[Hzx Hlt]]; [destruct (sk_less_weak k _ (o_data y) _ Hxz); congruence|].
    destruct (sk_less k (o_data y) (o_data x)) eqn:Lyx.
    + destruct (sk_less_weak k _ (o_data z) _ Lyx); congruence.
    + destruct (sk_less k (o_data z) (o_data y)) eqn:Lzy; [destruct (sk_less_weak k _ (o_data x) _ Lzy); congruence|].
      destruct (Z.lt_ge_cases (primary_key x) (primary_key y)); [left | right]; right; (split; [done|]); right;
        (split; [done | lia]).
Qed.
End Secondary.

(** ** The iterator cache *)

(** A cache over the rows [R]; table ids are below [N]. *)
Record cache_ok {X} (N : Z) (R : gmap Z (object X)) (c : iterator_cache) : Prop := {
  ck_forth i p : _iterator_to_object c !! i = Some (Some p) -> _object_to_iterator c !! p = Some (Z.of_nat i);
  ck_back p z : _object_to_iterator c !! p = Some z ->
    exists i, z = Z.of_nat i /\ _iterator_to_object c !! i = Some (Some p);
  ck_live p z : _object_to_iterator c !! p = Some z ->
    exists o, R !! p = Some o /\ is_Some (_table_cache c !! o_t_id o);
  ck_table t p ei : _table_cache c !! t = Some (p, ei) ->
    p = t /\ t < N /\ exists j, ei = - (Z.of_nat j + 2) /\ _end_iterator_to_table c !! j = Some t;
  ck_end j t : _end_iterator_to_table c !! j = Some t -> _table_cache c !! t = Some (t, - (Z.of_nat j + 2)) }.

(** At most [n] iterators of each sort. *)
Definition cache_small (n : nat) (c : iterator_cache) : Prop :=
  (length (_iterator_to_object c) <= n)%nat /\ (length (_end_iterator_to_table c) <= n)%nat.

Lemma cache_empty_ok {X} N (R : gmap Z (object X)) : cache_ok N R cache_empty.
Proof. by split. Qed.

Lemma cache_small_le n m c : cache_small n c -> (n <= m)%nat -> cache_small m c.
Proof. unfold cache_small. lia. Qed.

(** The cache does not mind other rows, later tables, and other data. *)
Lemma cache_ok_rows {X} N N' (R R' : gmap Z (object X)) c : cache_ok N R c -> N <= N' ->
  (forall p z o, _object_to_iterator c !! p = Some z -> R !! p = Some o ->
     exists o', R' !! p = Some o' /\ o_t_id o' = o_t_id o) ->
  cache_ok N' R' c.
Proof.
  intros [H1 H2 H3 H4 H5] HN HR. split; [done | done | | | done].
  - intros p z Hp. destruct (H3 p z Hp) as (o & Ho & Ht). destruct (HR p z o Hp Ho) as (o' & Ho' & E).
    exists o'. by rewrite E.
  - intros t p ei Ht. destruct (H4 t p ei Ht) as (? & ? & ?). split_and!; [done | lia | done].
Qed.

Section Cache.
Context {X : Type} (N : Z) (R : gmap Z (object X)).
Implicit Types c : iterator_cache.

Lemma index_to_end_small j : 0 <= j < 2 ^ 31 - 2 -> index_to_end_iterator j = - (j + 2).
Proof.
  intros Hj. unfold index_to_end_iterator, i32, u64.
  rewrite <- (Zplus_mod_idemp_l (- (j + 2) mod 2 ^ 64)), (Z.mod_mod_divide _ (2 ^ 64) (2 ^ 32)).
  - rewrite Zplus_mod_idemp_l, Z.mod_small by lia. lia.
  - by exists (2 ^ 32).
Qed.

Lemma cache_table_ok n c t : cache_ok N R c -> (length (_end_iterator_to_table c) <= n)%nat -> Z.of_nat n < 2 ^ 31 - 2 -> tab_id t < N ->
  let '(ei, c') := cache_table t c in
  cache_ok N R c' /\ _table_cache c' !! tab_id t = Some (tab_id t, ei) /\
  _table_cache c ⊆ _table_cache c' /\
  _iterator_to_object c' = _iterator_to_object c /\ _object_to_iterator c' = _object_to_iterator c /\
  (length (_end_iterator_to_table c') <= S n)%nat /\ prefix (_end_iterator_to_table c) (_end_iterator_to_table c').
Proof.
  intros [H1 H2 H3 H4 H5] Hn Hb Ht. unfold cache_table.
  destruct (_table_cache c !! tab_id t) as [[p ei]|] eqn:E.
  - destruct (H4 _ _ _ E) as (-> & _). split_and!; done || lia.
  - rewrite index_to_end_small by (unfold size; lia). unfold size. simpl. split_and!.
    + split; simpl; [done | done | | |].
      * intros p z Hp. destruct (H3 p z Hp) as (o & Ho & Hs). exists o. split; [done|].
        rewrite lookup_insert_is_Some. destruct (decide (tab_id t = o_t_id o)); by auto.
      * intros t' p ei [[<- [= <- <-]]|[Hne Ht']]%lookup_insert_Some.
        -- split_and!; [done | done|]. eexists. split; [done|]. by apply list_lookup_middle.
        -- destruct (H4 _ _ _ Ht') as (-> & ? & j & -> & Hj). split_and!; [done | done|].
           exists j. split; [done|]. by apply lookup_app_l_Some.
      * intros j t' [Hj|[Hlen Hj]]%lookup_app_Some.
        -- rewrite lookup_insert_ne; [by apply H5|]. intros <-. apply H5 in Hj. congruence.
        -- apply list_lookup_singleton_Some in Hj as [Hj <-]. rewrite lookup_insert_eq. do 3 f_equal. lia.
    + by rewrite lookup_insert_eq.
    + by apply insert_subseteq.
    + done.
    + done.
    + rewrite length_app. simpl. lia.
    + by eexists.
Qed.

Lemma cache_add_ok n c p o : cache_ok N R c -> (length (_iterator_to_object c) <= n)%nat -> Z.of_nat n < 2 ^ 31 - 2 ->
  R !! p = Some o -> is_Some (_table_cache c !! o_t_id o) ->
  let '(i, c') := cache_add p c in
  cache_ok N R c' /\ 0 <= i /\ _iterator_to_object c' !! Z.to_nat i = Some (Some p) /\
  prefix (_iterator_to_object c) (_iterator_to_object c') /\
  _table_cache c' = _table_cache c /\ _end_iterator_to_table c' = _end_iterator_to_table c /\
  (length (_iterator_to_object c') <= S n)%nat.
Proof.
  intros [H1 H2 H3 H4 H5] Hn Hb Hp Ht. unfold cache_add.
  destruct (_object_to_iterator c !! p) as [z|] eqn:E.
  - destruct (H2 _ _ E) as (i & -> & Hi). rewrite Nat2Z.id. split_and!; done || lia.
  - unfold size. rewrite length_app. simpl.
    rewrite i32_small by (unfold is_i32; lia). replace (Z.of_nat (length (_iterator_to_object c) + 1) - 1)
      with (Z.of_nat (length (_iterator_to_object c))) by lia. rewrite Nat2Z.id. split_and!.
    + split; simpl; [| | |done|done].
      * intros i q [Hi|[Hlen Hi]]%lookup_app_Some.
        -- rewrite lookup_insert_ne; [by apply H1|]. intros <-. apply H1 in Hi. congruence.
        -- apply list_lookup_singleton_Some in Hi as [Hi [= ->]]. rewrite lookup_insert_eq. do 2 f_equal. lia.
      * intros q z [[<- <-]|[Hne Hq]]%lookup_insert_Some.
        -- eexists. split; [done|]. by apply list_lookup_middle.
        -- destruct (H2 _ _ Hq) as (i & -> & Hi). exists i. split; [done|]. by apply lookup_app_l_Some.
      * intros q z [[<- <-]|[Hne Hq]]%lookup_insert_Some; [by exists o | by eapply H3].
    + lia.
    + by apply list_lookup_middle.
    + by eexists.
    + done.
    + done.
    + rewrite ?length_app. simpl. lia.
Qed.

(** An end iterator of the cache is the one of its table. *)
Lemma find_table_end c n it p : cache_ok N R c -> (length (_end_iterator_to_table c) <= n)%nat -> Z.of_nat n < 2 ^ 31 - 2 ->
  is_i32 it -> find_table_by_end_iterator it c = Ok (Some p) -> _table_cache c !! p = Some (p, it).
Proof.
  intros Hok Hn Hb Hit Hf. unfold find_table_by_end_iterator in Hf. ok_bind Hf as ? Hlt. ok_inv.
  destruct (end_iterator_to_index it >=? size (_end_iterator_to_table c)) eqn:E; [done|].
  apply (proj1 (Ok_inj _ _)) in Hf.
  assert (Ei : end_iterator_to_index it = - it - 2).
  { unfold end_iterator_to_index in *. destruct (decide (it = - 2 ^ 31)) as [->|Hne].
    - change (u64 (i32 (i32 (- - 2 ^ 31) - 2))) with (2 ^ 31 - 2) in E. unfold size in E. lia.
    - rewrite (i32_small (- it)) by mach_lia. rewrite i32_small by mach_lia. apply u64_small. mach_lia. }
  rewrite Ei in Hf. rewrite (ck_end _ _ _ Hok _ _ Hf). do 2 f_equal. rewrite Z2Nat.id by lia. lia.
Qed.

Lemma cache_get_ok c it p : cache_ok N R c -> cache_get it c = Ok p ->
  0 <= it /\ _iterator_to_object c !! Z.to_nat it = Some (Some p) /\ _object_to_iterator c !! p = Some it /\
  exists o, R !! p = Some o /\ is_Some (_table_cache c !! o_t_id o).
Proof.
  intros [H1 H2 H3 H4 H5] Hg. unfold cache_get in Hg. do 3 ok_bind Hg as ? ?. ok_inv.
  destruct (_iterator_to_object c !! Z.to_nat it) as [[q|]|] eqn:E; [|done..].
  apply Ok_inj in Hg as ->. pose proof (H1 _ _ E) as Hp. rewrite Z2Nat.id in Hp by lia. eauto.
Qed.

Lemma cache_remove_ok c it p : cache_ok N R c -> cache_get it c = Ok p ->
  exists c', cache_remove it c = Ok c' /\ cache_ok N (delete p R) c' /\
    _table_cache c' = _table_cache c /\ _end_iterator_to_table c' = _end_iterator_to_table c /\
    _iterator_to_object c' = <[Z.to_nat it := None]> (_iterator_to_object c).
Proof.
  intros Hok Hg. destruct (cache_get_ok c it p Hok Hg) as (Hit & Hi & Hp & o & Ho & Ht).
  unfold cache_get in Hg. do 3 ok_bind Hg as ? ?. ok_inv. unfold cache_remove.
  assert (E1 : (it =? -1) = false) by lia. assert (E2 : (it >=? 0) = true) by lia.
  rewrite E1, E2. assert (E3 : (it <? size (_iterator_to_object c)) = true) by (unfold size in *; lia). rewrite E3, Hi.
  cbn [negb check mbind result_bind]. eexists. split; [done|]. clear - Hok Hit Hi Hp. destruct Hok as [H1 H2 H3 H4 H5].
  split_and!; [|done..]. split; simpl; [| | |done|done].
  - intros i q Hq. apply list_lookup_insert_Some in Hq as [(? & ? & ?)|[Hne Hq]]; [done|].
    rewrite lookup_delete_ne; [by apply H1|]. intros <-. apply H1 in Hq. rewrite Hq in Hp. injection Hp. lia.
  - intros q z [Hne Hq]%lookup_delete_Some. destruct (H2 _ _ Hq) as (i & -> & Hi'). exists i. split; [done|].
    rewrite list_lookup_insert_ne; [done|]. intros <-. congruence.
  - intros q z [Hne Hq]%lookup_delete_Some. destruct (H3 _ _ Hq) as (o' & Ho' & Ht'). exists o'.
    by rewrite lookup_delete_ne.
Qed.
End Cache.
