(* ===== verification/ApplyContext.v ===== *)
(** * Contract access to its tables ([apply_context.hpp], [apply_context.cpp])

    The database methods of the apply context, one action at a time: rows with
    a value and rows with secondary keys, found, walked and changed through
    iterators, and the RAM their payers are charged.  The table of rows with a
    value and the five tables of secondary keys have the same shape, so that
    the context is a family over [store_kind].  An [Err] ends the transaction,
    whose effects the chain undoes. *)

From stdpp Require Import base numbers list gmap strings sorting.
From Stdlib Require Import ZArith Lia Eqdep_dec.
From S2P Require Import Prelude Chainbase Accumulator ResourceLimits Authority ContractTables.
Local Open Scope Z_scope.

Inductive store_kind := KV | IDX (k : index_kind).
#[export] Instance store_kind_eq_dec : EqDecision store_kind.
Proof. solve_decision. Defined.
Definition all_stores : list store_kind :=
  [KV; IDX idx64; IDX idx128; IDX idx256; IDX idx_double; IDX idx_long_double].

(** The action being applied, and what the controller answers about protocol
    features and the billing of RAM in notifications. *)
Record act_env := mk_act_env {
  receiver : Z; act_account : Z; act_authorization : list permission_level;
  privileged : bool; ram_restrictions : bool; ram_billing_in_notify_allowed : bool }.

Section ApplyContext.
Context {sk : Type} `{SecondaryKeys sk}.

Definition payload (s : store_kind) : Type := match s with KV => list Z | IDX _ => sk end.
#[local] Abbreviation rows_of s := (generic_index (V := object (payload s))).

(** What the methods read and change: the tables, the RAM counters of the
    resource limits manager, the iterator caches, and the notes on RAM. *)
Record apply_context := mk_ctx {
  tables : generic_index (V := table_id_object);
  stores : forall s, rows_of s;
  resources : rdb;
  caches : store_kind -> iterator_cache;
  _account_ram_deltas : gmap Z Z;
  validate_ram_usage : gset Z }.

(** A store of the family replaced. *)
Definition set_store (f : forall s, rows_of s) (s : store_kind) (i : rows_of s) : forall s, rows_of s :=
  fun s' => match decide (s = s') with
            | left e => eq_rect s (fun s => rows_of s) i s' e
            | right _ => f s'
            end.
Definition set_cache (f : store_kind -> iterator_cache) (s : store_kind) (c : iterator_cache) :=
  fun s' => if decide (s = s') then c else f s'.

Definition act (A : Type) : Type := apply_context -> result (A * apply_context).
#[export] Instance act_ret : MRet act := fun A a c => Ok (a, c).
#[export] Instance act_bind : MBind act := fun A B f m c => '(a, c) ← m c; f a c.

Definition lift {A} (r : result A) : act A := fun c => a ← r; Ok (a, c).
Definition read {A} (f : apply_context -> A) : act A := fun c => Ok (f c, c).

Definition on_tables {A} (f : generic_index (V := table_id_object) -> result (A * generic_index)) : act A :=
  fun c => '(a, i) ← f (tables c);
           Ok (a, mk_ctx i (stores c) (resources c) (caches c) (_account_ram_deltas c) (validate_ram_usage c)).
Definition on_store {A} (s : store_kind) (f : rows_of s -> result (A * rows_of s)) : act A :=
  fun c => '(a, i) ← f (stores c s);
           Ok (a, mk_ctx (tables c) (set_store (stores c) s i) (resources c) (caches c)
                    (_account_ram_deltas c) (validate_ram_usage c)).
Definition on_cache {A} (s : store_kind) (f : iterator_cache -> result (A * iterator_cache)) : act A :=
  fun c => '(a, i) ← f (caches c s);
           Ok (a, mk_ctx (tables c) (stores c) (resources c) (set_cache (caches c) s i)
                    (_account_ram_deltas c) (validate_ram_usage c)).

(** A const method of the cache. *)
Definition from_cache {A} (s : store_kind) (f : iterator_cache -> result A) : act A :=
  fun c => a ← f (caches c s); Ok (a, c).

Definition unit_result {A} (r : result A) : result (unit * A) := a ← r; Ok (tt, a).

(** ** Following pointers *)

Definition deref_table (p : Z) : act table_id_object := fun c =>
  t ← of_option (find p (tables c)) dangling; Ok (t, c).
Definition deref (s : store_kind) (p : Z) : act (object (payload s)) := fun c =>
  o ← of_option (find p (stores c s)) dangling; Ok (o, c).

(** ** RAM *)

Definition has_authorization (e : act_env) (account : Z) : bool :=
  existsb (fun auth : permission_level => auth.1 =? account) (act_authorization e).
Definition require_authorization (e : act_env) (account : Z) : result unit :=
  check (has_authorization e account) "missing authority".

(** [transaction_context::add_ram_usage] *)
Definition trx_add_ram_usage (account ram_delta : Z) : act unit := fun c =>
  rl ← add_pending_ram_usage account ram_delta (resources c);
  Ok (tt, mk_ctx (tables c) (stores c) rl (caches c) (_account_ram_deltas c)
            (if ram_delta >? 0 then {[ account ]} ∪ validate_ram_usage c else validate_ram_usage c)).

(** [_account_ram_deltas.emplace], or the addition to the entry there is. *)
Definition note_ram_delta (account ram_delta : Z) : act unit := fun c =>
  Ok (tt, mk_ctx (tables c) (stores c) (resources c) (caches c)
            (<[account := match _account_ram_deltas c !! account with
                          | None => ram_delta
                          | Some delta => i64 (delta + ram_delta)
                          end]> (_account_ram_deltas c))
            (validate_ram_usage c)).

Definition add_ram_usage (account ram_delta : Z) : act unit :=
  trx_add_ram_usage account ram_delta ≫= fun _ => note_ram_delta account ram_delta.

Definition update_db_usage (e : act_env) (payer delta : Z) : act unit :=
  (if delta >? 0 then
     if negb (privileged e || (payer =? receiver e) || ram_restrictions e) then
       lift (check (ram_billing_in_notify_allowed e || (receiver e =? act_account e))
               "Cannot charge RAM to other accounts during notify.") ≫= fun _ =>
       lift (require_authorization e payer)
     else mret tt
   else mret tt) ≫= fun _ =>
  add_ram_usage payer delta.

(** ** Tables *)

Definition find_table (code scope table : Z) : act (option table_id_object) := fun c =>
  Ok (List.find (fun t => (tab_code t =? code) && (tab_scope t =? scope) && (tab_table t =? table))
        (map_to_list (_indices (tables c))).*2, c).

Definition find_or_create_table (e : act_env) (code scope table payer : Z) : act table_id_object :=
  existing_tid ← find_table code scope table;
  match existing_tid with
  | Some t => mret t
  | None =>
    update_db_usage e payer billable_table_id_object ≫= fun _ =>
    on_tables (emplace (fun id => mk_table id code scope table payer 0))
  end.

Definition remove_table (e : act_env) (tid : table_id_object) : act unit :=
  update_db_usage e (tab_payer tid) (i64 (u64 (- billable_table_id_object))) ≫= fun _ =>
  on_tables (fun i => unit_result (remove (tab_id tid) i)).

Definition add_count (p d : Z) : act unit :=
  on_tables (fun i => unit_result (modify p (fun t =>
    mk_table (tab_id t) (tab_code t) (tab_scope t) (tab_table t) (tab_payer t) (u32 (tab_count t + d))) i)).

(** ** Changing rows *)

(** The creation of a row, its count and its bill, and its iterator. *)
Definition create_row (e : act_env) (s : store_kind) (tab : table_id_object) (payer id : Z)
    (data : payload s) (billed : Z) : act Z :=
  obj ← on_store s (emplace (fun new_id => mk_object new_id (tab_id tab) id payer data));
  add_count (tab_id tab) 1 ≫= fun _ =>
  update_db_usage e payer billed ≫= fun _ =>
  on_cache s (fun c => Ok (cache_table tab c)) ≫= fun _ =>
  on_cache s (fun c => Ok (cache_add (o_id obj) c)).

Definition db_store_i64 (e : act_env) (scope table payer id : Z) (buffer : list Z) : act Z :=
  tab ← find_or_create_table e (receiver e) scope table payer;
  lift (check (negb (payer =? 0)) "must specify a valid account to pay for new record") ≫= fun _ =>
  create_row e KV tab payer id buffer (i64 (u64 (size buffer + billable_key_value_object))).

(** [generic_index::store] *)
Definition idx_store (e : act_env) (k : index_kind) (scope table payer id : Z) (value : sk) : act Z :=
  lift (check (negb (payer =? 0)) "must specify a valid account to pay for new record") ≫= fun _ =>
  tab ← find_or_create_table e (receiver e) scope table payer;
  create_row e (IDX k) tab payer id value (billable_index_object k).

(** The table an iterator points into, which has to belong to the receiver. *)
Definition own_table (e : act_env) (s : store_kind) (obj : object (payload s)) : act table_id_object :=
  p ← from_cache s (get_table (o_t_id obj));
  table_obj ← deref_table p;
  lift (check (tab_code table_obj =? receiver e) "db access violation") ≫= fun _ =>
  mret table_obj.

(** The row behind an iterator. *)
Definition row_at (s : store_kind) (iterator : Z) : act (object (payload s)) :=
  p ← from_cache s (cache_get iterator);
  deref s p.

Definition set_row (s : store_kind) (obj : object (payload s)) (payer : Z) (data : payload s) : act unit :=
  on_store s (fun i => unit_result (modify (o_id obj) (fun o =>
    mk_object (o_id o) (o_t_id o) (primary_key o) payer data) i)).

Definition db_update_i64 (e : act_env) (iterator payer : Z) (buffer : list Z) : act unit :=
  obj ← row_at KV iterator;
  own_table e KV obj ≫= fun _ =>
  let overhead := billable_key_value_object in
  let old_size := i64 (u64 (size (o_data obj) + overhead)) in
  let new_size := i64 (u64 (size buffer + overhead)) in
  let payer := if payer =? 0 then o_payer obj else payer in
  (if negb (o_payer obj =? payer) then
     update_db_usage e (o_payer obj) (i64 (- old_size)) ≫= fun _ => update_db_usage e payer new_size
   else if negb (old_size =? new_size) then update_db_usage e (o_payer obj) (i64 (new_size - old_size))
   else mret tt) ≫= fun _ =>
  set_row KV obj payer buffer.

(** [generic_index::update] *)
Definition idx_update (e : act_env) (k : index_kind) (iterator payer : Z) (secondary : sk) : act unit :=
  obj ← row_at (IDX k) iterator;
  own_table e (IDX k) obj ≫= fun _ =>
  let payer := if payer =? 0 then o_payer obj else payer in
  let billing_size := billable_index_object k in
  (if negb (o_payer obj =? payer) then
     update_db_usage e (o_payer obj) (i64 (- billing_size)) ≫= fun _ => update_db_usage e payer billing_size
   else mret tt) ≫= fun _ =>
  set_row (IDX k) obj payer secondary.

(** The removal of a row, its count and its empty table, and its iterator. *)
Definition erase_row (e : act_env) (s : store_kind) (obj : object (payload s)) (table_obj : table_id_object)
    (iterator : Z) : act unit :=
  add_count (tab_id table_obj) (-1) ≫= fun _ =>
  on_store s (fun i => unit_result (remove (o_id obj) i)) ≫= fun _ =>
  table_obj ← deref_table (tab_id table_obj);
  (if tab_count table_obj =? 0 then remove_table e table_obj else mret tt) ≫= fun _ =>
  on_cache s (fun c => unit_result (cache_remove iterator c)).

Definition db_remove_i64 (e : act_env) (iterator : Z) : act unit :=
  obj ← row_at KV iterator;
  table_obj ← own_table e KV obj;
  update_db_usage e (o_payer obj) (i64 (u64 (- (size (o_data obj) + billable_key_value_object)))) ≫= fun _ =>
  erase_row e KV obj table_obj iterator.

(** [generic_index::remove]: the payer is refunded before the table is checked. *)
Definition idx_remove (e : act_env) (k : index_kind) (iterator : Z) : act unit :=
  obj ← row_at (IDX k) iterator;
  update_db_usage e (o_payer obj) (i64 (u64 (- billable_index_object k))) ≫= fun _ =>
  table_obj ← own_table e (IDX k) obj;
  erase_row e (IDX k) obj table_obj iterator.

(** ** Finding and walking *)

(** An iterator for the row found, or the end iterator of the table. *)
Definition iterator_for (s : store_kind) (tab_end : Z) (t_id : Z) (o : option (object (payload s)))
    : act (Z * option (object (payload s))) :=
  match o with
  | Some o =>
    if negb (o_t_id o =? t_id) then mret (tab_end, None)
    else i ← on_cache s (fun c => Ok (cache_add (o_id o) c)); mret (i, Some o)
  | None => mret (tab_end, None)
  end.

(** The common frame of the searches: no table, no iterator. *)
Definition search (s : store_kind) (code scope table : Z)
    (found : Z -> gmap Z (object (payload s)) -> option (object (payload s)))
    : act (Z * option (object (payload s))) :=
  tab ← find_table code scope table;
  match tab with
  | None => mret (-1, None)
  | Some tab =>
    table_end_itr ← on_cache s (fun c => Ok (cache_table tab c));
    rows ← read (fun c => _indices (stores c s));
    iterator_for s table_end_itr (tab_id tab) (found (tab_id tab) rows)
  end.

Definition key_find {X} (id t : Z) (rows : gmap Z (object X)) : option (object X) :=
  List.find (fun o => (o_t_id o =? t) && (primary_key o =? id)) (map_to_list rows).*2.
Definition key_lower {X} (id t : Z) : gmap Z (object X) -> option (object X) :=
  bound primary_less (fun o => (o_t_id o <? t) || ((o_t_id o =? t) && (primary_key o <? id))).
Definition key_upper {X} (id t : Z) : gmap Z (object X) -> option (object X) :=
  bound primary_less (fun o => (o_t_id o <? t) || ((o_t_id o =? t) && (primary_key o <=? id))).
Definition sk_lower (k : index_kind) (v : sk) (t : Z) : gmap Z (object sk) -> option (object sk) :=
  bound (secondary_less k) (fun o => (o_t_id o <? t) || ((o_t_id o =? t) && sk_less k (o_data o) v)).
Definition sk_upper (k : index_kind) (v : sk) (t : Z) : gmap Z (object sk) -> option (object sk) :=
  bound (secondary_less k) (fun o => (o_t_id o <? t) || ((o_t_id o =? t) && negb (sk_less k v (o_data o)))).
(** [find] with part of a composite key: the first row with equivalent keys. *)
Definition sk_find (k : index_kind) (v : sk) (t : Z) (rows : gmap Z (object sk)) : option (object sk) :=
  match sk_lower k v t rows with
  | Some o => if (o_t_id o =? t) && negb (sk_less k v (o_data o)) then Some o else None
  | None => None
  end.

Definition find_primary (s : store_kind) (code scope table id : Z) := search s code scope table (key_find id).
Definition lowerbound_primary (s : store_kind) (code scope table id : Z) := search s code scope table (key_lower id).
Definition upperbound_primary (s : store_kind) (code scope table id : Z) := search s code scope table (key_upper id).
Definition find_secondary (k : index_kind) (code scope table : Z) (v : sk) :=
  search (IDX k) code scope table (sk_find k v).
Definition lowerbound_secondary (k : index_kind) (code scope table : Z) (v : sk) :=
  search (IDX k) code scope table (sk_lower k v).
Definition upperbound_secondary (k : index_kind) (code scope table : Z) (v : sk) :=
  search (IDX k) code scope table (sk_upper k v).

Definition end_of (s : store_kind) (code scope table : Z) : act Z :=
  tab ← find_table code scope table;
  match tab with
  | None => mret (-1)
  | Some tab => on_cache s (fun c => Ok (cache_table tab c))
  end.

(** The walk along an index of a store. *)
Definition next_in (s : store_kind) (less : object (payload s) -> object (payload s) -> bool) (iterator : Z)
    : act (Z * option Z) :=
  if iterator <? -1 then mret (-1, None)
  else
    obj ← row_at s iterator;
    rows ← read (fun c => _indices (stores c s));
    let at_end := i ← from_cache s (get_end_iterator_by_table_id (o_t_id obj));
                  mret (i, None) in
    match next_of less obj rows with
    | None => at_end
    | Some o =>
      if negb (o_t_id o =? o_t_id obj) then at_end
      else i ← on_cache s (fun c => Ok (cache_add (o_id o) c)); mret (i, Some (primary_key o))
    end.

Definition previous_in (s : store_kind) (less : object (payload s) -> object (payload s) -> bool) (iterator : Z)
    : act (Z * option Z) :=
  let step t_id (o : option (object (payload s))) : act (Z * option Z) :=
    match o with
    | None => mret (-1, None)
    | Some o =>
      if negb (o_t_id o =? t_id) then mret (-1, None)
      else i ← on_cache s (fun c => Ok (cache_add (o_id o) c)); mret (i, Some (primary_key o))
    end in
  if iterator <? -1 then
    tab ← from_cache s (find_table_by_end_iterator iterator);
    p ← lift (of_option tab "not a valid end iterator");
    tab ← deref_table p;
    rows ← read (fun c => _indices (stores c s));
    step (tab_id tab) (before less (fun o => o_t_id o <=? tab_id tab) rows)
  else
    obj ← row_at s iterator;
    rows ← read (fun c => _indices (stores c s));
    step (o_t_id obj) (previous_of less obj rows).

Definition next_primary (s : store_kind) := next_in s primary_less.
Definition previous_primary (s : store_kind) := previous_in s primary_less.
Definition next_secondary (k : index_kind) := next_in (IDX k) (secondary_less k).
Definition previous_secondary (k : index_kind) := previous_in (IDX k) (secondary_less k).

(** The methods on rows with a value. *)
Definition db_find_i64 := find_primary KV.
Definition db_lowerbound_i64 := lowerbound_primary KV.
Definition db_upperbound_i64 := upperbound_primary KV.
Definition db_end_i64 := end_of KV.
Definition db_next_i64 := next_primary KV.
Definition db_previous_i64 := previous_primary KV.

(** What is returned and what is copied to the buffer. *)
Definition db_get_i64 (iterator buffer_size : Z) : act (Z * list Z) :=
  obj ← row_at KV iterator;
  let s := size (o_data obj) in
  if buffer_size =? 0 then mret (i32 s, [])
  else
    let copy_size := Z.min buffer_size s in
    mret (i32 copy_size, take (Z.to_nat copy_size) (o_data obj)).
(** [generic_index::get] *)
Definition idx_get (k : index_kind) (iterator : Z) : act (Z * sk) :=
  obj ← row_at (IDX k) iterator;
  mret (primary_key obj, o_data obj).

(** ** After the contract has run *)

(** The check of [exec_one] on the RAM the contract charged; the time check in
    its loop aborts the transaction or does nothing and is left out. *)
Definition check_ram_deltas (e : act_env) : act unit := fun c =>
  (if negb (privileged e) && ram_restrictions e then
     mfold (fun _ (x : Z * Z) =>
       if (x.2 >? 0) && negb (x.1 =? receiver e) then
         check (receiver e =? act_account e)
           "unprivileged contract cannot increase RAM usage of another account within a notify context" ;;
         check (has_authorization e x.1)
           "unprivileged contract cannot increase RAM usage of another account that has not authorized the action"
       else Ok tt) (ascending (_account_ram_deltas c)) tt
   else Ok tt) ;;
  Ok (tt, c).

(** The check of [transaction_context::finalize] on the accounts charged. *)
Definition verify_ram_usage : act unit := fun c =>
  mfold (fun _ a => verify_account_ram_usage (resources c) a) (ascending_ids (validate_ram_usage c)) tt ;;
  Ok (tt, c).
End ApplyContext.
