(* ===== verification/ApplyContextSpec.v ===== *)
(** * What the tables of contracts guarantee

    Every method keeps the tables consistent: rows hang from existing tables,
    tables count their rows and are never empty, iterators point to rows that
    exist, and what payers are charged is exactly what their rows and tables
    cost. *)

From stdpp Require Import base numbers list gmap strings sorting.
From Stdlib Require Import ZArith Lia Eqdep_dec.
From S2P Require Import Prelude Chainbase ChainbaseSpec Accumulator ResourceLimits ResourceLimitsSpec Authority.
From S2P Require Import ContractTables ContractTablesSpec ApplyContext.
Local Open Scope Z_scope.

Section Spec.
Context {sk : Type} `{SecondaryKeys sk}.
#[local] Abbreviation ctx := (apply_context (sk := sk)).
#[local] Abbreviation act := (act (sk := sk)).
#[local] Abbreviation payload := (payload (sk := sk)).
Implicit Types (c : ctx) (e : act_env) (s : store_kind).

(** ** Runs that never follow a dangling pointer or abort the node *)

Definition ub (err : string) : Prop :=
  err = dangling \/ err = "dangling reference" \/ err = "abort: uniqueness violation".

Definition wp {A} (m : act A) c (Q : A -> ctx -> Prop) : Prop :=
  match m c with Ok (a, c') => Q a c' | Err err => ~ ub err end.

Lemma wp_ret {A} (a : A) c (Q : A -> ctx -> Prop) : Q a c -> wp (mret a) c Q.
Proof. done. Qed.

Lemma wp_bind {A B} (m : act A) (f : A -> act B) c Q :
  wp m c (fun a c' => wp (f a) c' Q) -> wp (m ≫= f) c Q.
Proof. unfold wp, mbind, act_bind. destruct (m c) as [[a c']|err]; done. Qed.

Lemma wp_mono {A} (m : act A) c (P Q : A -> ctx -> Prop) : (forall a c', P a c' -> Q a c') -> wp m c P -> wp m c Q.
Proof. unfold wp. destruct (m c) as [[a c']|err]; eauto. Qed.

Lemma wp_check (b : bool) msg c (Q : unit -> ctx -> Prop) : ~ ub msg -> (b = true -> Q tt c) -> wp (lift (check b msg)) c Q.
Proof. unfold wp, lift, check. destruct b; simpl; eauto. Qed.

Lemma wp_of_option {A} (o : option A) msg c (Q : A -> ctx -> Prop) :
  ~ ub msg -> (forall a, o = Some a -> Q a c) -> wp (lift (of_option o msg)) c Q.
Proof. unfold wp, lift. destruct o; simpl; eauto. Qed.

Lemma wp_read {A} (f : ctx -> A) c (Q : A -> ctx -> Prop) : Q (f c) c -> wp (read f) c Q.
Proof. done. Qed.

(** ** The ledger of RAM *)

Definition ram c (a : Z) : Z := default 0 (ram_usage <$> usages (resources c) !! a).
Definition ram_range c : Prop := forall a u, usages (resources c) !! a = Some u -> is_u64 (ram_usage u).
Definition delta c (a : Z) : Z := default 0 (_account_ram_deltas c !! a).

Definition may_charge e (a : Z) : Prop :=
  privileged e = true \/ a = receiver e \/ ram_restrictions e = true \/
  (has_authorization e a = true /\ (ram_billing_in_notify_allowed e = true \/ receiver e = act_account e)).

(** The accounts are charged [D]. *)
Record ledger e (D : Z -> Z) c c' : Prop := {
  l_ram a : ram c' a = ram c a + D a;
  l_range : ram_range c -> ram_range c';
  l_consent a : D a > 0 -> may_charge e a /\ a ∈ validate_ram_usage c';
  l_delta a : i64 (delta c' a) = i64 (delta c a + D a);
  l_delta_range : (forall a, is_i64 (delta c a)) -> forall a, is_i64 (delta c' a);
  l_valid : validate_ram_usage c ⊆ validate_ram_usage c' }.

(** Everything but the ledger is left alone. *)
Definition same_db c c' : Prop := tables c' = tables c /\ stores c' = stores c /\ caches c' = caches c.
Definition same_ledger c c' : Prop :=
  resources c' = resources c /\ _account_ram_deltas c' = _account_ram_deltas c /\
  validate_ram_usage c' = validate_ram_usage c.

Lemma ledger_same e c c' : same_ledger c c' -> ledger e (fun _ => 0) c c'.
Proof.
  intros (Hr & Hd & Hv). split; unfold ram, ram_range, delta; rewrite ?Hr, ?Hd, ?Hv; try done.
  all: intros a; rewrite ?Z.add_0_r; lia || done.
Qed.

Lemma ledger_trans e D1 D2 c1 c2 c3 : ledger e D1 c1 c2 -> ledger e D2 c2 c3 -> ledger e (fun a => D1 a + D2 a) c1 c3.
Proof.
  intros L1 L2. split.
  - intros a. rewrite (l_ram _ _ _ _ L2), (l_ram _ _ _ _ L1). lia.
  - intros Hr. by apply L2, L1.
  - intros a Ha. destruct (Z.lt_ge_cases 0 (D1 a)).
    + destruct (l_consent _ _ _ _ L1 a) as [Hc Hv]; [lia|]. split; [done|]. by apply (l_valid _ _ _ _ L2).
    + apply L2. lia.
  - intros a. rewrite (l_delta _ _ _ _ L2). rewrite <- i64_add_l, (l_delta _ _ _ _ L1), i64_add_l. f_equal. lia.
  - intros Hd. by apply L2, L1.
  - etrans; [apply L1 | apply L2].
Qed.

Lemma ledger_ext e D D' c c' : ledger e D c c' -> (forall a, D a = D' a) -> ledger e D' c c'.
Proof.
  intros L HD. split; [intros a; rewrite <- HD; apply L | apply L | intros a; rewrite <- HD; apply L
    | intros a; rewrite <- HD; apply L | apply L | apply L].
Qed.

(** Changes to the database around a charge. *)
Lemma ledger_between e D c c1 c2 c' : ledger e D c1 c2 -> same_ledger c c1 -> same_ledger c2 c' -> ledger e D c c'.
Proof.
  intros L Hs Hs'. eapply ledger_ext.
  - eapply ledger_trans; [apply (ledger_same e c c1 Hs)|]. eapply ledger_trans; [exact L | by apply ledger_same].
  - intros a. simpl. lia.
Qed.

Definition charge (a d b : Z) : Z := if b =? a then d else 0.

Lemma add_pending_error a d db err : add_pending_ram_usage a d db = Err err -> ~ ub err.
Proof.
  unfold add_pending_ram_usage, get_usage, of_option, check, ub, mbind, result_bind. intros Heq.
  repeat case_match; simplify_eq; intuition discriminate.
Qed.

Lemma add_pending_ledger a d c rl : is_i64 d -> ram_range c -> add_pending_ram_usage a d (resources c) = Ok rl ->
  (forall b, default 0 (ram_usage <$> usages rl !! b) = ram c b + charge a d b) /\
  (forall b u, usages rl !! b = Some u -> is_u64 (ram_usage u)).
Proof.
  intros Hd Hr Ha. unfold ram, charge. destruct (decide (d = 0)) as [->|Hnz].
  { cbn in Ha. ok_inv. subst rl. split; [|done]. intros b. destruct (b =? a); lia. }
  destruct (usages (resources c) !! a) as [u|] eqn:Eu.
  - destruct (ram_usage_exact_lemma a d (resources c) u Hd Eu (Hr a u Eu)) as [Hiff Hres].
    destruct (Hres rl Ha) as [(u' & Eu' & Hu') Hother]. split; intros b.
    + destruct (Z.eqb_spec b a) as [->|Hb]; [rewrite Eu', Eu; simpl; lia | rewrite Hother by done; lia].
    + intros v Hv. destruct (decide (b = a)) as [->|Hb]; [|rewrite Hother in Hv by done; eauto].
      rewrite Eu' in Hv. injection Hv as <-. rewrite Hu'. apply Hiff. by exists rl.
  - unfold add_pending_ram_usage, get_usage in Ha. rewrite Eu in Ha. by destruct (d =? 0) eqn:E; [lia|].
Qed.

Lemma wp_add_ram_usage e a d c (Q : unit -> ctx -> Prop) : is_i64 d -> ram_range c -> (d > 0 -> may_charge e a) ->
  (forall c', same_db c c' -> ledger e (charge a d) c c' -> Q tt c') -> wp (add_ram_usage a d) c Q.
Proof.
  intros Hd Hr Hc HQ. unfold wp, add_ram_usage, mbind at 1, act_bind, trx_add_ram_usage.
  destruct (add_pending_ram_usage a d (resources c)) as [rl|err] eqn:Ea;
    cbn [mbind result_bind]; [|by eapply add_pending_error].
  destruct (add_pending_ledger a d c rl Hd Hr Ea) as [Hram Hrange]. unfold note_ram_delta. apply HQ; [done|].
  split; unfold ram, ram_range, delta, charge; cbn [resources _account_ram_deltas validate_ram_usage]; try done.
  - intros b. destruct (Z.eqb_spec b a) as [->|]; [|lia]. intros Hp. split; [by auto|].
    assert ((d >? 0) = true) as -> by lia. set_solver.
  - intros b. destruct (Z.eqb_spec b a) as [->|Hb].
    + rewrite lookup_insert_eq. simpl. destruct (_account_ram_deltas c !! a); simpl; [|by rewrite Z.add_0_l].
      apply i64_ext, i64_mod.
    + rewrite lookup_insert_ne by done. by rewrite Z.add_0_r.
  - intros Hold b. specialize (Hold b). unfold delta in *. destruct (decide (a = b)) as [->|Hb].
    + rewrite lookup_insert_eq. simpl. destruct (_account_ram_deltas c !! b); [apply i64_range | done].
    + by rewrite lookup_insert_ne.
  - destruct (d >? 0); set_solver.
Qed.

Lemma wp_update_db_usage e a d c (Q : unit -> ctx -> Prop) : is_i64 d -> ram_range c ->
  (forall c', same_db c c' -> ledger e (charge a d) c c' -> Q tt c') -> wp (update_db_usage e a d) c Q.
Proof.
  intros Hd Hr HQ. unfold update_db_usage. apply wp_bind.
  assert (Hgo : (d > 0 -> may_charge e a) -> wp (add_ram_usage a d) c Q) by (intros; by eapply wp_add_ram_usage).
  destruct (d >? 0) eqn:Epos; [|apply wp_ret, Hgo; lia].
  destruct (negb _) eqn:Eg.
  - apply wp_bind, wp_check; [unfold ub; intuition discriminate|]. intros En.
    apply wp_check; [unfold ub; intuition discriminate|]. intros Ea. apply Hgo. intros _. do 3 right.
    split; [done|]. apply orb_true_iff in En. rewrite Z.eqb_eq in En. done.
  - apply wp_ret, Hgo. intros _. apply negb_false_iff in Eg. rewrite !orb_true_iff, Z.eqb_eq in Eg. unfold may_charge. tauto.
Qed.

(** ** Tables and rows *)

#[local] Abbreviation tables_t := (generic_index (V := table_id_object)).
#[local] Abbreviation stores_t := (forall s, generic_index (V := object (payload s))).
Implicit Types (T : tables_t) (S : stores_t).

Lemma set_store_eq S s i : set_store S s i s = i.
Proof.
  unfold set_store. destruct (decide (s = s)) as [E|]; [|done].
  by rewrite (UIP_dec store_kind_eq_dec E eq_refl).
Qed.
Lemma set_store_ne S s i s' : s <> s' -> set_store S s i s' = S s'.
Proof. intros Hne. unfold set_store. by destruct (decide (s = s')). Qed.
Lemma set_cache_eq f s i : set_cache f s i s = i.
Proof. unfold set_cache. by rewrite decide_True. Qed.
Lemma set_cache_ne f s i s' : s <> s' -> set_cache f s i s' = f s'.
Proof. intros Hne. unfold set_cache. by rewrite decide_False. Qed.

Definition store_sum (g : store_kind -> Z) : Z := foldr (fun s acc => g s + acc) 0 all_stores.

Lemma store_sum_update g g' s d : g' s = g s + d -> (forall s', s <> s' -> g' s' = g s') -> store_sum g' = store_sum g + d.
Proof.
  intros Hs Ho. unfold store_sum. cbn [foldr all_stores].
  destruct s as [|[]]; rewrite Hs, ?Ho by done; lia.
Qed.

Lemma store_sum_le g s : (forall s', 0 <= g s') -> g s <= store_sum g.
Proof.
  intros Hg. unfold store_sum. cbn [foldr all_stores].
  pose proof (Hg KV). pose proof (Hg (IDX idx64)). pose proof (Hg (IDX idx128)). pose proof (Hg (IDX idx256)).
  pose proof (Hg (IDX idx_double)). pose proof (Hg (IDX idx_long_double)). destruct s as [|[]]; lia.
Qed.

Lemma store_sum_ext g g' : (forall s, g s = g' s) -> store_sum g = store_sum g'.
Proof. intros Hg. unfold store_sum. cbn [foldr all_stores]. by rewrite !Hg. Qed.

Lemma store_sum_mono g g' : (forall s, g s <= g' s) -> store_sum g <= store_sum g'.
Proof.
  intros Hg. unfold store_sum. cbn [foldr all_stores].
  pose proof (Hg KV). pose proof (Hg (IDX idx64)). pose proof (Hg (IDX idx128)). pose proof (Hg (IDX idx256)).
  pose proof (Hg (IDX idx_double)). pose proof (Hg (IDX idx_long_double)). lia.
Qed.

(** A sum over all rows of all stores. *)
Definition rows_sum (w : forall s, object (payload s) -> Z) S : Z :=
  store_sum (fun s => map_sum (fun _ o => w s o) (_indices (S s))).

Lemma rows_sum_set w S s i d :
  map_sum (fun _ o => w s o) (_indices i) = map_sum (fun _ o => w s o) (_indices (S s)) + d ->
  rows_sum w (set_store S s i) = rows_sum w S + d.
Proof.
  intros Hi. unfold rows_sum. apply (store_sum_update _ _ s); [by rewrite set_store_eq|].
  intros s' Hne. by rewrite set_store_ne.
Qed.

Lemma rows_sum_le w w' S : (forall s o, 0 <= w s o <= w' s o) -> 0 <= rows_sum w S <= rows_sum w' S.
Proof.
  intros Hw. assert (Hpart : forall s, 0 <= map_sum (fun _ o => w s o) (_indices (S s))
                                     <= map_sum (fun _ o => w' s o) (_indices (S s))).
  { intros s. induction (_indices (S s)) as [|k o m Hk IH] using map_ind; [by rewrite !map_sum_empty|].
    rewrite !map_sum_insert_new by done. specialize (Hw s o). lia. }
  unfold rows_sum. split; [|apply store_sum_mono; intros s; apply Hpart].
  etrans; [apply (Hpart KV)|]. apply (store_sum_le (fun s => map_sum (fun _ o => w s o) (_indices (S s)))).
  intros s. apply Hpart.
Qed.

Lemma rows_sum_zero w S : (forall s id o, _indices (S s) !! id = Some o -> w s o = 0) -> rows_sum w S = 0.
Proof.
  intros Hw. unfold rows_sum. rewrite (store_sum_ext _ (fun _ => 0)); [done|].
  intros s. apply map_sum_zero. eauto.
Qed.

Lemma rows_sum_pos w S s id o : (forall s o, 0 <= w s o) -> _indices (S s) !! id = Some o -> w s o <= rows_sum w S.
Proof.
  intros Hw Ho. etrans; [|apply (store_sum_le _ s)].
  - apply (map_sum_le (fun _ o => w s o) _ id); [by intros|done].
  - intros s'. apply map_sum_nonneg. by intros.
Qed.

(** What a row costs its payer. *)
Definition cost (s : store_kind) : object (payload s) -> Z :=
  match s with
  | KV => fun o => size (o_data o) + billable_key_value_object
  | IDX k => fun _ => billable_index_object k
  end.

Definition count_rows S (t : Z) : Z := rows_sum (fun s o => if o_t_id o =? t then 1 else 0) S.
Definition total_rows S : Z := rows_sum (fun _ _ => 1) S.
Definition billed T S (a : Z) : Z :=
  map_sum (fun _ t => if tab_payer t =? a then billable_table_id_object else 0) (_indices T) +
  rows_sum (fun s o => if o_payer o =? a then cost s o else 0) S.

Record db_ok T S : Prop := {
  db_tables : wf T;
  db_stores s : wf (S s);
  db_tab_id id t : _indices T !! id = Some t -> tab_id t = id;
  db_row_id s id o : _indices (S s) !! id = Some o -> o_id o = id /\ cost s o < 2 ^ 40;
  db_row_tab s id o : _indices (S s) !! id = Some o -> is_Some (_indices T !! o_t_id o);
  db_count id t : _indices T !! id = Some t -> tab_count t = count_rows S id }.

Lemma count_le S t : 0 <= count_rows S t <= total_rows S.
Proof. apply rows_sum_le. intros s o. destruct (_ =? _); lia. Qed.

Lemma db_ok_new_table T T' S code scope table payer t : db_ok T S ->
  emplace (fun id => mk_table id code scope table payer 0) T = Ok (t, T') ->
  db_ok T' S /\ t = mk_table (_next_id T) code scope table payer 0 /\
  _indices T !! _next_id T = None /\ _indices T' = <[_next_id T := t]> (_indices T) /\
  _next_id T' = _next_id T + 1 /\
  forall a, billed T' S a = billed T S a + charge payer billable_table_id_object a.
Proof.
  intros [H1 H2 H3 H4 H5 H6] He. destruct (emplace_rows _ _ _ _ H1 He) as (Hwf & -> & Hnew & Hrows & Hnext).
  split_and!; try done.
  - split; try done; rewrite Hrows.
    + intros id t [[<- <-]|[_ Ht]]%lookup_insert_Some; [done | by apply H3].
    + intros s id o Ho. apply lookup_insert_is_Some. destruct (decide (_next_id T = o_t_id o)); [by left | right; eauto].
    + intros id t [[<- <-]|[_ Ht]]%lookup_insert_Some; [|by apply H6]. simpl. symmetry. apply rows_sum_zero.
      intros s oid o Ho. destruct (Z.eqb_spec (o_t_id o) (_next_id T)) as [E|]; [|done].
      destruct (H5 _ _ _ Ho) as [? Ht]. congruence.
  - intros a. unfold billed, charge. rewrite Hrows, map_sum_insert_new by done. simpl. rewrite (Z.eqb_sym payer a). lia.
Qed.

(** A table with another count. *)
Definition with_count (t : table_id_object) (n : Z) : table_id_object :=
  mk_table (tab_id t) (tab_code t) (tab_scope t) (tab_table t) (tab_payer t) n.

(** The tables [T'] and stores [S'] after a change to one store and to the
    count of one table, for the row weight [w] of the change. *)
Lemma db_ok_recount T T' S s i t n (d : Z) :
  db_ok T S -> _indices T !! tab_id t = Some t ->
  wf T' -> _indices T' = <[tab_id t := with_count t n]> (_indices T) ->
  wf i -> (forall id o, _indices i !! id = Some o -> o_id o = id /\ cost s o < 2 ^ 40) ->
  (forall id o, _indices i !! id = Some o -> is_Some (_indices T !! o_t_id o)) ->
  n = tab_count t + d ->
  (forall t', map_sum (fun _ o => if o_t_id o =? t' then 1 else 0) (_indices i) =
              map_sum (fun _ o => if o_t_id o =? t' then 1 else 0) (_indices (S s)) + charge (tab_id t) d t') ->
  db_ok T' (set_store S s i).
Proof.
  intros [H1 H2 H3 H4 H5 H6] Ht Hwf Hrows Hwfi Hid Htab -> Hsum.
  assert (Hcase : forall (P : forall s', generic_index (V := object (payload s')) -> Prop),
    P s i -> (forall s', P s' (S s')) -> forall s', P s' (set_store S s i s')).
  { intros P Hs Ho s'. destruct (decide (s = s')) as [<-|Hne]; [by rewrite set_store_eq | by rewrite set_store_ne]. }
  split.
  - done.
  - by apply (Hcase (fun _ x => wf x)).
  - rewrite Hrows. intros id u [[<- <-]|[_ Hu]]%lookup_insert_Some; [done | by apply H3].
  - apply (Hcase (fun s x => forall id o, _indices x !! id = Some o -> o_id o = id /\ cost s o < 2 ^ 40)); [done|]. intros s'. apply H4.
  - apply (Hcase (fun s x => forall id o, _indices x !! id = Some o -> is_Some (_indices T' !! o_t_id o))).
    + intros id o Ho. rewrite Hrows, lookup_insert_is_Some'. right. eauto.
    + intros s' id o Ho. rewrite Hrows, lookup_insert_is_Some'. right. eauto.
  - rewrite Hrows. intros id u Hu. unfold count_rows. erewrite rows_sum_set by apply Hsum.
    change (rows_sum _ S) with (count_rows S id). unfold charge.
    apply lookup_insert_Some in Hu as [[<- <-]|[Hne Hu]].
    + simpl. rewrite Z.eqb_refl. by rewrite (H6 _ _ Ht).
    + rewrite (H6 _ _ Hu). destruct (Z.eqb_spec id (tab_id t)); [done | lia].
Qed.

Lemma billed_recount T T' S s i t n a (d : Z) : _indices T !! tab_id t = Some t ->
  _indices T' = <[tab_id t := with_count t n]> (_indices T) ->
  map_sum (fun _ o => if o_payer o =? a then cost s o else 0) (_indices i) =
  map_sum (fun _ o => if o_payer o =? a then cost s o else 0) (_indices (S s)) + d ->
  billed T' (set_store S s i) a = billed T S a + d.
Proof.
  intros Ht Hrows Hsum. unfold billed. erewrite rows_sum_set by apply Hsum.
  rewrite Hrows, (map_sum_insert _ _ _ _ t) by done. simpl. lia.
Qed.

Lemma db_ok_create T T' S s i t n o : db_ok T S -> _indices T !! tab_id t = Some t ->
  wf T' -> _indices T' = <[tab_id t := with_count t n]> (_indices T) -> n = tab_count t + 1 ->
  wf i -> _indices (S s) !! o_id o = None -> _indices i = <[o_id o := o]> (_indices (S s)) ->
  o_t_id o = tab_id t -> cost s o < 2 ^ 40 ->
  db_ok T' (set_store S s i) /\ total_rows (set_store S s i) = total_rows S + 1 /\
  forall a, billed T' (set_store S s i) a = billed T S a + charge (o_payer o) (cost s o) a.
Proof.
  intros Hok Ht Hwf Hrows Hn Hwfi Hnew Hi Hot Hcost. split_and!.
  - eapply db_ok_recount with (d := 1); try done; rewrite Hi.
    + intros id u [[<- <-]|[_ Hu]]%lookup_insert_Some; [done | by apply (db_row_id _ _ Hok)].
    + intros id u [[<- <-]|[_ Hu]]%lookup_insert_Some; [rewrite Hot; by exists t | by apply (db_row_tab _ _ Hok) in Hu].
    + intros t'. rewrite map_sum_insert_new by done. unfold charge. rewrite Hot, (Z.eqb_sym (tab_id t)). lia.
  - apply rows_sum_set. rewrite Hi, map_sum_insert_new by done. lia.
  - intros a. eapply billed_recount; [done..|]. rewrite Hi, map_sum_insert_new by done. unfold charge.
    rewrite (Z.eqb_sym a). lia.
Qed.

Lemma db_ok_erase T T' S s i t n o : db_ok T S -> _indices T !! tab_id t = Some t ->
  wf T' -> _indices T' = <[tab_id t := with_count t n]> (_indices T) -> n = tab_count t - 1 ->
  wf i -> _indices (S s) !! o_id o = Some o -> _indices i = delete (o_id o) (_indices (S s)) ->
  o_t_id o = tab_id t ->
  db_ok T' (set_store S s i) /\ total_rows (set_store S s i) = total_rows S - 1 /\
  forall a, billed T' (set_store S s i) a = billed T S a - charge (o_payer o) (cost s o) a.
Proof.
  intros Hok Ht Hwf Hrows Hn Hwfi Hold Hi Hot. split_and!.
  - eapply db_ok_recount with (d := -1); try done; rewrite Hi.
    + intros id u [_ Hu]%lookup_delete_Some. by apply (db_row_id _ _ Hok).
    + intros id u [_ Hu]%lookup_delete_Some. by apply (db_row_tab _ _ Hok) in Hu.
    + intros t'. rewrite (map_sum_delete _ _ _ o) by done. unfold charge. rewrite Hot, (Z.eqb_sym (tab_id t)).
      destruct (t' =? tab_id t); lia.
  - apply (rows_sum_set _ _ _ _ (-1)). rewrite Hi, (map_sum_delete _ _ _ o) by done. lia.
  - intros a. rewrite <- Z.add_opp_r. eapply billed_recount; [done..|].
    rewrite Hi, (map_sum_delete _ _ _ o) by done. unfold charge. rewrite (Z.eqb_sym a). lia.
Qed.

Lemma db_ok_drop T T' S t : db_ok T S -> _indices T !! tab_id t = Some t -> tab_count t = 0 ->
  wf T' -> _indices T' = delete (tab_id t) (_indices T) ->
  db_ok T' S /\ forall a, billed T' S a = billed T S a - charge (tab_payer t) billable_table_id_object a.
Proof.
  intros [H1 H2 H3 H4 H5 H6] Ht Hc Hwf Hrows. split.
  - split; try done; rewrite Hrows.
    + intros id u [_ Hu]%lookup_delete_Some. by apply H3.
    + intros s id o Ho. rewrite lookup_delete_ne; [by eapply H5|]. intros E.
      assert (Hpos : 1 <= count_rows S (tab_id t)).
      { pose proof (rows_sum_pos (fun s o => if o_t_id o =? tab_id t then 1 else 0) S s id o) as Hp.
        cbn beta in Hp. rewrite <- E, Z.eqb_refl in Hp at 1. rewrite E. unfold count_rows. rewrite <- E. apply Hp; [|done].
        intros s' o'. destruct (_ =? _); lia. }
      rewrite <- (H6 _ _ Ht) in Hpos. lia.
    + intros id u [_ Hu]%lookup_delete_Some. by apply H6.
  - intros a. unfold billed, charge. rewrite Hrows, (map_sum_delete _ _ _ t) by done. rewrite (Z.eqb_sym a).
    destruct (_ =? _); lia.
Qed.

Lemma db_ok_set T S s i o o' : db_ok T S -> _indices (S s) !! o_id o = Some o -> wf i ->
  _indices i = <[o_id o := o']> (_indices (S s)) -> o_id o' = o_id o -> o_t_id o' = o_t_id o -> cost s o' < 2 ^ 40 ->
  db_ok T (set_store S s i) /\ total_rows (set_store S s i) = total_rows S /\
  forall a, billed T (set_store S s i) a =
            billed T S a - charge (o_payer o) (cost s o) a + charge (o_payer o') (cost s o') a.
Proof.
  intros Hok Ho Hwfi Hi Hid Htid Hcost. destruct (db_row_tab _ _ Hok s _ _ Ho) as [t Ht].
  pose proof (db_tab_id _ _ Hok _ _ Ht) as Et. rewrite <- Et in Ht.
  assert (HT : _indices T = <[tab_id t := with_count t (tab_count t)]> (_indices T)).
  { rewrite insert_id; [done|]. rewrite Ht. by destruct t. }
  split_and!.
  - eapply (db_ok_recount T T) with (d := 0); try done; rewrite ?Hi.
    + apply (db_tables _ _ Hok).
    + intros id u [[<- <-]|[_ Hu]]%lookup_insert_Some; [done | by apply (db_row_id _ _ Hok)].
    + intros id u [[<- <-]|[_ Hu]]%lookup_insert_Some; [rewrite Htid, <- Et; by exists t | by apply (db_row_tab _ _ Hok) in Hu].
    + lia.
    + intros t'. rewrite (map_sum_insert _ _ _ _ o), Htid by done. unfold charge. destruct (t' =? _); lia.
  - rewrite <- (Z.add_0_r (total_rows S)). apply rows_sum_set. rewrite Hi, (map_sum_insert _ _ _ _ o) by done. lia.
  - intros a. replace (billed T S a - _ + _) with (billed T S a + (charge (o_payer o') (cost s o') a - charge (o_payer o) (cost s o) a)) by lia.
    eapply billed_recount; [exact Ht | exact HT|]. rewrite Hi, (map_sum_insert _ _ _ _ o) by done.
    unfold charge. rewrite !(Z.eqb_sym a). lia.
Qed.

(** ** Foreign tables *)

(** Tables of other contracts and their rows are the same. *)
Definition isolated e T S T' S' : Prop :=
  forall id t, tab_code t <> receiver e ->
    (_indices T !! id = Some t <-> _indices T' !! id = Some t) /\
    (_indices T !! id = Some t -> forall s oid o, o_t_id o = id ->
       (_indices (S s) !! oid = Some o <-> _indices (S' s) !! oid = Some o)).

Lemma isolated_refl e T S : isolated e T S T S.
Proof. done. Qed.

Lemma isolated_trans e T1 S1 T2 S2 T3 S3 :
  isolated e T1 S1 T2 S2 -> isolated e T2 S2 T3 S3 -> isolated e T1 S1 T3 S3.
Proof.
  intros H12 H23 id t Ht. destruct (H12 id t Ht) as [E12 R12]. destruct (H23 id t Ht) as [E23 R23]. split.
  - by rewrite E12.
  - intros Hid s oid o Ho. rewrite (R12 Hid s oid o Ho). apply E12 in Hid. by apply R23.
Qed.

(** A change to the table [x] of the receiver. *)
Lemma isolated_change e T S T' S' x :
  (forall id, id <> x -> _indices T' !! id = _indices T !! id) ->
  (forall t, _indices T !! x = Some t -> tab_code t = receiver e) ->
  (forall t, _indices T' !! x = Some t -> tab_code t = receiver e) ->
  (forall s oid o, o_t_id o <> x -> _indices (S s) !! oid = Some o <-> _indices (S' s) !! oid = Some o) ->
  isolated e T S T' S'.
Proof.
  intros HT Hx Hx' HS id t Ht. destruct (decide (id = x)) as [->|Hne].
  - split; [|by intros Hid; destruct (Ht (Hx _ Hid))]. split; intros Hid; [by destruct (Ht (Hx _ Hid)) | by destruct (Ht (Hx' _ Hid))].
  - split; [by rewrite HT|]. intros _ s oid o Ho. apply HS. congruence.
Qed.

(** ** The invariant *)

(** Tables are not empty, but for the table [x]; [n] bounds the iterators. *)
Record Inv_but (x : option Z) (n : nat) c : Prop := {
  i_db : db_ok (tables c) (stores c);
  i_full id t : _indices (tables c) !! id = Some t -> Some id <> x -> 0 < tab_count t;
  i_total : total_rows (stores c) <= 2 ^ 31 + Z.of_nat n;
  i_ram : ram_range c;
  i_cache s : cache_ok (_next_id (tables c)) (_indices (stores c s)) (caches c s);
  i_small s : cache_small n (caches c s) }.
Definition Inv (n : nat) c : Prop := Inv_but None n c.

(** One method: the accounts are charged what their rows and tables cost, and
    foreign tables are left alone. *)
Definition step e c c' : Prop :=
  ledger e (fun a => billed (tables c') (stores c') a - billed (tables c) (stores c) a) c c' /\
  isolated e (tables c) (stores c) (tables c') (stores c').

Lemma step_trans e c1 c2 c3 : step e c1 c2 -> step e c2 c3 -> step e c1 c3.
Proof.
  intros [L1 I1] [L2 I2]. split; [|by eapply isolated_trans].
  eapply ledger_ext; [by eapply ledger_trans|]. intros a. simpl. lia.
Qed.

Lemma step_same e c c' : same_ledger c c' -> tables c' = tables c -> stores c' = stores c -> step e c c'.
Proof.
  intros Hl HT HS. split; [|by rewrite HT, HS]. eapply ledger_ext; [by apply ledger_same|].
  intros a. rewrite HT, HS. lia.
Qed.

Definition upd_tables c (T : tables_t) : ctx :=
  mk_ctx T (stores c) (resources c) (caches c) (_account_ram_deltas c) (validate_ram_usage c).
Definition upd_store c s i : ctx :=
  mk_ctx (tables c) (set_store (stores c) s i) (resources c) (caches c) (_account_ram_deltas c) (validate_ram_usage c).
Definition upd_cache c s i : ctx :=
  mk_ctx (tables c) (stores c) (resources c) (set_cache (caches c) s i) (_account_ram_deltas c) (validate_ram_usage c).

Lemma wp_emplace_table f c (Q : table_id_object -> ctx -> Prop) :
  (forall t T, emplace f (tables c) = Ok (t, T) -> Q t (upd_tables c T)) -> wp (on_tables (emplace f)) c Q.
Proof.
  intros HQ. unfold wp, on_tables. destruct (emplace f (tables c)) as [[t T]|err] eqn:E; cbn [mbind result_bind].
  - by apply HQ.
  - apply emplace_error in E as ->. unfold ub. intuition discriminate.
Qed.

Lemma wp_emplace_row s f c (Q : object (payload s) -> ctx -> Prop) :
  (forall o i, emplace f (stores c s) = Ok (o, i) -> Q o (upd_store c s i)) -> wp (on_store s (emplace f)) c Q.
Proof.
  intros HQ. unfold wp, on_store. destruct (emplace f (stores c s)) as [[o i]|err] eqn:E; cbn [mbind result_bind].
  - by apply HQ.
  - apply emplace_error in E as ->. unfold ub. intuition discriminate.
Qed.

Lemma wp_add_count t d c (Q : unit -> ctx -> Prop) : wf (tables c) -> _indices (tables c) !! tab_id t = Some t ->
  (forall T, wf T -> _indices T = <[tab_id t := with_count t (u32 (tab_count t + d))]> (_indices (tables c)) ->
     _next_id T = _next_id (tables c) -> Q tt (upd_tables c T)) ->
  wp (add_count (tab_id t) d) c Q.
Proof.
  intros Hwf Ht HQ. unfold wp, add_count, on_tables.
  destruct (modify_rows (tab_id t) (fun t => mk_table (tab_id t) (tab_code t) (tab_scope t) (tab_table t) (tab_payer t)
    (u32 (tab_count t + d))) (tables c) t Hwf Ht) as (T & E & HwfT & Hrows & Hnext); [done|].
  rewrite E. cbn [unit_result mbind result_bind]. by apply HQ.
Qed.

Lemma wp_remove_row s o c (Q : unit -> ctx -> Prop) : wf (stores c s) -> _indices (stores c s) !! o_id o = Some o ->
  (forall i, wf i -> _indices i = delete (o_id o) (_indices (stores c s)) -> Q tt (upd_store c s i)) ->
  wp (on_store s (fun i => unit_result (remove (o_id o) i))) c Q.
Proof.
  intros Hwf Ho HQ. unfold wp, on_store. destruct (remove_rows _ _ _ Hwf Ho) as (i & E & Hwfi & Hrows & _).
  rewrite E. cbn [unit_result mbind result_bind]. by apply HQ.
Qed.

Lemma wp_remove_table t c (Q : unit -> ctx -> Prop) : wf (tables c) -> _indices (tables c) !! tab_id t = Some t ->
  (forall T, wf T -> _indices T = delete (tab_id t) (_indices (tables c)) -> _next_id T = _next_id (tables c) ->
     Q tt (upd_tables c T)) ->
  wp (on_tables (fun i => unit_result (remove (tab_id t) i))) c Q.
Proof.
  intros Hwf Ht HQ. unfold wp, on_tables. destruct (remove_rows _ _ _ Hwf Ht) as (T & E & HwfT & Hrows & Hn).
  rewrite E. cbn [unit_result mbind result_bind]. by apply HQ.
Qed.

Lemma wp_set_row s o payer data c (Q : unit -> ctx -> Prop) : wf (stores c s) -> _indices (stores c s) !! o_id o = Some o ->
  (forall i, wf i -> _indices i = <[o_id o := mk_object (o_id o) (o_t_id o) (primary_key o) payer data]>
     (_indices (stores c s)) -> Q tt (upd_store c s i)) ->
  wp (set_row s o payer data) c Q.
Proof.
  intros Hwf Ho HQ. unfold wp, set_row, on_store.
  destruct (modify_rows (o_id o) (fun o => mk_object (o_id o) (o_t_id o) (primary_key o) payer data) (stores c s) o Hwf Ho)
    as (i & E & Hwfi & Hrows & _); [done|].
  rewrite E. cbn [unit_result mbind result_bind]. by apply HQ.
Qed.

Lemma wp_cache {A} s (f : iterator_cache -> A * iterator_cache) c (Q : A -> ctx -> Prop) :
  (let '(a, i) := f (caches c s) in Q a (upd_cache c s i)) -> wp (on_cache s (fun i => Ok (f i))) c Q.
Proof. unfold wp, on_cache. cbn [mbind result_bind]. by destruct (f (caches c s)). Qed.

Lemma find_value {V} (p : V -> bool) (m : gmap Z V) :
  match List.find p (map_to_list m).*2 with
  | Some v => p v = true /\ exists id, m !! id = Some v
  | None => forall id v, m !! id = Some v -> p v = false
  end.
Proof.
  destruct (List.find _ _) as [v|] eqn:E.
  - apply List.find_some in E as [Hin Hp]. split; [done|]. apply list_elem_of_In, list_elem_of_fmap in Hin as ([id w] & -> & Hin).
    exists id. by apply elem_of_map_to_list.
  - intros id v Hv. apply (List.find_none _ _ E). apply list_elem_of_In, list_elem_of_fmap. exists (id, v).
    split; [done|]. by apply elem_of_map_to_list.
Qed.
End Spec.
