(* ===== verification/ApplyContextSteps.v ===== *)
(** * Every method keeps the tables consistent

    The methods of the apply context one by one: each keeps the invariant,
    charges exactly what it changes, leaves foreign tables alone and never
    follows a dangling pointer. *)

From stdpp Require Import base numbers list gmap strings sorting.
From Stdlib Require Import ZArith Lia.
From S2P Require Import Prelude Chainbase ChainbaseSpec Accumulator ResourceLimits ResourceLimitsSpec Authority.
From S2P Require Import ContractTables ContractTablesSpec ApplyContext ApplyContextSpec.
Local Open Scope Z_scope.

Ltac not_ub := unfold ub; intuition discriminate.

Section Steps.
Context {sk : Type} `{SecondaryKeys sk}.
#[local] Abbreviation ctx := (apply_context (sk := sk)).
#[local] Abbreviation act := (act (sk := sk)).
#[local] Abbreviation payload := (payload (sk := sk)).
Implicit Types (c : ctx) (e : act_env) (s : store_kind) (n : nat).

Lemma inv_but c x n : Inv n c -> Inv_but x n c.
Proof. intros [H1 H2 H3 H4 H5 H6]. split; try done. intros id t Ht _. by eapply H2. Qed.

Lemma inv_le c n m : Inv n c -> (n <= m)%nat -> Inv m c.
Proof.
  intros [H1 H2 H3 H4 H5 H6] Hle. split; try done; [lia|]. intros s. by eapply cache_small_le.
Qed.

(** ** Charging *)


Lemma billable_table_pos : 0 < billable_table_id_object < 2 ^ 10.
Proof. by vm_compute. Qed.
Lemma billable_row_pos : 0 < billable_key_value_object < 2 ^ 10.
Proof. by vm_compute. Qed.
Lemma billable_index_pos k : 0 < billable_index_object k < 2 ^ 10.
Proof. by destruct k. Qed.

Lemma cost_pos s (o : object (payload s)) : 0 < cost s o.
Proof.
  destruct s as [|k]; cbn [cost]; [|apply billable_index_pos].
  unfold size. pose proof billable_row_pos. lia.
Qed.

Lemma negative_charge z : 0 <= z < 2 ^ 63 -> i64 (u64 (- z)) = - z.
Proof.
  intros Hz. unfold i64, u64. rewrite Zplus_mod_idemp_l, Z.mod_small by lia. lia.
Qed.

(** ** Tables *)

Lemma wp_find_table code scope table c (Q : option table_id_object -> ctx -> Prop) : db_ok (tables c) (stores c) ->
  (forall t, _indices (tables c) !! tab_id t = Some t -> tab_code t = code -> tab_scope t = scope -> tab_table t = table ->
     Q (Some t) c) ->
  ((forall id t, _indices (tables c) !! id = Some t -> (tab_code t, tab_scope t, tab_table t) <> (code, scope, table)) ->
     Q None c) ->
  wp (find_table code scope table) c Q.
Proof.
  intros Hok Hsome Hnone. unfold wp, find_table.
  pose proof (find_value (fun t => (tab_code t =? code) && (tab_scope t =? scope) && (tab_table t =? table))
    (_indices (tables c))) as Hf.
  destruct (List.find _ _) as [t|].
  - destruct Hf as (Hp & id & Hid). rewrite !andb_true_iff, !Z.eqb_eq in Hp. destruct Hp as [[? ?] ?].
    rewrite <- (db_tab_id _ _ Hok _ _ Hid) in Hid. by apply Hsome.
  - apply Hnone. intros id t Ht [= <- <- <-]. specialize (Hf id t Ht). by rewrite !Z.eqb_refl in Hf.
Qed.

Lemma wp_find_or_create e scope table payer n c (Q : table_id_object -> ctx -> Prop) : Inv n c ->
  (forall t c', Inv_but (Some (tab_id t)) n c' -> step e c c' -> _indices (tables c') !! tab_id t = Some t ->
     tab_code t = receiver e -> tab_scope t = scope -> tab_table t = table -> stores c' = stores c ->
     caches c' = caches c -> tables c' = tables c \/
       (_indices (tables c') = <[tab_id t := t]> (_indices (tables c)) /\ _indices (tables c) !! tab_id t = None /\
        forall id t', _indices (tables c) !! id = Some t' -> (tab_code t', tab_scope t', tab_table t') <> (receiver e, scope, table)) ->
     Q t c') ->
  wp (find_or_create_table e (receiver e) scope table payer) c Q.
Proof.
  intros Hi HQ. unfold find_or_create_table. apply wp_bind, wp_find_table; [apply Hi| |].
  - intros t Ht Hc Hs Htb. apply wp_ret. apply HQ; try done; [by apply inv_but | by apply step_same | by left].
  - intros Hfresh. apply wp_bind, wp_update_db_usage; [unfold is_i64; pose proof billable_table_pos; lia | apply Hi|].
    intros c1 (HT & HS & HC) L. apply wp_emplace_table. intros t T He. rewrite HT in He.
    destruct (db_ok_new_table _ _ _ _ _ _ _ _ (i_db _ _ _ Hi) He) as (Hok & Et & Hnew & Hrows & Hnext & Hbill).
    destruct Hi as [H1 H2 H3 H4 H5 H6]. apply HQ; cbn [upd_tables tables stores caches]; try done.
    + split; cbn [upd_tables tables stores caches]; rewrite ?HS, ?HC; try done.
      * rewrite Hrows. intros id u [[<- <-]|[Hne Hu]]%lookup_insert_Some Hx; [by rewrite Et in Hx|].
        by apply (H2 id).
      * by apply (l_range _ _ _ _ L).
      * intros s. eapply cache_ok_rows; [apply H5 | lia | by eauto].
    + split; cbn [upd_tables tables stores].
      * eapply ledger_ext.
        -- by eapply (ledger_between _ _ _ _ _ _ L).
        -- intros a. rewrite HS, Hbill. lia.
      * rewrite HS. apply (isolated_change _ _ _ _ _ (_next_id (tables c))); [| | |done].
        -- intros id Hid. by rewrite Hrows, lookup_insert_ne.
        -- congruence.
        -- rewrite Hrows, lookup_insert_eq. intros u [= <-]. by rewrite Et.
    + rewrite Hrows, Et. simpl. by rewrite lookup_insert_eq.
    + by rewrite Et.
    + by rewrite Et.
    + by rewrite Et.
    + right. split_and!; [by rewrite Hrows, Et | by rewrite Et | done].
Qed.

(** ** Changing rows *)

Lemma set_store_rows (S : forall s, generic_index (V := object (payload s))) s i (P : forall s', gmap Z (object (payload s')) -> Prop) :
  P s (_indices i) -> (forall s', s' <> s -> P s' (_indices (S s'))) -> forall s', P s' (_indices (set_store S s i s')).
Proof.
  intros Hs Ho s'. destruct (decide (s = s')) as [<-|Hne]; [by rewrite set_store_eq|].
  rewrite set_store_ne by done. apply Ho. congruence.
Qed.

(** Iterators handed out stay what they are. *)
Definition grows c c' : Prop := forall s,
  prefix (_iterator_to_object (caches c s)) (_iterator_to_object (caches c' s)) /\
  _table_cache (caches c s) ⊆ _table_cache (caches c' s).

(** Only the cache of [s] changed, to [k], and it only grew. *)
Record cached n c s (k : iterator_cache) c' : Prop := {
  ca_tables : tables c' = tables c;
  ca_stores : stores c' = stores c;
  ca_ledger : same_ledger c c';
  ca_here : caches c' s = k;
  ca_there s' : s <> s' -> caches c' s' = caches c s';
  ca_ok : cache_ok (_next_id (tables c)) (_indices (stores c s)) k;
  ca_small : cache_small (S n) k;
  ca_prefix : prefix (_iterator_to_object (caches c s)) (_iterator_to_object k);
  ca_tabs : _table_cache (caches c s) ⊆ _table_cache k }.

Lemma cached_case n c s k c' (P : store_kind -> iterator_cache -> Prop) : cached n c s k c' ->
  P s k -> (forall s', s <> s' -> P s' (caches c s')) -> forall s', P s' (caches c' s').
Proof.
  intros Hc Hs Ho s'. destruct (decide (s = s')) as [<-|Hne]; [by rewrite (ca_here _ _ _ _ _ Hc)|].
  rewrite (ca_there _ _ _ _ _ Hc) by done. by apply Ho.
Qed.

Lemma cached_grows n c s k c' : cached n c s k c' -> grows c c'.
Proof.
  intros Hc. red. apply (cached_case _ _ _ _ _ (fun s' k => prefix (_iterator_to_object (caches c s')) (_iterator_to_object k) /\
    _table_cache (caches c s') ⊆ _table_cache k) Hc); [|done]. split; [apply (ca_prefix _ _ _ _ _ Hc) | apply (ca_tabs _ _ _ _ _ Hc)].
Qed.

(** The end iterator of a table. *)
Lemma wp_cache_table s t n c (Q : Z -> ctx -> Prop) :
  cache_ok (_next_id (tables c)) (_indices (stores c s)) (caches c s) -> cache_small n (caches c s) ->
  Z.of_nat n < 2 ^ 31 - 2 -> tab_id t < _next_id (tables c) ->
  (forall ei k c', cached n c s k c' -> _table_cache k !! tab_id t = Some (tab_id t, ei) ->
     _iterator_to_object k = _iterator_to_object (caches c s) -> Q ei c') ->
  wp (on_cache s (fun k => Ok (cache_table t k))) c Q.
Proof.
  intros Hok [Hs1 Hs2] Hn Ht HQ. apply wp_cache. pose proof (cache_table_ok _ _ n _ t Hok Hs2 Hn Ht) as Hct.
  destruct (cache_table t (caches c s)) as [ei k]. destruct Hct as (Hok' & Hin & Hsub & Hit & _ & Hlen & _).
  apply (HQ ei k); [|done|done]. split; cbn [upd_cache tables stores caches]; try done.
  - by rewrite set_cache_eq.
  - intros s' Hne. by rewrite set_cache_ne.
  - split; [rewrite Hit; lia | done].
  - by rewrite Hit.
Qed.

(** The iterator of a row whose table is cached; [k0] is the cache before. *)
Lemma wp_cache_add s o n c c0 k (Q : Z -> ctx -> Prop) : cached n c0 s k c ->
  _iterator_to_object k = _iterator_to_object (caches c0 s) -> cache_small n (caches c0 s) -> Z.of_nat n < 2 ^ 31 - 2 ->
  _indices (stores c0 s) !! o_id o = Some o -> is_Some (_table_cache k !! o_t_id o) ->
  (forall it k' c', cached n c0 s k' c' -> 0 <= it -> _iterator_to_object k' !! Z.to_nat it = Some (Some (o_id o)) -> Q it c') ->
  wp (on_cache s (fun k => Ok (cache_add (o_id o) k))) c Q.
Proof.
  intros Hc Hit [Hs1 _] Hn Ho Ht HQ. apply wp_cache. rewrite (ca_here _ _ _ _ _ Hc).
  pose proof (cache_add_ok _ _ n k (o_id o) o (ca_ok _ _ _ _ _ Hc)) as Ha. destruct (cache_add (o_id o) k) as [it k'].
  destruct Ha as (Hok & Hnn & Hin & Hpre & Htc & Hends & Hlen); [by rewrite Hit | done..|].
  destruct Hc as [H1 H2 H3 H4 H5 H6 [_ H7] H8 H9].
  apply (HQ it k'); [|done|done]. split; cbn [upd_cache tables stores caches]; try done.
  - by rewrite set_cache_eq.
  - intros s' Hne. rewrite set_cache_ne by done. by apply H5.
  - split; [done | by rewrite Hends].
  - by etrans.
  - by rewrite Htc.
Qed.

(** The database after a row [o] of the table [t] was created and paid for. *)
Record created e s (o : object (payload s)) t n c c' : Prop := {
  cr_db : db_ok (tables c') (stores c');
  cr_total : total_rows (stores c') <= 2 ^ 31 + Z.of_nat (S n);
  cr_range : ram_range c';
  cr_step : step e c c';
  cr_caches : caches c' = caches c;
  cr_cache s' : cache_ok (_next_id (tables c')) (_indices (stores c' s')) (caches c s');
  cr_next : _next_id (tables c') = _next_id (tables c);
  cr_new : _indices (stores c s) !! o_id o = None;
  cr_rows : _indices (stores c' s) = <[o_id o := o]> (_indices (stores c s));
  cr_tables : _indices (tables c') = <[tab_id t := with_count t (tab_count t + 1)]> (_indices (tables c)) }.

Lemma wp_new_row e s t payer id data b n c (m : object (payload s) -> act Z) (Q : Z -> ctx -> Prop) :
  Inv_but (Some (tab_id t)) n c -> _indices (tables c) !! tab_id t = Some t -> tab_code t = receiver e ->
  (forall x y z w, cost s (mk_object x y z w data) = b) -> b < 2 ^ 40 -> Z.of_nat n < 2 ^ 31 - 2 ->
  (forall oid c', created e s (mk_object oid (tab_id t) id payer data) t n c c' ->
     wp (m (mk_object oid (tab_id t) id payer data)) c' Q) ->
  wp (obj ← on_store s (emplace (fun new_id => mk_object new_id (tab_id t) id payer data));
      add_count (tab_id t) 1 ≫= fun _ => update_db_usage e payer b ≫= fun _ => m obj) c Q.
Proof.
  intros [H1 H2 H3 H4 H5 H6] Ht Hcode Hcost Hb Hn HQ. apply wp_bind, wp_emplace_row. intros o i He.
  destruct (emplace_rows _ _ _ _ (db_stores _ _ H1 s) He) as (Hwfi & Eo & Hnew & Hrows & _).
  apply wp_bind, wp_add_count; [apply H1 | done|]. intros T HwfT HT HnextT. cbn [upd_store tables] in HT, HnextT.
  assert (Eo' : o_id o = _next_id (stores c s)) by (by rewrite Eo).
  assert (Hco : cost s o = b) by (rewrite Eo; apply Hcost).
  pose proof (count_le (stores c) (tab_id t)) as Hcl. rewrite <- (db_count _ _ H1 _ _ Ht) in Hcl.
  rewrite u32_small in HT by (unfold is_u32; lia). rewrite <- Eo' in Hnew, Hrows.
  destruct (db_ok_create (tables c) T (stores c) s i t _ o H1 Ht HwfT HT eq_refl Hwfi Hnew Hrows) as (Hok & Htot & Hbill);
    [by rewrite Eo | by rewrite Hco|].
  pose proof (cost_pos s o). apply wp_bind, wp_update_db_usage; [unfold is_i64; lia | done|].
  intros c3 (HT3 & HS3 & HC3) L3. cbn [upd_tables upd_store tables stores caches] in HT3, HS3, HC3.
  rewrite Eo. apply HQ. rewrite <- Eo. split; rewrite ?HT3, ?HS3, ?set_store_eq; try done.
  - rewrite Htot. lia.
  - by apply (l_range _ _ _ _ L3).
  - split; rewrite ?HT3, ?HS3.
    + eapply ledger_ext; [by eapply (ledger_between _ _ c _ _ _ L3)|]. intros a. rewrite Hbill, Hco, Eo. simpl. lia.
    + apply (isolated_change _ _ _ _ _ (tab_id t)).
      * intros id' Hne. by rewrite HT, lookup_insert_ne.
      * intros u Hu. congruence.
      * rewrite HT, lookup_insert_eq. intros u [= <-]. done.
      * apply (set_store_rows _ _ _ (fun s' R => forall oid o', o_t_id o' <> tab_id t -> _ <-> R !! oid = Some o')); [|done].
        intros oid o' Ho'. rewrite Hrows. destruct (decide (o_id o = oid)) as [<-|Hne]; [|by rewrite lookup_insert_ne].
        rewrite Hnew, lookup_insert_eq. split; [done|]. intros [= <-]. by rewrite Eo in Ho'.
  - intros s'. rewrite ?HT3, ?HS3. revert s'. apply (set_store_rows _ _ _ (fun s' R => cache_ok (_next_id T) R (caches c s'))).
    + eapply cache_ok_rows; [apply H5 | lia|]. intros p z o' _ Ho'. exists o'. rewrite Hrows, lookup_insert_ne; [done | congruence].
    + intros s' _. rewrite HnextT. apply H5.
Qed.

Lemma wp_create_row e s t payer id data b n c (Q : Z -> ctx -> Prop) :
  Inv_but (Some (tab_id t)) n c -> _indices (tables c) !! tab_id t = Some t -> tab_code t = receiver e ->
  (forall x y z w, cost s (mk_object x y z w data) = b) -> b < 2 ^ 40 -> Z.of_nat n < 2 ^ 31 - 2 ->
  (forall i c' oid, Inv (S n) c' -> step e c c' -> grows c c' ->
     let o := mk_object oid (tab_id t) id payer data in
     0 <= i -> _iterator_to_object (caches c' s) !! Z.to_nat i = Some (Some oid) ->
     _indices (stores c s) !! oid = None -> _indices (stores c' s) = <[oid := o]> (_indices (stores c s)) ->
     _indices (tables c') = <[tab_id t := with_count t (tab_count t + 1)]> (_indices (tables c)) -> Q i c') ->
  wp (create_row e s t payer id data b) c Q.
Proof.
  intros Hi Ht Hcode Hcost Hb Hn HQ. eapply (wp_new_row e s t payer id data b n c); try done. intros oid c1 Hcr.
  set (o := mk_object oid (tab_id t) id payer data) in *. destruct Hi as [H1 H2 H3 H4 H5 H6].
  pose proof (cr_caches _ _ _ _ _ _ _ Hcr) as HC1.
  apply wp_bind, (wp_cache_table s t n); [rewrite HC1; apply (cr_cache _ _ _ _ _ _ _ Hcr) | by rewrite HC1 | done | |].
  { rewrite (cr_next _ _ _ _ _ _ _ Hcr). apply (wf_bound _ _ (db_tables _ _ H1)). by exists t. }
  intros ei k c2 Hc2 Hin2 Hit2. apply (wp_cache_add s o n c2 c1 k); try done.
  { by rewrite HC1. } { by rewrite (cr_rows _ _ _ _ _ _ _ Hcr), lookup_insert_eq. }
  intros it k' c' Hc' Hit Hin. pose proof (cached_grows _ _ _ _ _ Hc') as Hg.
  pose proof (ca_tables _ _ _ _ _ Hc') as ET. pose proof (ca_stores _ _ _ _ _ Hc') as ES.
  apply (HQ it c' oid); rewrite ?ET, ?ES; try apply Hcr; try done.
  - split; rewrite ?ET, ?ES; try apply Hcr.
    + rewrite (cr_tables _ _ _ _ _ _ _ Hcr). intros id' u [[<- <-]|[Hne Hu]]%lookup_insert_Some _.
      * simpl. pose proof (count_le (stores c) (tab_id t)). rewrite <- (db_count _ _ H1 _ _ Ht) in *. lia.
      * apply (H2 id'); [done|]. congruence.
    + destruct (ca_ledger _ _ _ _ _ Hc') as (Hr & _). unfold ram_range. rewrite Hr. apply (cr_range _ _ _ _ _ _ _ Hcr).
    + apply (cached_case _ _ _ _ _ (fun s' k => cache_ok _ (_indices (stores c1 s')) k) Hc'); [apply Hc'|].
      intros s' _. rewrite HC1. apply (cr_cache _ _ _ _ _ _ _ Hcr).
    + apply (cached_case _ _ _ _ _ (fun s' k => cache_small (S n) k) Hc'); [apply Hc'|]. intros s' _. rewrite HC1.
      eapply cache_small_le; [apply H6 | lia].
  - eapply step_trans; [apply (cr_step _ _ _ _ _ _ _ Hcr)|]. apply step_same; [apply Hc' | done | done].
  - intros s'. specialize (Hg s'). by rewrite HC1 in Hg.
  - by rewrite (ca_here _ _ _ _ _ Hc').
Qed.

Lemma wp_from_cache {A} s (f : iterator_cache -> result A) c (Q : A -> ctx -> Prop) :
  (forall err, f (caches c s) = Err err -> ~ ub err) -> (forall a, f (caches c s) = Ok a -> Q a c) -> wp (from_cache s f) c Q.
Proof. intros He HQ. unfold wp, from_cache. destruct (f (caches c s)); cbn [mbind result_bind]; eauto. Qed.

Lemma cache_get_error it k err : cache_get it k = Err err -> ~ ub err.
Proof.
  unfold cache_get, check, ub, mbind, result_bind. intros Heq. repeat case_match; simplify_eq; intuition discriminate.
Qed.

Lemma wp_row_at s it x n c (Q : object (payload s) -> ctx -> Prop) : Inv_but x n c ->
  (forall o, cache_get it (caches c s) = Ok (o_id o) -> _indices (stores c s) !! o_id o = Some o ->
     is_Some (_table_cache (caches c s) !! o_t_id o) -> Q o c) -> wp (row_at s it) c Q.
Proof.
  intros Hi HQ. unfold row_at. apply wp_bind, wp_from_cache; [apply cache_get_error|].
  intros p Hg. destruct (cache_get_ok _ _ _ _ _ (i_cache _ _ _ Hi s) Hg) as (_ & _ & _ & o & Ho & Ht).
  unfold wp, deref, find. rewrite Ho. cbn [of_option mbind result_bind].
  destruct (db_row_id _ _ (i_db _ _ _ Hi) _ _ _ Ho) as [Eid _]. subst p. by apply HQ.
Qed.

(** The table of a cached row is cached and there. *)
Lemma wp_own_table e s o x n c (Q : table_id_object -> ctx -> Prop) : Inv_but x n c ->
  _indices (stores c s) !! o_id o = Some o -> is_Some (_table_cache (caches c s) !! o_t_id o) ->
  (forall t, o_t_id o = tab_id t -> _indices (tables c) !! tab_id t = Some t -> tab_code t = receiver e -> Q t c) ->
  wp (own_table e s o) c Q.
Proof.
  intros Hi Ho [[p ei] Hp] HQ. unfold own_table. apply wp_bind, wp_from_cache; unfold get_table; rewrite Hp; cbn; [done|].
  intros q [= <-]. destruct (ck_table _ _ _ (i_cache _ _ _ Hi s) _ _ _ Hp) as (-> & _).
  destruct (db_row_tab _ _ (i_db _ _ _ Hi) _ _ _ Ho) as [t Ht].
  pose proof (db_tab_id _ _ (i_db _ _ _ Hi) _ _ Ht) as Et.
  apply wp_bind. unfold wp at 1, deref_table, find. rewrite Ht. cbn [of_option mbind result_bind].
  apply wp_bind, wp_check; [not_ub|]. intros Hc. apply wp_ret, HQ; [done | by rewrite Et | lia].
Qed.

Lemma inv_same_db c c' x n : Inv_but x n c -> same_db c c' -> (ram_range c -> ram_range c') -> Inv_but x n c'.
Proof. intros [H1 H2 H3 H4 H5 H6] (HT & HS & HC) Hr. split; rewrite ?HT, ?HS, ?HC; auto. Qed.

Lemma same_db_trans c1 c2 c3 : same_db c1 c2 -> same_db c2 c3 -> same_db c1 c3.
Proof. unfold same_db. intuition congruence. Qed.

(** Replacing a row, after the charges for it. *)
Lemma wp_replace_row e s o payer data n c c0 (Q : unit -> ctx -> Prop) : Inv n c0 -> same_db c0 c ->
  _indices (stores c0 s) !! o_id o = Some o ->
  (forall t, _indices (tables c0) !! o_t_id o = Some t -> tab_code t = receiver e) ->
  let o' := mk_object (o_id o) (o_t_id o) (primary_key o) payer data in
  cost s o' < 2 ^ 40 ->
  ledger e (fun a => charge payer (cost s o') a - charge (o_payer o) (cost s o) a) c0 c ->
  (forall c', Inv n c' -> step e c0 c' -> tables c' = tables c0 -> caches c' = caches c0 ->
     _indices (stores c' s) = <[o_id o := o']> (_indices (stores c0 s)) ->
     (forall s', s' <> s -> stores c' s' = stores c0 s') -> Q tt c') ->
  wp (set_row s o payer data) c Q.
Proof.
  intros [H1 H2 H3 H4 H5 H6] (HT & HS & HC) Ho Hcode o' Hcost L HQ.
  apply wp_set_row; [rewrite HS; apply H1 | by rewrite HS|]. rewrite HS. intros i Hwfi Hrows.
  destruct (db_ok_set (tables c0) (stores c0) s i o o' H1 Ho Hwfi Hrows eq_refl eq_refl Hcost) as (Hok & Htot & Hbill).
  apply HQ; cbn [upd_store tables stores caches]; rewrite ?HT, ?HS, ?HC, ?set_store_eq; try done.
  - split; cbn [upd_store tables stores caches]; rewrite ?HT, ?HS, ?HC; try done.
    + by rewrite Htot.
    + by apply (l_range _ _ _ _ L).
    + apply (set_store_rows _ _ _ (fun s' R => cache_ok _ R (caches c0 s'))); [|intros s' _; apply H5].
      eapply cache_ok_rows; [apply H5 | lia|]. rewrite Hrows. intros p z u _ Hu.
      destruct (decide (o_id o = p)) as [<-|Hne]; [|exists u; by rewrite lookup_insert_ne].
      exists o'. rewrite lookup_insert_eq. split; [done|]. rewrite Ho in Hu. by injection Hu as <-.
  - split; cbn [upd_store tables stores]; rewrite ?HT, ?HS.
    + eapply ledger_ext; [by eapply (ledger_between _ _ c0 _ _ _ L)|]. intros a. rewrite Hbill. simpl. lia.
    + apply (isolated_change _ _ _ _ _ (o_t_id o)); [done | done | done|].
      apply (set_store_rows _ _ _ (fun s' R => forall oid u, o_t_id u <> o_t_id o -> _ <-> R !! oid = Some u)); [|done].
      intros oid u Hu. rewrite Hrows. destruct (decide (o_id o = oid)) as [<-|Hne]; [|by rewrite lookup_insert_ne].
      rewrite Ho, lookup_insert_eq. split; intros [= <-]; done.
  - intros s' Hne. by rewrite set_store_ne.
Qed.

(** An empty table goes; [c] is [c1] up to the ledger. *)
Lemma wp_drop_if_empty e t x c (Q : unit -> ctx -> Prop) :
  db_ok (tables c) (stores c) -> ram_range c -> _indices (tables c) !! tab_id t = Some t -> tab_code t = receiver e ->
  x = tab_id t ->
  (forall c', db_ok (tables c') (stores c') -> step e c c' -> ram_range c' -> stores c' = stores c -> caches c' = caches c ->
     _next_id (tables c') = _next_id (tables c) ->
     _indices (tables c') = (if tab_count t =? 0 then delete x (_indices (tables c)) else _indices (tables c)) -> Q tt c') ->
  wp (if tab_count t =? 0 then remove_table e t else mret tt) c Q.
Proof.
  intros Hok Hr Ht Hcode -> HQ. destruct (Z.eqb_spec (tab_count t) 0) as [Hz|Hz].
  - unfold remove_table. apply wp_bind. pose proof billable_table_pos as Hb.
    rewrite negative_charge by lia. apply wp_update_db_usage; [unfold is_i64; lia | done|].
    intros c1 (HT & HS & HC) L. apply wp_remove_table; rewrite HT; [apply Hok | done|]. intros T HwfT HrowsT HnextT.
    destruct (db_ok_drop _ T _ t Hok Ht Hz HwfT HrowsT) as [Hok' Hbill].
    apply HQ; cbn [upd_tables tables stores caches]; rewrite ?HS; try done.
    + split; cbn [upd_tables tables stores].
      * eapply ledger_ext; [by eapply (ledger_between _ _ c _ _ _ L)|]. intros a. rewrite HS, Hbill. unfold charge.
        destruct (a =? tab_payer t); lia.
      * rewrite HS. apply (isolated_change _ _ _ _ _ (tab_id t)).
        -- intros id Hne. by rewrite HrowsT, lookup_delete_ne.
        -- intros u Hu. congruence.
        -- rewrite HrowsT, lookup_delete_eq. done.
        -- done.
    + by apply (l_range _ _ _ _ L).
  - apply wp_ret, HQ; try done. by apply step_same.
Qed.

Lemma wp_erase_row e s o t it n c c0 (Q : unit -> ctx -> Prop) : Inv n c0 -> same_db c0 c ->
  cache_get it (caches c0 s) = Ok (o_id o) -> _indices (stores c0 s) !! o_id o = Some o ->
  o_t_id o = tab_id t -> _indices (tables c0) !! tab_id t = Some t -> tab_code t = receiver e -> Z.of_nat n < 2 ^ 31 ->
  ledger e (fun a => - charge (o_payer o) (cost s o) a) c0 c ->
  (forall c', Inv n c' -> step e c0 c' -> _indices (stores c' s) = delete (o_id o) (_indices (stores c0 s)) ->
     (forall s', s' <> s -> stores c' s' = stores c0 s' /\ caches c' s' = caches c0 s') ->
     _table_cache (caches c' s) = _table_cache (caches c0 s) ->
     _iterator_to_object (caches c' s) = <[Z.to_nat it := None]> (_iterator_to_object (caches c0 s)) ->
     _indices (tables c') = (if tab_count t =? 1 then delete (tab_id t) (_indices (tables c0))
       else <[tab_id t := with_count t (tab_count t - 1)]> (_indices (tables c0))) -> Q tt c') ->
  wp (erase_row e s o t it) c Q.
Proof.
  intros [H1 H2 H3 H4 H5 H6] (HT & HS & HC) Hg Ho Hot Ht Hcode Hn L HQ. unfold erase_row.
  apply wp_bind, wp_add_count; rewrite HT; [apply H1 | done|]. intros T1 HwfT1 HT1 HnT1.
  apply wp_bind, wp_remove_row; cbn [upd_tables stores]; rewrite HS; [apply H1 | done|]. intros i Hwfi Hi.
  pose proof (H2 _ _ Ht) as Hpos. pose proof (count_le (stores c0) (tab_id t)) as Hcl. rewrite <- (db_count _ _ H1 _ _ Ht) in Hcl.
  assert (Hcnt : u32 (tab_count t + -1) = tab_count t - 1).
  { rewrite u32_small; [lia|]. specialize (Hpos ltac:(done)). unfold is_u32. lia. }
  rewrite Hcnt in HT1.
  destruct (db_ok_erase (tables c0) T1 (stores c0) s i t _ o H1 Ht HwfT1 HT1 eq_refl Hwfi Ho Hi Hot) as (Hok & Htot & Hbill).
  set (t1 := with_count t (tab_count t - 1)).
  assert (Ht1 : _indices T1 !! tab_id t = Some t1) by (by rewrite HT1, lookup_insert_eq).
  apply wp_bind. unfold wp at 1, deref_table, find. cbn [upd_tables upd_store tables stores].
  rewrite Ht1. cbn [of_option mbind result_bind].
  apply wp_bind, (wp_drop_if_empty e t1 (tab_id t)); cbn [upd_tables upd_store tables stores caches]; rewrite ?HS; try done.
  { by apply (l_range _ _ _ _ L). }
  intros c2 Hok2 Hstep2 Hr2 HS2 HC2 Hn2 HT2.
  destruct (cache_remove_ok _ _ _ _ _ (H5 s) Hg) as (k & Hk & Hkok & Hktc & Hkend & Hkit).
  unfold wp, on_cache. cbn [upd_tables upd_store tables caches stores] in HC2, HS2, HT2, Hn2.
  rewrite HC2, HC, Hk. cbn [unit_result mbind result_bind].
  assert (HTc : (tab_count t1 =? 0) = (tab_count t =? 1)) by (simpl; lia). rewrite HTc, HT1 in HT2.
  apply HQ; cbn [tables stores caches]; rewrite ?HS2, ?HS, ?set_store_eq, ?set_cache_eq; try done.
  - split; cbn [tables stores caches]; rewrite ?HS2, ?HS; try done.
    + by rewrite HS2 in Hok2.
    + rewrite HT2. intros id u. destruct (Z.eqb_spec (tab_count t) 1) as [|Hne1].
      * intros [Hne Hu]%lookup_delete_Some. rewrite lookup_insert_ne in Hu by done. by apply (H2 id).
      * intros [[<- <-]|[Hne Hu]]%lookup_insert_Some _; [simpl; specialize (Hpos ltac:(done)); lia | by apply (H2 id)].
    + rewrite Htot. lia.
    + intros s'. rewrite Hn2, HnT1. destruct (decide (s = s')) as [<-|Hne].
      * by rewrite set_store_eq, set_cache_eq, Hi.
      * rewrite set_store_ne, set_cache_ne by done. apply H5.
    + intros s'. destruct (decide (s = s')) as [<-|Hne]; [|rewrite set_cache_ne by done; apply H6].
      rewrite set_cache_eq. unfold cache_small. rewrite Hkit, Hkend, length_insert. apply H6.
  - apply (step_trans _ _ (upd_store (upd_tables c T1) s i)); [|eapply step_trans; [exact Hstep2 | by apply step_same]].
    split; cbn [upd_tables upd_store tables stores]; rewrite HS.
    + eapply ledger_ext; [by eapply (ledger_between _ _ c0 _ _ _ L)|]. intros a. rewrite Hbill. lia.
    + apply (isolated_change _ _ _ _ _ (tab_id t)).
      * intros id Hne. by rewrite HT1, lookup_insert_ne.
      * intros u Hu. congruence.
      * rewrite Ht1. intros u [= <-]. done.
      * apply (set_store_rows _ _ _ (fun s' R => forall oid u, o_t_id u <> tab_id t -> _ <-> R !! oid = Some u)); [|done].
        intros oid u Hu. rewrite Hi, lookup_delete_Some. split; [|tauto]. intros Hoid. split; [|done]. congruence.
  - intros s' Hne. rewrite set_store_ne, set_cache_ne by congruence. done.
  - rewrite HT2. destruct (tab_count t =? 1); [by rewrite delete_insert_eq | done].
Qed.

(** ** Reading *)

(** What an iterator stands for. *)
Definition points c s (it : Z) (o : object (payload s)) : Prop :=
  0 <= it /\ _iterator_to_object (caches c s) !! Z.to_nat it = Some (Some (o_id o)) /\
  _indices (stores c s) !! o_id o = Some o.
Definition ends c s (it : Z) (t : table_id_object) : Prop :=
  _table_cache (caches c s) !! tab_id t = Some (tab_id t, it) /\ _indices (tables c) !! tab_id t = Some t.

Record reads n c c' : Prop := {
  rd_inv : Inv (S n) c';
  rd_tables : tables c' = tables c;
  rd_stores : stores c' = stores c;
  rd_ledger : same_ledger c c';
  rd_grows : grows c c' }.

Lemma grows_refl c : grows c c.
Proof. intros s. done. Qed.

Lemma reads_refl n c : Inv n c -> reads n c c.
Proof. intros Hi. split; try done. eapply inv_le; [exact Hi | lia]. Qed.

Lemma cached_reads n c s k c' : Inv n c -> cached n c s k c' -> reads n c c'.
Proof.
  intros [H1 H2 H3 H4 H5 H6] Hc. pose proof (ca_tables _ _ _ _ _ Hc) as HT. pose proof (ca_stores _ _ _ _ _ Hc) as HS.
  split; try apply Hc; [|by eapply cached_grows]. split; rewrite ?HT, ?HS; try done.
  - lia.
  - destruct (ca_ledger _ _ _ _ _ Hc) as (Hr & _). unfold ram_range. by rewrite Hr.
  - apply (cached_case _ _ _ _ _ (fun s' k => cache_ok _ (_indices (stores c s')) k) Hc); [apply Hc|]. intros s' _. apply H5.
  - apply (cached_case _ _ _ _ _ (fun _ k => cache_small (S n) k) Hc); [apply Hc|]. intros s' _.
    eapply cache_small_le; [apply H6 | lia].
Qed.

Lemma cached_same n c s : Inv n c -> cached n c s (caches c s) c.
Proof. intros Hi. split; try done; [apply Hi|]. eapply cache_small_le; [apply Hi | lia]. Qed.

(** The iterator of a row of a cached table. *)
Lemma wp_add_iterator s o n c (Q : Z -> ctx -> Prop) : Inv n c -> Z.of_nat n < 2 ^ 31 - 2 ->
  _indices (stores c s) !! o_id o = Some o -> is_Some (_table_cache (caches c s) !! o_t_id o) ->
  (forall it c', reads n c c' -> points c' s it o -> Q it c') ->
  wp (on_cache s (fun k => Ok (cache_add (o_id o) k))) c Q.
Proof.
  intros Hi Hn Ho Ht HQ. apply (wp_cache_add s o n c c (caches c s)); try done; [by apply cached_same | apply Hi|].
  intros it k c' Hc Hit Hin. apply HQ; [by eapply cached_reads|]. unfold points.
  by rewrite (ca_here _ _ _ _ _ Hc), (ca_stores _ _ _ _ _ Hc).
Qed.

Lemma reads_step e n c c' : reads n c c' -> Inv (S n) c' /\ step e c c'.
Proof. intros []. split; [done|]. by apply step_same. Qed.

(** A table searched for a row of a store. *)
Definition lookup_result n c s (code scope table : Z)
    (found : Z -> gmap Z (object (payload s)) -> option (object (payload s)))
    (r : Z * option (object (payload s))) c' : Prop :=
  reads n c c' /\
  ((r = (-1, None) /\ forall id t, _indices (tables c) !! id = Some t ->
      (tab_code t, tab_scope t, tab_table t) <> (code, scope, table)) \/
   exists t, _indices (tables c) !! tab_id t = Some t /\ tab_code t = code /\ tab_scope t = scope /\ tab_table t = table /\
     match found (tab_id t) (_indices (stores c s)) with
     | Some o => if o_t_id o =? tab_id t then points c' s r.1 o /\ r.2 = Some o else ends c' s r.1 t /\ r.2 = None
     | None => ends c' s r.1 t /\ r.2 = None
     end).

Lemma wp_search s code scope table found n c (Q : Z * option (object (payload s)) -> ctx -> Prop) :
  Inv n c -> Z.of_nat n < 2 ^ 31 - 2 ->
  (forall t rows o, found t rows = Some o -> exists id, rows !! id = Some o) ->
  (forall r c', lookup_result n c s code scope table found r c' -> Q r c') ->
  wp (search s code scope table found) c Q.
Proof.
  intros Hi Hn Hfound HQ. unfold search. apply wp_bind, wp_find_table; [apply Hi| |].
  2:{ intros Hnone. apply wp_ret, HQ. split; [by apply reads_refl | by left]. }
  intros t Ht Hc Hs Htb. apply wp_bind, (wp_cache_table s t n); [apply Hi | apply Hi | done | |].
  { apply (wf_bound _ _ (db_tables _ _ (i_db _ _ _ Hi))). by exists t. }
  intros ei k c1 Hc1 Hin Hit. apply wp_bind, wp_read. rewrite (ca_stores _ _ _ _ _ Hc1).
  assert (Hend : match found (tab_id t) (_indices (stores c s)) with Some o => (o_t_id o =? tab_id t) = false | None => True end ->
    Q (ei, None) c1).
  { intros Hf. apply HQ. split; [by eapply cached_reads|]. right. exists t. split_and!; try done.
    assert (ends c1 s ei t) by (split; [by rewrite (ca_here _ _ _ _ _ Hc1) | by rewrite (ca_tables _ _ _ _ _ Hc1)]).
    destruct (found _ _); [|done]. by rewrite Hf. }
  unfold iterator_for. destruct (found (tab_id t) (_indices (stores c s))) as [o|] eqn:Ef; [|by apply wp_ret, Hend].
  destruct (Z.eqb_spec (o_t_id o) (tab_id t)) as [Eo|Ne]; cbn [negb]; [|by apply wp_ret, Hend].
  destruct (Hfound _ _ _ Ef) as [id Ho]. destruct (db_row_id _ _ (i_db _ _ _ Hi) _ _ _ Ho) as [Eid _]. subst id.
  apply wp_bind, (wp_cache_add s o n c1 c k); try done; [apply Hi | rewrite Eo, Hin; by eexists|].
  intros it k2 c2 Hc2 Hnn Hin2. apply wp_ret, HQ. split; [by eapply cached_reads|].
  right. exists t. split_and!; try done. rewrite Ef, Eo, Z.eqb_refl. split; [|done]. unfold points.
  by rewrite (ca_here _ _ _ _ _ Hc2), (ca_stores _ _ _ _ _ Hc2).
Qed.

(** The end iterator of a table that is gone: the code reads the id of the
    removed table through it. *)
Definition stale c s (it : Z) : Prop :=
  exists p, find_table_by_end_iterator it (caches c s) = Ok (Some p) /\ _indices (tables c) !! p = None.

Lemma find_end_error it k err : find_table_by_end_iterator it k = Err err -> ~ ub err.
Proof.
  unfold find_table_by_end_iterator, check, ub, mbind, result_bind. intros Heq. repeat case_match; simplify_eq; intuition discriminate.
Qed.

(** The row [o] found on the way, when it is in the table [x]. *)
Definition arrives c' s (x : Z) (o : option (object (payload s))) (otherwise : Prop) (r : Z * option Z) : Prop :=
  match o with
  | Some o => if o_t_id o =? x then points c' s r.1 o /\ r.2 = Some (primary_key o) else otherwise
  | None => otherwise
  end.

Lemma wp_arrive s n c x (o : option (object (payload s))) (other : act (Z * option Z)) (P : Z * option Z -> ctx -> Prop) Q :
  Inv n c -> Z.of_nat n < 2 ^ 31 - 2 -> (forall v, o = Some v -> exists id, _indices (stores c s) !! id = Some v) ->
  is_Some (_table_cache (caches c s) !! x) ->
  wp other c P ->
  (forall r c', arrives c' s x o False r -> reads n c c' -> Q r c') ->
  (forall r c', match o with Some v => o_t_id v <> x | None => True end -> P r c' -> Q r c') ->
  wp (match o with
      | Some o => if negb (o_t_id o =? x) then other
                  else i ← on_cache s (fun k => Ok (cache_add (o_id o) k)); mret (i, Some (primary_key o))
      | None => other
      end) c Q.
Proof.
  intros Hi Hn Hrow Hx Hother HQ HP. destruct o as [v|]; [|eapply wp_mono, Hother; intros r c'; by apply HP].
  destruct (Z.eqb_spec (o_t_id v) x) as [E|Ne]; cbn [negb]; [|eapply wp_mono, Hother; intros r c'; by apply HP].
  destruct (Hrow v eq_refl) as [id Hid]. destruct (db_row_id _ _ (i_db _ _ _ Hi) _ _ _ Hid) as [Eid _]. subst id.
  apply wp_bind, (wp_add_iterator s v n); try done; [by rewrite E|].
  intros it c' Hrd Hpt. apply wp_ret, HQ; [|done]. unfold arrives. by rewrite E, Z.eqb_refl.
Qed.

Definition next_result n c s (less : object (payload s) -> object (payload s) -> bool) (it : Z) (r : Z * option Z) c' : Prop :=
  reads n c c' /\
  (if it <? -1 then r = (-1, None)
   else exists o, points c s it o /\
     arrives c' s (o_t_id o) (next_of less o (_indices (stores c s)))
       (r.2 = None /\ exists t, tab_id t = o_t_id o /\ ends c' s r.1 t) r).

Lemma wp_next_in s less it n c (Q : Z * option Z -> ctx -> Prop) : Inv n c -> Z.of_nat n < 2 ^ 31 - 2 ->
  (forall r c', next_result n c s less it r c' -> Q r c') -> wp (next_in s less it) c Q.
Proof.
  intros Hi Hn HQ. unfold next_in. destruct (it <? -1) eqn:Elt.
  { apply wp_ret, HQ. split; [by apply reads_refl | by rewrite Elt]. }
  apply wp_bind, (wp_row_at s it None n); [done|]. intros o Hg Ho Htc.
  apply wp_bind, wp_read. destruct Htc as [[p ei] Htc].
  destruct (ck_table _ _ _ (i_cache _ _ _ Hi s) _ _ _ Htc) as (-> & _).
  destruct (db_row_tab _ _ (i_db _ _ _ Hi) _ _ _ Ho) as [t Ht]. pose proof (db_tab_id _ _ (i_db _ _ _ Hi) _ _ Ht) as Et.
  destruct (cache_get_ok _ _ _ _ _ (i_cache _ _ _ Hi s) Hg) as (Hit & Hin & _).
  assert (Hpt : points c s it o) by done.
  eapply (wp_arrive s n c (o_t_id o) _ _ (fun r c' => c' = c /\ r = (ei, None))); try done.
  - intros v Hv. by eapply bound_row.
  - apply wp_bind, wp_from_cache; unfold get_end_iterator_by_table_id; rewrite Htc; [done|].
    intros a Ha. apply (proj1 (Ok_inj _ _)) in Ha as <-. by apply wp_ret.
  - intros r c' Ha Hrd. apply HQ. split; [done|]. rewrite Elt. exists o. split; [done|]. unfold arrives in *.
    destruct (next_of _ _ _) as [v|]; [|done]. by destruct (_ =? _).
  - intros r c' Hno [-> ->]. apply HQ. split; [by apply reads_refl|]. rewrite Elt. exists o. split; [done|]. unfold arrives.
    assert (Hend : exists t, tab_id t = o_t_id o /\ ends c s ei t).
    { exists t. unfold ends. by rewrite Et. }
    destruct (next_of _ _ _) as [v|]; [|done]. destruct (Z.eqb_spec (o_t_id v) (o_t_id o)); done.
Qed.

Definition previous_result n c s (less : object (payload s) -> object (payload s) -> bool) (it : Z) (r : Z * option Z) c' : Prop :=
  reads n c c' /\
  (if it <? -1 then exists t, ends c s it t /\
     arrives c' s (tab_id t) (before less (fun o => o_t_id o <=? tab_id t) (_indices (stores c s))) (r = (-1, None)) r
   else exists o, points c s it o /\
     arrives c' s (o_t_id o) (previous_of less o (_indices (stores c s))) (r = (-1, None)) r).

Lemma wp_previous_in s less it n c (Q : Z * option Z -> ctx -> Prop) : Inv n c -> Z.of_nat n < 2 ^ 31 - 2 -> is_i32 it ->
  ~ stale c s it -> (forall r c', previous_result n c s less it r c' -> Q r c') -> wp (previous_in s less it) c Q.
Proof.
  intros Hi Hn H32 Hstale HQ. unfold previous_in, previous_result in *. destruct (it <? -1) eqn:Elt.
  - apply wp_bind, wp_from_cache; [apply find_end_error|]. intros tab Hf.
    apply wp_bind, wp_of_option; [not_ub|]. intros p ->.
    destruct (_indices (tables c) !! p) as [t|] eqn:Ht; [|destruct Hstale; by exists p].
    pose proof (db_tab_id _ _ (i_db _ _ _ Hi) _ _ Ht) as Et.
    pose proof (find_table_end _ _ _ n _ _ (i_cache _ _ _ Hi s) (proj2 (i_small _ _ _ Hi s)) Hn H32 Hf) as Htc.
    assert (Hend : ends c s it t) by (unfold ends; by rewrite Et).
    apply wp_bind. unfold wp at 1, deref_table, find. rewrite Ht. cbn [of_option mbind result_bind].
    apply wp_bind, wp_read.
    eapply (wp_arrive s n c (tab_id t) _ _ (fun r c' => c' = c /\ r = (-1, None))); try done.
    + intros v Hv. by eapply before_row.
    + rewrite Et, Htc. by eexists.
    + intros r c' Ha Hrd. apply HQ. split; [done|]. exists t. split; [done|]. unfold arrives in *.
      destruct (before _ _ _) as [v|]; [|done]. by destruct (_ =? _).
    + intros r c' Hno [-> ->]. apply HQ. split; [by apply reads_refl|]. exists t. split; [done|]. unfold arrives.
      destruct (before _ _ _) as [v|]; [|done]. by destruct (Z.eqb_spec (o_t_id v) (tab_id t)).
  - apply wp_bind, (wp_row_at s it None n); [done|]. intros o Hg Ho Htc. apply wp_bind, wp_read.
    destruct (cache_get_ok _ _ _ _ _ (i_cache _ _ _ Hi s) Hg) as (Hit & Hin & _).
    assert (Hpt : points c s it o) by done.
    eapply (wp_arrive s n c (o_t_id o) _ _ (fun r c' => c' = c /\ r = (-1, None))); try done.
    + intros v Hv. by eapply before_row.
    + intros r c' Ha Hrd. apply HQ. split; [done|]. exists o. split; [done|]. unfold arrives in *.
      destruct (previous_of _ _ _) as [v|]; [|done]. by destruct (_ =? _).
    + intros r c' Hno [-> ->]. apply HQ. split; [by apply reads_refl|]. exists o. split; [done|]. unfold arrives.
      destruct (previous_of _ _ _) as [v|]; [|done]. by destruct (Z.eqb_spec (o_t_id v) (o_t_id o)).
Qed.
End Steps.
