(* ===== verification/ContractRuns.v ===== *)
(** * Contracts at work on their tables

    Sequences of the database methods, as a contract issues them: the theorems
    about consistency, RAM and isolation, and concrete runs. *)

From stdpp Require Import base numbers list gmap strings sorting.
From Stdlib Require Import ZArith Lia.
From S2P Require Import Prelude Chainbase ChainbaseSpec Accumulator ResourceLimits ResourceLimitsSpec Authority.
From S2P Require Import ContractTables ContractTablesSpec ApplyContext ApplyContextSpec ApplyContextSteps.
Local Open Scope Z_scope.

Section Runs.
Context {sk : Type} `{SecondaryKeys sk}.
#[local] Abbreviation ctx := (apply_context (sk := sk)).
#[local] Abbreviation act := (act (sk := sk)).
#[local] Abbreviation payload := (payload (sk := sk)).
Implicit Types (c : ctx) (e : act_env) (s : store_kind) (n : nat).

(** ** Calls *)

Inductive db_call :=
| DbStore (scope table payer id : Z) (buffer : list Z)
| DbUpdate (it payer : Z) (buffer : list Z)
| DbRemove (it : Z)
| IdxStore (k : index_kind) (scope table payer id : Z) (v : sk)
| IdxUpdate (k : index_kind) (it payer : Z) (v : sk)
| IdxRemove (k : index_kind) (it : Z)
| DbFind (s : store_kind) (code scope table id : Z)
| DbLower (s : store_kind) (code scope table id : Z)
| DbUpper (s : store_kind) (code scope table id : Z)
| DbEnd (s : store_kind) (code scope table : Z)
| DbNext (s : store_kind) (it : Z)
| DbPrevious (s : store_kind) (it : Z)
| DbGet (it buffer_size : Z)
| IdxFind (k : index_kind) (code scope table : Z) (v : sk)
| IdxLower (k : index_kind) (code scope table : Z) (v : sk)
| IdxUpper (k : index_kind) (code scope table : Z) (v : sk)
| IdxNext (k : index_kind) (it : Z)
| IdxPrevious (k : index_kind) (it : Z)
| IdxGet (k : index_kind) (it : Z).

Definition quiet {A} (m : act A) : act unit := m ≫= fun _ => mret tt.

Definition call e (o : db_call) : act unit :=
  match o with
  | DbStore scope table payer id buffer => quiet (db_store_i64 e scope table payer id buffer)
  | DbUpdate it payer buffer => db_update_i64 e it payer buffer
  | DbRemove it => db_remove_i64 e it
  | IdxStore k scope table payer id v => quiet (idx_store e k scope table payer id v)
  | IdxUpdate k it payer v => idx_update e k it payer v
  | IdxRemove k it => idx_remove e k it
  | DbFind s code scope table id => quiet (find_primary s code scope table id)
  | DbLower s code scope table id => quiet (lowerbound_primary s code scope table id)
  | DbUpper s code scope table id => quiet (upperbound_primary s code scope table id)
  | DbEnd s code scope table => quiet (end_of s code scope table)
  | DbNext s it => quiet (next_primary s it)
  | DbPrevious s it => quiet (previous_primary s it)
  | DbGet it buffer_size => quiet (db_get_i64 it buffer_size)
  | IdxFind k code scope table v => quiet (find_secondary k code scope table v)
  | IdxLower k code scope table v => quiet (lowerbound_secondary k code scope table v)
  | IdxUpper k code scope table v => quiet (upperbound_secondary k code scope table v)
  | IdxNext k it => quiet (next_secondary k it)
  | IdxPrevious k it => quiet (previous_secondary k it)
  | IdxGet k it => quiet (idx_get k it)
  end.

Fixpoint calls e (ops : list db_call) : act unit :=
  match ops with
  | [] => mret tt
  | o :: ops => call e o ≫= fun _ => calls e ops
  end.

(** Buffers fit the memory of a contract, iterators are 32 bits wide. *)
Definition call_ok (o : db_call) : Prop :=
  match o with
  | DbStore _ _ _ _ buffer | DbUpdate _ _ buffer => size buffer < 2 ^ 32
  | DbPrevious _ it | IdxPrevious _ it => is_i32 it
  | _ => True
  end.

(** The end iterator of a table that is gone is moved back. *)
Definition goes_stale c (o : db_call) : Prop :=
  match o with
  | DbPrevious s it => stale c s it
  | IdxPrevious k it => stale c (IDX k) it
  | _ => False
  end.

(** ** Every call *)

Definition done_well e n c : unit -> ctx -> Prop := fun _ c' => Inv (S n) c' /\ step e c c'.

Lemma wp_quiet {A} (m : act A) c (Q : unit -> ctx -> Prop) : wp m c (fun _ c' => Q tt c') -> wp (quiet m) c Q.
Proof. intros Hm. apply wp_bind. eapply wp_mono, Hm. intros a c' HQ. by apply wp_ret. Qed.

Lemma create_well e s t payer id data b n c c0 : step e c0 c ->
  Inv_but (Some (tab_id t)) n c -> _indices (tables c) !! tab_id t = Some t -> tab_code t = receiver e ->
  (forall x y z w, cost s (mk_object x y z w data) = b) -> b < 2 ^ 40 -> Z.of_nat n < 2 ^ 31 - 2 ->
  wp (create_row e s t payer id data b) c (fun _ c' => Inv (S n) c' /\ step e c0 c').
Proof.
  intros Hst Hi Ht Hcode Hcost Hb Hn. eapply (wp_create_row e s t payer id data b n); try done.
  intros i c' oid Hi' Hst' _ *. intros. split; [done | by eapply step_trans].
Qed.

Lemma call_store e scope table payer id buffer n c : Inv n c -> Z.of_nat n < 2 ^ 31 - 2 -> size buffer < 2 ^ 32 ->
  wp (call e (DbStore scope table payer id buffer)) c (done_well e n c).
Proof.
  intros Hi Hn Hb. apply wp_quiet. unfold db_store_i64. pose proof billable_row_pos.
  assert (Hsz : 0 <= size buffer) by (unfold size; lia). rewrite u64_small, i64_small by mach_lia.
  apply wp_bind, (wp_find_or_create e _ _ _ n); [done|]. intros t c1 Hi1 Hst Ht Hcode _ _ _ _ _.
  apply wp_bind, wp_check; [not_ub|]. intros _. apply create_well; try done. lia.
Qed.

Lemma call_idx_store e k scope table payer id v n c : Inv n c -> Z.of_nat n < 2 ^ 31 - 2 ->
  wp (call e (IdxStore k scope table payer id v)) c (done_well e n c).
Proof.
  intros Hi Hn. apply wp_quiet. unfold idx_store. apply wp_bind, wp_check; [not_ub|]. intros _.
  apply wp_bind, (wp_find_or_create e _ _ _ n); [done|]. intros t c1 Hi1 Hst Ht Hcode _ _ _ _ _.
  apply create_well; try done. pose proof (billable_index_pos k). lia.
Qed.

(** The charges of an update. *)
Lemma wp_recharge e n c (payer payer' old new : Z) (Q : unit -> ctx -> Prop) : Inv n c ->
  0 <= old < 2 ^ 40 -> 0 <= new < 2 ^ 40 ->
  (forall c', same_db c c' -> ledger e (fun a => charge payer' new a - charge payer old a) c c' -> Q tt c') ->
  wp (if negb (payer =? payer') then
        update_db_usage e payer (i64 (- old)) ≫= fun _ => update_db_usage e payer' new
      else if negb (old =? new) then update_db_usage e payer (i64 (new - old)) else mret tt) c Q.
Proof.
  intros Hi Ho Hnw HQ. rewrite !i64_small by mach_lia.
  destruct (Z.eqb_spec payer payer') as [<-|Hne]; cbn [negb].
  - destruct (Z.eqb_spec old new) as [<-|Hne']; cbn [negb].
    + apply wp_ret, HQ; [done|]. eapply ledger_ext; [by apply ledger_same|]. intros a. simpl. lia.
    + apply wp_update_db_usage; [mach_lia | apply Hi|]. intros c' Hdb L. apply HQ; [done|].
      eapply ledger_ext; [exact L|]. intros a. unfold charge. destruct (a =? payer); lia.
  - apply wp_bind. apply wp_update_db_usage; [mach_lia | apply Hi|]. intros c1 Hdb1 L1.
    apply wp_update_db_usage; [mach_lia | by apply (l_range _ _ _ _ L1), Hi|]. intros c2 Hdb2 L2.
    apply HQ; [by eapply same_db_trans|]. eapply ledger_ext; [by eapply ledger_trans|].
    intros a. unfold charge. destruct (a =? payer'), (a =? payer); lia.
Qed.

Lemma call_update e it payer buffer n c : Inv n c -> size buffer < 2 ^ 32 ->
  wp (call e (DbUpdate it payer buffer)) c (done_well e n c).
Proof.
  intros Hi Hb. cbn [call]. unfold db_update_i64. apply wp_bind, (wp_row_at KV it None n); [done|].
  intros o Hg Ho Htc. apply wp_bind, (wp_own_table e KV o None n); try done. intros t Eot Ht Hcode.
  destruct (db_row_id _ _ (i_db _ _ _ Hi) _ _ _ Ho) as [_ Hcost]. cbn [cost] in Hcost. pose proof billable_row_pos.
  assert (Hsz : 0 <= size buffer) by (unfold size; lia). assert (Hsz' : 0 <= size (o_data o)) by (unfold size; lia).
  rewrite (u64_small (size buffer + _)), (u64_small (size (o_data o) + _)), (i64_small (size buffer + _)),
    (i64_small (size (o_data o) + _)) by mach_lia.
  apply wp_bind, (wp_recharge e n); try done; try lia. intros c1 Hdb L.
  apply (wp_replace_row e KV o _ buffer n c1 c); try done; [|cbn [cost o_data]; lia|].
  - intros u Hu. congruence.
  - intros c' Hi' Hst' _ _ _ _. split; [|done]. eapply inv_le; [done | lia].
Qed.

Lemma call_idx_update e k it payer v n c : Inv n c -> wp (call e (IdxUpdate k it payer v)) c (done_well e n c).
Proof.
  intros Hi. cbn [call]. unfold idx_update. apply wp_bind, (wp_row_at (IDX k) it None n); [done|].
  intros o Hg Ho Htc. apply wp_bind, (wp_own_table e (IDX k) o None n); try done. intros t Eot Ht Hcode.
  pose proof (billable_index_pos k).
  pose proof (wp_recharge e n c (o_payer o) (if payer =? 0 then o_payer o else payer)
    (billable_index_object k) (billable_index_object k)) as Hr. rewrite Z.eqb_refl in Hr. cbn [negb] in Hr.
  apply wp_bind, Hr; try done; try lia. intros c1 Hdb L.
  apply (wp_replace_row e (IDX k) o _ v n c1 c); try done; [|cbn [cost o_data]; lia|].
  - intros u Hu. congruence.
  - intros c' Hi' Hst' _ _ _ _. split; [|done]. eapply inv_le; [done | lia].
Qed.

(** The refund of a removal. *)
Lemma wp_refund e n c (s : store_kind) (o : object (payload s)) d (Q : unit -> ctx -> Prop) : Inv n c ->
  _indices (stores c s) !! o_id o = Some o -> d = i64 (u64 (- cost s o)) ->
  (forall c', same_db c c' -> ledger e (fun a => - charge (o_payer o) (cost s o) a) c c' -> Q tt c') ->
  wp (update_db_usage e (o_payer o) d) c Q.
Proof.
  intros Hi Ho -> HQ. destruct (db_row_id _ _ (i_db _ _ _ Hi) _ _ _ Ho) as [_ Hcost]. pose proof (cost_pos s o).
  rewrite negative_charge by lia. apply wp_update_db_usage; [mach_lia | apply Hi|]. intros c' Hdb L.
  apply HQ; [done|]. eapply ledger_ext; [exact L|]. intros a. unfold charge. destruct (a =? _); lia.
Qed.

Lemma call_remove e it n c : Inv n c -> Z.of_nat n < 2 ^ 31 - 2 -> wp (call e (DbRemove it)) c (done_well e n c).
Proof.
  intros Hi Hn. cbn [call]. unfold db_remove_i64. apply wp_bind, (wp_row_at KV it None n); [done|].
  intros o Hg Ho Htc. apply wp_bind, (wp_own_table e KV o None n); try done. intros t Eot Ht Hcode.
  apply wp_bind, (wp_refund e n c KV o); try done. intros c1 Hdb L.
  apply (wp_erase_row e KV o t it n c1 c); try done; [lia|]. intros c' Hi' Hst' _ _ _ _ _. split; [|done].
  eapply inv_le; [done | lia].
Qed.

Lemma call_idx_remove e k it n c : Inv n c -> Z.of_nat n < 2 ^ 31 - 2 -> wp (call e (IdxRemove k it)) c (done_well e n c).
Proof.
  intros Hi Hn. cbn [call]. unfold idx_remove. apply wp_bind, (wp_row_at (IDX k) it None n); [done|].
  intros o Hg Ho Htc. apply wp_bind, (wp_refund e n c (IDX k) o); try done. intros c1 Hdb L.
  assert (Hi1 : Inv n c1) by (eapply inv_same_db; [exact Hi | done | apply L]). destruct Hdb as (HT & HS & HC) eqn:E.
  apply wp_bind, (wp_own_table e (IDX k) o None n); rewrite ?HS, ?HC, ?HT; try done. intros t Eot Ht Hcode.
  apply (wp_erase_row e (IDX k) o t it n c1 c); try done; [lia|]. intros c' Hi' Hst' _ _ _ _ _. split; [|done].
  eapply inv_le; [done | lia].
Qed.

Lemma found_row {X} id t (rows : gmap Z (object X)) o : key_find id t rows = Some o -> exists i, rows !! i = Some o.
Proof. unfold key_find. intros Hf. pose proof (find_value (fun o => (o_t_id o =? t) && (primary_key o =? id)) rows) as Hv. rewrite Hf in Hv. by destruct Hv. Qed.

Lemma sk_found_row k v t (rows : gmap Z (object sk)) o : sk_find k v t rows = Some o -> exists i, rows !! i = Some o.
Proof.
  unfold sk_find. destruct (sk_lower k v t rows) as [o'|] eqn:E; [|done]. destruct (_ && _); [|done].
  intros [= <-]. by eapply bound_row.
Qed.

Lemma search_well e s code scope table found n c : Inv n c -> Z.of_nat n < 2 ^ 31 - 2 ->
  (forall t rows o, found t rows = Some o -> exists id, rows !! id = Some o) ->
  wp (quiet (search s code scope table found)) c (done_well e n c).
Proof.
  intros Hi Hn Hf. apply wp_quiet, (wp_search s _ _ _ _ n); try done. intros r c' [Hrd _]. by apply (reads_step e).
Qed.

Lemma wp_end_of s code scope table n c (Q : Z -> ctx -> Prop) : Inv n c -> Z.of_nat n < 2 ^ 31 - 2 ->
  (forall it c', reads n c c' ->
     (it = -1 /\ forall id t, _indices (tables c) !! id = Some t ->
        (tab_code t, tab_scope t, tab_table t) <> (code, scope, table)) \/
     (exists t, _indices (tables c) !! tab_id t = Some t /\ tab_code t = code /\ tab_scope t = scope /\
        tab_table t = table /\ ends c' s it t) -> Q it c') ->
  wp (end_of s code scope table) c Q.
Proof.
  intros Hi Hn HQ. unfold end_of. apply wp_bind, wp_find_table; [apply Hi| |].
  2:{ intros Hnone. apply wp_ret, HQ; [by apply reads_refl | by left]. }
  intros t Ht Hc Hs Htb. apply (wp_cache_table s t n); [apply Hi | apply Hi | done | |].
  { apply (wf_bound _ _ (db_tables _ _ (i_db _ _ _ Hi))). by exists t. }
  intros ei k c1 Hc1 Hin Hit. apply HQ; [by eapply cached_reads|]. right. exists t. split_and!; try done.
  split; [by rewrite (ca_here _ _ _ _ _ Hc1) | by rewrite (ca_tables _ _ _ _ _ Hc1)].
Qed.

Lemma wp_peek {A} s it (f : object (payload s) -> A) n c e : Inv n c ->
  wp (quiet (obj ← row_at s it; mret (f obj))) c (done_well e n c).
Proof.
  intros Hi. apply wp_quiet, wp_bind, (wp_row_at s it None n); [done|]. intros o _ _ _.
  apply wp_ret, (reads_step e), reads_refl, Hi.
Qed.

Lemma call_get e it buffer_size n c : Inv n c -> wp (call e (DbGet it buffer_size)) c (done_well e n c).
Proof.
  intros Hi. apply wp_quiet. unfold db_get_i64. apply wp_bind, (wp_row_at KV it None n); [done|]. intros o _ _ _.
  destruct (buffer_size =? 0); apply wp_ret, (reads_step e), reads_refl, Hi.
Qed.

Lemma call_well e o n c : Inv n c -> Z.of_nat n < 2 ^ 31 - 2 -> call_ok o -> ~ goes_stale c o ->
  wp (call e o) c (done_well e n c).
Proof.
  intros Hi Hn Hok Hst. destruct o; cbn [call_ok goes_stale] in Hok, Hst.
  - by apply call_store.
  - by apply call_update.
  - by apply call_remove.
  - by apply call_idx_store.
  - by apply call_idx_update.
  - by apply call_idx_remove.
  - apply search_well; [done | done|]. intros t rows o. apply found_row.
  - apply search_well; [done | done|]. intros t rows o. apply bound_row.
  - apply search_well; [done | done|]. intros t rows o. apply bound_row.
  - apply wp_quiet, (wp_end_of _ _ _ _ n); [done | done|]. intros it c' Hrd _. by apply (reads_step e).
  - apply wp_quiet, (wp_next_in _ _ _ n); [done | done|]. intros r c' [Hrd _]. by apply (reads_step e).
  - apply wp_quiet, (wp_previous_in _ _ _ n); [done | done | done | done|]. intros r c' [Hrd _]. by apply (reads_step e).
  - by apply call_get.
  - apply search_well; [done | done|]. intros t rows o. apply sk_found_row.
  - apply search_well; [done | done|]. intros t rows o. apply bound_row.
  - apply search_well; [done | done|]. intros t rows o. apply bound_row.
  - apply wp_quiet, (wp_next_in _ _ _ n); [done | done|]. intros r c' [Hrd _]. by apply (reads_step e).
  - apply wp_quiet, (wp_previous_in _ _ _ n); [done | done | done | done|]. intros r c' [Hrd _]. by apply (reads_step e).
  - by apply (wp_peek (IDX k)).
Qed.

Lemma previous_stale s less it c : stale c s it -> previous_in s less it c = Err dangling.
Proof.
  intros (p & Hf & Hp). unfold previous_in.
  assert (Hlt : (it <? -1) = true) by (unfold find_table_by_end_iterator in Hf; by destruct (it <? -1)).
  rewrite Hlt. unfold mbind, act_bind, from_cache. rewrite Hf. cbn [mbind result_bind lift of_option].
  unfold deref_table, find. by rewrite Hp.
Qed.

Lemma stale_dangles e o c : goes_stale c o -> call e o c = Err dangling.
Proof.
  destruct o; cbn [goes_stale call]; try done; intros Hst; unfold quiet, mbind, act_bind.
  - unfold previous_primary. by rewrite previous_stale.
  - unfold previous_secondary. by rewrite previous_stale.
Qed.

(** A stale end iterator is decidable. *)
Lemma goes_stale_dec c o : goes_stale c o \/ ~ goes_stale c o.
Proof.
  assert (Hs : forall s it, stale c s it \/ ~ stale c s it).
  { intros s it. unfold stale. destruct (find_table_by_end_iterator it (caches c s)) as [[p|]|] eqn:E;
      [|right; intros (p & [= ] & _)..].
    destruct (_indices (tables c) !! p) as [t|] eqn:Ep; [right | left; by exists p].
    intros (q & [= <-] & Hq). congruence. }
  destruct o; cbn [goes_stale]; auto.
Qed.

Lemma calls_inv e ops n c : Inv n c -> Forall call_ok ops -> Z.of_nat (n + length ops) < 2 ^ 31 - 2 ->
  match calls e ops c with
  | Ok (_, c') => Inv (n + length ops) c' /\ step e c c'
  | Err err => ub err -> exists ops1 o ops2 c1,
      ops = ops1 ++ o :: ops2 /\ calls e ops1 c = Ok (tt, c1) /\ goes_stale c1 o
  end.
Proof.
  revert n c. induction ops as [|o ops IH]; intros n c Hi Hok Hn.
  - cbn [calls length]. rewrite Nat.add_0_r. split; [done | by apply step_same].
  - apply Forall_cons in Hok as [Ho Hok]. cbn [length] in Hn. cbn [calls]. unfold mbind, act_bind.
    destruct (goes_stale_dec c o) as [Hst|Hst].
    { rewrite (stale_dangles e o c Hst). cbn [mbind result_bind]. intros _. by exists [], o, ops, c. }
    pose proof (call_well e o n c Hi ltac:(lia) Ho Hst) as Hw. unfold wp, done_well in Hw.
    destruct (call e o c) as [[[] c1]|err] eqn:E1; cbn [mbind result_bind]; [|done]. destruct Hw as [Hi1 Hs1].
    specialize (IH (S n) c1 Hi1 Hok ltac:(lia)). destruct (calls e ops c1) as [[[] c2]|err].
    + destruct IH as [Hi2 Hs2]. split; [|by eapply step_trans]. cbn [length]. by rewrite Nat.add_succ_r.
    + intros Hub. destruct (IH Hub) as (ops1 & o1 & ops2 & c2 & -> & Hc & Hg). exists (o :: ops1), o1, ops2, c2.
      split_and!; [done | | done]. cbn [calls]. unfold mbind, act_bind. rewrite E1. cbn [mbind result_bind]. done.
Qed.

(** ** Theorems *)

(** Whatever a contract calls, rows hang from existing tables, tables count
    their rows and are not empty, iterators point to rows that exist and end
    iterators to their tables; and the node neither aborts nor follows a
    dangling pointer, unless the contract moves back from the end iterator of
    a table that is gone.  The bound is the range of 32-bit iterators. (C14) *)
Theorem contract_tables_consistent e ops n c : Inv n c -> Forall call_ok ops -> Z.of_nat (n + length ops) < 2 ^ 31 - 2 ->
  match calls e ops c with
  | Ok (_, c') => Inv (n + length ops) c'
  | Err err => ub err -> exists ops1 o ops2 c1,
      ops = ops1 ++ o :: ops2 /\ calls e ops1 c = Ok (tt, c1) /\ goes_stale c1 o
  end.
Proof.
  intros Hi Hok Hn. pose proof (calls_inv e ops n c Hi Hok Hn) as Hc.
  destruct (calls e ops c) as [[[] c']|err]; [apply Hc | done].
Qed.

(** The RAM an account is charged is exactly what the rows and tables it pays
    for take: what it uses besides them does not change, whoever pays when
    rows are created, replaced, handed to another payer and removed. (C15) *)
Theorem ram_billed_exactly e ops n c c' a : Inv n c -> Forall call_ok ops -> Z.of_nat (n + length ops) < 2 ^ 31 - 2 ->
  calls e ops c = Ok (tt, c') ->
  ram c' a - billed (tables c') (stores c') a = ram c a - billed (tables c) (stores c) a.
Proof.
  intros Hi Hok Hn Hrun. pose proof (calls_inv e ops n c Hi Hok Hn) as Hc. rewrite Hrun in Hc.
  destruct Hc as [_ [L _]]. rewrite (l_ram _ _ _ _ L). lia.
Qed.

(** A contract reads the tables of others but cannot change them. (C34) *)
Theorem foreign_tables_untouched e ops n c c' : Inv n c -> Forall call_ok ops -> Z.of_nat (n + length ops) < 2 ^ 31 - 2 ->
  calls e ops c = Ok (tt, c') -> isolated e (tables c) (stores c) (tables c') (stores c').
Proof.
  intros Hi Hok Hn Hrun. pose proof (calls_inv e ops n c Hi Hok Hn) as Hc. rewrite Hrun in Hc. apply Hc.
Qed.

(** What [exec_one] runs: the contract and the check of what it charged. *)
Definition apply_contract e (ops : list db_call) : act unit := calls e ops ≫= fun _ => check_ram_deltas e.

Lemma mfold_unit {A} (f : unit -> A -> result unit) l : mfold f l tt = Ok tt -> forall x, x ∈ l -> f tt x = Ok tt.
Proof.
  induction l as [|y l IH]; simpl; intros Hf x Hx; [by apply not_elem_of_nil in Hx|].
  ok_bind Hf as [] Hy. apply elem_of_cons in Hx as [->|Hx]; eauto.
Qed.

Lemma check_ram_deltas_ok e c c' a : check_ram_deltas e c = Ok (tt, c') -> c' = c /\
  (privileged e = false -> ram_restrictions e = true -> delta c a > 0 -> a <> receiver e ->
   receiver e = act_account e /\ has_authorization e a = true).
Proof.
  unfold check_ram_deltas. intros Hc. ok_bind Hc as [] Hf. ok_inv. injection Hc as <-. split; [done|].
  intros Hp Hr Hd Ha. rewrite Hp, Hr in Hf. cbn [negb andb] in Hf. unfold delta in Hd.
  destruct (_account_ram_deltas c !! a) as [d|] eqn:Ed; [|cbn in Hd; lia]. cbn in Hd.
  pose proof (mfold_unit _ _ Hf (a, d)) as Hx. rewrite ChainbaseSpec.ascending_elem in Hx. specialize (Hx Ed).
  cbn [fst snd] in Hx. assert (E1 : (d >? 0) = true) by lia. assert (E2 : (a =? receiver e) = false) by lia.
  rewrite E1, E2 in Hx. cbn [negb andb] in Hx. ok_bind Hx as [] H1. ok_inv. done.
Qed.

(** An unprivileged contract can raise the RAM usage of another account only
    if that account authorized the action: where RAM restrictions are active,
    never while it is merely notified; and after the check at the end of the
    transaction the account is within its RAM limit. *)
Theorem ram_needs_consent e ops n c c' c'' a : Inv n c -> Forall call_ok ops -> Z.of_nat (n + length ops) < 2 ^ 31 - 2 ->
  _account_ram_deltas c = ∅ -> privileged e = false ->
  apply_contract e ops c = Ok (tt, c') -> verify_ram_usage c' = Ok (tt, c'') ->
  ram c a < ram c' a < 2 ^ 63 ->
  (a = receiver e \/
   (has_authorization e a = true /\
    (receiver e = act_account e \/ (ram_restrictions e = false /\ ram_billing_in_notify_allowed e = true)))) /\
  forall limit net cpu, get_account_limits (resources c') a = Ok (limit, net, cpu) ->
    0 <= limit < 2 ^ 63 -> ram c' a <= limit.
Proof.
  intros Hi Hok Hn Hd Hp Hrun Hver Hram. unfold apply_contract, mbind, act_bind in Hrun.
  ok_bind Hrun as [[] c1] Hcalls. pose proof (calls_inv e ops n c Hi Hok Hn) as Hc. rewrite Hcalls in Hc.
  destruct Hc as [_ [L _]]. destruct (check_ram_deltas_ok e c1 c' a Hrun) as [-> Hcheck].
  pose proof (l_ram _ _ _ _ L a) as Er. set (D := billed (tables c1) (stores c1) a - billed (tables c) (stores c) a) in *.
  destruct (l_consent _ _ _ _ L a) as [Hmay Hval]; [cbn beta; fold D; lia|].
  assert (Hnn : 0 <= ram c a).
  { unfold ram. destruct (usages (resources c) !! a) as [u|] eqn:Eu; [|done]. simpl. apply (i_ram _ _ _ Hi a u Eu). }
  split.
  - destruct (decide (a = receiver e)) as [|Hne]; [by left | right].
    destruct (ram_restrictions e) eqn:Err.
    + destruct Hcheck as [H1 H2]; try done; [|by split; [|left]].
      assert (Hdl : delta c1 a = D); [|lia].
      assert (Hz : forall b, delta c b = 0) by (intros b; unfold delta; by rewrite Hd).
      rewrite <- (i64_small (delta c1 a)).
      * rewrite (l_delta _ _ _ _ L), Hz. fold D. rewrite i64_small; [lia|]. unfold is_i64. lia.
      * apply (l_delta_range _ _ _ _ L). intros b. rewrite Hz. unfold is_i64. lia.
    + unfold may_charge in Hmay. rewrite Hp, Err in Hmay. intuition (congruence || auto).
  - intros limit net cpu Hlim Hpos. unfold verify_ram_usage in Hver. ok_bind Hver as [] Hv.
    pose proof (mfold_unit _ _ Hv a) as Ha. rewrite ascending_ids_elem in Ha. specialize (Ha Hval).
    unfold verify_account_ram_usage in Ha. rewrite Hlim in Ha. cbn [mbind result_bind] in Ha. ok_bind Ha as u Hu.
    assert (E : (limit >=? 0) = true) by lia. rewrite E in Ha. ok_inv.
    unfold get_usage in Hu. apply (proj1 (of_option_ok _ _ _)) in Hu. unfold ram. rewrite Hu. simpl.
    rewrite u64_small in Ha by mach_lia. done.
Qed.
End Runs.
