(* ===== verification/ContractMap.v ===== *)
(** * Contract tables are ordered maps

    The rows with a value, seen from outside: a map from the names of a table
    to a map from primary keys to payer and value, in which iterators are
    cursors.  Searching and walking is searching and walking an ordered map;
    storing, updating and removing is inserting and deleting. *)

From stdpp Require Import base numbers list gmap strings sorting.
From Stdlib Require Import ZArith Lia.
From S2P Require Import Prelude Accumulator ResourceLimits ResourceLimitsSpec Authority Chainbase ChainbaseSpec ContractTables ContractTablesSpec ApplyContext.
From S2P Require Import ApplyContextSpec ApplyContextSteps ContractRuns.
Local Open Scope Z_scope.

(** ** Ordered maps *)

Abbreviation table_name := (Z * Z * Z)%type.
Abbreviation content := (gmap Z (Z * list Z)).
Abbreviation store := (gmap table_name content).

Definition keys_of (m : content) : list Z := merge_sort Z.le (map_to_list m).*1.
Definition least (p : Z -> bool) (m : content) : option Z := head (filter (fun id => p id = true) (keys_of m)).
Definition greatest (p : Z -> bool) (m : content) : option Z := last (filter (fun id => p id = true) (keys_of m)).

Inductive cursor := NoTable | AtEnd (k : table_name) | At (k : table_name) (id : Z).

Definition seek (p : Z -> bool) (k : table_name) (a : store) : cursor :=
  match a !! k with
  | None => NoTable
  | Some m => match least p m with Some id => At k id | None => AtEnd k end
  end.

Inductive kv_read :=
| Find (k : table_name) (id : Z) | LowerBound (k : table_name) (id : Z) | UpperBound (k : table_name) (id : Z)
| End_ (k : table_name) | Next (it : Z) | Previous (it : Z).

(** The reads on ordered maps; [at_] is the cursor of the iterator given. *)
Definition spec_read (r : kv_read) (at_ : cursor) (a : store) : cursor :=
  match r with
  | Find k id => seek (Z.eqb id) k a
  | LowerBound k id => seek (Z.leb id) k a
  | UpperBound k id => seek (Z.ltb id) k a
  | End_ k => match a !! k with None => NoTable | Some _ => AtEnd k end
  | Next _ => match at_ with At k id => seek (Z.ltb id) k a | _ => NoTable end
  | Previous _ =>
    let back p k := match a !! k with
                    | Some m => match greatest p m with Some id => At k id | None => NoTable end
                    | None => NoTable
                    end in
    match at_ with
    | At k id => back (fun id' => id' <? id) k
    | AtEnd k => back (fun _ => true) k
    | NoTable => NoTable
    end
  end.

Section Keys.
Implicit Types (m : content) (p : Z -> bool).

Lemma keys_of_elem m id : id ∈ keys_of m <-> is_Some (m !! id).
Proof.
  unfold keys_of. rewrite merge_sort_Permutation, list_elem_of_fmap. split.
  - intros ([i v] & -> & Hv). apply elem_of_map_to_list in Hv. by exists v.
  - intros [v Hv]. exists (id, v). split; [done|]. by apply elem_of_map_to_list.
Qed.

Lemma keys_of_sorted m p : StronglySorted Z.le (filter (fun id => p id = true) (keys_of m)).
Proof.
  assert (Hs : StronglySorted Z.le (keys_of m)) by (apply (StronglySorted_merge_sort Z.le)).
  induction Hs as [|x l Hs IH Hx]; [constructor|]. rewrite filter_cons. case_decide; [|done].
  constructor; [done|]. rewrite Forall_forall in *. intros y [_ Hy]%list_elem_of_filter. by apply Hx.
Qed.

Lemma least_some m p id : is_Some (m !! id) -> p id = true ->
  (forall id', is_Some (m !! id') -> p id' = true -> id <= id') -> least p m = Some id.
Proof.
  intros Hid Hp Hmin. unfold least. pose proof (keys_of_sorted m p) as Hs.
  assert (Hin : id ∈ filter (fun id => p id = true) (keys_of m)) by (apply list_elem_of_filter; by rewrite keys_of_elem).
  destruct (filter _ _) as [|x l] eqn:E; [by apply not_elem_of_nil in Hin|]. simpl. f_equal.
  assert (Hx : x ∈ filter (fun id => p id = true) (keys_of m)) by (rewrite E; by left).
  apply list_elem_of_filter in Hx as [Hpx Hx]. rewrite keys_of_elem in Hx. specialize (Hmin x Hx Hpx).
  inversion Hs as [|? ? _ Hall]; subst. apply elem_of_cons in Hin as [->|Hin]; [done|].
  rewrite Forall_forall in Hall. specialize (Hall _ Hin). lia.
Qed.

Lemma least_none m p : (forall id', is_Some (m !! id') -> p id' = false) -> least p m = None.
Proof.
  intros Hno. unfold least. destruct (filter _ _) as [|x l] eqn:E; [done|].
  assert (Hx : x ∈ filter (fun id => p id = true) (keys_of m)) by (rewrite E; by left).
  apply list_elem_of_filter in Hx as [Hpx Hx]. rewrite keys_of_elem in Hx. rewrite Hno in Hpx; done.
Qed.

Lemma greatest_some m p id : is_Some (m !! id) -> p id = true ->
  (forall id', is_Some (m !! id') -> p id' = true -> id' <= id) -> greatest p m = Some id.
Proof.
  intros Hid Hp Hmax. unfold greatest. pose proof (keys_of_sorted m p) as Hs.
  assert (Hin : id ∈ filter (fun id => p id = true) (keys_of m)) by (apply list_elem_of_filter; by rewrite keys_of_elem).
  destruct (last _) as [x|] eqn:E; [|apply last_None in E; rewrite E in Hin; by apply not_elem_of_nil in Hin].
  f_equal. pose proof (last_Some_elem_of _ _ E) as Hx. apply list_elem_of_filter in Hx as [Hpx Hx].
  rewrite keys_of_elem in Hx. specialize (Hmax x Hx Hpx).
  enough (id <= x) by lia. clear -Hs E Hin. induction Hs as [|y l Hs IH Hall]; [done|].
  destruct l as [|z l]; [injection E as <-; by apply list_elem_of_singleton in Hin as ->|].
  rewrite last_cons_cons in E. apply elem_of_cons in Hin as [->|Hin]; [|by apply IH].
  rewrite Forall_forall in Hall. apply Hall. by apply last_Some_elem_of.
Qed.

Lemma greatest_none m p : (forall id', is_Some (m !! id') -> p id' = false) -> greatest p m = None.
Proof.
  intros Hno. unfold greatest. destruct (last _) as [x|] eqn:E; [|done].
  pose proof (last_Some_elem_of _ _ E) as Hx. apply list_elem_of_filter in Hx as [Hpx Hx].
  rewrite keys_of_elem in Hx. rewrite Hno in Hpx; done.
Qed.
End Keys.

Section Map.
Context {sk : Type} `{SecondaryKeys sk}.
#[local] Abbreviation ctx := (apply_context (sk := sk)).
#[local] Abbreviation act := (act (sk := sk)).
#[local] Abbreviation payload := (payload (sk := sk)).
#[local] Abbreviation row := (object (payload KV)).
Implicit Types (c : ctx) (e : act_env) (n : nat) (a : store).

(** ** The map a context stands for *)

Definition tkey (t : table_id_object) : table_name := (tab_code t, tab_scope t, tab_table t).
Definition kv_rows c : gmap Z row := _indices (stores c KV).

Definition rows_map c (t : Z) : content :=
  list_to_map ((fun p => (primary_key p.2, (o_payer p.2, o_data p.2))) <$>
    filter (fun p : Z * row => o_t_id p.2 = t) (map_to_list (kv_rows c))).
Definition contents c : store :=
  list_to_map ((fun p => (tkey p.2, rows_map c (tab_id p.2))) <$> map_to_list (_indices (tables c))).

(** What an iterator stands for. *)
Definition denotes c (it : Z) (cur : cursor) : Prop :=
  match cur with
  | NoTable => it = -1
  | AtEnd k => exists t, tkey t = k /\ ends c KV it t
  | At k id => exists t (o : row), tkey t = k /\ _indices (tables c) !! tab_id t = Some t /\
      points c KV it o /\ o_t_id o = tab_id t /\ primary_key o = id
  end.

Lemma table_unique n c i j t u : Inv n c -> _indices (tables c) !! i = Some t -> _indices (tables c) !! j = Some u ->
  tkey t = tkey u -> i = j.
Proof.
  intros Hi Ht Hu Hk. destruct (decide (i = j)) as [|Hne]; [done|].
  pose proof (wf_unique _ (db_tables _ _ (i_db _ _ _ Hi)) i j t u Hne Ht Hu) as Hc.
  unfold conflict, tkey in *. simpl in Hc. rewrite Hk in Hc. by rewrite bool_decide_eq_true_2 in Hc.
Qed.

Lemma row_unique n c i j o u : Inv n c -> kv_rows c !! i = Some o -> kv_rows c !! j = Some u ->
  o_t_id o = o_t_id u -> primary_key o = primary_key u -> i = j.
Proof.
  intros Hi Ho Hu Ht Hp. destruct (decide (i = j)) as [|Hne]; [done|].
  pose proof (wf_unique _ (db_stores _ _ (i_db _ _ _ Hi) KV) i j o u Hne Ho Hu) as Hc.
  assert (Hk : ukeys o = ukeys u) by (cbn [ukeys object_keys]; by rewrite Ht, Hp).
  unfold conflict in Hc. rewrite Hk in Hc. simpl in Hc. by rewrite bool_decide_eq_true_2 in Hc.
Qed.

Lemma rows_map_lookup n c t id v : Inv n c -> rows_map c t !! id = Some v <->
  exists i (o : row), kv_rows c !! i = Some o /\ o_t_id o = t /\ primary_key o = id /\ v = (o_payer o, o_data o).
Proof.
  intros Hi. unfold rows_map. rewrite <- elem_of_list_to_map.
  - rewrite list_elem_of_fmap. split.
    + intros ([i o] & [= -> ->] & [Ht Hin]%list_elem_of_filter). apply elem_of_map_to_list in Hin. by exists i, o.
    + intros (i & o & Ho & Ht & <- & ->). exists (i, o). split; [done|]. apply list_elem_of_filter.
      split; [done|]. by apply elem_of_map_to_list.
  - rewrite <- list_fmap_compose. apply NoDup_fmap_2_strong; [|apply NoDup_filter, NoDup_map_to_list].
    intros [i o] [j u] [Ht Ho]%list_elem_of_filter [Hu Hu']%list_elem_of_filter Heq.
    cbn [fst snd compose] in Ht, Hu, Heq. apply elem_of_map_to_list in Ho, Hu'.
    assert (i = j) as -> by (eapply (row_unique n c i j o u); [done.. | by rewrite Ht, Hu | done]). congruence.
Qed.

Lemma contents_some n c t : Inv n c -> _indices (tables c) !! tab_id t = Some t ->
  contents c !! tkey t = Some (rows_map c (tab_id t)).
Proof.
  intros Hi Ht. unfold contents. apply elem_of_list_to_map.
  - rewrite <- list_fmap_compose. apply NoDup_fmap_2_strong; [|apply NoDup_map_to_list].
    intros [i u] [j w] Hu Hw Heq. simpl in *. apply elem_of_map_to_list in Hu, Hw.
    assert (i = j) as -> by (by eapply (table_unique n c i j u w)). congruence.
  - apply list_elem_of_fmap. exists (tab_id t, t). split; [done|]. by apply elem_of_map_to_list.
Qed.

Lemma contents_none c k : (forall id t, _indices (tables c) !! id = Some t -> tkey t <> k) -> contents c !! k = None.
Proof.
  intros Hno. unfold contents. apply not_elem_of_list_to_map_1. rewrite <- list_fmap_compose.
  intros ([id t] & -> & Ht)%list_elem_of_fmap. apply elem_of_map_to_list in Ht. by apply (Hno id t).
Qed.

Lemma contents_inv n c k m : Inv n c -> contents c !! k = Some m ->
  exists t, _indices (tables c) !! tab_id t = Some t /\ tkey t = k /\ m = rows_map c (tab_id t).
Proof.
  intros Hi Hk. unfold contents in Hk. apply elem_of_list_to_map_2, list_elem_of_fmap in Hk as ([id t] & [= -> ->] & Ht).
  apply elem_of_map_to_list in Ht. exists t. by rewrite (db_tab_id _ _ (i_db _ _ _ Hi) _ _ Ht).
Qed.

(** Reading leaves the map alone and cursors in place. *)
Lemma reads_contents n c c' : reads n c c' -> contents c' = contents c.
Proof. intros [_ HT HS _ _]. unfold contents, rows_map, kv_rows. by rewrite HT, HS. Qed.

Lemma grows_denotes c c' it cur : tables c' = tables c -> stores c' = stores c -> grows c c' ->
  denotes c it cur -> denotes c' it cur.
Proof.
  intros HT HS Hg. destruct (Hg KV) as [Hpre Hsub]. destruct cur as [|k|k id]; cbn [denotes]; [done| |].
  - intros (t & Hk & He & Ht). exists t. split; [done|]. split; [by eapply lookup_weaken | by rewrite HT].
  - intros (t & o & Hk & Ht & (Hit & Hin & Ho) & Hot & Hp). exists t, o. rewrite HT. split_and!; try done.
    unfold points. rewrite HS. split_and!; [done | by eapply prefix_lookup_Some | done].
Qed.

(** ** Positions *)

(** The row at a bound, within the table [t]: the one with the least key that
    satisfies [p]. *)
Lemma bound_least n c (t : Z) (p : Z -> bool) below : Inv n c ->
  (forall o : row, below o = false <-> o_t_id o > t \/ (o_t_id o = t /\ p (primary_key o) = true)) ->
  match bound primary_less below (kv_rows c) with
  | Some o => if o_t_id o =? t then least p (rows_map c t) = Some (primary_key o) else least p (rows_map c t) = None
  | None => least p (rows_map c t) = None
  end.
Proof.
  intros Hi Hb. destruct (primary_less_laws (X := payload KV)) as (L1 & L2 & L3).
  assert (Hdom : forall id, is_Some (rows_map c t !! id) -> exists i o, kv_rows c !! i = Some o /\ o_t_id o = t /\ primary_key o = id).
  { intros id [v Hv]. apply (rows_map_lookup n) in Hv as (i & o & ? & ? & ? & _); [by exists i, o | done]. }
  destruct (bound primary_less below (kv_rows c)) as [o|] eqn:E.
  - apply (bound_some _ L1 L2 L3) in E as ([i Ho] & Hbo & Hmin). apply Hb in Hbo.
    destruct (Z.eqb_spec (o_t_id o) t) as [Eo|Ne].
    + apply least_some.
      * exists (o_payer o, o_data o). apply (rows_map_lookup n); [done|]. by exists i, o.
      * destruct Hbo as [?|[_ ?]]; [lia | done].
      * intros id' Hid' Hp'. destruct (Hdom id' Hid') as (j & u & Hu & Hut & <-).
        specialize (Hmin j u Hu (proj2 (Hb u) (or_intror (conj Hut Hp')))). apply not_true_iff_false in Hmin.
        rewrite primary_less_lt in Hmin. lia.
    + apply least_none. intros id' Hid'. destruct (Hdom id' Hid') as (j & u & Hu & Hut & <-).
      destruct (p (primary_key u)) eqn:Hp'; [|done].
      specialize (Hmin j u Hu (proj2 (Hb u) (or_intror (conj Hut Hp')))). apply not_true_iff_false in Hmin.
      rewrite primary_less_lt in Hmin. lia.
  - apply least_none. intros id' Hid'. destruct (Hdom id' Hid') as (j & u & Hu & Hut & <-).
    destruct (p (primary_key u)) eqn:Hp'; [|done].
    pose proof (bound_none _ below _ E j u Hu) as Hbu. rewrite (proj2 (Hb u)) in Hbu; [done | by right].
Qed.

Lemma before_greatest n c (t : Z) (p : Z -> bool) below : Inv n c ->
  (forall o : row, below o = true <-> o_t_id o < t \/ (o_t_id o = t /\ p (primary_key o) = true)) ->
  match before primary_less below (kv_rows c) with
  | Some o => if o_t_id o =? t then greatest p (rows_map c t) = Some (primary_key o) else greatest p (rows_map c t) = None
  | None => greatest p (rows_map c t) = None
  end.
Proof.
  intros Hi Hb. destruct (primary_less_laws (X := payload KV)) as (L1 & L2 & L3).
  assert (Hdom : forall id, is_Some (rows_map c t !! id) -> exists i o, kv_rows c !! i = Some o /\ o_t_id o = t /\ primary_key o = id).
  { intros id [v Hv]. apply (rows_map_lookup n) in Hv as (i & o & ? & ? & ? & _); [by exists i, o | done]. }
  destruct (before primary_less below (kv_rows c)) as [o|] eqn:E.
  - apply (before_some _ L1 L2 L3) in E as ([i Ho] & Hbo & Hmax). apply Hb in Hbo.
    destruct (Z.eqb_spec (o_t_id o) t) as [Eo|Ne].
    + apply greatest_some.
      * exists (o_payer o, o_data o). apply (rows_map_lookup n); [done|]. by exists i, o.
      * destruct Hbo as [?|[_ ?]]; [lia | done].
      * intros id' Hid' Hp'. destruct (Hdom id' Hid') as (j & u & Hu & Hut & <-).
        specialize (Hmax j u Hu (proj2 (Hb u) (or_intror (conj Hut Hp')))). apply not_true_iff_false in Hmax.
        rewrite primary_less_lt in Hmax. lia.
    + apply greatest_none. intros id' Hid'. destruct (Hdom id' Hid') as (j & u & Hu & Hut & <-).
      destruct (p (primary_key u)) eqn:Hp'; [|done].
      specialize (Hmax j u Hu (proj2 (Hb u) (or_intror (conj Hut Hp')))). apply not_true_iff_false in Hmax.
      rewrite primary_less_lt in Hmax. lia.
  - apply greatest_none. intros id' Hid'. destruct (Hdom id' Hid') as (j & u & Hu & Hut & <-).
    destruct (p (primary_key u)) eqn:Hp'; [|done].
    pose proof (before_none _ below _ E j u Hu) as Hbu. rewrite (proj2 (Hb u)) in Hbu; [done | by right].
Qed.

Lemma found_least n c t id : Inv n c ->
  match key_find id t (kv_rows c) with
  | Some o => o_t_id o = t /\ least (Z.eqb id) (rows_map c t) = Some (primary_key o)
  | None => least (Z.eqb id) (rows_map c t) = None
  end.
Proof.
  intros Hi. unfold key_find.
  pose proof (find_value (fun o : row => (o_t_id o =? t) && (primary_key o =? id)) (kv_rows c)) as Hf.
  destruct (List.find _ _) as [o|].
  - destruct Hf as (Hp & i & Ho). apply andb_true_iff in Hp as [?%Z.eqb_eq Hk%Z.eqb_eq]. split; [done|]. apply least_some.
    + exists (o_payer o, o_data o). apply (rows_map_lookup n); [done|]. by exists i, o.
    + lia.
    + intros id' _ Hp'. lia.
  - apply least_none. intros id' [v Hv]. apply (rows_map_lookup n) in Hv as (i & o & Ho & Ht & Hp & _); [|done].
    specialize (Hf i o Ho). rewrite Ht, Hp, Z.eqb_refl in Hf. simpl in Hf. lia.
Qed.

(** ** Reads *)

Definition do_read (r : kv_read) : act Z :=
  match r with
  | Find (code, scope, table) id => x ← db_find_i64 code scope table id; mret x.1
  | LowerBound (code, scope, table) id => x ← db_lowerbound_i64 code scope table id; mret x.1
  | UpperBound (code, scope, table) id => x ← db_upperbound_i64 code scope table id; mret x.1
  | End_ (code, scope, table) => db_end_i64 code scope table
  | Next it => x ← db_next_i64 it; mret x.1
  | Previous it => x ← db_previous_i64 it; mret x.1
  end.

(** The agreement of a search with the least key that satisfies [p]. *)
Definition agrees c (p : Z -> bool) (found : Z -> gmap Z row -> option row) : Prop :=
  forall t, match found t (kv_rows c) with
            | Some o => if o_t_id o =? t then least p (rows_map c t) = Some (primary_key o)
                        else least p (rows_map c t) = None
            | None => least p (rows_map c t) = None
            end.

Lemma agrees_find n c id : Inv n c -> agrees c (Z.eqb id) (key_find id).
Proof.
  intros Hi t. pose proof (found_least n c t id Hi) as Hf. destruct (key_find id t (kv_rows c)) as [o|]; [|done].
  destruct Hf as [-> Hl]. by rewrite Z.eqb_refl.
Qed.

Lemma agrees_lower n c id : Inv n c -> agrees c (Z.leb id) (key_lower id).
Proof.
  intros Hi t. apply (bound_least n c t (Z.leb id)); [done|]. intros o.
  rewrite orb_false_iff, andb_false_iff, !Z.ltb_ge, Z.eqb_neq, Z.leb_le. lia.
Qed.

Lemma agrees_upper n c id : Inv n c -> agrees c (Z.ltb id) (key_upper id).
Proof.
  intros Hi t. apply (bound_least n c t (Z.ltb id)); [done|]. intros o.
  rewrite orb_false_iff, andb_false_iff, Z.ltb_ge, Z.eqb_neq, Z.leb_gt, Z.ltb_lt. lia.
Qed.

Lemma points_denotes n c c' it t o : Inv n c -> reads n c c' -> points c' KV it o -> o_t_id o = tab_id t ->
  _indices (tables c) !! tab_id t = Some t -> denotes c' it (At (tkey t) (primary_key o)).
Proof. intros Hi Hrd Hp Hot Ht. exists t, o. by rewrite (rd_tables _ _ _ Hrd). Qed.

Lemma search_denotes n c p code scope table found r c' : Inv n c -> agrees c p found ->
  lookup_result n c KV code scope table found r c' -> denotes c' r.1 (seek p (code, scope, table) (contents c)).
Proof.
  intros Hi Ha [Hrd [[-> Hno]|(t & Ht & <- & <- & <- & Hm)]].
  - unfold seek. rewrite contents_none; [done|]. intros id t Ht. by apply (Hno id).
  - change (tab_code t, tab_scope t, tab_table t) with (tkey t). unfold seek. rewrite (contents_some n) by done.
    specialize (Ha (tab_id t)). unfold kv_rows in Ha.
    destruct (found (tab_id t) (_indices (stores c KV))) as [o|]; [|rewrite Ha; exists t; by destruct Hm].
    destruct (Z.eqb_spec (o_t_id o) (tab_id t)) as [Eo|Ne]; rewrite Ha; [|exists t; by destruct Hm].
    by eapply points_denotes; [..|apply Hm | |].
Qed.

(** Every search returns. *)
Lemma search_returns s code scope table found c : exists r c', search (sk := sk) s code scope table found c = Ok (r, c').
Proof.
  unfold search, mbind, act_bind, find_table. cbn [mbind result_bind].
  destruct (List.find _ _) as [t|]; [|by eexists _, _]. unfold on_cache, read. cbn [mbind result_bind].
  destruct (cache_table t (caches c s)) as [ei k]. cbn [mbind result_bind]. unfold iterator_for.
  destruct (found _ _) as [o|]; [|by eexists _, _]. destruct (negb _); [by eexists _, _|].
  unfold mbind, act_bind, on_cache. cbn [mbind result_bind]. destruct (cache_add _ _) as [i k']. cbn [mbind result_bind]. by eexists _, _.
Qed.

Definition refined n c (m : act Z) (cur : cursor) : Prop :=
  exists it c', m c = Ok (it, c') /\ denotes c' it cur /\ reads n c c'.

Lemma search_refined n c p code scope table found : Inv n c -> Z.of_nat n < 2 ^ 31 - 2 -> agrees c p found ->
  (forall t rows o, found t rows = Some o -> exists id, rows !! id = Some o) ->
  refined n c (x ← search KV code scope table found; mret x.1) (seek p (code, scope, table) (contents c)).
Proof.
  intros Hi Hn Ha Hf. pose proof (wp_search KV code scope table found n c _ Hi Hn Hf (fun r c' Hr => Hr)) as Hw.
  destruct (search_returns KV code scope table found c) as (r & c' & Hs). unfold wp in Hw. rewrite Hs in Hw.
  exists r.1, c'. split_and!; [|by eapply search_denotes | apply Hw]. unfold mbind, act_bind. by rewrite Hs.
Qed.

Lemma points_get n c it (o : row) : Inv n c -> points c KV it o -> row_at KV it c = Ok (o, c).
Proof.
  intros Hi (Hit & Hin & Ho). unfold row_at, mbind, act_bind, from_cache, cache_get.
  assert (E1 : (it =? -1) = false) by lia. assert (E2 : (it >=? 0) = true) by lia.
  assert (E3 : (it <? size (_iterator_to_object (caches c KV))) = true).
  { pose proof (lookup_lt_Some _ _ _ Hin). unfold size. lia. }
  rewrite E1, E2, E3, Hin. cbn [negb check mbind result_bind]. unfold deref, find. by rewrite Ho.
Qed.

Lemma points_table n c it (o : row) t : Inv n c -> points c KV it o -> o_t_id o = tab_id t ->
  _indices (tables c) !! tab_id t = Some t -> exists ei, _table_cache (caches c KV) !! tab_id t = Some (tab_id t, ei).
Proof.
  intros Hi (Hit & Hin & Ho) Hot Ht. pose proof (ck_forth _ _ _ (i_cache _ _ _ Hi KV) _ _ Hin) as Hb.
  destruct (ck_live _ _ _ (i_cache _ _ _ Hi KV) _ _ Hb) as (u & Hu & [[q ei] He]).
  assert (u = o) as -> by congruence. rewrite Hot in He. destruct (ck_table _ _ _ (i_cache _ _ _ Hi KV) _ _ _ He) as (-> & _).
  by exists ei.
Qed.

Lemma next_refined n c it at_ : Inv n c -> Z.of_nat n < 2 ^ 31 - 2 -> denotes c it at_ -> at_ <> NoTable ->
  refined n c (x ← db_next_i64 it; mret x.1) (spec_read (Next it) at_ (contents c)).
Proof.
  intros Hi Hn Hd Hne. pose proof (wp_next_in KV primary_less it n c _ Hi Hn (fun r c' Hr => Hr)) as Hw. unfold wp in Hw.
  assert (Hret : exists r c', next_in KV primary_less it c = Ok (r, c')).
  { unfold next_in. destruct (it <? -1) eqn:Elt; [by eexists _, _|]. destruct at_ as [|k|k id]; [done| |].
    - destruct Hd as (t & _ & He & _). destruct (ck_table _ _ _ (i_cache _ _ _ Hi KV) _ _ _ He) as (_ & _ & j & Ej & _). exfalso. apply Z.ltb_ge in Elt. lia.
    - destruct Hd as (t & o & _ & Ht & Hp & Hot & _). unfold mbind, act_bind. rewrite (points_get n c it o Hi Hp).
      cbn [mbind result_bind read]. destruct (points_table n c it o t Hi Hp Hot Ht) as [ei He].
      assert (Hend : from_cache KV (get_end_iterator_by_table_id (o_t_id o)) c = Ok (ei, c)).
      { unfold from_cache, get_end_iterator_by_table_id. by rewrite Hot, He. }
      destruct (next_of _ _ _) as [v|]; [destruct (negb _)|]; rewrite ?Hend; cbn [mbind result_bind]; [by eexists _, _| |by eexists _, _].
      unfold on_cache. destruct (cache_add _ _) as [i k']. cbn [mbind result_bind]. by eexists _, _. }
  destruct Hret as (r & c' & Hr). rewrite Hr in Hw. destruct Hw as [Hrd Hres]. exists r.1, c'.
  split_and!; [unfold db_next_i64, next_primary, mbind, act_bind; by rewrite Hr | | done].
  destruct at_ as [|k|k id]; [done| |]; cbn [spec_read].
  - destruct Hd as (t & _ & He & _). destruct (ck_table _ _ _ (i_cache _ _ _ Hi KV) _ _ _ He) as (_ & _ & j & -> & _).
    assert (E : (- (Z.of_nat j + 2) <? -1) = true) by (apply Z.ltb_lt; lia). rewrite E in Hres. by subst r.
  - destruct Hd as (t & o & <- & Ht & Hp & Hot & <-). assert (E : (it <? -1) = false) by (destruct Hp; lia). rewrite E in Hres.
    destruct Hres as (o' & Hp' & Ha). pose proof (points_get n c it o Hi Hp) as G. rewrite (points_get n c it o' Hi Hp') in G.
    injection G as ->. unfold seek. rewrite (contents_some n) by done.
    pose proof (bound_least n c (tab_id t) (Z.ltb (primary_key o)) (fun w => negb (primary_less o w)) Hi) as Hb.
    unfold next_of, arrives in Ha. unfold kv_rows in Hb. rewrite Hot in Ha.
    specialize (Hb ltac:(intros w; rewrite negb_false_iff, primary_less_lt; lia)).
    assert (Hend : forall x, tab_id x = tab_id t -> ends c' KV r.1 x -> denotes c' r.1 (AtEnd (tkey t))).
    { intros x Ex [Hx1 Hx2]. exists x. split; [|done]. rewrite (rd_tables _ _ _ Hrd), Ex, Ht in Hx2. by injection Hx2 as ->. }
    destruct (bound _ _ _) as [v|]; [|rewrite Hb; destruct Ha as (_ & x & Ex & Hx); by apply (Hend x)].
    destruct (Z.eqb_spec (o_t_id v) (tab_id t)) as [Ev|Nv]; rewrite Hb; [|destruct Ha as (_ & x & Ex & Hx); by apply (Hend x)].
    by eapply points_denotes; [..|apply Ha | |].
Qed.

(** The end iterator of a table that is there is found again. *)
Lemma ends_find n c it t : Inv n c -> Z.of_nat n < 2 ^ 31 - 2 -> ends c KV it t ->
  is_i32 it /\ (it <? -1) = true /\ find_table_by_end_iterator it (caches c KV) = Ok (Some (tab_id t)).
Proof.
  intros Hi Hn [He Ht]. destruct (ck_table _ _ _ (i_cache _ _ _ Hi KV) _ _ _ He) as (_ & _ & j & -> & Hj).
  pose proof (proj2 (i_small _ _ _ Hi KV)) as Hlen. pose proof (lookup_lt_Some _ _ _ Hj) as Hlt.
  split_and!; [unfold is_i32; lia | apply Z.ltb_lt; lia|].
  unfold find_table_by_end_iterator. assert ((- (Z.of_nat j + 2) <? -1) = true) as -> by (apply Z.ltb_lt; lia).
  cbn [check mbind result_bind]. assert (Ei : end_iterator_to_index (- (Z.of_nat j + 2)) = Z.of_nat j).
  { unfold end_iterator_to_index. rewrite (i32_small (- - _)), i32_small, u64_small; mach_lia. }
  rewrite Ei. assert ((Z.of_nat j >=? size (_end_iterator_to_table (caches c KV))) = false) as ->.
  { unfold size. rewrite Z.geb_leb. apply Z.leb_gt. lia. }
  by rewrite Nat2Z.id, Hj.
Qed.

(** The step back of [previous_in] returns. *)
Lemma step_returns (x : Z) (o : option row) c : exists r c',
  (match o with
   | None => mret (-1, None)
   | Some o => if negb (o_t_id o =? x) then mret (-1, None)
               else i ← on_cache KV (fun k => Ok (cache_add (o_id o) k)); mret (i, Some (primary_key o))
   end : act (Z * option Z)) c = Ok (r, c').
Proof.
  destruct o as [o|]; [|by eexists _, _]. destruct (negb _); [by eexists _, _|].
  unfold mbind, act_bind, on_cache. cbn [mbind result_bind]. destruct (cache_add _ _). cbn [mbind result_bind]. by eexists _, _.
Qed.

Lemma previous_returns n c it at_ : Inv n c -> Z.of_nat n < 2 ^ 31 - 2 -> denotes c it at_ -> at_ <> NoTable ->
  exists r c', previous_in KV primary_less it c = Ok (r, c').
Proof.
  intros Hi Hn Hd Hne. unfold previous_in. destruct at_ as [|k|k id]; [done| |].
  - destruct Hd as (t & _ & He). destruct (ends_find n c it t Hi Hn He) as (_ & -> & Hf). destruct He as [_ Ht].
    unfold mbind, act_bind, from_cache. rewrite Hf. cbn [mbind result_bind lift of_option].
    unfold deref_table, find. rewrite Ht. cbn [mbind result_bind of_option read]. apply step_returns.
  - destruct Hd as (t & o & _ & Ht & Hp & Hot & _). assert ((it <? -1) = false) as -> by (destruct Hp; lia).
    unfold mbind, act_bind. rewrite (points_get n c it o Hi Hp). cbn [mbind result_bind read]. apply step_returns.
Qed.

(** A step back within the table [t], to the greatest key that satisfies [p]. *)
Lemma back_denotes n c c' t p below r : Inv n c -> reads n c c' -> _indices (tables c) !! tab_id t = Some t ->
  (forall o : row, below o = true <-> o_t_id o < tab_id t \/ (o_t_id o = tab_id t /\ p (primary_key o) = true)) ->
  arrives c' KV (tab_id t) (before primary_less below (kv_rows c)) (r = (-1, None)) r ->
  denotes c' r.1 (match contents c !! tkey t with
                  | Some m => match greatest p m with Some id => At (tkey t) id | None => NoTable end
                  | None => NoTable
                  end).
Proof.
  intros Hi Hrd Ht Hb Ha. rewrite (contents_some n) by done. pose proof (before_greatest n c (tab_id t) p below Hi Hb) as Hg.
  unfold arrives in Ha. destruct (before _ _ _) as [o|]; [|rewrite Hg; by subst r].
  destruct (Z.eqb_spec (o_t_id o) (tab_id t)) as [Eo|Ne]; rewrite Hg; [|by subst r].
  by eapply points_denotes; [..|apply Ha | |].
Qed.

Lemma previous_refined n c it at_ : Inv n c -> Z.of_nat n < 2 ^ 31 - 2 -> denotes c it at_ -> at_ <> NoTable ->
  refined n c (x ← db_previous_i64 it; mret x.1) (spec_read (Previous it) at_ (contents c)).
Proof.
  intros Hi Hn Hd Hne. destruct (previous_returns n c it at_ Hi Hn Hd Hne) as (r & c' & Hr).
  assert (Hw : previous_result n c KV primary_less it r c').
  { destruct (decide (is_i32 it)) as [H32|H32].
    - assert (Hns : ~ stale c KV it) by (intros Hst; rewrite (previous_stale _ _ _ _ Hst) in Hr; discriminate).
      pose proof (wp_previous_in KV primary_less it n c _ Hi Hn H32 Hns (fun r c' Hx => Hx)) as Hw. unfold wp in Hw.
      by rewrite Hr in Hw.
    - exfalso. apply H32. destruct at_ as [|k|k id]; [done| |].
      + destruct Hd as (t & _ & He). by apply (ends_find n c it t).
      + destruct Hd as (t & o & _ & _ & (Hit & Hin & _) & _). apply lookup_lt_Some in Hin.
        pose proof (proj1 (i_small _ _ _ Hi KV)). unfold is_i32. lia. }
  destruct Hw as [Hrd Hres]. exists r.1, c'.
  split_and!; [unfold db_previous_i64, previous_primary, mbind, act_bind; by rewrite Hr | | done].
  destruct at_ as [|k|k id]; [done| |]; cbn [spec_read].
  - destruct Hd as (t & <- & He). destruct (ends_find n c it t Hi Hn He) as (H32 & E & Hf). rewrite E in Hres.
    destruct Hres as (t' & He' & Ha). destruct (ends_find n c it t' Hi Hn He') as (_ & _ & Hf').
    assert (Et : tab_id t' = tab_id t) by congruence. destruct He as [_ Ht], He' as [_ Ht'].
    assert (t' = t) as -> by congruence.
    eapply (back_denotes n c c' t); [done | done | done | | exact Ha]. intros o. rewrite Z.leb_le. lia.
  - destruct Hd as (t & o & <- & Ht & Hp & Hot & <-). assert (E : (it <? -1) = false) by (destruct Hp; lia).
    rewrite E in Hres. destruct Hres as (o' & Hp' & Ha). pose proof (points_get n c it o Hi Hp) as G.
    rewrite (points_get n c it o' Hi Hp') in G. injection G as ->. rewrite Hot in Ha.
    eapply (back_denotes n c c' t); [done | done | done | | exact Ha]. intros w. rewrite primary_less_lt, Z.ltb_lt. lia.
Qed.

Lemma end_refined n c code scope table : Inv n c -> Z.of_nat n < 2 ^ 31 - 2 ->
  refined n c (db_end_i64 code scope table) (spec_read (End_ (code, scope, table)) NoTable (contents c)).
Proof.
  intros Hi Hn. pose proof (wp_end_of KV code scope table n c _ Hi Hn (fun it c' Hr Hx => conj Hr Hx)) as Hw.
  assert (Hret : exists it c', end_of KV code scope table c = Ok (it, c')).
  { unfold end_of, mbind, act_bind, find_table. cbn [mbind result_bind]. destruct (List.find _ _); [|by eexists _, _].
    unfold on_cache. cbn [mbind result_bind]. destruct (cache_table _ _). by eexists _, _. }
  destruct Hret as (it & c' & Hr). unfold wp in Hw. rewrite Hr in Hw. destruct Hw as [Hrd Hres].
  exists it, c'. split_and!; [done| |done]. cbn [spec_read]. destruct Hres as [[-> Hno]|(t & Ht & <- & <- & <- & He)].
  - rewrite contents_none; [done|]. intros id t Ht. by apply (Hno id).
  - change (tab_code t, tab_scope t, tab_table t) with (tkey t). rewrite (contents_some n) by done. by exists t.
Qed.

(** The iterator a walk starts from. *)
Definition walks_from c (r : kv_read) (at_ : cursor) : Prop :=
  match r with Next it | Previous it => denotes c it at_ /\ at_ <> NoTable | _ => True end.

Lemma reads_refined n c r at_ : Inv n c -> Z.of_nat n < 2 ^ 31 - 2 -> walks_from c r at_ ->
  refined n c (do_read r) (spec_read r at_ (contents c)).
Proof.
  intros Hi Hn Hw. destruct r as [[[code scope] table] id|[[code scope] table] id|[[code scope] table] id|[[code scope] table]|it|it];
    cbn [do_read spec_read].
  - apply search_refined; [done | done | by eapply agrees_find | intros t rows o; apply found_row].
  - apply search_refined; [done | done | by eapply agrees_lower | intros t rows o; apply bound_row].
  - apply search_refined; [done | done | by eapply agrees_upper | intros t rows o; apply bound_row].
  - by apply end_refined.
  - by apply next_refined; try apply Hw.
  - by apply previous_refined; try apply Hw.
Qed.

(** Searches and walks through the rows of a table are those of an ordered
    map: they return the iterator of the right key, the end iterator of the
    table, or -1, change nothing, and all iterators keep their meaning. *)
Theorem kv_reads_refine r at_ n c : Inv n c -> Z.of_nat n < 2 ^ 31 - 2 -> walks_from c r at_ ->
  exists it c', do_read r c = Ok (it, c') /\ denotes c' it (spec_read r at_ (contents c)) /\
    Inv (S n) c' /\ contents c' = contents c /\ (forall it0 cur, denotes c it0 cur -> denotes c' it0 cur).
Proof.
  intros Hi Hn Hw. destruct (reads_refined n c r at_ Hi Hn Hw) as (it & c' & Hr & Hd & Hrd). exists it, c'.
  split_and!; [done | done | apply Hrd | by eapply reads_contents|]. intros it0 cur. by apply grows_denotes; apply Hrd.
Qed.

(** ** Writes *)

Inductive kv_write :=
| Put (scope table payer id : Z) (buffer : list Z)
| Replace (it payer : Z) (buffer : list Z)
| Drop (it : Z).

(** [Put] returns the new iterator, the others the one they were given. *)
Definition do_write e (w : kv_write) : act Z :=
  match w with
  | Put scope table payer id buffer => db_store_i64 e scope table payer id buffer
  | Replace it payer buffer => db_update_i64 e it payer buffer ≫= fun _ => mret it
  | Drop it => db_remove_i64 e it ≫= fun _ => mret it
  end.

(** The writes on ordered maps; [at_] is the cursor of the iterator given. *)
Definition spec_write e (w : kv_write) (at_ : cursor) a a' : Prop :=
  match w, at_ with
  | Put scope table payer id buffer, _ =>
    let k := (receiver e, scope, table) in
    let m := default ∅ (a !! k) in
    m !! id = None /\ a' = <[k := <[id := (payer, buffer)]> m]> a
  | Replace _ payer buffer, At k id =>
    k.1.1 = receiver e /\ exists m old_payer old, a !! k = Some m /\ m !! id = Some (old_payer, old) /\
      a' = <[k := <[id := (if payer =? 0 then old_payer else payer, buffer)]> m]> a
  | Drop _, At k id =>
    k.1.1 = receiver e /\ exists m, a !! k = Some m /\ is_Some (m !! id) /\
      (a' = <[k := delete id m]> a \/ (delete id m = ∅ /\ a' = delete k a))
  | _, _ => False
  end.

Lemma contents_eq n c a : Inv n c ->
  (forall t, _indices (tables c) !! tab_id t = Some t -> a !! tkey t = Some (rows_map c (tab_id t))) ->
  (forall k m, a !! k = Some m -> exists t, _indices (tables c) !! tab_id t = Some t /\ tkey t = k) ->
  contents c = a.
Proof.
  intros Hi Hsome Hnone. apply map_eq. intros k. destruct (a !! k) as [m|] eqn:Ek.
  - destruct (Hnone k m Ek) as (t & Ht & <-). rewrite (contents_some n) by done. rewrite <- Ek. symmetry. by apply Hsome.
  - apply contents_none. intros id t Ht <-. rewrite <- (db_tab_id _ _ (i_db _ _ _ Hi) _ _ Ht) in Ht.
    rewrite (Hsome t Ht) in Ek. done.
Qed.

(** A row created or replaced, a row removed. *)
Lemma rows_map_insert n n' c c' oid o t : Inv n c -> Inv n' c' -> kv_rows c' = <[oid := o]> (kv_rows c) ->
  (forall u, kv_rows c !! oid = Some u -> o_t_id u = o_t_id o /\ primary_key u = primary_key o) ->
  rows_map c' t = (if o_t_id o =? t then <[primary_key o := (o_payer o, o_data o)]> (rows_map c t) else rows_map c t).
Proof.
  intros Hi Hi' Hr Hold. apply map_eq. intros id. apply option_eq. intros v. rewrite (rows_map_lookup n') by done. rewrite Hr.
  destruct (Z.eqb_spec (o_t_id o) t) as [<-|Ne].
  - rewrite lookup_insert_Some, (rows_map_lookup n) by done. split.
    + intros (i & u & [[<- <-]|[Hne Hu]]%lookup_insert_Some & Ht & Hp & ->); [by left|]. right. split; [|by exists i, u].
      intros <-. apply Hne. assert (Hu' : kv_rows c' !! i = Some u) by (by rewrite Hr, lookup_insert_ne).
      assert (Ho' : kv_rows c' !! oid = Some o) by (by rewrite Hr, lookup_insert_eq).
      by eapply (row_unique n' c' oid i o u).
    + intros [[<- <-]|[Hne (i & u & Hu & Ht & Hp & ->)]]; [exists oid, o; by rewrite lookup_insert_eq|].
      exists i, u. rewrite lookup_insert_ne; [done|]. intros <-. destruct (Hold u Hu). congruence.
  - rewrite (rows_map_lookup n) by done. split.
    + intros (i & u & [[<- <-]|[Hne Hu]]%lookup_insert_Some & Ht & Hp & ->); [done | by exists i, u].
    + intros (i & u & Hu & Ht & Hp & ->). exists i, u. rewrite lookup_insert_ne; [done|]. intros <-.
      destruct (Hold u Hu). congruence.
Qed.

Lemma rows_map_delete n n' c c' oid o t : Inv n c -> Inv n' c' -> kv_rows c' = delete oid (kv_rows c) ->
  kv_rows c !! oid = Some o ->
  rows_map c' t = (if o_t_id o =? t then delete (primary_key o) (rows_map c t) else rows_map c t).
Proof.
  intros Hi Hi' Hr Ho. apply map_eq. intros id. apply option_eq. intros v. rewrite (rows_map_lookup n') by done. rewrite Hr.
  destruct (Z.eqb_spec (o_t_id o) t) as [<-|Ne].
  - rewrite lookup_delete_Some, (rows_map_lookup n) by done. split.
    + intros (i & u & [Hne Hu]%lookup_delete_Some & Ht & Hp & ->). split; [|by exists i, u].
      intros <-. apply Hne. by eapply (row_unique n c oid i o u).
    + intros [Hne (i & u & Hu & Ht & Hp & ->)]. exists i, u. rewrite lookup_delete_ne; [done|]. intros <-. congruence.
  - rewrite (rows_map_lookup n) by done. split.
    + intros (i & u & [Hne Hu]%lookup_delete_Some & Ht & Hp & ->). by exists i, u.
    + intros (i & u & Hu & Ht & Hp & ->). exists i, u. rewrite lookup_delete_ne; [done|]. intros <-. congruence.
Qed.

(** The tables of [c'] have the names of those of [c], but for [k]. *)
Definition same_names_but (k : table_name) c c' : Prop :=
  (forall id t, _indices (tables c) !! id = Some t -> tkey t <> k -> _indices (tables c') !! id = Some t) /\
  (forall id t, _indices (tables c') !! id = Some t -> tkey t <> k -> _indices (tables c) !! id = Some t).

(** One table changed: the contents change at its name. *)
Lemma contents_change n n' c c' t m : Inv n c -> Inv n' c' -> same_names_but (tkey t) c c' ->
  _indices (tables c') !! tab_id t = Some t -> rows_map c' (tab_id t) = m ->
  (forall x, x <> tab_id t -> rows_map c' x = rows_map c x) ->
  contents c' = <[tkey t := m]> (contents c).
Proof.
  intros Hi Hi' [Hto Hfrom] Ht Hm Hother. apply (contents_eq n'); [done| |].
  - intros u Hu. destruct (decide (tkey u = tkey t)) as [E|Ne].
    + assert (tab_id u = tab_id t) as Eid by (by eapply (table_unique n' c' (tab_id u) (tab_id t) u t)).
      by rewrite E, lookup_insert_eq, Eid, Hm.
    + rewrite lookup_insert_ne by done. rewrite (contents_some n) by (done || by apply Hfrom). f_equal. symmetry.
      apply Hother. intros Eid. rewrite Eid, Ht in Hu. by injection Hu as ->.
  - intros k mk [[<- <-]|[Hne Hk]]%lookup_insert_Some; [by exists t|].
    apply (contents_inv n) in Hk as (u & Hu & <- & ->); [|done]. exists u. split; [|done]. by apply Hto.
Qed.

(** Cursors survive a change that keeps their rows and tables. *)
Lemma denotes_kept c c' it cur : grows c c' ->
  (forall id t, _indices (tables c) !! id = Some t -> exists t', _indices (tables c') !! id = Some t' /\ tkey t' = tkey t /\ tab_id t' = tab_id t) ->
  (forall o : row, kv_rows c !! o_id o = Some o -> exists o' : row, kv_rows c' !! o_id o = Some o' /\ o_id o' = o_id o /\
     o_t_id o' = o_t_id o /\ primary_key o' = primary_key o) ->
  denotes c it cur -> denotes c' it cur.
Proof.
  intros Hg HT HR. destruct (Hg KV) as [Hpre Hsub]. destruct cur as [|k|k id]; cbn [denotes]; [done| |].
  - intros (t & <- & He & Ht). destruct (HT _ _ Ht) as (t' & Ht' & Hk & Hid). exists t'. split; [done|].
    split; rewrite Hid; [by eapply lookup_weaken | done].
  - intros (t & o & <- & Ht & (Hit & Hin & Ho) & Hot & <-). destruct (HT _ _ Ht) as (t' & Ht' & Hk & Hid).
    destruct (HR o Ho) as (o' & Ho' & Hoid & Hot' & Hp'). exists t', o'. rewrite Hid, Hot', Hp'. split_and!; try done.
    unfold points. rewrite Hoid. split_and!; [done | by eapply prefix_lookup_Some | done].
Qed.

(** What a write does, as seen from outside. *)
Definition writes n c e (w : kv_write) (at_ : cursor) (it : Z) c' : Prop :=
  Inv (S n) c' /\ spec_write e w at_ (contents c) (contents c') /\
  match w with
  | Put scope table _ id _ => denotes c' it (At (receiver e, scope, table) id) /\ forall it0 cur, denotes c it0 cur -> denotes c' it0 cur
  | Replace _ _ _ => forall it0 cur, denotes c it0 cur -> denotes c' it0 cur
  | Drop it => forall it0 cur, it0 <> it -> denotes c it0 cur ->
      match cur with AtEnd k => is_Some (contents c' !! k) | _ => True end -> denotes c' it0 cur
  end.

Lemma kv_insert_unique n c c' oid (o : row) : Inv n c' -> kv_rows c' = <[oid := o]> (kv_rows c) -> kv_rows c !! oid = None ->
  forall i u, kv_rows c !! i = Some u -> ~ (o_t_id u = o_t_id o /\ primary_key u = primary_key o).
Proof.
  intros Hi Hr Hnew i u Hu [Ht Hp]. assert (Hne : oid <> i) by congruence.
  apply Hne. eapply (row_unique n c' oid i o u); [done | by rewrite Hr, lookup_insert_eq | by rewrite Hr, lookup_insert_ne | done | done].
Qed.

Lemma wp_put e scope table payer id buffer n c : Inv n c -> Z.of_nat n < 2 ^ 31 - 2 -> size buffer < 2 ^ 32 ->
  wp (db_store_i64 e scope table payer id buffer) c (writes n c e (Put scope table payer id buffer) NoTable).
Proof.
  intros Hi Hn Hb. unfold db_store_i64. pose proof billable_row_pos.
  assert (Hsz : 0 <= size buffer) by (unfold size; lia). rewrite u64_small, i64_small by mach_lia.
  apply wp_bind, (wp_find_or_create e _ _ _ n); [done|]. intros t c1 Hi1 _ Ht Hcode Hsc Htb HS1 HC1 Hcase.
  apply wp_bind, wp_check; [not_ub|]. intros _.
  eapply (wp_create_row e KV t payer id buffer _ n); try done; [lia|]. intros it c' oid Hi' _ Hg o Hit Hin Hnew Hrows HT'.
  rewrite HS1 in Hnew, Hrows. change (kv_rows c' = <[oid := o]> (kv_rows c)) in Hrows.
  set (t' := with_count t (tab_count t + 1)) in *.
  assert (Hk : tkey t' = (receiver e, scope, table)) by (unfold tkey; simpl; congruence).
  assert (Hsub : forall x u, _indices (tables c) !! x = Some u -> x <> tab_id t -> _indices (tables c') !! x = Some u).
  { intros x u Hu Hne. rewrite HT', lookup_insert_ne by done. destruct Hcase as [->|(-> & _)]; [done|]. by rewrite lookup_insert_ne. }
  assert (Hnames : same_names_but (tkey t') c c').
  { split.
    - intros x u Hu Hne. apply Hsub; [done|]. intros ->. destruct Hcase as [E|(_ & E & _)]; [|congruence].
      rewrite E, Hu in Ht. injection Ht as ->. done.
    - intros x u Hu Hne. rewrite HT' in Hu. apply lookup_insert_Some in Hu as [[<- <-]|[Hx Hu]]; [done|].
      destruct Hcase as [E|(E & _)]; [by rewrite <- E|]. rewrite E, lookup_insert_ne in Hu; done. }
  assert (Hold : default ∅ (contents c !! tkey t') = rows_map c (tab_id t)).
  { destruct Hcase as [E|(E & E' & Hfresh)].
    - change (tkey t') with (tkey t). rewrite (contents_some n); [done | done | by rewrite <- E].
    - rewrite contents_none; [|rewrite Hk; apply Hfresh]. simpl. symmetry. apply map_empty. intros x.
      destruct (rows_map c (tab_id t) !! x) as [v|] eqn:Ev; [|done]. apply (rows_map_lookup n) in Ev as (j & u & Hu & Hut & _); [|done].
      destruct (db_row_tab _ _ (i_db _ _ _ Hi) KV _ _ Hu) as [y Hy]. rewrite Hut in Hy. congruence. }
  assert (Hmap : forall x, rows_map c' x = (if tab_id t =? x then <[id := (payer, buffer)]> (rows_map c x) else rows_map c x)).
  { intros x. apply (rows_map_insert n (S n) c c' oid o x Hi Hi' Hrows). unfold kv_rows. rewrite Hnew. done. }
  split_and!; [done| | |].
  - cbn [spec_write]. rewrite <- Hk, Hold. split.
    + destruct (rows_map c (tab_id t) !! id) as [v|] eqn:Ev; [|done]. exfalso.
      apply (rows_map_lookup n) in Ev as (j & u & Hu & Hut & Hp & _); [|done].
      by eapply (kv_insert_unique (S n) c c' oid o Hi' Hrows Hnew j u).
    + eapply (contents_change n (S n) c c' t'); [done | done | done | by rewrite HT', lookup_insert_eq | |].
      * rewrite Hmap. simpl. by rewrite Z.eqb_refl.
      * intros x Hx. rewrite Hmap. simpl in Hx. assert ((tab_id t =? x) = false) as -> by lia. done.
  - exists t', o. split_and!; [done | by rewrite HT', lookup_insert_eq | | done | done].
    split_and!; [done | done|]. change (kv_rows c' !! oid = Some o). by rewrite Hrows, lookup_insert_eq.
  - intros it0 cur. apply denotes_kept.
    + intros s. specialize (Hg s). by rewrite HC1 in Hg.
    + intros x u Hu. destruct (decide (x = tab_id t)) as [->|Hne]; [|exists u; by rewrite (Hsub x u)].
      exists t'. rewrite HT', lookup_insert_eq. destruct Hcase as [E|(_ & E & _)]; [|congruence].
      rewrite E, Hu in Ht. by injection Ht as ->.
    + intros u Hu. exists u. rewrite Hrows, lookup_insert_ne; [done|]. intros E. unfold kv_rows in Hu. rewrite <- E, Hnew in Hu. done.
Qed.

Lemma points_cached n c it (o : row) : Inv n c -> points c KV it o ->
  cache_get it (caches c KV) = Ok (o_id o) /\ is_Some (_table_cache (caches c KV) !! o_t_id o).
Proof.
  intros Hi Hp. destruct (db_row_tab _ _ (i_db _ _ _ Hi) KV _ _ (proj2 (proj2 Hp))) as [t Ht].
  pose proof (db_tab_id _ _ (i_db _ _ _ Hi) _ _ Ht) as Et.
  destruct (points_table n c it o t Hi Hp) as [ei He]; [done | by rewrite Et|].
  split; [|rewrite <- Et; by exists (tab_id t, ei)].
  pose proof (points_get n c it o Hi Hp) as Hg. unfold row_at, mbind, act_bind, from_cache in Hg.
  destruct (cache_get it (caches c KV)) as [p|]; [|done]. cbn [mbind result_bind] in Hg. unfold deref, find in Hg.
  destruct (_indices (stores c KV) !! p) as [u|] eqn:Eu; [|done]. cbn [of_option mbind result_bind] in Hg. injection Hg as ->.
  f_equal. symmetry. by apply (db_row_id _ _ (i_db _ _ _ Hi) KV _ _ Eu).
Qed.

Lemma wp_replace e it payer buffer k id n c : Inv n c -> size buffer < 2 ^ 32 -> denotes c it (At k id) ->
  wp (do_write e (Replace it payer buffer)) c (writes n c e (Replace it payer buffer) (At k id)).
Proof.
  intros Hi Hb (t & o & <- & Ht & Hpt & Hot & <-). cbn [do_write]. apply wp_bind. unfold db_update_i64.
  destruct (points_cached n c it o Hi Hpt) as [Hg Htc]. assert (Ho : _indices (stores c KV) !! o_id o = Some o) by apply Hpt.
  apply wp_bind. unfold wp at 1. rewrite (points_get n c it o Hi Hpt).
  apply wp_bind, (wp_own_table e KV o None n); try done. intros t' Et' Ht' Hcode. rewrite Hot in Et'.
  assert (t' = t) as -> by congruence.
  destruct (db_row_id _ _ (i_db _ _ _ Hi) KV _ _ Ho) as [_ Hcost]. cbn [cost] in Hcost. pose proof billable_row_pos.
  assert (Hsz : 0 <= size buffer) by (unfold size; lia). assert (Hsz' : 0 <= size (o_data o)) by (unfold size; lia).
  rewrite (u64_small (size buffer + _)), (u64_small (size (o_data o) + _)), (i64_small (size buffer + _)),
    (i64_small (size (o_data o) + _)) by mach_lia.
  apply wp_bind, (wp_recharge e n); try done; try lia. intros c1 Hdb L.
  apply (wp_replace_row e KV o _ buffer n c1 c); try done; [|cbn [cost o_data]; lia|].
  { intros u Hu. rewrite Hot in Hu. congruence. }
  set (o' := mk_object (o_id o) (o_t_id o) (primary_key o) (if payer =? 0 then o_payer o else payer) buffer : row).
  intros c' Hi' _ HT HC Hrows _. apply wp_ret. change (kv_rows c' = <[o_id o := o']> (kv_rows c)) in Hrows.
  assert (Hmap : forall x, rows_map c' x = (if tab_id t =? x then <[primary_key o := (o_payer o', buffer)]> (rows_map c x) else rows_map c x)).
  { intros x. rewrite <- Hot. apply (rows_map_insert n n c c' (o_id o) o' x Hi Hi' Hrows). unfold kv_rows. rewrite Ho. by intros u [= <-]. }
  split_and!; [eapply inv_le; [done | lia] | |].
  - split; [done|]. exists (rows_map c (tab_id t)), (o_payer o), (o_data o). split_and!.
    + by apply (contents_some n).
    + apply (rows_map_lookup n); [done|]. exists (o_id o), o. by rewrite Hot.
    + eapply (contents_change n n c c' t); [done | done | by split; rewrite HT | by rewrite HT | |].
      * by rewrite Hmap, Z.eqb_refl.
      * intros x Hx. rewrite Hmap. assert ((tab_id t =? x) = false) as -> by lia. done.
  - intros it0 cur. apply denotes_kept.
    + intros s. by rewrite HC.
    + intros x u Hu. exists u. by rewrite HT.
    + intros u Hu. rewrite Hrows. destruct (decide (o_id o = o_id u)) as [E|Hne].
      * exists o'. rewrite <- E, lookup_insert_eq. unfold kv_rows in Hu. rewrite <- E, Ho in Hu. by injection Hu as <-.
      * exists u. by rewrite lookup_insert_ne.
Qed.

(** Cursors survive the removal of another row. *)
Lemma denotes_dropped n c c' it0 it cur (o : row) t : Inv n c -> Inv n c' -> it0 <> it ->
  points c KV it o -> o_t_id o = tab_id t -> _indices (tables c) !! tab_id t = Some t ->
  kv_rows c' = delete (o_id o) (kv_rows c) ->
  _table_cache (caches c' KV) = _table_cache (caches c KV) ->
  _iterator_to_object (caches c' KV) = <[Z.to_nat it := None]> (_iterator_to_object (caches c KV)) ->
  (forall x u, x <> tab_id t -> _indices (tables c) !! x = Some u <-> _indices (tables c') !! x = Some u) ->
  (forall u, _indices (tables c') !! tab_id t = Some u -> tkey u = tkey t) ->
  match cur with AtEnd k => is_Some (contents c' !! k) | _ => True end ->
  denotes c it0 cur -> denotes c' it0 cur.
Proof.
  intros Hi Hi' Hne Hpt Hot Ht Hrows Htc Hits Hkept Hname Hlive.
  assert (Hback : forall u', _indices (tables c') !! tab_id u' = Some u' ->
    exists u, _indices (tables c) !! tab_id u' = Some u /\ tkey u = tkey u').
  { intros u' Hu'. destruct (decide (tab_id u' = tab_id t)) as [E|Hx]; [|exists u'; by rewrite Hkept].
    exists t. rewrite E in *. by rewrite (Hname u'). }
  destruct cur as [|k|k id]; cbn [denotes]; [done| |].
  - intros (u & <- & He & Hu). destruct Hlive as [m Hm]. apply (contents_inv n) in Hm as (u' & Hu' & Hk & _); [|done].
    destruct (Hback u' Hu') as (w & Hw & Hkw). exists u'. split; [done|].
    assert (E : tab_id u' = tab_id u) by (eapply (table_unique n c _ _ w u); congruence || done).
    split; rewrite ?E, ?Htc; [done | by rewrite <- E].
  - intros (u & o0 & <- & Hu & (Hit & Hin & Ho0) & Hot0 & <-).
    assert (Hid : o_id o <> o_id o0).
    { intros E. destruct Hpt as (Hit1 & Hin1 & _). apply (ck_forth _ _ _ (i_cache _ _ _ Hi KV)) in Hin, Hin1.
      rewrite <- E in Hin. assert (Z.of_nat (Z.to_nat it0) = Z.of_nat (Z.to_nat it)) by congruence. lia. }
    assert (Ho' : kv_rows c' !! o_id o0 = Some o0) by (by rewrite Hrows, lookup_delete_ne).
    destruct (db_row_tab _ _ (i_db _ _ _ Hi') KV _ _ Ho') as [u' Hu']. rewrite Hot0 in Hu'.
    pose proof (db_tab_id _ _ (i_db _ _ _ Hi') _ _ Hu') as Eu. rewrite <- Eu in Hu'.
    destruct (Hback u' Hu') as (w & Hw & Hkw). rewrite Eu, Hu in Hw. injection Hw as <-. exists u', o0.
    split_and!; [done | done | | by rewrite Eu | done]. split_and!; [done | | done].
    rewrite Hits, list_lookup_insert_ne; [done|]. destruct Hpt. lia.
Qed.

Lemma wp_drop e it k id n c : Inv n c -> Z.of_nat n < 2 ^ 31 - 2 -> denotes c it (At k id) ->
  wp (do_write e (Drop it)) c (writes n c e (Drop it) (At k id)).
Proof.
  intros Hi Hn (t & o & <- & Ht & Hpt & Hot & <-). cbn [do_write]. apply wp_bind. unfold db_remove_i64.
  destruct (points_cached n c it o Hi Hpt) as [Hg Htc]. assert (Ho : _indices (stores c KV) !! o_id o = Some o) by apply Hpt.
  apply wp_bind. unfold wp at 1. rewrite (points_get n c it o Hi Hpt).
  apply wp_bind, (wp_own_table e KV o None n); try done. intros t' Et' Ht' Hcode. rewrite Hot in Et'.
  assert (t' = t) as -> by congruence.
  apply wp_bind, (wp_refund e n c KV o); try done. intros c1 Hdb L.
  apply (wp_erase_row e KV o t it n c1 c); try done; [lia|]. intros c' Hi' _ Hrows _ Htcs Hits HT. apply wp_ret.
  change (kv_rows c' = delete (o_id o) (kv_rows c)) in Hrows.
  assert (Hmap : forall x, rows_map c' x = (if tab_id t =? x then delete (primary_key o) (rows_map c x) else rows_map c x)).
  { intros x. rewrite <- Hot. by apply (rows_map_delete n n c c' (o_id o) o x Hi Hi' Hrows). }
  assert (Hold : contents c !! tkey t = Some (rows_map c (tab_id t))) by (by apply (contents_some n)).
  assert (Hrow : is_Some (rows_map c (tab_id t) !! primary_key o)).
  { exists (o_payer o, o_data o). apply (rows_map_lookup n); [done|]. exists (o_id o), o. by rewrite Hot. }
  assert (Hkept : forall x u, x <> tab_id t -> _indices (tables c) !! x = Some u <-> _indices (tables c') !! x = Some u).
  { intros x u Hx. rewrite HT. destruct (_ =? _); [by rewrite lookup_delete_ne | by rewrite lookup_insert_ne]. }
  split_and!; [eapply inv_le; [done | lia] | |].
  - split; [done|]. exists (rows_map c (tab_id t)). split_and!; [done | done|].
    destruct (tab_count t =? 1) eqn:Ec.
    + right. assert (Hno : forall x, rows_map c' (tab_id t) !! x = None).
      { intros x. destruct (rows_map c' (tab_id t) !! x) as [v|] eqn:Ev; [|done].
        apply (rows_map_lookup n) in Ev as (j & u & Hu & Hut & _); [|done].
        destruct (db_row_tab _ _ (i_db _ _ _ Hi') KV _ _ Hu) as [y Hy]. rewrite Hut, HT, lookup_delete_eq in Hy. done. }
      split; [apply map_empty; intros x; specialize (Hno x); by rewrite Hmap, Z.eqb_refl in Hno|].
      apply (contents_eq n); [done| |].
      * intros u Hu. assert (Hne : tab_id u <> tab_id t) by (intros E; rewrite HT, E, lookup_delete_eq in Hu; done).
        apply Hkept in Hu; [|done]. rewrite lookup_delete_ne.
        -- rewrite (contents_some n) by done. rewrite Hmap. assert ((tab_id t =? tab_id u) = false) as -> by lia. done.
        -- intros E. apply Hne. by eapply (table_unique n c (tab_id u) (tab_id t) u t).
      * intros k m [Hne Hk]%lookup_delete_Some. apply (contents_inv n) in Hk as (u & Hu & <- & _); [|done]. exists u.
        split; [|done]. apply Hkept; [|done]. intros E. rewrite E, Ht in Hu. injection Hu as ->. done.
    + left. set (t1 := with_count t (tab_count t - 1)) in *.
      eapply (contents_change n n c c' t1); [done | done | | by rewrite HT; apply lookup_insert_eq | |].
      * split; intros x u Hu Hne; (apply Hkept; [|done]); intros ->.
        -- rewrite Ht in Hu. by injection Hu as <-.
        -- rewrite HT, lookup_insert_eq in Hu. by injection Hu as <-.
      * rewrite Hmap. change (tab_id t1) with (tab_id t). by rewrite Z.eqb_refl.
      * intros x Hx. rewrite Hmap. simpl in Hx. assert ((tab_id t =? x) = false) as -> by lia. done.
  - intros it0 cur Hit0 Hd Hlive. apply (denotes_dropped n c c' it0 it cur o t); try done.
    intros u Hu. rewrite HT in Hu. destruct (_ =? _); [by rewrite lookup_delete_eq in Hu|].
    rewrite lookup_insert_eq in Hu. by injection Hu as <-.
Qed.

(** Storing, updating and removing rows is inserting into and deleting from
    the map of the receiver: a new key is inserted, an update keeps its payer
    when none is named, and a table without rows may go; all other iterators
    keep their meaning, but for the end iterator of a table whose last row is
    dropped, which is left dangling. (C33) *)
Theorem kv_writes_refine e w at_ n c it c' : Inv n c -> Z.of_nat n < 2 ^ 31 - 2 ->
  match w with
  | Put _ _ _ _ buffer => size buffer < 2 ^ 32
  | Replace it _ buffer => size buffer < 2 ^ 32 /\ denotes c it at_ /\ exists k id, at_ = At k id
  | Drop it => denotes c it at_ /\ exists k id, at_ = At k id
  end ->
  do_write e w c = Ok (it, c') -> writes n c e w at_ it c'.
Proof.
  intros Hi Hn Hw Hrun. destruct w as [scope table payer id buffer|it0 payer buffer|it0].
  - pose proof (wp_put e scope table payer id buffer n c Hi Hn Hw) as Hp. unfold wp in Hp.
    cbn [do_write] in Hrun. by rewrite Hrun in Hp.
  - destruct Hw as (Hb & Hd & k & id & ->). pose proof (wp_replace e it0 payer buffer k id n c Hi Hb Hd) as Hp.
    unfold wp in Hp. by rewrite Hrun in Hp.
  - destruct Hw as (Hd & k & id & ->). pose proof (wp_drop e it0 k id n c Hi Hn Hd) as Hp.
    unfold wp in Hp. by rewrite Hrun in Hp.
Qed.
End Map.

(** ** Concrete contract tables

    Two accounts, a contract with a few rows, and the theorems evaluated on
    it; and a contract that keeps the end iterator of a table it empties. *)

(** Integers as secondary keys. *)
#[export] Program Instance integer_keys : SecondaryKeys Z := {| sk_less _ := Z.ltb |}.
Next Obligation. intros. apply Z.ltb_irrefl. Qed.
Next Obligation. intros k x y z Hxy Hyz. rewrite Z.ltb_lt in *. lia. Qed.
Next Obligation. intros k x y z Hxz. rewrite !Z.ltb_lt in *. lia. Qed.

Definition idle : usage_accumulator := mk_acc 0 0 0.
Definition two_accounts : rdb :=
  mk_rdb (list_to_map [((false, 1), mk_limits 1 false 0 0 4000); ((false, 2), mk_limits 2 false 0 0 1000)])
    (list_to_map [(1, mk_usage 1 idle idle 0); (2, mk_usage 2 idle idle 0)]) None None.

Definition fresh : apply_context (sk := Z) :=
  mk_ctx index_empty (fun _ => index_empty) two_accounts (fun _ => cache_empty) ∅ ∅.

(** An action of account 2 on the contract of account 1, as the contract sees
    it and as account 2 sees it when it is notified. *)
Definition env1 : act_env := mk_act_env 1 1 [(2, 0)] false true false.
Definition env2 : act_env := mk_act_env 2 1 [(2, 0)] false true false.

Lemma empty_wf {V} `{UniqueKeys V} : wf (index_empty (V := V)).
Proof.
  split; cbn.
  - intros i j v w _ Hi. by rewrite lookup_empty in Hi.
  - intros id [v Hv]. by rewrite lookup_empty in Hv.
Qed.

Lemma fresh_inv : Inv 0 fresh.
Proof.
  split.
  - split; cbn; intros; rewrite ?lookup_empty in *; done || apply empty_wf.
  - intros id t Ht. cbn in Ht. by rewrite lookup_empty in Ht.
  - by vm_compute.
  - intros a u Hu. cbn in Hu. assert (Hr : ram_usage u = 0); [|rewrite Hr; by vm_compute].
    repeat (apply lookup_insert_Some in Hu as [[_ <-]|[_ Hu]]; [done|]). by rewrite lookup_empty in Hu.
  - intros s. apply cache_empty_ok.
  - intros s. split; simpl; lia.
Qed.

Definition busy : list (db_call (sk := Z)) :=
  [DbStore 1 7 1 5 [10; 11]; DbStore 1 7 2 9 [12]; IdxStore idx64 1 7 1 5 77; DbEnd KV 1 1 7;
   DbPrevious KV (-2); DbNext KV 0; IdxFind idx64 1 1 7 77; DbUpdate 0 2 [1; 2; 3]; DbGet 0 2;
   DbStore 2 7 1 1 []; DbRemove 2; DbLower KV 1 1 7 6].

Lemma busy_ok : Forall call_ok busy.
Proof. repeat constructor; vm_compute; congruence. Qed.

Lemma contract_tables_consistent_witness : exists c', calls env1 busy fresh = Ok (tt, c') /\ Inv 12 c'.
Proof.
  pose proof (contract_tables_consistent env1 busy 0 fresh fresh_inv busy_ok ltac:(by vm_compute)) as Hc.
  assert (Hrun : is_ok (calls env1 busy fresh) = true) by (vm_compute; reflexivity).
  destruct (calls env1 busy fresh) as [[[] c']|err]; [|discriminate Hrun]. exists c'. split; [reflexivity | exact Hc].
Defined.

(** The context the calls lead to. *)
Definition after (c : apply_context (sk := Z)) (r : result (unit * apply_context (sk := Z))) : apply_context (sk := Z) :=
  match r with Ok (_, c') => c' | Err _ => c end.
Definition stocked : apply_context (sk := Z) := after fresh (calls env1 busy fresh).

Lemma after_ok e ops c : is_ok (calls e ops c) = true -> calls e ops c = Ok (tt, after c (calls e ops c)).
Proof. destruct (calls e ops c) as [[[] c']|]; done. Qed.

Lemma busy_runs : calls env1 busy fresh = Ok (tt, stocked).
Proof. apply after_ok. vm_compute. reflexivity. Qed.

Lemma stocked_inv : Inv 12 stocked.
Proof.
  pose proof (calls_inv env1 busy 0 fresh fresh_inv busy_ok ltac:(by vm_compute)) as Hc.
  rewrite busy_runs in Hc. apply Hc.
Qed.

(** Account 2 took over the payment of the row of account 1: 115 bytes, and
    113 for its own. *)
Example stocked_ram : ram stocked 1 = 112 + 128 /\ ram stocked 2 = 115 + 113.
Proof. split; vm_compute; reflexivity. Qed.

Lemma ram_billed_exactly_witness : ram stocked 2 - billed (tables stocked) (stores stocked) 2 = 0.
Proof.
  rewrite (ram_billed_exactly env1 busy 0 fresh stocked 2 fresh_inv busy_ok ltac:(by vm_compute) busy_runs).
  vm_compute. reflexivity.
Defined.

Lemma busy_applied : apply_contract env1 busy fresh = Ok (tt, stocked).
Proof.
  assert (Hok : is_ok (apply_contract env1 busy fresh) = true) by (vm_compute; reflexivity).
  unfold apply_contract, mbind, act_bind in *. rewrite busy_runs in *. cbn [mbind result_bind] in *.
  destruct (check_ram_deltas env1 stocked) as [[[] c']|err] eqn:Ec; [|discriminate Hok].
  by destruct (check_ram_deltas_ok env1 stocked c' 0 Ec) as [-> _].
Qed.

Lemma busy_verified : verify_ram_usage stocked = Ok (tt, stocked).
Proof.
  assert (Hok : is_ok (verify_ram_usage stocked) = true) by (vm_compute; reflexivity).
  unfold verify_ram_usage in *. destruct (mfold _ _ _) as [[]|err]; [done | discriminate Hok].
Qed.

Lemma ram_needs_consent_witness :
  (2 = receiver env1 \/
   (has_authorization env1 2 = true /\
    (receiver env1 = act_account env1 \/ (ram_restrictions env1 = false /\ ram_billing_in_notify_allowed env1 = true)))) /\
  ram stocked 2 <= 1000.
Proof.
  destruct (ram_needs_consent env1 busy 0 fresh stocked stocked 2 fresh_inv busy_ok ltac:(by vm_compute) eq_refl eq_refl
    busy_applied busy_verified ltac:(split; vm_compute; reflexivity)) as [Hc Hl].
  split; [exact Hc|]. apply (Hl 1000 0 0); [vm_compute; reflexivity | lia].
Defined.

(** Account 2 looks at the table of the contract and keeps one of its own. *)
Definition tour : list (db_call (sk := Z)) := [DbLower KV 1 1 7 6; DbStore 1 7 2 3 [1]; DbNext KV 1].

Lemma tour_runs : calls env2 tour stocked = Ok (tt, after stocked (calls env2 tour stocked)).
Proof. apply after_ok. vm_compute. reflexivity. Qed.

Lemma foreign_tables_untouched_witness :
  let c' := after stocked (calls env2 tour stocked) in
  isolated env2 (tables stocked) (stores stocked) (tables c') (stores c').
Proof.
  apply (foreign_tables_untouched env2 tour 12 stocked); [exact stocked_inv | | by vm_compute | exact tour_runs].
  repeat constructor; vm_compute; congruence.
Defined.

(** The table of the contract is the map from 5 to [1; 2; 3] and from 9 to [12]. *)
Example stocked_contents : contents stocked = {[ (1, 1, 7) := {[ 5 := (2, [1; 2; 3]); 9 := (2, [12]) ]} ]}.
Proof. vm_compute. reflexivity. Qed.

Lemma kv_reads_refine_witness : exists it c',
  do_read (LowerBound (1, 1, 7) 6) stocked = Ok (it, c') /\ denotes c' it (At (1, 1, 7) 9).
Proof.
  destruct (kv_reads_refine (LowerBound (1, 1, 7) 6) NoTable 12 stocked stocked_inv ltac:(by vm_compute) I)
    as (it & c' & Hr & Hd & _). exists it, c'. split; [exact Hr|].
  replace (spec_read (LowerBound (1, 1, 7) 6) NoTable (contents stocked)) with (At (1, 1, 7) 9) in Hd; [exact Hd|].
  vm_compute. reflexivity.
Defined.

Lemma put_runs : exists it c', do_write env1 (Put 1 7 1 6 [8]) stocked = Ok (it, c').
Proof.
  assert (Hok : is_ok (do_write env1 (Put 1 7 1 6 [8]) stocked) = true) by (vm_compute; reflexivity).
  destruct (do_write env1 (Put 1 7 1 6 [8]) stocked) as [[it c']|]; [by exists it, c' | discriminate Hok].
Qed.

Lemma kv_writes_refine_witness : exists it c', do_write env1 (Put 1 7 1 6 [8]) stocked = Ok (it, c') /\
  denotes c' it (At (1, 1, 7) 6).
Proof.
  destruct put_runs as (it & c' & Hr). exists it, c'. split; [exact Hr|].
  destruct (kv_writes_refine env1 (Put 1 7 1 6 [8]) NoTable 12 stocked it c' stocked_inv ltac:(by vm_compute)
    ltac:(by vm_compute) Hr) as (_ & _ & Hd & _). exact Hd.
Defined.

(** ** An end iterator that outlives its table *)

(** The contract asks for the end of its table, removes the only row, and
    with it the table, and moves back from the end: the code reads the id of
    the removed table object. *)
Definition emptied : list (db_call (sk := Z)) :=
  [DbStore 1 7 1 5 [10]; DbEnd KV 1 1 7; DbRemove 0; DbPrevious KV (-2)].

(** Moving back from the end iterator of a table whose last row was removed
    follows a pointer to the removed table. *)
Theorem end_iterator_outlives_table : Forall call_ok emptied /\ calls env1 emptied fresh = Err dangling.
Proof. split; [repeat constructor; vm_compute; congruence | vm_compute; reflexivity]. Qed.
