(* ===== verification/ProducerSchedule.v ===== *)
(** * Proposed producer schedules ([controller.cpp], [wasm_interface.cpp])

    A schedule is proposed by a privileged contract, becomes pending at the
    start of a block once the block of the proposal is irreversible, and
    active once the block in which it became pending is.  The versions of the
    three stages are checked when a block starts and when a header is
    accepted: here it is shown that the checks never fail. *)

From stdpp Require Import base numbers list gmap strings relations.
From Stdlib Require Import ZArith Lia.
From S2P Require Import Prelude Boost Merkle BlockTimestamp BlockHeader BlockHeaderState BlockHeaderSpec DposRuns.
Local Open Scope Z_scope.
Section ProducerSchedule.
Context {key sig : Type} `{EqDecision key} `{crypto : HeaderCrypto key sig}.
#[local] Abbreviation producer_key := (producer_key key).
#[local] Abbreviation producer_schedule := (producer_schedule key).
#[local] Abbreviation block_header_state := (block_header_state key sig).
#[local] Abbreviation pending_block_header_state := (pending_block_header_state (key := key)).
Implicit Types (b : block_header_state) (p : pending_block_header_state).

#[global] Instance producer_key_eq_dec : EqDecision producer_key.
Proof. solve_decision. Defined.

(** The fields of [global_property_object]. *)
Record proposed := mk_proposed { proposed_schedule_block_num : option Z; proposed_schedule : producer_schedule }.

Definition no_proposal : proposed := mk_proposed None (mk_schedule 0 []).

(** [active_producers] and [pending_producers] of a block that is being built. *)
Definition active_producers p : producer_schedule := active_schedule (p_common p).
Definition pending_producers p (new_pending : option producer_schedule) : producer_schedule :=
  match new_pending with
  | Some s => s
  | None => schedule (prev_pending_schedule p)
  end.

(** [controller::set_proposed_producers]: the version of the schedule that is
    proposed, or -1. *)
Definition set_proposed_producers (disallow_empty_producer_schedule : bool) p (new_pending : option producer_schedule)
    (ps : list producer_key) (gpo : proposed) : Z * proposed :=
  let cur_block_num := block_num (p_common p) in
  if Nat.eqb (length ps) 0 && disallow_empty_producer_schedule then (-1, gpo)
  else
    let unchanged :=
      match proposed_schedule_block_num gpo with
      | Some n => negb (n =? cur_block_num) || bool_decide (ps = producers (proposed_schedule gpo))
      | None => false
      end in
    if unchanged then (-1, gpo)
    else
      let pending_sch := pending_producers p new_pending in
      let base := if Nat.eqb (length (producers pending_sch)) 0 then active_producers p else pending_sch in
      if bool_decide (ps = producers base) then (-1, gpo)
      else
        let v := u32 (version base + 1) in
        (v, mk_proposed (Some cur_block_num) (mk_schedule v ps)).

(** [privileged_api::set_proposed_producers] *)
Definition api_set_proposed_producers (is_account : Z -> bool) (valid_key : key -> bool)
    (disallow_empty_producer_schedule : bool) p (new_pending : option producer_schedule)
    (ps : list producer_key) (gpo : proposed) : result (Z * proposed) :=
  check (negb (Nat.eqb (length ps) 0) || negb disallow_empty_producer_schedule) "Producer schedule cannot be empty" ;;
  check (Z.of_nat (length ps) <=? max_producers) "Producer schedule exceeds the maximum producer count for this chain" ;;
  mfold (fun _ k =>
    check (is_account (producer_name k)) "producer schedule includes a nonexisting account" ;;
    check (valid_key (producer_block_signing_key k)) "producer schedule includes an invalid key") ps tt ;;
  check (Nat.eqb (length ps) (size (list_to_set (producer_name <$> ps) : gset Z)))
    "duplicate producer name in producer schedule" ;;
  Ok (set_proposed_producers disallow_empty_producer_schedule p new_pending ps gpo).

(** The part of [start_block] that promotes a proposal. *)
Definition promote_schedule p (gpo : proposed) : result (option producer_schedule * proposed) :=
  match proposed_schedule_block_num gpo with
  | Some n =>
    if (n <=? dpos_irreversible_blocknum (p_common p)) &&
       Nat.eqb (length (producers (schedule (prev_pending_schedule p)))) 0
    then
      check (version (proposed_schedule gpo) =? u32 (active_schedule_version p + 1))
        "wrong producer schedule version specified" ;;
      Ok (Some (proposed_schedule gpo), no_proposal)
    else Ok (None, gpo)
  | None => Ok (None, gpo)
  end.

(** ** Blocks *)

(** What contracts may do while a block is built. *)
Inductive proposing p (np : option producer_schedule) : proposed -> proposed -> Prop :=
| proposing_step is_account valid_key disallow ps gpo v gpo' :
    api_set_proposed_producers is_account valid_key disallow p np ps gpo = Ok (v, gpo') -> proposing p np gpo gpo'.

(** The states a chain comes to from its genesis. *)
Inductive schedule_reachable : block_header_state -> proposed -> Prop :=
| reach_genesis initial_producer initial_key initial_timestamp chain_id :
    schedule_reachable (genesis_header_state initial_producer initial_key initial_timestamp chain_id) no_proposal
| reach_block b gpo when conf p np gpo1 gpo2 tm am fs v b' :
    schedule_reachable b gpo -> next b when conf = Ok p -> promote_schedule p gpo = Ok (np, gpo1) ->
    rtc (proposing p np) gpo1 gpo2 -> _finish_next p (make_block_header p tm am np fs) v = Ok b' ->
    schedule_reachable b' gpo2.

(** ** Versions *)

(** The version the next proposal must go beyond. *)
Definition latest b : Z :=
  if Nat.eqb (length (producers (schedule (pending_schedule b)))) 0 then version (active_schedule (b_common b))
  else version (schedule (pending_schedule b)).

Definition proposal_follows (base : Z) (gpo : proposed) : Prop :=
  forall n, proposed_schedule_block_num gpo = Some n -> version (proposed_schedule gpo) = u32 (base + 1).

(** The same while a block is built. *)
Definition building_latest p (np : option producer_schedule) : Z :=
  if Nat.eqb (length (producers (pending_producers p np))) 0 then version (active_producers p)
  else version (pending_producers p np).

Lemma proposing_follows p np gpo gpo' : proposing p np gpo gpo' ->
  proposal_follows (building_latest p np) gpo -> proposal_follows (building_latest p np) gpo'.
Proof.
  intros [ia vk dis ps g v g' Hr] Hg. unfold api_set_proposed_producers in Hr. do 4 ok_bind Hr as [] _.
  apply (proj1 (Ok_inj _ _)) in Hr. unfold set_proposed_producers in Hr.
  destruct (_ && dis); [by injection Hr as _ <-|].
  destruct (match proposed_schedule_block_num g with Some _ => _ | None => _ end); [by injection Hr as _ <-|].
  destruct (bool_decide _); injection Hr as _ <-; [done|].
  intros n _. cbn [proposed_schedule version]. unfold building_latest. by destruct (Nat.eqb _ 0).
Qed.

Lemma rtc_proposing_follows p np gpo gpo' : rtc (proposing p np) gpo gpo' ->
  proposal_follows (building_latest p np) gpo -> proposal_follows (building_latest p np) gpo'.
Proof. induction 1 as [|x y z H1 _ IH]; [done|]. intros Hg. by eapply IH, proposing_follows. Qed.

(** What the next header state keeps of schedules. *)
Lemma next_schedules b when conf p : next b when conf = Ok p ->
  prev_pending_schedule p = pending_schedule b /\ active_schedule_version p = version (active_schedule (b_common b)) /\
  (was_pending_promoted p = true -> Nat.eqb (length (producers (schedule (pending_schedule b)))) 0 = false) /\
  active_producers p = if was_pending_promoted p then schedule (pending_schedule b) else active_schedule (b_common b).
Proof.
  intros Hp. apply next_inv in Hp as (prokey & merkle & cc & hit & _ & _ & _ & _ & _ & _ & ->). cbn. split_and!; try done.
  by destruct (Nat.eqb _ 0).
Qed.

(** A proposal that is not promoted stays one version ahead. *)
Lemma latest_kept b when conf p gpo np gpo1 : next b when conf = Ok p -> proposal_follows (latest b) gpo ->
  promote_schedule p gpo = Ok (np, gpo1) -> proposal_follows (building_latest p np) gpo1.
Proof.
  intros Hp Hg Hr. apply next_schedules in Hp as (P1 & P2 & P3 & P4). unfold promote_schedule in Hr.
  assert (np = None /\ gpo1 = gpo \/ gpo1 = no_proposal) as [[-> ->]| ->]; [| |by intros n].
  { destruct (proposed_schedule_block_num gpo); [|apply (proj1 (Ok_inj _ _)) in Hr; injection Hr as <- <-; by left].
    destruct (_ && _); [ok_bind Hr as [] _; apply (proj1 (Ok_inj _ _)) in Hr; injection Hr as <- <-; by right|].
    apply (proj1 (Ok_inj _ _)) in Hr. injection Hr as <- <-. by left. }
  intros n Hn. rewrite (Hg n Hn). f_equal. f_equal. unfold latest, building_latest, pending_producers. rewrite P1, P4.
  destruct (was_pending_promoted p) eqn:E; [by rewrite (P3 eq_refl)|done].
Qed.

(** The version when the block is finished. *)
Lemma latest_finished b when conf p np tm am fs v b' : next b when conf = Ok p ->
  _finish_next p (make_block_header p tm am np fs) v = Ok b' -> latest b' = building_latest p np.
Proof.
  intros Hp Hf. apply next_schedules in Hp as (P1 & P2 & P3 & P4). unfold _finish_next in Hf. do 6 ok_bind Hf as [] _. ok_bind Hf as exts _.
  ok_bind Hf as features _. apply (proj1 (Ok_inj _ _)) in Hf as <-. unfold latest, building_latest, active_producers. cbn.
  unfold active_producers in P4. destruct np as [s|]; cbn; [done|]. rewrite P1.
  destruct (was_pending_promoted p) eqn:E; [|done]. cbn. by rewrite (P3 eq_refl), P4.
Qed.

Lemma reachable_follows b gpo : schedule_reachable b gpo -> proposal_follows (latest b) gpo.
Proof.
  induction 1 as [|b gpo when conf p np gpo1 gpo2 tm am fs v b' _ IH Hp Hpr Hs Hf]; [by intros n|].
  rewrite (latest_finished _ _ _ _ _ _ _ _ _ _ Hp Hf). eapply rtc_proposing_follows; [exact Hs|]. by eapply latest_kept.
Qed.

(** Whatever schedules contracts propose, and whenever: in every state the
    chain can come to, the promotion of a proposal at the start of a block
    succeeds, and the header of a block that carries a new pending schedule
    passes the checks on schedules: no pending schedule is overwritten, and
    its version is the one after the active one.  A new active schedule is
    the one that was pending. (C23) *)
Theorem schedule_checks_pass b gpo when conf p :
  schedule_reachable b gpo -> next b when conf = Ok p ->
  exists np gpo', promote_schedule p gpo = Ok (np, gpo') /\
    (forall s, np = Some s -> was_pending_promoted p = false /\ producers (schedule (prev_pending_schedule p)) = [] /\
       version s = u32 (version (active_producers p) + 1)) /\
    (active_producers p = active_schedule (b_common b) \/ active_producers p = schedule (pending_schedule b)).
Proof.
  intros Hr Hp. apply reachable_follows in Hr. apply next_schedules in Hp as (P1 & P2 & P3 & P4). unfold promote_schedule.
  assert (Ha : active_producers p = active_schedule (b_common b) \/ active_producers p = schedule (pending_schedule b)).
  { destruct (was_pending_promoted p); [by right|by left]. }
  destruct (proposed_schedule_block_num gpo) as [n|] eqn:En; [|by exists None, gpo].
  destruct (_ && _) eqn:Eb; [|by exists None, gpo]. apply andb_prop in Eb as [_ Ee]. rewrite P1 in Ee.
  pose proof (Hr n En) as Hv. unfold latest in Hv. rewrite Ee in Hv. rewrite P2, Hv, Z.eqb_refl. cbn [check mbind result_bind].
  assert (Hnp : was_pending_promoted p = false) by (destruct (was_pending_promoted p); [rewrite (P3 eq_refl) in Ee|]; done).
  eexists _, _. split; [done|]. split; [|done]. intros s [= <-]. split; [done|]. rewrite P1. split.
  - apply Nat.eqb_eq in Ee. by apply length_zero_iff_nil.
  - by rewrite P4, Hnp.
Qed.
End ProducerSchedule.

(** ** A proposal on its way

    The chain of the initial producer: in block 2 a contract proposes four
    producers, and in block 3 the proposal becomes pending. *)

#[local] Existing Instance toy_crypto.

#[local] Abbreviation bhs := (block_header_state Z Z).
#[local] Abbreviation pbhs := (pending_block_header_state (key := Z)).

Definition no_pending : pbhs :=
  mk_pbhs (b_common genesis) ∅ (pending_schedule genesis) false digest_zero 0 0 0 0.
Definition next_of (b : bhs) (slot : Z) : pbhs := from_ok no_pending (next b slot 0).
Definition promoted (p : pbhs) (gpo : proposed) : option (producer_schedule Z) * proposed :=
  from_ok (None, no_proposal) (promote_schedule p gpo).
Definition proposes (p : pbhs) (np : option (producer_schedule Z)) (gpo : proposed) : Z * proposed :=
  from_ok (-1, gpo) (api_set_proposed_producers (fun _ => true) (fun _ => true) true p np (producers schedule4) gpo).
Definition finished (p : pbhs) (np : option (producer_schedule Z)) : bhs :=
  from_ok genesis (_finish_next p (make_block_header p digest_zero digest_zero np []) no_features).

(** Block 2, with the proposal. *)
Definition p2 : pbhs := next_of genesis 1.
Definition start2 : option (producer_schedule Z) * proposed := promoted p2 no_proposal.
Definition prop2 : Z * proposed := proposes p2 start2.1 start2.2.
Definition block2 : bhs := finished p2 start2.1.

(** Block 3 starts. *)
Definition p3 : pbhs := next_of block2 2.
Definition start3 : option (producer_schedule Z) * proposed := promoted p3 prop2.2.

Lemma block2_reachable : schedule_reachable block2 prop2.2.
Proof.
  eapply (reach_block genesis no_proposal 1 0 p2 start2.1 start2.2 prop2.2 digest_zero digest_zero [] no_features).
  - apply reach_genesis.
  - unfold p2, next_of. run_ok.
  - rewrite <- surjective_pairing. unfold start2, promoted. run_ok.
  - apply rtc_once. apply (proposing_step p2 start2.1 (fun _ => true) (fun _ => true) true (producers schedule4) start2.2 prop2.1 prop2.2).
    rewrite <- surjective_pairing. unfold prop2, proposes. run_ok.
  - unfold block2, finished. run_ok.
Qed.

Lemma schedule_checks_pass_witness :
  exists gpo', promote_schedule p3 prop2.2 = Ok (Some (mk_schedule 1 (producers schedule4)), gpo') /\
    producers (schedule (prev_pending_schedule p3)) = [].
Proof.
  assert (Hp : next block2 2 0 = Ok p3) by (unfold p3, next_of; run_ok).
  destruct (schedule_checks_pass block2 prop2.2 2 0 p3 block2_reachable Hp) as (np & gpo' & H1 & H2 & _).
  assert (E : start3.1 = Some (mk_schedule 1 (producers schedule4))) by compute_run.
  assert (np = start3.1) as -> by (unfold start3, promoted; rewrite H1; reflexivity). rewrite E in *.
  exists gpo'. split; [exact H1|]. destruct (H2 _ eq_refl) as (_ & Hs & _). exact Hs.
Defined.
