(* ===== verification/BlockBuilding.v ===== *)
(** * Building and executing blocks

    The parts of [start_block], [finalize_block] and [apply_block]
    (controller.cpp) around the transactions: the transaction at the start of
    a block, the authorities of the producers, the resource limits at the end
    of a block, the table of block summaries that transactions refer to, and
    the loop with which a received block is executed.  The activation of
    protocol features at the start of a block is in FeatureActivation. *)

From stdpp Require Import base numbers gmap strings countable list sorting.
From Stdlib Require Import ZArith Lia.
From S2P Require Import Prelude Boost Names Merkle BlockHeader Accumulator ResourceLimits ProtocolFeatures ChainConfig Authority AuthoritySpec Authorization AuthorizationSpec.
From S2P Require Import EosioContract ActorList TransactionContext Transactions Execution Deferred Actions Push.
Local Open Scope Z_scope.
(** ** Block summaries *)

(** [create_block_summary]; there is a row for each of the 2^16 low words. *)
Definition create_block_summary (id : digest) (summaries : gmap Z digest) : gmap Z digest :=
  <[Z.land (num_from_id id) 0xffff := id]> summaries.

(** The rows of [initialize_database]; the head is block 1. *)
Definition initial_summaries (head_id : digest) : gmap Z digest :=
  <[1 := head_id]> (list_to_map ((fun i => (Z.of_nat i, mk_digest 0 0 0 0)) <$> seq 0 (Z.to_nat 0x10000))).

(** ** The end of a block *)

(** What [finalize_block] does to the resource limits. *)
Definition finalize_resources (cfg : chain_config) (block_num : Z) (r : rdb) : result rdb :=
  r ← process_account_limit_updates r;
  r ← set_block_parameters (cpu_parameters cfg) (net_parameters cfg) r;
  process_block_usage block_num r.

Section BlockBuilding.
Context {boost : Boost} {key : Type} `{PublicKey key} {W : Type}.
#[local] Abbreviation transaction := (transaction (key := key)).
#[local] Abbreviation gto := (generated_transaction_object (key := key)).
#[local] Abbreviation xenv := (xenv (key := key) (W := W)).
#[local] Abbreviation xstate := (xstate (key := key) (W := W)).
#[local] Abbreviation adb := (adb (key := key)).
#[local] Abbreviation building := (building (key := key) (W := W)).
#[local] Abbreviation transaction_metadata := (transaction_metadata (key := key)).

(** ** The authorities of the producers *)

#[global] Instance key_weight_eq_dec : EqDecision (key_weight (key := key)).
Proof. solve_decision. Defined.
#[global] Instance level_weight_eq_dec : EqDecision permission_level_weight.
Proof. solve_decision. Defined.
#[global] Instance wait_weight_eq_dec : EqDecision wait_weight.
Proof. solve_decision. Defined.
#[global] Instance authority_eq_dec : EqDecision (authority (key := key)).
Proof. solve_decision. Defined.

(** [calculate_threshold] *)
Definition calculate_threshold (producers : list Z) (numerator denominator : Z) : Z :=
  u32 (u32 (Z.of_nat (length producers) * numerator) / denominator + 1).

Definition producers_authority (producers : list Z) (numerator denominator : Z) : authority (key := key) :=
  mk_authority (calculate_threshold producers numerator denominator) []
    (map (fun p => mk_plw (p, active_name) 1) producers) [].

(** [update_permission]; the time of the last update stays. *)
Definition update_permission (p : permission_object) (auth : authority (key := key)) (db : adb) : adb :=
  if bool_decide (po_auth p = auth) then db
  else set_perm db (mk_permission (po_id p) (po_usage_id p) (po_parent p) (po_owner p) (po_name p) (po_last_updated p) auth).

Definition update_producers_authority (producers : list Z) (db : adb) : result adb :=
  p ← get_permission db (producers_account_name, active_name);
  let db := update_permission p (producers_authority producers 2 3) db in
  p ← get_permission db (producers_account_name, majority_producers_permission_name);
  let db := update_permission p (producers_authority producers 1 2) db in
  p ← get_permission db (producers_account_name, minority_producers_permission_name);
  Ok (update_permission p (producers_authority producers 1 3) db).

(** ** The start of a block *)

(** [get_on_block_transaction]; [data] is the packed header of the head. *)
Definition get_on_block_transaction (e : xenv) (data : chars) : transaction :=
  let act := mk_action system_account_name (N_ "onblock") [(system_account_name, active_name)] (OtherData data) in
  let t := mk_transaction 0 0 0 0 0 0 [] [act] [] in
  if is_builtin_activated e ProtocolFeatures.no_duplicate_deferred_id then t
  else set_reference_block (xe_head_block_id e)
         (with_header t (u32 ((te_pending_block_time (xe_trx e) + 999999) / 1000000)) 0 0 []).

(** [fc::time_point::maximum()] *)
Definition time_point_maximum : Z := INT64_MAX.

(** The arguments with which a time that is given is billed. *)
Definition explicit_args (cpu : Z) (a : push_args) : push_args :=
  mk_args time_point_maximum cpu true (pa_leeway a) (now_start a) (now_init a) (now_end a) (now_error_init a)
    (now_error_end a) (sig_cpu_bill_pct a) (skip_recording a) (keep_session a) (tapos a).

(** The transactions at the start: the system contract is told, with all
    checks, whatever comes of it; expired transactions are forgotten; the authorities of the
    producers follow the active schedule. *)
Definition start_transactions (e : xenv) (a : push_args) (data : chars) (producers : list Z) (b : building)
    : result building :=
  let t := get_on_block_transaction e data in
  let b := match push_transaction (requiring_checks e) (explicit_args (min_transaction_cpu_usage (x_config e)) a)
                   (mk_metadata t (trx_hash e t) true 0 0 [] 0) b with
           | Ok (_, b) => b
           | Err _ => b
           end in
  let b := clear_expired_input_transactions e b in
  let x := b_x b in
  auth ← update_producers_authority producers (auth_db (x_db x));
  Ok (with_x b (set_db x (mk_chain_db (accts (x_db x)) (metas (x_db x)) (codes (x_db x)) auth (res_db (x_db x))))).

(** ** The transactions of a received block *)

(** What a receipt of a block is about: a packed transaction, or the id of a
    deferred one. *)
Inductive receipt_trx := packed_trx (m : transaction_metadata) | trx_id (id : Z).

Record block_receipt := mk_block_receipt {
  br_trx : receipt_trx; br_status : status_enum; br_cpu_usage_us : Z; br_net_usage_words : Z }.

(** The packed action for the sender of a failed transaction. *)
Variable onerror_data : gto -> chars.

Definition push_of_receipt (e : xenv) (a : push_args) (r : block_receipt) (b : building) : result (outcome * building) :=
  let a := explicit_args (br_cpu_usage_us r) a in
  match br_trx r with
  | packed_trx m => push_transaction e a m b
  | trx_id id =>
    g ← of_option (find_by_trx_id id (x_generated (b_x b))) "unknown transaction";
    push_scheduled_transaction e a g (onerror_data g) b
  end.

(** A trace with an exception. *)
Definition transaction_failed (o : outcome) : bool :=
  match o with
  | Failed _ => true
  | Retired s _ _ => bool_decide (s = hard_fail)
  end.
Definition transaction_can_fail (r : block_receipt) : bool :=
  bool_decide (br_status r = hard_fail) && match br_trx r with trx_id _ => true | packed_trx _ => false end.

Definition apply_receipt (e : xenv) (b : building) (ar : push_args * block_receipt) : result building :=
  let '(a, r) := ar in
  let num_pending_receipts := length (b_receipts b) in
  '(o, b) ← push_of_receipt e a r b;
  check (negb (transaction_failed o) || transaction_can_fail r)
    (match o with Failed msg => msg | Retired _ _ _ => "transaction failed" end) ;;
  check (Nat.ltb 0 (length (b_receipts b))) "expected a receipt" ;;
  check (Nat.eqb (length (b_receipts b)) (S num_pending_receipts)) "expected receipt was not added" ;;
  match List.last (map Some (b_receipts b)) None with
  | Some v =>
    check (bool_decide (tr_status v = br_status r) && (tr_cpu_usage_us v =? br_cpu_usage_us r) &&
           (tr_net_usage_words v =? br_net_usage_words r)) "receipt does not match" ;;
    Ok b
  | None => Err "expected a receipt"
  end.

Definition apply_receipts (e : xenv) (l : list (push_args * block_receipt)) (b : building) : result building :=
  mfold (apply_receipt e) l b.
End BlockBuilding.

(** ** Reference blocks *)

(** The table after a chain of blocks. *)
Definition summaries_after (m : gmap Z digest) (ids : list digest) : gmap Z digest :=
  foldl (fun m id => create_block_summary id m) m ids.

(** The blocks of [ids] have consecutive numbers. *)
Definition consecutive (first : Z) (ids : list digest) : Prop :=
  forall (i : nat) d, ids !! i = Some d -> num_from_id d = first + Z.of_nat i.

Lemma low_word n : Z.land n 0xffff = n mod 2 ^ 16.
Proof. change 0xffff with (Z.ones 16). by apply Z.land_ones. Qed.

Lemma summaries_kept m ids k : (forall d, d ∈ ids -> Z.land (num_from_id d) 0xffff <> k) -> summaries_after m ids !! k = m !! k.
Proof.
  revert m. induction ids as [|d ids IH]; intros m Hd; [done|]. cbn [summaries_after foldl]. fold (summaries_after (create_block_summary d m) ids).
  rewrite IH by (intros d' Hd'; by apply Hd, list_elem_of_further). unfold create_block_summary. apply lookup_insert_ne, Hd, list_elem_of_here.
Qed.

(** One of the last 2^16 blocks is found under the low word of its number. *)
Lemma summary_found first m ids i d : consecutive first ids -> ids !! i = Some d ->
  Z.of_nat (length ids - i) <= 2 ^ 16 -> summaries_after m ids !! (num_from_id d mod 2 ^ 16) = Some d.
Proof.
  intros Hc Hi Hw. pose proof (lookup_lt_Some _ _ _ Hi) as Hlt.
  rewrite <- (take_drop_middle _ _ _ Hi) at 1. unfold summaries_after. rewrite foldl_app. cbn [foldl].
  fold (summaries_after (create_block_summary d (foldl (fun m id => create_block_summary id m) m (take i ids))) (drop (S i) ids)).
  rewrite summaries_kept.
  - unfold create_block_summary. rewrite low_word. apply lookup_insert_eq.
  - intros d' [j Hj]%list_elem_of_lookup. rewrite lookup_drop in Hj. pose proof (lookup_lt_Some _ _ _ Hj).
    rewrite low_word, (Hc _ _ Hj), (Hc _ _ Hi). intros E.
    assert (Hz : (first + Z.of_nat (S i + j) - (first + Z.of_nat i)) mod 2 ^ 16 = 0).
    { rewrite Zminus_mod, E, Z.sub_diag. reflexivity. }
    replace (first + Z.of_nat (S i + j) - (first + Z.of_nat i)) with (Z.of_nat j + 1) in Hz by lia.
    rewrite Z.mod_small in Hz by lia. lia.
Qed.

Section Tapos.
Context {key : Type}.

(** A transaction that names a block, or a block of the same number modulo
    2^16 on another fork, is accepted on a chain exactly when the prefix it
    names is that of the chain's own block: for the last 2^16 blocks a
    transaction is tied to the fork it was made for. (C40) *)
Theorem reference_ties_to_fork first m ids i d d' (t : transaction (key := key)) a :
  consecutive first ids -> ids !! i = Some d -> Z.of_nat (length ids - i) <= 2 ^ 16 ->
  num_from_id d' mod 2 ^ 16 = num_from_id d mod 2 ^ 16 -> (forall n, tapos a n = summaries_after m ids !! n) ->
  validate_tapos a (set_reference_block d' t) = Ok tt <-> u32 (hash1 d') = u32 (hash1 d).
Proof.
  intros Hc Hi Hw Hn Ha. unfold validate_tapos. cbn [ref_block_num set_reference_block with_reference].
  fold (num_from_id d'). rewrite (u16_small (u16 _)) by apply u16_range. change (u16 (num_from_id d')) with (num_from_id d' mod 2 ^ 16).
  rewrite Ha, Hn, (summary_found first m ids i d Hc Hi Hw). cbn [of_option mbind result_bind].
  rewrite (check_ok _ _ tt). unfold verify_reference_block. cbn [ref_block_num ref_block_prefix set_reference_block with_reference].
  fold (num_from_id d') (num_from_id d). change (u16 ?x) with (x mod 2 ^ 16). rewrite Hn, Z.eqb_refl. cbn [andb]. apply Z.eqb_eq.
Qed.
End Tapos.

(** ** The authority of the producers *)

Section Producers.
Context {boost : Boost} {key : Type} `{PublicKey key}.
#[local] Abbreviation adb := (adb (key := key)).
#[local] Abbreviation checker := (checker (key := key)).
Implicit Types (db : adb) (c : checker).

(** How many of the producers agree. *)
Definition approvals c (levels : nat) (ps : list Z) : Z :=
  Z.of_nat (length (filter (fun p => grants c levels (MetaAccount (mk_plw (p, active_name) 1)) = true) ps)).

Lemma approvals_sum c levels ps num den :
  weight_sum (grants c levels) (factors (producers_authority ps num den)) = approvals c levels ps.
Proof.
  assert (factors (producers_authority ps num den) = map (fun p => MetaAccount (mk_plw (p, active_name) 1)) ps) as ->.
  { unfold factors, producers_authority. cbn [waits keys accounts]. apply (map_map _ MetaAccount). }
  unfold approvals. induction ps as [|p ps IH]; [done|]. cbn [map weight_sum meta_weight pw_weight]. rewrite IH, filter_cons.
  destruct (grants c levels _) eqn:E; [rewrite decide_True by done|rewrite decide_False by congruence]; cbn [length]; lia.
Qed.

Lemma threshold_reached ps num den k : 0 < den -> 0 <= num -> Z.of_nat (length ps) * num < 2 ^ 31 ->
  calculate_threshold ps num den <= k <-> Z.of_nat (length ps) * num < k * den.
Proof.
  intros Hd Hn Hs. unfold calculate_threshold. set (n := Z.of_nat (length ps) * num) in *.
  assert (0 <= n / den <= n) by (split; [apply Z.div_pos; lia|apply Z.div_le_upper_bound; nia]).
  rewrite (u32_small n), u32_small by mach_lia. pose proof (Z.div_mod n den). pose proof (Z.mod_pos_bound n den). nia.
Qed.

(** Enough of [num] of [den] parts, and more. *)
Lemma producers_authority_sat c levels ps num den : 0 < den -> 0 <= num -> Z.of_nat (length ps) * num < 2 ^ 31 ->
  sat c levels (producers_authority ps num den) = true <-> Z.of_nat (length ps) * num < approvals c levels ps * den.
Proof. intros. rewrite sat_unfold, approvals_sum, Z.leb_le. by apply threshold_reached. Qed.

Lemma get_permission_found db l p : get_permission db l = Ok p ->
  exists id, perm_index db !! l = Some id /\ perms db !! id = Some p /\ negb (l.1 =? 0) && negb (l.2 =? 0) = true.
Proof.
  unfold get_permission, find_permission. intros Hg. ok_bind Hg as o Ho. ok_bind Ho as [] Hn.
  apply (proj1 (Ok_inj _ _)) in Ho as <-. apply (proj1 (of_option_ok _ _ _)) in Hg. apply bind_Some in Hg as (id & Hi & Hp).
  exists id. by apply (proj1 (check_ok _ _ _)) in Hn.
Qed.

(** The authority of one permission changes, and nothing else. *)
Lemma update_permission_spec db l p auth : tree_ok db -> get_permission db l = Ok p ->
  let db' := update_permission p auth db in
  (exists p', get_permission db' l = Ok p' /\ po_auth p' = auth) /\
  (forall l' q, l' <> l -> get_permission db l' = Ok q -> get_permission db' l' = Ok q) /\
  (forall l' q, get_permission db' l' = Ok q -> l' <> l -> get_permission db l' = Ok q).
Proof.
  intros Ht Hg db'. pose proof (get_permission_ok _ _ _ Ht Hg) as (Hp & Ho & Hnm & Hid).
  destruct (get_permission_found _ _ _ Hg) as (id & Hix & Hpid & Hne). unfold db', update_permission.
  case_bool_decide as Ha; [split; [by exists p|by split]|].
  assert (po_id p = id) as Eid by (apply (AuthorizationSpec.tr_id _ Ht _ _ Hpid)).
  assert (Hother : forall l', l' <> l -> perm_index db !! l' <> Some id).
  { intros [o n] Hl Hi. destruct (tr_index _ Ht _ _ _ Hi) as (q & Hq & Eo & En). rewrite Hpid in Hq. injection Hq as <-.
    apply Hl. rewrite <- Eo, <- En, Ho, Hnm. by destruct l. }
  assert (Hget : forall l', l' <> l -> get_permission (set_perm db (mk_permission (po_id p) (po_usage_id p) (po_parent p)
     (po_owner p) (po_name p) (po_last_updated p) auth)) l' = get_permission db l').
  { intros l' Hl. unfold get_permission, find_permission. cbn [perms perm_index set_perm po_id]. rewrite Eid.
    destruct (perm_index db !! l') as [i|] eqn:Ei; cbn; [|done]. rewrite lookup_insert_ne; [done|]. intros <-. by apply (Hother l' Hl). }
  split; [|split; intros l' q; [intros Hl; by rewrite Hget|intros Hq Hl; by rewrite <- Hget]].
  eexists (mk_permission _ _ _ _ _ _ auth). split; [|reflexivity]. unfold get_permission, find_permission. rewrite Hne.
  cbn [check mbind result_bind]. cbn [perms perm_index set_perm po_id]. rewrite Hix. cbn. by rewrite Eid, lookup_insert_eq.
Qed.

Lemma update_permission_tree db l p auth : tree_ok db -> get_permission db l = Ok p -> tree_ok (update_permission p auth db).
Proof.
  intros Ht Hg. unfold update_permission. case_bool_decide; [done|].
  destruct (get_permission_ok _ _ _ Ht Hg) as (Hp & _). destruct Ht as [T1 T2 T3 T4 T5].
  set (p' := mk_permission _ _ _ _ _ _ _).
  assert (Hlk : forall id q, <[po_id p' := p']> (perms db) !! id = Some q ->
    exists q0, perms db !! id = Some q0 /\ po_id q = po_id q0 /\ po_parent q = po_parent q0 /\ po_owner q = po_owner q0 /\ po_name q = po_name q0).
  { intros id q [[<- <-]|[_ Hq]]%lookup_insert_Some; [by exists p|by exists q]. }
  assert (Hlk' : forall id q0, perms db !! id = Some q0 -> exists q, <[po_id p' := p']> (perms db) !! id = Some q /\
    po_id q = po_id q0 /\ po_parent q = po_parent q0 /\ po_owner q = po_owner q0 /\ po_name q = po_name q0).
  { intros id q0 Hq. destruct (decide (id = po_id p)) as [->|Hne].
    - exists p'. rewrite lookup_insert_eq. rewrite Hp in Hq. by injection Hq as <-.
    - exists q0. by rewrite lookup_insert_ne. }
  split; cbn [perms perm_index perm_next set_perm].
  - intros id q (q0 & Hq & E1 & _)%Hlk. rewrite E1. by apply T1.
  - destruct T2 as (r & Hr & R1 & R2 & R3). destruct (Hlk' _ _ Hr) as (q & Hq & _ & E2 & E3 & E4). exists q. split; [done|]. by rewrite E2, E3, E4.
  - intros id q (q0 & Hq & _ & E2 & E3 & _)%Hlk Hne. destruct (T3 _ _ Hq Hne) as (B & r & Hr & Hro). rewrite E2, E3. split; [done|].
    destruct (Hlk' _ _ Hr) as (r' & Hr' & _ & _ & F3 & _). exists r'. split; [done|]. rewrite F3. done.
  - intros o n id Hi. destruct (T4 _ _ _ Hi) as (q0 & Hq & <- & <-). destruct (Hlk' _ _ Hq) as (q & Hq' & _ & _ & E3 & E4). by exists q.
  - intros id q (q0 & Hq & _ & _ & E3 & E4)%Hlk. rewrite E3, E4. by apply T5.
Qed.

(** The three permissions are different. *)
Lemma producers_levels : (producers_account_name, majority_producers_permission_name) <> (producers_account_name, active_name) /\
  (producers_account_name, minority_producers_permission_name) <> (producers_account_name, active_name) /\
  (producers_account_name, minority_producers_permission_name) <> (producers_account_name, majority_producers_permission_name).
Proof. split_and!; intros E; injection E as E; revert E; vm_compute; discriminate. Qed.

(** At the start of every block the permissions of eosio.prods follow the
    active schedule: active needs more than two thirds of the producers,
    prod.major more than one half, prod.minor more than one third; however the
    producers grant their own permission. *)
Theorem producers_decide c levels ps db db' :
  tree_ok db -> update_producers_authority ps db = Ok db' -> Z.of_nat (length ps) <= 2 ^ 29 ->
  tree_ok db' /\
  (exists p, get_permission db' (producers_account_name, active_name) = Ok p /\
     (sat c levels (po_auth p) = true <-> 2 * Z.of_nat (length ps) < 3 * approvals c levels ps)) /\
  (exists p, get_permission db' (producers_account_name, majority_producers_permission_name) = Ok p /\
     (sat c levels (po_auth p) = true <-> Z.of_nat (length ps) < 2 * approvals c levels ps)) /\
  (exists p, get_permission db' (producers_account_name, minority_producers_permission_name) = Ok p /\
     (sat c levels (po_auth p) = true <-> Z.of_nat (length ps) < 3 * approvals c levels ps)).
Proof.
  intros Ht Hr Hn. unfold update_producers_authority in Hr. destruct producers_levels as (L1 & L2 & L3).
  ok_bind Hr as p1 H1. destruct (update_permission_spec _ _ _ (producers_authority ps 2 3) Ht H1) as ((q1 & G1 & A1) & K1 & _).
  pose proof (update_permission_tree _ _ _ (producers_authority ps 2 3) Ht H1) as T1.
  ok_bind Hr as p2 H2. destruct (update_permission_spec _ _ _ (producers_authority ps 1 2) T1 H2) as ((q2 & G2 & A2) & K2 & _).
  pose proof (update_permission_tree _ _ _ (producers_authority ps 1 2) T1 H2) as T2.
  ok_bind Hr as p3 H3. destruct (update_permission_spec _ _ _ (producers_authority ps 1 3) T2 H3) as ((q3 & G3 & A3) & K3 & _).
  pose proof (update_permission_tree _ _ _ (producers_authority ps 1 3) T2 H3) as T3.
  apply (proj1 (Ok_inj _ _)) in Hr as <-. split; [done|]. split_and!.
  - exists q1. split; [apply K3, K2; done|]. rewrite A1, producers_authority_sat by lia. lia.
  - exists q2. split; [by apply K3|]. rewrite A2, producers_authority_sat by lia. lia.
  - exists q3. split; [done|]. rewrite A3, producers_authority_sat by lia. lia.
Qed.
End Producers.
