(* ===== verification/Replay.v ===== *)
(** * Validators follow the producer

    What a producer checks on top of the rules of the chain (its lists, its
    deadlines, its restrictions on contracts) can only make it refuse.  Here:
    whatever execution does on the node of a producer, it does on the node of
    a validator.  The statement is a relation between two runs, which is
    compatible with every construct the code is built from. *)

From stdpp Require Import base numbers gmap strings countable list sorting.
From Stdlib Require Import ZArith Lia.
From S2P Require Import Prelude Boost Names Merkle Accumulator ResourceLimits ProtocolFeatures ChainConfig Authority Authorization.
From S2P Require Import EosioContract EosioContractSpec ActorList TransactionContext Transactions Execution Deferred Actions.
Local Open Scope Z_scope.

(** ** Success carries over *)

Definition refines {A} (m m' : result A) : Prop := forall r, m = Ok r -> m' = Ok r.

#[export] Instance refines_preorder A : PreOrder (refines (A := A)).
Proof. split; [by intros m r|]. intros m1 m2 m3 H1 H2 r Hr. by apply H2, H1. Qed.

Section Constructs.
Context {A B : Type}.

Lemma refines_bind (m m' : result A) (f g : A -> result B) :
  refines m m' -> (forall a, m = Ok a -> refines (f a) (g a)) -> refines (m ≫= f) (m' ≫= g).
Proof. intros Hm Hf r Hr. apply bind_ok in Hr as (a & Ha & Hr). rewrite (Hm a Ha). by apply (Hf a Ha). Qed.

Lemma refines_check b b' msg msg' : (b = true -> b' = true) -> refines (check b msg) (check b' msg').
Proof. intros Hb r Hr. apply (proj1 (check_ok _ _ _)) in Hr. destruct r. by rewrite (Hb Hr). Qed.

(** A condition that only the stronger side checks. *)
Lemma refines_unless (b : bool) (m : result unit) : refines (if b then m else Ok tt) (Ok tt).
Proof. intros []. by destruct b. Qed.
End Constructs.

Lemma refines_mfold {A B} (f g : A -> B -> result A) l s : (forall s a, refines (f s a) (g s a)) -> refines (mfold f l s) (mfold g l s).
Proof.
  intros Hf. revert s. induction l as [|a l IH]; intros s; [done|]. apply refines_bind; [apply Hf|]. intros s' _. apply IH.
Qed.

Section Replay.
Context {boost : Boost} {key : Type} `{PublicKey key} {W : Type}.
#[local] Abbreviation chain_action := (chain_action (key := key)).
#[local] Abbreviation transaction := (transaction (key := key)).
#[local] Abbreviation xenv := (xenv (key := key) (W := W)).
#[local] Abbreviation xstate := (xstate (key := key) (W := W)).
#[local] Abbreviation actx := (actx (key := key)).
#[local] Abbreviation program := (program (key := key) (W := W)).
Implicit Types (e : xenv) (x : xstate) (c : actx) (t : transaction).

(** [e'] is a node that does not produce, in the same block of the same chain,
    running the same code; it may skip checks that [e] makes. *)
Record follows e e' : Prop := {
  f_config : te_cfg (xe_trx e') = te_cfg (xe_trx e);
  f_biller : only_bill_first_authorizer_active (xe_trx e') = only_bill_first_authorizer_active (xe_trx e);
  f_time : te_pending_block_time (xe_trx e') = te_pending_block_time (xe_trx e);
  f_slot : te_block_slot (xe_trx e') = te_block_slot (xe_trx e);
  f_producing : producing e' = false;
  f_checks : skip_trx_checks (xe_trx e) = true -> skip_trx_checks (xe_trx e') = true;
  f_auth : skip_auth_check e = true -> skip_auth_check e' = true;
  f_notify : ram_billing_in_notify_allowed e = true -> ram_billing_in_notify_allowed e' = true;
  f_features : forall f, is_builtin_activated e' f = is_builtin_activated e f;
  f_published : xe_published e' = xe_published e; f_id : xe_id e' = xe_id e;
  f_head : xe_head_block_id e' = xe_head_block_id e; f_contract : contract e' = contract e;
  f_unpack : unpack_native e' = unpack_native e; f_digest : action_digest e' = action_digest e;
  f_hash : trx_hash e' = trx_hash e; f_size : trx_pack_size e' = trx_pack_size e;
  f_native : forall auths, xe_native_context e' auths =
    let cx := xe_native_context e auths in
    mk_context (ctx_auths cx) (pending_block_time cx) (head_block_num cx) (ctx_max_transaction_delay cx)
      (only_link_to_existing_permission cx) None (sha256 cx) (wasm_validate cx) (key_pack_size cx) }.

Context (e e' : xenv) (F : follows e e').

Lemma follows_config : x_config e' = x_config e.
Proof. exact (f_config _ _ F). Qed.
Lemma follows_control x : auth_control e' x = auth_control e x.
Proof. unfold auth_control. by rewrite follows_config, (f_features _ _ F). Qed.
Lemma follows_billed (g : generated_transaction_object (key := key)) : billed_bytes e' g = billed_bytes e g.
Proof. unfold billed_bytes, packed_size. by rewrite (f_size _ _ F). Qed.
Lemma follows_header sender_id receiver t : generated_header e' sender_id receiver t = generated_header e sender_id receiver t.
Proof. unfold generated_header. by rewrite (f_features _ _ F), (f_id _ _ F), (f_head _ _ F), (f_time _ _ F). Qed.
Lemma follows_generated id sender sender_id payer t :
  new_generated e' id sender sender_id payer t = new_generated e id sender sender_id payer t.
Proof. unfold new_generated. by rewrite (f_time _ _ F), follows_config. Qed.

(** Conditions under which only producers check. *)
Lemma producers_only (b b' : bool) (m m' : result unit) :
  refines (if b && producing e then m else Ok tt) (if b' && producing e' then m' else Ok tt).
Proof. rewrite (f_producing _ _ F), andb_false_r. apply refines_unless. Qed.

(** Checks of authority may be skipped by validators only. *)
Lemma auth_checks (p : bool) (m m' : result unit) : refines m m' ->
  refines (if negb (skip_auth_check e) && p then m else Ok tt) (if negb (skip_auth_check e') && p then m' else Ok tt).
Proof.
  intros Hm [] Hr. destruct (skip_auth_check e) eqn:E; [by rewrite (f_auth _ _ F E)|].
  destruct (skip_auth_check e'), p; try done. by apply Hm.
Qed.

Lemma follows_net u (n : net_state) : refines (add_net_usage (xe_trx e) u n) (add_net_usage (xe_trx e') u n).
Proof.
  apply refines_bind; [|done]. unfold check_net_usage. intros r Hr. destruct (skip_trx_checks (xe_trx e)) eqn:E.
  - by rewrite (f_checks _ _ F E).
  - destruct (skip_trx_checks (xe_trx e')); [by destruct r|done].
Qed.

Lemma follows_lists c : refines (check_lists e c) (check_lists e' c).
Proof. apply producers_only. Qed.

Lemma follows_db_usage payer delta c x : refines (x_update_db_usage e payer delta c x) (x_update_db_usage e' payer delta c x).
Proof.
  apply refines_bind; [|done]. rewrite (f_features _ _ F). destruct (_ && _); [|done]. apply refines_bind; [|done].
  apply refines_check. rewrite !orb_true_iff. intros [E|E]; [left; exact (f_notify _ _ F E)|by right].
Qed.

(** ** Authorization failures of actions to oneself *)

Lemma follows_bypass to_self (r r' : result unit) :
  (is_builtin_activated e ProtocolFeatures.restrict_action_to_self || negb to_self = true -> refines r r') ->
  refines (self_bypass e to_self r) (self_bypass e' to_self r').
Proof.
  intros Hr u Hu. unfold self_bypass in *. rewrite (f_features _ _ F), (f_producing _ _ F).
  destruct (_ || _) eqn:E; [|by destruct r', u]. destruct r as [[]|]; [|done]. by rewrite (Hr eq_refl tt eq_refl).
Qed.

Lemma follows_inherited a c :
  is_builtin_activated e ProtocolFeatures.restrict_action_to_self || negb (act_account a =? a_receiver c) = true ->
  inherited_authorizations e' a c = inherited_authorizations e a c.
Proof.
  intros E. unfold inherited_authorizations. rewrite (f_features _ _ F), (f_producing _ _ F), andb_false_r.
  destruct (is_builtin_activated e _); [done|]. cbn in E |- *. by destruct (act_account a =? a_receiver c).
Qed.

Lemma follows_inline a c x : refines (execute_inline e a c x) (execute_inline e' a c x).
Proof.
  unfold execute_inline. do 2 (apply refines_bind; [done|intros _ _]). apply refines_bind; [apply producers_only|intros _ _].
  apply refines_bind; [|done]. apply auth_checks, follows_bypass. intros E.
  by rewrite follows_control, (f_time _ _ F), (f_published _ _ F), (follows_inherited a c E).
Qed.

(** ** Deferred transactions *)

Lemma follows_referenced t b b' x : refines (validate_referenced_accounts e t (b && producing e) x)
  (validate_referenced_accounts e' t (b' && producing e') x).
Proof.
  unfold validate_referenced_accounts. do 3 (apply refines_bind; [done|intros _ _]). apply producers_only.
Qed.

Lemma follows_deferred_auth payer t c x :
  refines (check_deferred_authorization e payer t c x) (check_deferred_authorization e' payer t c x).
Proof.
  apply auth_checks. rewrite (f_features _ _ F). apply refines_bind; [done|intros _ _]. apply follows_bypass. intros _.
  by rewrite follows_control.
Qed.

Lemma follows_store sender_id payer t replace c x :
  refines (store_generated e sender_id payer t replace c x) (store_generated e' sender_id payer t replace c x).
Proof.
  unfold store_generated. rewrite (f_hash _ _ F), (f_features _ _ F), (f_producing _ _ F). destruct (find_by_sender_id _ _ _) as [g|].
  - rewrite follows_billed. apply refines_bind; [done|intros _ _]. apply refines_bind; [|intros _ _].
    { apply refines_check. intros _. cbn [negb]. by rewrite orb_true_r. }
    apply refines_bind; [done|]. intros [d y] _. by rewrite follows_generated.
  - by rewrite follows_generated.
Qed.

Lemma follows_schedule sender_id payer t replace c x :
  refines (schedule_deferred_transaction e sender_id payer t replace c x)
          (schedule_deferred_transaction e' sender_id payer t replace c x).
Proof.
  unfold schedule_deferred_transaction. apply refines_bind; [done|intros _ _]. apply refines_bind; [|intros _ _].
  { rewrite <- !andb_assoc, !(andb_comm (producing _)), !andb_assoc. apply follows_referenced. }
  rewrite follows_header, follows_config. apply refines_bind; [done|intros t' _]. apply refines_bind; [apply follows_net|intros n _].
  apply refines_bind; [apply follows_deferred_auth|intros _ _]. apply refines_bind; [apply follows_store|]. intros [[g d] y] _.
  rewrite (f_features _ _ F), follows_billed. apply refines_bind; [|done]. apply refines_check. rewrite !orb_true_iff.
  intros [[[[E|E]|E]|E]|E]; eauto 6 using f_notify.
Qed.

Lemma follows_cancel sender_id sender c x :
  cancel_deferred_transaction e' sender_id sender c x = cancel_deferred_transaction e sender_id sender c x.
Proof. unfold cancel_deferred_transaction. destruct (find_by_sender_id _ _ _); [by rewrite follows_billed|done]. Qed.

Lemma follows_delayed t delay x : refines (schedule_transaction e t delay x) (schedule_transaction e' t delay x).
Proof.
  unfold schedule_transaction. rewrite follows_config, (f_id _ _ F), (f_time _ _ F). apply refines_bind.
  { destruct (_ =? 0); [|done]. apply refines_bind; [apply follows_net|done]. }
  intros y _. apply refines_bind; [done|intros l _]. by rewrite follows_billed.
Qed.

(** ** Actions *)

(** What follows a step that both nodes take. *)
Lemma follows_next (m m' : result (actx * xstate)) p : refines m m' -> (forall c x, refines (run e p c x) (run e' p c x)) ->
  refines ('(c, x) ← m; run e p c x) ('(c, x) ← m'; run e' p c x).
Proof. intros Hm Hp. apply refines_bind; [done|]. intros [c x] _. apply Hp. Qed.

Lemma follows_run p c x : refines (run e p c x) (run e' p c x).
Proof.
  revert c x. induction p as [|msg|f k IH|r p IH|a p IH|a q p IH|a k IH|a k IH|k IH|n a p IH|n a p IH|i q t b p IH|i k IH|q n p IH
    |a r n m p IH|a b p IH]; intros c x; cbn [run]; [done|done|apply refines_bind; [done|intros _ _]..];
    rewrite ?follows_config, ?follows_cancel.
  - apply IH.
  - by apply follows_next.
  - apply refines_bind; [done|intros _ _; apply IH].
  - apply refines_bind; [done|intros _ _; apply IH].
  - apply IH.
  - apply IH.
  - apply refines_bind; [done|intros s _; apply IH].
  - apply refines_bind; [done|intros _ _]. by apply follows_next; [apply follows_inline|].
  - apply refines_bind; [done|intros _ _]. by apply follows_next.
  - by apply follows_next; [apply follows_schedule|].
  - apply refines_bind; [done|]. intros [[b d] y] _. apply IH.
  - by apply follows_next; [apply follows_db_usage|].
  - by apply follows_next.
  - by apply follows_next.
Qed.

(** ** Native handlers *)

Lemma follows_native auths n db :
  refines (native_apply (xe_native_context e auths) n db) (native_apply (xe_native_context e' auths) n db).
Proof.
  rewrite (f_native _ _ F). set (cx := xe_native_context e auths). cbn zeta.
  assert (forall db a, refines (validate_authority_precondition cx db a)
    (validate_authority_precondition (mk_context (ctx_auths cx) (pending_block_time cx) (head_block_num cx)
       (ctx_max_transaction_delay cx) (only_link_to_existing_permission cx) None (sha256 cx) (wasm_validate cx)
       (key_pack_size cx)) db a)) as Hpre.
  { intros db1 a. apply refines_bind; [done|intros [] _]. cbn [check_key_list]. by intros []. }
  destruct n as [a|a|a|a|a|a|a]; cbn [native_apply]; [|done|done| |done..].
  - unfold apply_eosio_newaccount. do 5 (apply refines_bind; [done|intros _ _]). apply refines_bind; [done|intros m _].
    do 3 (apply refines_bind; [done|intros _ _]). do 2 (apply refines_bind; [apply Hpre|intros _ _]). done.
  - unfold apply_eosio_updateauth. do 4 (apply refines_bind; [done|intros _ _]). apply refines_bind; [done|intros o _].
    do 4 (apply refines_bind; [done|intros _ _]). apply refines_bind; [apply Hpre|done].
Qed.

Lemma follows_apply_native c x : refines (apply_native e c x) (apply_native e' c x).
Proof.
  unfold apply_native. destruct (_ =? _).
  - destruct (act_data _); try done. unfold apply_eosio_canceldelay. by rewrite follows_cancel.
  - rewrite (f_unpack _ _ F). apply refines_bind; [done|intros n _]. apply refines_bind; [apply follows_native|done].
Qed.

(** ** Whole transactions *)

Lemma follows_apply c x : refines (apply_action e c x) (apply_action e' c x).
Proof.
  unfold apply_action. apply refines_bind; [done|intros m _]. apply refines_bind.
  { destruct (is_native_action _ _ _); [|done]. apply refines_bind; [apply follows_lists|intros _ _; apply follows_apply_native]. }
  intros [d y] _. apply refines_bind; [done|intros m1 _]. unfold runs_code, check_ram_deltas. rewrite !(f_features _ _ F), (f_contract _ _ F).
  apply refines_bind; [|done]. destruct (_ && _); [|done]. apply refines_bind; [apply follows_lists|intros _ _; apply follows_run].
Qed.

Lemma follows_one c x : refines (exec_one e c x) (exec_one e' c x).
Proof.
  apply refines_bind; [apply follows_apply|]. intros [d y] _. unfold make_receipt. by rewrite (f_digest _ _ F).
Qed.

Lemma follows_notified fuel i c x : refines (exec_notified fuel e i c x) (exec_notified fuel e' i c x).
Proof.
  revert i c x. induction fuel as [|fuel IH]; intros i c x; cbn [exec_notified]; destruct (_ !! _) as [[r o]|]; try done.
  apply refines_bind; [apply follows_one|]. intros [d y] _. apply IH.
Qed.

Lemma follows_action levels o x : refines (execute_action levels e o x) (execute_action levels e' o x).
Proof.
  revert o x. induction levels as [|levels IH]; intros o x; cbn [execute_action];
    (apply refines_bind; [done|intros c _]; apply refines_bind; [apply follows_one|]; intros [d y] _;
     apply refines_bind; [apply follows_notified|]; intros [d1 y1] _; destruct (_ ++ _) as [|s sent]; try done).
  apply refines_mfold. intros z o1. apply IH.
Qed.

Lemma follows_exec t apply_context_free delay x :
  refines (exec_transaction e t apply_context_free delay x) (exec_transaction e' t apply_context_free delay x).
Proof.
  unfold exec_transaction. rewrite follows_config. apply refines_bind; [apply refines_mfold; intros; apply follows_action|].
  intros y _. destruct (_ =? 0); [done|apply follows_delayed].
Qed.
End Replay.
