(* ===== verification/ReplayBlocks.v ===== *)
(** * Produced blocks are accepted

    A transaction that a producer took into its block, with the time it
    measured, is taken by a validator that bills the time of the receipt: with
    the same receipt and the same state.  So a block whose transactions a
    producer executed is executed by every validator. *)

From stdpp Require Import base numbers gmap strings countable list sorting relations.
From Stdlib Require Import ZArith Lia.
From S2P Require Import Prelude Boost Names Accumulator ResourceLimits Authority AuthoritySpec Authorization AuthorizationSpec EosioContract.
From S2P Require Import EosioContractSpec Merkle BlockHeader ProtocolFeatures ChainConfig ActorList TransactionContext TransactionContextSpec Transactions.
From S2P Require Import Execution Deferred Actions Push PushSpec ExecutionRuns BlockBuilding Replay.
Local Open Scope Z_scope.
Section ReplayPush.
Context {boost : Boost} {key : Type} `{PublicKey key} {W : Type}.
#[local] Abbreviation transaction := (transaction (key := key)).
#[local] Abbreviation xenv := (xenv (key := key) (W := W)).
#[local] Abbreviation xstate := (xstate (key := key) (W := W)).
#[local] Abbreviation tcontext := (transaction_context (key := key)).
#[local] Abbreviation building := (building (key := key) (W := W)).
Implicit Types (e : xenv) (x y : xstate) (c : tcontext) (t : transaction) (b : building).

(** The producer puts no account on its grey list. *)
Definition ungreylisted e : Prop :=
  forall a, account_greylist_limit (xe_trx e) false a = maximum_elastic_resource_multiplier.

(** Contexts that differ only in how time is kept. *)
Record twin c c' : Prop := {
  tw_trx : tc_trx c' = tc_trx c; tw_net : tc_net c' = tc_net c; tw_bill : bill_to_accounts c' = bill_to_accounts c;
  tw_ram : tc_validate_ram c' = tc_validate_ram c; tw_init : is_initialized c' = is_initialized c;
  tw_input : is_input c' = is_input c; tw_res : tc_res c' = tc_res c; tw_auth : tc_auth c' = tc_auth c;
  tw_cpu : objective_duration_limit (tc_cpu c') = objective_duration_limit (tc_cpu c) }.

#[local] Abbreviation billed c := (billed_cpu_time_us (tc_cpu c)).

Lemma pair_if {A B} (q : bool) (a1 a2 : A) (b1 b2 : B) :
  (if q then (a1, b1) else (a2, b2)) = (if q then a1 else a2, if q then b1 else b2).
Proof. by destruct q. Qed.

Section Follow.
Context (e e' : xenv) (F : follows e e') (G : ungreylisted e).

Lemma follows_bandwidth accounts db : max_bandwidth_billed_accounts_can_pay (xe_trx e') false accounts db =
  max_bandwidth_billed_accounts_can_pay (xe_trx e) false accounts db.
Proof.
  unfold max_bandwidth_billed_accounts_can_pay. generalize (mk_bandwidth large_number_no_overflow large_number_no_overflow false false).
  induction accounts as [|a l IH]; intros bw; cbn [mfold]; [done|].
  assert (account_bandwidth (xe_trx e') false db bw a = account_bandwidth (xe_trx e) false db bw a) as ->.
  { unfold account_bandwidth. rewrite (G a). unfold account_greylist_limit. pose proof (f_producing _ _ F) as Hp.
    unfold producing in Hp. by rewrite Hp. }
  destruct (account_bandwidth _ _ _ _ _) as [bw'|]; [|done]. apply IH.
Qed.

Lemma follows_accounts t : accounts_to_bill (xe_trx e') t = accounts_to_bill (xe_trx e) t.
Proof. unfold accounts_to_bill. by rewrite (f_biller _ _ F). Qed.

Lemma follows_usage_recorded c c' : twin c c' ->
  record_permission_usage (xe_trx e') c' = record_permission_usage (xe_trx e) c.
Proof. intros []. unfold record_permission_usage. by rewrite (f_time _ _ F), tw_input0, tw_trx0, tw_auth0. Qed.

Lemma follows_init now now' u c c' c1 :
  explicit_billed_cpu_time (xe_trx e') = true -> twin c c' -> timer_expired (tc_cpu c') = false ->
  init_context (xe_trx e) now u c = Ok c1 -> billed c' <= objective_duration_limit (tc_cpu c1) ->
  exists c1', init_context (xe_trx e') now' u c' = Ok c1' /\ twin c1 c1' /\ billed c1' = billed c'.
Proof.
  intros Hx [T1 T2 T3 T4 T5 T6 T7 T8 T9] Ht Hr Hb. unfold init_context in *. rewrite T1, T2, T4, T5, T6, T7, T8, (f_config _ _ F), Hx.
  ok_bind Hr as [] Hi. rewrite Hi. ok_bind Hr as bn Hbn. ok_bind Hr as bc Hbc. rewrite Hbn, Hbc. cbn [mbind result_bind].
  destruct (initial_net_limit _ _ bn) as [l due]. destruct (initial_cpu_limit _ _ bc) as [obj code].
  ok_bind Hr as [] _. ok_bind Hr as res Hres. ok_bind Hr as bw Hbw.
  destruct (if Z.min l _ <? l then _ else _) as [eager due'] eqn:Ee.
  destruct (if account_cpu_limit bw + te_leeway (xe_trx e) <=? obj then _ else _) as [d code'].
  destruct (if explicit_billed_cpu_time (xe_trx e) || _ then _ else _) as [d' dcode].
  ok_bind Hr as n Hn. ok_bind Hr as [] _. apply (proj1 (Ok_inj _ _)) in Hr as <-. cbn [tc_cpu objective_duration_limit] in Hb.
  assert (refines (if u >? 0 then add_net_usage (xe_trx e) u (mk_net l due' (greylisted_net bw) (eager / 8 * 8) (ts_net_usage (tc_net c)))
      else Ok (mk_net l due' (greylisted_net bw) (eager / 8 * 8) (ts_net_usage (tc_net c))))
    (if u >? 0 then add_net_usage (xe_trx e') u (mk_net l due' (greylisted_net bw) (eager / 8 * 8) (ts_net_usage (tc_net c)))
      else Ok (mk_net l due' (greylisted_net bw) (eager / 8 * 8) (ts_net_usage (tc_net c))))) as Hnet.
  { destruct (u >? 0); [by apply follows_net|done]. }
  assert ((if billed c' >? 0 then validate_cpu_usage_to_bill (xe_trx e') (billed c') false
      (mk_cpu obj code false (te_start (xe_trx e') + obj) block_cpu_usage_exceeded 0 (pseudo_start (tc_cpu c'))
         (billed_time (tc_cpu c')) (timer_expired (tc_cpu c')) (billed c')) else Ok tt) = Ok tt) as ->.
  { destruct (billed c' >? 0); [|done]. unfold validate_cpu_usage_to_bill. destruct (skip_trx_checks _); [done|].
    cbn [objective_duration_limit mbind result_bind]. apply check_ok. lia. }
  cbn [mbind result_bind]. rewrite follows_accounts, (f_slot _ _ F), Hres. cbn [mbind result_bind]. rewrite follows_bandwidth, Hbw.
  cbn [mbind result_bind]. rewrite Ee.
  destruct (if account_cpu_limit bw + te_leeway (xe_trx e') <=? obj then _ else _) as [dv codev]. cbn [orb].
  rewrite (Hnet n Hn). unfold checktime. cbn [timer_expired mbind result_bind]. rewrite Ht. cbn [negb].
  eexists. split; [reflexivity|]. split; [|done]. by split.
Qed.

Lemma explicit_time (te : trx_env) now (x : cpu_state) : explicit_billed_cpu_time te = true -> update_billed_cpu_time te now x = x.
Proof. unfold update_billed_cpu_time. by intros ->. Qed.

Lemma follows_settle now now' c c' c1 :
  explicit_billed_cpu_time (xe_trx e') = true -> skip_trx_checks (xe_trx e) = false -> twin c c' ->
  settle (xe_trx e) now c = Ok c1 -> billed c' = billed c1 ->
  exists c1', settle (xe_trx e') now' c' = Ok c1' /\ twin c1 c1' /\ billed c1' = billed c1.
Proof.
  intros Hx Hs T Hr Hb. pose proof (follows_usage_recorded _ _ T) as Hrec. destruct T as [T1 T2 T3 T4 T5 T6 T7 T8 T9].
  unfold settle in *. rewrite T1, T2, T3, T4, T5, T6, T7, T9. ok_bind Hr as [] Hi. rewrite Hi. ok_bind Hr as auth Ha.
  rewrite Hrec, Ha. ok_bind Hr as [] Hv. cbn [mbind result_bind]. rewrite Hv. ok_bind Hr as bw Hbw. cbn [mbind result_bind].
  rewrite follows_bandwidth, Hbw. cbn [mbind result_bind].
  destruct (if u64 (account_net_limit bw) <=? net_limit (tc_net c) then _ else _) as [l due].
  rewrite pair_if in Hr |- *. set (obj := if account_cpu_limit bw <=? _ then _ else objective_duration_limit _) in Hr |- *.
  ok_bind Hr as [] Hnet. ok_bind Hr as [] Hcpu. apply (proj1 (Ok_inj _ _)) in Hr as <-. cbn [tc_cpu] in Hb.
  assert (forall u, check_net_usage (xe_trx e) u = Ok tt -> check_net_usage (xe_trx e') u = Ok tt) as Hn.
  { intros u. unfold check_net_usage. rewrite Hs. by destruct (skip_trx_checks (xe_trx e')). }
  rewrite (Hn _ Hnet). cbn [mbind result_bind].
  cbv zeta. rewrite !(explicit_time (xe_trx e') now' _ Hx). cbn [billed_cpu_time_us]. rewrite Hb.
  assert (forall x : cpu_state, objective_duration_limit (update_billed_cpu_time (xe_trx e) now x) = objective_duration_limit x) as Ho.
  { intros x. unfold update_billed_cpu_time. by destruct (explicit_billed_cpu_time (xe_trx e)). }
  unfold validate_cpu_usage_to_bill in *. rewrite Hs, Ho in Hcpu. cbn [objective_duration_limit] in Hcpu |- *. rewrite (f_config _ _ F).
  ok_bind Hcpu as [] Hmin. apply (proj1 (check_ok _ _ _)) in Hmin. apply (proj1 (check_ok _ _ _)) in Hcpu.
  destruct (skip_trx_checks (xe_trx e')).
  - eexists. split; [reflexivity|]. split; [split|]; try done. cbn. by rewrite Ho.
  - rewrite Hmin. cbn [check mbind result_bind]. rewrite Hcpu. cbn [check mbind result_bind].
    eexists. split; [reflexivity|]. split; [split|]; try done. cbn. by rewrite Ho.
Qed.

(** ** Execution and billing *)

Lemma follows_finalize a a' t cf delay c c' x c1 y :
  explicit_billed_cpu_time (xe_trx e') = true -> skip_trx_checks (xe_trx e) = false -> twin c c' ->
  exec_and_finalize e a t cf delay c x = Ok (c1, y) -> billed c' = billed c1 ->
  exists c1', exec_and_finalize e' a' t cf delay c' x = Ok (c1', y) /\ tc_net c1' = tc_net c1 /\ billed c1' = billed c1.
Proof.
  intros Hx Hs T Hr Hb. unfold exec_and_finalize, finalize in *. ok_bind Hr as z Hz. ok_bind Hr as c2 Hf.
  apply (proj1 (Ok_inj _ _)) in Hr. injection Hr as -> <-. ok_bind Hf as c3 Hset. ok_bind Hf as res Hch.
  apply (proj1 (Ok_inj _ _)) in Hf as <-. rewrite (follows_exec e e' F _ _ _ _ _ Hz). cbn [mbind result_bind].
  destruct (follows_settle (now_end a) (now_end a') (unload c z) (unload c' z) c3 Hx Hs) as (c3' & Hset' & T3 & Hb'); [|done|done|].
  { destruct T. by split. }
  rewrite Hset'. cbn [mbind result_bind]. unfold charge in *. destruct T3.
  rewrite tw_bill0, tw_net0, tw_res0, Hb', (f_slot _ _ F), Hch. cbn [mbind result_bind].
  eexists. split; [unfold store; cbn; by rewrite tw_auth0|]. by split.
Qed.

Lemma load_twin c c' x : twin c c' -> load c' x = load c x.
Proof. intros []. unfold load. by rewrite tw_net0, tw_ram0, tw_res0, tw_auth0. Qed.

(** What was billed fits the limits of the beginning, and 32 bits. *)
Lemma finalized_bound a t cf delay now u c0 c x c1 y :
  skip_trx_checks (xe_trx e) = false -> is_u32 (max_transaction_cpu_usage (x_config e)) ->
  0 <= min_transaction_cpu_usage (x_config e) -> init_context (xe_trx e) now u c0 = Ok c ->
  exec_and_finalize e a t cf delay c x = Ok (c1, y) ->
  billed c1 <= objective_duration_limit (tc_cpu c) /\ u32 (billed c1) = billed c1.
Proof.
  intros Hs Hm Hmin Hi Hr. unfold exec_and_finalize, finalize in Hr. ok_bind Hr as z Hz. ok_bind Hr as c2 Hf.
  apply (proj1 (Ok_inj _ _)) in Hr. injection Hr as -> _. ok_bind Hf as c3 Hset. ok_bind Hf as res _.
  apply (proj1 (Ok_inj _ _)) in Hf as <-. cbn [tc_cpu with_res].
  destruct (settle_inv _ _ _ _ Hset Hs) as (bw & _ & _ & _ & _ & _ & _ & L1 & _ & L2). cbn [tc_cpu unload] in L1. split; [done|].
  assert (objective_duration_limit (tc_cpu c) <= max_transaction_cpu_usage (x_config e)) as L3.
  { unfold init_context in Hi. ok_bind Hi as [] _. ok_bind Hi as bn _. ok_bind Hi as bc _.
    destruct (initial_net_limit _ _ bn) as [l due]. destruct (initial_cpu_limit _ _ bc) as [obj code] eqn:Eo.
    ok_bind Hi as [] _. ok_bind Hi as r _. ok_bind Hi as bw1 _. destruct (if Z.min l _ <? l then _ else _) as [eager due'].
    destruct (if account_cpu_limit bw1 + _ <=? obj then _ else _) as [d code'].
    destruct (if explicit_billed_cpu_time _ || _ then _ else _) as [d' dcode].
    ok_bind Hi as n _. ok_bind Hi as [] _. apply (proj1 (Ok_inj _ _)) in Hi as <-. cbn.
    by apply initial_cpu_limit_spec in Eo as (_ & ? & _). }
  change (te_cfg (xe_trx e)) with (x_config e) in L2. apply u32_small. mach_lia.
Qed.

(** From the constructor to the end: [go] is what is checked in between. *)
Lemma follows_billing a a' t cf delay now now' u input bill x c c1 y :
  explicit_billed_cpu_time (xe_trx e') = true -> skip_trx_checks (xe_trx e) = false ->
  is_u32 (max_transaction_cpu_usage (x_config e)) -> 0 <= min_transaction_cpu_usage (x_config e) ->
  init_context (xe_trx e) now u (new_transaction_context e t bill input x) = Ok c ->
  exec_and_finalize e a t cf delay c (load c x) = Ok (c1, y) ->
  exists c' c1', init_context (xe_trx e') now' u (new_transaction_context e' t (u32 (billed c1)) input x) = Ok c' /\
    load c' x = load c x /\ exec_and_finalize e' a' t cf delay c' (load c x) = Ok (c1', y) /\
    tc_net c1' = tc_net c1 /\ billed c1' = billed c1.
Proof.
  intros Hx Hs Hm Hmin Hi Hr. destruct (finalized_bound _ _ _ _ _ _ _ _ _ _ _ Hs Hm Hmin Hi Hr) as [L E]. rewrite E.
  destruct (follows_init now now' u (new_transaction_context e t bill input x) (new_transaction_context e' t (billed c1) input x) c)
    as (c' & Hi' & T & Hb); [done|by split|done|done|done|].
  destruct (follows_finalize a a' t cf delay c c' (load c x) c1 y Hx Hs T Hr Hb) as (c1' & Hf & N & B).
  exists c', c1'. split_and!; [done|by apply load_twin|done|done|done].
Qed.
End Follow.

(** The arguments with which a validator repeats a push: the time is that of
    the receipt. *)
Record repeats (cpu : Z) (a a' : push_args) : Prop := {
  rp_deadline : pa_deadline a' <> 0; rp_explicit : pa_explicit a' = true; rp_billed : pa_billed_cpu_time_us a' = cpu;
  rp_keep : keep_session a' = true; rp_tapos : tapos a' = tapos a; rp_recording : skip_recording a' = skip_recording a }.

Lemma follows_for_transaction e e' s s' d d' l l' q q' w w' id published : follows e e' ->
  follows (for_transaction e s d l q w id published) (for_transaction e' s' d' l' q' w' id published).
Proof. intros []. by split. Qed.

(** Checks that are required are made by all nodes. *)
Lemma follows_requiring e e' : follows e e' -> follows (requiring_checks e) (requiring_checks e').
Proof. intros []. by split. Qed.

Lemma requiring_ungreylisted e : ungreylisted e -> ungreylisted (requiring_checks e).
Proof. intros G a. exact (G a). Qed.

Lemma follows_extensions e e' t : follows e e' ->
  refines (disallow_transaction_extensions e t) (disallow_transaction_extensions e' t).
Proof. intros _. unfold disallow_transaction_extensions. by destruct (transaction_extensions t). Qed.

(** The checks on an input transaction before it is initialized. *)
Lemma follows_input_checks e e' a a' t b : follows e e' -> tapos a' = tapos a ->
  refines (if skip_trx_checks (xe_trx e) then Ok tt
           else validate_expiration e t ;; validate_tapos a t ;;
                validate_referenced_accounts e t (enforce_whiteblacklist e && producing e) (b_x b))
          (if skip_trx_checks (xe_trx e') then Ok tt
           else validate_expiration e' t ;; validate_tapos a' t ;;
                validate_referenced_accounts e' t (enforce_whiteblacklist e' && producing e') (b_x b)).
Proof.
  intros F Ht [] Hr. destruct (skip_trx_checks (xe_trx e)) eqn:Hs; [by rewrite (f_checks _ _ F Hs)|].
  destruct (skip_trx_checks (xe_trx e')); [done|]. revert Hr. apply refines_bind; [|intros _ _].
  { unfold validate_expiration. by rewrite (f_time _ _ F), (follows_config _ _ F). }
  unfold validate_tapos. rewrite Ht. apply refines_bind; [done|intros _ _]. by apply follows_referenced.
Qed.

(** How a pushed transaction starts, with the context and the deduplication list. *)
#[local] Abbreviation start e a m b :=
  (if tm_implicit m then (c ← init_for_implicit_trx e a (tm_trx m) b; Ok (c, b)) else init_for_input_trx e a m b).

Lemma follows_start e e' a a' m b c b1 : follows e e' -> tapos a' = tapos a -> skip_recording a' = skip_recording a ->
  start e a m b = Ok (c, b1) -> exists u input,
    init_context (xe_trx e) (now_init a) u (new_transaction_context e (tm_trx m) (pa_billed_cpu_time_us a) input (b_x b)) = Ok c /\
    b_x b1 = b_x b /\
    forall c', init_context (xe_trx e') (now_init a') u
        (new_transaction_context e' (tm_trx m) (pa_billed_cpu_time_us a') input (b_x b)) = Ok c' ->
      start e' a' m b = Ok (c', b1).
Proof.
  intros F Ht Hk Hr. destruct (tm_implicit m).
  - unfold init_for_implicit_trx in *. ok_bind Hr as c0 Hr0. ok_bind Hr0 as [] H1. apply (proj1 (Ok_inj _ _)) in Hr. injection Hr as -> <-.
    exists 0, false. split; [done|]. split; [done|]. intros c' Hc. by rewrite (follows_extensions _ _ _ F _ H1), Hc.
  - unfold init_for_input_trx in *. ok_bind Hr as [] H1. ok_bind Hr as [] H2. ok_bind Hr as c0 H3.
    exists (input_net_usage (x_config e) (tm_trx m) (unprunable_size m) (prunable_size m)), true.
    assert (c0 = c /\ b_x b1 = b_x b) as [-> Eb].
    { destruct (skip_recording a); [|ok_bind Hr as [] _]; apply (proj1 (Ok_inj _ _)) in Hr; by injection Hr as <- <-. }
    split; [done|]. split; [done|]. intros c' Hc. rewrite (follows_extensions _ _ _ F _ H1). cbn [mbind result_bind].
    rewrite (follows_input_checks e e' a a' (tm_trx m) b F Ht tt H2), (follows_config _ _ F), Hc, Hk. cbn [mbind result_bind].
    destruct (skip_recording a); [|ok_bind Hr as [] Hd; rewrite Hd; cbn [mbind result_bind]];
      apply (proj1 (Ok_inj _ _)) in Hr; by injection Hr as <-.
Qed.

Section Nodes.
Context (e e' : xenv) (F : follows e e') (G : ungreylisted e) (S : skip_trx_checks (xe_trx e) = false)
  (Hmax : is_u32 (max_transaction_cpu_usage (x_config e))) (Hmin : 0 <= min_transaction_cpu_usage (x_config e)).

Lemma follows_try a a' m b s cpu words b1 :
  explicit_billed_cpu_time (xe_trx e') = true -> repeats cpu a a' ->
  try_transaction e a m b = Ok (Retired s cpu words, b1) -> try_transaction e' a' m b = Ok (Retired s cpu words, b1).
Proof.
  intros Hx [_ _ Rb _ Rt Rr] Hr. unfold try_transaction in *. ok_bind Hr as [c b0] H0.
  destruct (follows_start e e' a a' m b c b0 F Rt Rr H0) as (u & input & Hi & Eb & Hgo). clear H0.
  ok_bind Hr as [] Hauth. ok_bind Hr as [c1 y] Hf. rewrite Eb in *.
  destruct (follows_billing e e' F G a a' _ _ _ _ (now_init a') _ _ _ _ _ _ _ Hx S Hmax Hmin Hi Hf)
    as (c' & c1' & Hi' & El & Hf' & En & Ebill).
  ok_bind Hr as b2 Hpr. apply (proj1 (Ok_inj _ _)) in Hr. injection Hr as Es Ec Ew Eb1. rewrite Ec, <- Rb in Hi'.
  rewrite (Hgo c' Hi'). cbn [mbind result_bind]. rewrite Eb, El.
  assert ((if negb (skip_auth_check e') && negb (tm_implicit m) then
     check_authorization (auth_control e' (load c (b_x b))) (auth_db (x_db (load c (b_x b)))) (trx_actions (tm_trx m)) (recovered_keys m) []
       (delay_sec (tm_trx m) * 1000000) false [] else Ok tt) = Ok tt) as ->.
  { rewrite (follows_control _ _ F). by apply (auth_checks e e' F (negb (tm_implicit m)) _ _ (reflexivity _)). }
  cbn [mbind result_bind]. rewrite Hf'. cbn [mbind result_bind]. rewrite En, Ebill, Hpr. cbn [mbind result_bind].
  by rewrite Es, Ec, Ew, Eb1.
Qed.
End Nodes.

(** A transaction that a producer took is taken by a validator, with the same
    receipt and the same state. *)
Lemma push_repeated e e' a a' m b s cpu words b1 :
  follows e e' -> ungreylisted e -> skip_trx_checks (xe_trx e) = false ->
  is_u32 (max_transaction_cpu_usage (x_config e)) -> 0 <= min_transaction_cpu_usage (x_config e) ->
  repeats cpu a a' -> keep_session a = true ->
  push_transaction e a m b = Ok (Retired s cpu words, b1) -> push_transaction e' a' m b = Ok (Retired s cpu words, b1).
Proof.
  intros F G S Hmax Hmin R Hk Hr. unfold push_transaction in *. ok_bind Hr as [] _.
  rewrite (proj2 (Z.eqb_neq _ _) (rp_deadline _ _ _ R)). cbn [negb check mbind result_bind].
  match type of Hr with context [try_transaction ?E a m b] => destruct (try_transaction E a m b) as [[o b2]|msg] eqn:Et end;
    [|by destruct (bad_block msg)].
  rewrite Hk in Hr. apply (proj1 (Ok_inj _ _)) in Hr. injection Hr as -> ->. rewrite (f_time _ _ F).
  erewrite follows_try; [by rewrite (rp_keep _ _ _ R)|..|exact Et]; [by apply follows_for_transaction|done..|exact (rp_explicit _ _ _ R)|done].
Qed.

(** ** Deferred transactions *)

Section Deferred.
Context (e e' : xenv) (F : follows e e') (G : ungreylisted e) (S : skip_trx_checks (xe_trx e) = false)
  (Hmax : is_u32 (max_transaction_cpu_usage (x_config e))) (Hmin : 0 <= min_transaction_cpu_usage (x_config e)).

Lemma follows_try_deferred a a' g b s cpu words b1 :
  explicit_billed_cpu_time (xe_trx e') = true -> pa_billed_cpu_time_us a' = cpu ->
  try_deferred e a g b = Ok (Retired s cpu words, b1) -> try_deferred e' a' g b = Ok (Retired s cpu words, b1).
Proof.
  intros Hx Rb Hr. unfold try_deferred, init_for_deferred_trx in *. ok_bind Hr as c Hc. ok_bind Hc as [] He.
  ok_bind Hr as [] Hl. ok_bind Hr as [c1 y] Hf.
  destruct (follows_billing e e' F G a a' _ _ _ _ (now_init a') _ _ _ _ _ _ _ Hx S Hmax Hmin Hc Hf)
    as (c' & c1' & Hi' & El & Hf' & En & Ebill).
  ok_bind Hr as b2 Hpr. apply (proj1 (Ok_inj _ _)) in Hr. injection Hr as Es Ec Ew Eb1. rewrite Ec, <- Rb in Hi'.
  assert ((if trx_expiration (g_packed g) =? 0 then Ok tt else disallow_transaction_extensions e' (g_packed g)) = Ok tt) as ->.
  { destruct (_ =? 0); [done|]. by apply (follows_extensions _ _ _ F). }
  cbn [mbind result_bind]. rewrite Hi'. cbn [mbind result_bind].
  rewrite (producers_only e e' F (enforce_whiteblacklist e) (enforce_whiteblacklist e') _
    (check_actor_list (xe_lists e') (actors_of (trx_actions (g_packed g) ≫= act_authorization))) tt Hl).
  cbn [mbind result_bind]. rewrite El, Hf'. cbn [mbind result_bind]. rewrite En, Ebill, Hpr. cbn [mbind result_bind].
  by rewrite Es, Ec, Ew, Eb1.
Qed.
End Deferred.

Lemma follows_remove e e' g x : follows e e' -> remove_scheduled_transaction e' g x = remove_scheduled_transaction e g x.
Proof. intros F. unfold remove_scheduled_transaction. by rewrite (follows_billed _ _ F). Qed.

(** A deferred transaction that the producer executed, or found expired, is
    retired by a validator in the same way. *)
Lemma scheduled_repeated e e' a a' g data b s cpu words b1 :
  follows e e' -> ungreylisted e ->
  is_u32 (max_transaction_cpu_usage (x_config e)) -> 0 <= min_transaction_cpu_usage (x_config e) ->
  repeats cpu a a' -> s = executed \/ s = expired ->
  push_scheduled_transaction e a g data b = Ok (Retired s cpu words, b1) ->
  push_scheduled_transaction e' a' g data b = Ok (Retired s cpu words, b1).
Proof.
  intros F G Hmax Hmin R Hs Hr. unfold push_scheduled_transaction in *. rewrite (follows_remove _ _ _ _ F), (f_time _ _ F).
  ok_bind Hr as [n x] ->. cbn [mbind result_bind]. ok_bind Hr as [] ->. cbn [mbind result_bind].
  rewrite (rp_billed _ _ _ R). destruct (g_expiration g <? _).
  { ok_bind Hr as b2 Hp. apply (proj1 (Ok_inj _ _)) in Hr. injection Hr as <- <- <- <-.
    unfold push_receipt in *. ok_bind Hp as [] Hd. rewrite Hd. apply (proj1 (Ok_inj _ _)) in Hp as <-. cbn [mbind result_bind].
    by rewrite !(u32_small (u32 _)) by apply u32_range. }
  match type of Hr with context [try_deferred ?E a g ?B] => destruct (try_deferred E a g B) as [r|msg] eqn:Et end.
  - apply (proj1 (Ok_inj _ _)) in Hr as ->. erewrite follows_try_deferred; [done|..|exact Et];
      [by apply follows_for_transaction, follows_requiring|done..|exact (rp_explicit _ _ _ R)|exact (rp_billed _ _ _ R)].
  - exfalso. destruct (bad_block msg); [done|]. ok_bind Hr as r Hon. destruct r as [[o b2]|[msg1 cpu1]].
    + apply (proj1 (Ok_inj _ _)) in Hr. injection Hr as -> ->. destruct (_ && _); [|done].
      match type of Hon with context [apply_onerror ?E ?A g data ?B] => destruct (apply_onerror E A g data B) as [r|] eqn:Eo end;
        [|by destruct (bad_block _)].
      apply (proj1 (Ok_inj _ _)) in Hon. injection Hon as ->. apply apply_onerror_ok in Eo as [_ (cpu2 & words2 & [= -> _ _])].
      by destruct Hs.
    + destruct (if pa_explicit a then _ else _); [apply (proj1 (Ok_inj _ _)) in Hr; discriminate Hr|].
      apply hard_failure_ok in Hr as (_ & (cpu2 & words2 & [= -> _ _]) & _). by destruct Hs.
Qed.
End ReplayPush.

Section ReplayBlocks.
Context {boost : Boost} {key : Type} `{PublicKey key} {W : Type}.
#[local] Abbreviation gto := (generated_transaction_object (key := key)).
#[local] Abbreviation xenv := (xenv (key := key) (W := W)).
#[local] Abbreviation building := (building (key := key) (W := W)).
#[local] Abbreviation transaction_metadata := (transaction_metadata (key := key)).
#[local] Abbreviation block_receipt := (block_receipt (key := key)).
Implicit Types (e : xenv) (b : building) (m : transaction_metadata).

(** How the sender of a failed transaction is told, and the table of block
    summaries, which is the same on all nodes. *)
Context (onerror_data : gto -> chars) (summaries : Z -> option digest).

(** A push whose effect stays, in a block that is not replayed. *)
Record in_block (a : push_args) : Prop := {
  ib_keep : keep_session a = true; ib_record : skip_recording a = false; ib_tapos : tapos a = summaries }.

(** The work of a producer on a block: it pushes transactions, input ones and
    deferred ones; those that fail leave no receipt. *)
Inductive produces e : building -> list block_receipt -> building -> Prop :=
| produces_nothing b : produces e b [] b
| produces_refused a m b msg b1 rs b2 : push_transaction e a m b = Ok (Failed msg, b1) -> produces e b1 rs b2 -> produces e b rs b2
| produces_input a m b s cpu words b1 rs b2 : in_block a -> tm_implicit m = false ->
    push_transaction e a m b = Ok (Retired s cpu words, b1) -> produces e b1 rs b2 ->
    produces e b (mk_block_receipt (packed_trx m) s cpu words :: rs) b2
| produces_waiting a g b msg b1 rs b2 : push_scheduled_transaction e a g (onerror_data g) b = Ok (Failed msg, b1) ->
    produces e b1 rs b2 -> produces e b rs b2
| produces_deferred a id g b s cpu words b1 rs b2 : in_block a -> find_by_trx_id id (x_generated (b_x b)) = Some g ->
    s = executed \/ s = expired ->
    push_scheduled_transaction e a g (onerror_data g) b = Ok (Retired s cpu words, b1) -> produces e b1 rs b2 ->
    produces e b (mk_block_receipt (trx_id id) s cpu words :: rs) b2.

(** ** One receipt *)

Lemma explicit_repeats cpu a a' : in_block a -> in_block a' -> repeats cpu a (explicit_args cpu a').
Proof. intros [K1 K2 K3] [L1 L2 L3]. split; cbn [pa_deadline pa_explicit pa_billed_cpu_time_us keep_session tapos skip_recording explicit_args]; congruence || done. Qed.

Lemma taken_receipt e a m b s cpu words b1 : keep_session a = true -> tm_implicit m = false ->
  push_transaction e a m b = Ok (Retired s cpu words, b1) ->
  s <> hard_fail /\ b_receipts b1 = b_receipts b ++ [mk_trx_receipt (tm_id m) s cpu words].
Proof.
  unfold push_transaction. intros Hk Hi Hr. ok_bind Hr as [] _.
  match type of Hr with context [try_transaction ?E a m b] => destruct (try_transaction E a m b) as [[o b2]|msg] eqn:Et end;
    [|by destruct (bad_block msg)].
  apply (proj1 (Ok_inj _ _)) in Hr. rewrite Hk in Hr. injection Hr as -> ->.
  unfold try_transaction in Et. rewrite Hi in Et. ok_bind Et as [c b2] H1. ok_bind Et as [] _. ok_bind Et as [c1 x] _. ok_bind Et as b3 H2.
  apply (proj1 (Ok_inj _ _)) in Et. injection Et as <- <- <- <-. apply push_receipt_ok in H2 as (R & _). cbn in R |- *. rewrite R. split.
  - by destruct (_ =? 0).
  - unfold init_for_input_trx in H1. ok_bind H1 as [] _. ok_bind H1 as [] _. ok_bind H1 as c2 _.
    destruct (skip_recording a); [|ok_bind H1 as [] _]; apply (proj1 (Ok_inj _ _)) in H1; by injection H1 as _ <-.
Qed.

Lemma retired_receipt e a g b s cpu words b1 :
  push_scheduled_transaction e a g (onerror_data g) b = Ok (Retired s cpu words, b1) ->
  b_receipts b1 = b_receipts b ++ [mk_trx_receipt (g_trx_id g) s cpu words].
Proof.
  intros Hr. apply scheduled_cases in Hr as [(msg & [=] & _)|[(s' & cpu' & words' & [= <- <- <-] & _ & Hr) _]]. exact Hr.
Qed.

(** The checks on a receipt that was reproduced. *)
Lemma matching_receipt e a r b id b1 :
  push_of_receipt onerror_data e a r b = Ok (Retired (br_status r) (br_cpu_usage_us r) (br_net_usage_words r), b1) ->
  br_status r <> hard_fail ->
  b_receipts b1 = b_receipts b ++ [mk_trx_receipt id (br_status r) (br_cpu_usage_us r) (br_net_usage_words r)] ->
  apply_receipt onerror_data e b (a, r) = Ok b1.
Proof.
  intros Hp Hs Hr. unfold apply_receipt. rewrite Hp. cbn [mbind result_bind transaction_failed]. rewrite bool_decide_false by done.
  cbn [negb orb check mbind result_bind]. rewrite Hr, length_app, map_app. cbn [length map].
  rewrite last_last, Nat.add_1_r, Nat.eqb_refl. cbn [Nat.ltb Nat.leb check mbind result_bind].
  cbn [tr_status tr_cpu_usage_us tr_net_usage_words]. rewrite bool_decide_true, !Z.eqb_refl by done. done.
Qed.

Lemma failed_unchanged e a m b msg b1 : push_transaction e a m b = Ok (Failed msg, b1) -> b1 = b.
Proof.
  unfold push_transaction. intros Hr. ok_bind Hr as [] _.
  match type of Hr with context [try_transaction ?E a m b] => destruct (try_transaction E a m b) as [[o b2]|msg'] eqn:Et end.
  - apply (proj1 (Ok_inj _ _)) in Hr. injection Hr as -> _. unfold try_transaction in Et. ok_bind Et as [c b3] _. ok_bind Et as [] _.
    ok_bind Et as [c1 x] _. ok_bind Et as b4 _. discriminate Et.
  - destruct (bad_block msg'); [done|]. apply (proj1 (Ok_inj _ _)) in Hr. by injection Hr as _ <-.
Qed.

Lemma waiting_unchanged e a g b msg b1 : push_scheduled_transaction e a g (onerror_data g) b = Ok (Failed msg, b1) -> b1 = b.
Proof. intros Hr. apply scheduled_cases in Hr as [(msg' & _ & ->)|[(s & cpu & words & [=] & _) _]]. done. Qed.

(** ** Whole blocks *)

(** Whatever transactions a producer takes into a block, with the times it
    measured, every node that follows the chain executes the block with the
    receipts of the producer: all of them match, and the state, the receipts
    and the action receipts are those of the producer.  The node may trust the
    producer and skip checks, but for deferred transactions, where they are
    required; neither the lists of the producer nor its deadlines matter.  The
    producer makes all checks, has no account on its grey list, and takes in
    only deferred transactions that are executed or have expired, not those
    that failed. (C1) *)
Theorem produced_blocks_replay e e' b rs b' args :
  produces e b rs b' -> follows e e' -> ungreylisted e -> skip_trx_checks (xe_trx e) = false ->
  is_u32 (max_transaction_cpu_usage (x_config e)) -> 0 <= min_transaction_cpu_usage (x_config e) ->
  length args = length rs -> (forall a, a ∈ args -> in_block a) ->
  apply_receipts onerror_data e' (zip args rs) b = Ok b'.
Proof.
  intros Hp F G S Hmax Hmin. revert args.
  induction Hp as [b|a m b msg b1 rs b2 H1 _ IH|a m b s cpu words b1 rs b2 Ha Hi H1 _ IH|a g b msg b1 rs b2 H1 _ IH
    |a id g b s cpu words b1 rs b2 Ha Hg Hs H1 _ IH]; intros args Hl Hargs.
  - by destruct args.
  - apply failed_unchanged in H1 as ->. by apply IH.
  - destruct args as [|a' args]; [done|]. unfold apply_receipts. cbn [zip zip_with mfold]. pose proof (ib_keep _ Ha) as Hk.
    destruct (taken_receipt _ _ _ _ _ _ _ _ Hk Hi H1) as [Hf Hr].
    rewrite (matching_receipt e' a' _ b (tm_id m) b1); [|exact (push_repeated e e' a _ m b s cpu words b1 F G S Hmax Hmin
      (explicit_repeats cpu a a' Ha (Hargs a' (list_elem_of_here _ _))) Hk H1)|done|done].
    cbn [mbind result_bind]. apply IH; [by injection Hl|]. intros a1 H2. by apply Hargs, list_elem_of_further.
  - apply waiting_unchanged in H1 as ->. by apply IH.
  - destruct args as [|a' args]; [done|]. unfold apply_receipts. cbn [zip zip_with mfold].
    rewrite (matching_receipt e' a' _ b (g_trx_id g) b1).
    + cbn [mbind result_bind]. apply IH; [by injection Hl|]. intros a1 H2. by apply Hargs, list_elem_of_further.
    + unfold push_of_receipt. cbn [br_trx br_cpu_usage_us]. rewrite Hg. cbn [of_option mbind result_bind].
      exact (scheduled_repeated e e' a _ g _ b s cpu words b1 F G Hmax Hmin
        (explicit_repeats cpu a a' Ha (Hargs a' (list_elem_of_here _ _))) Hs H1).
    + cbn. by destruct Hs as [-> | ->].
    + exact (retired_receipt _ _ _ _ _ _ _ _ H1).
Qed.
End ReplayBlocks.

(** ** A block, produced and validated

    The producer of a block with one transaction and the node that receives
    it; the reference block of a transaction; the authority of producers. *)

#[local] Abbreviation xenv := (xenv (key := Z) (W := Z)).
#[local] Abbreviation building := (building (key := Z) (W := Z)).
#[local] Abbreviation block_receipt := (block_receipt (key := Z)).

Import GenesisRuns.

(** ** Producing and validating *)

(** The same block on two nodes: one produces it, with a list of contracts it
    refuses; the other receives it. *)
Definition node (producing : bool) (lists : list_config) : xenv :=
  mk_xenv (mk_trx_env genesis_config false producing false 1000 ∅ 2000000 6 1000000 9000000 0 false (fun _ => false))
    (fun _ => true) true false lists (negb producing) false 2000000 77 head_id ctx
    dave_contract (fun _ => Err "unpack") (fun _ => 1) (fun t => 1000 + delay_sec t) (fun _ => 120).
Definition producer : xenv := node true (mk_lists [] [] [] [4; 5] [] []).
Definition validator : xenv := node false (mk_lists [] [] [] [] [] []).

Definition summary (n : Z) : option Merkle.digest := Some head_id.
Definition at_time (t : Z) : push_args :=
  mk_args 9000000 0 false 0 t (t + 100) (t + 700) (t + 800) (t + 900) 0 false true summary.

(** The transaction gets in, with 700 microseconds; pushed again it is refused. *)
Definition taken : outcome * building :=
  from_ok (Failed "", pending1) (push_transaction producer (at_time 1000000) call_meta pending1).
Definition refused : outcome * building :=
  from_ok (Failed "", pending1) (push_transaction producer (at_time 1001000) call_meta taken.2).
Definition receipts : list block_receipt := [mk_block_receipt (packed_trx call_meta) executed 700 22].

Lemma produced : produces (fun _ => []) summary producer pending1 receipts taken.2.
Proof.
  assert (E1 : taken.1 = Retired executed 700 22) by compute_run.
  assert (E2 : refused.1 = Failed "duplicate transaction") by compute_run.
  assert (H1 : push_transaction producer (at_time 1000000) call_meta pending1 = Ok (taken.1, taken.2))
    by (rewrite <- surjective_pairing; run_ok).
  assert (H2 : push_transaction producer (at_time 1001000) call_meta taken.2 = Ok (refused.1, refused.2))
    by (rewrite <- surjective_pairing; run_ok).
  rewrite E1 in H1. rewrite E2 in H2.
  eapply produces_input; [| |exact H1|]; [split; reflexivity|reflexivity|].
  eapply produces_refused; [exact H2|]. rewrite (failed_unchanged _ _ _ _ _ _ H2). apply produces_nothing.
Qed.

Lemma validator_follows : follows producer validator.
Proof. split; try reflexivity; try discriminate. Qed.
Lemma producer_ungreylisted : ungreylisted producer.
Proof. intros a. cbn. by rewrite bool_decide_false by set_solver. Qed.

(** The receipt is reproduced later, by a slower node. *)
Lemma produced_blocks_replay_witness :
  apply_receipts (fun _ => []) validator (zip [at_time 5000000] receipts) pending1 = Ok taken.2.
Proof.
  apply (produced_blocks_replay (fun _ => []) summary producer validator pending1 receipts taken.2 [at_time 5000000] produced
    validator_follows producer_ungreylisted).
  - reflexivity.
  - split; vm_compute; congruence.
  - vm_compute. congruence.
  - reflexivity.
  - intros a ->%list_elem_of_singleton. split; reflexivity.
Defined.

(** ** Reference blocks *)

(** Blocks 70000 to 70002; the number is in the low half word, reversed. *)
Definition block_id (n prefix : Z) : Merkle.digest := mk_digest (endian_reverse_u32 n) prefix 0 0.
Definition three : list Merkle.digest := [block_id 70000 11; block_id 70001 12; block_id 70002 13].
Definition push_on (ids : list Merkle.digest) : push_args :=
  mk_args 9000000 0 false 0 1000000 1000100 1000700 0 0 0 false true (fun n => summaries_after ∅ ids !! n).

Lemma reference_ties_to_fork_witness :
  validate_tapos (push_on three) (set_reference_block (block_id 70001 12) call) = Ok tt /\
  validate_tapos (push_on three) (set_reference_block (block_id 70001 99) call) <> Ok tt.
Proof.
  assert (Hc : consecutive 70000 three).
  { intros i d Hi. destruct i as [|[|[|i]]]; cbn in Hi; try (injection Hi as <-; vm_compute; reflexivity). done. }
  split.
  - apply (reference_ties_to_fork (key := Z) 70000 ∅ three 1 (block_id 70001 12) (block_id 70001 12) call (push_on three));
      [exact Hc|reflexivity|vm_compute; congruence|reflexivity|reflexivity|reflexivity].
  - intros Hv. apply (reference_ties_to_fork (key := Z) 70000 ∅ three 1 (block_id 70001 12) (block_id 70001 99) call (push_on three)) in Hv;
      [revert Hv; vm_compute; discriminate|exact Hc|reflexivity|vm_compute; congruence|reflexivity|reflexivity].
Defined.

(** ** The authority of producers *)

Definition four_producers : list Z := [dave; 21; 22; 23].
Definition updated : adb (key := Z) := from_ok adb_empty (update_producers_authority four_producers (auth_db db1)).
(** Three of the four have signed. *)
Definition three_signed : checker (key := Z) :=
  mk_checker (fun _ => Ok None) 6 [] [(dave, active_name); (22, active_name); (23, active_name)] 0.

Lemma producers_decide_witness :
  approvals three_signed 0 four_producers = 3 /\
  exists p, get_permission updated (producers_account_name, active_name) = Ok p /\ sat three_signed 0 (po_auth p) = true.
Proof.
  assert (Hu : update_producers_authority four_producers (auth_db db1) = Ok updated) by (unfold updated; run_ok).
  assert (Ha : approvals three_signed 0 four_producers = 3) by compute_run. split; [exact Ha|].
  destruct (producers_decide three_signed 0 four_producers (auth_db db1) updated db1_tree Hu ltac:(vm_compute; congruence))
    as (_ & (p & Hp & Hs) & _).
  exists p. split; [exact Hp|]. apply Hs. rewrite Ha. vm_compute. reflexivity.
Defined.
