(* ===== verification/BlockExecution.v ===== *)
(** * The execution of received blocks

    [apply_block] (controller.cpp) put together from the parts that are
    modelled: the transactions at the start, the receipts of the block, the
    resource limits at its end, and its summary.  Which checks are made depends
    on the status of the block; a block that passed all checks gives the same
    tables when it is executed again as one that is known to be valid.  This is
    what the controller relies on when it switches back to its old branch. *)

From stdpp Require Import base numbers gmap strings countable list sorting relations.
From Stdlib Require Import ZArith Lia.
From S2P Require Import Prelude Boost Merkle BlockHeader BlockHeaderState ForkDatabase Controller ControllerSpec ControllerRuns.
From S2P Require Import Names Accumulator ResourceLimits Authority AuthoritySpec Authorization EosioContract EosioContractSpec.
From S2P Require Import ProtocolFeatures ChainConfig ActorList TransactionContext TransactionContextSpec Transactions.
From S2P Require Import Execution Deferred Actions Push PushSpec ExecutionRuns BlockBuilding Replay ReplayBlocks DposRuns.
Local Open Scope Z_scope.

(** ** Which checks are made *)

(** What the node is configured with: [force_all_checks],
    [disable_replay_opts], whether [block_validation_mode] is light, and
    whether the producer of the block is trusted. *)
Record validation := mk_validation {
  force_all_checks : bool; disable_replay_opts : bool; light_mode : bool; trusted_producer_light_validation : bool }.

(** The argument [pending] is the status of the pending block, if there is one. *)
Definition light_validation_allowed (v : validation) (pending : option block_status)
    (in_trx_requiring_checks replay_opts_disabled_by_policy : bool) : bool :=
  match pending with
  | None => false
  | Some pb_status =>
    if in_trx_requiring_checks then false
    else
      let consider_skipping_on_replay :=
        match pb_status with irreversible | validated_status => true | _ => false end && negb replay_opts_disabled_by_policy in
      let consider_skipping_on_validate :=
        match pb_status with complete => true | _ => false end && (light_mode v || trusted_producer_light_validation v) in
      consider_skipping_on_replay || consider_skipping_on_validate
  end.
Definition skips_auth_check (v : validation) (pending : option block_status) (in_trx_requiring_checks : bool) : bool :=
  light_validation_allowed v pending in_trx_requiring_checks (force_all_checks v).
Definition skips_trx_checks (v : validation) (pending : option block_status) (in_trx_requiring_checks : bool) : bool :=
  light_validation_allowed v pending in_trx_requiring_checks (disable_replay_opts v).

(** A producer makes all checks on the block it builds. *)
Lemma incomplete_checked v r : skips_trx_checks v (Some incomplete) r = false /\ skips_auth_check v (Some incomplete) r = false.
Proof. by destruct r. Qed.

Section BlockExecution.
Context {boost : Boost} {key sig : Type} `{PublicKey key} {W : Type} `{crypto : HeaderCrypto key sig}.
#[local] Abbreviation gto := (generated_transaction_object (key := key)).
#[local] Abbreviation xenv := (xenv (key := key) (W := W)).
#[local] Abbreviation xstate := (xstate (key := key) (W := W)).
#[local] Abbreviation building := (building (key := key) (W := W)).
#[local] Abbreviation block_receipt := (block_receipt (key := key)).
#[local] Abbreviation signed_block := (signed_block key sig block_receipt).
Implicit Types (e : xenv) (b : building) (blk : signed_block).

(** The environment for a status of the pending block. *)
Definition in_status (v : validation) (s : block_status) (e : xenv) : xenv :=
  with_skips (skips_trx_checks v (Some s) false) (skips_auth_check v (Some s) false) e.

(** The tables: the state, the deduplication list and the block summaries. *)
Record block_tables := mk_tables { bt_x : xstate; bt_recorded : gmap Z Z; bt_summaries : gmap Z digest }.

(** What the pending block reads of the node, the chain and the block: the
    environment of its transactions; the clock; the packed header of the head
    and the producers of the active schedule; the protocol features and the
    schedule that take effect at its start; the id of the block that was
    assembled.  None of them depends on which checks are made. *)
Record block_context := mk_block_context {
  bc_validation : validation;
  bc_env : signed_block -> block_tables -> xenv;
  bc_args : signed_block -> block_tables -> push_args;
  bc_onblock : signed_block -> block_tables -> chars;
  bc_producers : signed_block -> block_tables -> list Z;
  bc_start : signed_block -> xstate -> result xstate;
  bc_assembled : signed_block -> building -> digest;
  bc_onerror : gto -> chars }.
Variable bc : block_context.

(** [apply_block], with [start_block] and [finalize_block]. *)
Definition execute_block (s : block_status) (blk : signed_block) (t : block_tables) : result block_tables :=
  let e := in_status (bc_validation bc) s (bc_env bc blk t) in
  let a := bc_args bc blk t in
  x ← bc_start bc blk (bt_x t);
  b ← start_transactions e a (bc_onblock bc blk t) (bc_producers bc blk t) (mk_building x (bt_recorded t) [] []);
  b ← apply_receipts (bc_onerror bc) e (map (pair a) (transactions blk)) b;
  res ← finalize_resources (x_config e) (block_num_of (sb_header (sb_signed blk))) (res_db (x_db (b_x b)));
  let b := with_x b (set_res (b_x b) res) in
  let producer_block_id := id_of (sb_header (sb_signed blk)) in
  check (bool_decide (producer_block_id = bc_assembled bc blk b)) "Block ID does not match" ;;
  Ok (mk_tables (b_x b) (b_recorded b) (create_block_summary producer_block_id (bt_summaries t))).

(** ** Executing a block again *)

(** Pushes that require checks do not see which are skipped. *)
Lemma scheduled_skips p q e a g data b :
  push_scheduled_transaction (with_skips p q e) a g data b = push_scheduled_transaction e a g data b.
Proof. reflexivity. Qed.

Lemma start_skips p q e a data ps b : start_transactions (with_skips p q e) a data ps b = start_transactions e a data ps b.
Proof. reflexivity. Qed.

(** A node that does not produce the block, in the ranges of its configuration. *)
Record receiving e : Prop := {
  rc_producing : producing e = false;
  rc_keys : forall auths, check_key_list (xe_native_context e auths) = None;
  rc_max : is_u32 (max_transaction_cpu_usage (x_config e)); rc_min : 0 <= min_transaction_cpu_usage (x_config e) }.

Lemma receiving_follows p q e : receiving e -> follows (with_skips false false e) (with_skips p q e).
Proof.
  intros [Hp Hk _ _]. split; try done. intros auths. cbn. specialize (Hk auths). destruct (xe_native_context e auths). cbn in *. by rewrite Hk.
Qed.

Lemma receiving_ungreylisted p q e : receiving e -> ungreylisted (with_skips p q e).
Proof. intros [Hp _ _ _] a. unfold account_greylist_limit. cbn. unfold producing in Hp. by rewrite Hp. Qed.

(** The receipt of a packed transaction that matches was not refused. *)
Lemma receipt_retired onerror e a m s cpu words b b1 : keep_session a = true ->
  apply_receipt onerror e b (a, mk_block_receipt (packed_trx m) s cpu words) = Ok b1 ->
  push_transaction e (explicit_args cpu a) m b = Ok (Retired s cpu words, b1).
Proof.
  intros Hk Hr. unfold apply_receipt, push_of_receipt in Hr. cbn [br_trx br_cpu_usage_us] in Hr. ok_bind Hr as [o b2] Hp.
  ok_bind Hr as [] Ho. apply (proj1 (check_ok _ _ _)) in Ho. unfold transaction_can_fail in Ho. cbn [br_trx] in Ho.
  rewrite andb_false_r, orb_false_r in Ho. destruct o as [s' cpu' words'|msg]; [|done].
  ok_bind Hr as [] _. ok_bind Hr as [] Hl. apply (proj1 (check_ok _ _ _)), Nat.eqb_eq in Hl.
  destruct (tm_implicit m) eqn:Hi.
  { exfalso. unfold push_transaction in Hp. ok_bind Hp as [] _.
    match type of Hp with context [try_transaction ?E ?A m b] => destruct (try_transaction E A m b) as [[o b3]|msg] eqn:Et end;
      [|by destruct (bad_block msg)].
    cbn [keep_session explicit_args] in Hp. rewrite Hk in Hp. apply (proj1 (Ok_inj _ _)) in Hp. injection Hp as -> ->.
    unfold try_transaction in Et. rewrite Hi in Et. ok_bind Et as [c b4] H4. ok_bind Et as [] _. ok_bind Et as [c1 x] _. ok_bind Et as b5 H5.
    ok_bind H4 as c4 _. apply (proj1 (Ok_inj _ _)) in H4. injection H4 as _ <-. apply (proj1 (Ok_inj _ _)) in H5 as <-.
    apply (proj1 (Ok_inj _ _)) in Et. injection Et as _ _ _ <-. cbn in Hl. lia. }
  destruct (taken_receipt e (explicit_args cpu a) m b s' cpu' words' b2 Hk Hi Hp) as [_ Er]. rewrite Er, map_app in Hr. cbn [map] in Hr. rewrite last_last in Hr.
  ok_bind Hr as [] Hc. apply (proj1 (check_ok _ _ _)) in Hc. apply (proj1 (Ok_inj _ _)) in Hr as <-.
  cbn [tr_status tr_cpu_usage_us tr_net_usage_words br_status br_cpu_usage_us br_net_usage_words] in Hc.
  rewrite !andb_true_iff, bool_decide_eq_true, !Z.eqb_eq in Hc. destruct Hc as [[-> ->] ->]. exact Hp.
Qed.

(** A receipt that matched with all checks matches with fewer. *)
Lemma receipt_again onerror p q e a r b b1 : receiving e -> keep_session a = true ->
  apply_receipt onerror (with_skips false false e) b (a, r) = Ok b1 -> apply_receipt onerror (with_skips p q e) b (a, r) = Ok b1.
Proof.
  intros He Hk Hr. destruct r as [[m|id] s cpu words]; [|exact Hr]. pose proof Hr as Hp. apply receipt_retired in Hp; [|done].
  assert (Hp' : push_transaction (with_skips p q e) (explicit_args cpu a) m b = Ok (Retired s cpu words, b1)).
  { apply (push_repeated (with_skips false false e) _ (explicit_args cpu a)); [by apply receiving_follows|by apply receiving_ungreylisted|done
      |exact (rc_max _ He)|exact (rc_min _ He)| |exact Hk|exact Hp]. by split. }
  unfold apply_receipt, push_of_receipt in *. cbn [br_trx br_cpu_usage_us] in *. rewrite Hp in Hr. by rewrite Hp'.
Qed.

(** No node skips checks on new blocks, but makes them on blocks it knows to be
    valid. *)
Hypothesis validation_ok : let v := bc_validation bc in
  light_mode v || trusted_producer_light_validation v = true -> force_all_checks v = false /\ disable_replay_opts v = false.
Hypothesis env_ok : forall blk t, receiving (bc_env bc blk t).
Hypothesis args_ok : forall blk t, keep_session (bc_args bc blk t) = true.

Lemma execute_block_again blk t t' : execute_block complete blk t = Ok t' -> execute_block validated_status blk t = Ok t'.
Proof.
  unfold execute_block, in_status, skips_trx_checks, skips_auth_check, light_validation_allowed. cbn [andb orb].
  destruct (light_mode _ || _) eqn:Em; cbn [orb].
  { destruct (validation_ok Em) as [-> ->]. done. }
  intros Hr. ok_bind Hr as x ->. cbn [mbind result_bind]. rewrite !start_skips in *. ok_bind Hr as b1 ->. cbn [mbind result_bind].
  ok_bind Hr as b2 H2. rewrite !orb_false_r.
  assert (forall l b b', apply_receipts (bc_onerror bc) (with_skips false false (bc_env bc blk t)) (map (pair (bc_args bc blk t)) l) b = Ok b' ->
    apply_receipts (bc_onerror bc) (with_skips (negb (disable_replay_opts (bc_validation bc))) (negb (force_all_checks (bc_validation bc)))
      (bc_env bc blk t)) (map (pair (bc_args bc blk t)) l) b = Ok b') as Hl.
  { unfold apply_receipts. induction l as [|r l IH]; intros b b'; cbn [map mfold]; [done|]. intros Hm. ok_bind Hm as b3 H3.
    rewrite (receipt_again _ _ _ _ _ _ _ _ (env_ok blk t) (args_ok blk t) H3). cbn [mbind result_bind]. by apply IH. }
  rewrite (Hl _ _ _ H2). exact Hr.
Qed.

(** Block execution, for the controller. *)
#[local] Instance block_execution : Controller.Execution key sig block_receipt block_tables :=
  {| execute := execute_block; execute_again := execute_block_again |}.

(** A controller that receives a block and executes it this way stays in sync,
    at the best block it knows; when the call throws, nothing but the fork
    database has changed. *)
Lemma executed_block_sync read_mode first_block_num c bsp :
  read_mode <> IRREVERSIBLE -> current first_block_num c -> received bsp -> lib_above (c_fork c) bsp ->
  let (c', res) := push_block read_mode first_block_num bsp c in
  current first_block_num c' /\ (forall msg, res = Err msg -> c_head c' = c_head c /\ c_db c' = c_db c).
Proof.
  intros Hm Hc Hb Hl. pose proof (push_block_lemma read_mode first_block_num c bsp Hm Hc Hb Hl) as Hs.
  destruct (push_block read_mode first_block_num bsp c) as [c' [|]]; [by destruct Hs|].
  destruct Hs as (Hc' & Hh & Hd & _). by split.
Qed.
End BlockExecution.

(** ** A block, executed twice *)

Module BlockRuns.
#[local] Existing Instance toy_crypto.
Import GenesisRuns.

(** The node that validates the block of ReplayBlocks, with all checks on new
    blocks and fewer on known ones. *)
Definition demo_context : block_context (key := Z) (sig := Z) (W := Z) :=
  mk_block_context (mk_validation false false false false) (fun _ _ => validator) (fun _ _ => at_time 5000000)
    (fun _ _ => []) (fun _ _ => four_producers) (fun _ x => Ok x) (fun blk _ => id_of (sb_header (sb_signed blk))) (fun _ => []).
Definition demo_tables : block_tables (key := Z) (W := Z) := mk_tables (b_x pending1) (b_recorded pending1) ∅.
Definition demo_signed : signed_block Z Z (block_receipt (key := Z)) :=
  mk_block (mk_signed (mk_header 6 1 0 (block_id 9 77) digest_zero digest_zero 0 None []) 0) receipts [].

Lemma validator_receiving : receiving validator.
Proof. split; [reflexivity|reflexivity|split; vm_compute; congruence|vm_compute; congruence]. Qed.

(** The block of one transaction is executed, and executed again with fewer
    checks: the transaction is recorded, and the block has its summary. *)
Example executed_again :
  let t' := from_ok demo_tables (execute_block demo_context complete demo_signed demo_tables) in
  execute_block demo_context validated_status demo_signed demo_tables = Ok t' /\
  bt_recorded t' = b_recorded taken.2 /\ num_from_id <$> bt_summaries t' !! 10 = Some 10.
Proof.
  cbv zeta.
  assert (H1 : execute_block demo_context complete demo_signed demo_tables =
    Ok (from_ok demo_tables (execute_block demo_context complete demo_signed demo_tables))) by run_ok.
  split_and!; [|compute_run|compute_run].
  refine (execute_block_again demo_context _ (fun _ _ => validator_receiving) (fun _ _ => eq_refl) _ _ _ H1). discriminate.
Qed.
End BlockRuns.
