(* ===== verification/BlockLogSpec.v ===== *)
(** * The block log: what it keeps

    The log refines a list of blocks with consecutive numbers: appending adds
    to the list, reading by number looks it up, opening restores it, with or
    without a usable index, and repairing a log that was cut short anywhere
    recovers every block that is complete. *)

From Stdlib Require Import ZArith Lia Ascii String.
From stdpp Require Import base numbers strings list.
From S2P Require Import Prelude Boost Merkle BlockHeader BlockHeaderSpec DposRuns Hex Raw ChainConfig RawChain.
Local Open Scope Z_scope.

(** ** The block log ([block_log.hpp], [block_log.cpp])

    The irreversible blocks in a file, each followed by its position, and an
    index file with the positions.  Files are their bytes; both streams throw
    when a read fails, so that [Err] is an exception.  Flushing, closing and
    reopening streams do not change what is in the files.  Blocks and the
    genesis state are written with the codecs of RawChain. *)

Definition npos : Z := UINT64_MAX.
Definition log_min_version : Z := 1.
Definition log_max_version : Z := 2.

(** A 64-bit position as it is in memory. *)
Definition pos_bytes (pos : Z) : bytes := bytes_of_word 8 pos.
Definition read_u64 : reader Z := unpack (c_uint 8).
Definition read_u32 : reader Z := unpack (c_uint 4).

(** The content from a position on: [seekg( pos )]; nothing is left after the
    end. *)
Definition seekg (pos : Z) (file : bytes) : bytes :=
  if Z.of_nat (length file) <? pos then [] else drop (Z.to_nat pos) file.
(** [seekg( -sizeof(uint64_t), std::ios::end )] and a read of a position; a
    file with fewer bytes makes the seek fail. *)
Definition read_last (file : bytes) : result Z :=
  check (Nat.leb 8 (length file)) "ios_base::failure" ;;
  Ok (word_of_bytes (drop (length file - 8) file)).

Definition of_read {A} (r : reading A) : result (A * bytes) :=
  match r with Got a s => Ok (a, s) | Ended => Err "ios_base::failure" | Thrown e _ => Err e end.

Section BlockLog.
Context `{Zlib} `{HeaderCrypto public_key signature}.

Record block_log := mk_log {
  block_file : bytes; index_file : bytes; head : option raw_block; head_id : digest;
  genesis_written_to_block_log : bool; log_version : Z; log_first_block_num : Z }.

Definition log_block_id (b : raw_block) : digest := id_of (sb_header (b_header b)).
Definition no_id : digest := mk_digest 0 0 0 0.

(** [append]: the index must end where the entry of this block belongs. *)
Definition block_log_append (b : raw_block) (l : block_log) : result (Z * block_log) :=
  check (genesis_written_to_block_log l) "Cannot append to block log until the genesis is first written" ;;
  let pos := Z.of_nat (length (block_file l)) in
  check (Z.of_nat (length (index_file l)) =? 8 * u32 (block_number b - log_first_block_num l))
    "Append to index file occuring at wrong position." ;;
  data ← pack c_signed_block b;
  Ok (pos, mk_log (block_file l ++ data ++ pos_bytes pos) (index_file l ++ pos_bytes pos) (Some b) (log_block_id b)
        (genesis_written_to_block_log l) (log_version l) (log_first_block_num l)).

(** [reset]: the version is written last, over the zero that was written
    first. *)
Definition log_reset (gs : raw_genesis) (first_block : option raw_block) (first_block_num : Z) : result block_log :=
  data ← pack c_genesis gs;
  let l := mk_log (bytes_of_word 4 0 ++ bytes_of_word 4 first_block_num ++ data ++ pos_bytes npos) []
             None no_id true 0 first_block_num in
  l ← match first_block with Some b => '(_, l) ← block_log_append b l; Ok l | None => Ok l end;
  Ok (mk_log (bytes_of_word 4 log_max_version ++ drop 4 (block_file l)) (index_file l) (head l) (head_id l)
        true log_max_version (log_first_block_num l)).

Definition read_block (pos : Z) (file : bytes) : result (raw_block * Z) :=
  '(b, s) ← of_read (unpack c_signed_block (seekg pos file));
  Ok (b, Z.of_nat (length file) - Z.of_nat (length s) + 8).

Definition get_block_pos (block_num : Z) (l : block_log) : result Z :=
  if negb (bool_decide (is_Some (head l)) && (block_num <=? num_from_id (head_id l)) && (block_num >=? log_first_block_num l))
  then Ok npos
  else '(pos, _) ← of_read (read_u64 (seekg (8 * u32 (block_num - log_first_block_num l)) (index_file l))); Ok pos.

Definition read_block_by_num (block_num : Z) (l : block_log) : result (option raw_block) :=
  pos ← get_block_pos block_num l;
  if negb (pos =? npos) then
    '(b, _) ← read_block pos (block_file l);
    check (block_number b =? block_num) "Wrong block was read from block log." ;;
    Ok (Some b)
  else Ok None.
Definition read_block_by_id (id : digest) (l : block_log) : result (option raw_block) :=
  read_block_by_num (num_from_id id) l.

Definition read_head (file : bytes) : result (option raw_block) :=
  if Nat.leb (length file) 8 then Ok None
  else
    pos ← read_last file;
    if negb (pos =? npos) then '(b, _) ← read_block pos file; Ok (Some b) else Ok None.

(** The loop of [construct_index]: every turn takes more than eight bytes off
    the stream, whose length is the fuel. *)
Fixpoint construct_loop (fuel : nat) (pos end_pos : Z) (s : bytes) (index : bytes) : result bytes :=
  match fuel with
  | O => Err "ios_base::failure"
  | S fuel =>
    if pos <? end_pos then
      '(_, s) ← of_read (unpack c_signed_block s);
      '(pos, s) ← of_read (read_u64 s);
      construct_loop fuel pos end_pos s (index ++ pos_bytes pos)
    else Ok index
  end.

Definition construct_index (version : Z) (file : bytes) : result bytes :=
  end_pos ← read_last file;
  if end_pos =? npos then Ok []
  else
    let pos := if version =? 1 then 4 else 8 in
    '(_, s) ← of_read (unpack c_genesis (seekg pos file));
    s ← (if version >? 1 then '(_, s) ← of_read (read_u64 s); Ok s else Ok s);
    construct_loop (S (length s)) pos end_pos s [].

Definition check_version (version : Z) : result unit :=
  check (version >? 0) "Block log was not setup properly" ;;
  check ((version >=? log_min_version) && (version <=? log_max_version)) "Unsupported version of block log".

(** The first block number, after the version *)
Definition read_first (version : Z) (s : bytes) : result Z :=
  if version >? 1 then
    '(first_block_num, _) ← of_read (read_u32 s);
    check (first_block_num >? 0) "Block log is malformed, first recorded block number is 0" ;;
    Ok first_block_num
  else Ok 1.

(** [open], with the two files that are there *)
Definition log_open (log index : bytes) : result block_log :=
  if negb (Nat.eqb (length log) 0) then
    '(version, s) ← of_read (read_u32 log);
    check_version version ;;
    first_block_num ← read_first version s;
    head ← read_head log;
    let head_id := match head with Some b => log_block_id b | None => no_id end in
    index ← (if negb (Nat.eqb (length index) 0) then
               block_pos ← read_last log;
               index_pos ← read_last index;
               if (block_pos <? index_pos) || (block_pos >? index_pos) then construct_index version log else Ok index
             else construct_index version log);
    Ok (mk_log log index head head_id true version first_block_num)
  else Ok (mk_log [] [] None no_id false 0 0).

(** ** Repairing

    The streams of [repair_log] do not throw: a block that is cut short is
    read as an undefined value from a stream that has failed, or fails an
    assertion; either way nothing more is recovered ([cut_short]).  [Thrown]
    keeps what would be saved as the bad tail: from where the stream stands,
    filled up with zeros.  A header that is cut short leaves undefined values,
    an error here. *)
Inductive repair_stop := undamaged | stopped_early | bad_block (b : raw_block) | cut_short | incomplete (tail : bytes).

Fixpoint repair_loop (fuel : nat) (truncate_at_block : Z) (end_pos pos : Z) (s : bytes) (new_log : bytes) (block_num : Z)
    : result (bytes * repair_stop) :=
  match fuel with
  | O => Err "fuel"
  | S fuel =>
    if negb (pos <? end_pos) then Ok (new_log, undamaged)
    else
      match unpack c_signed_block s with
      | Ended => Ok (new_log, cut_short)
      | Thrown _ rest =>
        let n := Z.to_nat (end_pos - pos) in
        Ok (new_log, incomplete (take n rest ++ replicate (n - length rest) 0))
      | Got tmp s =>
        let '(tmp_pos, s) :=
          match read_u64 s with Got p s => (p, s) | _ => (UINT64_MAX, s) end in
        if negb (pos =? tmp_pos) then Ok (new_log, bad_block tmp)
        else
          data ← pack c_signed_block tmp;
          let new_log := new_log ++ data ++ pos_bytes pos in
          let block_num := block_number tmp in
          let pos := Z.of_nat (length new_log) in
          if block_num =? truncate_at_block then
            Ok (new_log, if pos <? end_pos then stopped_early else undamaged)
          else repair_loop fuel truncate_at_block end_pos pos s new_log block_num
      end
  end.

Definition repair_log (old_log : bytes) (truncate_at_block : Z) : result (bytes * repair_stop) :=
  let end_pos := Z.of_nat (length old_log) in
  '(version, s) ← of_read (read_u32 old_log);
  check_version version ;;
  '(first_bytes, s) ← (if negb (version =? 1)
                       then '(n, s) ← of_read (read_u32 s); Ok (bytes_of_word 4 n, s) else Ok ([], s));
  '(gs, s) ← of_read (unpack c_genesis s);
  data ← pack c_genesis gs;
  '(totem, s) ← (if negb (version =? 1) then
                   '(actual_totem, s) ← of_read (read_u64 s);
                   check (actual_totem =? npos) "Expected separator between block log header and blocks was not found" ;;
                   Ok (pos_bytes actual_totem, s)
                 else Ok ([], s));
  let new_log := bytes_of_word 4 version ++ first_bytes ++ data ++ totem in
  repair_loop (S (length s)) truncate_at_block end_pos (end_pos - Z.of_nat (length s)) s new_log 0.

Definition extract_genesis_state (log : bytes) : result raw_genesis :=
  '(version, s) ← of_read (read_u32 log);
  check_version version ;;
  '(_, s) ← (if negb (version =? 1) then of_read (read_u32 s) else Ok (1, s));
  '(gs, _) ← of_read (unpack c_genesis s);
  Ok gs.
End BlockLog.

(** ** The block log: what it keeps *)

(** ** Bytes and positions *)

Section Bytes.
Lemma seekg_app (a b : bytes) : seekg (Z.of_nat (length a)) (a ++ b) = b.
Proof.
  unfold seekg. rewrite length_app. rewrite (proj2 (Z.ltb_ge _ _)) by lia. by rewrite Nat2Z.id, drop_app_length.
Qed.
Lemma pos_bytes_length p : length (pos_bytes p) = 8%nat.
Proof. apply bytes_of_word_length. Qed.
Lemma pos_bytes_word p : is_u64 p -> word_of_bytes (pos_bytes p) = p.
Proof. intros Hp. apply word_bytes. exact Hp. Qed.

Lemma read_u64_pos p s : is_u64 p -> read_u64 (pos_bytes p ++ s) = Got p s.
Proof. intros Hp. by apply (c_uint_lawful 8 p (pos_bytes p)). Qed.
Lemma read_u64_short s : (length s < 8)%nat -> read_u64 s = Ended.
Proof.
  intros Hs. unfold read_u64, c_uint, unpack, rbind, read_bytes. replace (Nat.leb 8 (length s)) with false; [done|].
  symmetry. by apply Nat.leb_gt.
Qed.
Lemma read_u32_word n s : is_u32 n -> read_u32 (bytes_of_word 4 n ++ s) = Got n s.
Proof. intros Hn. by apply (c_uint_lawful 4 n (bytes_of_word 4 n)). Qed.

Lemma read_last_app s p : is_u64 p -> read_last (s ++ pos_bytes p) = Ok p.
Proof.
  intros Hp. unfold read_last. rewrite length_app, pos_bytes_length.
  replace (Nat.leb 8 (length s + 8)) with true by (symmetry; apply Nat.leb_le; lia). cbn [check mbind result_bind].
  replace (length s + 8 - 8)%nat with (length s) by lia. by rewrite drop_app_length, pos_bytes_word.
Qed.
End Bytes.

Section Spec.
Context `{Zlib} `{HeaderCrypto public_key signature}.
Implicit Types (b : raw_block) (blocks : list raw_block) (gs : raw_genesis).

Definition packed_block b : bytes := from_ok [] (pack c_signed_block b).
Definition storable b : Prop := block_fits b /\ is_ok (pack c_signed_block b) = true.
Definition packed_genesis gs : bytes := from_ok [] (pack c_genesis gs).

Lemma packed_block_ok b : storable b -> pack c_signed_block b = Ok (packed_block b).
Proof. intros [_ Hb]. by apply from_ok_eq. Qed.
Lemma packed_block_reads b s : storable b -> unpack c_signed_block (packed_block b ++ s) = Got b s.
Proof. intros Hb. apply (c_signed_block_lawful b); [apply Hb|by apply packed_block_ok]. Qed.
Lemma packed_block_ends b p q : storable b -> packed_block b = p ++ q -> q <> [] -> unpack c_signed_block p = Ended.
Proof. intros Hb. apply (c_signed_block_lawful b); [apply Hb|by apply packed_block_ok]. Qed.
(** The genesis state has a fixed size. *)
Lemma packed_genesis_ok gs : genesis_fits gs -> pack c_genesis gs = Ok (packed_genesis gs).
Proof. intros (_ & Hk & _). apply from_ok_eq. destruct gs as [t [k|k] c]; reflexivity. Qed.
Lemma packed_genesis_reads gs s : genesis_fits gs -> unpack c_genesis (packed_genesis gs ++ s) = Got gs s.
Proof. intros Hg. apply (c_genesis_lawful gs); [done|by apply packed_genesis_ok]. Qed.

(** ** The two files of a list of blocks *)

Definition log_header gs (first : Z) : bytes :=
  bytes_of_word 4 log_max_version ++ bytes_of_word 4 first ++ packed_genesis gs ++ pos_bytes npos.
Fixpoint log_body (pos : Z) blocks : bytes :=
  match blocks with
  | [] => []
  | b :: blocks => packed_block b ++ pos_bytes pos ++ log_body (pos + Z.of_nat (length (packed_block b)) + 8) blocks
  end.
Fixpoint positions (pos : Z) blocks : list Z :=
  match blocks with
  | [] => []
  | b :: blocks => pos :: positions (pos + Z.of_nat (length (packed_block b)) + 8) blocks
  end.
Definition header_size gs first : Z := Z.of_nat (length (log_header gs first)).
Definition log_bytes gs first blocks : bytes := log_header gs first ++ log_body (header_size gs first) blocks.
Definition index_bytes gs first blocks : bytes := concat (map pos_bytes (positions (header_size gs first) blocks)).

(** Consecutive numbers, everything fits, and the file is not too long. *)
Definition well_numbered (first : Z) blocks : Prop :=
  forall (i : nat) b, blocks !! i = Some b -> block_number b = first + Z.of_nat i.
Record loggable gs (first : Z) blocks : Prop := {
  lg_genesis : genesis_fits gs;
  lg_first : 1 <= first /\ first + Z.of_nat (length blocks) <= 2 ^ 32;
  lg_storable : Forall storable blocks;
  lg_numbers : well_numbered first blocks;
  lg_size : Z.of_nat (length (log_bytes gs first blocks)) < 2 ^ 63 }.

(** The state of the log object for a list of blocks *)
Definition log_of gs first blocks : block_log :=
  mk_log (log_bytes gs first blocks) (index_bytes gs first blocks) (last blocks)
    (match last blocks with Some b => log_block_id b | None => no_id end) true log_max_version first.

Lemma log_body_app p l1 l2 : log_body p (l1 ++ l2) = log_body p l1 ++ log_body (p + Z.of_nat (length (log_body p l1))) l2.
Proof.
  revert p. induction l1 as [|b l1 IH]; intros p; cbn [log_body app]; [f_equal; cbn; lia|].
  rewrite IH, <- !app_assoc. do 3 f_equal. rewrite !length_app, pos_bytes_length. f_equal. lia.
Qed.
Lemma positions_app p l1 l2 : positions p (l1 ++ l2) = positions p l1 ++ positions (p + Z.of_nat (length (log_body p l1))) l2.
Proof.
  revert p. induction l1 as [|b l1 IH]; intros p; cbn [positions log_body app]; [f_equal; cbn; lia|].
  rewrite IH. do 2 f_equal. rewrite !length_app, pos_bytes_length. f_equal. lia.
Qed.
Lemma concat_positions_length l : length (concat (map pos_bytes l)) = (8 * length l)%nat.
Proof. induction l as [|p l IH]; cbn [concat map length]; [done|]. rewrite length_app, IH, pos_bytes_length. lia. Qed.
Lemma positions_length p blocks : length (positions p blocks) = length blocks.
Proof. revert p. induction blocks; intros; cbn; auto. Qed.
Lemma index_length gs first blocks : Z.of_nat (length (index_bytes gs first blocks)) = 8 * Z.of_nat (length blocks).
Proof. unfold index_bytes. rewrite concat_positions_length, positions_length. lia. Qed.

Lemma log_bytes_app gs first l1 l2 :
  log_bytes gs first (l1 ++ l2) = log_bytes gs first l1 ++ log_body (Z.of_nat (length (log_bytes gs first l1))) l2.
Proof.
  unfold log_bytes. rewrite log_body_app, <- app_assoc. do 3 f_equal. unfold header_size. rewrite length_app. lia.
Qed.
Lemma log_bytes_snoc gs first blocks b :
  log_bytes gs first (blocks ++ [b]) = log_bytes gs first blocks ++ packed_block b ++ pos_bytes (Z.of_nat (length (log_bytes gs first blocks))).
Proof. rewrite log_bytes_app. cbn [log_body]. by rewrite app_nil_r. Qed.
Lemma index_bytes_app gs first l1 l2 :
  index_bytes gs first (l1 ++ l2) = index_bytes gs first l1 ++ concat (map pos_bytes (positions (Z.of_nat (length (log_bytes gs first l1))) l2)).
Proof.
  unfold index_bytes. rewrite positions_app, map_app, concat_app. do 4 f_equal. unfold log_bytes, header_size. rewrite length_app. lia.
Qed.

Lemma loggable_prefix gs first l1 l2 : loggable gs first (l1 ++ l2) -> loggable gs first l1.
Proof.
  intros [G F S N L]. split; [done| | | |].
  - rewrite length_app in F. lia.
  - by apply Forall_app in S as [S _].
  - intros i b Hi. apply N. by apply lookup_app_l_Some.
  - rewrite log_bytes_app, length_app in L. lia.
Qed.
Lemma loggable_at gs first l1 b l2 : loggable gs first (l1 ++ b :: l2) ->
  storable b /\ block_number b = first + Z.of_nat (length l1) /\ is_u64 (Z.of_nat (length (log_bytes gs first l1))) /\
  Z.of_nat (length (log_bytes gs first l1)) <> npos /\ is_u32 (first + Z.of_nat (length l1)).
Proof.
  intros [G F S N L]. apply Forall_app in S as [_ S]. rewrite log_bytes_app, length_app in L. rewrite length_app in F. cbn [length] in F.
  split; [by inversion S|]. split; [apply N; by rewrite lookup_app_r, Nat.sub_diag|]. unfold npos. split_and!; mach_lia.
Qed.

(** ** Writing *)

Lemma block_number_u32 b : is_u32 (block_number b).
Proof. apply u32_range. Qed.

Lemma block_log_append_ok gs first blocks b : loggable gs first (blocks ++ [b]) ->
  block_log_append b (log_of gs first blocks) = Ok (Z.of_nat (length (log_bytes gs first blocks)), log_of gs first (blocks ++ [b])).
Proof.
  intros L. destruct (loggable_at _ _ _ _ _ L) as (S & N & _ & _ & _). pose proof (lg_first _ _ _ L) as F. rewrite length_app in F. cbn in F.
  unfold block_log_append, log_of. cbn [block_file index_file genesis_written_to_block_log log_first_block_num log_version check mbind result_bind].
  rewrite index_length, N. replace (first + Z.of_nat (length blocks) - first) with (Z.of_nat (length blocks)) by lia.
  rewrite u32_small, Z.eqb_refl by mach_lia. cbn [check mbind result_bind]. rewrite (packed_block_ok b S). cbn [mbind result_bind].
  rewrite log_bytes_snoc, index_bytes_app, last_snoc. cbn [positions map concat]. by rewrite app_nil_r.
Qed.

(** A block with any other number is refused. *)
Lemma block_log_append_refused gs first blocks b : loggable gs first blocks -> first + Z.of_nat (length blocks) < 2 ^ 32 ->
  block_number b <> first + Z.of_nat (length blocks) -> is_ok (block_log_append b (log_of gs first blocks)) = false.
Proof.
  intros L B N. pose proof (lg_first _ _ _ L) as F. pose proof (block_number_u32 b) as Hb.
  unfold block_log_append, log_of. cbn [block_file index_file genesis_written_to_block_log log_first_block_num check mbind result_bind].
  rewrite index_length. rewrite (proj2 (Z.eqb_neq _ _)); [done|]. unfold u32.
  pose proof (Z.div_mod (block_number b - first) (2 ^ 32) ltac:(lia)). pose proof (Z.mod_pos_bound (block_number b - first) (2 ^ 32) ltac:(lia)).
  intros E. assert (E' : (block_number b - first) mod 2 ^ 32 = Z.of_nat (length blocks)) by lia. rewrite E' in *.
  assert (-1 <= (block_number b - first) / 2 ^ 32 <= 0) by (split; [apply Z.div_le_lower_bound; mach_lia|apply Z.lt_succ_r, Z.div_lt_upper_bound; mach_lia]).
  assert ((block_number b - first) / 2 ^ 32 = 0 \/ (block_number b - first) / 2 ^ 32 = -1) as [E0|E0] by lia; rewrite E0 in *; mach_lia.
Qed.

Lemma drop_4 n s : drop 4 (bytes_of_word 4 n ++ s) = s.
Proof. apply drop_app_length'. by rewrite bytes_of_word_length. Qed.

Lemma reset_empty gs first : loggable gs first [] -> log_reset gs None first = Ok (log_of gs first []).
Proof.
  intros L. unfold log_reset. rewrite (packed_genesis_ok gs) by apply L. cbn [mbind result_bind block_file index_file head head_id log_first_block_num].
  rewrite drop_4. unfold log_of, log_bytes, index_bytes, log_header. cbn [log_body positions map concat last]. by rewrite app_nil_r.
Qed.
Lemma reset_block gs first b : loggable gs first [b] -> log_reset gs (Some b) first = Ok (log_of gs first [b]).
Proof.
  intros L. destruct (loggable_at gs first [] b [] L) as (S & N & _). unfold log_reset. rewrite (packed_genesis_ok gs) by apply L.
  cbn [mbind result_bind]. unfold block_log_append. cbn [block_file index_file genesis_written_to_block_log log_first_block_num log_version check mbind result_bind].
  rewrite N. cbn [length]. rewrite Z.add_0_r, Z.sub_diag. change (Z.of_nat 0 =? 8 * u32 0) with true. cbn [check mbind result_bind].
  rewrite (packed_block_ok b S). cbn [mbind result_bind block_file index_file head head_id log_first_block_num].
  rewrite <- !app_assoc. rewrite drop_4. unfold log_of, log_bytes, index_bytes, log_header. cbn [log_body positions map concat last].
  rewrite <- !app_assoc, !app_nil_r. do 8 f_equal.
  all: unfold header_size, log_header; by rewrite !length_app, !bytes_of_word_length.
Qed.

(** ** Reading *)

Lemma head_number gs first blocks b : loggable gs first blocks -> last blocks = Some b ->
  num_from_id (log_block_id b) = first + Z.of_nat (length blocks) - 1.
Proof.
  intros L E. unfold log_block_id. rewrite id_carries_num_lemma. fold (block_number b). apply last_Some in E as [l' ->].
  destruct (loggable_at _ _ _ _ _ L) as (_ & -> & _). rewrite length_app. cbn. lia.
Qed.

Lemma read_block_ok gs first l1 b l2 : loggable gs first (l1 ++ b :: l2) ->
  exists n, read_block (Z.of_nat (length (log_bytes gs first l1))) (log_bytes gs first (l1 ++ b :: l2)) = Ok (b, n).
Proof.
  intros L. destruct (loggable_at _ _ _ _ _ L) as (S & _). unfold read_block. rewrite log_bytes_app, seekg_app. cbn [log_body].
  rewrite (packed_block_reads b _ S). cbn. by eexists.
Qed.

Lemma get_block_pos_ok gs first l1 b l2 : loggable gs first (l1 ++ b :: l2) ->
  get_block_pos (first + Z.of_nat (length l1)) (log_of gs first (l1 ++ b :: l2)) = Ok (Z.of_nat (length (log_bytes gs first l1))).
Proof.
  intros L. destruct (loggable_at _ _ _ _ _ L) as (S & N & U & _ & R). pose proof (lg_first _ _ _ L) as F.
  rewrite length_app in F. cbn [length] in F.
  unfold get_block_pos, log_of. cbn [head head_id log_first_block_num index_file].
  destruct (last (l1 ++ b :: l2)) as [h|] eqn:El; [|apply last_None in El; by destruct l1].
  rewrite (head_number _ _ _ _ L El), length_app. cbn [length].
  rewrite bool_decide_eq_true_2 by done. rewrite (proj2 (Z.leb_le _ _)) by lia. rewrite Z.geb_leb, (proj2 (Z.leb_le _ _)) by lia. cbn [andb negb].
  replace (first + Z.of_nat (length l1) - first) with (Z.of_nat (length l1)) by lia. rewrite u32_small by mach_lia.
  rewrite index_bytes_app. rewrite <- index_length with (gs := gs) (first := first), seekg_app. cbn [positions map concat].
  by rewrite read_u64_pos.
Qed.

(** The log answers like the list of its blocks. *)
Lemma read_by_num_ok gs first blocks n : loggable gs first blocks -> is_u32 n ->
  read_block_by_num n (log_of gs first blocks) = Ok (if first <=? n then blocks !! Z.to_nat (n - first) else None).
Proof.
  intros L Hn. destruct (Z.leb_spec first n) as [Hf|Hf].
  - destruct (blocks !! Z.to_nat (n - first)) as [b|] eqn:E.
    + apply list_elem_of_split_length in E as (l1 & l2 & -> & El). assert (n = first + Z.of_nat (length l1)) as -> by lia.
      unfold read_block_by_num. rewrite (get_block_pos_ok _ _ _ _ _ L). cbn [mbind result_bind].
      destruct (loggable_at _ _ _ _ _ L) as (_ & N & _ & Np & _). rewrite (proj2 (Z.eqb_neq _ _)) by done. cbn [negb].
      destruct (read_block_ok _ _ _ _ _ L) as [k Hk]. cbn [block_file log_of]. rewrite Hk. cbn [mbind result_bind]. by rewrite N, Z.eqb_refl.
    + apply lookup_ge_None in E. unfold read_block_by_num, get_block_pos, log_of. cbn [head head_id log_first_block_num].
      destruct (last blocks) as [h|] eqn:El.
      * rewrite (head_number _ _ _ _ L El). rewrite (proj2 (Z.leb_gt _ _)) by lia. rewrite andb_false_r. done.
      * done.
  - unfold read_block_by_num, get_block_pos, log_of. cbn [head head_id log_first_block_num].
    rewrite Z.geb_leb, (proj2 (Z.leb_gt first n)) by lia. by rewrite andb_false_r.
Qed.

(** ** Opening *)

(** The position of the last block *)
Lemma last_position gs first blocks : loggable gs first blocks ->
  read_last (log_bytes gs first blocks) =
    Ok (match blocks with [] => npos | _ => Z.of_nat (length (log_bytes gs first (removelast blocks))) end).
Proof.
  intros L. destruct blocks as [|b0 blocks].
  - unfold log_bytes, log_header. cbn [log_body]. rewrite app_nil_r, !app_assoc. apply read_last_app. unfold npos. mach_lia.
  - destruct (exists_last (l := b0 :: blocks)) as (l' & b & E); [done|]. rewrite E, removelast_last in *.
    destruct (loggable_at _ _ _ _ _ L) as (_ & _ & U & _). rewrite log_bytes_snoc, app_assoc. by apply read_last_app.
Qed.

(** The loop writes the positions of all blocks: [pos] is below the last. *)
Lemma construct_loop_ok fuel pos q l1 b idx : Forall storable (l1 ++ [b]) -> 0 <= q ->
  q + Z.of_nat (length (log_body q (l1 ++ [b]))) < 2 ^ 63 -> (length l1 + 1 < fuel)%nat -> pos < q ->
  construct_loop fuel pos (q + Z.of_nat (length (log_body q l1))) (log_body q (l1 ++ [b])) idx =
    Ok (idx ++ concat (map pos_bytes (positions q (l1 ++ [b])))).
Proof.
  revert fuel pos q idx. induction l1 as [|c l1 IH]; intros fuel pos q idx S Hq Hs Hf Hp; (destruct fuel as [|fuel]; [cbn in Hf; lia|]);
    cbn [construct_loop app log_body positions map concat] in *; apply Forall_cons in S as [Sc S].
  - rewrite (proj2 (Z.ltb_lt _ _)) by (cbn; lia). rewrite (packed_block_reads _ _ Sc). cbn [of_read mbind result_bind].
    rewrite read_u64_pos by (rewrite !length_app in Hs; cbn in Hs; mach_lia). cbn [of_read mbind result_bind].
    destruct fuel as [|fuel]; [cbn in Hf; lia|]. cbn [construct_loop]. rewrite (proj2 (Z.ltb_ge _ _)) by (cbn; lia). by rewrite app_nil_r.
  - rewrite !length_app, pos_bytes_length in *. rewrite (proj2 (Z.ltb_lt _ _)) by lia. rewrite (packed_block_reads _ _ Sc). cbn [of_read mbind result_bind].
    rewrite read_u64_pos by mach_lia. cbn [of_read mbind result_bind].
    replace (q + Z.of_nat (length (packed_block c) + (8 + length (log_body (q + Z.of_nat (length (packed_block c)) + 8) l1))))
      with (q + Z.of_nat (length (packed_block c)) + 8 + Z.of_nat (length (log_body (q + Z.of_nat (length (packed_block c)) + 8) l1))) by lia.
    rewrite IH; [by rewrite <- app_assoc|done|lia|lia|cbn in Hf; lia|lia].
Qed.

Lemma log_body_fuel p blocks : (8 * length blocks <= length (log_body p blocks))%nat.
Proof. revert p. induction blocks as [|b l IH]; intros p; cbn [log_body length]; [lia|]. rewrite !length_app, pos_bytes_length. specialize (IH (p + Z.of_nat (length (packed_block b)) + 8)). lia. Qed.

Lemma log_bytes_header gs first blocks : log_bytes gs first blocks =
  (bytes_of_word 4 log_max_version ++ bytes_of_word 4 first) ++ packed_genesis gs ++ pos_bytes npos ++ log_body (header_size gs first) blocks.
Proof. unfold log_bytes, log_header. by rewrite <- !app_assoc. Qed.

Lemma header_size_8 gs first : 8 < header_size gs first.
Proof. unfold header_size, log_header. rewrite !length_app, !bytes_of_word_length, pos_bytes_length. lia. Qed.

Lemma seekg_header v n s : seekg 8 ((bytes_of_word 4 v ++ bytes_of_word 4 n) ++ s) = s.
Proof. exact (seekg_app (bytes_of_word 4 v ++ bytes_of_word 4 n) s). Qed.

Lemma construct_index_ok gs first blocks : loggable gs first blocks ->
  construct_index log_max_version (log_bytes gs first blocks) = Ok (index_bytes gs first blocks).
Proof.
  intros L. unfold construct_index. rewrite (last_position gs first blocks L). cbn [mbind result_bind].
  destruct (list_last_cases blocks) as [->|(l1 & b & ->)]; [by rewrite Z.eqb_refl|].
  destruct (loggable_at _ _ _ _ _ L) as (_ & _ & U & Np & _). rewrite removelast_last.
  replace (match l1 ++ [b] with [] => npos | _ => Z.of_nat (length (log_bytes gs first l1)) end)
    with (Z.of_nat (length (log_bytes gs first l1))) by (by destruct l1).
  rewrite (proj2 (Z.eqb_neq _ _)) by done. change (log_max_version =? 1) with false. cbn iota.
  rewrite (log_bytes_header gs first (l1 ++ [b])), seekg_header, packed_genesis_reads by apply L. cbn [of_read mbind result_bind]. change (log_max_version >? 1) with true. cbn iota.
  rewrite read_u64_pos by (unfold npos; mach_lia). cbn [of_read mbind result_bind].
  unfold index_bytes. pose proof (header_size_8 gs first). pose proof (lg_size _ _ _ L) as Hs. unfold log_bytes in Hs. rewrite length_app in Hs.
  pose proof (log_body_fuel (header_size gs first) (l1 ++ [b])) as Hf. rewrite length_app in Hf. cbn [length] in Hf.
  unfold log_bytes at 1. rewrite length_app, Nat2Z.inj_add. fold (header_size gs first).
  apply (construct_loop_ok _ 8 (header_size gs first) l1 b []); [apply L|lia|unfold header_size at 1; lia|lia|lia].
Qed.

Lemma read_head_ok gs first blocks : loggable gs first blocks -> read_head (log_bytes gs first blocks) = Ok (last blocks).
Proof.
  intros L. unfold read_head. pose proof (header_size_8 gs first) as H8. unfold header_size in H8.
  replace (Nat.leb _ 8) with false by (symmetry; apply Nat.leb_gt; unfold log_bytes; rewrite length_app; lia).
  rewrite (last_position gs first blocks L). cbn [mbind result_bind]. destruct (list_last_cases blocks) as [->|(l1 & b & ->)]; [by rewrite Z.eqb_refl|].
  destruct (loggable_at _ _ _ _ _ L) as (_ & _ & U & Np & _). rewrite removelast_last.
  replace (match l1 ++ [b] with [] => npos | _ => Z.of_nat (length (log_bytes gs first l1)) end)
    with (Z.of_nat (length (log_bytes gs first l1))) by (by destruct l1).
  rewrite (proj2 (Z.eqb_neq _ _)) by done. cbn [negb]. destruct (read_block_ok gs first l1 b [] L) as [k ->]. cbn. by rewrite last_snoc.
Qed.

(** The version and the first block number at the start of a log *)
Lemma read_version_ok gs first blocks : 1 <= first < 2 ^ 32 ->
  exists s, of_read (read_u32 (log_bytes gs first blocks)) = Ok (log_max_version, s) /\
    read_first log_max_version s = Ok first /\ s = bytes_of_word 4 first ++ packed_genesis gs ++ pos_bytes npos ++ log_body (header_size gs first) blocks.
Proof.
  intros F. rewrite log_bytes_header, <- app_assoc. rewrite read_u32_word by (unfold log_max_version; mach_lia). eexists. split; [done|].
  split; [|done]. unfold read_first. change (log_max_version >? 1) with true. cbn iota. rewrite read_u32_word by mach_lia.
  cbn [of_read mbind result_bind]. by rewrite Z.gtb_ltb, (proj2 (Z.ltb_lt _ _)) by lia.
Qed.

(** An index file is usable unless its last entry happens to be that of the
    log although the others are not: the right one is, an empty one, and one
    that ends elsewhere. *)
Definition recoverable gs first blocks (index : bytes) : Prop :=
  index = index_bytes gs first blocks \/ index = [] \/
  exists p q, index = q ++ pos_bytes p /\ is_u64 p /\ read_last (log_bytes gs first blocks) <> Ok p.

(** The index of an earlier state of the log is one that ends elsewhere. *)
Lemma earlier_index_recoverable gs first l1 l2 : loggable gs first (l1 ++ l2) -> recoverable gs first (l1 ++ l2) (index_bytes gs first l1).
Proof.
  intros L. destruct (list_last_cases l2) as [->|(l2' & b & ->)]; [left; by rewrite app_nil_r|].
  destruct (list_last_cases l1) as [->|(l1' & c & ->)]; [right; by left|]. right. right.
  rewrite <- app_assoc in L. destruct (loggable_at _ _ _ _ _ L) as (_ & _ & U & _). rewrite app_assoc in L.
  exists (Z.of_nat (length (log_bytes gs first l1'))), (index_bytes gs first l1').
  split; [rewrite index_bytes_app; cbn [positions map concat]; by rewrite app_nil_r|]. split; [done|].
  rewrite (last_position _ _ _ L). intros E. apply (proj1 (Ok_inj _ _)) in E. revert E. rewrite app_assoc, removelast_last, log_bytes_app, log_bytes_snoc.
  destruct (((l1' ++ [c]) ++ l2') ++ [b]) eqn:Er; [by destruct ((l1' ++ [c]) ++ l2')|]. rewrite !length_app, pos_bytes_length. lia.
Qed.

(** Opening gives the log as it was, and rebuilds the index where it is
    missing or stale. *)
Lemma open_ok gs first blocks index : loggable gs first blocks -> first < 2 ^ 32 -> recoverable gs first blocks index ->
  log_open (log_bytes gs first blocks) index = Ok (log_of gs first blocks).
Proof.
  intros L F1 R. pose proof (lg_first _ _ _ L) as F. destruct (read_version_ok gs first blocks) as (s & E1 & E2 & _); [lia|].
  pose proof (header_size_8 gs first) as H8. unfold header_size in H8. unfold log_open.
  replace (Nat.eqb (length (log_bytes gs first blocks)) 0) with false
    by (symmetry; apply Nat.eqb_neq; unfold log_bytes; rewrite length_app; lia). cbn [negb].
  rewrite E1. cbn [mbind result_bind]. change (check_version log_max_version) with (@Ok unit tt). cbn [mbind result_bind].
  rewrite E2. cbn [mbind result_bind]. rewrite (read_head_ok gs first blocks L). cbn [mbind result_bind].
  match goal with |- (?x ≫= _) = _ => enough (Ei : x = Ok (index_bytes gs first blocks)) by (rewrite Ei; done) end.
  rewrite (construct_index_ok gs first blocks L). destruct R as [->|[->|(p & q & -> & Hp & Hr)]]; [|done|].
  - destruct (list_last_cases blocks) as [->|(l1 & b & ->)]; [done|]. destruct (loggable_at _ _ _ _ _ L) as (_ & _ & U & Np & _).
    assert (Ex : index_bytes gs first (l1 ++ [b]) = index_bytes gs first l1 ++ pos_bytes (Z.of_nat (length (log_bytes gs first l1))))
      by (rewrite index_bytes_app; cbn [positions map concat]; by rewrite app_nil_r).
    rewrite (last_position _ _ _ L), removelast_last, Ex, (read_last_app _ _ U). cbn [mbind result_bind].
    replace (match l1 ++ [b] with [] => npos | _ => Z.of_nat (length (log_bytes gs first l1)) end)
      with (Z.of_nat (length (log_bytes gs first l1))) by (by destruct l1).
    rewrite Z.gtb_ltb, Z.ltb_irrefl. cbn [orb]. by destruct (negb _).
  - rewrite length_app, pos_bytes_length. replace (Nat.eqb (length q + 8) 0) with false by (symmetry; apply Nat.eqb_neq; lia). cbn [negb].
    rewrite (last_position _ _ _ L) in *. cbn [mbind result_bind]. rewrite (read_last_app _ _ Hp). cbn [mbind result_bind].
    set (e := match blocks with [] => npos | _ => _ end) in *. assert (e <> p) by congruence.
    replace ((e <? p) || (e >? p)) with true; [done|]. symmetry. rewrite Z.gtb_ltb, orb_true_iff, !Z.ltb_lt. lia.
Qed.

Lemma genesis_extracted gs first blocks : loggable gs first blocks -> first < 2 ^ 32 ->
  extract_genesis_state (log_bytes gs first blocks) = Ok gs.
Proof.
  intros L F1. pose proof (lg_first _ _ _ L). destruct (read_version_ok gs first blocks) as (s & E1 & _ & ->); [lia|]. unfold extract_genesis_state.
  rewrite E1. cbn [mbind result_bind]. change (check_version log_max_version) with (@Ok unit tt). cbn [mbind result_bind].
  change (negb (log_max_version =? 1)) with true. cbn iota. rewrite read_u32_word by mach_lia. cbn [of_read mbind result_bind].
  rewrite packed_genesis_reads by apply L. done.
Qed.

(** ** Repairing *)

(** The blocks whose entries are complete in the first [avail] bytes after the
    header, up to block [t]. *)
Fixpoint complete_blocks (avail : nat) (t : Z) blocks : list raw_block :=
  match blocks with
  | [] => []
  | b :: blocks =>
    let size := (length (packed_block b) + 8)%nat in
    if Nat.ltb avail size then []
    else b :: (if block_number b =? t then [] else complete_blocks (avail - size) t blocks)
  end.

Lemma complete_prefix avail t blocks : complete_blocks avail t blocks `prefix_of` blocks.
Proof.
  revert avail. induction blocks as [|b l IH]; intros avail; cbn [complete_blocks]; [done|]. destruct (Nat.ltb _ _); [apply prefix_nil|].
  apply prefix_cons. destruct (_ =? t); [apply prefix_nil|apply IH].
Qed.

(** One entry that is cut within its block, or within its position *)
Lemma repair_cut_block b rest m : storable b -> (m < length (packed_block b))%nat ->
  unpack c_signed_block (take m (packed_block b ++ rest)) = Ended.
Proof.
  intros Sb Hm. rewrite take_app_le by lia. apply (packed_block_ends b _ (drop m (packed_block b)) Sb); [by rewrite take_drop|].
  intros E. apply (f_equal length) in E. rewrite length_drop in E. cbn in E. lia.
Qed.

Lemma take_entry b p rest m : (length (packed_block b) <= m)%nat ->
  take m (packed_block b ++ pos_bytes p ++ rest) = packed_block b ++ take (m - length (packed_block b)) (pos_bytes p ++ rest).
Proof. intros Hm. by rewrite take_app_ge. Qed.

Lemma repair_loop_ok fuel t m pos blocks new_log num : Forall storable blocks ->
  Z.of_nat (length new_log) = pos -> pos + Z.of_nat (length (log_body pos blocks)) < 2 ^ 63 ->
  (length (take m (log_body pos blocks)) < fuel)%nat ->
  exists stop, repair_loop fuel t (pos + Z.of_nat (length (take m (log_body pos blocks)))) pos (take m (log_body pos blocks)) new_log num =
    Ok (new_log ++ log_body pos (complete_blocks m t blocks), stop).
Proof.
  intros S. revert fuel m pos new_log num. induction S as [|b blocks Sb S IH]; intros fuel m pos new_log num Hn Hs Hf; (destruct fuel as [|fuel]; [lia|]).
  { cbn [log_body complete_blocks]. rewrite take_nil. cbn [length repair_loop]. rewrite Z.add_0_r, Z.ltb_irrefl. cbn [negb]. rewrite app_nil_r. by eexists. }
  cbn [log_body complete_blocks] in *. set (rest := log_body (pos + Z.of_nat (length (packed_block b)) + 8) blocks) in *.
  rewrite !length_app, pos_bytes_length in Hs. cbn [repair_loop].
  destruct (Nat.lt_ge_cases m (length (packed_block b))) as [H1|H1].
  { rewrite (proj2 (Nat.ltb_lt m _)) by lia. cbn [log_body]. rewrite app_nil_r, (repair_cut_block b _ m Sb H1). destruct (negb _); by eexists. }
  rewrite (take_entry b pos rest m H1) in *. rewrite (packed_block_reads b _ Sb).
  assert (G : forall n, pos < pos + Z.of_nat (length (packed_block b ++ n)) \/ length (packed_block b) = 0%nat) by (intros; rewrite length_app; lia).
  destruct (Nat.lt_ge_cases (m - length (packed_block b)) 8) as [H2|H2].
  { rewrite (proj2 (Nat.ltb_lt m _)) by lia. cbn [log_body]. rewrite app_nil_r. rewrite read_u64_short by (rewrite length_take; lia).
    rewrite (proj2 (Z.eqb_neq pos UINT64_MAX)) by mach_lia. destruct (negb (_ <? _)); by eexists. }
  rewrite (proj2 (Nat.ltb_ge m _)) by lia. rewrite (take_app_ge (pos_bytes pos)) in * by (rewrite pos_bytes_length; lia). rewrite pos_bytes_length in *.
  rewrite read_u64_pos by mach_lia. rewrite Z.eqb_refl. cbn [negb]. rewrite (packed_block_ok b Sb). cbn [mbind result_bind].
  replace (m - length (packed_block b) - 8)%nat with (m - (length (packed_block b) + 8))%nat in * by lia.
  rewrite !length_app, pos_bytes_length in *. rewrite (proj2 (Z.ltb_lt pos _)) by lia. cbn [negb]. cbn [log_body].
  assert (En : Z.of_nat (length new_log + (length (packed_block b) + 8)) = pos + Z.of_nat (length (packed_block b)) + 8) by lia. rewrite En.
  destruct (block_number b =? t); [cbn [log_body]; rewrite app_nil_r; by eexists|].
  destruct (IH fuel (m - (length (packed_block b) + 8))%nat (pos + Z.of_nat (length (packed_block b)) + 8)
    (new_log ++ packed_block b ++ pos_bytes pos) (block_number b)) as [stop E]; [rewrite !length_app, pos_bytes_length; lia|fold rest; lia|fold rest; lia|].
  fold rest in E. exists stop. rewrite <- !app_assoc in E. rewrite <- E. f_equal. lia.
Qed.

(** Whatever is left of a log after its header, repairing gives the log of the
    blocks that are complete, up to the block where it should stop. *)
Lemma repair_ok gs first blocks n t : loggable gs first blocks -> first < 2 ^ 32 ->
  exists stop, repair_log (take (length (log_header gs first) + n) (log_bytes gs first blocks)) t =
    Ok (log_bytes gs first (complete_blocks n t blocks), stop).
Proof.
  intros L F1. pose proof (lg_first _ _ _ L) as F. unfold log_bytes. rewrite take_app_add.
  set (s := take n (log_body (header_size gs first) blocks)). unfold repair_log.
  assert (E : read_u32 (log_header gs first ++ s) = Got log_max_version (bytes_of_word 4 first ++ packed_genesis gs ++ pos_bytes npos ++ s)).
  { unfold log_header. rewrite <- !app_assoc. apply read_u32_word. unfold log_max_version. mach_lia. }
  rewrite E. cbn [of_read mbind result_bind].
  change (check_version log_max_version) with (@Ok unit tt). cbn [mbind result_bind]. change (negb (log_max_version =? 1)) with true. cbn iota.
  rewrite read_u32_word by mach_lia. cbn [of_read mbind result_bind]. rewrite packed_genesis_reads by apply L. cbn [of_read mbind result_bind].
  rewrite (packed_genesis_ok gs) by apply L. cbn [mbind result_bind]. rewrite read_u64_pos by (unfold npos; mach_lia). cbn [of_read mbind result_bind].
  rewrite Z.eqb_refl. cbn [check mbind result_bind]. fold (log_header gs first).
  rewrite length_app. replace (Z.of_nat (length (log_header gs first) + length s) - Z.of_nat (length s)) with (header_size gs first) by (unfold header_size; lia).
  replace (Z.of_nat (length (log_header gs first) + length s)) with (header_size gs first + Z.of_nat (length s)) by (unfold header_size; lia).
  apply repair_loop_ok; [apply L|done| |unfold s; lia]. pose proof (lg_size _ _ _ L) as Hs. unfold log_bytes in Hs. rewrite length_app in Hs. unfold header_size at 1. lia.
Qed.

Lemma complete_all avail t blocks p : (forall b, b ∈ blocks -> block_number b <> t) -> (length (log_body p blocks) <= avail)%nat ->
  complete_blocks avail t blocks = blocks.
Proof.
  revert avail p. induction blocks as [|b l IH]; intros avail p Ht Hl; cbn [complete_blocks log_body] in *; [done|].
  rewrite !length_app, pos_bytes_length in Hl. rewrite (proj2 (Nat.ltb_ge _ _)) by lia. rewrite (proj2 (Z.eqb_neq _ _)) by (apply Ht; by left).
  f_equal. apply (IH _ (p + Z.of_nat (length (packed_block b)) + 8)); [intros c Hc; apply Ht; by right|lia].
Qed.

(** ** The theorems *)

(** A new log to which blocks are appended one after the other *)
Definition write_all gs first blocks : result block_log :=
  l ← log_reset gs None first;
  mfold (fun l b => '(_, l) ← block_log_append b l; Ok l) blocks l.

Lemma write_all_ok gs first blocks : loggable gs first blocks -> write_all gs first blocks = Ok (log_of gs first blocks).
Proof.
  intros L. induction blocks as [|b blocks IH] using rev_ind; unfold write_all in *; [by rewrite reset_empty|].
  specialize (IH (loggable_prefix _ _ _ _ L)). destruct (log_reset gs None first) as [l|]; [|done]. cbn [mbind result_bind] in *.
  rewrite mfold_app, IH. cbn [mbind result_bind mfold]. by rewrite (block_log_append_ok _ _ _ _ L).
Qed.

(** The log is the list of the blocks that were appended: it takes the block
    with the next number and no other, its head is the last block, and every
    number is answered with the block at its place, or with none. (C9) *)
Theorem block_log_is_list gs first blocks : loggable gs first blocks -> first + Z.of_nat (length blocks) < 2 ^ 32 ->
  exists l, write_all gs first blocks = Ok l /\ head l = last blocks /\
    (forall n, is_u32 n -> read_block_by_num n l = Ok (if first <=? n then blocks !! Z.to_nat (n - first) else None)) /\
    (forall b, is_ok (block_log_append b l) = true -> block_number b = first + Z.of_nat (length blocks)) /\
    (forall b, loggable gs first (blocks ++ [b]) -> exists pos l', block_log_append b l = Ok (pos, l') /\ write_all gs first (blocks ++ [b]) = Ok l').
Proof.
  intros L B. exists (log_of gs first blocks). split; [by apply write_all_ok|]. split; [done|]. split; [intros n Hn; by apply read_by_num_ok|]. split.
  - intros b E. destruct (Z.eq_dec (block_number b) (first + Z.of_nat (length blocks))) as [|N]; [done|]. by rewrite (block_log_append_refused gs first blocks b L B N) in E.
  - intros b Lb. do 2 eexists. split; [by apply block_log_append_ok|by apply write_all_ok].
Qed.

(** After a restart the log is as it was, whether the index is intact, gone,
    or ends with another position than the log, as it does when a crash came
    between the two writes of [append]. (C10) *)
Theorem block_log_restarts gs first blocks index l : loggable gs first blocks -> first < 2 ^ 32 -> write_all gs first blocks = Ok l ->
  recoverable gs first blocks index -> log_open (block_file l) index = Ok l /\ extract_genesis_state (block_file l) = Ok gs.
Proof.
  intros L F E R. rewrite (write_all_ok _ _ _ L) in E. apply (proj1 (Ok_inj _ _)) in E as <-. split; [by apply open_ok|by eapply genesis_extracted].
Qed.

(** A log of which only the header and [n] bytes are left is repaired: what
    comes out opens as the log of exactly the blocks that were complete, up to
    the block where it was told to stop; of an undamaged log, of all. (C13) *)
Theorem block_log_repaired gs first blocks n t : loggable gs first blocks -> first < 2 ^ 32 ->
  exists new_log stop, repair_log (take (length (log_header gs first) + n) (log_bytes gs first blocks)) t = Ok (new_log, stop) /\
    log_open new_log [] = Ok (log_of gs first (complete_blocks n t blocks)) /\
    complete_blocks n t blocks `prefix_of` blocks /\
    ((length (log_bytes gs first blocks) <= length (log_header gs first) + n)%nat -> (forall b, b ∈ blocks -> block_number b <> t) ->
      complete_blocks n t blocks = blocks).
Proof.
  intros L F. destruct (repair_ok gs first blocks n t L F) as [stop E]. do 2 eexists. split; [exact E|]. pose proof (complete_prefix n t blocks) as P.
  split; [|split; [done|]].
  - apply open_ok; [|done|right; by left]. destruct P as [k P]. rewrite P in L. by eapply loggable_prefix.
  - intros Hl Ht. apply (complete_all _ _ _ (header_size gs first)); [done|]. unfold log_bytes in Hl. rewrite length_app in Hl. lia.
Qed.
End Spec.

(** ** A log with two blocks *)

Module LogRuns.
Import RawRuns.

#[export] Instance log_crypto : HeaderCrypto public_key signature := {
  hash_of_pair := fun p => p.1; header_digest := fun h => mk_digest (h_timestamp h) (h_producer h) 0 0;
  schedule_digest := fun s => zero; recover_key := fun _ s _ => Ok (inl []); default_key := inl []; default_signature := inl [];
  pack_features := toy_pack; unpack_features := toy_unpack; unpack_pack := toy_unpack_pack }.

Definition log_genesis : raw_genesis := mk_genesis 1528000000000000 (inl (replicate 33 3)) genesis_config.
Definition second_header : block_header public_key := mk_header 1001 6 1 (mk_digest 33554432 1 2 3) zero zero 1 None [].
Definition next_block : raw_block := mk_block (mk_signed second_header (sig_of 33)) [] [(5, [Ascii.zero])].
Definition two : list raw_block := [block; next_block].

Lemma two_loggable : loggable log_genesis 2 two.
Proof.
  split.
  - unfold genesis_fits, config_fits. cbn. split_and!; try reflexivity; vm_compute; split; congruence.
  - cbn. lia.
  - constructor; [split; [exact block_fits_block|vm_compute; reflexivity]|]. constructor; [|constructor]. split; [|vm_compute; reflexivity].
    split; [split; [|done]|split; [constructor|by repeat constructor; cbn]].
    unfold header_fits, digest_wf, exts_fit. cbn. split_and!; try mach_lia; [done|constructor].
  - intros [|[|i]] b E; cbn in E; [by injection E as <-|by injection E as <-|done].
  - vm_compute. reflexivity.
Qed.

Lemma block_log_is_list_witness : exists l, write_all log_genesis 2 two = Ok l /\ head l = Some next_block /\
  read_block_by_num 3 l = Ok (Some next_block) /\ read_block_by_num 1 l = Ok None.
Proof.
  destruct (block_log_is_list log_genesis 2 two two_loggable ltac:(cbn; lia)) as (l & E & Hh & R & _). exists l. split; [done|]. split; [done|].
  split; rewrite R by mach_lia; reflexivity.
Defined.

(** The second position is missing in the index. *)
Lemma block_log_restarts_witness : exists l, write_all log_genesis 2 two = Ok l /\
  log_open (block_file l) (index_bytes log_genesis 2 [block]) = Ok l /\ extract_genesis_state (block_file l) = Ok log_genesis.
Proof.
  exists (log_of log_genesis 2 two). split; [apply write_all_ok, two_loggable|].
  apply (block_log_restarts log_genesis 2 two); [exact two_loggable|lia|apply write_all_ok, two_loggable|].
  apply (earlier_index_recoverable log_genesis 2 [block] [next_block]). exact two_loggable.
Defined.

(** All but the last byte *)
Lemma block_log_repaired_witness : exists new_log stop, repair_log (removelast (log_bytes log_genesis 2 two)) 0 = Ok (new_log, stop) /\
  log_open new_log [] = Ok (log_of log_genesis 2 [block]).
Proof.
  pose (n := (length (log_body (header_size log_genesis 2) two) - 1)%nat).
  destruct (block_log_repaired log_genesis 2 two n 0 two_loggable ltac:(lia)) as (new_log & stop & E & O & _). exists new_log, stop.
  assert (T : take (length (log_header log_genesis 2) + n) (log_bytes log_genesis 2 two) = removelast (log_bytes log_genesis 2 two)) by (vm_compute; reflexivity).
  rewrite <- T. split; [exact E|]. assert (C : complete_blocks n 0 two = [block]) by (vm_compute; reflexivity). by rewrite <- C.
Defined.

(** What [repair_log] saves as the bad tail of a log: a block whose 115th byte
    fails an assertion, and what follows it, are not saved, but what follows
    it and as many zeros. *)
Definition bad_bytes : bytes := replicate 114 1 ++ [2; 77; 78; 79].
Example saved_tail : repair_log (log_bytes log_genesis 2 [block] ++ bad_bytes) 0 =
    Ok (log_bytes log_genesis 2 [block], incomplete ([77; 78; 79] ++ replicate 115 0)).
Proof. vm_compute. reflexivity. Qed.
(** Only the last entry of the index is compared: a wrong one before it stays. *)
Example index_not_compared : let bad := pos_bytes 0 ++ pos_bytes (Z.of_nat (length (log_bytes log_genesis 2 [block]))) in
  exists l, log_open (log_bytes log_genesis 2 two) bad = Ok l /\ index_file l = bad /\ is_ok (read_block_by_num 2 l) = false.
Proof. eexists. split; [vm_compute; reflexivity|]. split; vm_compute; reflexivity. Qed.
End LogRuns.
