(* ===== verification/MessageBuffer.v ===== *)
(** * The buffer of incoming messages ([fc/network/message_buffer.hpp])

    A chain of buffers of fixed size with a read and a write index, 32 bits
    wide each.  Bytes that come in are placed at the write index by the
    socket; what a fresh buffer holds is never read.  The chain is a queue of
    bytes: every operation keeps its invariant and does to its content what a
    queue does. *)

From Stdlib Require Import ZArith Lia.
From stdpp Require Import base numbers strings list.
From S2P Require Import Prelude Raw.
Local Open Scope Z_scope.

(** [index_t]: the buffer in the chain, and the byte in the buffer *)
Abbreviation index_t := (Z * Z)%type.

Section MessageBuffer.
Context (buffer_len : nat).
#[local] Abbreviation L := (Z.of_nat buffer_len).

Record message_buffer := mk_mb {
  buffers : list bytes; read_ind : index_t; write_ind : index_t; sanity_check : Z }.

(** A buffer fresh from the pool *)
Definition pool_malloc : bytes := replicate buffer_len 0.
Definition mb_new : message_buffer := mk_mb [pool_malloc] (0, 0) (0, 0) 1.

Definition add_buffer_to_chain (m : message_buffer) : message_buffer :=
  mk_mb (buffers m ++ [pool_malloc]) (read_ind m) (write_ind m) (sanity_check m + 1).
Definition add_space (nbytes : Z) (m : message_buffer) : message_buffer :=
  Nat.iter (Z.to_nat (nbytes / L + 1)) add_buffer_to_chain m.

(** [reset]: the process ends when the chain is not as long as was counted, or
    too long. *)
Definition mb_reset (m : message_buffer) : result message_buffer :=
  check (negb (negb (Z.of_nat (length (buffers m)) =? sanity_check m) || (Z.of_nat (length (buffers m)) >? 1000000))) "exit" ;;
  Ok (mk_mb (take 1 (buffers m)) (0, 0) (0, 0) (sanity_check m - (Z.of_nat (length (buffers m)) - Z.of_nat (length (take 1 (buffers m)))))).

Definition bytes_to_read_from_index (ind : index_t) (m : message_buffer) : Z :=
  u32 (((write_ind m).1 - ind.1) * L + (write_ind m).2 - ind.2).
Definition bytes_to_read (m : message_buffer) : Z := bytes_to_read_from_index (read_ind m) m.
Definition total_bytes (m : message_buffer) : Z := u32 (L * Z.of_nat (length (buffers m))).
Definition bytes_to_write (m : message_buffer) : Z := u32 (total_bytes m - (write_ind m).1 * L - (write_ind m).2).

Definition advance_index (ind : index_t) (nbytes : Z) : index_t :=
  (u32 (ind.1 + u32 (nbytes + ind.2) / L), u32 (nbytes + ind.2) mod L).

(** [advance_read_ptr]: the buffers that were read are taken off the front;
    there must be as many. *)
Definition advance_read_ptr (nbytes : Z) (m : message_buffer) : result message_buffer :=
  let ind := advance_index (read_ind m) nbytes in
  if bool_decide (ind = write_ind m) then mb_reset (mk_mb (buffers m) ind (write_ind m) (sanity_check m))
  else
    check (ind.1 <=? Z.of_nat (length (buffers m))) "undefined: pop_front of an empty deque" ;;
    Ok (mk_mb (drop (Z.to_nat ind.1) (buffers m)) (0, ind.2) (u32 ((write_ind m).1 - ind.1), (write_ind m).2) (sanity_check m - ind.1)).

(** [advance_write_ptr]: the chain grows until the index is within it. *)
Definition advance_write_ptr (nbytes : Z) (m : message_buffer) : message_buffer :=
  let ind := advance_index (write_ind m) nbytes in
  let m := mk_mb (buffers m) (read_ind m) ind (sanity_check m) in
  Nat.iter (Z.to_nat (ind.1 + 1) - length (buffers m)) add_buffer_to_chain m.

(** What [memcpy] from the byte at an index gives; the copied bytes are all in
    one buffer. *)
Definition copy_from (ind : index_t) (size : Z) (m : message_buffer) : result bytes :=
  b ← of_option (buffers m !! Z.to_nat ind.1) "undefined: no such buffer";
  check (ind.2 <? L) "out_of_range" ;;
  Ok (take (Z.to_nat size) (drop (Z.to_nat ind.2) b)).

(** [read]: a read over the end of a buffer is a read up to it, and of the
    rest; every turn takes a buffer off the chain. *)
Fixpoint read_loop (fuel : nat) (size : Z) (m : message_buffer) : result (bytes * message_buffer) :=
  match fuel with
  | O => Err "fuel"
  | S fuel =>
    check (negb (bytes_to_read m <? size)) "out_of_range_exception" ;;
    if u32 ((read_ind m).2 + size) <=? L then
      s ← copy_from (read_ind m) size m; m ← advance_read_ptr size m; Ok (s, m)
    else
      let num_in_buffer := L - (read_ind m).2 in
      s ← copy_from (read_ind m) num_in_buffer m;
      m ← advance_read_ptr num_in_buffer m;
      '(t, m) ← read_loop fuel (size - num_in_buffer) m;
      Ok (s ++ t, m)
  end.
Definition mb_read (size : Z) (m : message_buffer) : result (bytes * message_buffer) := read_loop (S (length (buffers m))) size m.

Fixpoint peek_loop (fuel : nat) (size : Z) (ind : index_t) (m : message_buffer) : result (bytes * index_t) :=
  match fuel with
  | O => Err "fuel"
  | S fuel =>
    check (negb (bytes_to_read_from_index ind m <? size)) "out_of_range_exception" ;;
    if u32 (ind.2 + size) <=? L then
      s ← copy_from ind size m; Ok (s, advance_index ind size)
    else
      let num_in_buffer := L - ind.2 in
      s ← copy_from ind num_in_buffer m;
      '(t, ind) ← peek_loop fuel (size - num_in_buffer) (advance_index ind num_in_buffer) m;
      Ok (s ++ t, ind)
  end.
Definition mb_peek (size : Z) (ind : index_t) (m : message_buffer) : result (bytes * index_t) := peek_loop (S (length (buffers m))) size ind m.

(** What the socket does with the buffers of
    [get_buffer_sequence_for_boost_async_read]: the bytes that came in are
    placed one after the other, from the write index on. *)
Fixpoint fill (bufs : list bytes) (off : nat) (data : bytes) : list bytes :=
  match bufs with
  | [] => []
  | b :: bufs =>
    let now := take (buffer_len - off) data in
    (take off b ++ now ++ drop (off + length now) b) :: fill bufs 0 (drop (buffer_len - off) data)
  end.
Definition socket_fills (data : bytes) (m : message_buffer) : message_buffer :=
  let i := Z.to_nat (write_ind m).1 in
  mk_mb (take i (buffers m) ++ fill (drop i (buffers m)) (Z.to_nat (write_ind m).2) data)
    (read_ind m) (write_ind m) (sanity_check m).
End MessageBuffer.

(** ** The chain as a queue *)

Section Queue.
Context (buffer_len : nat).
#[local] Abbreviation L := (Z.of_nat buffer_len).
#[local] Abbreviation mb := message_buffer.
Implicit Types (m : mb) (ind : index_t).

Definition position ind : Z := ind.1 * L + ind.2.
Definition flat m : bytes := concat (buffers m).
(** The bytes between the two indices *)
Definition content m : bytes :=
  take (Z.to_nat (position (write_ind m) - position (read_ind m))) (drop (Z.to_nat (position (read_ind m))) (flat m)).

Record mb_inv m : Prop := {
  mi_pos : (0 < buffer_len)%nat;
  mi_len : Forall (fun b => length b = buffer_len) (buffers m);
  mi_read : 0 <= (read_ind m).1 /\ 0 <= (read_ind m).2 < L;
  mi_write : 0 <= (write_ind m).1 < Z.of_nat (length (buffers m)) /\ 0 <= (write_ind m).2 < L;
  mi_le : position (read_ind m) <= position (write_ind m);
  mi_sanity : sanity_check m = Z.of_nat (length (buffers m));
  mi_bound : L * Z.of_nat (length (buffers m)) < 2 ^ 32 /\ Z.of_nat (length (buffers m)) <= 1000000 }.

(** ** Positions in the chain *)

Lemma concat_length (bufs : list bytes) : Forall (fun b => length b = buffer_len) bufs -> length (concat bufs) = (buffer_len * length bufs)%nat.
Proof. induction 1 as [|b bufs Hb _ IH]; cbn [concat length]; [lia|]. rewrite length_app, Hb, IH. lia. Qed.
Lemma concat_drop (bufs : list bytes) i : Forall (fun b => length b = buffer_len) bufs -> drop (i * buffer_len) (concat bufs) = concat (drop i bufs).
Proof.
  intros Hl. revert i. induction Hl as [|b bufs Hb _ IH]; intros [|i]; cbn [concat drop Nat.mul]; [done|by rewrite !drop_nil|done|].
  rewrite <- Hb at 1. by rewrite drop_app_add, IH.
Qed.
Lemma concat_take (bufs : list bytes) i : Forall (fun b => length b = buffer_len) bufs -> take (i * buffer_len) (concat bufs) = concat (take i bufs).
Proof.
  intros Hl. revert i. induction Hl as [|b bufs Hb _ IH]; intros [|i]; cbn [concat take Nat.mul]; [done|by rewrite take_nil|done|].
  rewrite <- Hb at 1. by rewrite take_app_add, IH.
Qed.

Lemma flat_length m : mb_inv m -> Z.of_nat (length (flat m)) = L * Z.of_nat (length (buffers m)).
Proof. intros I. unfold flat. rewrite concat_length by apply I. lia. Qed.

Lemma position_bound ind (n : nat) : 0 <= ind.1 < Z.of_nat n -> 0 <= ind.2 < L -> position ind < L * Z.of_nat n.
Proof. unfold position. nia. Qed.
Lemma write_bound m : mb_inv m -> 0 <= position (read_ind m) /\ position (write_ind m) < L * Z.of_nat (length (buffers m)).
Proof. intros I. split; [pose proof (mi_read _ I); unfold position; nia|]. apply position_bound; apply I. Qed.

Lemma position_inj i j : 0 <= i.2 < L -> 0 <= j.2 < L -> position i = position j -> i = j.
Proof.
  destruct i as [i1 i2], j as [j1 j2]. unfold position. cbn. intros Hi Hj E. assert (i1 = j1) as -> by nia. f_equal. lia.
Qed.

Lemma advance_position ind n : (0 < buffer_len)%nat -> 0 <= ind.1 -> 0 <= ind.2 < L -> 0 <= n -> position ind + n < 2 ^ 32 ->
  position (advance_index buffer_len ind n) = position ind + n /\ 0 <= (advance_index buffer_len ind n).1 /\ 0 <= (advance_index buffer_len ind n).2 < L.
Proof.
  intros HL H1 H2 Hn Hb. unfold position, advance_index in *. cbn [fst snd]. rewrite (u32_small (n + ind.2)) by (split; nia).
  pose proof (Z.div_mod (n + ind.2) L ltac:(lia)). pose proof (Z.mod_pos_bound (n + ind.2) L ltac:(lia)).
  assert (0 <= (n + ind.2) / L) by (apply Z.div_pos; lia). rewrite u32_small by (split; nia). nia.
Qed.

(** ** What is counted *)

Lemma to_read_value m ind : mb_inv m -> 0 <= position ind <= position (write_ind m) ->
  bytes_to_read_from_index buffer_len ind m = position (write_ind m) - position ind.
Proof.
  intros I Hp. destruct (write_bound m I) as [_ Hw]. pose proof (mi_bound _ I) as [B _]. unfold bytes_to_read_from_index.
  replace (_ * L + _ - _) with (position (write_ind m) - position ind) by (unfold position; lia). apply u32_small. mach_lia.
Qed.
Lemma content_length m : mb_inv m -> Z.of_nat (length (content m)) = position (write_ind m) - position (read_ind m).
Proof.
  intros I. destruct (write_bound m I) as [H0 Hw]. pose proof (flat_length m I) as F. pose proof (mi_le _ I).
  unfold content. rewrite length_take, length_drop. lia.
Qed.
Lemma to_read_content m : mb_inv m -> bytes_to_read buffer_len m = Z.of_nat (length (content m)).
Proof.
  intros I. rewrite content_length by done. unfold bytes_to_read. apply to_read_value; [done|].
  destruct (write_bound m I). pose proof (mi_le _ I). lia.
Qed.
Lemma to_write_value m : mb_inv m -> bytes_to_write buffer_len m = L * Z.of_nat (length (buffers m)) - position (write_ind m).
Proof.
  intros I. destruct (write_bound m I) as [H0 Hw]. pose proof (mi_bound _ I) as [B _]. pose proof (mi_le _ I). unfold bytes_to_write, total_bytes.
  rewrite (u32_small (L * _)) by mach_lia. replace (_ - _ * L - _) with (L * Z.of_nat (length (buffers m)) - position (write_ind m)) by (unfold position; lia).
  apply u32_small. mach_lia.
Qed.
Lemma to_write_positive m : mb_inv m -> 0 < bytes_to_write buffer_len m.
Proof. intros I. rewrite to_write_value by done. destruct (write_bound m I). lia. Qed.

(** ** Copying *)

Lemma copy_ok m ind size : mb_inv m -> 0 <= ind.1 < Z.of_nat (length (buffers m)) -> 0 <= ind.2 < L -> 0 <= size -> ind.2 + size <= L ->
  copy_from buffer_len ind size m = Ok (take (Z.to_nat size) (drop (Z.to_nat (position ind)) (flat m))).
Proof.
  intros I H1 H2 Hs Hb. unfold copy_from. destruct (lookup_lt_is_Some_2 (buffers m) (Z.to_nat ind.1)) as [b Eb]; [lia|]. rewrite Eb.
  cbn [of_option mbind result_bind]. rewrite (proj2 (Z.ltb_lt _ _)) by lia. cbn [check mbind result_bind]. f_equal.
  assert (Lb : length b = buffer_len) by (pose proof (mi_len _ I) as F; rewrite Forall_forall in F; apply F; by eapply list_elem_of_lookup_2).
  replace (Z.to_nat (position ind)) with (Z.to_nat ind.1 * buffer_len + Z.to_nat ind.2)%nat by (unfold position; nia).
  unfold flat. rewrite <- drop_drop, concat_drop by apply I. rewrite (drop_S _ _ _ Eb). cbn [concat].
  rewrite drop_app_le, take_app_le by (rewrite ?length_drop; lia). done.
Qed.

Lemma peek_ok fuel m ind size : mb_inv m -> 0 <= ind.1 -> 0 <= ind.2 < L -> 0 <= size -> position ind + size <= position (write_ind m) ->
  (Z.to_nat ((write_ind m).1 - ind.1) < fuel)%nat ->
  exists ind', peek_loop buffer_len fuel size ind m = Ok (take (Z.to_nat size) (drop (Z.to_nat (position ind)) (flat m)), ind') /\
    position ind' = position ind + size /\ 0 <= ind'.1 /\ 0 <= ind'.2 < L.
Proof.
  intros I. revert ind size. induction fuel as [|fuel IH]; intros ind size H1 H2 Hs Hp Hf; [lia|]. cbn [peek_loop].
  destruct (write_bound m I) as [_ Hw]. pose proof (mi_bound _ I) as [B _]. pose proof (mi_write _ I) as [W1 W2]. pose proof (mi_pos _ I).
  assert (Hi : 0 <= position ind) by (unfold position; nia). rewrite to_read_value by (done || lia).
  rewrite (proj2 (Z.ltb_ge _ _)) by lia. cbn [negb check mbind result_bind].
  assert (Hlt : ind.1 <= (write_ind m).1) by (unfold position in *; nia). rewrite (u32_small (ind.2 + size)) by (unfold position in *; split; nia).
  destruct (Z.leb_spec (ind.2 + size) L) as [Hl|Hl].
  - rewrite copy_ok by (done || lia). cbn [mbind result_bind]. eexists. split; [done|]. apply advance_position; lia || done.
  - rewrite copy_ok by (done || lia). cbn [mbind result_bind].
    destruct (advance_position ind (L - ind.2)) as (A1 & A2 & A3); [lia|done|done|lia|unfold position in *; nia|].
    assert (A4 : (advance_index buffer_len ind (L - ind.2)).1 = ind.1 + 1) by (unfold position in *; nia).
    assert (ind.1 + 1 <= (write_ind m).1) by (clear IH; unfold position in *; nia).
    destruct (IH (advance_index buffer_len ind (L - ind.2)) (size - (L - ind.2))) as (ind' & E & P); [done|done|lia|lia|lia|].
    rewrite E. cbn [mbind result_bind]. exists ind'. rewrite A1 in *. split; [|destruct P as (-> & ? & ?); lia]. do 2 f_equal.
    replace (Z.to_nat (position ind + (L - ind.2))) with (Z.to_nat (position ind) + Z.to_nat (L - ind.2))%nat by lia.
    rewrite <- drop_drop. rewrite <- (take_drop (Z.to_nat (L - ind.2)) (take (Z.to_nat size) _)). rewrite take_take, skipn_firstn_comm.
    do 2 f_equal; lia.
Qed.

(** ** Taking off the front *)

(** The chain after a step: its content, and the room behind the write index,
    which is that of one buffer after a reset. *)
Definition taken m m' (n : nat) : Prop :=
  mb_inv m' /\ content m' = drop n (content m) /\
  (bytes_to_write buffer_len m' = bytes_to_write buffer_len m \/ bytes_to_write buffer_len m' = L) /\ (length (buffers m') <= length (buffers m))%nat /\
  (read_ind m').1 = 0.

Lemma reset_ok m : mb_inv m -> exists m', mb_reset m = Ok m' /\ mb_inv m' /\ content m' = [] /\ bytes_to_write buffer_len m' = L /\
  (length (buffers m') <= length (buffers m))%nat /\ (read_ind m').1 = 0.
Proof.
  intros I. pose proof (mi_write _ I) as [W _]. pose proof (mi_len _ I) as F. pose proof (mi_bound _ I) as [B1 B2]. pose proof (mi_pos _ I).
  unfold mb_reset. rewrite (mi_sanity _ I), Z.eqb_refl. rewrite Z.gtb_ltb, (proj2 (Z.ltb_ge _ _)) by lia. cbn [negb orb check mbind result_bind].
  destruct (buffers m) as [|b bufs]; [cbn in W; lia|]. cbn [take]. rewrite take_0. eexists. split; [done|].
  assert (I' : mb_inv (mk_mb [b] (0, 0) (0, 0) (Z.of_nat (length (b :: bufs)) - (Z.of_nat (length (b :: bufs)) - Z.of_nat (length [b]))))).
  { split; cbn [buffers read_ind write_ind sanity_check fst snd]; [done|inversion F; by repeat constructor|lia|cbn; lia|done|cbn [length]; lia|cbn [length] in *; nia]. }
  split; [exact I'|]. split; [done|]. split; [|split; [cbn; lia|done]]. rewrite (to_write_value _ I'). unfold position. cbn. lia.
Qed.

Lemma advance_read_ok m n : mb_inv m -> 0 <= n <= Z.of_nat (length (content m)) ->
  exists m', advance_read_ptr buffer_len n m = Ok m' /\ taken m m' (Z.to_nat n) /\
    (content m' = [] \/ Z.of_nat (length (buffers m')) = Z.of_nat (length (buffers m)) - (advance_index buffer_len (read_ind m) n).1).
Proof.
  intros I Hn. rewrite (content_length m I) in Hn. destruct (write_bound m I) as [H0 Hw]. pose proof (mi_bound _ I) as [B1 B2]. pose proof (mi_read _ I) as [R1 R2].
  pose proof (mi_write _ I) as [W1 W2]. pose proof (mi_pos _ I) as HL.
  destruct (advance_position (read_ind m) n) as (A1 & A2 & A3); [done|done|done|lia|lia|]. unfold advance_read_ptr.
  set (ind := advance_index buffer_len (read_ind m) n) in *. case_bool_decide as Hi.
  - assert (I' : mb_inv (mk_mb (buffers m) ind (write_ind m) (sanity_check m))) by (split; cbn [buffers read_ind write_ind sanity_check]; [done|apply I|done|done|by rewrite Hi|apply I|done]).
    destruct (reset_ok _ I') as (m' & E & Im' & C & W & Lb & R0). exists m'. split; [exact E|]. split; [|by left]. split; [done|]. split; [|split; [by right|by split]].
    rewrite C. symmetry. apply drop_ge. pose proof (content_length m I). rewrite <- Hi, A1 in *. lia.
  - assert (Hlt : position ind < position (write_ind m)).
    { destruct (Z.eq_dec (position ind) (position (write_ind m))) as [E|]; [exfalso; apply Hi; by apply position_inj|lia]. }
    assert (Hf : ind.1 <= (write_ind m).1) by (unfold position in *; nia). rewrite (proj2 (Z.leb_le _ _)) by lia. cbn [check mbind result_bind].
    eexists. split; [done|]. rewrite u32_small by (assert (Z.of_nat (length (buffers m)) <= L * Z.of_nat (length (buffers m))) by nia; mach_lia).
    set (m' := mk_mb _ _ _ _). assert (Ld : Z.of_nat (length (drop (Z.to_nat ind.1) (buffers m))) = Z.of_nat (length (buffers m)) - ind.1) by (rewrite length_drop; lia).
    assert (I' : mb_inv m').
    { unfold m'. split; cbn [buffers read_ind write_ind sanity_check fst snd]; [done|apply Forall_drop, I|lia|lia| |rewrite (mi_sanity _ I); lia|nia].
      unfold position in *. cbn [fst snd]. nia. }
    split; [|right; exact Ld]. split; [exact I'|]. split; [|split; [left; rewrite !to_write_value by done|split; [|done]]].
    + assert (Pw : position (write_ind m') = position (write_ind m) - ind.1 * L) by (unfold m', position; cbn [write_ind fst snd]; lia).
      assert (Pr : position (read_ind m') = ind.2) by (unfold m', position; cbn [read_ind fst snd]; lia).
      unfold content, flat. rewrite Pw, Pr. unfold m'. cbn [buffers]. rewrite <- concat_drop by apply I. rewrite skipn_firstn_comm, !drop_drop.
      assert (A5 : position ind = ind.1 * L + ind.2) by done. f_equal; [|f_equal]; nia.
    + unfold m', position. cbn [buffers write_ind fst snd]. rewrite Ld. lia.
    + unfold m'. cbn [buffers]. lia.
Qed.

Lemma read_ok fuel m size : mb_inv m -> 0 <= size <= Z.of_nat (length (content m)) -> (length (buffers m) < fuel)%nat ->
  exists m', read_loop buffer_len fuel size m = Ok (take (Z.to_nat size) (content m), m') /\ taken m m' (Z.to_nat size).
Proof.
  revert m size. induction fuel as [|fuel IH]; intros m size I Hs Hf; [lia|]. cbn [read_loop]. rewrite to_read_content by done.
  rewrite (proj2 (Z.ltb_ge _ _)) by lia. cbn [negb check mbind result_bind]. pose proof (content_length m I) as Hc.
  pose proof (mi_read _ I) as [R1 R2]. pose proof (mi_write _ I) as [W1 W2]. pose proof (mi_bound _ I) as [B _]. destruct (write_bound m I) as [_ Hw].
  assert (Hr : (read_ind m).1 < Z.of_nat (length (buffers m))) by (pose proof (mi_le _ I); unfold position in *; nia).
  rewrite (u32_small ((read_ind m).2 + size)) by (unfold position in *; split; nia).
  assert (Cp : forall k, 0 <= k -> (read_ind m).2 + k <= L -> k <= Z.of_nat (length (content m)) -> copy_from buffer_len (read_ind m) k m = Ok (take (Z.to_nat k) (content m))).
  { intros k K1 K2 K3. rewrite copy_ok by (done || lia). unfold content. rewrite take_take. do 2 f_equal. lia. }
  destruct (Z.leb_spec ((read_ind m).2 + size) L) as [Hl|Hl].
  - rewrite Cp by lia. destruct (advance_read_ok m size I Hs) as (m' & E & T & _). cbn [mbind result_bind]. rewrite E. cbn [mbind result_bind]. by exists m'.
  - rewrite Cp by lia. destruct (advance_read_ok m (L - (read_ind m).2) I) as (m' & E & (I' & C & W & Lb & _) & Hd); [lia|].
    cbn [mbind result_bind]. rewrite E. cbn [mbind result_bind].
    assert (Lc : (length (content m') = length (content m) - Z.to_nat (L - (read_ind m).2))%nat) by (rewrite C, length_drop; done).
    assert (A : (advance_index buffer_len (read_ind m) (L - (read_ind m).2)).1 = (read_ind m).1 + 1).
    { unfold advance_index. cbn [fst]. replace (L - _ + _) with L by lia. rewrite (u32_small L) by (split; nia). rewrite Z.div_same by lia. apply u32_small. split; nia. }
    destruct (IH m' (size - (L - (read_ind m).2))) as (m'' & E2 & I2 & C2 & W2' & Lb2 & R2'); [done|lia|destruct Hd as [Hd|Hd]; [rewrite Hd in Lc; cbn in Lc; lia|lia]|].
    rewrite E2. cbn [mbind result_bind]. exists m''. split.
    + do 2 f_equal. rewrite C. rewrite <- (take_drop (Z.to_nat (L - (read_ind m).2)) (take (Z.to_nat size) _)). rewrite take_take, skipn_firstn_comm. do 2 f_equal; lia.
    + split; [done|]. split; [rewrite C2, C, drop_drop; f_equal; lia|]. split; [destruct W2' as [->|]; [done|by right]|]. split; [lia|done].
Qed.

(** ** Growing, and receiving *)

Lemma grow_value k m : Nat.iter k (add_buffer_to_chain buffer_len) m =
  mk_mb (buffers m ++ replicate k (pool_malloc buffer_len)) (read_ind m) (write_ind m) (sanity_check m + Z.of_nat k).
Proof.
  induction k as [|k IH].
  - cbn. rewrite app_nil_r, Z.add_0_r. by destruct m.
  - rewrite Nat.iter_succ, IH. unfold add_buffer_to_chain. cbn [buffers read_ind write_ind sanity_check]. rewrite <- app_assoc, replicate_S_end. f_equal. lia.
Qed.

Lemma grow_ok k m : mb_inv m -> L * (Z.of_nat (length (buffers m)) + Z.of_nat k) < 2 ^ 32 -> Z.of_nat (length (buffers m)) + Z.of_nat k <= 1000000 ->
  let m' := Nat.iter k (add_buffer_to_chain buffer_len) m in
  mb_inv m' /\ content m' = content m /\ bytes_to_write buffer_len m' = bytes_to_write buffer_len m + L * Z.of_nat k /\
  Z.of_nat (length (buffers m')) = Z.of_nat (length (buffers m)) + Z.of_nat k /\ read_ind m' = read_ind m.
Proof.
  intros I B1 B2 m'. assert (Lb : Z.of_nat (length (buffers m')) = Z.of_nat (length (buffers m)) + Z.of_nat k) by (unfold m'; rewrite grow_value; cbn [buffers]; rewrite length_app, length_replicate; lia).
  assert (I' : mb_inv m').
  { unfold m' in *. rewrite grow_value in *. pose proof (mi_write _ I) as [W1 W2]. split; cbn [buffers read_ind write_ind sanity_check] in *; try (by apply I).
    - apply Forall_app. split; [apply I|]. apply Forall_replicate. apply length_replicate.
    - lia.
    - rewrite (mi_sanity _ I). lia.
    - rewrite Lb. lia. }
  split; [exact I'|]. split; [|split; [|split; [exact Lb|unfold m'; by rewrite grow_value]]].
  - unfold m'. rewrite grow_value. unfold content, flat. cbn [buffers read_ind write_ind]. destruct (write_bound m I) as [H0 Hw]. pose proof (flat_length m I) as F. unfold flat in F.
    pose proof (mi_le _ I). rewrite concat_app, drop_app_le, take_app_le by (rewrite ?length_drop; lia). done.
  - rewrite !to_write_value by done. rewrite Lb. unfold m'. rewrite grow_value. cbn [write_ind]. lia.
Qed.

Lemma fill_nothing (bufs : list bytes) : fill buffer_len bufs 0 [] = bufs.
Proof. induction bufs as [|b bufs IH]; cbn [fill]; [done|]. rewrite take_nil, drop_nil, IH. cbn. by rewrite drop_0. Qed.

Lemma fill_ok (bufs : list bytes) off data : (0 < buffer_len)%nat -> Forall (fun b => length b = buffer_len) bufs -> (off < buffer_len)%nat ->
  (off + length data <= buffer_len * length bufs)%nat ->
  concat (fill buffer_len bufs off data) = take off (concat bufs) ++ data ++ drop (off + length data) (concat bufs) /\
  Forall (fun b => length b = buffer_len) (fill buffer_len bufs off data) /\ length (fill buffer_len bufs off data) = length bufs.
Proof.
  intros HL F. revert off data. induction F as [|b bufs Hb F IH]; intros off data Ho Hd; cbn [length] in Hd.
  { rewrite Nat.mul_0_r in Hd. destruct data; cbn in Hd; [|lia]. cbn. rewrite take_nil, drop_nil. done. }
  cbn [fill concat length].
  destruct (le_lt_dec (length data) (buffer_len - off)) as [Hs|Hs].
  - rewrite (take_ge data), (drop_ge data), fill_nothing by lia. rewrite take_app_le, drop_app_le by lia. split; [by rewrite !app_assoc|].
    split; [constructor; [|done]|done]. rewrite !length_app, length_take, length_drop, Hb. lia.
  - rewrite length_take_le by lia. replace (off + (buffer_len - off))%nat with buffer_len by lia.
    destruct (IH 0%nat (drop (buffer_len - off) data)) as (E & F2 & Lf); [lia|rewrite length_drop; lia|].
    rewrite E, (drop_ge b), app_nil_r by lia. split; [|split; [constructor; [|done]|by rewrite Lf]].
    + cbn [take app Nat.add]. rewrite take_app_le, length_drop by lia. rewrite <- !app_assoc. f_equal. trans ((take (buffer_len - off) data ++ drop (buffer_len - off) data) ++ drop (length data - (buffer_len - off)) (concat bufs)); [by rewrite <- app_assoc|]. rewrite take_drop. f_equal.
      rewrite (drop_app_ge b) by lia. f_equal. lia.
    + rewrite length_app, !length_take, Hb. lia.
Qed.

(** The bytes that came in are placed behind the content, and are part of it
    once the write index is advanced. *)
Lemma received_flat m data : mb_inv m -> Z.of_nat (length data) <= bytes_to_write buffer_len m ->
  let m' := socket_fills buffer_len data m in
  flat m' = take (Z.to_nat (position (write_ind m))) (flat m) ++ data ++ drop (Z.to_nat (position (write_ind m)) + length data) (flat m) /\
  Forall (fun b => length b = buffer_len) (buffers m') /\ length (buffers m') = length (buffers m).
Proof.
  intros I Hd m'. rewrite to_write_value in Hd by done. pose proof (mi_write _ I) as [W1 W2]. pose proof (mi_len _ I) as F.
  set (i := Z.to_nat (write_ind m).1). assert (Hi : (i < length (buffers m))%nat) by (unfold i; lia).
  assert (P : Z.to_nat (position (write_ind m)) = (i * buffer_len + Z.to_nat (write_ind m).2)%nat) by (unfold i, position; nia).
  assert (P' : position (write_ind m) = Z.of_nat i * L + (write_ind m).2) by (unfold i, position; rewrite Z2Nat.id; lia).
  destruct (fill_ok (drop i (buffers m)) (Z.to_nat (write_ind m).2) data) as (E & F' & Lf); [apply I|by apply Forall_drop|lia|rewrite length_drop; nia|].
  unfold m', socket_fills, flat. cbn [buffers]. fold i. split; [|split; [apply Forall_app; split; [by apply Forall_take|done]|rewrite length_app, Lf, length_take, length_drop; lia]].
  rewrite concat_app, E, <- concat_take, <- concat_drop by done. rewrite P, app_assoc. f_equal; [|by rewrite drop_drop, Nat.add_assoc].
  rewrite <- (take_drop (i * buffer_len) (take (i * buffer_len + Z.to_nat (write_ind m).2) (concat (buffers m)))), take_take, skipn_firstn_comm. do 2 f_equal; lia.
Qed.

Lemma receive_ok m data : mb_inv m -> Z.of_nat (length data) <= bytes_to_write buffer_len m ->
  L * (Z.of_nat (length (buffers m)) + 1) < 2 ^ 32 -> Z.of_nat (length (buffers m)) + 1 <= 1000000 ->
  let m' := advance_write_ptr buffer_len (Z.of_nat (length data)) (socket_fills buffer_len data m) in
  mb_inv m' /\ content m' = content m ++ data /\ (length (buffers m) <= length (buffers m') <= length (buffers m) + 1)%nat /\
  bytes_to_write buffer_len m' <= Z.max (bytes_to_write buffer_len m) L /\
  read_ind m' = read_ind m.
Proof.
  intros I Hd B1 B2 m'. destruct (received_flat m data I Hd) as (E & F & Lb). rewrite to_write_value in * by done.
  destruct (write_bound m I) as [H0 Hw]. pose proof (mi_write _ I) as [W1 W2]. pose proof (mi_le _ I) as Hle. pose proof (mi_pos _ I).
  destruct (advance_position (write_ind m) (Z.of_nat (length data))) as (A1 & A2 & A3); [done|lia|done|lia|lia|].
  unfold m', advance_write_ptr in *. change (write_ind (socket_fills buffer_len data m)) with (write_ind m) in *.
  change (read_ind (socket_fills buffer_len data m)) with (read_ind m) in *. set (ind := advance_index buffer_len (write_ind m) (Z.of_nat (length data))) in *.
  set (bufs := buffers (socket_fills buffer_len data m)) in *. rewrite grow_value. cbn [buffers read_ind write_ind sanity_check]. rewrite length_app, length_replicate.
  assert (Hi : ind.1 <= Z.of_nat (length (buffers m))) by (unfold position in A1 at 1; nia).
  set (k := (Z.to_nat (ind.1 + 1) - length bufs)%nat). assert (Hk : (k <= 1)%nat) by lia.
  set (m1 := mk_mb _ _ _ _). assert (Lm : length (buffers m1) = (length (buffers m) + k)%nat) by (cbn [m1 buffers]; rewrite length_app, length_replicate; lia).
  assert (I1 : mb_inv m1).
  { split; [done| |apply I|split; [|exact A3]|cbn [m1 read_ind write_ind]; lia| |].
    - cbn [m1 buffers]. apply Forall_app. split; [exact F|]. apply Forall_replicate. apply length_replicate.
    - rewrite Lm. cbn [m1 write_ind]. lia.
    - rewrite Lm. cbn [m1 sanity_check]. change (sanity_check (socket_fills buffer_len data m)) with (sanity_check m). rewrite (mi_sanity _ I). lia.
    - rewrite Lm. nia. }
  split; [exact I1|]. split; [|split; [lia|split; [|done]]].
  - pose proof (flat_length m I) as Fl. unfold content, flat at 1. cbn [m1 buffers read_ind write_ind]. rewrite A1. rewrite concat_app.
    change (concat bufs) with (flat (socket_fills buffer_len data m)). rewrite E.
    set (pw := position (write_ind m)) in *. set (pr := position (read_ind m)) in *.
    assert (Lt : length (drop (Z.to_nat pr) (take (Z.to_nat pw) (flat m))) = Z.to_nat (pw - pr)) by (rewrite length_drop, length_take; lia).
    rewrite <- !app_assoc, drop_app_le by (rewrite length_take; lia).
    replace (Z.to_nat (pw + Z.of_nat (length data) - pr)) with (length (drop (Z.to_nat pr) (take (Z.to_nat pw) (flat m))) + length data)%nat by lia.
    rewrite take_app_add, take_app_length, skipn_firstn_comm. do 2 f_equal. lia.
  - rewrite (to_write_value _ I1), (to_write_value _ I), Lm. cbn [m1 write_ind]. rewrite A1. destruct (Nat.eq_dec k 0%nat) as [E0|E0]; [rewrite E0; lia|].
    assert (E1 : k = 1%nat) by lia. assert (E2 : ind.1 = Z.of_nat (length (buffers m))) by lia. rewrite E1. unfold position in A1 at 1. nia.
Qed.
End Queue.
