(* ===== verification/NetMessages.v ===== *)
(** * Messages between nodes ([net_plugin/protocol.hpp], [net_plugin.cpp])

    The messages of the network protocol and their bytes; how a message is
    framed when it is sent; and how the handler of incoming bytes cuts messages
    out of the buffer of a connection.  Messages arrive as they were sent,
    however the network cuts the stream up. *)

From Stdlib Require Import ZArith Lia Ascii String.
From stdpp Require Import base numbers strings list.
From S2P Require Import Prelude Boost Merkle Hex BlockHeader DposRuns Raw RawChain MessageBuffer.
Local Open Scope Z_scope.

(** ** Messages; the enumerations are not reflected: 4 bytes, any value *)

Record handshake_message := mk_handshake {
  network_version : Z; hs_chain_id : digest; hs_node_id : digest; hs_key : public_key; hs_time : Z; hs_token : digest;
  hs_sig : signature; p2p_address : chars; hs_last_irreversible_block_num : Z; hs_last_irreversible_block_id : digest;
  hs_head_num : Z; hs_head_id : digest; os : chars; agent : chars; generation : Z }.
Record chain_size_message := mk_chain_size {
  cs_last_irreversible_block_num : Z; cs_last_irreversible_block_id : digest; cs_head_num : Z; cs_head_id : digest }.
Record go_away_message := mk_go_away { go_away_reason : Z; ga_node_id : digest }.
Record time_message := mk_time { tm_org : Z; tm_rec : Z; tm_xmt : Z; tm_dst : Z }.
Record select_ids := mk_select { sel_mode : Z; sel_pending : Z; sel_ids : list digest }.
Record notice_message := mk_notice { known_trx : select_ids; known_blocks : select_ids }.
Record request_message := mk_request { req_trx : select_ids; req_blocks : select_ids }.
Record sync_request_message := mk_sync_request { start_block : Z; end_block : Z }.

(** [int16_t] *)
Definition i16 (z : Z) : Z := (z + 2 ^ 15) mod 2 ^ 16 - 2 ^ 15.
Definition c_int16 : codec Z := c_iso i16 (fun z => z mod 2 ^ 16) (c_uint 2).

Definition c_handshake : codec handshake_message :=
  c_iso (fun '(v, (c, (n, (k, (t, (tok, (s, (p, (ln, (li, (hn, (hi, (o, (a, g)))))))))))))) => mk_handshake v c n k t tok s p ln li hn hi o a g)
    (fun m => (network_version m, (hs_chain_id m, (hs_node_id m, (hs_key m, (hs_time m, (hs_token m, (hs_sig m, (p2p_address m,
      (hs_last_irreversible_block_num m, (hs_last_irreversible_block_id m, (hs_head_num m, (hs_head_id m, (os m, (agent m, generation m)))))))))))))))
    (c_pair (c_uint 2) (c_pair c_digest (c_pair c_digest (c_pair c_public_key (c_pair c_int64 (c_pair c_digest (c_pair c_signature
      (c_pair c_chars (c_pair (c_uint 4) (c_pair c_digest (c_pair (c_uint 4) (c_pair c_digest (c_pair c_chars (c_pair c_chars c_int16)))))))))))))).
Definition c_chain_size : codec chain_size_message :=
  c_iso (fun '(a, (b, (c, d))) => mk_chain_size a b c d)
    (fun m => (cs_last_irreversible_block_num m, (cs_last_irreversible_block_id m, (cs_head_num m, cs_head_id m))))
    (c_pair (c_uint 4) (c_pair c_digest (c_pair (c_uint 4) c_digest))).
Definition c_go_away : codec go_away_message :=
  c_iso (fun '(r, n) => mk_go_away r n) (fun m => (go_away_reason m, ga_node_id m)) (c_pair (c_uint 4) c_digest).
Definition c_time : codec time_message :=
  c_iso (fun '(a, (b, (c, d))) => mk_time a b c d) (fun m => (tm_org m, (tm_rec m, (tm_xmt m, tm_dst m))))
    (c_pair c_int64 (c_pair c_int64 (c_pair c_int64 c_int64))).
Definition c_select : codec select_ids :=
  c_iso (fun '(m, (p, i)) => mk_select m p i) (fun s => (sel_mode s, (sel_pending s, sel_ids s)))
    (c_pair (c_uint 4) (c_pair (c_uint 4) (c_vector c_digest))).
Definition c_notice : codec notice_message :=
  c_iso (fun '(a, b) => mk_notice a b) (fun m => (known_trx m, known_blocks m)) (c_pair c_select c_select).
Definition c_request : codec request_message :=
  c_iso (fun '(a, b) => mk_request a b) (fun m => (req_trx m, req_blocks m)) (c_pair c_select c_select).
Definition c_sync_request : codec sync_request_message :=
  c_iso (fun '(a, b) => mk_sync_request a b) (fun m => (start_block m, end_block m)) (c_pair (c_uint 4) (c_uint 4)).

Inductive net_message :=
| Handshake (m : handshake_message) | ChainSize (m : chain_size_message) | GoAway (m : go_away_message)
| Time_ (m : time_message) | Notice (m : notice_message) | Request (m : request_message)
| SyncRequest (m : sync_request_message) | SignedBlock (b : raw_block) | PackedTransaction (p : packed_transaction).

Definition signed_block_which : Z := 7.
Definition packed_transaction_which : Z := 8.

Section Message.
Context `{Zlib}.

(** [static_variant]: the number of the type, and the value *)
Definition message_which (m : net_message) : Z :=
  match m with
  | Handshake _ => 0 | ChainSize _ => 1 | GoAway _ => 2 | Time_ _ => 3 | Notice _ => 4 | Request _ => 5
  | SyncRequest _ => 6 | SignedBlock _ => 7 | PackedTransaction _ => 8
  end.
Definition pack_value (m : net_message) : result bytes :=
  match m with
  | Handshake m => pack c_handshake m | ChainSize m => pack c_chain_size m | GoAway m => pack c_go_away m
  | Time_ m => pack c_time m | Notice m => pack c_notice m | Request m => pack c_request m
  | SyncRequest m => pack c_sync_request m | SignedBlock b => pack c_signed_block b
  | PackedTransaction p => pack c_packed_transaction p
  end.
Definition rmap {A B} (f : A -> B) (r : reader A) : reader B := let* a := r in rret (f a).
Definition unpack_value (w : Z) : reader net_message :=
  match w with
  | 0 => rmap Handshake (unpack c_handshake) | 1 => rmap ChainSize (unpack c_chain_size) | 2 => rmap GoAway (unpack c_go_away)
  | 3 => rmap Time_ (unpack c_time) | 4 => rmap Notice (unpack c_notice) | 5 => rmap Request (unpack c_request)
  | 6 => rmap SyncRequest (unpack c_sync_request) | 7 => rmap SignedBlock (unpack c_signed_block)
  | _ => rmap PackedTransaction (unpack c_packed_transaction)
  end.
Definition c_net_message : codec net_message :=
  mk_codec (fun m => x ← pack c_varint (message_which m); y ← pack_value m; Ok (x ++ y))
    (let* w := unpack c_varint in let* _ := rassert (w <? 9) "w < count()" in unpack_value w).

(** ** What is sent: [enqueue], and [create_send_buffer] for blocks and
    transactions, which writes the parts of the variant itself *)

Definition message_header_size : Z := 4.
Definition framed (payload : bytes) : bytes := bytes_of_word 4 (u32 (Z.of_nat (length payload))) ++ payload.
Definition enqueue (m : net_message) : result bytes := p ← pack c_net_message m; Ok (framed p).
Definition create_send_buffer (which_ : Z) (v : result bytes) : result bytes :=
  x ← pack c_varint which_; y ← v; Ok (framed (x ++ y)).
Definition send_block (b : raw_block) : result bytes := create_send_buffer signed_block_which (pack c_signed_block b).
Definition send_transaction (p : packed_transaction) : result bytes := create_send_buffer packed_transaction_which (pack c_packed_transaction p).

Lemma send_block_enqueued b : send_block b = enqueue (SignedBlock b).
Proof. unfold send_block, create_send_buffer, enqueue. cbn [c_net_message pack message_which pack_value mbind result_bind c_varint]. by destruct (pack c_signed_block b). Qed.
Lemma send_transaction_enqueued p : send_transaction p = enqueue (PackedTransaction p).
Proof. unfold send_transaction, create_send_buffer, enqueue. cbn [c_net_message pack message_which pack_value mbind result_bind c_varint]. by destruct (pack c_packed_transaction p). Qed.

(** ** Values that fit *)

Definition is_i16 (z : Z) : Prop := - 2 ^ 15 <= z < 2 ^ 15.
Definition handshake_fits (m : handshake_message) : Prop :=
  is_u16 (network_version m) /\ digest_wf (hs_chain_id m) /\ digest_wf (hs_node_id m) /\ key_fits 33 (hs_key m) /\ is_i64 (hs_time m) /\
  digest_wf (hs_token m) /\ key_fits 65 (hs_sig m) /\ True /\ is_u32 (hs_last_irreversible_block_num m) /\ digest_wf (hs_last_irreversible_block_id m) /\
  is_u32 (hs_head_num m) /\ digest_wf (hs_head_id m) /\ True /\ True /\ is_i16 (generation m).
Definition select_fits (s : select_ids) : Prop := is_u32 (sel_mode s) /\ is_u32 (sel_pending s) /\ Forall digest_wf (sel_ids s).
Definition net_fits (m : net_message) : Prop :=
  match m with
  | Handshake m => handshake_fits m
  | ChainSize m => is_u32 (cs_last_irreversible_block_num m) /\ digest_wf (cs_last_irreversible_block_id m) /\ is_u32 (cs_head_num m) /\ digest_wf (cs_head_id m)
  | GoAway m => is_u32 (go_away_reason m) /\ digest_wf (ga_node_id m)
  | Time_ m => is_i64 (tm_org m) /\ is_i64 (tm_rec m) /\ is_i64 (tm_xmt m) /\ is_i64 (tm_dst m)
  | Notice m => select_fits (known_trx m) /\ select_fits (known_blocks m)
  | Request m => select_fits (req_trx m) /\ select_fits (req_blocks m)
  | SyncRequest m => is_u32 (start_block m) /\ is_u32 (end_block m)
  | SignedBlock b => block_fits b
  | PackedTransaction p => packed_fits p
  end.

Lemma c_int16_lawful : lawful c_int16 is_i16.
Proof.
  eapply c_iso_lawful; [apply c_uint_lawful|]. intros z Hz. unfold is_i16, i16 in *. split; [apply Z.mod_pos_bound; lia|].
  rewrite <- (Zplus_mod_idemp_l (z mod 2 ^ 16)), Z.mod_mod, Zplus_mod_idemp_l by lia. rewrite Z.mod_small; lia.
Qed.
#[local] Hint Resolve c_int16_lawful c_signed_block_lawful c_packed_transaction_lawful : raw.

Lemma c_handshake_lawful : lawful c_handshake handshake_fits.
Proof. record_lawful. exact Hr. Qed.
Lemma c_chain_size_lawful : lawful c_chain_size (fun m => net_fits (ChainSize m)).
Proof. record_lawful. exact Hr. Qed.
Lemma c_go_away_lawful : lawful c_go_away (fun m => net_fits (GoAway m)).
Proof. record_lawful. exact Hr. Qed.
Lemma c_time_lawful : lawful c_time (fun m => net_fits (Time_ m)).
Proof. record_lawful. exact Hr. Qed.
Lemma c_select_lawful : lawful c_select select_fits.
Proof. record_lawful. exact Hr. Qed.
#[local] Hint Resolve c_select_lawful : raw.
Lemma c_notice_lawful : lawful c_notice (fun m => net_fits (Notice m)).
Proof. record_lawful. exact Hr. Qed.
Lemma c_request_lawful : lawful c_request (fun m => net_fits (Request m)).
Proof. record_lawful. exact Hr. Qed.
Lemma c_sync_request_lawful : lawful c_sync_request (fun m => net_fits (SyncRequest m)).
Proof. record_lawful. exact Hr. Qed.

Lemma rmap_reads {A B} (f : A -> B) r bs a : reads_back r bs a -> reads_back (rmap f r) bs (f a).
Proof. intros Hr. eapply reads_bind_nil; [exact Hr|]. apply reads_ret. Qed.
Lemma unpack_value_reads m bs : net_fits m -> pack_value m = Ok bs -> reads_back (unpack_value (message_which m)) bs m.
Proof.
  destruct m; cbn [message_which unpack_value pack_value]; intros Hf E; apply rmap_reads.
  - by apply c_handshake_lawful.
  - by apply c_chain_size_lawful.
  - by apply c_go_away_lawful.
  - by apply c_time_lawful.
  - by apply c_notice_lawful.
  - by apply c_request_lawful.
  - by apply c_sync_request_lawful.
  - by apply c_signed_block_lawful.
  - by apply c_packed_transaction_lawful.
Qed.

Lemma c_net_message_lawful : lawful c_net_message net_fits.
Proof.
  intros m bs Hf E. cbn [c_net_message pack unpack] in *. ok_bind E as x Hx. ok_bind E as y Hy. apply (proj1 (Ok_inj _ _)) in E as <-.
  assert (Hw : 0 <= message_which m < 9) by (destruct m; cbn; lia). eapply reads_bind; [apply (c_varint_lawful (message_which m)); [mach_lia|exact Hx]|].
  eapply reads_bind_first; [apply reads_assert, Z.ltb_lt; lia|]. by apply unpack_value_reads.
Qed.
End Message.

(** ** Incoming bytes

    What the handlers do with a message is not modelled, only that it was
    handed over, and whether the handler closed the connection; both that and
    whether a block is known may depend on all that was handled before. *)

Inductive net_event := Handled (m : net_message) | KnownBlock (id : digest) (num : Z).

Definition def_send_buffer_size : Z := 1024 * 1024 * 4.

Record connection := mk_conn {
  pending_message_buffer : message_buffer; outstanding_read_bytes : option Z; socket_open : bool; handled : list net_event }.

Section Connection.
Context `{Zlib} `{!HeaderCrypto public_key signature}.
Context (buffer_len : nat) (fetch_block_by_id : list net_event -> digest -> bool) (closes : list net_event -> net_message -> bool).
#[local] Abbreviation L := (Z.of_nat buffer_len).

Definition conn_new : connection := mk_conn (mb_new buffer_len) None true [].
Definition set_pending m (c : connection) : connection := mk_conn m (outstanding_read_bytes c) (socket_open c) (handled c).
(** [close] leaves the buffer alone. *)
Definition close_conn (c : connection) : connection := mk_conn (pending_message_buffer c) (outstanding_read_bytes c) false (handled c).
Definition note (e : net_event) (c : connection) : connection :=
  mk_conn (pending_message_buffer c) (outstanding_read_bytes c) (socket_open c) (handled c ++ [e]).

(** What is not an exception *)
Definition fatal (e : string) : bool :=
  bool_decide (e ∈ ["exit"; "undefined: pop_front of an empty deque"; "undefined: no such buffer"; "fuel"]%string).
(** An exception closes the connection as it is. *)
Definition caught {A} (c : connection) (r : result A) (k : A -> result (connection * bool)) : result (connection * bool) :=
  match r with Ok a => k a | Err e => if fatal e then Err e else Ok (close_conn c, false) end.

(** [mb_peek_datastream] and [mb_datastream]: a type is unpacked from what is
    left to read; the second takes what was unpacked off the buffer. *)
Definition unpack_peek {A} (r : reader A) (m : message_buffer) : result (A * Z) :=
  '(s, _) ← mb_peek buffer_len (bytes_to_read buffer_len m) (read_ind m) m;
  match r s with
  | Got a rest => Ok (a, Z.of_nat (length s) - Z.of_nat (length rest))
  | Ended => Err "out_of_range_exception"
  | Thrown e _ => Err e
  end.
Definition unpack_from {A} (r : reader A) (m : message_buffer) : result (A * message_buffer) :=
  '(a, n) ← unpack_peek r m; m ← advance_read_ptr buffer_len n m; Ok (a, m).

(** [process_next_message]: whether to go on. *)
Definition peek_known : reader (option (block_header public_key)) :=
  let* w := unpack c_varint in
  if w =? signed_block_which then rmap Some (unpack c_header) else rret None.
Definition process_next_message (message_length : Z) (c : connection) : result (connection * bool) :=
  let m := pending_message_buffer c in
  caught c (unpack_peek peek_known m) (fun '(bh, _) =>
    let known := match bh with Some bh => if fetch_block_by_id (handled c) (id_of bh) then Some bh else None | None => None end in
    match known with
    | Some bh =>
      let c := note (KnownBlock (id_of bh) (block_num_of bh)) c in
      caught c (advance_read_ptr buffer_len message_length m) (fun m => Ok (set_pending m c, true))
    | None =>
      caught c (unpack_from (unpack c_net_message) m) (fun '(msg, m) =>
        let c' := note (Handled msg) (set_pending m c) in
        Ok (if closes (handled c) msg then close_conn c' else c', true))
    end).

(** The loop of the handler: every message takes its header off. *)
Fixpoint message_loop (fuel : nat) (c : connection) : result (connection * bool) :=
  match fuel with
  | O => Err "fuel"
  | S fuel =>
    let m := pending_message_buffer c in
    let bytes_in_buffer := bytes_to_read buffer_len m in
    if negb (bytes_in_buffer >? 0) then Ok (c, true)
    else if bytes_in_buffer <? message_header_size then
      Ok (mk_conn m (Some (message_header_size - bytes_in_buffer)) (socket_open c) (handled c), true)
    else caught c (mb_peek buffer_len 4 (read_ind m) m) (fun '(b, _) =>
      let message_length := word_of_bytes b in
      if (message_length >? def_send_buffer_size * 2) || (message_length =? 0) then Ok (close_conn c, false)
      else
        let total_message_bytes := u32 (message_length + message_header_size) in
        if total_message_bytes <=? bytes_in_buffer then
          caught c (advance_read_ptr buffer_len message_header_size m) (fun m =>
            '(c, go_on) ← process_next_message message_length (set_pending m c);
            if go_on : bool then message_loop fuel c else Ok (c, false))
        else
          let outstanding_message_bytes := u32 (total_message_bytes - bytes_in_buffer) in
          let available_buffer_bytes := bytes_to_write buffer_len m in
          let m := if outstanding_message_bytes >? available_buffer_bytes
                   then add_space buffer_len (u32 (outstanding_message_bytes - available_buffer_bytes)) m else m in
          Ok (mk_conn m (Some outstanding_message_bytes) (socket_open c) (handled c), true))
  end.

(** The handler of [async_read]: bytes were placed in the buffer; those that
    come after the connection was closed are ignored. *)
Definition on_read (data : bytes) (c : connection) : result connection :=
  if negb (socket_open c) then Ok c
  else
    let m := socket_fills buffer_len data (pending_message_buffer c) in
    let c := mk_conn m None (socket_open c) (handled c) in
    if Z.of_nat (length data) >? bytes_to_write buffer_len m then Ok (close_conn c)
    else
      let m := advance_write_ptr buffer_len (Z.of_nat (length data)) m in
      '(c, _) ← message_loop (S (Z.to_nat (bytes_to_read buffer_len m))) (set_pending m c);
      Ok c.

(** The network: every read takes as much of the stream as it has at hand and
    as there is room for. *)
Fixpoint receive_all (sizes : list nat) (stream : bytes) (c : connection) : result (connection * bytes) :=
  match sizes with
  | [] => Ok (c, stream)
  | n :: sizes =>
    let n := Nat.min n (Z.to_nat (bytes_to_write buffer_len (pending_message_buffer c))) in
    c ← on_read (take n stream) c;
    receive_all sizes (drop n stream) c
  end.
End Connection.

(** ** Messages arrive *)

Section Arrive.
Context `{Zlib} `{!HeaderCrypto public_key signature}.
Context (buffer_len : nat) (fetch_block_by_id : list net_event -> digest -> bool) (closes : list net_event -> net_message -> bool).
#[local] Abbreviation L := (Z.of_nat buffer_len).
#[local] Abbreviation room := (bytes_to_write buffer_len).
#[local] Abbreviation inside := (content buffer_len).
#[local] Abbreviation mb_ok := (mb_inv buffer_len).

(** What is left to read, as bytes *)
Lemma peek_some m n : mb_ok m -> 0 <= n <= Z.of_nat (length (inside m)) ->
  exists i, mb_peek buffer_len n (read_ind m) m = Ok (take (Z.to_nat n) (inside m), i).
Proof.
  intros I Hn. pose proof (content_length _ m I) as Hc. pose proof (mi_read _ _ I) as [R1 R2]. pose proof (mi_write _ _ I) as [W1 W2].
  destruct (peek_ok buffer_len (S (length (buffers m))) m (read_ind m) n I) as (i & E & _); [done|done|lia|lia|lia|].
  exists i. unfold mb_peek. rewrite E. do 2 f_equal. unfold content. rewrite take_take. f_equal. lia.
Qed.

Lemma unpack_peek_ok {A} (r : reader A) m bs more a : mb_ok m -> inside m = bs ++ more -> reads_back r bs a ->
  unpack_peek buffer_len r m = Ok (a, Z.of_nat (length bs)).
Proof.
  intros I E [G _]. unfold unpack_peek. rewrite to_read_content by done. destruct (peek_some m (Z.of_nat (length (inside m))) I) as (i & ->); [lia|].
  cbn [mbind result_bind]. rewrite Nat2Z.id, firstn_all, E, G, length_app. f_equal. f_equal. lia.
Qed.
Lemma unpack_from_ok {A} (r : reader A) m bs more a : mb_ok m -> inside m = bs ++ more -> reads_back r bs a ->
  exists m', unpack_from buffer_len r m = Ok (a, m') /\ taken buffer_len m m' (length bs).
Proof.
  intros I E Hr. unfold unpack_from. rewrite (unpack_peek_ok r m bs more a I E Hr). cbn [mbind result_bind].
  destruct (advance_read_ok buffer_len m (Z.of_nat (length bs)) I) as (m' & -> & T & _); [rewrite E, length_app; lia|].
  rewrite Nat2Z.id in T. by exists m'.
Qed.

(** ** One message *)

Record sendable (i : net_message * bytes) : Prop := {
  se_fits : net_fits i.1; se_pack : pack c_net_message i.1 = Ok i.2; se_size : Z.of_nat (length i.2) <= def_send_buffer_size * 2 }.

Definition header_in (m : net_message) : option (block_header public_key) :=
  match m with SignedBlock b => Some (sb_header (b_header b)) | _ => None end.
(** What is done with a message *)
Definition event_of (evs : list net_event) (m : net_message) : net_event :=
  match header_in m with
  | Some h => if fetch_block_by_id evs (id_of h) then KnownBlock (id_of h) (block_num_of h) else Handled m
  | None => Handled m
  end.
Definition events_of (evs : list net_event) (msgs : list net_message) : list net_event :=
  foldl (fun evs m => evs ++ [event_of evs m]) evs msgs.
(** Whether its handler closes the connection, and whether none of several does *)
Definition closed_by (evs : list net_event) (m : net_message) : bool :=
  match event_of evs m with Handled m => closes evs m | KnownBlock _ _ => false end.
Fixpoint stays_open (evs : list net_event) (msgs : list net_message) : bool :=
  match msgs with [] => true | m :: msgs => negb (closed_by evs m) && stays_open (evs ++ [event_of evs m]) msgs end.

Lemma stays_open_app evs l1 l2 : stays_open evs (l1 ++ l2) = stays_open evs l1 && stays_open (events_of evs l1) l2.
Proof. revert evs. induction l1 as [|m l1 IH]; intros evs; [done|]. cbn [app stays_open events_of foldl]. by rewrite IH, andb_assoc. Qed.

(** The connection after a message. *)
Definition after_message (m : net_message) (c : connection) : connection :=
  let c' := note (event_of (handled c) m) c in if closed_by (handled c) m then close_conn c' else c'.
Lemma after_open m c : socket_open (after_message m c) = socket_open c && negb (closed_by (handled c) m).
Proof. unfold after_message. destruct (closed_by _ _); [by rewrite andb_false_r|by rewrite andb_true_r]. Qed.
Lemma after_same m c : pending_message_buffer (after_message m c) = pending_message_buffer c /\
  handled (after_message m c) = handled c ++ [event_of (handled c) m].
Proof. unfold after_message. by destruct (closed_by _ _). Qed.

(** A block begins with its header. *)
Lemma block_header_first b bs : pack c_signed_block b = Ok bs -> exists x y, pack c_header (sb_header (b_header b)) = Ok x /\ bs = x ++ y.
Proof.
  destruct b as [[h s] t e]. intros E. cbn [c_signed_block c_iso c_pair pack fst snd b_header b_transactions b_extensions] in E. ok_bind E as hs Hh. ok_bind E as y _.
  apply (proj1 (Ok_inj _ _)) in E as <-. cbn [c_signed_header c_iso c_pair pack fst snd sb_header producer_signature] in Hh. ok_bind Hh as x Hx. ok_bind Hh as z _.
  apply (proj1 (Ok_inj _ _)) in Hh as <-. exists x, (z ++ y). split; [exact Hx|]. by rewrite <- app_assoc.
Qed.

Lemma peek_known_reads i : sendable i -> exists bs more, i.2 = bs ++ more /\ reads_back peek_known bs (header_in i.1).
Proof.
  intros [Hf E _]. destruct i as [m p]. cbn [fst snd] in *. cbn [c_net_message pack] in E. ok_bind E as x Hx. ok_bind E as y Hy. apply (proj1 (Ok_inj _ _)) in E as <-.
  assert (Hw : reads_back (unpack c_varint) x (message_which m)) by (apply (c_varint_lawful (message_which m)); [destruct m; cbn; mach_lia|exact Hx]).
  assert (None_ : (message_which m =? signed_block_which) = false -> header_in m = None -> exists bs more, x ++ y = bs ++ more /\ reads_back peek_known bs (header_in m)).
  { intros Ew En. exists x, y. split; [done|]. eapply reads_bind_nil; [exact Hw|]. cbn beta. rewrite Ew, En. apply reads_ret. }
  destruct m as [m|m|m|m|m|m|m|b|p']; try (by apply None_). cbn [pack_value] in Hy. destruct (block_header_first b y Hy) as (h & z & Hh & ->).
  exists (x ++ h), z. split; [by rewrite app_assoc|]. eapply reads_bind; [exact Hw|]. cbn [message_which Z.eqb signed_block_which Pos.eqb header_in].
  apply rmap_reads. apply c_header_lawful; [apply Hf|exact Hh].
Qed.

Lemma process_ok c i more : mb_ok (pending_message_buffer c) -> sendable i ->
  inside (pending_message_buffer c) = i.2 ++ more ->
  exists m', process_next_message buffer_len fetch_block_by_id closes (Z.of_nat (length i.2)) c =
      Ok (after_message i.1 (set_pending m' c), true) /\
    taken buffer_len (pending_message_buffer c) m' (length i.2).
Proof.
  intros I Si E. unfold process_next_message. destruct (peek_known_reads i Si) as (bs & more' & Eb & Hr).
  rewrite (unpack_peek_ok _ _ bs (more' ++ more) _ I) by (done || by rewrite E, Eb, app_assoc). cbn [caught].
  assert (Full : exists m', unpack_from buffer_len (unpack c_net_message) (pending_message_buffer c) = Ok (i.1, m') /\ taken buffer_len (pending_message_buffer c) m' (length i.2)).
  { eapply unpack_from_ok; [done|exact E|]. apply c_net_message_lawful; apply Si. }
  unfold after_message, closed_by, event_of. cbn [set_pending handled]. destruct (header_in i.1) as [h|]; [destruct (fetch_block_by_id (handled c) (id_of h))|].
  - destruct (advance_read_ok buffer_len (pending_message_buffer c) (Z.of_nat (length i.2)) I) as (m' & -> & T & _); [rewrite E, length_app; lia|].
    rewrite Nat2Z.id in T. cbn [caught]. by exists m'.
  - destruct Full as (m' & -> & T). cbn [caught]. exists m'. by destruct (closes (handled c) i.1).
  - destruct Full as (m' & -> & T). cbn [caught]. exists m'. by destruct (closes (handled c) i.1).
Qed.

(** ** The loop *)

#[local] Abbreviation frames items := (concat (map (fun i : net_message * bytes => framed i.2) items)).

Definition max_frame : Z := def_send_buffer_size * 2 + message_header_size.
Record conn_ok (c : connection) : Prop := {
  co_mb : mb_ok (pending_message_buffer c);
  co_near : (read_ind (pending_message_buffer c)).1 = 0; co_room : room (pending_message_buffer c) <= max_frame + L }.
(** Less than the next frame *)
Definition short (items : list (net_message * bytes)) (s : bytes) : Prop :=
  match items with [] => s = [] | i :: _ => Z.of_nat (length s) < message_header_size + Z.of_nat (length i.2) end.

Lemma framed_length p : length (framed p) = (4 + length p)%nat.
Proof. unfold framed. by rewrite length_app, bytes_of_word_length. Qed.
Lemma frame_size i : sendable i -> 0 < Z.of_nat (length i.2) /\ Z.of_nat (length i.2) <= 8388608.
Proof.
  intros Si. split; [|exact (se_size _ Si)]. pose proof (se_pack _ Si) as E. cbn [c_net_message pack] in E. ok_bind E as x Hx. ok_bind E as y _.
  apply (proj1 (Ok_inj _ _)) in E as <-. apply (proj1 (Ok_inj _ _)) in Hx as <-. rewrite length_app. cbn [pack_varint_loop length]. lia.
Qed.

(** The header of the first frame is the size of its payload. *)
Lemma frame_header i s more : sendable i -> framed i.2 ++ more = s -> word_of_bytes (take 4 s) = Z.of_nat (length i.2).
Proof.
  intros Si <-. pose proof (frame_size i Si) as [S1 S2]. unfold framed. rewrite <- app_assoc.
  rewrite (take_app_length' (bytes_of_word 4 _)) by (symmetry; apply bytes_of_word_length). rewrite u32_small by mach_lia. apply word_bytes. lia.
Qed.

(** The chain is no longer than what is in it, the room behind that, and one
    buffer. *)
Lemma chain_length m : mb_ok m -> (read_ind m).1 = 0 -> L * Z.of_nat (length (buffers m)) < L + Z.of_nat (length (inside m)) + room m.
Proof.
  intros I R0. rewrite content_length, to_write_value by done. pose proof (mi_read _ _ I) as [_ R2]. unfold position. rewrite R0. lia.
Qed.

Context (Hlen : 64 <= L <= 2 ^ 30).

Lemma chain_limits n : 0 <= n -> L * n <= 3 * L + 2 * max_frame -> L * n < 2 ^ 32 /\ n <= 1000000.
Proof. intros Hn Hb. change max_frame with 8388612 in Hb. split; nia. Qed.

Lemma grow_room m i : mb_ok m -> (read_ind m).1 = 0 -> sendable i -> Z.of_nat (length (inside m)) < message_header_size + Z.of_nat (length i.2) ->
  let o := message_header_size + Z.of_nat (length i.2) - Z.of_nat (length (inside m)) in room m < o ->
  let m' := add_space buffer_len (o - room m) m in
  mb_ok m' /\ inside m' = inside m /\ read_ind m' = read_ind m /\ o <= room m' <= max_frame + L.
Proof.
  intros I R0 Si Hs o Ho m'. pose proof (frame_size i Si) as [S1 S2]. pose proof (chain_length m I R0) as C. pose proof (to_write_positive _ m I) as W.
  pose proof (Z.div_mod (o - room m) L ltac:(lia)) as D. pose proof (Z.mod_pos_bound (o - room m) L ltac:(lia)) as M.
  assert (D0 : 0 <= (o - room m) / L) by (apply Z.div_pos; lia). change message_header_size with 4 in *. change max_frame with 8388612.
  destruct (chain_limits (Z.of_nat (length (buffers m)) + ((o - room m) / L + 1))) as [B1 B2]; [lia|change max_frame with 8388612; lia|].
  destruct (grow_ok buffer_len (Z.to_nat ((o - room m) / L + 1)) m I) as (I' & C' & W' & _ & R'); [by rewrite Z2Nat.id by lia..|].
  rewrite Z2Nat.id in W' by lia. split; [exact I'|]. split; [exact C'|]. split; [exact R'|]. unfold m', add_space. rewrite W'. lia.
Qed.

#[local] Abbreviation loop := (message_loop buffer_len fetch_block_by_id closes).

(** A complete frame is taken off, and its message handled. *)
Lemma frame_step fuel c i more : conn_ok c -> sendable i -> inside (pending_message_buffer c) = framed i.2 ++ more ->
  exists c', loop (S fuel) c = loop fuel c' /\ conn_ok c' /\ inside (pending_message_buffer c') = more /\
    handled c' = handled c ++ [event_of (handled c) i.1] /\ socket_open c' = socket_open c && negb (closed_by (handled c) i.1).
Proof.
  intros [I R0 Ro] Si E. pose proof (frame_size i Si) as [S1 S2]. set (m := pending_message_buffer c) in *. cbn [message_loop]. fold m.
  assert (Lc : Z.of_nat (length (inside m)) = 4 + Z.of_nat (length i.2) + Z.of_nat (length more)) by (rewrite E, length_app, framed_length; lia).
  rewrite to_read_content by done. rewrite Z.gtb_ltb, (proj2 (Z.ltb_lt _ _)), (proj2 (Z.ltb_ge _ message_header_size)) by (change message_header_size with 4; lia). cbn [negb].
  destruct (peek_some m 4 I) as (j & ->); [lia|]. cbn [caught]. change (Z.to_nat 4) with 4%nat. rewrite (frame_header i (inside m) more Si) by (by symmetry).
  rewrite Z.gtb_ltb, (proj2 (Z.ltb_ge _ _)), (proj2 (Z.eqb_neq _ _)) by (change (def_send_buffer_size * 2) with 8388608; lia). cbn [orb].
  rewrite u32_small by (change message_header_size with 4; mach_lia). rewrite (proj2 (Z.leb_le _ _)) by (change message_header_size with 4; lia).
  destruct (advance_read_ok buffer_len m message_header_size I) as (m1 & -> & (I1 & C1 & W1 & _ & _) & _); [change message_header_size with 4; lia|]. cbn [caught].
  assert (E1 : inside m1 = i.2 ++ more).
  { rewrite C1, E. change (Z.to_nat message_header_size) with 4%nat. unfold framed. rewrite <- app_assoc.
    apply drop_app_length'. symmetry. apply bytes_of_word_length. }
  destruct (process_ok (set_pending m1 c) i more I1 Si E1) as (m2 & -> & I2 & C2 & W2 & _ & R2). cbn [mbind result_bind].
  exists (after_message i.1 (set_pending m2 c)). destruct (after_same i.1 (set_pending m2 c)) as [Ep Eh]. rewrite Eh, after_open.
  split; [done|]. split; [|split; [|done]].
  - split; rewrite Ep; cbn; [done|done|]. cbn [set_pending pending_message_buffer] in W2. fold m in W1. change max_frame with 8388612 in *. lia.
  - rewrite Ep. cbn. rewrite C2. cbn [set_pending pending_message_buffer]. rewrite E1. apply drop_app_length.
Qed.

(** Less than a frame is left alone, with room for the rest of it. *)
Lemma short_step fuel c items rest : conn_ok c -> Forall sendable items -> inside (pending_message_buffer c) ++ rest = frames items ->
  short items (inside (pending_message_buffer c)) ->
  exists c', loop (S fuel) c = Ok (c', true) /\ conn_ok c' /\ inside (pending_message_buffer c') = inside (pending_message_buffer c) /\
    handled c' = handled c /\ socket_open c' = socket_open c.
Proof.
  intros Ok_ F E Hs. destruct Ok_ as [I R0 Ro] eqn:Eok. clear Eok. set (m := pending_message_buffer c) in *. cbn [message_loop]. fold m. rewrite to_read_content by done.
  destruct (Z.gtb_spec (Z.of_nat (length (inside m))) 0) as [Hp|Hp]; cbn [negb]; [|by exists c].
  destruct (Z.ltb_spec (Z.of_nat (length (inside m))) message_header_size) as [H4|H4]; [by eexists; split; [done|]; split|].
  change message_header_size with 4 in *. destruct items as [|i items]; cbn [short] in Hs; [rewrite Hs in Hp; cbn in Hp; lia|]. apply Forall_cons in F as [Si F].
  pose proof (frame_size i Si) as [S1 S2]. destruct (peek_some m 4 I) as (j & ->); [lia|]. cbn [caught].
  assert (Eh : word_of_bytes (take (Z.to_nat 4) (inside m)) = Z.of_nat (length i.2)).
  { rewrite <- (frame_header i (inside m ++ rest) (frames items) Si) by (by rewrite E). f_equal. rewrite take_app_le by lia. done. }
  rewrite Eh. rewrite Z.gtb_ltb, (proj2 (Z.ltb_ge _ _)), (proj2 (Z.eqb_neq _ _)) by (change (def_send_buffer_size * 2) with 8388608; lia). cbn [orb].
  change message_header_size with 4 in *. rewrite (u32_small (_ + 4)) by mach_lia. rewrite (proj2 (Z.leb_gt _ _)) by lia.
  rewrite (u32_small (_ - Z.of_nat (length (inside m)))) by mach_lia. rewrite Z.gtb_ltb.
  destruct (Z.ltb_spec (room m) (Z.of_nat (length i.2) + 4 - Z.of_nat (length (inside m)))) as [Hr|Hr]; [|by eexists; split; [done|]; split].
  pose proof (to_write_positive buffer_len m I). rewrite u32_small by mach_lia. rewrite (Z.add_comm _ 4) in *.
  destruct (grow_room m i I R0 Si Hs Hr) as (I' & C' & R' & W'). eexists. split; [done|]. split; [|by split]. split; cbn [socket_open pending_message_buffer]; [exact I'|exact (eq_trans (f_equal fst R') R0)|apply W'].
Qed.

Lemma loop_ok fuel c items rest : conn_ok c -> Forall sendable items -> inside (pending_message_buffer c) ++ rest = frames items ->
  (length (inside (pending_message_buffer c)) < fuel)%nat ->
  exists c' done left, items = done ++ left /\ loop fuel c = Ok (c', true) /\ conn_ok c' /\ handled c' = events_of (handled c) (map fst done) /\
    socket_open c' = socket_open c && stays_open (handled c) (map fst done) /\
    inside (pending_message_buffer c') ++ rest = frames left /\ short left (inside (pending_message_buffer c')).
Proof.
  revert c items. induction fuel as [|fuel IH]; intros c items Ok_ F E Hf; [lia|]. set (s := inside (pending_message_buffer c)) in *.
  assert (D : short items s \/ exists i items' more, items = i :: items' /\ s = framed i.2 ++ more /\ more ++ rest = frames items').
  { destruct items as [|i items]; [left; cbn in E; by apply app_eq_nil in E as [-> _]|]. cbn [short map concat] in *. change message_header_size with 4.
    destruct (le_lt_dec (4 + length i.2) (length s)) as [Hl|Hl]; [right|left; lia]. exists i, items, (drop (4 + length i.2) s). split; [done|].
    assert (Et : take (4 + length i.2) s = framed i.2).
    { rewrite <- (take_app_le s rest) by lia. rewrite E. apply take_app_length'. symmetry. apply framed_length. }
    split; [by rewrite <- Et, take_drop|]. apply (app_inv_head (framed i.2)). rewrite app_assoc, <- Et at 1. by rewrite take_drop. }
  destruct D as [Hs|(i & items' & more & -> & Es & Er)].
  - destruct (short_step fuel c items rest Ok_ F E Hs) as (c' & El & Oc & C & Hh & Ho). exists c', [], items.
    split_and!; [done|exact El|exact Oc|exact Hh|by rewrite Ho, andb_true_r|by rewrite C|by rewrite C].
  - apply Forall_cons in F as [Si F]. destruct (frame_step fuel c i more Ok_ Si Es) as (c1 & El & O1 & C1 & H1 & P1).
    destruct (IH c1 items' O1 F) as (c' & dn & lf & -> & E' & Oc & Hh & Ho & Ce & Hs); [by rewrite C1|rewrite C1; rewrite Es, length_app, framed_length in Hf; lia|].
    exists c', (i :: dn), lf. split_and!; [done|by rewrite El|done|by rewrite Hh, H1| |done|done]. cbn [map stays_open fst]. by rewrite Ho, P1, H1, andb_assoc.
Qed.

(** ** Reads *)

Lemma on_read_ok c items data rest : socket_open c = true -> conn_ok c -> Forall sendable items -> inside (pending_message_buffer c) ++ data ++ rest = frames items ->
  short items (inside (pending_message_buffer c)) -> Z.of_nat (length data) <= room (pending_message_buffer c) ->
  exists c' done left, items = done ++ left /\ on_read buffer_len fetch_block_by_id closes data c = Ok c' /\ conn_ok c' /\
    handled c' = events_of (handled c) (map fst done) /\ socket_open c' = stays_open (handled c) (map fst done) /\
    inside (pending_message_buffer c') ++ rest = frames left /\ short left (inside (pending_message_buffer c')).
Proof.
  intros Op [I R0 Ro] F E Hs Hd. set (m := pending_message_buffer c) in *. unfold on_read. rewrite Op. cbn [negb]. fold m.
  assert (Hc : Z.of_nat (length (inside m)) < max_frame).
  { destruct items as [|i items]; cbn [short] in Hs; [by rewrite Hs|]. apply Forall_cons in F as [Si _]. pose proof (frame_size i Si).
    change max_frame with 8388612. change message_header_size with 4 in Hs. lia. }
  pose proof (chain_length m I R0) as C. destruct (chain_limits (Z.of_nat (length (buffers m)) + 1)) as [B1 B2]; [lia|lia|].
  destruct (receive_ok buffer_len m data I Hd B1 B2) as (I' & C' & _ & W' & R').
  assert (Er : room (socket_fills buffer_len data m) = room m).
  { unfold bytes_to_write, total_bytes. cbn [socket_fills write_ind]. by rewrite (proj2 (proj2 (received_flat buffer_len m data I Hd))). }
  rewrite Er, Z.gtb_ltb, (proj2 (Z.ltb_ge _ _)) by lia. set (m' := advance_write_ptr _ _ _) in *.
  assert (Oc : conn_ok (set_pending m' (mk_conn (socket_fills buffer_len data m) None true (handled c)))).
  { split; cbn [set_pending pending_message_buffer socket_open]; [done|by rewrite R'|]. change max_frame with 8388612 in *. lia. }
  destruct (loop_ok (S (Z.to_nat (bytes_to_read buffer_len m'))) _ items rest Oc F) as (c' & dn & lf & Ei & -> & P); cbn [set_pending pending_message_buffer].
  - by rewrite C', <- app_assoc.
  - rewrite to_read_content by done. lia.
  - cbn [mbind result_bind]. by exists c', dn, lf.
Qed.

(** Nothing is read after the connection was closed. *)
Lemma receive_closed sizes c stream : socket_open c = false ->
  exists rest, receive_all buffer_len fetch_block_by_id closes sizes stream c = Ok (c, rest).
Proof.
  intros Hc. revert stream. induction sizes as [|n sizes IH]; intros stream; cbn [receive_all]; [by exists stream|].
  unfold on_read. rewrite Hc. apply IH.
Qed.

Lemma receive_all_ok sizes c items stream : socket_open c = true -> conn_ok c -> Forall sendable items ->
  inside (pending_message_buffer c) ++ stream = frames items -> short items (inside (pending_message_buffer c)) ->
  exists c' rest done left, items = done ++ left /\ receive_all buffer_len fetch_block_by_id closes sizes stream c = Ok (c', rest) /\
    handled c' = events_of (handled c) (map fst done) /\ socket_open c' = stays_open (handled c) (map fst done) /\
    (socket_open c' = true -> inside (pending_message_buffer c') ++ rest = frames left /\ short left (inside (pending_message_buffer c')) /\
       (Forall (fun n => 0 < n)%nat sizes -> length rest <= length stream - length sizes)%nat).
Proof.
  revert c items stream. induction sizes as [|n sizes IH]; intros c items stream Op Oc F E Hs; cbn [receive_all].
  - exists c, stream, [], items. split_and!; try done. intros _. split_and!; try done. cbn. lia.
  - set (k := Nat.min n _). destruct (on_read_ok c items (take k stream) (drop k stream) Op Oc F) as (c1 & d1 & l1 & -> & E1 & O1 & H1 & P1 & C1 & S1).
    + by rewrite take_drop.
    + done.
    + rewrite length_take. pose proof (to_write_positive buffer_len _ (co_mb _ Oc)). unfold k. lia.
    + rewrite E1. cbn [mbind result_bind]. apply Forall_app in F as [_ F]. destruct (socket_open c1) eqn:Hop1.
      2: { destruct (receive_closed sizes c1 (drop k stream) Hop1) as [rest Er]. exists c1, rest, d1, l1. split_and!; try done; congruence. }
      destruct (IH c1 l1 (drop k stream) Hop1 O1 F C1 S1) as (c' & rest & d2 & l2 & -> & E2 & H2 & O2 & P2).
      exists c', rest, (d1 ++ d2), l2. rewrite app_assoc, map_app. split_and!; try done.
      * rewrite H2, H1. unfold events_of. by rewrite foldl_app.
      * by rewrite stays_open_app, <- P1, <- H1, O2.
      * intros Hop. destruct (P2 Hop) as (C2 & S2 & L2). split_and!; [done|done|]. intros Fp. apply Forall_cons in Fp as [Hn Fp].
        specialize (L2 Fp). rewrite length_drop in L2. cbn [length].
        pose proof (to_write_positive buffer_len _ (co_mb _ Oc)). unfold k in L2. lia.
Qed.

Lemma conn_new_ok : conn_ok (conn_new buffer_len) /\ inside (pending_message_buffer (conn_new buffer_len)) = [].
Proof.
  split; [|by unfold content, position; cbn]. assert (I : mb_ok (mb_new buffer_len)).
  { split; cbn [mb_new buffers read_ind write_ind sanity_check fst snd length]; [lia|repeat constructor; apply length_replicate|lia|lia|done|done|lia]. }
  split; cbn [conn_new pending_message_buffer socket_open]; [exact I|done|]. rewrite to_write_value by exact I. change max_frame with 8388612. unfold position. cbn [mb_new write_ind buffers fst snd length]. lia.
Qed.

(** What [enqueue] made of the messages *)
Definition sent (m : net_message) (b : bytes) : Prop := net_fits m /\ enqueue m = Ok b /\ Z.of_nat (length b) <= max_frame.

Lemma sent_items msgs bufs : Forall2 sent msgs bufs -> exists items, map fst items = msgs /\ frames items = concat bufs /\ Forall sendable items.
Proof.
  induction 1 as [|m b msgs bufs (Hf & E & Hl) _ (items & <- & Ef & F)]; [by exists []|]. unfold enqueue in E. ok_bind E as p Hp. apply (proj1 (Ok_inj _ _)) in E as <-.
  exists ((m, p) :: items). split_and!; [done|cbn [map concat snd]; by rewrite Ef|]. constructor; [|done]. split; cbn [fst snd]; [done|done|].
  rewrite framed_length in Hl. change max_frame with 8388612 in Hl. change (def_send_buffer_size * 2) with 8388608. lia.
Qed.

(** However the network cuts the stream up, and whatever the handlers decide:
    what was handled are the first messages that were sent, each once, in
    order; the connection is open unless the handler of one of them closed it;
    and if it is open when there were as many reads that gave something as the
    stream has bytes, these are all messages.  Payloads are at most twice the
    size of the send buffer, 8 MiB. (C11) *)
Theorem messages_arrive msgs bufs sizes : Forall2 sent msgs bufs ->
  exists c rest arrived later, receive_all buffer_len fetch_block_by_id closes sizes (concat bufs) (conn_new buffer_len) = Ok (c, rest) /\
    msgs = arrived ++ later /\ handled c = events_of [] arrived /\ socket_open c = stays_open [] arrived /\
    (socket_open c = true -> Forall (fun n => 0 < n)%nat sizes -> (length (concat bufs) <= length sizes)%nat -> later = []).
Proof.
  intros Hs. destruct (sent_items msgs bufs Hs) as (items & <- & Ef & F). destruct conn_new_ok as [Oc Ec].
  destruct (receive_all_ok sizes (conn_new buffer_len) items (concat bufs) eq_refl Oc F) as (c & rest & dn & lf & -> & E & Hh & Ho & P).
  - by rewrite Ec, Ef.
  - rewrite Ec. destruct items; cbn [short length]; [done|]. change message_header_size with 4. lia.
  - exists c, rest, (map fst dn), (map fst lf). split_and!; [exact E|apply map_app|exact Hh|exact Ho|]. intros Hop Fp Hl.
    destruct (P Hop) as (C & S & Q). specialize (Q Fp).
    assert (rest = []) as -> by (apply length_zero_iff_nil; lia). rewrite app_nil_r in C. destruct lf as [|i lf]; [done|]. exfalso.
    cbn [short map concat] in *. rewrite C, length_app, framed_length in S. change message_header_size with 4 in S. lia.
Qed.
End Arrive.

(** ** Concrete runs *)

Module NetRuns.
Import RawRuns.

#[export] Instance net_crypto : HeaderCrypto public_key signature := {
  hash_of_pair := fun p => p.1; header_digest := fun h => mk_digest (h_timestamp h) (h_producer h) 0 0;
  schedule_digest := fun s => zero; recover_key := fun _ s _ => Ok (inl []); default_key := inl []; default_signature := inl [];
  pack_features := toy_pack; unpack_features := toy_unpack; unpack_pack := toy_unpack_pack }.

(** A request, a block that is not known, a notice, and the block again. *)
Definition conversation : list net_message :=
  [SyncRequest (mk_sync_request 5 9); SignedBlock block; Notice (mk_notice (mk_select 3 1 [zero]) (mk_select 0 0 [])); SignedBlock block].
Definition wire : list bytes := map (fun m => from_ok [] (enqueue m)) conversation.
(** Known are the blocks that were handled. *)
Definition seen (evs : list net_event) (id : digest) : bool :=
  existsb (fun e => match e with Handled (SignedBlock b) => bool_decide (id_of (sb_header (b_header b)) = id) | _ => false end) evs.
Definition sevens : list nat := replicate 900 7%nat.
Definition run (closes : list net_event -> net_message -> bool) sizes stream := receive_all 64 seen closes sizes stream (conn_new 64).

Lemma wire_sent : Forall2 sent conversation wire.
Proof.
  repeat (apply Forall2_cons; split; [split; [|split; [vm_compute; reflexivity|vm_compute; congruence]]|]); [| | | |by apply Forall2_nil].
  - split; cbn; mach_lia.
  - exact block_fits_block.
  - unfold net_fits, select_fits, digest_wf. cbn. split_and!; try mach_lia; repeat constructor; cbn; mach_lia.
  - exact block_fits_block.
Qed.

(** The handler of a message about a block number above 7 closes the connection. *)
Definition closer (_ : list net_event) (m : net_message) : bool := match m with SyncRequest r => 7 <? start_block r | _ => false end.

Lemma messages_arrive_witness :
  (exists c rest, run (fun _ _ => false) sevens (concat wire) = Ok (c, rest) /\
    handled c = [Handled (SyncRequest (mk_sync_request 5 9)); Handled (SignedBlock block);
      Handled (Notice (mk_notice (mk_select 3 1 [zero]) (mk_select 0 0 []))); KnownBlock (id_of header) 2] /\ socket_open c = true) /\
  (exists c rest arrived, run closer sevens (concat wire) = Ok (c, rest) /\ socket_open c = stays_open seen closer [] arrived).
Proof.
  split.
  - destruct (messages_arrive 64 seen (fun _ _ => false) ltac:(lia) conversation wire sevens wire_sent) as (c & rest & arrived & later & E & M & Hh & O & P).
    exists c, rest. split; [exact E|].
    assert (Hop : socket_open c = true).
    { rewrite O. assert (Hs : forall l evs, stays_open seen (fun _ _ => false) evs l = true); [|apply Hs].
      induction l as [|m l IH]; intros evs; [done|]. cbn [stays_open]. rewrite IH. unfold closed_by. by destruct (event_of _ _ _). }
    rewrite P in M; [|exact Hop|by apply Forall_replicate; lia|apply Nat.leb_le; vm_compute; reflexivity].
    rewrite app_nil_r in M. subst arrived. split; [rewrite Hh; vm_compute; reflexivity|exact Hop].
  - destruct (messages_arrive 64 seen closer ltac:(lia) conversation wire sevens wire_sent) as (c & rest & arrived & later & E & _ & _ & O & _).
    exists c, rest, arrived. exact (conj E O).
Defined.

(** The length that a frame declares is only waited for: a message is unpacked
    from all that is in the buffer, so that what becomes of a frame that is too
    short depends on how the stream was cut. *)
Example declared_length_unchecked :
  let frame := bytes_of_word 4 5 ++ drop 4 (from_ok [] (enqueue (SyncRequest (mk_sync_request 5 9)))) in
  let outcome r := (fun x => (socket_open x.1, handled x.1)) <$> r in
  outcome (run (fun _ _ => false) [13%nat] frame) = Ok (true, [Handled (SyncRequest (mk_sync_request 5 9))]) /\
  outcome (run (fun _ _ => false) [9%nat; 4%nat] frame) = Ok (false, []).
Proof. vm_compute. split; reflexivity. Qed.

(** A handler that closes the connection does not end the loop: what is in the
    buffer already is still handled. *)
Example handled_after_close :
  let msg n := SyncRequest (mk_sync_request n n) in
  let stream := from_ok [] (enqueue (msg 1)) ++ from_ok [] (enqueue (msg 2)) in
  (fun x => (socket_open x.1, handled x.1)) <$> run (fun _ _ => true) [26%nat] stream = Ok (false, [Handled (msg 1); Handled (msg 2)]).
Proof. vm_compute. reflexivity. Qed.
End NetRuns.
