(* ===== verification/SyncManager.v ===== *)
(** * Synchronisation of a node with its peers ([sync_manager] and the
    connections it uses, [net_plugin.cpp])

    The state machine that asks peers for the blocks up to the last irreversible
    block they know: when it starts, which peer it asks for which range, what a
    block, a notice, a handshake, a timeout or a closed connection does; and the
    side that serves a range.  Block numbers are 32 bits wide.  Connections have
    numbers; [connections] is the set in its order.  What the chain knows is an
    argument.  Retrying other fetches when a connection closes, timers and the
    queues of outgoing buffers are left out; messages are listed in the order
    they are sent. *)

From Stdlib Require Import ZArith Lia Ascii String.
From stdpp Require Import base numbers gmap list.
From S2P Require Import Prelude Boost Merkle Hex BlockHeader Raw RawChain NetMessages.
Local Open Scope Z_scope.

Inductive stages := lib_catchup | head_catchup | in_sync.
#[global] Instance stages_eq_dec : EqDecision stages.
Proof. solve_decision. Defined.

(** What the manager uses of a connection: [sc_lib] is the last irreversible
    block number of the last handshake received. *)
Record sync_conn := mk_sync_conn {
  sc_open : bool; connecting : bool; syncing : bool; sc_lib : Z; protocol_version : Z; fork_head : digest; fork_head_num : Z }.

(** What is sent *)
Inductive outgoing := Enqueue (c : Z) (m : net_message) | SendHandshake (c : Z).

Record sync_manager := mk_sync {
  sync_known_lib_num : Z; sync_last_requested_num : Z; sync_next_expected_num : Z; sync_req_span : Z;
  source : option Z; stage : stages; connections : list Z; conns : gmap Z sync_conn; outbox : list outgoing }.

(** What the manager asks of the chain *)
Record chain_view := mk_view {
  pending_head_num : Z; pending_head_id : digest; chain_lib_num : Z; id_for_num : Z -> option digest;
  has_block : digest -> bool; local_txns_size : Z }.

Definition null_id : digest := mk_digest 0 0 0 0.
Definition mode_none : Z := 0.
Definition mode_catch_up : Z := 1.
Definition mode_last_irr_catch_up : Z := 2.
Definition proto_base : Z := 0.
Definition proto_explicit_sync : Z := 1.
Definition no_ids : select_ids := mk_select mode_none 0 [].

Section Sync.
Implicit Types (s : sync_manager) (c : Z).

Definition sync_new (req_span : Z) : sync_manager := mk_sync 0 0 1 req_span None in_sync [] ∅ [].

(** Assignments *)
Definition set_known n s := mk_sync n (sync_last_requested_num s) (sync_next_expected_num s) (sync_req_span s) (source s) (stage s) (connections s) (conns s) (outbox s).
Definition set_requested n s := mk_sync (sync_known_lib_num s) n (sync_next_expected_num s) (sync_req_span s) (source s) (stage s) (connections s) (conns s) (outbox s).
Definition set_expected n s := mk_sync (sync_known_lib_num s) (sync_last_requested_num s) n (sync_req_span s) (source s) (stage s) (connections s) (conns s) (outbox s).
Definition set_source o s := mk_sync (sync_known_lib_num s) (sync_last_requested_num s) (sync_next_expected_num s) (sync_req_span s) o (stage s) (connections s) (conns s) (outbox s).
Definition sync_set_state g s := mk_sync (sync_known_lib_num s) (sync_last_requested_num s) (sync_next_expected_num s) (sync_req_span s) (source s) g (connections s) (conns s) (outbox s).
Definition set_conns m s := mk_sync (sync_known_lib_num s) (sync_last_requested_num s) (sync_next_expected_num s) (sync_req_span s) (source s) (stage s) (connections s) m (outbox s).
Definition send o s := mk_sync (sync_known_lib_num s) (sync_last_requested_num s) (sync_next_expected_num s) (sync_req_span s) (source s) (stage s) (connections s) (conns s) (outbox s ++ o).

Definition no_conn : sync_conn := mk_sync_conn false false false 0 0 null_id 0.
Definition conn_of s c : sync_conn := default no_conn (conns s !! c).
Definition update_conn c (f : sync_conn -> sync_conn) s : sync_manager := set_conns (<[c := f (conn_of s c)]> (conns s)) s.
Definition set_syncing b (p : sync_conn) := mk_sync_conn (sc_open p) (connecting p) b (sc_lib p) (protocol_version p) (fork_head p) (fork_head_num p).
Definition set_lib n (p : sync_conn) := mk_sync_conn (sc_open p) (connecting p) (syncing p) n (protocol_version p) (fork_head p) (fork_head_num p).
Definition set_fork id n (p : sync_conn) := mk_sync_conn (sc_open p) (connecting p) (syncing p) (sc_lib p) (protocol_version p) id n.

(** [connected], [current] *)
Definition connected s c : bool := sc_open (conn_of s c) && negb (connecting (conn_of s c)).
Definition current s c : bool := connected s c && negb (syncing (conn_of s c)).
Definition source_current s : bool := match source s with Some c => current s c | None => false end.

Definition is_active (v : chain_view) (c : option Z) s : bool :=
  match c with
  | Some c => if bool_decide (stage s = head_catchup)
      then bool_decide (fork_head (conn_of s c) <> null_id) && (fork_head_num (conn_of s c) <? pending_head_num v)
      else bool_decide (stage s <> in_sync)
  | None => bool_decide (stage s <> in_sync)
  end.

Definition sync_required (v : chain_view) s : bool :=
  (sync_last_requested_num s <? sync_known_lib_num s) || (pending_head_num v <? sync_last_requested_num s).

(** The next source: all connections once around, from the one after the old
    source, or from the first; without one that is current the old source
    stays, unless it is gone from the set. *)
Definition ring (l : list Z) (i : nat) : list Z := drop i l ++ take i l.
Definition scan (l : list Z) s : sync_manager :=
  match list_find (fun c => current s c) l with Some (_, c) => set_source (Some c) s | None => s end.
Definition next_source s : sync_manager :=
  match connections s with
  | [] => set_source None s
  | [c] => match source s with None => set_source (Some c) s | Some _ => s end
  | l =>
    match source s with
    | None => scan l s
    | Some o =>
      match list_find (eq o) l with
      | None => scan l (set_source None s)
      | Some (i, _) => scan (if Nat.eqb (S i) (length l) then l else ring l (S i)) s
      end
    end
  end.

Definition request_sync_blocks c (start stop : Z) : outgoing := Enqueue c (SyncRequest (mk_sync_request start stop)).

Definition request_next_chunk (v : chain_view) (conn : option Z) s : sync_manager :=
  if (pending_head_num v <? sync_last_requested_num s) && source_current s then s
  else
    let s := match conn with
             | Some c => if current s c then set_source (Some c) s else next_source s
             | None => next_source s
             end in
    match source s with
    | Some c =>
      if current s c then
        if negb (sync_last_requested_num s =? sync_known_lib_num s) then
          let start := sync_next_expected_num s in
          let stop := u32 (start + sync_req_span s - 1) in
          let stop := if stop >? sync_known_lib_num s then sync_known_lib_num s else stop in
          if (stop >? 0) && (start <=? stop) then set_requested stop (send [request_sync_blocks c start stop] s) else s
        else s
      else sync_set_state in_sync (set_requested 0 (set_known (chain_lib_num v) s))
    | None => sync_set_state in_sync (set_requested 0 (set_known (chain_lib_num v) s))
    end.

Definition reset_lib_num (v : chain_view) c s : sync_manager :=
  let s := if bool_decide (stage s = in_sync) then set_source None s else s in
  if current s c then
    if sc_lib (conn_of s c) >? sync_known_lib_num s then set_known (sc_lib (conn_of s c)) s else s
  else if bool_decide (Some c = source s) then request_next_chunk v None (set_requested 0 s)
  else s.

Definition send_handshakes s : sync_manager :=
  send (map SendHandshake (filter (fun c => current s c) (connections s))) s.

Definition start_sync (v : chain_view) c (target : Z) s : sync_manager :=
  let s := if target >? sync_known_lib_num s then set_known target s else s in
  if negb (sync_required v s) || (target <=? chain_lib_num v) then s
  else
    let s := if bool_decide (stage s = in_sync) then set_expected (u32 (chain_lib_num v + 1)) (sync_set_state lib_catchup s) else s in
    request_next_chunk v (Some c) s.

(** [sync_timeout] without an error is [reassign_fetch] with a benign reason:
    an empty request. *)
Definition cancel_sync c : outgoing := request_sync_blocks c 0 0.
Definition reassign_fetch (v : chain_view) c s : sync_manager :=
  if bool_decide (Some c = source s) then request_next_chunk v None (set_requested 0 (send [cancel_sync c] s)) else s.

(** [close], up to what is left out *)
Definition close_peer (v : chain_view) c s : sync_manager :=
  reset_lib_num v c (update_conn c (fun p => mk_sync_conn false false false 0 (protocol_version p) (fork_head p) (fork_head_num p)) s).

(** The loop of [verify_catchup] over the connections *)
Definition some_peer_ahead (num : Z) (id : digest) s : bool :=
  existsb (fun c => bool_decide (fork_head (conn_of s c) = id) || (fork_head_num (conn_of s c) >? num)) (connections s).
Definition verify_catchup c (num : Z) (id : digest) s : sync_manager * bool :=
  let req mode := Enqueue c (Request (mk_request no_ids (mk_select mode 0 []))) in
  if negb (some_peer_ahead num id s) then
    if bool_decide (stage s = lib_catchup) then (s, false)
    else (send [req mode_catch_up] (update_conn c (set_fork id num) (sync_set_state head_catchup s)), true)
  else (send [req mode_none] (update_conn c (set_fork null_id 0) s), true).

(** [recv_handshake]: the numbers of the peer's handshake *)
Definition recv_handshake (v : chain_view) c (msg : handshake_message) s : sync_manager :=
  let s := update_conn c (set_syncing false) (reset_lib_num v c s) in
  let talks := (generation msg >? 1) || (protocol_version (conn_of s c) >? proto_base) in
  if bool_decide (pending_head_id v = hs_head_id msg) then
    send [Enqueue c (Notice (mk_notice (mk_select mode_catch_up (u32 (local_txns_size v)) []) no_ids))] s
  else if pending_head_num v <? hs_last_irreversible_block_num msg then
    if protocol_version (conn_of s c) <? proto_explicit_sync then start_sync v c (hs_last_irreversible_block_num msg) s else s
  else if chain_lib_num v >? hs_head_num msg then
    update_conn c (set_syncing true) (if talks
      then send [Enqueue c (Notice (mk_notice (mk_select mode_last_irr_catch_up (chain_lib_num v) [])
                                              (mk_select mode_last_irr_catch_up (pending_head_num v) [])))] s else s)
  else if pending_head_num v <? hs_head_num msg then (verify_catchup c (hs_head_num msg) (hs_head_id msg) s).1
  else
    let s := if talks then send [Enqueue c (Notice (mk_notice no_ids (mk_select mode_catch_up (pending_head_num v) [pending_head_id v])))] s else s in
    let s := update_conn c (set_syncing true) s in
    if bool_decide (id_for_num v (hs_head_num msg) <> Some (hs_head_id msg))
    then send [Enqueue c (Request (mk_request no_ids (mk_select mode_catch_up 0 [])))] s else s.

Definition recv_notice (v : chain_view) c (msg : notice_message) s : sync_manager :=
  let ids := sel_ids (known_blocks msg) in
  if Nat.ltb 1 (length ids) then close_peer v c s
  else if sel_mode (known_blocks msg) =? mode_catch_up then
    match last ids with
    | None => s
    | Some id => if negb (has_block v id) then (verify_catchup c (sel_pending (known_blocks msg)) id s).1 else send [SendHandshake c] s
    end
  else
    let s := update_conn c (set_lib (sel_pending (known_trx msg))) s in
    start_sync v c (sel_pending (known_trx msg)) (reset_lib_num v c s).

Definition sync_rejected_block (v : chain_view) c s : sync_manager :=
  if bool_decide (stage s <> in_sync) then
    send_handshakes (sync_set_state in_sync (close_peer v c (set_source None (set_requested 0 s))))
  else s.

(** The loop of [recv_block] over the connections: it is the fork head of the
    connection of the block that is reset, whoever had it. *)
Fixpoint fork_loop (l : list Z) c (blk_id : digest) (blk_num : Z) s : sync_manager :=
  match l with
  | [] => s
  | cp :: l =>
    fork_loop l c blk_id blk_num
      (if bool_decide (fork_head (conn_of s cp) = null_id) then s
       else if bool_decide (fork_head (conn_of s cp) = blk_id) || (fork_head_num (conn_of s cp) <? blk_num)
       then update_conn c (set_fork null_id 0) s
       else sync_set_state head_catchup s)
  end.

Definition recv_block (v : chain_view) c (blk_id : digest) (blk_num : Z) s : sync_manager :=
  if bool_decide (stage s = lib_catchup) then
    if negb (blk_num =? sync_next_expected_num s) then s
    else
      let s := set_expected (u32 (blk_num + 1)) s in
      if blk_num =? sync_known_lib_num s then send_handshakes (sync_set_state in_sync s)
      else if blk_num =? sync_last_requested_num s then request_next_chunk v None s
      else s
  else if bool_decide (stage s = head_catchup) then
    let s := fork_loop (connections s) c blk_id blk_num (set_source None (sync_set_state in_sync s)) in
    if bool_decide (stage s = in_sync) then send_handshakes s else s
  else s.
End Sync.

(** ** The side that is asked *)

Record sync_request := mk_sync_state { ss_start : Z; ss_end : Z; ss_last : Z }.

(** [enqueue_sync_block]: the number of the block that is fetched and sent *)
Definition enqueue_sync_block (p : option sync_request) : option sync_request * option Z :=
  match p with
  | None => (None, None)
  | Some r =>
    let num := u32 (ss_last r + 1) in
    (if num =? ss_end r then None else Some (mk_sync_state (ss_start r) (ss_end r) num), Some num)
  end.
(** [handle_message( sync_request_message )]; after it, every write that is
    done enqueues one more block. *)
Definition handle_sync_request (m : sync_request_message) (p : option sync_request) : option sync_request * option Z :=
  if end_block m =? 0 then (None, None)
  else enqueue_sync_block (Some (mk_sync_state (start_block m) (end_block m) (u32 (start_block m - 1)))).
Fixpoint served (writes : nat) (p : option sync_request) : list Z :=
  match writes with
  | O => []
  | S n => match enqueue_sync_block p with (p, Some num) => num :: served n p | (_, None) => [] end
  end.
Definition serve (m : sync_request_message) (writes : nat) : list Z :=
  match handle_sync_request m None with (p, Some num) => num :: served writes p | (_, None) => [] end.

(** ** The range that is asked for *)

Section Chunks.
Implicit Types (s : sync_manager) (c : Z).

(** A request of a manager: not longer than the span, or empty *)
Definition request_ok (span : Z) (o : outgoing) : Prop :=
  match o with
  | Enqueue _ (SyncRequest r) => (start_block r = 0 /\ end_block r = 0) \/ (0 < end_block r /\ start_block r <= end_block r < start_block r + span)
  | _ => True
  end.

(** The fields that no choice of a source changes *)
Definition same_counts s s' : Prop :=
  sync_known_lib_num s' = sync_known_lib_num s /\ sync_last_requested_num s' = sync_last_requested_num s /\
  sync_next_expected_num s' = sync_next_expected_num s /\ sync_req_span s' = sync_req_span s /\
  stage s' = stage s /\ connections s' = connections s /\ conns s' = conns s /\ outbox s' = outbox s.

Lemma scan_counts l s : same_counts s (scan l s).
Proof. unfold scan. by destruct (list_find _ l) as [[i c]|]. Qed.
Lemma next_source_counts s : same_counts s (next_source s).
Proof.
  unfold next_source. destruct (connections s) as [|c [|d l]] eqn:E; [by split_and!..| |].
  - by destruct (source s).
  - destruct (source s) as [o|]; [|apply scan_counts]. destruct (list_find (eq o) _) as [[i x]|]; [apply scan_counts|].
    exact (scan_counts (c :: d :: l) (set_source None s)).
Qed.

(** Once around the connections: with a source that is current there is one
    afterwards. *)
Lemma scan_finds l s x : x ∈ l -> current s x -> exists y, scan l s = set_source (Some y) s /\ y ∈ l /\ current s y.
Proof.
  intros Hx Hc. unfold scan. destruct (list_find (fun c => current s c) l) as [[i y]|] eqn:E.
  - apply list_find_Some in E as (E & Hy & _). exists y. split; [done|]. split; [by eapply list_elem_of_lookup_2|done].
  - apply list_find_None in E. rewrite Forall_forall in E. by destruct (E x Hx).
Qed.
Lemma ring_elem l i x : x ∈ ring l i <-> x ∈ l.
Proof. unfold ring. rewrite <- (take_drop i l) at 3. rewrite !elem_of_app. tauto. Qed.
Lemma next_source_found s x : source s = Some x -> x ∈ connections s -> current s x ->
  exists y, next_source s = set_source (Some y) s /\ y ∈ connections s /\ current s y.
Proof.
  intros Es Hx Hc. unfold next_source. destruct (connections s) as [|c [|d l]]; [by apply not_elem_of_nil in Hx| |].
  - rewrite Es. exists x. split; [|done]. destruct s. cbn in *. by subst.
  - set (cs := c :: d :: l) in *. rewrite Es. destruct (list_find (eq x) cs) as [[i z]|] eqn:E.
    + destruct (Nat.eqb (S i) (length cs)); [by apply scan_finds with x|]. destruct (scan_finds (ring cs (S i)) s x) as (y & Ey & Hy & Hcy); [by apply ring_elem|done|].
      exists y. by rewrite ring_elem in Hy.
    + apply list_find_None in E. rewrite Forall_forall in E. by destruct (E x Hx).
Qed.

(** [request_next_chunk]: nothing, or one range from the next expected block
    on, to a current source; without a source the manager gives up. *)
Lemma request_cases v conn s (s' := request_next_chunk v conn s) : 0 < sync_req_span s -> 0 <= sync_next_expected_num s ->
  sync_req_span s' = sync_req_span s /\ sync_next_expected_num s' = sync_next_expected_num s /\
  (stage s' = in_sync \/ source s' <> None) /\
  (outbox s' = outbox s \/ exists c stop, outbox s' = outbox s ++ [request_sync_blocks c (sync_next_expected_num s) stop] /\
     source s' = Some c /\ current s' c /\ sync_last_requested_num s' = stop /\ stop <= sync_known_lib_num s' /\
     0 < stop /\ sync_next_expected_num s <= stop < sync_next_expected_num s + sync_req_span s).
Proof.
  intros Hs Hn. subst s'. unfold request_next_chunk. destruct ((_ <? _) && source_current s) eqn:Eh.
  { apply andb_prop in Eh as [_ Eh]. split_and!; [done|done| |by left]. right. intros E. unfold source_current in Eh. by rewrite E in Eh. }
  set (s1 := match conn with Some c => _ | None => _ end). assert (C : same_counts s s1).
  { unfold s1. destruct conn as [c|]; [destruct (current s c); [by split_and!|]|]; apply next_source_counts. }
  clearbody s1. destruct C as (K & R & N & S & _ & _ & _ & O). rewrite <- N, <- S in *.
  assert (Give : let g := sync_set_state in_sync (set_requested 0 (set_known (chain_lib_num v) s1)) in
    sync_req_span g = sync_req_span s1 /\ sync_next_expected_num g = sync_next_expected_num s1 /\ (stage g = in_sync \/ source g <> None) /\ outbox g = outbox s).
  { cbn. split_and!; [done|done|by left|done]. }
  destruct (source s1) as [c|] eqn:Ec; [|destruct Give as (-> & -> & G & ->); split_and!; [done|done|exact G|by left]].
  destruct (current s1 c) eqn:Ecur; [|destruct Give as (-> & -> & G & ->); split_and!; [done|done|exact G|by left]].
  assert (Keep : (stage s1 = in_sync \/ source s1 <> None)) by (right; by rewrite Ec).
  destruct (negb (_ =? _)); [|split_and!; [done|done|exact Keep|left; exact O]].
  set (stop := if _ >? _ then _ else _). destruct ((stop >? 0) && _) eqn:Eb; [|split_and!; [done|done|exact Keep|left; exact O]].
  apply andb_prop in Eb as [E0 E1]. apply Z.leb_le in E1. rewrite Z.gtb_ltb in E0. apply Z.ltb_lt in E0.
  assert (Hu : u32 (sync_next_expected_num s1 + sync_req_span s1 - 1) <= sync_next_expected_num s1 + sync_req_span s1 - 1) by (apply Z.mod_le; lia).
  assert (stop <= sync_known_lib_num s1 /\ stop < sync_next_expected_num s1 + sync_req_span s1).
  { unfold stop. destruct (Z.gtb_spec (u32 (sync_next_expected_num s1 + sync_req_span s1 - 1)) (sync_known_lib_num s1)); lia. }
  split_and!; [done|done|right; cbn; by rewrite Ec|]. right. exists c, stop. cbn. rewrite O, Ec. split_and!; try done; try lia.
  unfold current, connected, conn_of in *. cbn. by rewrite Ecur.
Qed.

(** ** Every sequence of events *)

Context (span : Z) (Hspan : 0 < span).

(** Without the claim on the source *)
Record sync_pre s : Prop := {
  sp_span : sync_req_span s = span; sp_next : 0 <= sync_next_expected_num s; sp_out : Forall (request_ok span) (outbox s) }.
Definition sync_ok s : Prop := sync_pre s /\ (stage s = lib_catchup -> source s <> None).

Lemma request_chunk_ok v conn s : sync_pre s -> sync_ok (request_next_chunk v conn s).
Proof.
  intros [Hs Hn Ho]. destruct (request_cases v conn s) as (S & N & G & O); [lia|done|]. rewrite Hs in *. split; [split; rewrite ?S, ?N; try done|].
  - destruct O as [->|(c & stop & -> & _ & _ & _ & _ & B)]; [done|]. apply Forall_app. split; [done|]. apply Forall_singleton. right. cbn. lia.
  - intros E. destruct G as [G|G]; [congruence|done].
Qed.

Lemma reset_lib_ok v c s : sync_pre s -> sync_pre (reset_lib_num v c s).
Proof.
  intros P. unfold reset_lib_num. set (s1 := if bool_decide _ then _ else _). assert (P1 : sync_pre s1) by (unfold s1; destruct P; by case_bool_decide).
  clearbody s1. destruct (current s1 c); [destruct (_ >? _); [|done]; by destruct P1|]. case_bool_decide; [|done]. apply request_chunk_ok. by destruct P1.
Qed.
Lemma reset_lib_source v c s : sync_ok s -> sync_ok (reset_lib_num v c s).
Proof.
  intros [P Hs]. split; [by apply reset_lib_ok|]. unfold reset_lib_num. case_bool_decide as Hi.
  - cbn [set_source source]. destruct (current _ c); [destruct (_ >? _); cbn; congruence|]. case_bool_decide; [done|]. cbn. congruence.
  - destruct (current s c); [by destruct (_ >? _)|]. case_bool_decide; [|done]. apply request_chunk_ok. by destruct P.
Qed.

Lemma start_sync_ok v c target s : sync_ok s -> sync_ok (start_sync v c target s).
Proof.
  intros Hs. unfold start_sync. set (s1 := if _ >? _ then _ else _). assert (H1 : sync_ok s1) by (unfold s1; destruct (_ >? _), Hs as [[] Hs]; (split; [by split|done])).
  clearbody s1. destruct (_ || _); [done|]. apply request_chunk_ok. destruct H1 as [[] _]. case_bool_decide; [|done]. split; cbn; [done|apply u32_range|done].
Qed.

Lemma send_ok o s : sync_ok s -> Forall (request_ok span) o -> sync_ok (send o s).
Proof. intros [[] Hs] Fo. split; [split; cbn; try done; by apply Forall_app|done]. Qed.
Lemma conns_ok m s : sync_ok s -> sync_ok (set_conns m s).
Proof. intros [[] Hs]. split; [by split|done]. Qed.
Lemma verify_ok c num id s : sync_ok s -> sync_ok (verify_catchup c num id s).1.
Proof.
  intros Hs. unfold verify_catchup. destruct (negb _).
  - case_bool_decide; [done|]. cbn [fst]. apply send_ok; [|by repeat constructor]. apply conns_ok. destruct Hs as [[] Hs]. split; [by split|done].
  - cbn [fst]. apply send_ok; [|by repeat constructor]. by apply conns_ok.
Qed.
Lemma handshakes_ok s : sync_ok s -> sync_ok (send_handshakes s).
Proof. intros Hs. apply send_ok; [done|]. apply Forall_forall. intros o Ho. by apply list_elem_of_fmap in Ho as (c & -> & _). Qed.

Lemma fork_loop_ok l c id num s : sync_ok s -> stage s <> lib_catchup ->
  sync_ok (fork_loop l c id num s) /\ stage (fork_loop l c id num s) <> lib_catchup.
Proof.
  revert s. induction l as [|cp l IH]; intros s Hs Hg; cbn [fork_loop]; [done|]. apply IH; (case_bool_decide; [done|]; destruct (_ || _)); try done.
  - by apply conns_ok.
  - destruct Hs as [[] Hs]. split; [by split|done].
Qed.

(** What can happen to a manager; connections come, go and change as they
    like. *)
Inductive sync_step : sync_manager -> sync_manager -> Prop :=
| step_handshake v c msg s : sync_step s (recv_handshake v c msg s)
| step_notice v c msg s : sync_step s (recv_notice v c msg s)
| step_block v c id num s : sync_step s (recv_block v c id num s)
| step_rejected v c s : sync_step s (sync_rejected_block v c s)
| step_timeout v c s : sync_step s (reassign_fetch v c s)
| step_closed v c s : sync_step s (close_peer v c s)
| step_net l m s : sync_step s (mk_sync (sync_known_lib_num s) (sync_last_requested_num s) (sync_next_expected_num s) (sync_req_span s)
                                   (source s) (stage s) l m (outbox s)).

Lemma recv_handshake_ok v c msg s : sync_ok s -> sync_ok (recv_handshake v c msg s).
Proof.
  intros Hs. unfold recv_handshake. set (s1 := update_conn c (set_syncing false) _). assert (H1 : sync_ok s1) by (by apply conns_ok, reset_lib_source).
  clearbody s1. case_bool_decide; [apply send_ok; [done|by repeat constructor]|]. destruct (pending_head_num v <? _); [destruct (_ <? _); [by apply start_sync_ok|done]|].
  destruct (_ >? hs_head_num msg); [apply conns_ok; destruct (_ || _); [apply send_ok; [done|by repeat constructor]|done]|].
  destruct (_ <? hs_head_num msg); [by apply verify_ok|]. set (s2 := if _ || _ then _ else _).
  assert (H2 : sync_ok (update_conn c (set_syncing true) s2)) by (apply conns_ok; unfold s2; destruct (_ || _); [apply send_ok; [done|by repeat constructor]|done]).
  case_bool_decide; [apply send_ok; [done|by repeat constructor]|done].
Qed.

Lemma close_peer_ok v c s : sync_ok s -> sync_ok (close_peer v c s).
Proof. intros Hs. by apply reset_lib_source, conns_ok. Qed.

Lemma recv_notice_ok v c msg s : sync_ok s -> sync_ok (recv_notice v c msg s).
Proof.
  intros Hs. unfold recv_notice. destruct (Nat.ltb _ _); [by apply close_peer_ok|]. destruct (_ =? mode_catch_up).
  - destruct (last _) as [id|]; [|done]. destruct (negb _); [by apply verify_ok|]. apply send_ok; [done|by repeat constructor].
  - by apply start_sync_ok, reset_lib_source, conns_ok.
Qed.

Lemma recv_block_ok v c id num s : sync_ok s -> sync_ok (recv_block v c id num s).
Proof.
  intros Hs. unfold recv_block. case_bool_decide as Hl.
  - destruct (negb _); [done|]. set (s1 := set_expected _ s). assert (H1 : sync_ok s1) by (destruct Hs as [[] Hs]; split; [split; cbn; [done|apply u32_range|done]|done]).
    clearbody s1. destruct (num =? sync_known_lib_num s1).
    + apply handshakes_ok. destruct H1 as [[] _]. by split; [split|].
    + destruct (_ =? _); [|done]. by apply request_chunk_ok, H1.
  - case_bool_decide; [|done]. destruct (fork_loop_ok (connections s) c id num (set_source None (sync_set_state in_sync s))) as [H1 _]; [destruct Hs as [[] _]; by split; [split|]|done|].
    case_bool_decide; [by apply handshakes_ok|done].
Qed.

Lemma sync_step_ok s s' : sync_step s s' -> sync_ok s -> sync_ok s'.
Proof.
  intros St Hs. destruct St.
  - by apply recv_handshake_ok.
  - by apply recv_notice_ok.
  - by apply recv_block_ok.
  - unfold sync_rejected_block. case_bool_decide; [|done]. apply handshakes_ok. destruct Hs as [[] _].
    assert (P : sync_pre (close_peer v c (set_source None (set_requested 0 s)))) by (by apply reset_lib_ok). destruct P. by split; [split|].
  - unfold reassign_fetch. case_bool_decide; [|done]. apply request_chunk_ok. destruct Hs as [[] _]. split; cbn; [done|done|].
    apply Forall_app. split; [done|]. apply Forall_singleton. by left.
  - by apply close_peer_ok.
  - destruct Hs as [[] Hs]. by split; [split|].
Qed.

(** In every state that is reached: while the node catches up with irreversible
    blocks (the stage [lib_catchup]) it has a source, and no range it asked for
    is longer than the span. (C30) *)
Theorem sync_invariant s : rtc sync_step (sync_new span) s ->
  (stage s = lib_catchup -> source s <> None) /\ Forall (request_ok span) (outbox s).
Proof.
  intros R. assert (H0 : sync_ok (sync_new span)) by (split; [split; cbn; [done|lia|constructor]|done]).
  assert (Hk : sync_ok s) by (induction R as [|s s1 s2 St _ IH]; [done|]; by apply IH, (sync_step_ok s s1)).
  by destruct Hk as [[] Hk].
Qed.
End Chunks.

(** ** Catching up *)

Section CatchUp.
Implicit Types (s : sync_manager) (c : Z).

(** The blocks that come in, one after the other, from whichever connection;
    [w n] is what the chain knows when block [n] is reported. *)
Definition deliver (w : Z -> chain_view) (from : Z -> Z) (id : Z -> digest) (blocks : list Z) s : sync_manager :=
  foldl (fun s n => recv_block (w n) (from n) (id n) n s) s blocks.

(** A range that is asked for, and the connection that is asked *)
Abbreviation request := (Z * Z * Z)%type.
Definition message_of (r : request) : outgoing := request_sync_blocks r.1.1 r.1.2 r.2.
Definition range_of (r : request) : list Z := seqZ r.1.2 (r.2 - r.1.2 + 1).

(** Catching up; and a source that can be asked *)
Record catching s (known next requested : Z) : Prop := {
  ca_stage : stage s = lib_catchup; ca_known : sync_known_lib_num s = known; ca_next : sync_next_expected_num s = next;
  ca_requested : sync_last_requested_num s = requested; ca_span : 0 < sync_req_span s }.
Definition sourced s : Prop := exists x, source s = Some x /\ x ∈ connections s /\ current s x.

Lemma next_chunk s v known next requested conn : catching s known next requested -> requested <= pending_head_num v -> requested <> known ->
  0 < next <= known -> known + sync_req_span s < 2 ^ 32 -> (conn = None /\ sourced s) \/ (exists c, conn = Some c /\ c ∈ connections s /\ current s c) ->
  exists c stop, let s' := request_next_chunk v conn s in catching s' known next stop /\ sourced s' /\ next <= stop <= known /\ stop - next < sync_req_span s /\
    outbox s' = outbox s ++ [message_of (c, next, stop)] /\ current s c /\
    connections s' = connections s /\ conns s' = conns s /\ sync_req_span s' = sync_req_span s.
Proof.
  intros [G K N R S] Hh Hr Hn Hb Hc.
  assert (Src : exists y, (match conn with Some c => if current s c then set_source (Some c) s else next_source s | None => next_source s end) = set_source (Some y) s /\
    y ∈ connections s /\ current s y).
  { destruct Hc as [[-> (x & Ex & Hx & Cx)]|(c & -> & Hin & Cc)]; [by apply next_source_found with x|]. exists c. by destruct (current s c). }
  destruct Src as (y & Ey & Hy & Cy). set (stop := Z.min (next + sync_req_span s - 1) known). exists y, stop. cbn zeta. unfold request_next_chunk.
  rewrite R, (proj2 (Z.ltb_ge _ _)) by done. cbn [andb]. rewrite Ey. cbn [set_source source].
  change (current (set_source (Some y) s) y) with (current s y). apply Is_true_eq_true in Cy. rewrite Cy. cbn [set_source sync_known_lib_num sync_last_requested_num sync_next_expected_num sync_req_span].
  rewrite R, K, N, (proj2 (Z.eqb_neq _ _)) by done. cbn [negb]. rewrite u32_small by (split; lia).
  replace (if next + sync_req_span s - 1 >? known then known else next + sync_req_span s - 1) with stop by (unfold stop; destruct (Z.gtb_spec (next + sync_req_span s - 1) known); lia).
  rewrite Z.gtb_ltb, (proj2 (Z.ltb_lt _ _)), (proj2 (Z.leb_le _ _)) by lia. cbn [andb].
  split_and!; try done; try lia; try (by rewrite Cy). exists y. split_and!; [done|done|]. unfold current, connected, conn_of in *. cbn. by rewrite Cy.
Qed.

(** From the next expected block to the last known one: every block once; the
    ranges that are asked for are what was not yet asked for, in order; and the
    peers are told at the end. *)
Lemma catch_up k w from id s known next requested : (forall n, n <= pending_head_num (w n)) -> known + sync_req_span s < 2 ^ 32 ->
  catching s known next requested -> sourced s -> 0 < next <= requested -> requested <= known -> known - next = Z.of_nat k ->
  let s' := deliver w from id (seqZ next (known - next + 1)) s in
  stage s' = in_sync /\ sync_next_expected_num s' = known + 1 /\ sync_known_lib_num s' = known /\ sync_req_span s' = sync_req_span s /\
  exists reqs, concat (map range_of reqs) = seqZ (requested + 1) (known - requested) /\ Forall (fun r => current s r.1.1) reqs /\
    outbox s' = outbox s ++ map message_of reqs ++ map SendHandshake (filter (fun c => current s c) (connections s)).
Proof.
  intros Hw. revert s next requested. induction k as [|k IH]; intros s next requested Hb Ca Src Hn Hr Hk.
  - assert (next = known) as -> by lia. assert (requested = known) as -> by lia. replace (known - known + 1) with 1 by lia. destruct Ca as [G K N R S].
    assert (E : deliver w from id (seqZ known 1) s = send_handshakes (sync_set_state in_sync (set_expected (known + 1) s))).
    { unfold deliver. rewrite seqZ_cons, seqZ_nil by lia. cbn [foldl]. unfold recv_block.
      rewrite bool_decide_eq_true_2 by done. rewrite N, Z.eqb_refl. cbn [negb]. change (sync_known_lib_num (set_expected (u32 (known + 1)) s)) with (sync_known_lib_num s).
      rewrite K, Z.eqb_refl. rewrite u32_small by (split; lia). done. }
    cbn zeta. rewrite E. cbn. split_and!; try done. exists []. split_and!; try done. cbn. by rewrite Z.sub_diag.
  - rewrite seqZ_cons by lia. unfold deliver. cbn [foldl]. set (s1 := recv_block (w next) (from next) (id next) next s).
    assert (H1 : exists reqs1 requested1, catching s1 known (next + 1) requested1 /\ sourced s1 /\ (next + 1 <= requested1 <= known /\ requested <= requested1) /\ connections s1 = connections s /\ conns s1 = conns s /\
      sync_req_span s1 = sync_req_span s /\ outbox s1 = outbox s ++ map message_of reqs1 /\ Forall (fun r => current s r.1.1) reqs1 /\
      concat (map range_of reqs1) = seqZ (requested + 1) (requested1 - requested)).
    { pose proof Ca as [G K N R S]. unfold s1, recv_block. rewrite bool_decide_eq_true_2 by done. rewrite N, Z.eqb_refl. cbn [negb].
      rewrite u32_small by (split; lia). set (s0 := set_expected (next + 1) s). assert (C0 : catching s0 known (next + 1) requested) by (by split).
      change (sync_known_lib_num s0) with (sync_known_lib_num s). rewrite K, (proj2 (Z.eqb_neq _ _)) by lia.
      change (sync_last_requested_num s0) with (sync_last_requested_num s). rewrite R. destruct (Z.eqb_spec next requested) as [<-|Hne].
      - destruct (next_chunk s0 (w next) known (next + 1) next None C0) as (c & stop & C1 & S1 & B & Sp & O & Cc & Cn & Cm & Sn); [apply Hw|lia|lia|done|by left|].
        exists [(c, next + 1, stop)], stop. split_and!; try done; try lia; [by repeat constructor|]. cbn. rewrite app_nil_r. unfold range_of. cbn. f_equal. lia.
      - exists [], requested. split_and!; try done; try lia; [by rewrite app_nil_r|]. by rewrite Z.sub_diag. }
    destruct H1 as (reqs1 & requested1 & C1 & S1 & B1 & Cn & Cm & Sn & O1 & F1 & R1). assert (Cur : forall c, current s1 c = current s c) by (intros c; unfold current, connected, conn_of; by rewrite Cm).
    destruct (IH s1 (next + 1) requested1) as (G & N & K & S & reqs & Rr & Fr & O); [lia|done|done|lia|lia|lia|].
    replace (Z.pred (known - next + 1)) with (known - (next + 1) + 1) by lia. replace (Z.succ next) with (next + 1) by lia.
    change (foldl _ s1 (seqZ (next + 1) _)) with (deliver w from id (seqZ (next + 1) (known - (next + 1) + 1)) s1).
    split_and!; try done; [by rewrite S|]. exists (reqs1 ++ reqs). split_and!.
    + rewrite map_app, concat_app, R1, Rr. replace (requested1 + 1) with (requested + 1 + (requested1 - requested)) by lia. rewrite <- seqZ_app by lia. f_equal. lia.
    + apply Forall_app. split; [done|]. eapply Forall_impl; [exact Fr|]. intros r Hc. cbn beta in *. by rewrite <- Cur.
    + rewrite O, O1, map_app, Cn, <- !app_assoc. do 3 f_equal. f_equal. apply list_filter_iff. intros c. by rewrite Cur.
Qed.

(** A node in sync that learns of irreversible blocks it does not have asks for
    all of them, each once, in order, from connections that are current; and
    when they have come in, in order, each reported when the chain has it, from
    whichever connections, it is in sync and says so.  What it requested before
    has come in ([sync_last_requested_num]), the numbers stay below 2^32, and
    nothing else happens in between: no timeout, closed connection or notice,
    after which blocks are requested again. (C12) *)
Theorem sync_completes w from id v c target s (known := Z.max (sync_known_lib_num s) target) :
  stage s = in_sync -> 0 < sync_req_span s -> c ∈ connections s -> current s c -> 0 <= chain_lib_num v < target ->
  sync_last_requested_num s <= pending_head_num v -> sync_last_requested_num s < known -> known + sync_req_span s < 2 ^ 32 ->
  (forall n, n <= pending_head_num (w n)) ->
  let s' := deliver w from id (seqZ (chain_lib_num v + 1) (known - chain_lib_num v)) (start_sync v c target s) in
  stage s' = in_sync /\ sync_next_expected_num s' = known + 1 /\
  exists reqs, concat (map range_of reqs) = seqZ (chain_lib_num v + 1) (known - chain_lib_num v) /\ Forall (fun r => current s r.1.1) reqs /\
    outbox s' = outbox s ++ map message_of reqs ++ map SendHandshake (filter (fun c => current s c) (connections s)).
Proof.
  intros G S Hc Cc Hl Hh Hr Hb Hw. unfold start_sync. set (lib := chain_lib_num v) in *.
  set (s1 := if target >? sync_known_lib_num s then set_known target s else s). assert (E1 : s1 = set_known known s).
  { unfold s1, known. destruct (Z.gtb_spec target (sync_known_lib_num s)); [by rewrite Z.max_r by lia|]. rewrite Z.max_l by lia. by destruct s. }
  rewrite E1. clear s1 E1. assert (Rq : sync_required v (set_known known s) = true) by (unfold sync_required; cbn; by rewrite (proj2 (Z.ltb_lt _ _))).
  rewrite Rq. cbn [negb orb]. rewrite (proj2 (Z.leb_gt _ _)) by lia. rewrite bool_decide_eq_true_2 by done. rewrite u32_small by (split; lia).
  set (s2 := set_expected (lib + 1) (sync_set_state lib_catchup (set_known known s))). assert (C2 : catching s2 known (lib + 1) (sync_last_requested_num s)) by (by split).
  destruct (next_chunk s2 v known (lib + 1) (sync_last_requested_num s) (Some c) C2 Hh) as (y & stop & C3 & S3 & B & Sp & O & Cy & Cn & Cm & Sn); [lia|lia|done|right; by exists c|].
  set (s3 := request_next_chunk v (Some c) s2) in *. replace (known - lib) with (known - (lib + 1) + 1) by lia.
  assert (Cur : forall d, current s3 d = current s d) by (intros d; unfold current, connected, conn_of; by rewrite Cm).
  destruct (catch_up (Z.to_nat (known - (lib + 1))) w from id s3 known (lib + 1) stop) as (G4 & N4 & _ & _ & reqs & Rr & Fr & O4); [done|by rewrite Sn|done|done|lia|lia|lia|].
  split; [exact G4|]. split; [exact N4|]. exists ((y, lib + 1, stop) :: reqs). split_and!.
  - cbn [map concat]. rewrite Rr. unfold range_of. cbn [fst snd]. replace (stop + 1) with (lib + 1 + (stop - (lib + 1) + 1)) by lia. rewrite <- seqZ_app by lia. f_equal. lia.
  - constructor; [exact Cy|]. eapply Forall_impl; [exact Fr|]. intros r Hr'. cbn beta in *. by rewrite <- Cur.
  - rewrite O4, O, Cn, <- app_assoc. cbn [map app]. do 3 f_equal. f_equal. apply list_filter_iff. intros d. by rewrite Cur.
Qed.
End CatchUp.

(** ** Serving a range *)

Section Serve.
Lemma served_range writes start stop last : 0 <= last < stop -> stop < 2 ^ 32 ->
  served writes (Some (mk_sync_state start stop last)) = seqZ (last + 1) (Z.min (Z.of_nat writes) (stop - last)).
Proof.
  intros Hl Hs. revert last Hl. induction writes as [|n IH]; intros last Hl; cbn [served enqueue_sync_block ss_last ss_end ss_start].
  - by rewrite Z.min_l by lia.
  - rewrite u32_small by (split; lia). rewrite seqZ_cons by lia. f_equal. destruct (Z.eqb_spec (last + 1) stop) as [E|E].
    + rewrite seqZ_nil by lia. by destruct n.
    + rewrite IH by lia. f_equal; lia.
Qed.

(** A peer that is asked for a range sends its blocks in order, one per write,
    and nothing else. *)
Theorem range_is_served start stop writes : 0 < start <= stop -> stop < 2 ^ 32 -> stop - start <= Z.of_nat writes ->
  serve (mk_sync_request start stop) writes = seqZ start (stop - start + 1).
Proof.
  intros Hs Hb Hw. unfold serve, handle_sync_request. cbn [end_block start_block]. rewrite (proj2 (Z.eqb_neq _ _)) by lia.
  cbn [enqueue_sync_block ss_last ss_end ss_start]. rewrite (u32_small (start - 1)), u32_small by (split; lia). rewrite seqZ_cons by lia.
  replace (start - 1 + 1) with start by lia. f_equal. destruct (Z.eqb_spec start stop) as [E|E].
  - rewrite seqZ_nil by lia. by destruct writes.
  - rewrite served_range by lia. f_equal; lia.
Qed.
End Serve.

(** ** Concrete runs *)

Module SyncRuns.
Definition idn (n : Z) : digest := mk_digest n 1 2 3.
Definition view (head lib : Z) : chain_view := mk_view head (idn head) lib (fun n => Some (idn n)) (fun _ => false) 0.
Definition a_peer : sync_conn := mk_sync_conn true false false 0 1 null_id 0.
Definition three (m : gmap Z sync_conn) : sync_manager := mk_sync 0 0 1 10 None in_sync [1; 2; 3] m [].
Definition peers3 : gmap Z sync_conn := <[1 := a_peer]> (<[2 := a_peer]> (<[3 := set_syncing true a_peer]> ∅)).

(** A notice that blocks up to 25 are irreversible: ranges of ten, from one
    connection and the other, and a handshake to both. *)
Example notice_starts_sync :
  let s := recv_notice (view 0 0) 1 (mk_notice (mk_select 2 25 []) (mk_select 2 0 [])) (three peers3) in
  outbox (deliver (fun n => view n 0) (fun _ => 1) idn (seqZ 1 25) s) =
    [request_sync_blocks 1 1 10; request_sync_blocks 2 11 20; request_sync_blocks 1 21 25; SendHandshake 1; SendHandshake 2].
Proof. vm_compute. reflexivity. Qed.

Lemma sync_completes_witness :
  let s' := deliver (fun n => view n 0) (fun _ => 2) idn (seqZ 1 25) (start_sync (view 0 0) 1 25 (three peers3)) in
  stage s' = in_sync /\ sync_next_expected_num s' = 26 /\
  exists reqs, concat (map range_of reqs) = seqZ 1 25 /\ Forall (fun r => current (three peers3) r.1.1) reqs /\
    outbox s' = [] ++ map message_of reqs ++ map SendHandshake (filter (fun c => current (three peers3) c) [1; 2; 3]).
Proof.
  apply (sync_completes (fun n => view n 0) (fun _ => 2) idn (view 0 0) 1 25 (three peers3)); try done. left.
Defined.

Lemma sync_invariant_witness :
  let s := recv_notice (view 0 0) 1 (mk_notice (mk_select 2 25 []) (mk_select 2 0 []))
             (mk_sync 0 0 1 10 None in_sync [1; 2; 3] peers3 []) in
  stage s = lib_catchup /\ source s <> None /\ outbox s = [request_sync_blocks 1 1 10].
Proof.
  split; [vm_compute; reflexivity|]. split; [|vm_compute; reflexivity].
  apply (sync_invariant 10); [lia| |vm_compute; reflexivity].
  eapply rtc_l; [apply (step_net [1; 2; 3] peers3)|]. eapply rtc_l; [apply (step_notice (view 0 0) 1 (mk_notice (mk_select 2 25 []) (mk_select 2 0 [])))|]. apply rtc_refl.
Defined.

Lemma range_is_served_witness : serve (mk_sync_request 11 20) 30 = seqZ 11 10.
Proof. apply (range_is_served 11 20 30); lia. Defined.

(** A range that ends before it begins is served without end. *)
Example backward_range : serve (mk_sync_request 11 5) 4 = [11; 12; 13; 14; 15].
Proof. vm_compute. reflexivity. Qed.

(** Two peers with heads that the node does not have: the block of the first,
    received from the second, resets the head of the second; the node takes
    itself for in sync and forgets the head it still misses, and keeps the one
    it has. *)
Example wrong_fork_head_reset :
  let peers := <[1 := set_fork (idn 10) 10 a_peer]> (<[2 := set_fork (idn 20) 20 a_peer]> ∅) in
  let s := recv_block (view 10 0) 2 (idn 10) 10 (mk_sync 0 0 1 10 None head_catchup [1; 2] peers []) in
  stage s = in_sync /\ fork_head_num (conn_of s 1) = 10 /\ fork_head_num (conn_of s 2) = 0.
Proof. vm_compute. repeat split. Qed.
End SyncRuns.
